(* ===== verification/_CoqProject ===== *)
-Q . S2P
Prelude.v
GoStd.v
Flags.v
Paths.v
FileTree.v
Security.v
Session.v
Dispatch.v
Shell.v
RateLimit.v
Server.v
Output.v
Utf8.v
Scanner.v
Cursor.v
Expr.v
Myers.v
Diff.v
Patch.v
DiffPatch.v
Uu.v
Factor.v
Tsort.v
Testcmd.v
Xxd.v
Cksum.v
Rat.v
DcNum.v
Dc.v
DcRange.v
DcLaws.v
Merge.v
Xmodem.v
BcSyntax.v
BcGrammar.v
BcNum.v
Bc.v
BcMathLib.v
BcInvariant.v
BcLaws.v
Regexp.v
SedSyntax.v
Sed.v
SedLaws.v
SedParse.v
SedStream.v
SedPrograms.v
Order.v
Sort.v
SortLaws.v
Lines.v
Utf8Laws.v
Columns.v
ColumnsLaws.v
Count.v
CountLaws.v
Select.v
SelectLaws.v
CutPaste.v
CutPasteLaws.v
Tr.v
TrLaws.v
Escape.v
Printf.v
PrintfLaws.v
Grep.v
GrepLaws.v
Fs.v
Tar.v
TarLaws.v
TarRound.v
Ar.v
ArLaws.v
Cpio.v
Unzip.v
Streams.v
StreamsLaws.v
