(* ===== verification/Prelude.v ===== *)
(** * GoPOSIX: a verification library of the multicall POSIX userland

    GoPOSIX is one Go binary that contains some 140 POSIX utilities and a daemon that runs them on
    request.  A utility is a package under pkg/; it registers a [Run] function (arguments, stdin,
    stdout, stderr, working directory, exit code) in internal/dispatch and shares the packages of
    pkg/common: the flag parser, the output envelope, path resolution, the token cursor.  The
    daemon (internal/daemon) answers JSON-RPC requests on a socket: it finds the session of a
    request, confines its working directory to the session's root, runs the utility with a
    size-limited writer and returns what it wrote.  This library models the daemon, the shared
    packages and the utilities whose work is computation rather than system calls.

    ** How the code is rendered

    - A pure function is a function.  A method that changes its receiver takes the state and
      returns it; the recursive-descent parsers take a cursor and return it.
    - [(T, error)] is [result E T], with the errors the code distinguishes as constructors of [E].
      A run-time panic is [None] or a constructor named Panic, and the theorems about such a
      definition say that the result is not a panic, or a counterexample shows the panic.
    - [int] is [Z].  Where the operands may be large the 64-bit wrap-around is written out
      ([GoStd.wrap], [GoStd.uwrap]); where they count the elements of a slice it is not.
    - Strings are byte strings; a string is decoded to runes ([Utf8.runes]) where the code does so.
      A slice that is only read in order is a list; slices indexed at random are lists read and
      written through functions that are undefined out of range.
    - Loops without a structural measure carry fuel.  Each such loop has a theorem, or a clause of
      one, that the fuel the definitions pass suffices: [Myers.Diff] gets the sum of the lengths,
      [Tsort.tsort] the number of words, the modular arithmetic of Factor.v the 64 bits of its operands
      (the search of Pollard's rho ends with some fuel, which its theorem asserts to exist),
      [Dc] the runes of the program when it has no macros ([DcLaws.dc_ends]), the parsers the
      number of tokens, [Merge.join_loop] the number of lines, [Xmodem.recvLoop] the bytes.
    - What lies outside the repository is a parameter: [regexp], [strings.ToLower], the interpreter
      mvdan.cc/sh, the file system, the JSON encoder, the clock, random identifiers.

    ** The files

    Foundations.
    - Prelude.v: results and their binding notation, lemmas on lists, options, strings.
    - GoStd.v: machine integers, strconv and strings of Go's standard library.
    - Utf8.v, Scanner.v: UTF-8 decoding and encoding; bufio.Scanner on lines.
    - FileTree.v, Paths.v: path/filepath, and EvalSymlinks on a tree of nodes.

    The daemon and the shared packages.
    - Flags.v (pkg/common/flags.go, compiled.go, flagerr.go): [ParseFlags] on the compiled table.
      [ParseFlags_grammar] ties the loop to a declarative grammar of command lines, and
      [ParseFlags_observers] says what Has, Get and GetAll return.
    - Security.v (security.go, filepath.go): [SecurePath].  [SecurePath_confined]: an accepted path
      is under its root and so is what it resolves to.
    - Session.v (session.go): the sessions as a step relation; every reachable state confines each
      session's directory to its root.
    - Dispatch.v (dispatch.go, io.go): the registry and the bounded writer.
    - RateLimit.v (ratelimit.go): the token bucket, with a rounding for float64.
    - Shell.v (internal/shell/interpreter.go): the handlers of shell.exec.  The interpreter is a tree of the
      requests a script makes (write, run a simple command, open a file), which the handlers answer.
    - Server.v (server.go): requests, batches under any schedule of their goroutines, connections.
      The client's theorems use the interface that Security.v and Session.v implement.  A request runs at
      most one command, in its session's directory, except shell.exec, whose script chooses directories.
    - Output.v (output.go), Cursor.v (cursor.go): what a utility writes; the parsers' tokens.

    The utilities.
    - Expr.v (pkg/expr): the evaluator refines the grammar of its parser, which is not in all the one of
      its comment; arithmetic is 64-bit.
    - Testcmd.v (pkg/testcmd): the evaluator refines the grammar, and agrees with the table of
      POSIX for up to four arguments, with its exceptions.
    - Myers.v, Diff.v (pkg/diff): the edit script is correct and shortest; hunks determine both
      files.  Patch.v (pkg/patch): applying and reversing hunks.  DiffPatch.v: the text diff prints
      is read by patch and turns one file into the other.
    - Uu.v (pkg/uuencode, pkg/uudecode), Xxd.v (pkg/xxd): decoding inverts encoding, on bytes.
    - Cksum.v (pkg/cksum, pkg/sum): the table of the CRC computes division of polynomials.
    - Factor.v (pkg/factor): Miller-Rabin with the bases of the source never rejects a prime, and
      the factors multiply to the number; Tsort.v (pkg/tsort): Kahn's algorithm orders or reports a
      cycle.
    - Rat.v (pkg/common/rat.go), DcNum.v, Dc.v, DcRange.v, DcLaws.v (pkg/dc): the desk calculator on exact
      rationals: its numbers, its interpreter, what its numbers are at every moment, its laws.
    - BcSyntax.v, BcGrammar.v, BcNum.v, Bc.v, BcMathLib.v (pkg/bc): the language of bc, its numbers,
      its interpreter and its library.  BcGrammar.v: the parser accepts exactly the expressions of
      a grammar with precedences and reads every program of it.  BcInvariant.v, BcLaws.v: an
      invariant of the interpreter; no nil dereference and no division by zero in programs on numbers; calls by value; division.
      [BcSyntax] gets the number of runes and tokens as fuel, which is proved enough;
      [Bc.eval] a unit for each level of recursion and turn of a loop ([bc_straight_programs_end]).
    - Regexp.v, SedSyntax.v, Sed.v (pkg/sed): the stream editor, from the text of the script to the
      output and the files; Go's regular expressions are an interface.  SedParse.v: the parser
      ends.  SedLaws.v: the flat instructions with jumps do what the nested script says.
      SedStream.v, SedPrograms.v: the run of the engine as a fold over lines, and programs that
      copy, select, number and substitute.  [execFlat] carries a unit for each instruction; the
      number of instructions is enough for the scripts of [sed_nested_scripts_end].
    - Order.v, Sort.v, SortLaws.v (pkg/sort): comparisons as orders, stable sorting, the keys and the
      command; sort against uniq and comm.
    - Lines.v, Utf8Laws.v: lines of text and the decoding of runes from parts of a buffer, for the files
      that follow.  Columns.v (pkg/expand, pkg/unexpand, pkg/fold): columns and tab stops; ColumnsLaws.v: expand
      undoes unexpand, which is shortest, and fold only adds newlines and keeps to the width.
    - Count.v (pkg/wc): the counts do not depend on where the buffer of 64 KiB or more ends ([wc_counts]).  Select.v
      (pkg/head, pkg/tail): head and tail divide the lines.  CutPaste.v (pkg/cut, pkg/paste): cut takes back
      what paste joined.  Tr.v (pkg/tr): a translation between sets without repeats is undone by its
      inverse.  Their laws are in CountLaws.v, SelectLaws.v, CutPasteLaws.v, TrLaws.v.
    - Escape.v (pkg/common/escape.go, pkg/echo), Printf.v, PrintfLaws.v (pkg/printf): escapes in both modes;
      passes over the format; printf ends exactly if a pass uses an argument ([printf_ends_iff]).
      [format_loop] has a unit of fuel for each pass.
    - Grep.v, GrepLaws.v (pkg/grep): the patterns, the lines, their context and the exit code.
    - Fs.v: a file system with inodes and symbolic links, and the calls of the package os on it; paths are
      resolved as the kernel does.  Its lemmas say when a call changes nothing outside a directory.
      Tar.v (pkg/tar), Ar.v (pkg/ar), Cpio.v (pkg/cpio), Unzip.v (pkg/unzip): the archivers on it.  TarLaws.v:
      extraction is confined where its guards hold, the permissions it changes at last included, and archives that escape; TarRound.v: tar -x
      undoes tar -c.  ArLaws.v: ar r is insertion into a finite map.  [Tar.walk] gets the number of nodes as
      fuel, which [depth_size] proves enough.
    - Streams.v, StreamsLaws.v (pkg/cat, pkg/cmp, pkg/nl, pkg/rev, pkg/split, pkg/strings): a Module for each;
      what split -b writes is the input again ([split_then_cat]), what cmp reports is the first difference
      ([cmp_first_difference]).
    - Merge.v (pkg/comm, pkg/uniq, pkg/join): merges of sorted lines.
    - Xmodem.v (pkg/rx): the XMODEM receiver: exactly which streams it takes, and what it writes.

    ** What the theorems show

    Safety of the daemon: [SecurePath_confined], [processRequest_runs_confined],
    [sessions_confined], [limiter_burst]; and [limiter_admits_again]: no client is shut out.  Safety of
    extraction: [tar_extract_confined].  The protocol of the daemon: one answer per request in order
    ([processRequest_answers], [handleBatch_in_order], [handleConn_transcript]).  Parsers against
    grammars: [ParseFlags_grammar], [Eval_grammar], [Evaluate_grammar].  Algorithms against
    references: [Diff_minimal], [posixCRC_correct], [crc16_bitwise], [millerRabin_correct],
    [join_correct], [wc_counts], [grep_context_windows].  Round trips: [tar_roundtrip], [paste_then_cut],
    [patch_applies_diff], [reverseHunk_undoes], [uu_roundtrip],
    [xxd_roundtrip], [dc_reads_printed].  Deviations of the code from POSIX or from its own
    documentation are stated as Examples next to the component they concern.

    ** Not modelled

    - System calls on files, devices and processes (cp, mv, rm, ls, find, mount, ps, kill and the
      like): the code is a sequence of calls whose effects are the operating system's.
    - Wrappers of libraries: compression, digests, wget over net/http, awk over goawk, the
      interactive shell over mvdan.cc/sh; and in the archivers the bytes of the formats, which archive/tar,
      archive/zip and two other libraries read and write, permissions, owners and times.
    - In the modelled utilities: the opening of operands and the reading of options, which are
      calls of the flag parser (Flags.v), where the component is marked partly in the manifest; the
      bytes of the JSON envelope, which encoding/json writes; sockets and the accept loop.
    - Memory limits, except the panic of strings.Repeat in bc, and slices longer than the range of int.
    - Commands of the registry that panic or do not return: [Dispatch.Command] runs are total functions, and the
      ends of the utilities are the theorems on the utilities.
    - date and cal (tables over the package time), od and hexdump (formats, for the most part of floating-point
      units), seq (formatting of floating-point numbers), tee and yes (streams
      without a state), and the creation of cpio archives, which depends on the checks of the library.
*)

From stdpp Require Export base list gmap strings pretty.
From Stdlib Require Export Ascii ZArith Lia.

(** * Results of fallible Go functions

    A Go function that returns [(T, error)] returns [result E T] here: [Ok] when the
    error is nil, [Err] otherwise. *)

Inductive result (E A : Type) : Type :=
| Ok (a : A)
| Err (e : E).
Arguments Ok {E A} a.
Arguments Err {E A} e.

Definition res_bind {E A B} (r : result E A) (f : A -> result E B) : result E B :=
  match r with
  | Ok a => f a
  | Err e => Err e
  end.

Declare Scope go_scope.
Delimit Scope go_scope with go.

Notation "'let?' x ':=' c 'in' k" := (res_bind c (fun x => k))
  (at level 10, x name, c at level 100, k at level 200) : go_scope.
Notation "'let?' ' p ':=' c 'in' k" := (res_bind c (fun x => match x with p => k end))
  (at level 10, p strict pattern, c at level 100, k at level 200) : go_scope.

Global Open Scope go_scope.

#[export] Instance result_eq_dec {E A} `{EqDecision E, EqDecision A} : EqDecision (result E A).
Proof. solve_decision. Defined.

Lemma res_bind_ok {E A B} (r : result E A) (f : A -> result E B) b :
  res_bind r f = Ok b <-> exists a, r = Ok a /\ f a = Ok b.
Proof.
  destruct r as [a|e]; simpl; split; [eauto| |done|].
  - by intros (a' & [= <-] & ?).
  - by intros (a' & [=] & ?).
Qed.

Lemma res_bind_err {E A B} (r : result E A) (f : A -> result E B) e :
  res_bind r f = Err e <-> r = Err e \/ exists a, r = Ok a /\ f a = Err e.
Proof.
  destruct r as [a|e']; simpl.
  - split; [eauto|]. intros [H|(a' & H & ?)]; congruence.
  - split; [intros; left; congruence|]. intros [H|(a' & H & ?)]; congruence.
Qed.

(** * Booleans of Go comparisons *)

Notation "s =s? t" := (String.eqb s t) (at level 70) : go_scope.
Notation "c =c? d" := (Ascii.eqb c d) (at level 70) : go_scope.

Lemma seqb_spec (s t : string) : reflect (s = t) (s =s? t).
Proof. apply String.eqb_spec. Qed.

Lemma seqb_refl (s : string) : (s =s? s) = true.
Proof. apply String.eqb_refl. Qed.

Lemma seqb_ne (s t : string) : s <> t -> (s =s? t) = false.
Proof. apply String.eqb_neq. Qed.

Lemma ceqb_spec (c d : ascii) : reflect (c = d) (c =c? d).
Proof. apply Ascii.eqb_spec. Qed.

(** * Automation *)

Create HintDb goposix.
#[export] Hint Rewrite seqb_refl @app_nil_r : goposix.

(** Split a boolean test that a source condition became. *)
Ltac split_cond :=
  match goal with
  | |- context [if ?s =s? ?t then _ else _] => destruct (seqb_spec s t)
  | |- context [if ?c =c? ?d then _ else _] => destruct (ceqb_spec c d)
  | |- context [if ?b then _ else _] => let E := fresh "E" in destruct b eqn:E
  | H : context [if ?s =s? ?t then _ else _] |- _ => destruct (seqb_spec s t)
  | H : context [if ?c =c? ?d then _ else _] |- _ => destruct (ceqb_spec c d)
  | H : context [if ?b then _ else _] |- _ => let E := fresh "E" in destruct b eqn:E
  end.

(** Split the scrutinee of a [match] in the goal or in a hypothesis. *)
Ltac split_match :=
  match goal with
  | |- context [match ?x with _ => _ end] => let E := fresh "E" in destruct x eqn:E
  | H : context [match ?x with _ => _ end] |- _ => let E := fresh "E" in destruct x eqn:E
  end.

(** Turn a successful [res_bind] in a hypothesis into its parts. *)
Ltac unbind H :=
  let a := fresh "a" in let Ha := fresh "Ha" in
  apply res_bind_ok in H as (a & Ha & H).

(** * Strings as byte sequences

    A Go string is a sequence of bytes; [string] of the Standard Library is a sequence of
    8-bit [ascii] values, so indexing, slicing and [len] agree with Go's. *)

Definition code (c : ascii) : Z := Z.of_N (N_of_ascii c).

Definition chr (z : Z) : ascii := ascii_of_N (Z.to_N (z mod 256)).

Lemma code_bound c : (0 <= code c < 256)%Z.
Proof. unfold code. pose proof (N_ascii_bounded c). lia. Qed.

Lemma chr_code c : chr (code c) = c.
Proof.
  unfold chr. rewrite Z.mod_small by apply code_bound.
  unfold code. rewrite N2Z.id. apply ascii_N_embedding.
Qed.

Lemma code_chr z : (0 <= z < 256)%Z -> code (chr z) = z.
Proof.
  intros. unfold code, chr. rewrite Z.mod_small by lia.
  rewrite N_ascii_embedding; lia.
Qed.

Fixpoint str_take (n : nat) (s : string) : string :=
  match n, s with
  | S n, String c s => String c (str_take n s)
  | _, _ => ""
  end.

Fixpoint str_drop (n : nat) (s : string) : string :=
  match n, s with
  | S n, String _ s => str_drop n s
  | _, _ => s
  end.

Lemma str_take_drop n s : str_take n s +:+ str_drop n s = s.
Proof. revert s; induction n; intros [|c s]; simpl; auto. by rewrite <-(IHn s) at 3. Qed.

Lemma sapp_cons c s t : (String c s) +:+ t = String c (s +:+ t).
Proof. reflexivity. Qed.

Lemma sapp_nil_l s : "" +:+ s = s.
Proof. reflexivity. Qed.

Lemma sapp_nil_r s : s +:+ "" = s.
Proof. induction s; [done|]. by rewrite sapp_cons, IHs. Qed.

Lemma sapp_assoc s t u : (s +:+ t) +:+ u = s +:+ (t +:+ u).
Proof. induction s; [done|]. by rewrite !sapp_cons, IHs. Qed.

Lemma slength_app s t : String.length (s +:+ t) = String.length s + String.length t.
Proof. induction s; [done|]. rewrite sapp_cons. simpl. lia. Qed.

#[export] Hint Rewrite sapp_nil_l sapp_nil_r sapp_assoc slength_app : goposix.

(** Every byte of a string satisfies a predicate. *)
Fixpoint str_forall (P : ascii -> bool) (s : string) : bool :=
  match s with
  | "" => true
  | String c s => P c && str_forall P s
  end.

Lemma str_forall_impl (P Q : ascii -> bool) s :
  (forall c, P c = true -> Q c = true) -> str_forall P s = true -> str_forall Q s = true.
Proof.
  intros H. induction s as [|c s IH]; simpl; [done|].
  rewrite !andb_true_iff. intros [H1 H2]. auto.
Qed.

Lemma str_forall_app P s t : str_forall P (s +:+ t) = str_forall P s && str_forall P t.
Proof. induction s as [|c s IH]; [done|]. rewrite sapp_cons. cbn [str_forall]. by rewrite IH, andb_assoc. Qed.

Lemma str_take_exact w s : str_take (String.length w) (w +:+ s) = w.
Proof. induction w as [|c w IH]; simpl; [done|]. by rewrite IH. Qed.

Lemma str_drop_exact w s : str_drop (String.length w) (w +:+ s) = s.
Proof. induction w as [|c w IH]; simpl; [done|]. apply IH. Qed.

Lemma slength_take_min k s : String.length (str_take k s) = Nat.min k (String.length s).
Proof. revert s. induction k as [|k IH]; intros [|c s]; simpl; auto. Qed.

Lemma slength_drop k s : String.length (str_drop k s) = (String.length s - k)%nat.
Proof. revert s. induction k as [|k IH]; intros [|c s]; simpl; auto. Qed.

(** The byte values of a string. *)
Definition codes (s : string) : list Z := code <$> String.list_ascii_of_string s.

Lemma codes_app s t : codes (s +:+ t) = codes s ++ codes t.
Proof.
  unfold codes. induction s as [|c s IH]; [done|]. rewrite sapp_cons.
  cbn [String.list_ascii_of_string]. rewrite !fmap_cons, IH. reflexivity.
Qed.

Lemma codes_length s : length (codes s) = String.length s.
Proof. unfold codes. rewrite length_fmap. induction s; simpl; auto. Qed.

Lemma codes_inj s t : codes s = codes t -> s = t.
Proof.
  revert t. induction s as [|c s IH]; intros [|d t] E; try done. unfold codes in *. simpl in E.
  injection E as Ec E. f_equal; [|by apply IH]. by rewrite <- (chr_code c), Ec, chr_code.
Qed.

(** Concatenation of a list of strings. *)
Definition sconcat (l : list string) : string := foldr String.append "" l.

Lemma sconcat_app l k : sconcat (l ++ k) = sconcat l +:+ sconcat k.
Proof. induction l; simpl; [done|]. by rewrite IHl, sapp_assoc. Qed.

(** Induction on the length of a list, for recursions that drop several elements at once. *)
Lemma list_len_ind {A} (P : list A -> Prop) :
  (forall l, (forall k, length k < length l -> P k) -> P l) -> forall l, P l.
Proof.
  intros H l. remember (length l) as n eqn:E.
  revert l E. induction n as [n IH] using lt_wf_ind. intros l ->.
  apply H. intros k Hk. by apply (IH (length k)).
Qed.
