(* ===== verification/GoStd.v ===== *)
(** The parts of Go's language and standard library that the modelled packages use:
    64-bit [int] arithmetic, [strconv.ParseInt], [ParseUint], [Atoi] and [FormatInt], and
    the [strings] functions on byte strings.  Each definition follows the documented
    behaviour of the function it is named after. *)

From S2P Require Import Prelude.

Local Open Scope Z_scope.

(** * Machine integers *)

Definition wrap (bits : Z) (z : Z) : Z :=
  (z + 2 ^ (bits - 1)) mod 2 ^ bits - 2 ^ (bits - 1).

Definition uwrap (bits : Z) (z : Z) : Z := z mod 2 ^ bits.

Definition int64_min : Z := - 2 ^ 63.
Definition int64_max : Z := 2 ^ 63 - 1.
Definition in_int64 (z : Z) : bool := (int64_min <=? z) && (z <=? int64_max).

Lemma in_int64_iff z : in_int64 z = true <-> - 2 ^ 63 <= z < 2 ^ 63.
Proof. unfold in_int64, int64_min, int64_max. lia. Qed.

Lemma wrap_range bits z : 1 <= bits -> - 2 ^ (bits - 1) <= wrap bits z < 2 ^ (bits - 1).
Proof.
  intros Hb. unfold wrap.
  assert (2 ^ bits = 2 * 2 ^ (bits - 1)) as E.
  { rewrite <- Z.pow_succ_r by lia. f_equal. lia. }
  pose proof (Z.mod_pos_bound (z + 2 ^ (bits - 1)) (2 ^ bits)).
  pose proof (Z.pow_pos_nonneg 2 (bits - 1)). lia.
Qed.

Lemma wrap_small bits z :
  1 <= bits -> - 2 ^ (bits - 1) <= z < 2 ^ (bits - 1) -> wrap bits z = z.
Proof.
  intros Hb Hz. unfold wrap.
  assert (2 ^ bits = 2 * 2 ^ (bits - 1)) as E.
  { rewrite <- Z.pow_succ_r by lia. f_equal. lia. }
  rewrite Z.mod_small; lia.
Qed.

Lemma wrap64_in z : in_int64 (wrap 64 z) = true.
Proof. apply in_int64_iff. apply (wrap_range 64). lia. Qed.

Lemma wrap64_id z : in_int64 z = true -> wrap 64 z = z.
Proof. rewrite in_int64_iff. intros. apply wrap_small; lia. Qed.

(** * Digits *)

(** The value of a digit character in bases up to 36, as [strconv] reads it. *)
Definition digit_val (c : ascii) : option Z :=
  let z := code c in
  if (48 <=? z) && (z <=? 57) then Some (z - 48)
  else if (97 <=? z) && (z <=? 122) then Some (z - 87)
  else if (65 <=? z) && (z <=? 90) then Some (z - 55)
  else None.

Fixpoint parse_digits (base : Z) (s : string) (acc : Z) : option Z :=
  match s with
  | "" => Some acc
  | String c s =>
      match digit_val c with
      | Some d => if d <? base then parse_digits base s (acc * base + d) else None
      | None => None
      end
  end.

(** [strconv.ParseUint(s, base, bits)] for an explicit base: [None] when err is not nil. *)
Definition ParseUint (s : string) (base bits : Z) : option Z :=
  match s with
  | "" => None
  | _ =>
      match parse_digits base s 0 with
      | Some v => if v <? 2 ^ bits then Some v else None
      | None => None
      end
  end.

(** [strconv.ParseInt(s, 10, 64)]. *)
Definition ParseInt (s : string) : option Z :=
  let '(neg, body) :=
    match s with
    | String c t =>
        if c =c? "-"%char then (true, t) else if c =c? "+"%char then (false, t) else (false, s)
    | "" => (false, "")
    end in
  match ParseUint body 10 64 with
  | Some un =>
      if neg then (if un <=? 2 ^ 63 then Some (- un) else None)
      else if un <? 2 ^ 63 then Some un else None
  | None => None
  end.

(** [strconv.Atoi] on a 64-bit platform. *)
Definition Atoi (s : string) : option Z := ParseInt s.

(** The value [strconv.Atoi] returns also when it reports an error: 0 for a syntax error, the
    nearest bound for a number out of range.  A number is out of range as soon as its first
    digits are, whatever follows them. *)
Inductive parsed := PSyntax | PRange | PVal (v : Z).

Fixpoint parse_u64 (s : string) (acc : Z) : parsed :=
  match s with
  | "" => PVal acc
  | String c s =>
      match digit_val c with
      | Some d =>
          if d <? 10 then
            let v := acc * 10 + d in
            if 2 ^ 64 <=? v then PRange else parse_u64 s v
          else PSyntax
      | None => PSyntax
      end
  end.

Definition AtoiVal (s : string) : Z :=
  let '(neg, body) :=
    match s with
    | String c t =>
        if c =c? "-"%char then (true, t) else if c =c? "+"%char then (false, t) else (false, s)
    | "" => (false, "")
    end in
  let clamp v := if neg : bool then Z.max int64_min (- v) else Z.min int64_max v in
  if body =s? "" then 0
  else match parse_u64 body 0 with
       | PSyntax => 0
       | PRange => clamp (2 ^ 64)
       | PVal v => clamp v
       end.

(** [strconv.FormatInt(z, 10)] and [strconv.Itoa]. *)
Definition FormatInt (z : Z) : string := pretty z.

(** * Printing and reading back *)

Lemma digit_val_char n : (n < 10)%N -> digit_val (pretty_N_char n) = Some (Z.of_N n).
Proof.
  intros. assert (n ∈ [0; 1; 2; 3; 4; 5; 6; 7; 8; 9]%N) as Hin.
  { rewrite !elem_of_cons. lia. }
  revert Hin. rewrite !elem_of_cons. intros Hin.
  repeat destruct Hin as [->|Hin]; try reflexivity. set_solver.
Qed.

Lemma parse_digits_pretty_go (x : N) : forall s,
  parse_digits 10 (pretty_N_go x s) 0 = parse_digits 10 s (Z.of_N x).
Proof.
  induction (N.lt_wf_0 x) as [x _ IH]; intros s.
  destruct (decide (x = 0%N)) as [->|Hx]; [done|].
  rewrite pretty_N_go_step by lia.
  rewrite IH by (apply N.div_lt; lia). simpl.
  rewrite digit_val_char by (apply N.mod_lt; lia).
  pose proof (N.mod_lt x 10). rewrite (proj2 (Z.ltb_lt _ _)) by lia.
  f_equal. pose proof (N.div_mod x 10). lia.
Qed.

Lemma parse_digits_pretty_N (x : N) : parse_digits 10 (pretty x) 0 = Some (Z.of_N x).
Proof.
  unfold pretty, pretty_N. destruct (decide (x = 0%N)) as [->|Hx]; [done|].
  by rewrite parse_digits_pretty_go.
Qed.

Lemma pretty_N_head (x : N) :
  exists c s, pretty x = String c s /\ c <> "-"%char /\ c <> "+"%char.
Proof.
  pose proof (parse_digits_pretty_N x) as H. destruct (pretty x) as [|c s] eqn:E.
  - destruct (decide (x = 0%N)) as [->|]; [done|]. simpl in H. simplify_eq. lia.
  - exists c, s. split; [done|]. split; intros ->; done.
Qed.

Lemma ParseUint_pretty (x : N) bits :
  Z.of_N x < 2 ^ bits -> ParseUint (pretty x) 10 bits = Some (Z.of_N x).
Proof.
  intros Hx. unfold ParseUint. rewrite parse_digits_pretty_N.
  destruct (pretty_N_head x) as (c & s & -> & _).
  by rewrite (proj2 (Z.ltb_lt _ _)).
Qed.

(** Reading back a printed 64-bit integer gives the integer. *)
Lemma ParseInt_FormatInt z : in_int64 z = true -> ParseInt (FormatInt z) = Some z.
Proof.
  rewrite in_int64_iff. intros Hz. unfold ParseInt, FormatInt.
  destruct z as [|p|p]; [done| |].
  - change (pretty (Z.pos p)) with (pretty (N.pos p)). destruct (pretty_N_head (Npos p)) as (c & s & E & H1 & H2). rewrite E.
    destruct (ceqb_spec c "-"%char), (ceqb_spec c "+"%char); try done.
    rewrite <- E, ParseUint_pretty by (simpl; lia). simpl.
    rewrite (proj2 (Z.ltb_lt _ _)) by lia. done.
  - change (pretty (Z.neg p)) with (String "-" (pretty (N.pos p))).
    cbv beta iota zeta. rewrite Ascii.eqb_refl. cbv beta iota zeta.
    rewrite ParseUint_pretty by (simpl; lia).
    rewrite (proj2 (Z.leb_le _ _)) by (simpl; lia). done.
Qed.

(** A printed natural number is a non-empty word of digits. *)
Definition is_digit (c : ascii) : bool := (48 <=? code c) && (code c <=? 57).

Lemma pretty_N_char_digit n : (n < 10)%N -> is_digit (pretty_N_char n) = true.
Proof.
  intros. assert (n ∈ [0; 1; 2; 3; 4; 5; 6; 7; 8; 9]%N) as Hin.
  { rewrite !elem_of_cons. lia. }
  revert Hin. rewrite !elem_of_cons. intros Hin.
  repeat destruct Hin as [->|Hin]; try reflexivity. set_solver.
Qed.

Lemma pretty_N_go_digits (x : N) : forall s,
  str_forall is_digit s = true -> str_forall is_digit (pretty_N_go x s) = true.
Proof.
  induction (N.lt_wf_0 x) as [x _ IH]; intros s Hs.
  destruct (decide (x = 0%N)) as [->|Hx]; [done|].
  rewrite pretty_N_go_step by lia. apply IH; [apply N.div_lt; lia|].
  cbn [str_forall]. by rewrite pretty_N_char_digit by (apply N.mod_lt; lia).
Qed.

Lemma FormatInt_digits z :
  0 <= z -> str_forall is_digit (FormatInt z) = true /\ FormatInt z <> "".
Proof.
  intros Hz. unfold FormatInt. replace (pretty z) with (pretty (Z.to_N z)) by (destruct z; done || lia).
  split.
  - unfold pretty, pretty_N. destruct (decide _); [done|]. by apply pretty_N_go_digits.
  - destruct (pretty_N_head (Z.to_N z)) as (c & s & -> & _). done.
Qed.

Lemma parse_u64_digits s : forall acc v,
  0 <= acc -> parse_digits 10 s acc = Some v -> v < 2 ^ 64 -> parse_u64 s acc = PVal v.
Proof.
  assert (forall s acc v, 0 <= acc -> parse_digits 10 s acc = Some v -> acc <= v) as Hmono.
  { clear. intros s. induction s as [|c s IH]; intros acc v Ha; simpl; [intros; simplify_eq; lia|].
    unfold digit_val. repeat case_match; try done; intros H'; apply IH in H'; lia || (simplify_eq; nia). }
  induction s as [|c s IH]; intros acc v Ha; simpl; [congruence|].
  destruct (digit_val c) as [d|] eqn:Ed; [|done]. destruct (d <? 10) eqn:E10; [|done].
  intros Hp Hv.
  assert (0 <= d) by (unfold digit_val in Ed; repeat case_match; simplify_eq; lia).
  pose proof (Hmono s (acc * 10 + d) v ltac:(lia) Hp). destruct (Z.leb_spec (2 ^ 64) (acc * 10 + d)); [lia|].
  apply IH; [lia|done..].
Qed.

(** On the numbers it accepts [AtoiVal] is [Atoi]. *)
Lemma AtoiVal_FormatInt z : 0 <= z < 2 ^ 63 -> AtoiVal (FormatInt z) = z.
Proof.
  intros Hz. unfold AtoiVal, FormatInt.
  replace (pretty z) with (pretty (Z.to_N z)).
  2: { destruct z as [|p|p]; [done|done|lia]. }
  destruct (pretty_N_head (Z.to_N z)) as (c & s & E & H1 & H2). rewrite E.
  destruct (ceqb_spec c "-"%char), (ceqb_spec c "+"%char); try done.
  destruct (seqb_spec (String c s) ""); [done|]. rewrite <- E.
  rewrite (parse_u64_digits _ 0 z); [|lia| |lia].
  - unfold int64_max. lia.
  - rewrite parse_digits_pretty_N. f_equal. lia.
Qed.

Lemma ParseUint_range s base bits v :
  0 < base -> ParseUint s base bits = Some v -> 0 <= v < 2 ^ bits.
Proof.
  intros Hb. unfold ParseUint. destruct s as [|c s]; [done|].
  assert (forall s acc v, 0 <= acc -> parse_digits base s acc = Some v -> 0 <= v) as Hnn.
  { clear -Hb. intros s. induction s as [|c s IH]; intros acc v Ha; simpl; [intros; simplify_eq; lia|].
    unfold digit_val.
    repeat case_match; try done; intros H'; apply IH in H'; lia || (simplify_eq; nia). }
  destruct (parse_digits _ _ _) as [u|] eqn:E; [|done].
  case_match; [|done]. intros; simplify_eq. apply Hnn in E; lia.
Qed.

(** * Functions of the package strings *)

Fixpoint HasPrefix (s p : string) {struct p} : bool :=
  match p, s with
  | "", _ => true
  | String c p, String d s => (c =c? d) && HasPrefix s p
  | _, "" => false
  end.

Lemma HasPrefix_iff s p : HasPrefix s p = true <-> exists u, s = p +:+ u.
Proof.
  revert s. induction p as [|c p IH]; intros s; simpl.
  - split; [intros _; by exists s|done].
  - destruct s as [|d s]; [split; [done|intros [u Hu]; done]|].
    rewrite andb_true_iff, IH. split.
    + intros [Hc [u ->]]. apply Ascii.eqb_eq in Hc as ->. by exists u.
    + intros [u Hu]. injection Hu as -> ->. split; [apply Ascii.eqb_refl|by exists u].
Qed.

(** [strings.Index(s, sub)] *)
Fixpoint Index (s sub : string) : option nat :=
  if HasPrefix s sub then Some O
  else match s with
       | "" => None
       | String _ s => match Index s sub with Some i => Some (S i) | None => None end
       end.

(** [strings.Repeat] of one character. *)
Fixpoint repeat_char (c : ascii) (n : nat) : string :=
  match n with O => "" | S n => String c (repeat_char c n) end.

(** [strings.TrimPrefix]. *)
Definition TrimPrefix (s p : string) : string :=
  if HasPrefix s p then str_drop (String.length p) s else s.

(** [strings.HasSuffix], [strings.TrimSuffix]. *)
Definition HasSuffix (s suffix : string) : bool :=
  (String.length suffix <=? String.length s)%nat && (str_drop (String.length s - String.length suffix) s =s? suffix).

Definition TrimSuffix (s suffix : string) : string :=
  if HasSuffix s suffix then str_take (String.length s - String.length suffix) s else s.

(** [strings.Compare] as a comparison of byte sequences. *)
Fixpoint Compare (s t : string) : comparison :=
  match s, t with
  | "", "" => Eq
  | "", _ => Lt
  | _, "" => Gt
  | String c s, String d t =>
      match Z.compare (code c) (code d) with Eq => Compare s t | r => r end
  end.

(** [strings.Split(s, "\n")] *)
Fixpoint split_nl (s : string) : list string :=
  match s with
  | "" => [""]
  | String c s =>
      if code c =? 10 then "" :: split_nl s
      else match split_nl s with l :: ls => String c l :: ls | [] => [String c ""] end
  end.

(** The longest prefix whose bytes satisfy [P], and the rest. *)
Fixpoint str_span (P : ascii -> bool) (s : string) : string * string :=
  match s with
  | "" => ("", "")
  | String c t => if P c then let '(w, r) := str_span P t in (String c w, r) else ("", s)
  end.

(** [strings.TrimLeft] with a cutset of bytes. *)
Definition TrimLeft (P : ascii -> bool) (s : string) : string := snd (str_span P s).

(** [strings.TrimRight] with a cutset of bytes. *)
Fixpoint TrimRightSet (P : ascii -> bool) (s : string) : string :=
  match s with
  | "" => ""
  | String c t => let r := TrimRightSet P t in if (r =s? "") && P c then "" else String c r
  end.

(** [strings.Split(s, delim)] for a delimiter that is not empty; the fuel is the length of [s]. *)
Fixpoint split_on (fuel : nat) (s delim : string) : list string :=
  match fuel with
  | O => [s]
  | S fuel =>
      match Index s delim with
      | None => [s]
      | Some i => str_take i s :: split_on fuel (str_drop (i + String.length delim) s) delim
      end
  end.

(** [strings.Join] *)
Fixpoint join_with (delim : string) (l : list string) : string :=
  match l with [] => "" | [s] => s | s :: l => s +:+ delim +:+ join_with delim l end.

(** [strings.ReplaceAll(s, c, "")] for a byte [c]. *)
Fixpoint remove_char (c : ascii) (s : string) : string :=
  match s with "" => "" | String d s => if d =c? c then remove_char c s else String d (remove_char c s) end.

(** [big.Int.SetString(s, 10)] *)
Definition int_SetString (s : string) : option Z :=
  let '(neg, body) :=
    match s with
    | String c t =>
        if c =c? "-"%char then (true, t) else if c =c? "+"%char then (false, t) else (false, s)
    | "" => (false, "")
    end in
  if body =s? "" then None
  else n ← parse_digits 10 body 0; Some (if neg : bool then - n else n).

Lemma parse_digits_FormatInt z : 0 <= z -> parse_digits 10 (FormatInt z) 0 = Some z.
Proof.
  intros Hz. unfold FormatInt. replace (pretty z) with (pretty (Z.to_N z)) by (destruct z; done || lia).
  rewrite parse_digits_pretty_N. f_equal. lia.
Qed.

Lemma parse_digits_app s t acc :
  parse_digits 10 (s +:+ t) acc = match parse_digits 10 s acc with Some v => parse_digits 10 t v | None => None end.
Proof.
  revert acc. induction s as [|c s IH]; intros acc; [done|]. rewrite sapp_cons. cbn [parse_digits].
  destruct (digit_val c) as [d|]; [|done]. destruct (d <? 10); [apply IH|done].
Qed.

Lemma is_digit_val c : is_digit c = true -> exists d, digit_val c = Some d /\ d = code c - 48 /\ 0 <= d < 10.
Proof.
  unfold is_digit, digit_val. intros H. rewrite H. eexists. split; [reflexivity|]. lia.
Qed.

Lemma parse_digits_some s : forall acc, str_forall is_digit s = true -> 0 <= acc ->
  exists v, parse_digits 10 s acc = Some v /\ 0 <= v.
Proof.
  induction s as [|c s IH]; intros acc Hs Ha; [by exists acc|]. cbn [str_forall] in Hs.
  apply andb_true_iff in Hs as [Hc Hs]. destruct (is_digit_val c Hc) as (d & E & _ & Hd).
  cbn [parse_digits]. rewrite E. rewrite (proj2 (Z.ltb_lt d 10)) by lia. apply IH; [done|lia].
Qed.

Lemma digit_not c d : is_digit c = true -> is_digit d = false -> negb (c =c? d) = true.
Proof. intros Hc Hd. destruct (ceqb_spec c d) as [->|]; [congruence|done]. Qed.

Lemma digits_without c s : str_forall is_digit s = true -> is_digit c = false ->
  str_forall (fun d => negb (d =c? c)) s = true.
Proof. intros Hs Hc. eapply str_forall_impl; [|exact Hs]. intros d Hd. by apply digit_not. Qed.

Lemma Index_char s c t : str_forall (fun d => negb (d =c? c)) s = true ->
  Index (s +:+ String c t) (String c "") = Some (String.length s).
Proof.
  induction s as [|d s IH]; cbn [str_forall]; intros H.
  - rewrite sapp_nil_l. cbn [Index HasPrefix]. by rewrite Ascii.eqb_refl.
  - apply andb_true_iff in H as [Hd H]. apply negb_true_iff in Hd.
    rewrite sapp_cons. cbn [Index HasPrefix]. rewrite Ascii.eqb_sym, Hd. cbn [andb]. by rewrite IH.
Qed.

Lemma Index_none s c : str_forall (fun d => negb (d =c? c)) s = true -> Index s (String c "") = None.
Proof.
  induction s as [|d s IH]; [done|]. cbn [str_forall]. intros [Hd Hs]%andb_true_iff.
  apply negb_true_iff in Hd. cbn [Index HasPrefix]. rewrite Ascii.eqb_sym, Hd. cbn [andb].
  by rewrite IH.
Qed.

Lemma repeat_char_length c n : String.length (repeat_char c n) = n.
Proof. induction n; simpl; auto. Qed.

Lemma repeat_char_forall P c n : P c = true -> str_forall P (repeat_char c n) = true.
Proof. intros H. induction n; simpl; [done|]. by rewrite H. Qed.

Lemma digits_sign s : str_forall is_digit s = true -> s <> "" -> int_SetString s = parse_digits 10 s 0.
Proof.
  intros Hs Hn. destruct s as [|c s]; [done|]. unfold int_SetString.
  assert ((c =c? "-") = false /\ (c =c? "+") = false) as [-> ->].
  { cbn [str_forall] in Hs. apply andb_true_iff in Hs as [Hc _].
    split; apply negb_true_iff; by apply digit_not. }
  cbn [String.eqb]. by destruct (parse_digits 10 (String c s) 0).
Qed.

Lemma minus_digits s : s <> "" ->
  int_SetString ("-" +:+ s) = (n ← parse_digits 10 s 0; Some (- n)).
Proof. intros Hn. destruct s as [|c s]; [done|]. reflexivity. Qed.

Lemma lxor_lt a b n : 0 <= n -> 0 <= a < 2 ^ n -> 0 <= b < 2 ^ n -> 0 <= Z.lxor a b < 2 ^ n.
Proof.
  intros Hn Ha Hb. assert (0 <= Z.lxor a b) as H0 by (apply Z.lxor_nonneg; lia). split; [done|].
  rewrite <- (Z.mod_small a (2 ^ n)), <- (Z.mod_small b (2 ^ n)) by done.
  assert (Z.lxor (a mod 2 ^ n) (b mod 2 ^ n) = Z.lxor (a mod 2 ^ n) (b mod 2 ^ n) mod 2 ^ n) as ->.
  { apply Z.bits_inj'. intros i Hi. destruct (Z.lt_ge_cases i n).
    - rewrite Z.mod_pow2_bits_low by lia. done.
    - rewrite Z.mod_pow2_bits_high by lia.
      by rewrite Z.lxor_spec, !Z.mod_pow2_bits_high by lia. }
  apply Z.mod_pos_bound. lia.
Qed.

Lemma uwrap_lxor n a b : 0 <= n -> uwrap n (Z.lxor a b) = Z.lxor (uwrap n a) (uwrap n b).
Proof.
  intros Hn. unfold uwrap. apply Z.bits_inj'. intros i Hi. rewrite Z.lxor_spec. destruct (Z.lt_ge_cases i n).
  - rewrite !Z.mod_pow2_bits_low by lia. apply Z.lxor_spec.
  - by rewrite !Z.mod_pow2_bits_high by lia.
Qed.

Lemma land_bit x n : 0 <= n -> (Z.land x (2 ^ n) =? 0) = negb (Z.testbit x n).
Proof.
  intros Hn. destruct (Z.eqb_spec (Z.land x (2 ^ n)) 0) as [E|E].
  - assert (Z.testbit (Z.land x (2 ^ n)) n = false) as H by (rewrite E; apply Z.bits_0).
    rewrite Z.land_spec, Z.pow2_bits_true, andb_true_r in H by done. by rewrite H.
  - destruct (Z.testbit x n) eqn:Hx; [done|]. exfalso. apply E. apply Z.bits_inj'. intros i Hi.
    rewrite Z.land_spec, Z.bits_0, Z.pow2_bits_eqb by done. destruct (Z.eqb_spec n i) as [<-|]; [by rewrite Hx|].
    apply andb_false_r.
Qed.
