(* ===== verification/Flags.v ===== *)
(** The POSIX flag parser shared by every utility: pkg/common/flags.go, compiled.go and
    flagerr.go.  [FlagSpec.compile] builds the lookup table, [ParseFlags] runs the loop over
    the arguments with [parseLong] and [parseShort].

    The loop index of the source is the position in the argument list; here the functions
    take the arguments from that position on, and [parseLong]/[parseShort] return how many
    arguments they consumed (the source returns the new index). *)

From S2P Require Import Prelude GoStd.

(** * Data *)

Inductive FlagType := FlagBool | FlagValue | FlagOptionalValue.

#[export] Instance FlagType_eq_dec : EqDecision FlagType.
Proof. solve_decision. Defined.

Record FlagDef := { Short : string; Long : string; Type_ : FlagType }.

Record FlagError := { ExitCode : Z; Msg : string }.

(** Go's [error] values of this component: a [*FlagError], or what a [PreProcess] hook
    returned. *)
Inductive error := EFlag (e : FlagError) | EOther (msg : string).

Definition err_string (e : error) : string :=
  match e with EFlag e => Msg e | EOther m => m end.

Record longEntry := { name : string; index : Z }.

Record compiledSpec :=
  { shortIdx : list Z; longIdx : list longEntry; defs : list FlagDef; stopAtFirst : bool }.

Record FlagSpec :=
  { Defs : list FlagDef;
    StopAtFirstNonFlag : bool;
    PreProcess : option (list string -> result error (list string));
    compiled : option compiledSpec }.

Record ParseResult :=
  { Bools : gmap string bool;
    Values : gmap string string;
    ValuesList : gmap string (list string);
    Count : gmap string Z;
    Positional : list string;
    Stdin : bool }.

Definition newParseResult : ParseResult :=
  {| Bools := ∅; Values := ∅; ValuesList := ∅; Count := ∅; Positional := []; Stdin := false |}.

Definition Has (r : ParseResult) (n : string) : bool := default false (Bools r !! n).
Definition Get (r : ParseResult) (n : string) : string := default "" (Values r !! n).
Definition GetAll (r : ParseResult) (n : string) : list string := default [] (ValuesList r !! n).

(** [r.Count[n]]. *)
Definition count (r : ParseResult) (n : string) : Z := default 0%Z (Count r !! n).

Definition errf (c : Z) (m : string) : error := EFlag {| ExitCode := c; Msg := m |}.

(** * The lookup table (compiled.go) *)

(** The loop of [compile]: [i] is the index of the first remaining definition. *)
Fixpoint compile_loop (i : nat) (ds : list FlagDef) (short : list Z) (long : list longEntry)
    : list Z * list longEntry :=
  match ds with
  | [] => (short, long)
  | d :: ds =>
      let short :=
        match Short d with
        | String c _ =>
            if (code c <? 128)%Z
            then <[Z.to_nat (code c) := wrap 8 (Z.of_nat i)]> short
            else short
        | "" => short
        end in
      let long :=
        if Long d =s? "" then long
        else long ++ [{| name := Long d; index := uwrap 8 (Z.of_nat i) |}] in
      compile_loop (S i) ds short long
  end.

Definition compile (s : FlagSpec) : compiledSpec :=
  let '(short, long) := compile_loop 0 (Defs s) (replicate 128 (-1)%Z) [] in
  {| shortIdx := short; longIdx := long; defs := Defs s; stopAtFirst := StopAtFirstNonFlag s |}.

(** Returns the table and the spec with the table cached in it. *)
Definition getOrCompile (s : FlagSpec) : compiledSpec * FlagSpec :=
  match compiled s with
  | Some cs => (cs, s)
  | None =>
      let cs := compile s in
      (cs, {| Defs := Defs s; StopAtFirstNonFlag := StopAtFirstNonFlag s;
              PreProcess := PreProcess s; compiled := Some cs |})
  end.

Definition lookupShort (cs : compiledSpec) (b : ascii) : option FlagDef :=
  if (128 <=? code b)%Z then None
  else
    match shortIdx cs !! Z.to_nat (code b) with
    | Some idx => if (idx <? 0)%Z then None else defs cs !! Z.to_nat idx
    | None => None
    end.

Fixpoint lookupLong_loop (ds : list FlagDef) (es : list longEntry) (n : string)
    : option FlagDef :=
  match es with
  | [] => None
  | e :: es => if name e =s? n then ds !! Z.to_nat (index e) else lookupLong_loop ds es n
  end.

Definition lookupLong (cs : compiledSpec) (n : string) : option FlagDef :=
  lookupLong_loop (defs cs) (longIdx cs) n.

(** * Recording a flag in the result *)

(** [res.Bools[n] = true; res.Count[n]++] *)
Definition mark_bool (n : string) (r : ParseResult) : ParseResult :=
  {| Bools := <[n := true]> (Bools r); Values := Values r; ValuesList := ValuesList r;
     Count := <[n := (count r n + 1)%Z]> (Count r); Positional := Positional r;
     Stdin := Stdin r |}.

(** [res.Values[n] = v; res.ValuesList[n] = append(res.ValuesList[n], v); res.Bools[n] = true] *)
Definition store_value (n v : string) (r : ParseResult) : ParseResult :=
  {| Bools := <[n := true]> (Bools r); Values := <[n := v]> (Values r);
     ValuesList := <[n := GetAll r n ++ [v]]> (ValuesList r);
     Count := Count r; Positional := Positional r; Stdin := Stdin r |}.

Definition add_positional (l : list string) (r : ParseResult) : ParseResult :=
  {| Bools := Bools r; Values := Values r; ValuesList := ValuesList r; Count := Count r;
     Positional := Positional r ++ l; Stdin := Stdin r |}.

Definition set_stdin (r : ParseResult) : ParseResult :=
  {| Bools := Bools r; Values := Values r; ValuesList := ValuesList r; Count := Count r;
     Positional := Positional r; Stdin := true |}.

(** A boolean flag: both names are marked, the short one even when it is empty. *)
Definition record_bool (cf : FlagDef) (r : ParseResult) : ParseResult :=
  let r := mark_bool (Short cf) r in
  if Long cf =s? "" then r else mark_bool (Long cf) r.

(** A value flag found by its short name: each non-empty name stores the value. *)
Definition record_value (cf : FlagDef) (v : string) (r : ParseResult) : ParseResult :=
  let r := if Short cf =s? "" then r else store_value (Short cf) v r in
  if Long cf =s? "" then r else store_value (Long cf) v r.

(** A value flag found by its long name: the long name is stored unconditionally. *)
Definition record_value_long (cf : FlagDef) (v : string) (r : ParseResult) : ParseResult :=
  let r := if Short cf =s? "" then r else store_value (Short cf) v r in
  store_value (Long cf) v r.

(** * Parsing (flags.go) *)

(** The scan for '=': the name before it and the value after it, when there is one. *)
Fixpoint split_eq (s : string) : string * option string :=
  match s with
  | "" => ("", None)
  | String c t =>
      if c =c? "="%char then ("", Some t)
      else let '(n, v) := split_eq t in (String c n, v)
  end.

(** [arg] is args[i], [rest] is args[i+1:]; the number returned is the new index minus i. *)
Definition parseLong (cs : compiledSpec) (arg : string) (rest : list string)
    (res : ParseResult) : result error (nat * ParseResult) :=
  let '(nm, value) := split_eq (str_drop 2 arg) in
  match lookupLong cs nm with
  | None => Err (errf 2 ("unknown flag: --" +:+ nm))
  | Some cf =>
      match Type_ cf with
      | FlagBool => Ok (1, record_bool cf res)
      | ty =>
          match value with
          | Some v => Ok (1, record_value_long cf v res)
          | None =>
              match ty with
              | FlagOptionalValue => Ok (1, record_value_long cf "" res)
              | _ =>
                  match rest with
                  | [] => Err (errf 2 ("flag --" +:+ nm +:+ " requires a value"))
                  | v :: _ => Ok (2, record_value_long cf v res)
                  end
              end
          end
      end
  end.

(** [fmt]'s %c of a byte: the UTF-8 encoding of the code point. *)
Definition fmt_c (b : ascii) : string :=
  if (code b <? 128)%Z then String b ""
  else String (chr (192 + code b / 64)) (String (chr (128 + code b mod 64)) "").

(** The loop over the characters of a cluster -abc. *)
Fixpoint parseShort_loop (cs : compiledSpec) (chars : string) (rest : list string)
    (res : ParseResult) : result error (nat * ParseResult) :=
  match chars with
  | "" => Ok (1, res)
  | String b remainder =>
      match lookupShort cs b with
      | None => Err (errf 2 ("unknown flag: -" +:+ fmt_c b))
      | Some cf =>
          match Type_ cf with
          | FlagBool => parseShort_loop cs remainder rest (record_bool cf res)
          | ty =>
              if remainder =s? "" then
                match ty with
                | FlagOptionalValue => Ok (1, record_value cf "" res)
                | _ =>
                    match rest with
                    | [] => Err (errf 2 ("flag -" +:+ Short cf +:+ " requires a value"))
                    | v :: _ => Ok (2, record_value cf v res)
                    end
                end
              else Ok (1, record_value cf remainder res)
          end
      end
  end.

Definition parseShort (cs : compiledSpec) (arg : string) (rest : list string)
    (res : ParseResult) : result error (nat * ParseResult) :=
  parseShort_loop cs (str_drop 1 arg) rest res.

(** What the first two bytes of an argument make of it. *)
Inductive arg_class := AEnd | AStdin | APositional | ALong | AShort.

Definition classify (arg : string) : arg_class :=
  if arg =s? "--" then AEnd
  else if arg =s? "-" then AStdin
  else
    match arg with
    | String c (String d _) =>
        if c =c? "-"%char then (if d =c? "-"%char then ALong else AShort) else APositional
    | _ => APositional
    end.

(** The main loop.  [skip] arguments are passed over first: they were consumed as a value. *)
Fixpoint parse_loop (cs : compiledSpec) (skip : nat) (args : list string) (res : ParseResult)
    : result error ParseResult :=
  match args with
  | [] => Ok res
  | arg :: rest =>
      match skip with
      | S skip => parse_loop cs skip rest res
      | 0 =>
          match classify arg with
          | AEnd => Ok (add_positional rest res)
          | AStdin => parse_loop cs 0 rest (add_positional ["-"] (set_stdin res))
          | APositional =>
              if stopAtFirst cs then Ok (add_positional args res)
              else parse_loop cs 0 rest (add_positional [arg] res)
          | ALong =>
              match parseLong cs arg rest res with
              | Err e => Err e
              | Ok (n, res) => parse_loop cs (n - 1) rest res
              end
          | AShort =>
              match parseShort cs arg rest res with
              | Err e => Err e
              | Ok (n, res) => parse_loop cs (n - 1) rest res
              end
          end
      end
  end.

(** The arguments after the spec's [PreProcess] hook, when it has one. *)
Definition preprocess (spec : FlagSpec) (args : list string) : result error (list string) :=
  match PreProcess spec with None => Ok args | Some f => f args end.

Definition ParseFlags (args : list string) (spec : FlagSpec) : result error ParseResult :=
  let? args := preprocess spec args in
  parse_loop (fst (getOrCompile spec)) 0 args newParseResult.

(** * Flag errors (flagerr.go) *)

Definition HasJSONFlag (args : list string) : bool :=
  existsb (fun a => a =s? "--json") args.

(** * The table agrees with a search of the definitions *)

Definition short_is (b : ascii) (d : FlagDef) : bool :=
  match Short d with String c _ => c =c? b | "" => false end.

(** The last definition whose short name starts with [b]. *)
Definition ref_short (ds : list FlagDef) (b : ascii) : option FlagDef :=
  foldl (fun acc d => if short_is b d then Some d else acc) None ds.

(** The first definition whose long name is [n]. *)
Definition ref_long (ds : list FlagDef) (n : string) : option FlagDef :=
  List.find (fun d => negb (Long d =s? "") && (Long d =s? n)) ds.

Definition read_short (ds : list FlagDef) (short : list Z) (b : ascii) : option FlagDef :=
  match short !! Z.to_nat (code b) with
  | Some idx => if (idx <? 0)%Z then None else ds !! Z.to_nat idx
  | None => None
  end.

Lemma wrap8_index i : i < 128 -> wrap 8 (Z.of_nat i) = Z.of_nat i.
Proof. intros. apply wrap_small; lia. Qed.

Lemma uwrap8_index i : i < 256 -> uwrap 8 (Z.of_nat i) = Z.of_nat i.
Proof. intros. unfold uwrap. rewrite Z.mod_small; lia. Qed.

Lemma code_inj b c : code b = code c -> b = c.
Proof. intros E. by rewrite <- (chr_code b), E, chr_code. Qed.

Lemma compile_loop_short ds : forall i pre all short long b,
  all = pre ++ ds -> length pre = i -> length all <= 128 ->
  length short = 128 -> (code b < 128)%Z ->
  read_short all (fst (compile_loop i ds short long)) b =
  foldl (fun acc d => if short_is b d then Some d else acc) (read_short all short b) ds.
Proof.
  induction ds as [|d ds IH]; intros i pre all short long b -> Hi Hall Hlen Hb; [done|].
  simpl. pose proof Hall as Hall'. rewrite length_app in Hall'. simpl in Hall'.
  set (short' := match Short d with "" => short | String c _ => _ end).
  assert (length short' = 128) as Hlen'.
  { unfold short'. repeat case_match; rewrite ?length_insert; done. }
  rewrite (IH (S i) (pre ++ [d])); [|by rewrite <- app_assoc|rewrite length_app; simpl; lia|done..].
  f_equal. unfold short', short_is, read_short. destruct (Short d) as [|c s]; [done|].
  pose proof (code_bound c). pose proof (code_bound b).
  destruct (ceqb_spec c b) as [->|Hne].
  - rewrite (proj2 (Z.ltb_lt _ _)) by lia.
    rewrite list_lookup_insert_eq by lia.
    rewrite wrap8_index, (proj2 (Z.ltb_ge _ _)), Nat2Z.id by lia.
    rewrite lookup_app_r, <- Hi, Nat.sub_diag by lia. done.
  - destruct (code c <? 128)%Z; [|done]. rewrite list_lookup_insert_ne; [done|].
    intros E. apply Hne, code_inj. lia.
Qed.

Lemma compile_loop_long ds : forall i pre all short long n,
  all = pre ++ ds -> length pre = i -> length all <= 256 ->
  lookupLong_loop all (snd (compile_loop i ds short long)) n =
  match lookupLong_loop all long n with
  | Some d => Some d
  | None => if existsb (fun e => name e =s? n) long then None else ref_long ds n
  end.
Proof.
  assert (forall all l k n, lookupLong_loop all (l ++ k) n =
    if existsb (fun e => name e =s? n) l then lookupLong_loop all l n
    else lookupLong_loop all k n) as Happ.
  { intros all l k n. induction l as [|e l IH]; simpl; [done|]. by destruct (name e =s? n). }
  induction ds as [|d ds IH]; intros i pre all short long n -> Hi Hall.
  - simpl. by repeat case_match.
  - pose proof Hall as Hall'. rewrite length_app in Hall'. simpl in Hall'. simpl.
    rewrite (IH (S i) (pre ++ [d]));
      [|by rewrite <- app_assoc|rewrite length_app; simpl; lia|done].
    destruct (seqb_spec (Long d) "") as [E|E]; [by rewrite E|].
    rewrite Happ, existsb_app. simpl. unfold ref_long. simpl.
    destruct (existsb (fun e => name e =s? n) long) eqn:Ex; simpl; [done|].
    assert (lookupLong_loop (pre ++ d :: ds) long n = None) as ->.
    { clear -Ex. induction long as [|e l IH]; simpl in *; [done|].
      destruct (name e =s? n); [done|]. by apply IH. }
    destruct (Long d =s? n); simpl; [|done].
    rewrite uwrap8_index, Nat2Z.id, lookup_app_r, <- Hi, Nat.sub_diag by lia. done.
Qed.

Lemma lookupShort_compile s b :
  length (Defs s) <= 128 ->
  lookupShort (compile s) b = if (128 <=? code b)%Z then None else ref_short (Defs s) b.
Proof.
  intros Hl. unfold lookupShort, compile.
  destruct (compile_loop _ _ _ _) as [sh lg] eqn:E. cbn [shortIdx defs].
  destruct (128 <=? code b)%Z eqn:Eb; [done|]. apply Z.leb_gt in Eb.
  pose proof (compile_loop_short (Defs s) 0 [] (Defs s) (replicate 128 (-1)%Z) [] b
    eq_refl eq_refl Hl (length_replicate _ _) Eb) as H.
  rewrite E in H. unfold read_short in H at 1. cbn [fst] in H. rewrite H. unfold ref_short.
  f_equal. unfold read_short. by rewrite lookup_replicate_2 by (pose proof (code_bound b); lia).
Qed.

Lemma lookupLong_compile s n :
  length (Defs s) <= 256 -> lookupLong (compile s) n = ref_long (Defs s) n.
Proof.
  intros Hl. unfold lookupLong, compile.
  destruct (compile_loop _ _ _ _) as [sh lg] eqn:E. simpl.
  pose proof (compile_loop_long (Defs s) 0 [] (Defs s) (replicate 128 (-1)%Z) [] n
    eq_refl eq_refl Hl) as H.
  by rewrite E in H.
Qed.

(** * The grammar of command lines

    What a command line means, independent of the parser: the events it consists of, in
    order.  [grammar] reads the conventions of the package directly: "--" ends the flags, a
    lone "-" is the standard input marker, clusters of short flags may end in a flag with a
    value, long flags take their value after '=' or from the next argument. *)

Inductive event :=
| EvBool (d : FlagDef)
| EvShortVal (d : FlagDef) (v : string)
| EvLongVal (d : FlagDef) (v : string)
| EvPos (s : string)
| EvStdin.

Definition apply_event (r : ParseResult) (e : event) : ParseResult :=
  match e with
  | EvBool d => record_bool d r
  | EvShortVal d v => record_value d v r
  | EvLongVal d v => record_value_long d v r
  | EvPos s => add_positional [s] r
  | EvStdin => add_positional ["-"] (set_stdin r)
  end.

Definition apply_events (r : ParseResult) (l : list event) : ParseResult :=
  foldl apply_event r l.

Definition no_eq (s : string) : bool := str_forall (fun c => negb (c =c? "="%char)) s.

Section Grammar.
Variable cs : compiledSpec.

(** [cluster chars rest evs rest']: the characters after the dash, with the arguments that
    follow, mean [evs] and leave [rest']. *)
Inductive cluster : string -> list string -> list event -> list string -> Prop :=
| cl_nil rest : cluster "" rest [] rest
| cl_bool b chars rest d evs rest' :
    lookupShort cs b = Some d -> Type_ d = FlagBool ->
    cluster chars rest evs rest' -> cluster (String b chars) rest (EvBool d :: evs) rest'
| cl_attached b v rest d :
    lookupShort cs b = Some d -> Type_ d <> FlagBool -> v <> "" ->
    cluster (String b v) rest [EvShortVal d v] rest
| cl_optional b rest d :
    lookupShort cs b = Some d -> Type_ d = FlagOptionalValue ->
    cluster (String b "") rest [EvShortVal d ""] rest
| cl_separate b v rest d :
    lookupShort cs b = Some d -> Type_ d = FlagValue ->
    cluster (String b "") (v :: rest) [EvShortVal d v] rest.

(** The text after "--".  A boolean flag ignores a value given with '='. *)
Inductive long_opt : string -> list string -> event -> list string -> Prop :=
| lo_bool n rest d :
    no_eq n -> lookupLong cs n = Some d -> Type_ d = FlagBool ->
    long_opt n rest (EvBool d) rest
| lo_bool_eq n v rest d :
    no_eq n -> lookupLong cs n = Some d -> Type_ d = FlagBool ->
    long_opt (n +:+ "=" +:+ v) rest (EvBool d) rest
| lo_eq n v rest d :
    no_eq n -> lookupLong cs n = Some d -> Type_ d <> FlagBool ->
    long_opt (n +:+ "=" +:+ v) rest (EvLongVal d v) rest
| lo_optional n rest d :
    no_eq n -> lookupLong cs n = Some d -> Type_ d = FlagOptionalValue ->
    long_opt n rest (EvLongVal d "") rest
| lo_separate n v rest d :
    no_eq n -> lookupLong cs n = Some d -> Type_ d = FlagValue ->
    long_opt n (v :: rest) (EvLongVal d v) rest.

Inductive grammar : list string -> list event -> Prop :=
| g_nil : grammar [] []
| g_end rest : grammar ("--" :: rest) (EvPos <$> rest)
| g_stdin args evs : grammar args evs -> grammar ("-" :: args) (EvStdin :: evs)
| g_pos a args evs :
    classify a = APositional -> stopAtFirst cs = false ->
    grammar args evs -> grammar (a :: args) (EvPos a :: evs)
| g_stop a args :
    classify a = APositional -> stopAtFirst cs = true ->
    grammar (a :: args) (EvPos <$> a :: args)
| g_long n args ev args' evs :
    n <> "" -> long_opt n args ev args' -> grammar args' evs ->
    grammar (("--" +:+ n) :: args) (ev :: evs)
| g_short chars args evs args' evs' :
    classify ("-" +:+ chars) = AShort -> cluster chars args evs args' -> grammar args' evs' ->
    grammar (("-" +:+ chars) :: args) (evs ++ evs').

Lemma split_eq_none n : no_eq n -> split_eq n = (n, None).
Proof.
  unfold no_eq. induction n as [|c n IH]; simpl; [done|].
  destruct (c =c? "="%char); simpl; [done|]. intros H. by rewrite IH.
Qed.

Lemma split_eq_some n v : no_eq n -> split_eq (n +:+ "=" +:+ v) = (n, Some v).
Proof.
  unfold no_eq. induction n as [|c n IH]; [done|]. rewrite sapp_cons. simpl.
  destruct (c =c? "="%char); simpl; [done|]. intros H. by rewrite IH.
Qed.

Lemma split_eq_inv s n v :
  split_eq s = (n, v) ->
  no_eq n /\ s = match v with None => n | Some v => n +:+ "=" +:+ v end.
Proof.
  revert n v. induction s as [|c s IH]; intros n v; simpl.
  { intros [= <- <-]. done. }
  destruct (ceqb_spec c "="%char) as [->|Hc].
  { intros [= <- <-]. done. }
  destruct (split_eq s) as [n' v'] eqn:E. intros [= <- <-].
  destruct (IH _ _ eq_refl) as [Hn ->]. split.
  - unfold no_eq in *. simpl. destruct (ceqb_spec c "="%char); done.
  - by destruct v'.
Qed.

Lemma parse_loop_skip k args res :
  parse_loop cs k args res = parse_loop cs 0 (drop k args) res.
Proof. revert args; induction k; intros [|a args]; simpl; auto. Qed.

Lemma add_positional_events l r : add_positional l r = apply_events r (EvPos <$> l).
Proof.
  revert r. induction l as [|a l IH]; intros r.
  - destruct r. unfold add_positional; simpl. by rewrite app_nil_r.
  - simpl. change (add_positional (a :: l) r = apply_events (add_positional [a] r) (EvPos <$> l)).
    rewrite <- IH. unfold add_positional. simpl. by rewrite <- app_assoc.
Qed.

Lemma apply_events_app r l k : apply_events r (l ++ k) = apply_events (apply_events r l) k.
Proof. apply foldl_app. Qed.

Ltac pick_rule := solve [econstructor; first [eassumption | congruence]].

(** [parseLong] consumes exactly what [long_opt] describes. *)
Lemma parseLong_sound n rest res k r :
  parseLong cs ("--" +:+ n) rest res = Ok (k, r) ->
  exists ev, long_opt n rest ev (drop (k - 1) rest) /\ r = apply_event res ev.
Proof.
  unfold parseLong. change (str_drop 2 ("--" +:+ n)) with n.
  destruct (split_eq n) as [nm v] eqn:E. apply split_eq_inv in E as [Hn ->].
  destruct (lookupLong cs nm) as [d|] eqn:El; [|done].
  destruct (Type_ d) eqn:Et, v as [v|]; try (destruct rest as [|w rest]; [done|]);
    intros H; injection H as <- <-; simpl; rewrite ?drop_0;
    first [ exists (EvBool d); split; [pick_rule|reflexivity]
          | eexists (EvLongVal d _); split; [pick_rule|reflexivity] ].
Qed.

Lemma parseLong_complete n rest res ev rest' :
  long_opt n rest ev rest' ->
  exists k, parseLong cs ("--" +:+ n) rest res = Ok (k, apply_event res ev) /\
    rest' = drop (k - 1) rest.
Proof.
  unfold parseLong. change (str_drop 2 ("--" +:+ n)) with n.
  intros H; destruct H as [n rest d Hn Hl Ht|n v rest d Hn Hl Ht|n v rest d Hn Hl Ht
    |n rest d Hn Hl Ht|n v rest d Hn Hl Ht];
    rewrite ?split_eq_none, ?split_eq_some, Hl by done; try rewrite Ht;
    try (by exists 1; simpl; rewrite drop_0).
  - exists 1. simpl. rewrite drop_0. by destruct (Type_ d).
  - by exists 2.
Qed.

Lemma parseShort_sound chars : forall rest res k r,
  parseShort_loop cs chars rest res = Ok (k, r) ->
  exists evs, cluster chars rest evs (drop (k - 1) rest) /\ r = apply_events res evs.
Proof.
  induction chars as [|b chars IH]; intros rest res k r; simpl.
  { intros H; injection H as <- <-. exists []. simpl. rewrite drop_0. split; [constructor|done]. }
  destruct (lookupShort cs b) as [d|] eqn:El; [|done].
  destruct (Type_ d) eqn:Et.
  { intros H. destruct (IH _ _ _ _ H) as (evs & Hc & ->). exists (EvBool d :: evs).
    split; [pick_rule|done]. }
  all: destruct (seqb_spec chars "") as [->|Hne]; try (destruct rest as [|w rest]; [done|]);
    intros H; injection H as <- <-; simpl; rewrite ?drop_0;
    eexists [EvShortVal d _]; (split; [pick_rule|reflexivity]).
Qed.

Lemma parseShort_complete chars rest evs rest' :
  cluster chars rest evs rest' -> forall res,
  exists k, parseShort_loop cs chars rest res = Ok (k, apply_events res evs) /\
    rest' = drop (k - 1) rest.
Proof.
  induction 1 as [rest|b chars rest d evs rest' Hl Ht _ IH|b v rest d Hl Ht Hv|b rest d Hl Ht
    |b v rest d Hl Ht]; intros res; simpl; rewrite ?Hl; try rewrite Ht.
  - exists 1. simpl. by rewrite drop_0.
  - destruct (IH (record_bool d res)) as (k & -> & ->). by exists k.
  - exists 1. simpl. rewrite drop_0. destruct (seqb_spec v ""); [done|].
    by destruct (Type_ d).
  - exists 1. simpl. by rewrite drop_0.
  - by exists 2.
Qed.

Lemma classify_long n : n <> "" -> classify ("--" +:+ n) = ALong.
Proof. destruct n; [done|]. intros _. reflexivity. Qed.

Lemma classify_ALong a : classify a = ALong -> exists n, a = "--" +:+ n /\ n <> "".
Proof.
  unfold classify. repeat split_cond; try done. destruct a as [|c [|d a]]; try done.
  repeat split_cond; try done. subst. intros _. exists a. split; [done|].
  intros ->. done.
Qed.

Lemma classify_AShort a : classify a = AShort -> exists chars, a = "-" +:+ chars.
Proof.
  unfold classify. repeat split_cond; try done. destruct a as [|c [|d a]]; try done.
  repeat split_cond; try done. subst. intros _. by exists (String d a).
Qed.

Lemma classify_AEnd a : classify a = AEnd -> a = "--".
Proof.
  unfold classify. repeat split_cond; try done. destruct a as [|c [|d a]]; try done.
  repeat split_cond; done.
Qed.

Lemma classify_AStdin a : classify a = AStdin -> a = "-".
Proof.
  unfold classify. repeat split_cond; try done. destruct a as [|c [|d a]]; try done.
  repeat split_cond; done.
Qed.

Lemma parse_loop_complete args evs :
  grammar args evs -> forall res, parse_loop cs 0 args res = Ok (apply_events res evs).
Proof.
  induction 1 as [|rest|args evs _ IH|a args evs Hc Hs _ IH|a args Hc Hs
    |n args ev args' evs Hn Hlo _ IH|chars args evs args' evs' Hc Hcl _ IH]; intros res.
  - done.
  - simpl. by rewrite add_positional_events.
  - simpl. by rewrite IH.
  - simpl. by rewrite Hc, Hs, IH.
  - simpl parse_loop. rewrite Hc, Hs. by rewrite add_positional_events.
  - cbn [parse_loop]. rewrite classify_long by done.
    destruct (parseLong_complete n args res ev args' Hlo) as (k & -> & ->).
    by rewrite parse_loop_skip, IH.
  - cbn [parse_loop]. rewrite Hc. unfold parseShort.
    change (str_drop 1 ("-" +:+ chars)) with chars.
    destruct (parseShort_complete _ _ _ _ Hcl res) as (k & -> & ->).
    by rewrite parse_loop_skip, IH, apply_events_app.
Qed.

Lemma parse_loop_sound args res r :
  parse_loop cs 0 args res = Ok r ->
  exists evs, grammar args evs /\ r = apply_events res evs.
Proof.
  revert res. induction args as [args IH] using list_len_ind. intros res.
  destruct args as [|a args]; [intros [= <-]; exists []; split; [constructor|done]|].
  assert (forall k, length (drop k args) < length (a :: args)) as Hd.
  { intros k. rewrite length_drop. simpl. lia. }
  cbn [parse_loop]. destruct (classify a) eqn:Ec.
  - apply classify_AEnd in Ec as ->. intros [= <-]. exists (EvPos <$> args).
    split; [constructor|apply add_positional_events].
  - apply classify_AStdin in Ec as ->. intros H.
    apply (IH args) in H as (evs & Hg & ->); [|simpl; lia].
    exists (EvStdin :: evs). split; [by constructor|done].
  - destruct (stopAtFirst cs) eqn:Es; intros H.
    + injection H as <-. exists (EvPos <$> a :: args).
      split; [by constructor|apply add_positional_events].
    + apply (IH args) in H as (evs & Hg & ->); [|simpl; lia].
      exists (EvPos a :: evs). split; [by constructor|done].
  - apply classify_ALong in Ec as (n & -> & Hn).
    destruct (parseLong cs _ args res) as [[k r']|] eqn:E; [|done].
    apply parseLong_sound in E as (ev & Hlo & ->). rewrite parse_loop_skip. intros H.
    apply IH in H as (evs & Hg & ->); [|apply Hd].
    exists (ev :: evs). split; [by econstructor|done].
  - destruct (classify_AShort _ Ec) as (chars & ->).
    destruct (parseShort cs _ args res) as [[k r']|] eqn:E; [|done].
    apply parseShort_sound in E as (evs & Hcl & ->). rewrite parse_loop_skip. intros H.
    apply IH in H as (evs' & Hg & ->); [|apply Hd].
    exists (evs ++ evs'). split; [by econstructor|]. by rewrite apply_events_app.
Qed.

(** Every error of the loop is a [FlagError] with exit code 2. *)
Lemma parseLong_err n rest res e :
  parseLong cs n rest res = Err e -> exists m, e = errf 2 m.
Proof.
  unfold parseLong. destruct (split_eq _) as [nm v].
  repeat case_match; intros; simplify_eq; eauto.
Qed.

Lemma parseShort_err chars : forall rest res e,
  parseShort_loop cs chars rest res = Err e -> exists m, e = errf 2 m.
Proof.
  induction chars as [|b chars IH]; intros rest res e; simpl; [done|].
  repeat case_match; intros; simplify_eq; eauto.
Qed.

Lemma parse_loop_err args : forall k res e,
  parse_loop cs k args res = Err e -> exists m, e = errf 2 m.
Proof.
  induction args as [|a args IH]; intros [|k] res e; simpl; try done; eauto.
  repeat case_match; intros; simplify_eq; eauto using parseLong_err, parseShort_err.
Qed.

End Grammar.

(** * What the result says about the events *)

(** Names marked by a boolean flag, and name/value pairs stored by a value flag. *)
Definition ev_marks (e : event) : list string :=
  match e with
  | EvBool d => Short d :: (if Long d =s? "" then [] else [Long d])
  | _ => []
  end.

Definition ev_stores (e : event) : list (string * string) :=
  match e with
  | EvShortVal d v =>
      (if Short d =s? "" then [] else [(Short d, v)]) ++
      (if Long d =s? "" then [] else [(Long d, v)])
  | EvLongVal d v => (if Short d =s? "" then [] else [(Short d, v)]) ++ [(Long d, v)]
  | _ => []
  end.

Definition ev_positional (e : event) : list string :=
  match e with EvPos s => [s] | EvStdin => ["-"] | _ => [] end.

Definition is_stdin (e : event) : bool := match e with EvStdin => true | _ => false end.

Definition marks (evs : list event) : list string := flat_map ev_marks evs.
Definition stores (evs : list event) : list (string * string) := flat_map ev_stores evs.

(** The values stored under [n], in order. *)
Definition values_of (n : string) (l : list (string * string)) : list string :=
  flat_map (fun p => if fst p =s? n then [snd p] else []) l.

Definition occurrences (n : string) (l : list string) : Z :=
  Z.of_nat (length (List.filter (fun m => m =s? n) l)).

Definition mentioned (n : string) (evs : list event) : bool :=
  existsb (fun m => m =s? n) (marks evs ++ (stores evs).*1).

Lemma existsb_app_comm {A} (f : A -> bool) (a b c : list A) :
  existsb f (a ++ b ++ c) = existsb f (b ++ a ++ c).
Proof. rewrite !existsb_app. by destruct (existsb f a), (existsb f b). Qed.

(** The effect of one event on every observer. *)
Definition observes (r r' : ParseResult) (ms : list string) (st : list (string * string)) : Prop :=
  (forall n, Has r' n = Has r n || existsb (fun m => m =s? n) (ms ++ st.*1)) /\
  (forall n, GetAll r' n = GetAll r n ++ values_of n st) /\
  (forall n, count r' n = count r n + occurrences n ms)%Z /\
  ((forall n, Get r n = default "" (last (GetAll r n))) ->
    forall n, Get r' n = default "" (last (GetAll r' n))).

Lemma observes_refl r : observes r r [] [].
Proof.
  unfold observes. repeat split; intros; simpl; rewrite ?orb_false_r, ?app_nil_r; auto.
  unfold occurrences; simpl; lia.
Qed.

Lemma observes_trans r1 r2 r3 ms1 ms2 st1 st2 :
  observes r1 r2 ms1 st1 -> observes r2 r3 ms2 st2 ->
  observes r1 r3 (ms1 ++ ms2) (st1 ++ st2).
Proof.
  intros (A1 & B1 & C1 & D1) (A2 & B2 & C2 & D2). repeat split; intros; auto.
  - rewrite A2, A1, <- orb_assoc, fmap_app, <- existsb_app. f_equal.
    rewrite <- !app_assoc. rewrite !(existsb_app _ ms1). f_equal. by rewrite existsb_app_comm.
  - rewrite B2, B1. unfold values_of. by rewrite flat_map_app, app_assoc.
  - rewrite C2, C1. unfold occurrences. rewrite List.filter_app, length_app. lia.
Qed.

Lemma mark_bool_observes n r : observes r (mark_bool n r) [n] [].
Proof.
  unfold observes, Has, GetAll, Get, count, occurrences. simpl.
  repeat split; intros; rewrite ?lookup_insert, ?app_nil_r; auto;
    destruct (seqb_spec n n0) as [->|]; simpl; try case_decide; simplify_eq; simpl;
    rewrite ?orb_true_r, ?orb_false_r; auto; lia.
Qed.

Lemma store_value_observes n v r : observes r (store_value n v r) [] [(n, v)].
Proof.
  unfold observes, occurrences, store_value, Has, GetAll, Get, count. simpl. repeat split.
  - intros m. rewrite lookup_insert. destruct (seqb_spec n m); case_decide; simplify_eq; simpl;
      by rewrite ?orb_true_r, ?orb_false_r.
  - intros m. rewrite lookup_insert. destruct (seqb_spec n m); case_decide; simplify_eq; simpl;
      by rewrite ?app_nil_r.
  - intros m. lia.
  - intros H m. rewrite !lookup_insert. case_decide; simpl; [by rewrite last_snoc|apply H].
Qed.

Lemma ParseResult_frame r r' ms st :
  Bools r' = Bools r -> Values r' = Values r -> ValuesList r' = ValuesList r ->
  Count r' = Count r -> ms = [] -> st = [] -> observes r r' ms st.
Proof.
  intros E1 E2 E3 E4 -> ->. unfold observes, Has, GetAll, Get, count.
  rewrite E1, E2, E3, E4. apply (observes_refl r).
Qed.

Lemma apply_event_observes r e : observes r (apply_event r e) (ev_marks e) (ev_stores e).
Proof.
  destruct e as [d|d v|d v|s|]; simpl.
  - unfold record_bool. destruct (Long d =s? ""); [apply mark_bool_observes|].
    apply (observes_trans _ (mark_bool (Short d) r) _ [_] [_] [] []); apply mark_bool_observes.
  - unfold record_value. destruct (Short d =s? ""), (Long d =s? ""); simpl;
      try apply store_value_observes; [apply observes_refl|].
    apply (observes_trans _ (store_value (Short d) v r) _ [] [] [_] [_]);
      apply store_value_observes.
  - unfold record_value_long. destruct (Short d =s? ""); simpl; [apply store_value_observes|].
    apply (observes_trans _ (store_value (Short d) v r) _ [] [] [_] [_]);
      apply store_value_observes.
  - by apply ParseResult_frame.
  - by apply ParseResult_frame.
Qed.

Lemma apply_events_observes evs : forall r,
  observes r (apply_events r evs) (marks evs) (stores evs).
Proof.
  induction evs as [|e evs IH]; intros r; [apply observes_refl|].
  apply (observes_trans _ (apply_event r e)); [apply apply_event_observes|apply IH].
Qed.

Lemma apply_events_positional evs : forall r,
  Positional (apply_events r evs) = Positional r ++ flat_map ev_positional evs.
Proof.
  induction evs as [|e evs IH]; intros r; simpl; [by rewrite app_nil_r|].
  rewrite IH. destruct e; simpl; unfold record_bool, record_value, record_value_long;
    repeat case_match; simpl; by rewrite <- ?app_assoc.
Qed.

Lemma apply_events_stdin evs : forall r,
  Stdin (apply_events r evs) = Stdin r || existsb is_stdin evs.
Proof.
  induction evs as [|e evs IH]; intros r; simpl; [by rewrite orb_false_r|].
  rewrite IH. destruct e; simpl; unfold record_bool, record_value, record_value_long;
    repeat case_match; simpl; rewrite ?orb_true_r; done.
Qed.

(** * Short and long names of one flag *)

Definition flag_names (d : FlagDef) : list string :=
  List.filter (fun n => negb (n =s? "")) [Short d; Long d].

(** No name is used twice in a spec. *)
Definition names_distinct (ds : list FlagDef) : Prop := NoDup (flat_map flag_names ds).

#[export] Instance names_distinct_dec ds : Decision (names_distinct ds).
Proof. unfold names_distinct. apply _. Defined.

Definition event_in (ds : list FlagDef) (e : event) : Prop :=
  match e with
  | EvBool d | EvShortVal d _ | EvLongVal d _ => d ∈ ds
  | _ => True
  end.

Lemma lookupShort_in cs b d : lookupShort cs b = Some d -> d ∈ defs cs.
Proof. unfold lookupShort. repeat case_match; try done. apply list_elem_of_lookup_2. Qed.

Lemma lookupLong_in cs n d : lookupLong cs n = Some d -> d ∈ defs cs.
Proof.
  unfold lookupLong. induction (longIdx cs) as [|e es IH]; simpl; [done|].
  case_match; [apply list_elem_of_lookup_2|done].
Qed.

Lemma cluster_in cs chars rest evs rest' :
  cluster cs chars rest evs rest' -> Forall (event_in (defs cs)) evs.
Proof.
  induction 1; rewrite ?Forall_cons; repeat split; simpl; eauto using lookupShort_in, Forall_nil_2.
Qed.

Lemma grammar_in cs args evs : grammar cs args evs -> Forall (event_in (defs cs)) evs.
Proof.
  assert (forall l, Forall (event_in (defs cs)) (EvPos <$> l)) as Hpos.
  { induction l; by constructor. }
  induction 1 as [| | | | |n args ev args' evs Hn Hlo|]; try (by constructor); auto.
  - constructor; [|done]. destruct Hlo; simpl; eauto using lookupLong_in.
  - apply Forall_app; eauto using cluster_in.
Qed.

Lemma flag_names_in d n : n ∈ flag_names d <-> n <> "" /\ (n = Short d \/ n = Long d).
Proof.
  unfold flag_names. simpl.
  destruct (seqb_spec (Short d) ""), (seqb_spec (Long d) ""); simpl;
    rewrite ?elem_of_cons, ?elem_of_nil; naive_solver.
Qed.

Lemma names_unique ds d d' n :
  names_distinct ds -> d ∈ ds -> d' ∈ ds ->
  n ∈ flag_names d -> n ∈ flag_names d' -> d = d'.
Proof.
  unfold names_distinct. induction ds as [|e ds IH]; simpl; [set_solver|].
  rewrite NoDup_app. intros (_ & Hdisj & Hnd) Hd Hd' Hn Hn'.
  assert (forall x, x ∈ ds -> n ∈ flag_names x -> n ∈ flat_map flag_names ds) as Hmem.
  { intros x Hx Hnx. rewrite list_elem_of_In in *. apply in_flat_map. exists x.
    by rewrite <- list_elem_of_In. }
  apply elem_of_cons in Hd as [->|Hd], Hd' as [->|Hd']; try done.
  - destruct (Hdisj n); eauto.
  - destruct (Hdisj n); eauto.
  - eauto.
Qed.

Lemma short_long_differ ds d :
  names_distinct ds -> d ∈ ds -> Short d <> "" -> Short d <> Long d.
Proof.
  unfold names_distinct. induction ds as [|e ds IH]; simpl; [set_solver|].
  rewrite NoDup_app. intros (Hn & _ & Hnd) [->|Hd]%elem_of_cons Hs; [|auto].
  intros E. revert Hn. unfold flag_names. simpl. rewrite <- E.
  destruct (seqb_spec (Short e) ""); simpl; [done|].
  rewrite NoDup_cons. set_solver.
Qed.

Section Aliases.
Variables (ds : list FlagDef) (d : FlagDef).
Hypothesis Hds : names_distinct ds.
Hypothesis Hd : d ∈ ds.
Hypothesis Hshort : Short d <> "".
Hypothesis Hlong : Long d <> "".

Lemma other_flag_names d' : d' ∈ ds -> d' <> d ->
  Short d' <> Short d /\ Short d' <> Long d /\ Long d' <> Short d /\ Long d' <> Long d.
Proof.
  intros Hd' Hne. repeat split; intros E; apply Hne.
  - apply (names_unique ds _ _ (Short d)); auto; apply flag_names_in; auto.
  - apply (names_unique ds _ _ (Long d)); auto; apply flag_names_in; auto.
  - apply (names_unique ds _ _ (Short d)); auto; apply flag_names_in; auto.
  - apply (names_unique ds _ _ (Long d)); auto; apply flag_names_in; auto.
Qed.

Lemma event_aliases e : event_in ds e ->
  occurrences (Short d) (ev_marks e) = occurrences (Long d) (ev_marks e) /\
  values_of (Short d) (ev_stores e) = values_of (Long d) (ev_stores e).
Proof.
  pose proof (short_long_differ ds d Hds Hd Hshort) as Hsl.
  destruct e as [d'|d' v|d' v|s|]; simpl; try done; intros Hin;
    assert (d' = d \/ d' <> d) as [->|Hne] by
      (destruct (seqb_spec (Short d') (Short d)) as [E|E];
       [left; apply (names_unique ds _ _ (Short d)); auto; apply flag_names_in; auto
       |right; congruence]);
    try (pose proof (other_flag_names d' Hin Hne) as (? & ? & ? & ?));
    unfold occurrences, values_of; simpl;
    repeat (split_cond; simpl); try congruence; auto.
Qed.

Lemma events_aliases evs : Forall (event_in ds) evs ->
  occurrences (Short d) (marks evs) = occurrences (Long d) (marks evs) /\
  values_of (Short d) (stores evs) = values_of (Long d) (stores evs).
Proof.
  induction 1 as [|e evs He _ [IH1 IH2]]; [done|].
  destruct (event_aliases e He) as [E1 E2].
  unfold marks, stores, occurrences, values_of in *. simpl.
  rewrite !flat_map_app, !List.filter_app, !length_app. split; [lia|]. congruence.
Qed.

Lemma mentioned_spec n evs :
  mentioned n evs =
  negb ((occurrences n (marks evs) =? 0)%Z && bool_decide (values_of n (stores evs) = [])).
Proof.
  unfold mentioned. rewrite existsb_app, negb_andb. f_equal.
  - unfold occurrences. induction (marks evs) as [|m l IH]; simpl; [done|].
    by destruct (m =s? n).
  - unfold values_of. induction (stores evs) as [|p l IH]; simpl; [done|].
    by destruct (fst p =s? n).
Qed.
End Aliases.

Lemma ParseFlags_ok args spec r :
  ParseFlags args spec = Ok r <->
  exists args' evs, preprocess spec args = Ok args' /\
    grammar (fst (getOrCompile spec)) args' evs /\ r = apply_events newParseResult evs.
Proof.
  unfold ParseFlags. rewrite res_bind_ok. split.
  - intros (args' & Hp & H). apply parse_loop_sound in H as (evs & Hg & ->). eauto.
  - intros (args' & evs & Hp & Hg & ->). exists args'. split; [done|].
    by apply parse_loop_complete.
Qed.

Lemma getOrCompile_defs spec :
  compiled spec = None -> defs (fst (getOrCompile spec)) = Defs spec.
Proof.
  intros E. unfold getOrCompile. rewrite E. simpl. unfold compile.
  by destruct (compile_loop _ _ _ _).
Qed.

(** * Example specs used by the witnesses *)

Definition simple_spec (ds : list FlagDef) (stop : bool) : FlagSpec :=
  {| Defs := ds; StopAtFirstNonFlag := stop; PreProcess := None; compiled := None |}.

(** * Properties *)

(** C1: [ParseFlags] accepts exactly the command lines of the grammar, and the result is the
    one obtained by recording the events of the command line in order: soundness and
    completeness of the parser with respect to the declarative reading of the flag
    conventions. *)
Theorem ParseFlags_grammar args spec r :
  ParseFlags args spec = Ok r <->
  exists args' evs, preprocess spec args = Ok args' /\
    grammar (fst (getOrCompile spec)) args' evs /\ r = apply_events newParseResult evs.
Proof. apply ParseFlags_ok. Qed.

(** What a caller reads from the result.  A flag is [Has] exactly when some event of the
    command line mentions its name; [GetAll] is every value stored under the name, in
    command-line order; [Get] is the last of them; [Count] counts the boolean occurrences;
    [Positional] keeps the positional arguments in order, and [Stdin] tells whether a lone
    dash occurred. *)
Theorem ParseFlags_observers args spec r :
  ParseFlags args spec = Ok r ->
  exists args' evs, preprocess spec args = Ok args' /\
    grammar (fst (getOrCompile spec)) args' evs /\
    (forall n, Has r n = mentioned n evs) /\
    (forall n, GetAll r n = values_of n (stores evs)) /\
    (forall n, Get r n = default "" (last (GetAll r n))) /\
    (forall n, count r n = occurrences n (marks evs)) /\
    Positional r = flat_map ev_positional evs /\
    Stdin r = existsb is_stdin evs.
Proof.
  rewrite ParseFlags_ok. intros (args' & evs & Hp & Hg & ->). exists args', evs.
  destruct (apply_events_observes evs newParseResult) as (A & B & C & D).
  rewrite apply_events_positional, apply_events_stdin.
  do 2 (split; [done|]). repeat split; intros n; rewrite ?A, ?B, ?C; auto.
  rewrite <- B. apply D. done.
Qed.

Lemma ParseFlags_observers_witness :
  let spec := simple_spec [{| Short := "n"; Long := "lines"; Type_ := FlagValue |};
                           {| Short := "q"; Long := ""; Type_ := FlagBool |}] false in
  exists r, ParseFlags ["-qn3"; "a"; "--lines=4"; "-"; "--"; "-q"] spec = Ok r /\
    Positional r = ["a"; "-"; "-q"] /\
    exists args' evs, preprocess spec ["-qn3"; "a"; "--lines=4"; "-"; "--"; "-q"] = Ok args' /\
    grammar (fst (getOrCompile spec)) args' evs /\
    (forall n, Has r n = mentioned n evs) /\
    (forall n, GetAll r n = values_of n (stores evs)) /\
    (forall n, Get r n = default "" (last (GetAll r n))) /\
    (forall n, count r n = occurrences n (marks evs)) /\
    Positional r = flat_map ev_positional evs /\
    Stdin r = existsb is_stdin evs.
Proof.
  intros spec. eexists. split; [vm_compute; reflexivity|]. split; [reflexivity|].
  apply (ParseFlags_observers _ spec). vm_compute. reflexivity.
Defined.

(** The short and the long name of a flag are interchangeable for the caller: when no
    name of the spec is used twice, every observer answers the same for both names of a
    flag. *)
Theorem flag_aliases_agree spec args r d :
  compiled spec = None -> names_distinct (Defs spec) -> d ∈ Defs spec ->
  Short d <> "" -> Long d <> "" ->
  ParseFlags args spec = Ok r ->
  Has r (Short d) = Has r (Long d) /\ GetAll r (Short d) = GetAll r (Long d) /\
  Get r (Short d) = Get r (Long d) /\ count r (Short d) = count r (Long d).
Proof.
  intros Hc Hnd Hd Hs Hl. rewrite ParseFlags_ok. intros (args' & evs & _ & Hg & ->).
  apply grammar_in in Hg. rewrite getOrCompile_defs in Hg by done.
  destruct (events_aliases _ d Hnd Hd Hs Hl evs Hg) as [E1 E2].
  destruct (apply_events_observes evs newParseResult) as (A & B & C & D).
  assert (GetAll (apply_events newParseResult evs) (Short d) =
          GetAll (apply_events newParseResult evs) (Long d)) as E3 by (rewrite !B, E2; done).
  split; [|split; [done|split]].
  - rewrite !A. simpl. change (mentioned (Short d) evs = mentioned (Long d) evs).
    by rewrite !mentioned_spec, E1, E2.
  - rewrite !D by done. by rewrite E3.
  - rewrite !C, E1. done.
Qed.

Lemma flag_aliases_agree_witness :
  let d := {| Short := "n"; Long := "lines"; Type_ := FlagValue |} in
  let spec := simple_spec [d; {| Short := "q"; Long := "quiet"; Type_ := FlagBool |}] false in
  exists r, ParseFlags ["-qn"; "3"; "--quiet"; "x"] spec = Ok r /\ Get r "lines" = "3" /\
  (Has r "n" = Has r "lines" /\ GetAll r "n" = GetAll r "lines" /\
   Get r "n" = Get r "lines" /\ count r "n" = count r "lines").
Proof.
  intros d spec. eexists. split; [vm_compute; reflexivity|]. split; [reflexivity|].
  apply (flag_aliases_agree spec ["-qn"; "3"; "--quiet"; "x"] _ d);
    [reflexivity|apply (bool_decide_unpack _); vm_compute; exact I|left|done|done|].
  vm_compute. reflexivity.
Defined.

(** The compiled table answers every lookup as a search of the definitions would: a short
    name finds the last definition that starts with the byte, a long name the first
    definition with that name.  The bound is the one of the table's 8-bit indices. *)
Theorem compile_lookup_correct s :
  length (Defs s) <= 128 ->
  (forall b, lookupShort (compile s) b =
     if (128 <=? code b)%Z then None else ref_short (Defs s) b) /\
  (forall n, lookupLong (compile s) n = ref_long (Defs s) n).
Proof.
  intros H. split; intros.
  - by apply lookupShort_compile.
  - apply lookupLong_compile. lia.
Qed.

Lemma compile_lookup_correct_witness :
  let s := simple_spec [{| Short := "n"; Long := "lines"; Type_ := FlagValue |}] false in
  lookupShort (compile s) "n" = Some {| Short := "n"; Long := "lines"; Type_ := FlagValue |} /\
  (forall b, lookupShort (compile s) b =
     if (128 <=? code b)%Z then None else ref_short (Defs s) b) /\
  (forall n, lookupLong (compile s) n = ref_long (Defs s) n).
Proof.
  intros s. split; [reflexivity|]. apply compile_lookup_correct. apply (bool_decide_unpack _). exact I.
Defined.

(** Parsing never ends in anything but a result or a flag error with exit code 2: for a
    spec without a [PreProcess] hook, every command line outside the grammar is rejected
    with that code. *)
Theorem ParseFlags_error_code args spec :
  PreProcess spec = None ->
  (exists evs, grammar (fst (getOrCompile spec)) args evs /\
     ParseFlags args spec = Ok (apply_events newParseResult evs)) \/
  (exists m, ParseFlags args spec = Err (EFlag {| ExitCode := 2; Msg := m |}) /\
     forall evs, ~ grammar (fst (getOrCompile spec)) args evs).
Proof.
  intros Hp. destruct (ParseFlags args spec) as [r|e] eqn:E.
  - left. apply ParseFlags_ok in E as (args' & evs & Hp' & Hg & ->).
    unfold preprocess in Hp'. rewrite Hp in Hp'. injection Hp' as <-. eauto.
  - right. unfold ParseFlags, preprocess in E. rewrite Hp in E. simpl in E.
    destruct (parse_loop_err _ _ _ _ _ E) as [m ->]. exists m. split; [done|].
    intros evs Hg. by rewrite (parse_loop_complete _ _ _ Hg) in E.
Qed.

Lemma ParseFlags_error_code_witness :
  let spec := simple_spec [{| Short := "n"; Long := "lines"; Type_ := FlagValue |}] false in
  ParseFlags ["-n"] spec = Err (errf 2 "flag -n requires a value") /\
  ((exists evs, grammar (fst (getOrCompile spec)) ["-n"] evs /\
     ParseFlags ["-n"] spec = Ok (apply_events newParseResult evs)) \/
   (exists m, ParseFlags ["-n"] spec = Err (EFlag {| ExitCode := 2; Msg := m |}) /\
     forall evs, ~ grammar (fst (getOrCompile spec)) ["-n"] evs)).
Proof. intros spec. split; [reflexivity|]. by apply ParseFlags_error_code. Defined.
