(* ===== verification/Paths.v ===== *)
(** Go's path/filepath on Unix, as pkg/common/security.go and the utilities use it: lexical
    [Clean], [Join], [Base], [Dir], [IsAbs], and [EvalSymlinks] over an explicit file tree.
    An absolute clean path is the list of its components ([abs_path]); the lemmas translate
    the string functions to operations on that list. *)

From S2P Require Import Prelude GoStd.

(** * Components *)

Definition slash : ascii := "/"%char.

(** [strings.Split(s, "/")]. *)
Fixpoint split_slash (s : string) : list string :=
  match s with
  | "" => [""]
  | String c t =>
      if c =c? slash then "" :: split_slash t
      else match split_slash t with
           | [] => [String c ""]
           | w :: ws => String c w :: ws
           end
  end.

(** [strings.Join(l, "/")]. *)
Fixpoint join_slash (l : list string) : string :=
  match l with
  | [] => ""
  | [w] => w
  | w :: ws => w +:+ "/" +:+ join_slash ws
  end.

Definition IsAbs (p : string) : bool :=
  match p with String c _ => c =c? slash | "" => false end.

(** Elimination of empty, "." and ".." components.  [stack] is the output so far, last
    component first. *)
Fixpoint clean_comps (rooted : bool) (stack comps : list string) : list string :=
  match comps with
  | [] => rev stack
  | c :: cs =>
      if (c =s? "") || (c =s? ".") then clean_comps rooted stack cs
      else if c =s? ".." then
        match stack with
        | top :: stack' =>
            if top =s? ".." then clean_comps rooted (".." :: stack) cs
            else clean_comps rooted stack' cs
        | [] => if rooted then clean_comps rooted [] cs else clean_comps rooted [".."] cs
        end
      else clean_comps rooted (c :: stack) cs
  end.

(** The absolute path with the given components. *)
Definition abs_path (cs : list string) : string := "/" +:+ join_slash cs.

Definition Clean (p : string) : string :=
  if IsAbs p then abs_path (clean_comps true [] (split_slash p))
  else match clean_comps false [] (split_slash p) with
       | [] => "."
       | cs => join_slash cs
       end.

(** [filepath.Join]: empty leading elements are dropped, the rest is joined and cleaned. *)
Fixpoint Join (l : list string) : string :=
  match l with
  | [] => ""
  | w :: ws => if w =s? "" then Join ws else Clean (join_slash l)
  end.

(** [filepath.Abs] with the working directory [wd] of the process. *)
Definition Abs (wd p : string) : string := if IsAbs p then Clean p else Join [wd; p].

Fixpoint HasSuffix_slash (s : string) : bool :=
  match s with
  | "" => false
  | String c "" => c =c? slash
  | String _ t => HasSuffix_slash t
  end.

(** [filepath.Base] of a path without trailing slash: what follows the last slash. *)
Definition Base (p : string) : string :=
  if p =s? "" then "."
  else match rev (split_slash p) with
       | w :: ws => if w =s? "" then
                      (* trailing slashes are removed first *)
                      match List.filter (fun x => negb (x =s? "")) ws with
                      | x :: _ => x
                      | [] => "/"
                      end
                    else w
       | [] => "."
       end.

(** [filepath.Dir]: everything up to the last slash, cleaned. *)
Definition Dir (p : string) : string :=
  match rev (split_slash p) with
  | _ :: [] => "."
  | _ :: ws => Clean (join_slash (rev ws) +:+ "/")
  | [] => "."
  end.

(** * Clean components *)

Definition no_slash (c : string) : bool := str_forall (fun b => negb (b =c? slash)) c.

(** A component of a clean absolute path. *)
Definition clean_comp (c : string) : bool :=
  no_slash c && negb (c =s? "") && negb (c =s? ".") && negb (c =s? "..").

Lemma clean_comp_spec c :
  clean_comp c <-> no_slash c /\ c <> "" /\ c <> "." /\ c <> "..".
Proof.
  unfold clean_comp. rewrite !andb_True, !negb_True.
  destruct (seqb_spec c ""), (seqb_spec c "."), (seqb_spec c ".."); naive_solver.
Qed.

Lemma split_slash_nonempty s : split_slash s <> [].
Proof. destruct s as [|c s]; simpl; [done|]. repeat case_match; done. Qed.

Lemma split_slash_no_slash s : Forall (fun c => no_slash c) (split_slash s).
Proof.
  induction s as [|c s IH]; simpl; [by repeat constructor|].
  destruct (ceqb_spec c slash); [by constructor|].
  destruct (split_slash s) as [|w ws]; [repeat constructor|inversion IH; subst; constructor; auto];
    unfold no_slash in *; simpl; destruct (ceqb_spec c slash); done.
Qed.

Lemma split_slash_app_no_slash w s :
  no_slash w -> split_slash (w +:+ String slash s) = w :: split_slash s.
Proof.
  unfold no_slash. induction w as [|c w IH]; intros Hw; [done|].
  rewrite sapp_cons. simpl in *. destruct (c =c? slash); [done|]. by rewrite IH.
Qed.

Lemma split_slash_word w : no_slash w -> split_slash w = [w].
Proof.
  unfold no_slash. induction w as [|c w IH]; intros Hw; [done|]. simpl in *.
  destruct (c =c? slash); [done|]. by rewrite IH.
Qed.

Lemma split_join l : l <> [] -> Forall (fun c => no_slash c) l -> split_slash (join_slash l) = l.
Proof.
  induction l as [|w l IH]; intros Hne Hl; [done|]. inversion Hl; subst.
  destruct l as [|w' l]; [by apply split_slash_word|].
  change (join_slash (w :: w' :: l)) with (w +:+ String slash (join_slash (w' :: l))).
  by rewrite split_slash_app_no_slash, IH.
Qed.

Lemma clean_no_slash l : Forall (fun c => clean_comp c) l -> Forall (fun c => no_slash c) l.
Proof.
  intros Hl. apply (Forall_impl _ _ _ Hl). intros c Hc.
  apply clean_comp_spec in Hc. naive_solver.
Qed.

Lemma split_abs_path l :
  Forall (fun c => clean_comp c) l ->
  split_slash (abs_path l) = "" :: match l with [] => [""] | _ => l end.
Proof.
  intros Hl. unfold abs_path. change ("/" +:+ join_slash l) with (String slash (join_slash l)).
  simpl. f_equal. destruct l; [done|]. apply split_join; [done|by apply clean_no_slash].
Qed.

Lemma clean_comps_id rooted l : forall stack,
  Forall (fun c => clean_comp c) l -> clean_comps rooted stack l = rev stack ++ l.
Proof.
  induction l as [|c l IH]; intros stack Hl; simpl; [by rewrite app_nil_r|].
  inversion Hl as [|? ? Hc Hl']; subst. apply clean_comp_spec in Hc as (_ & H1 & H2 & H3).
  rewrite !seqb_ne by done. simpl. rewrite IH by done. simpl. by rewrite <- app_assoc.
Qed.

Lemma clean_comps_rooted_ok cs : forall stack,
  Forall (fun c => clean_comp c) stack -> Forall (fun c => no_slash c) cs ->
  Forall (fun c => clean_comp c) (clean_comps true stack cs).
Proof.
  induction cs as [|c cs IH]; intros stack Hs Hc; simpl; [by apply Forall_rev|].
  inversion Hc; subst.
  destruct (seqb_spec c ""), (seqb_spec c "."); simpl; auto.
  destruct (seqb_spec c "..") as [->|].
  - destruct stack as [|top stack]; [auto|]. inversion Hs as [|? ? Ht Hs']; subst.
    apply clean_comp_spec in Ht as (_ & _ & _ & Ht). rewrite seqb_ne by done. auto.
  - apply IH; [|done]. constructor; [by apply clean_comp_spec|done].
Qed.

(** The components of a cleaned absolute path are clean, and cleaning is idempotent. *)
Lemma Clean_abs p :
  IsAbs p = true ->
  exists cs, Clean p = abs_path cs /\ Forall (fun c => clean_comp c) cs.
Proof.
  intros Hp. unfold Clean. rewrite Hp. eexists. split; [reflexivity|].
  apply clean_comps_rooted_ok; [constructor|apply split_slash_no_slash].
Qed.

Lemma IsAbs_abs_path cs : IsAbs (abs_path cs) = true.
Proof. reflexivity. Qed.

Lemma Clean_abs_path cs : Forall (fun c => clean_comp c) cs -> Clean (abs_path cs) = abs_path cs.
Proof.
  intros Hcs. unfold Clean. rewrite IsAbs_abs_path, split_abs_path by done. f_equal.
  destruct cs as [|c cs]; [done|].
  change (clean_comps true [] ("" :: c :: cs)) with (clean_comps true [] (c :: cs)).
  by rewrite clean_comps_id.
Qed.

Lemma Clean_idemp p : IsAbs p = true -> Clean (Clean p) = Clean p.
Proof. intros Hp. destruct (Clean_abs p Hp) as (cs & -> & Hcs). by apply Clean_abs_path. Qed.

(** * Joining, parents and last components of clean absolute paths *)

Lemma split_slash_app s t :
  split_slash (s +:+ String slash t) = split_slash s ++ split_slash t.
Proof.
  induction s as [|c s IH]; [done|]. rewrite sapp_cons. simpl. rewrite IH.
  destruct (c =c? slash); [done|]. destruct (split_slash s) as [|w ws] eqn:E; [|done].
  by destruct (split_slash_nonempty s).
Qed.

Lemma clean_comps_app cs1 : forall stack cs2,
  clean_comps true stack (cs1 ++ cs2) = clean_comps true (rev (clean_comps true stack cs1)) cs2.
Proof.
  induction cs1 as [|c cs1 IH]; intros stack cs2; simpl; [by rewrite rev_involutive|].
  repeat case_match; auto.
Qed.

(** [Join(base, p)] cleans [p] starting from the components of [base]. *)
Lemma Join_abs_path cs p :
  Forall (fun c => clean_comp c) cs ->
  Join [abs_path cs; p] = abs_path (clean_comps true (rev cs) (split_slash p)).
Proof.
  intros Hcs. unfold Join. rewrite seqb_ne by done.
  change (join_slash [abs_path cs; p]) with (abs_path cs +:+ String slash p).
  unfold Clean. change (IsAbs (abs_path cs +:+ String slash p)) with true. cbv iota.
  rewrite split_slash_app, clean_comps_app, split_abs_path by done. f_equal.
  destruct cs as [|c cs]; [done|].
  change (clean_comps true [] ("" :: c :: cs)) with (clean_comps true [] (c :: cs)).
  by rewrite (clean_comps_id true (c :: cs) []) by done.
Qed.

Lemma Join_abs_rel cs ds :
  Forall (fun c => clean_comp c) cs -> Forall (fun c => clean_comp c) ds -> ds <> [] ->
  Join [abs_path cs; join_slash ds] = abs_path (cs ++ ds).
Proof.
  intros Hcs Hds Hne. rewrite Join_abs_path, split_join by eauto using clean_no_slash.
  by rewrite clean_comps_id, rev_involutive.
Qed.

Lemma Join_rel c ds :
  clean_comp c -> Forall (fun c => clean_comp c) ds -> ds <> [] ->
  Join [c; join_slash ds] = join_slash (c :: ds).
Proof.
  intros Hc Hds Hne. destruct (proj1 (clean_comp_spec c) Hc) as (Hns & Hc0 & _).
  unfold Join. rewrite seqb_ne by done.
  assert (join_slash [c; join_slash ds] = join_slash (c :: ds)) as -> by (by destruct ds).
  assert (Forall (fun c => clean_comp c) (c :: ds)) as Hall by by constructor.
  unfold Clean. assert (IsAbs (join_slash (c :: ds)) = false) as ->.
  2: { by rewrite split_join, clean_comps_id by eauto using clean_no_slash. }
  destruct ds; [done|]. simpl. destruct c as [|b c]; [done|]. rewrite sapp_cons. simpl.
  unfold no_slash in Hns. simpl in Hns. by destruct (b =c? slash).
Qed.

Lemma Base_abs_path cs c :
  Forall (fun c => clean_comp c) (cs ++ [c]) -> Base (abs_path (cs ++ [c])) = c.
Proof.
  intros H. unfold Base. rewrite seqb_ne by done. rewrite split_abs_path by done.
  apply Forall_app in H as [_ Hc]. inversion Hc as [|? ? Hc' _]; subst.
  apply clean_comp_spec in Hc' as (_ & Hc' & _).
  destruct (cs ++ [c]) as [|x l] eqn:E; [by destruct cs|]. rewrite <- E. simpl.
  rewrite rev_app_distr. simpl. by rewrite seqb_ne.
Qed.

Lemma Dir_abs_path cs c :
  Forall (fun c => clean_comp c) (cs ++ [c]) -> Dir (abs_path (cs ++ [c])) = abs_path cs.
Proof.
  intros H. unfold Dir. rewrite split_abs_path by done.
  apply Forall_app in H as [Hcs _].
  destruct (cs ++ [c]) as [|x l] eqn:E; [by destruct cs|]. rewrite <- E. simpl.
  rewrite rev_app_distr. simpl. rewrite rev_app_distr, rev_involutive. simpl.
  destruct (rev cs ++ [""]) eqn:E'; [by destruct (rev cs)|]. clear E' E.
  destruct cs as [|d cs]; [reflexivity|].
  transitivity (Clean (abs_path (d :: cs) +:+ String slash "")); [reflexivity|]. unfold Clean.
  change (IsAbs (abs_path (d :: cs) +:+ String slash "")) with true. cbv iota.
  rewrite split_slash_app, clean_comps_app, split_abs_path by done.
  change (clean_comps true [] ("" :: d :: cs)) with (clean_comps true [] (d :: cs)).
  rewrite (clean_comps_id true (d :: cs) []) by done. simpl. by rewrite rev_app_distr, rev_involutive.
Qed.

Lemma Dir_root : Dir (abs_path []) = abs_path [].
Proof. reflexivity. Qed.

(** * Prefixes of paths are prefixes of component lists *)

Lemma with_sep_prefix cs ds :
  Forall (fun c => clean_comp c) cs -> Forall (fun c => clean_comp c) ds ->
  HasPrefix (abs_path ds +:+ "/") (abs_path cs +:+ "/") = true -> cs `prefix_of` ds.
Proof.
  intros Hcs Hds. rewrite HasPrefix_iff. intros [u Hu].
  apply (f_equal split_slash) in Hu. rewrite sapp_assoc in Hu.
  change ("/" +:+ u) with (String slash u) in Hu. change "/" with (String slash "") in Hu.
  rewrite !split_slash_app, !split_abs_path in Hu by done. simpl in Hu. injection Hu as Hu.
  destruct cs as [|c cs]; [apply prefix_nil|].
  destruct ds as [|d ds].
  { simpl in Hu. injection Hu as <- _. inversion Hcs as [|? ? H0 _]; subst.
    apply clean_comp_spec in H0. naive_solver. }
  assert (forall w, w ∈ d :: ds -> w <> "") as Hnn.
  { intros w Hw. rewrite Forall_forall in Hds. apply Hds in Hw.
    apply clean_comp_spec in Hw. naive_solver. }
  revert Hu. generalize (d :: ds) Hnn (c :: cs). clear. intros l Hl k.
  revert l Hl. induction k as [|x k IH]; intros l Hl; [intros; apply prefix_nil|].
  destruct l as [|y l]; simpl.
  - intros [= <- E]. destruct k; simpl in E; [|done].
    by destruct (split_slash_nonempty u).
  - intros [= <- E]. apply prefix_cons, IH; [set_solver|done].
Qed.
