(* ===== verification/FileTree.v ===== *)
(** A file tree with symbolic links and [filepath.EvalSymlinks] on it.  Nodes are keyed by
    the components of their absolute path; the root is always a directory.  The walk follows
    Go's walkSymlinks: one component at a time, a link replaces the component by its target,
    at most 255 links are followed, and a component after a regular file is an error that is
    not "does not exist". *)

From S2P Require Import Prelude GoStd Paths.

Inductive node := NFile | NDir | NLink (target : string).

Inductive fs_error := ENotExist | ENotDir | ETooManyLinks.

#[export] Instance node_eq_dec : EqDecision node.
Proof. solve_decision. Defined.

#[export] Instance fs_error_eq_dec : EqDecision fs_error.
Proof. solve_decision. Defined.

Definition max_links : nat := 255.

(** [dest] is the resolved part, last component first; [todo] the components left. *)
Fixpoint walk (tree : gmap (list string) node) (links : nat)
    : list string -> list string -> result fs_error (list string) :=
  fix go (dest todo : list string) {struct todo} : result fs_error (list string) :=
    match todo with
    | [] => Ok dest
    | c :: todo =>
        if (c =s? "") || (c =s? ".") then go dest todo
        else if c =s? ".." then go (tail dest) todo
        else
          match tree !! rev (c :: dest) with
          | None => Err ENotExist
          | Some NDir => go (c :: dest) todo
          | Some NFile => match todo with [] => Ok (c :: dest) | _ => Err ENotDir end
          | Some (NLink t) =>
              match links with
              | 0 => Err ETooManyLinks
              | S links =>
                  walk tree links (if IsAbs t then [] else dest) (split_slash t ++ todo)
              end
          end
    end.

(** [filepath.EvalSymlinks] of an absolute path. *)
Definition evalSymlinks (tree : gmap (list string) node) (p : string)
    : result fs_error string :=
  match walk tree max_links [] (split_slash p) with
  | Ok dest => Ok (abs_path (rev dest))
  | Err e => Err e
  end.

(** Every non-empty prefix of the path is in the tree and is not a link: the path is the
    real location of what it names. *)
Definition real_path (tree : gmap (list string) node) (cs : list string) : Prop :=
  forall pre, pre `prefix_of` cs -> pre <> [] -> tree !! pre = Some NDir \/ tree !! pre = Some NFile.

Lemma real_path_nil tree : real_path tree [].
Proof. intros pre Hp Hne. by apply prefix_nil_inv in Hp. Qed.

Lemma real_path_snoc tree cs c :
  real_path tree cs -> (tree !! (cs ++ [c]) = Some NDir \/ tree !! (cs ++ [c]) = Some NFile) ->
  real_path tree (cs ++ [c]).
Proof.
  intros Hr Hc pre Hp Hne. destruct Hp as [k Hk].
  destruct k as [|x k _] using rev_ind.
  - rewrite app_nil_r in Hk. by subst.
  - rewrite app_assoc in Hk. apply app_inj_tail in Hk as [Hk _].
    apply Hr; [|done]. by exists k.
Qed.

Lemma real_path_prefix tree cs k : real_path tree (cs ++ k) -> real_path tree cs.
Proof.
  intros H pre Hp Hne. apply H; [|done]. etrans; [exact Hp|]. by apply prefix_app_r.
Qed.

Lemma real_path_tail tree dest : real_path tree (rev dest) -> real_path tree (rev (tail dest)).
Proof.
  destruct dest as [|c dest]; [done|]. simpl. apply real_path_prefix.
Qed.

(** The walk only returns real locations with clean components. *)
Definition walk_ok (tree : gmap (list string) node) (links : nat) : Prop :=
  forall todo dest r,
  real_path tree (rev dest) -> Forall (fun c => clean_comp c) dest ->
  Forall (fun c => no_slash c) todo ->
  walk tree links dest todo = Ok r ->
  real_path tree (rev r) /\ Forall (fun c => clean_comp c) r.

Lemma walk_eq tree links dest c todo :
  walk tree links dest (c :: todo) =
  if (c =s? "") || (c =s? ".") then walk tree links dest todo
  else if c =s? ".." then walk tree links (tail dest) todo
  else
    match tree !! rev (c :: dest) with
    | None => Err ENotExist
    | Some NDir => walk tree links (c :: dest) todo
    | Some NFile => match todo with [] => Ok (c :: dest) | _ => Err ENotDir end
    | Some (NLink t) =>
        match links with
        | 0 => Err ETooManyLinks
        | S links => walk tree links (if IsAbs t then [] else dest) (split_slash t ++ todo)
        end
    end.
Proof. by destruct links. Qed.

Lemma walk_ok_step tree links :
  (forall l, links = S l -> walk_ok tree l) -> walk_ok tree links.
Proof.
  intros IHl todo. induction todo as [|c todo IH]; intros dest r Hr Hd Hc.
  { destruct links; intros [= <-]; done. }
  inversion Hc as [|? ? Hc1 Hc2]; subst. rewrite walk_eq.
  destruct (seqb_spec c "") as [->|N1]; [by apply IH|].
  destruct (seqb_spec c ".") as [->|N2]; [by apply IH|].
  destruct (seqb_spec c "..") as [->|N3].
  { apply IH; [by apply real_path_tail| |done]. by destruct Hd. }
  simpl orb. cbv iota.
  assert (clean_comp c) as Hcc by by apply clean_comp_spec.
  destruct (tree !! rev (c :: dest)) as [[| |t]|] eqn:E; [| | |done].
  - destruct todo; [|done]. intros [= <-].
    split; [apply real_path_snoc; auto|by constructor].
  - apply IH; [apply real_path_snoc; auto|by constructor|done].
  - destruct links as [|links]; [done|]. apply (IHl links eq_refl).
    + destruct (IsAbs t); [apply real_path_nil|done].
    + destruct (IsAbs t); [constructor|done].
    + apply Forall_app. split; [apply split_slash_no_slash|done].
Qed.

Lemma walk_real tree links : walk_ok tree links.
Proof.
  induction links as [|links IH]; apply walk_ok_step; [done|]. by intros l [= <-].
Qed.

Lemma evalSymlinks_real tree p q :
  evalSymlinks tree p = Ok q ->
  exists cs, q = abs_path cs /\ Forall (fun c => clean_comp c) cs /\ real_path tree cs.
Proof.
  unfold evalSymlinks. destruct (walk _ _ _ _) as [dest|] eqn:E; [|done]. intros [= <-].
  apply walk_real in E as [Hr Hc]; [|apply real_path_nil|constructor|apply split_slash_no_slash].
  exists (rev dest). split; [done|]. split; [by apply Forall_rev|done].
Qed.
