(* ===== verification/Security.v ===== *)
(** Path confinement: pkg/common/security.go ([SecurePath], [resolveSymlinks]) and
    [ResolvePath] of pkg/common/filepath.go.

    The symbolic-link evaluation of the operating system is an interface ([SymlinkEval]):
    what SecurePath relies on is that [filepath.EvalSymlinks] of an absolute path returns a
    clean absolute path.  The file tree of FileTree.v implements it. *)

From S2P Require Import Prelude GoStd Paths FileTree.

Class SymlinkEval := {
  EvalSymlinks : string -> result fs_error string;
  EvalSymlinks_clean p q :
    IsAbs p = true -> EvalSymlinks p = Ok q ->
    exists cs, q = abs_path cs /\ Forall (fun c => clean_comp c) cs
}.

#[export] Instance tree_eval (tree : gmap (list string) node) : SymlinkEval.
Proof.
  refine {| EvalSymlinks := evalSymlinks tree |}.
  abstract (intros p q _ H; apply evalSymlinks_real in H as (cs & -> & Hc & _); eauto).
Defined.

(** Errors of the component; [SFuel] marks a loop that ran out of its bound, which
    [resolveSymlinks_total] rules out. *)
Inductive sec_error := SFs (e : fs_error) | STraversal | SFuel.

(** * Operations *)

Section Operations.
Context `{SE : SymlinkEval}.

(** The loop of [resolveSymlinks]: walk up to the deepest existing ancestor. *)
Fixpoint resolve_loop (fuel : nat) (path current missing : string) : result sec_error string :=
  match fuel with
  | 0 => Err SFuel
  | S fuel =>
      match EvalSymlinks current with
      | Ok resolved =>
          if missing =s? "" then Ok (Clean resolved)
          else Ok (Clean (Join [resolved; missing]))
      | Err ENotExist =>
          let base := Base current in
          let missing := if missing =s? "" then base else Join [base; missing] in
          let parent := Dir current in
          if parent =s? current then Ok (Clean path)
          else resolve_loop fuel path parent missing
      | Err e => Err (SFs e)
      end
  end.

Definition resolveSymlinks (path : string) : result sec_error string :=
  match EvalSymlinks path with
  | Ok resolved => Ok (Clean resolved)
  | Err ENotExist => resolve_loop (S (length (split_slash path))) path path ""
  | Err e => Err (SFs e)
  end.

(** [wd] is the working directory of the process, for a relative base directory. *)
Definition SecurePath (wd target baseDir : string) : result sec_error string :=
  let baseDir := if baseDir =s? "" then "/" else baseDir in
  let absBase := Clean (Abs wd baseDir) in
  let? realBase := resolveSymlinks absBase in
  let absTarget :=
    if IsAbs target then Clean target else Clean (Join [absBase; target]) in
  if (realBase =s? "/") || (realBase =s? "\") then Ok absTarget
  else
    let? realTarget := resolveSymlinks absTarget in
    let basePrefix := if HasSuffix_slash realBase then realBase else realBase +:+ "/" in
    let targetWithSep :=
      if HasSuffix_slash realTarget then realTarget else realTarget +:+ "/" in
    if negb (realTarget =s? realBase) && negb (HasPrefix targetWithSep basePrefix)
    then Err STraversal
    else Ok realTarget.

End Operations.

(** pkg/common/filepath.go *)
Definition ResolvePath (cwd path : string) : string :=
  if (cwd =s? "") || IsAbs path || (path =s? "-") then path else Join [cwd; path].

(** * The deepest existing ancestor *)

Section Resolve.
Context `{SE : SymlinkEval}.

Abbreviation clean_list cs := (Forall (fun c => clean_comp c) cs).

(** [resolves_to cs r]: [r] is the evaluation of the deepest existing ancestor of the path
    with components [cs], followed by the components below it; when nothing exists, not even
    the root, it is the path itself. *)
Definition resolves_to (cs : list string) (r : string) : Prop :=
  (exists anc below real, cs = anc ++ below /\ EvalSymlinks (abs_path anc) = Ok (abs_path real) /\
     clean_list real /\ r = abs_path (real ++ below) /\
     forall k, k `prefix_of` below -> k <> [] ->
       EvalSymlinks (abs_path (anc ++ k)) = Err ENotExist) \/
  (r = abs_path cs /\
     forall k, k `prefix_of` cs -> EvalSymlinks (abs_path k) = Err ENotExist).

Lemma join_slash_empty ms : clean_list ms -> join_slash ms = "" -> ms = [].
Proof.
  intros Hms E. destruct ms as [|m ms]; [done|].
  inversion Hms as [|? ? Hm _]; subst. apply clean_comp_spec in Hm as (_ & Hm & _).
  destruct ms; simpl in E; [done|]. destruct m; done.
Qed.

Lemma abs_path_inj cs ds :
  clean_list cs -> clean_list ds -> abs_path cs = abs_path ds -> cs = ds.
Proof.
  intros Hc Hd E. apply (f_equal split_slash) in E.
  rewrite !split_abs_path in E by done. injection E as E.
  destruct cs as [|c cs], ds as [|d ds]; try done; subst.
  - inversion E; subst. inversion Hd as [|? ? H0]; subst. apply clean_comp_spec in H0. naive_solver.
  - inversion E; subst. inversion Hc as [|? ? H0]; subst. apply clean_comp_spec in H0. naive_solver.
Qed.

Lemma missing_step c ms :
  clean_comp c -> clean_list ms ->
  (if join_slash ms =s? "" then c else Join [c; join_slash ms]) = join_slash (c :: ms).
Proof.
  intros Hc Hms. destruct (seqb_spec (join_slash ms) "") as [E|E].
  - by rewrite (join_slash_empty ms).
  - apply Join_rel; [done..|]. intros ->. done.
Qed.

Lemma prefix_snoc_nonempty (k : list string) c ms :
  k `prefix_of` c :: ms -> k <> [] -> exists k', k = c :: k' /\ k' `prefix_of` ms.
Proof.
  intros Hk Hne. destruct k as [|x k]; [done|].
  apply prefix_cons_inv_1 in Hk as Hx. apply prefix_cons_inv_2 in Hk. subst. eauto.
Qed.

Lemma resolve_found (real ms : list string) :
  clean_list real -> clean_list ms ->
  (if join_slash ms =s? "" then Ok (Clean (abs_path real))
   else Ok (Clean (Join [abs_path real; join_slash ms]))) =
  (Ok (abs_path (real ++ ms)) : result sec_error string).
Proof.
  intros Hr Hm. destruct (seqb_spec (join_slash ms) "") as [E|E].
  - by rewrite (join_slash_empty ms), app_nil_r, Clean_abs_path by done.
  - rewrite Join_abs_rel by (done || by intros ->).
    rewrite Clean_abs_path; [done|by apply Forall_app].
Qed.

Lemma resolve_loop_spec cs : forall ms fuel,
  clean_list (cs ++ ms) -> length cs < fuel ->
  (forall k, k `prefix_of` ms -> k <> [] -> EvalSymlinks (abs_path (cs ++ k)) = Err ENotExist) ->
  (exists r, resolve_loop fuel (abs_path (cs ++ ms)) (abs_path cs) (join_slash ms) = Ok r /\
     resolves_to (cs ++ ms) r) \/
  (exists e, resolve_loop fuel (abs_path (cs ++ ms)) (abs_path cs) (join_slash ms) = Err (SFs e) /\
     e <> ENotExist).
Proof.
  induction cs as [|c cs IH] using rev_ind; intros ms fuel Hall Hf Hms;
    (destruct fuel as [|fuel]; [lia|]); cbn [resolve_loop]; pose proof Hall as Hall';
    apply Forall_app in Hall' as [Hcs Hcms].
  all: destruct (EvalSymlinks _) as [q|[]] eqn:E; [|..|right; eauto|right; eauto].
  1,3: left; destruct (EvalSymlinks_clean _ _ (IsAbs_abs_path _) E) as (real & -> & Hreal);
    rewrite resolve_found by done; eexists; (split; [reflexivity|]); left; eexists _, ms, real;
    repeat (split; [done|]); done.
  - left. eexists. split; [by rewrite Clean_abs_path|]. right. split; [done|].
    intros k Hk. destruct k as [|x k]; [done|]. by apply (Hms (x :: k)).
  - apply Forall_app in Hcs as [Hcs0 Hc]. inversion Hc as [|? ? Hc' _]; subst.
    rewrite Base_abs_path, Dir_abs_path by (apply Forall_app; auto).
    rewrite missing_step by done.
    rewrite seqb_ne by (intros E'; apply abs_path_inj in E'; [|done|by apply Forall_app];
      apply (f_equal length) in E'; rewrite length_app in E'; simpl in E'; lia).
    rewrite <- (app_assoc cs [c] ms) in *. simpl app in *.
    apply IH; [done|rewrite length_app in Hf; simpl in Hf; lia|].
    intros k Hk Hne. apply prefix_snoc_nonempty in Hk as (k' & -> & Hk'); [|done].
    destruct k' as [|x k']; [done|].
    pose proof (Hms (x :: k') Hk') as H. rewrite <- app_assoc in H. by apply H.
Qed.

(** [resolveSymlinks] of a clean absolute path always returns: what exists of the path is
    evaluated, what does not is kept. *)
Lemma resolveSymlinks_abs cs :
  clean_list cs ->
  (exists r, resolveSymlinks (abs_path cs) = Ok r /\ resolves_to cs r) \/
  (exists e, resolveSymlinks (abs_path cs) = Err (SFs e) /\ e <> ENotExist).
Proof.
  intros Hcs. unfold resolveSymlinks.
  destruct (EvalSymlinks (abs_path cs)) as [q|[]] eqn:E; [|..|right; eauto|right; eauto].
  - left. destruct (EvalSymlinks_clean _ _ (IsAbs_abs_path _) E) as (real & -> & Hreal).
    eexists. split; [reflexivity|]. left. exists cs, [], real. rewrite !app_nil_r.
    do 3 (split; [done|]). split; [by apply Clean_abs_path|].
    intros k Hk Hne. by apply prefix_nil_inv in Hk.
  - pose proof (resolve_loop_spec cs [] (S (length (split_slash (abs_path cs))))) as H.
    rewrite app_nil_r in H. apply H; [done| |].
    + rewrite split_abs_path by done. destruct cs; simpl; lia.
    + intros k Hk Hne. by apply prefix_nil_inv in Hk.
Qed.

Lemma resolves_to_clean cs r :
  clean_list cs -> resolves_to cs r -> exists rs, r = abs_path rs /\ clean_list rs.
Proof.
  intros Hcs [(anc & below & real & -> & _ & Hr & -> & _)|[-> _]]; [|eauto].
  apply Forall_app in Hcs as [_ Hb]. eexists. split; [reflexivity|]. by apply Forall_app.
Qed.
End Resolve.

(** * The prefix test *)

Lemma HasSuffix_slash_app s t : t <> "" -> HasSuffix_slash (s +:+ t) = HasSuffix_slash t.
Proof.
  intros Ht. induction s as [|c s IH]; [done|]. rewrite sapp_cons. simpl. rewrite IH.
  destruct (s +:+ t) eqn:E; [|done]. destruct s; [|done]. destruct t; done.
Qed.

Lemma HasSuffix_slash_word w : no_slash w -> HasSuffix_slash w = false.
Proof.
  unfold no_slash. induction w as [|c w IH]; [done|]. simpl.
  destruct (c =c? slash) eqn:E; [done|]. simpl. intros H. destruct w; [done|auto].
Qed.

Lemma HasSuffix_slash_abs cs :
  Forall (fun c => clean_comp c) cs -> cs <> [] -> HasSuffix_slash (abs_path cs) = false.
Proof.
  intros Hcs Hne. unfold abs_path. rewrite HasSuffix_slash_app.
  2: { intros E. by apply Hne, join_slash_empty. }
  induction Hcs as [|c cs Hc Hcs IH]; [done|].
  apply clean_comp_spec in Hc as (Hc & _).
  destruct cs as [|d cs]; [by apply HasSuffix_slash_word|].
  change (join_slash (c :: d :: cs)) with (c +:+ "/" +:+ join_slash (d :: cs)).
  rewrite HasSuffix_slash_app by done. rewrite HasSuffix_slash_app; [by apply IH|].
  intros E. by apply join_slash_empty in E.
Qed.

Lemma abs_path_app_prefix cs ds :
  cs <> [] -> HasPrefix (abs_path (cs ++ ds) +:+ "/") (abs_path cs +:+ "/") = true.
Proof.
  intros Hne. apply HasPrefix_iff. unfold abs_path.
  destruct ds as [|d ds].
  - exists "". by rewrite app_nil_r, sapp_nil_r.
  - exists (join_slash (d :: ds) +:+ "/"). rewrite !sapp_assoc. f_equal.
    induction cs as [|c cs IH]; [done|]. destruct cs as [|e cs].
    + change (join_slash ([c] ++ d :: ds)) with (c +:+ "/" +:+ join_slash (d :: ds)).
      by rewrite !sapp_assoc.
    + change (join_slash ((c :: e :: cs) ++ d :: ds))
        with (c +:+ "/" +:+ join_slash ((e :: cs) ++ d :: ds)).
      change (join_slash (c :: e :: cs)) with (c +:+ "/" +:+ join_slash (e :: cs)).
      rewrite !sapp_assoc. do 2 f_equal. by apply IH.
Qed.

(** The guard of [SecurePath] compares component lists, not just strings. *)
Lemma guard_spec bs rs :
  Forall (fun c => clean_comp c) bs -> Forall (fun c => clean_comp c) rs -> bs <> [] ->
  let sep p := if HasSuffix_slash p then p else p +:+ "/" in
  negb (abs_path rs =s? abs_path bs) && negb (HasPrefix (sep (abs_path rs)) (sep (abs_path bs)))
    = negb (bool_decide (bs `prefix_of` rs)).
Proof.
  intros Hb Hr Hne sep. unfold sep. rewrite (HasSuffix_slash_abs bs) by done.
  destruct (decide (rs = [])) as [->|Hr'].
  - rewrite bool_decide_eq_false_2 by (by intros ?%prefix_nil_inv).
    change (HasSuffix_slash (abs_path [])) with true.
    rewrite seqb_ne by (intros E; apply abs_path_inj in E; congruence).
    destruct (HasPrefix (abs_path []) (abs_path bs +:+ "/")) eqn:E; [|done].
    apply HasPrefix_iff in E as [u Eu]. unfold abs_path in Eu.
    apply (f_equal String.length) in Eu. rewrite !slength_app in Eu. simpl in Eu. lia.
  - rewrite HasSuffix_slash_abs by done. case_bool_decide as Hp.
    + destruct Hp as [ds ->]. rewrite abs_path_app_prefix by done. by rewrite andb_false_r.
    + destruct (HasPrefix _ _) eqn:E; [by apply with_sep_prefix in E|].
      rewrite seqb_ne; [done|]. intros E'. apply abs_path_inj in E'; [|done..].
      by subst.
Qed.

Section Confinement.
Context `{SE : SymlinkEval}.

Abbreviation clean_list cs := (Forall (fun c => clean_comp c) cs).

(** The two paths [SecurePath] resolves. *)
Definition sec_base (wd baseDir : string) : string :=
  Clean (Abs wd (if baseDir =s? "" then "/" else baseDir)).

Definition sec_target (wd target baseDir : string) : string :=
  if IsAbs target then Clean target else Clean (Join [sec_base wd baseDir; target]).

Lemma sec_base_clean wd b :
  IsAbs wd = true -> exists bs, sec_base wd b = abs_path bs /\ clean_list bs.
Proof.
  intros Hwd. unfold sec_base, Abs. set (b' := if b =s? "" then "/" else b).
  destruct (IsAbs b') eqn:E.
  - rewrite Clean_idemp by done. by apply Clean_abs.
  - apply Clean_abs. destruct wd as [|c wd]; [done|]. unfold Join.
    rewrite seqb_ne by done.
    destruct (Clean_abs (join_slash [String c wd; b'])) as (cs & -> & _); [|done].
    simpl. exact Hwd.
Qed.

Lemma sec_target_clean wd t b :
  IsAbs wd = true -> exists ts, sec_target wd t b = abs_path ts /\ clean_list ts.
Proof.
  intros Hwd. unfold sec_target. destruct (IsAbs t) eqn:E; [by apply Clean_abs|].
  destruct (sec_base_clean wd b Hwd) as (bs & -> & Hbs).
  rewrite Join_abs_path by done. by apply Clean_abs.
Qed.

Lemma resolved_clean cs r :
  clean_list cs -> resolveSymlinks (abs_path cs) = Ok r ->
  exists rs, r = abs_path rs /\ clean_list rs.
Proof.
  intros Hcs E. destruct (resolveSymlinks_abs cs Hcs) as [(r' & E' & H)|(e & E' & _)].
  - rewrite E in E'. injection E' as <-. by apply (resolves_to_clean cs).
  - by rewrite E in E'.
Qed.

Lemma SecurePath_unfold wd t b bs :
  IsAbs wd = true -> clean_list bs -> bs <> [] ->
  resolveSymlinks (sec_base wd b) = Ok (abs_path bs) ->
  forall r, SecurePath wd t b = Ok r <->
    exists rs, resolveSymlinks (sec_target wd t b) = Ok (abs_path rs) /\ clean_list rs /\
      bs `prefix_of` rs /\ r = abs_path rs.
Proof.
  intros Hwd Hbs Hne Hb r. unfold SecurePath.
  change (Clean (Abs wd (if b =s? "" then "/" else b))) with (sec_base wd b).
  change (if IsAbs t then Clean t else Clean (Join [sec_base wd b; t]))
    with (sec_target wd t b).
  rewrite Hb. cbn [res_bind].
  rewrite (seqb_ne (abs_path bs) "/") by (intros E; by apply (abs_path_inj bs []) in E).
  change (abs_path bs =s? "\") with false. simpl orb. cbv iota.
  rewrite res_bind_ok.
  destruct (sec_target_clean wd t b Hwd) as (ts & Et & Hts). rewrite Et. split.
  - intros (q & Hq & H). destruct (resolved_clean _ _ Hts Hq) as (rs & -> & Hrs).
    rewrite guard_spec in H by done. case_bool_decide; [|done]. injection H as <-. eauto.
  - intros (rs & Hq & Hrs & Hp & ->). exists (abs_path rs). split; [done|].
    rewrite guard_spec by done. by rewrite bool_decide_eq_true_2.
Qed.
Lemma SecurePath_confined_lemma wd target baseDir r :
  IsAbs wd = true -> SecurePath wd target baseDir = Ok r ->
  exists bs rs, resolveSymlinks (sec_base wd baseDir) = Ok (abs_path bs) /\
    r = abs_path rs /\ Forall (fun c => clean_comp c) rs /\ bs `prefix_of` rs.
Proof.
  intros Hwd H. pose proof H as H'. unfold SecurePath in H'. apply res_bind_ok in H' as (q & Hq & H').
  destruct (sec_base_clean wd baseDir Hwd) as (cs & Eb & Hcs).
  unfold sec_base in Eb. rewrite Eb in Hq.
  destruct (resolved_clean _ _ Hcs Hq) as (bs & -> & Hbs). rewrite <- Eb in Hq.
  destruct (decide (bs = [])) as [->|Hne].
  - simpl in H'. injection H' as <-. destruct (sec_target_clean wd target baseDir Hwd)
      as (ts & Et & Hts). exists [], ts. unfold sec_target, sec_base in Et.
    split; [exact Hq|]. split; [exact Et|]. split; [done|apply prefix_nil].
  - apply (SecurePath_unfold wd target baseDir bs) in H as (rs & _ & Hrs & Hp & ->); eauto.
    exists bs, rs. done.
Qed.
End Confinement.

(** * An example tree

    A sandbox reached through a link, with a file, a link out of it, and a link out of it to
    a file that does not exist yet. *)

Definition demo_tree : gmap (list string) node :=
  list_to_map
    [(["app"], NDir); (["app"; "sandbox"], NLink "/data/box");
     (["data"], NDir); (["data"; "box"], NDir); (["data"; "box"; "a.txt"], NFile);
     (["data"; "box"; "out"], NLink "/etc"); (["data"; "box"; "new"], NLink "../../etc/fresh");
     (["etc"], NDir); (["etc"; "passwd"], NFile)].

Example demo_accepts :
  @SecurePath (tree_eval demo_tree) "/" "x/../a.txt" "/app/sandbox" = Ok "/data/box/a.txt".
Proof. vm_compute. reflexivity. Qed.

Example demo_rejects :
  (@SecurePath (tree_eval demo_tree) "/" "out/passwd" "/app/sandbox",
   @SecurePath (tree_eval demo_tree) "/" "../../etc" "/app/sandbox",
   @SecurePath (tree_eval demo_tree) "/" "/data/boxes" "/app/sandbox") =
  (Err STraversal, Err STraversal, Err STraversal).
Proof. vm_compute. reflexivity. Qed.

(** * Properties *)

Section Properties.
Context `{SE : SymlinkEval}.

(** C2: confinement.  Whatever [SecurePath] returns is a clean absolute path (no "..", "."
    or empty component) whose component list extends the one of the resolved base directory,
    so the returned path cannot leave the base through "..", through an absolute target, or
    through a sibling directory that merely shares a name prefix. *)
Theorem SecurePath_confined wd target baseDir r :
  IsAbs wd = true -> SecurePath wd target baseDir = Ok r ->
  exists bs rs, resolveSymlinks (sec_base wd baseDir) = Ok (abs_path bs) /\
    r = abs_path rs /\ Forall (fun c => clean_comp c) rs /\ bs `prefix_of` rs.
Proof. apply SecurePath_confined_lemma. Qed.

(** The decision of [SecurePath] under a base other than the root is exactly the
    component-wise prefix test on the two resolved paths: inside targets are accepted and
    returned resolved, all others are errors. *)
Theorem SecurePath_decides wd target baseDir bs :
  IsAbs wd = true -> Forall (fun c => clean_comp c) bs -> bs <> [] ->
  resolveSymlinks (sec_base wd baseDir) = Ok (abs_path bs) ->
  forall r, SecurePath wd target baseDir = Ok r <->
    exists rs, resolveSymlinks (sec_target wd target baseDir) = Ok (abs_path rs) /\
      Forall (fun c => clean_comp c) rs /\ bs `prefix_of` rs /\ r = abs_path rs.
Proof. apply SecurePath_unfold. Qed.

(** [resolveSymlinks] terminates on every clean absolute path within its bound, and its
    result is the evaluation of the deepest existing ancestor followed by the components
    that do not exist; the only errors are those of the evaluation other than
    "does not exist". *)
Theorem resolveSymlinks_total cs :
  Forall (fun c => clean_comp c) cs ->
  (exists r, resolveSymlinks (abs_path cs) = Ok r /\ resolves_to cs r) \/
  (exists e, resolveSymlinks (abs_path cs) = Err (SFs e) /\ e <> ENotExist).
Proof. apply resolveSymlinks_abs. Qed.

End Properties.

Lemma SecurePath_confined_witness :
  @SecurePath (tree_eval demo_tree) "/" "a.txt" "/app/sandbox" = Ok "/data/box/a.txt" /\
  exists bs rs, @resolveSymlinks (tree_eval demo_tree) (sec_base "/" "/app/sandbox") =
      Ok (abs_path bs) /\
    "/data/box/a.txt" = abs_path rs /\ Forall (fun c => clean_comp c) rs /\ bs `prefix_of` rs.
Proof.
  split; [vm_compute; reflexivity|].
  apply (@SecurePath_confined (tree_eval demo_tree) "/" "a.txt" "/app/sandbox");
    vm_compute; reflexivity.
Defined.

Lemma SecurePath_decides_witness :
  @SecurePath (tree_eval demo_tree) "/" "out/passwd" "/app/sandbox" = Ok "/etc/passwd" <->
    exists rs, @resolveSymlinks (tree_eval demo_tree)
        (sec_target "/" "out/passwd" "/app/sandbox") = Ok (abs_path rs) /\
      Forall (fun c => clean_comp c) rs /\ ["data"; "box"] `prefix_of` rs /\
      "/etc/passwd" = abs_path rs.
Proof.
  apply (@SecurePath_decides (tree_eval demo_tree) "/" "out/passwd" "/app/sandbox" ["data"; "box"]).
  - reflexivity.
  - repeat constructor.
  - discriminate.
  - vm_compute. reflexivity.
Defined.

Lemma resolveSymlinks_total_witness :
  (exists r, @resolveSymlinks (tree_eval demo_tree) (abs_path ["app"; "sandbox"; "x"; "y"]) = Ok r /\
     @resolves_to (tree_eval demo_tree) ["app"; "sandbox"; "x"; "y"] r) \/
  (exists e, @resolveSymlinks (tree_eval demo_tree) (abs_path ["app"; "sandbox"; "x"; "y"]) =
     Err (SFs e) /\ e <> ENotExist).
Proof. apply (@resolveSymlinks_total (tree_eval demo_tree)). repeat constructor. Defined.

Lemma resolves_to_real tree cs q rs :
  evalSymlinks tree (abs_path cs) = Ok q -> Forall (fun c => clean_comp c) rs ->
  @resolveSymlinks (tree_eval tree) (abs_path cs) = Ok (abs_path rs) -> real_path tree rs.
Proof.
  intros E Hrs H. unfold resolveSymlinks in H. simpl in H. rewrite E in H.
  destruct (evalSymlinks_real _ _ _ E) as (ds & -> & Hds & Hreal).
  rewrite Clean_abs_path in H by done.
  assert (abs_path ds = abs_path rs) as E' by congruence.
  apply abs_path_inj in E'; [|done..]. by subst.
Qed.

(** on a file tree, an existing target that [SecurePath] accepts under a non-root base is
    returned as its real location: no component of the returned path is a symbolic link, so
    following links cannot lead out of the resolved base. *)
Theorem SecurePath_existing_real tree wd target baseDir bs q r :
  IsAbs wd = true -> Forall (fun c => clean_comp c) bs -> bs <> [] ->
  @resolveSymlinks (tree_eval tree) (sec_base wd baseDir) = Ok (abs_path bs) ->
  evalSymlinks tree (sec_target wd target baseDir) = Ok q ->
  @SecurePath (tree_eval tree) wd target baseDir = Ok r ->
  exists rs, r = abs_path rs /\ bs `prefix_of` rs /\ real_path tree rs.
Proof.
  intros Hwd Hbs Hne Hb Hq H.
  apply (SecurePath_unfold wd target baseDir bs) in H as (rs & Hr & Hrs & Hp & ->); [|done..].
  exists rs. split; [done|]. split; [done|].
  destruct (sec_target_clean wd target baseDir Hwd) as (ts & Et & Hts).
  rewrite Et in Hq, Hr. by apply (resolves_to_real tree ts q rs).
Qed.

Lemma SecurePath_existing_real_witness :
  exists rs, "/data/box/a.txt" = abs_path rs /\ ["data"; "box"] `prefix_of` rs /\
    real_path demo_tree rs.
Proof.
  apply (SecurePath_existing_real demo_tree "/" "a.txt" "/app/sandbox" ["data"; "box"]
    "/data/box/a.txt").
  - reflexivity.
  - repeat constructor.
  - discriminate.
  - vm_compute. reflexivity.
  - vm_compute. reflexivity.
  - vm_compute. reflexivity.
Defined.

(** The limit of the guarantee.  A link inside the base whose target does not exist is
    taken for a file to be created: [SecurePath] accepts and returns the link itself,
    although what it names lies outside the base (creating it would write to /etc/fresh). *)
Theorem SecurePath_accepts_dangling_link :
  @SecurePath (tree_eval demo_tree) "/" "new" "/app/sandbox" = Ok "/data/box/new" /\
  demo_tree !! ["data"; "box"; "new"] = Some (NLink "../../etc/fresh") /\
  ~ real_path demo_tree ["data"; "box"; "new"].
Proof.
  split; [vm_compute; reflexivity|]. split; [vm_compute; reflexivity|].
  intros H. destruct (H ["data"; "box"; "new"]); done.
Qed.
