(* ===== verification/Session.v ===== *)
(** The session manager of the daemon: internal/daemon/session.go.

    Every operation of the source holds the manager's mutex for its whole body, so a run of
    the daemon is a sequence of whole operations ([sm_step], [sm_reachable]).  Random session
    identifiers and the clock are arguments; the operating system is the [FileSystem]
    interface. *)

From S2P Require Import Prelude GoStd Paths FileTree Security.

Class FileSystem := {
  fs_eval :: SymlinkEval;
  fs_root : EvalSymlinks "/" = Ok "/";
  (** [os.Stat(p)] succeeds and [IsDir()]. *)
  fs_isDir : string -> bool;
  (** The working directory of the daemon process. *)
  fs_wd : string;
  fs_wd_abs : IsAbs fs_wd = true
}.

Definition tree_is_dir (tree : gmap (list string) node) (p : string) : bool :=
  match walk tree max_links [] (split_slash p) with
  | Ok [] => true
  | Ok dest => bool_decide (tree !! rev dest = Some NDir)
  | Err _ => false
  end.

#[export] Instance tree_fs (tree : gmap (list string) node) : FileSystem.
Proof.
  refine {| fs_eval := tree_eval tree; fs_isDir := tree_is_dir tree; fs_wd := "/" |};
    abstract reflexivity.
Defined.

(** * State *)

(** [Env] is a Go map that may be nil; times are nanoseconds. *)
Record Session :=
  { ID : string; CWD : string; BaseDir : string; Env : option (gmap string string);
    LastActive : Z }.

Record SessionManager :=
  { sessions : gmap string Session;
    ttl : Z;
    totalSessionsCreated : Z;
    stopped : bool  (* the done channel is closed *) }.

Definition NewSessionManager (t : Z) : SessionManager :=
  {| sessions := ∅; ttl := t; totalSessionsCreated := 0; stopped := false |}.

Definition with_sessions (m : gmap string Session) (sm : SessionManager) : SessionManager :=
  {| sessions := m; ttl := ttl sm; totalSessionsCreated := totalSessionsCreated sm;
     stopped := stopped sm |}.

(** [Session.copy]: a fresh map with the same entries when the map is not nil. *)
Definition copy (s : Session) : Session :=
  {| ID := ID s; CWD := CWD s; BaseDir := BaseDir s; LastActive := LastActive s;
     Env := match Env s with
            | Some m => Some (map_fold (fun k v acc => <[k := v]> acc) ∅ m)
            | None => None
            end |}.

(** * Operations *)

Section Operations.
Context `{FS : FileSystem}.

(** [id] is the hexadecimal text of the random bytes.  The returned session is the one stored
    in the table. *)
Definition Create (id : string) (now : Z) (sm : SessionManager) : Session * SessionManager :=
  let s := {| ID := id; CWD := "/"; BaseDir := "/"; Env := Some ∅; LastActive := now |} in
  (s, {| sessions := <[id := s]> (sessions sm); ttl := ttl sm;
         totalSessionsCreated := wrap 64 (totalSessionsCreated sm + 1);
         stopped := stopped sm |}).

Definition Get (id : string) (now : Z) (sm : SessionManager)
    : option Session * SessionManager :=
  match sessions sm !! id with
  | None => (None, sm)
  | Some s =>
      let s := {| ID := ID s; CWD := CWD s; BaseDir := BaseDir s; Env := Env s;
                  LastActive := now |} in
      (Some (copy s), with_sessions (<[id := s]> (sessions sm)) sm)
  end.

Definition SetCwd (id path : string) (now : Z) (sm : SessionManager) : bool * SessionManager :=
  match sessions sm !! id with
  | None => (false, sm)
  | Some s =>
      let base := if BaseDir s =s? "" then "/" else BaseDir s in
      match SecurePath fs_wd path base with
      | Err _ => (false, sm)
      | Ok securePath =>
          if negb (fs_isDir securePath) then (false, sm)
          else
            let s :=
              {| ID := ID s; CWD := securePath;
                 BaseDir := if (BaseDir s =s? "/") && negb (securePath =s? "/")
                            then securePath else BaseDir s;
                 Env := Env s; LastActive := now |} in
            (true, with_sessions (<[id := s]> (sessions sm)) sm)
      end
  end.

Definition Destroy (id : string) (sm : SessionManager) : bool * SessionManager :=
  match sessions sm !! id with
  | Some _ => (true, with_sessions (delete id (sessions sm)) sm)
  | None => (false, sm)
  end.

Definition TotalCreated (sm : SessionManager) : Z := totalSessionsCreated sm.

(** The source iterates a Go map, in an unspecified order; this is one such order. *)
Definition ListSessions (sm : SessionManager) : list Session :=
  (fun p => copy (snd p)) <$> map_to_list (sessions sm).

(** [time.Time.Sub]: the difference saturates at the bounds of an int64. *)
Definition time_sub (t u : Z) : Z := Z.max int64_min (Z.min int64_max (t - u)).

(** One tick of [cleanupLoop]. *)
Definition cleanup (now : Z) (sm : SessionManager) : SessionManager :=
  with_sessions
    (filter (fun p : string * Session => (time_sub now (LastActive (snd p)) <= ttl sm)%Z)
       (sessions sm)) sm.

Definition Stop (sm : SessionManager) : SessionManager :=
  {| sessions := sessions sm; ttl := ttl sm; totalSessionsCreated := totalSessionsCreated sm;
     stopped := true |}.

(** * Runs *)

(** One operation by some connection, or one tick of the cleanup goroutine.  A new identifier
    is not in the table: it is eight bytes of crypto/rand. *)
Inductive sm_step : SessionManager -> SessionManager -> Prop :=
| step_create id now sm :
    sessions sm !! id = None -> sm_step sm (snd (Create id now sm))
| step_get id now sm : sm_step sm (snd (Get id now sm))
| step_setcwd id path now sm : sm_step sm (snd (SetCwd id path now sm))
| step_destroy id sm : sm_step sm (snd (Destroy id sm))
| step_cleanup now sm : sm_step sm (cleanup now sm)
| step_stop sm : sm_step sm (Stop sm).

Definition sm_reachable (t : Z) (sm : SessionManager) : Prop :=
  rtc sm_step (NewSessionManager t) sm.

End Operations.

(** * Lemmas *)

Lemma copy_eq s : copy s = s.
Proof.
  destruct s as [i c b e l]. unfold copy. simpl. f_equal. destruct e as [m|]; [|done]. f_equal.
  apply (map_fold_weak_ind (fun r m => r = m)); [done|]. by intros k v m' r _ ->.
Qed.

Section Invariant.
Context `{FS : FileSystem}.

Abbreviation clean_list cs := (Forall (fun c => clean_comp c) cs).

(** The confinement invariant of a session: both directories are clean absolute paths; while
    the base is the root the session has not moved; afterwards the working directory is the
    base itself or lies below the resolved base. *)
Definition session_ok (s : Session) : Prop :=
  exists bs cs, BaseDir s = abs_path bs /\ CWD s = abs_path cs /\ clean_list bs /\ clean_list cs /\
    (bs = [] -> cs = []) /\
    (cs = bs \/ exists rb, resolveSymlinks (BaseDir s) = Ok (abs_path rb) /\ rb `prefix_of` cs).

Lemma sec_base_abs bs : clean_list bs -> sec_base fs_wd (abs_path bs) = abs_path bs.
Proof.
  intros H. unfold sec_base. rewrite seqb_ne by done. unfold Abs.
  by rewrite IsAbs_abs_path, !Clean_abs_path.
Qed.

Lemma resolve_root : resolveSymlinks "/" = Ok "/".
Proof. unfold resolveSymlinks. by rewrite fs_root. Qed.

Lemma session_ok_setcwd s path sp now :
  session_ok s ->
  SecurePath fs_wd path (if BaseDir s =s? "" then "/" else BaseDir s) = Ok sp ->
  session_ok {| ID := ID s; CWD := sp;
    BaseDir := if (BaseDir s =s? "/") && negb (sp =s? "/") then sp else BaseDir s;
    Env := Env s; LastActive := now |}.
Proof.
  intros (bs & cs & Eb & Ec & Hbs & Hcs & H0 & Hc) H. rewrite Eb in H.
  change (abs_path bs =s? "") with false in H. cbv iota in H.
  destruct (SecurePath_confined_lemma _ _ _ _ fs_wd_abs H) as (rb & rs & Hb & -> & Hrs & Hp).
  rewrite sec_base_abs in Hb by done. unfold session_ok. cbn [BaseDir CWD]. rewrite Eb.
  destruct (decide (bs = [])) as [->|Hne].
  - destruct (seqb_spec (abs_path rs) "/") as [E|E].
    + apply (abs_path_inj rs []) in E as ->; [|done|constructor]. exists [], []. naive_solver.
    + exists rs, rs. change (abs_path [] =s? "/") with true. cbn [andb negb]. naive_solver.
  - rewrite seqb_ne by (intros E; by apply (abs_path_inj bs []) in E). cbn [andb].
    exists bs, rs. naive_solver.
Qed.

Definition sm_ok (sm : SessionManager) : Prop :=
  map_Forall (fun id s => ID s = id /\ session_ok s) (sessions sm).

Lemma sm_step_ok sm sm' : sm_step sm sm' -> sm_ok sm -> sm_ok sm'.
Proof.
  intros Hs Hok. destruct Hs as [id now sm Hid|id now sm|id path now sm|id sm|now sm|sm].
  - apply map_Forall_insert_2; [|done]. split; [done|]. exists [], []. naive_solver.
  - unfold Get. destruct (sessions sm !! id) as [s|] eqn:E; [|done].
    destruct (Hok _ _ E) as [HID Hses]. by apply map_Forall_insert_2.
  - unfold SetCwd. destruct (sessions sm !! id) as [s|] eqn:E; [|done].
    destruct (Hok _ _ E) as [HID Hses].
    destruct (SecurePath _ _ _) as [sp|] eqn:Es; [|done].
    destruct (negb (fs_isDir sp)); [done|].
    apply map_Forall_insert_2; [|done]. split; [done|]. by apply (session_ok_setcwd s path).
  - unfold Destroy. destruct (sessions sm !! id) as [s|] eqn:E; [|done].
    by apply map_Forall_delete.
  - unfold sm_ok. simpl. intros i x [Hx _]%map_lookup_filter_Some. by apply Hok.
  - done.
Qed.

Lemma sm_reachable_ok t sm : sm_reachable t sm -> sm_ok sm.
Proof.
  unfold sm_reachable. intros H. assert (sm_ok (NewSessionManager t)) as H0 by apply map_Forall_empty.
  induction H as [|x y z Hxy _ IH]; [done|]. apply IH. by apply (sm_step_ok x).
Qed.

(** A step keeps the base of a session that has one, as long as the session lives. *)
Lemma sm_step_base sm sm' id s s' :
  sm_step sm sm' -> sessions sm !! id = Some s -> sessions sm' !! id = Some s' ->
  BaseDir s <> "/" -> BaseDir s' = BaseDir s.
Proof.
  intros Hs Es Es' Hb. revert Es'.
  destruct Hs as [id' now sm Hid|id' now sm|id' path now sm|id' sm|now sm|sm]; simpl.
  - rewrite lookup_insert_ne by congruence. naive_solver.
  - unfold Get. destruct (sessions sm !! id') as [s0|] eqn:E; simpl; [|naive_solver].
    rewrite lookup_insert. case_decide; naive_solver.
  - unfold SetCwd. destruct (sessions sm !! id') as [s0|] eqn:E; simpl; [|naive_solver].
    destruct (SecurePath _ _ _) as [sp|]; simpl; [|naive_solver].
    destruct (negb (fs_isDir sp)); simpl; [naive_solver|].
    rewrite lookup_insert. case_decide; [|naive_solver]. intros [= <-]. simpl.
    assert (s0 = s) as -> by congruence. by rewrite seqb_ne.
  - unfold Destroy. destruct (sessions sm !! id') as [s0|] eqn:E; simpl; [|naive_solver].
    rewrite lookup_delete. case_decide; naive_solver.
  - intros [Hx _]%map_lookup_filter_Some. naive_solver.
  - naive_solver.
Qed.

(** A step during which the session [id] is present before and after. *)
Definition live_step (id : string) (sm sm' : SessionManager) : Prop :=
  sm_step sm sm' /\ is_Some (sessions sm !! id) /\ is_Some (sessions sm' !! id).

Lemma cleanup_lookup now sm id s :
  sessions (cleanup now sm) !! id = Some s <->
  sessions sm !! id = Some s /\ (time_sub now (LastActive s) <= ttl sm)%Z.
Proof. unfold cleanup. simpl. by rewrite map_lookup_filter_Some. Qed.

End Invariant.

(** * Properties *)

Section Properties.
Context `{FS : FileSystem}.

(** C4: in every state the daemon can reach, by any interleaving of operations and cleanup
    ticks, each session is stored under its own identifier and is confined: its working
    directory is its base directory or lies below what the base directory resolves to. *)
Theorem sessions_confined t sm id s :
  sm_reachable t sm -> sessions sm !! id = Some s -> ID s = id /\ session_ok s.
Proof. intros H E. by apply (sm_reachable_ok t sm H). Qed.

(** The sandbox of a session is pinned: once [SetCwd] has given it a base directory other
    than the root, no sequence of operations during the life of the session changes it. *)
Theorem session_base_pinned id sm sm' s :
  rtc (live_step id) sm sm' -> sessions sm !! id = Some s -> BaseDir s <> "/" ->
  exists s', sessions sm' !! id = Some s' /\ BaseDir s' = BaseDir s.
Proof.
  intros H. revert s. induction H as [sm|x y z (Hs & _ & [s' Hy]) _ IH]; intros s Es Hb; [eauto|].
  pose proof (sm_step_base _ _ _ _ _ Hs Es Hy Hb) as E.
  destruct (IH s' Hy) as (s'' & Hz & E''); [congruence|]. exists s''. split; congruence.
Qed.

(** [SetCwd] on every branch.  It succeeds exactly when the session exists, the path is
    admitted by [SecurePath] under the session's base and names a directory; it then moves
    only that session.  Otherwise the manager is unchanged. *)
Theorem SetCwd_spec id path now sm :
  match fst (SetCwd id path now sm) with
  | true =>
      exists s sp, sessions sm !! id = Some s /\
        SecurePath fs_wd path (if BaseDir s =s? "" then "/" else BaseDir s) = Ok sp /\
        fs_isDir sp = true /\
        (exists s', sessions (snd (SetCwd id path now sm)) !! id = Some s' /\
           CWD s' = sp /\ LastActive s' = now /\ ID s' = ID s /\ Env s' = Env s) /\
        (forall id', id' <> id ->
           sessions (snd (SetCwd id path now sm)) !! id' = sessions sm !! id')
  | false =>
      snd (SetCwd id path now sm) = sm /\
      forall s sp, sessions sm !! id = Some s ->
        SecurePath fs_wd path (if BaseDir s =s? "" then "/" else BaseDir s) = Ok sp ->
        fs_isDir sp = false
  end.
Proof.
  unfold SetCwd. destruct (sessions sm !! id) as [s|] eqn:E; simpl; [|done].
  destruct (SecurePath _ _ _) as [sp|] eqn:Es; simpl.
  2: { split; [done|]. intros s0 sp0 [= <-]. congruence. }
  destruct (fs_isDir sp) eqn:Ed; simpl.
  - exists s, sp. do 3 (split; [done|]). split.
    + rewrite lookup_insert_eq. eexists. split; [reflexivity|]. done.
    + intros id' Hne. by rewrite lookup_insert_ne.
  - split; [done|]. intros s0 sp0 [= <-]. congruence.
Qed.

(** expiry.  A session used at time [u] survives a cleanup at time [now] exactly when it
    has been idle for at most the manager's time to live; using it ([Get]) is what renews it,
    and the caller gets a copy of the stored state. *)
Theorem session_expiry id u now sm :
  (is_Some (sessions (cleanup now (snd (Get id u sm))) !! id) <->
     is_Some (sessions sm !! id) /\ (time_sub now u <= ttl sm)%Z) /\
  fst (Get id u sm) = sessions (snd (Get id u sm)) !! id.
Proof.
  unfold Get. destruct (sessions sm !! id) as [s|] eqn:E; simpl.
  - rewrite lookup_insert_eq, copy_eq. split; [|done]. split.
    + intros [s' H]. apply map_lookup_filter_Some in H as [H1 H2].
      rewrite lookup_insert_eq in H1. injection H1 as <-. eauto.
    + intros [_ Hle]. eexists. apply map_lookup_filter_Some.
      rewrite lookup_insert_eq. split; [reflexivity|]. exact Hle.
  - rewrite E. split; [|done]. split; [|intros [[] _]; done].
    intros [s' H]. apply map_lookup_filter_Some in H as [H1 _]. congruence.
Qed.

End Properties.

(** A session that moved into the sandbox of the example tree. *)
Definition demo_sm : SessionManager :=
  snd (@SetCwd (tree_fs demo_tree) "s1" "/app/sandbox" 5
    (snd (Create "s1" 0 (NewSessionManager 100)))).

Lemma sessions_confined_witness :
  exists s, sessions demo_sm !! "s1" = Some s /\ CWD s = "/app/sandbox" /\
    (ID s = "s1" /\ @session_ok (tree_fs demo_tree) s).
Proof.
  eexists. split; [vm_compute; reflexivity|]. split; [reflexivity|].
  apply (@sessions_confined (tree_fs demo_tree) 100 demo_sm); [|vm_compute; reflexivity].
  eapply rtc_l; [apply (step_create "s1" 0); reflexivity|].
  eapply rtc_l; [apply (step_setcwd "s1" "/app/sandbox" 5)|]. apply rtc_refl.
Defined.

Lemma session_base_pinned_witness :
  exists s', sessions (snd (@SetCwd (tree_fs demo_tree) "s1" "/etc" 7 demo_sm)) !! "s1" = Some s' /\
    BaseDir s' = "/app/sandbox".
Proof.
  apply (@session_base_pinned (tree_fs demo_tree) "s1" demo_sm _
    {| ID := "s1"; CWD := "/app/sandbox"; BaseDir := "/app/sandbox"; Env := Some ∅;
       LastActive := 5 |}).
  - apply rtc_once. split; [apply (step_setcwd "s1" "/etc" 7)|].
    split; eexists; vm_compute; reflexivity.
  - vm_compute. reflexivity.
  - discriminate.
Defined.
