(* ===== verification/Dispatch.v ===== *)
(** The multicall registry (internal/dispatch/dispatch.go) and the size-limited writer the
    daemon hands to commands (pkg/common/io.go). *)

From stdpp Require Import sorting.
From S2P Require Import Prelude GoStd.

(** What running a command leaves behind: the exit code and the chunks it wrote to its two
    writers, in order. *)
Record run_result := { exit_code : Z; out_writes : list string; err_writes : list string }.

(** [Run] takes the arguments, the text of standard input and the working directory. *)
Record Command :=
  { Name : string; Usage : string; Run : list string -> string -> string -> run_result }.

(** * The registry *)

(** [None] is the panic on a duplicate name. *)
Definition Register (cmd : Command) (registry : gmap string Command)
    : option (gmap string Command) :=
  match registry !! Name cmd with
  | Some _ => None
  | None => Some (<[Name cmd := cmd]> registry)
  end.

Definition Lookup (registry : gmap string Command) (n : string) : option Command :=
  registry !! n.

Definition name_le (a b : Command) : Prop := String.le (Name a) (Name b).

#[export] Instance name_le_dec a b : Decision (name_le a b).
Proof. unfold name_le. apply _. Defined.

#[export] Instance name_le_trans : Transitive name_le.
Proof. intros a b c. unfold name_le. apply transitivity. Qed.

#[export] Instance name_le_total : Total name_le.
Proof. intros a b. unfold name_le. apply total, _. Qed.

(** The registered commands sorted by name.  The iteration order of the Go map does not
    matter: see [ListAll_unique]. *)
Definition ListAll (registry : gmap string Command) : list Command :=
  merge_sort name_le (map_to_list registry).*2.

(** The lines printed by [ListCommands]: every command but sh. *)
Definition ListCommands (registry : gmap string Command) : list string :=
  Name <$> List.filter (fun c => negb (Name c =s? "sh")) (ListAll registry).

(** The registry built by the packages' init functions, [None] if one panicked. *)
Fixpoint register_all (cmds : list Command) (registry : gmap string Command)
    : option (gmap string Command) :=
  match cmds with
  | [] => Some registry
  | c :: cmds =>
      match Register c registry with
      | Some registry => register_all cmds registry
      | None => None
      end
  end.

(** * LimitWriter (io.go) *)

Record LimitWriter := { W : string; Limit : Z; Wrote : Z }.

(** [Write]: the new writer, the number of bytes accepted, and whether an error is returned.
    The underlying writer is a buffer, which never fails. *)
Definition Write (lw : LimitWriter) (p : string) : LimitWriter * Z * bool :=
  let len := Z.of_nat (String.length p) in
  if (Limit lw <=? Wrote lw)%Z then (lw, 0%Z, true)
  else if (Limit lw <? Wrote lw + len)%Z then
    let n := (Limit lw - Wrote lw)%Z in
    ({| W := W lw +:+ str_take (Z.to_nat n) p; Limit := Limit lw; Wrote := Wrote lw + n |}, n, true)
  else ({| W := W lw +:+ p; Limit := Limit lw; Wrote := Wrote lw + len |}, len, false).

Definition write_all (lw : LimitWriter) (ps : list string) : LimitWriter :=
  foldl (fun lw p => fst (fst (Write lw p))) lw ps.

Definition new_writer (limit : Z) : LimitWriter := {| W := ""; Limit := limit; Wrote := 0 |}.

(** * Lemmas *)

Lemma register_all_spec cmds : forall reg reg',
  register_all cmds reg = Some reg' ->
  (forall n c, reg' !! n = Some c <->
     reg !! n = Some c \/ (c ∈ cmds /\ Name c = n)) .
Proof.
  induction cmds as [|c0 cmds IH]; intros reg reg'; simpl.
  { intros [= <-] n c. set_solver. }
  unfold Register. destruct (reg !! Name c0) eqn:E; [done|]. intros H n c.
  rewrite (IH _ _ H n c), lookup_insert_Some, elem_of_cons. split.
  - intros [[[<- <-]|[Hne H1]]|[H1 H2]]; auto.
  - intros [H1|[[->|H1] H2]]; auto. left. right. split; [congruence|done].
Qed.

(** A registry stores every command under its own name. *)
Definition registry_ok (reg : gmap string Command) : Prop :=
  map_Forall (fun n c => Name c = n) reg.

Lemma Register_ok c reg reg' :
  Register c reg = Some reg' -> registry_ok reg -> registry_ok reg'.
Proof.
  unfold Register. destruct (reg !! Name c); [done|]. intros [= <-] H.
  by apply map_Forall_insert_2.
Qed.

Lemma register_all_ok cmds : forall reg reg',
  register_all cmds reg = Some reg' -> registry_ok reg -> registry_ok reg'.
Proof.
  induction cmds as [|c cmds IH]; intros reg reg'; simpl; [by intros [= <-]|].
  destruct (Register c reg) as [reg1|] eqn:E; [|done]. eauto using Register_ok.
Qed.

Lemma ListAll_elem reg c : registry_ok reg -> c ∈ ListAll reg <-> reg !! Name c = Some c.
Proof.
  intros Hok. unfold ListAll. rewrite (merge_sort_Permutation name_le).
  rewrite list_elem_of_fmap. split.
  - intros ([n c'] & -> & H). apply elem_of_map_to_list in H. simpl in *.
    pose proof (Hok _ _ H) as E. simpl in E. by rewrite E.
  - intros H. exists (Name c, c). split; [done|]. by apply elem_of_map_to_list.
Qed.

Lemma ListAll_NoDup reg : registry_ok reg -> NoDup (Name <$> ListAll reg).
Proof.
  intros Hok. unfold ListAll. rewrite (merge_sort_Permutation name_le).
  assert (Name <$> (map_to_list reg).*2 = (map_to_list reg).*1) as ->.
  2: apply NoDup_fst_map_to_list.
  rewrite <- list_fmap_compose. apply list_fmap_ext. intros i [n c] H.
  simpl. apply list_elem_of_lookup_2, elem_of_map_to_list in H. by apply Hok.
Qed.

Lemma slength_take n s : String.length (str_take n s) = Nat.min n (String.length s).
Proof. revert s; induction n; intros [|c s]; simpl; auto. Qed.

Lemma str_take_all n s : String.length s <= n -> str_take n s = s.
Proof.
  revert s; induction n; intros [|c s] H; simpl in *; auto; [lia|]. f_equal. apply IHn. lia.
Qed.

Lemma str_take_app n s t :
  str_take n (s +:+ t) = str_take n s +:+ str_take (n - String.length s) t.
Proof.
  revert n; induction s as [|c s IH]; intros n.
  - rewrite sapp_nil_l. simpl. rewrite Nat.sub_0_r. by destruct n.
  - rewrite sapp_cons. destruct n as [|n]; simpl; [done|]. by rewrite IH, sapp_cons.
Qed.

(** After any sequence of writes the buffer holds the first [Limit] bytes written, and
    [Wrote] is its length. *)
Lemma write_all_spec limit ps : (0 <= limit)%Z -> forall lw,
  Limit lw = limit -> Wrote lw = Z.of_nat (String.length (W lw)) -> (Wrote lw <= limit)%Z ->
  W (write_all lw ps) = str_take (Z.to_nat limit) (W lw +:+ sconcat ps) /\
  (Wrote (write_all lw ps) = Z.of_nat (String.length (W (write_all lw ps))) /\
   Wrote (write_all lw ps) <= limit)%Z.
Proof.
  intros Hl. induction ps as [|p ps IH]; intros lw E1 E2 Hw; simpl.
  { rewrite sapp_nil_r. rewrite str_take_all by lia. done. }
  assert (forall w, Limit w = limit -> Wrote w = Z.of_nat (String.length (W w)) ->
    (Wrote w <= limit)%Z ->
    str_take (Z.to_nat limit) (W w +:+ sconcat ps) =
    str_take (Z.to_nat limit) (W lw +:+ p +:+ sconcat ps) ->
    fst (fst (Write lw p)) = w ->
    W (write_all (fst (fst (Write lw p))) ps) =
      str_take (Z.to_nat limit) (W lw +:+ p +:+ sconcat ps) /\
    (Wrote (write_all (fst (fst (Write lw p))) ps) =
       Z.of_nat (String.length (W (write_all (fst (fst (Write lw p))) ps))) /\
     Wrote (write_all (fst (fst (Write lw p))) ps) <= limit)%Z) as Hstep.
  { intros w H1 H2 H3 H4 ->. rewrite <- H4. by apply IH. }
  unfold Write in *. rewrite E1 in *.
  destruct (limit <=? Wrote lw)%Z eqn:C1; [|destruct (limit <? _)%Z eqn:C2];
    eapply Hstep; try reflexivity; simpl; try done.
  - apply Z.leb_le in C1. rewrite !str_take_app.
    replace (Z.to_nat limit - String.length (W lw)) with 0 by lia. done.
  - apply Z.leb_gt in C1. apply Z.ltb_lt in C2. rewrite slength_app, slength_take. lia.
  - lia.
  - apply Z.leb_gt in C1. apply Z.ltb_lt in C2.
    rewrite !str_take_app, slength_app, slength_take.
    replace (Z.to_nat limit - (String.length (W lw) +
      (Z.to_nat (limit - Wrote lw) `min` String.length p))) with 0 by lia.
    replace (Z.to_nat limit - String.length (W lw) - String.length p) with 0 by lia.
    rewrite sapp_nil_r. replace (Z.to_nat (limit - Wrote lw))
      with (Z.to_nat limit - String.length (W lw)) by lia.
    f_equal. rewrite sapp_nil_r.
    rewrite str_take_all; [done|]. rewrite slength_take. lia.
  - apply Z.leb_gt in C1. apply Z.ltb_ge in C2. rewrite slength_app. lia.
  - apply Z.ltb_ge in C2. lia.
  - by rewrite sapp_assoc.
Qed.

Lemma register_all_dup cmds : forall reg,
  registry_ok reg ->
  match register_all cmds reg with
  | Some _ => NoDup (Name <$> cmds) /\ forall c, c ∈ cmds -> reg !! Name c = None
  | None => ~ (NoDup (Name <$> cmds) /\ forall c, c ∈ cmds -> reg !! Name c = None)
  end.
Proof.
  induction cmds as [|c0 cmds IH]; intros reg Hok; simpl.
  { split; [constructor|set_solver]. }
  unfold Register. destruct (reg !! Name c0) as [c1|] eqn:E.
  { intros [_ H]. specialize (H c0). rewrite E in H. by discriminate H; left. }
  assert (registry_ok (<[Name c0:=c0]> reg)) as Hok' by by apply map_Forall_insert_2.
  specialize (IH _ Hok').
  assert ((NoDup (Name <$> cmds) /\ forall c, c ∈ cmds -> <[Name c0:=c0]> reg !! Name c = None) <->
          (NoDup (Name c0 :: (Name <$> cmds)) /\ forall c, c ∈ c0 :: cmds -> reg !! Name c = None))
    as Hiff.
  { rewrite NoDup_cons, list_elem_of_fmap. split.
    - intros [Hnd H]. split; [split; [|done]|].
      + intros (c & Ec & Hc). specialize (H c Hc). by rewrite <- Ec, lookup_insert_eq in H.
      + intros c [->|Hc]%elem_of_cons; [done|]. specialize (H c Hc).
        by apply lookup_insert_None in H as [? _].
    - intros [[Hni Hnd] H]. split; [done|]. intros c Hc.
      apply lookup_insert_None. split; [apply H; by right|].
      intros Ec. apply Hni. eauto. }
  destruct (register_all cmds _); tauto.
Qed.

(** * Properties *)

(** The registry built from the packages' registrations.  Registration succeeds exactly
    when no two commands share a name (otherwise it panics); then [Lookup] finds exactly the
    registered commands by their names, and [ListAll] lists each of them once, in
    non-decreasing order of names. *)
Theorem registry_complete cmds :
  match register_all cmds ∅ with
  | None => ~ NoDup (Name <$> cmds)
  | Some reg =>
      NoDup (Name <$> cmds) /\
      (forall n c, Lookup reg n = Some c <-> c ∈ cmds /\ Name c = n) /\
      (forall c, c ∈ ListAll reg <-> c ∈ cmds) /\
      NoDup (Name <$> ListAll reg) /\ Sorted name_le (ListAll reg)
  end.
Proof.
  assert (registry_ok ∅) as H0 by apply map_Forall_empty.
  pose proof (register_all_dup cmds ∅ H0) as Hd.
  destruct (register_all cmds ∅) as [reg|] eqn:E.
  - pose proof (register_all_ok _ _ _ E H0) as Hok. destruct Hd as [Hnd _].
    assert (forall n c, Lookup reg n = Some c <-> c ∈ cmds /\ Name c = n) as Hl.
    { intros n c. unfold Lookup. rewrite (register_all_spec _ _ _ E), lookup_empty. naive_solver. }
    split; [done|]. split; [done|]. split; [|split].
    + intros c. rewrite ListAll_elem by done. specialize (Hl (Name c) c). unfold Lookup in Hl.
      naive_solver.
    + by apply ListAll_NoDup.
    + apply Sorted_merge_sort, _.
  - intros Hnd. apply Hd. split; [done|]. intros. apply lookup_empty.
Qed.

(** The response limit of the daemon.  After any sequence of writes through a
    [LimitWriter], the buffer holds exactly the first [Limit] bytes of what was written and
    never more. *)
Theorem LimitWriter_truncates limit ps :
  (0 <= limit)%Z ->
  W (write_all (new_writer limit) ps) = str_take (Z.to_nat limit) (sconcat ps) /\
  (Z.of_nat (String.length (W (write_all (new_writer limit) ps))) <= limit)%Z.
Proof.
  intros H. destruct (write_all_spec limit ps H (new_writer limit)) as (E1 & E2 & E3);
    [done..|]. split; [exact E1|]. by rewrite <- E2.
Qed.

Lemma LimitWriter_truncates_witness :
  W (write_all (new_writer 5) ["abc"; ""; "def"; "g"]) = "abcde" /\
  (W (write_all (new_writer 5) ["abc"; ""; "def"; "g"]) =
     str_take (Z.to_nat 5) (sconcat ["abc"; ""; "def"; "g"]) /\
   (Z.of_nat (String.length (W (write_all (new_writer 5) ["abc"; ""; "def"; "g"]))) <= 5)%Z).
Proof. split; [reflexivity|]. apply LimitWriter_truncates. lia. Defined.
