(* ===== verification/Shell.v ===== *)
(** The shell of the daemon: internal/shell/interpreter.go.

    The interpreter itself is mvdan.cc/sh, a parameter: a script it runs is a tree of the requests it makes of the
    program around it - to write to its streams, to run a simple command, to open the file of a redirection - where each
    request waits for its answer.  The handlers that answer are the code's: commands of the registry are run with
    [dispatch], whatever the directory the script is in; files of redirections go through [SecurePath]. *)

From S2P Require Import Prelude GoStd Paths FileTree Security Session Dispatch.

(** A command that was run. *)
Record invocation := { inv_cmd : string; inv_args : list string; inv_stdin : string;
                       inv_cwd : string }.

(** What the code returns for a script. *)
Record ExecResult :=
  { ShStdout : string; ShStderr : string; ShExitCode : Z; ShCWD : string }.

(** * The interpreter *)

(** The answer to a simple command: nothing to do, the result of a command of the registry and the status the
    interpreter sees ([None]: no error), or the handler that comes next. *)
Inductive answer := ANothing | ARan (r : run_result) (status : option Z) | ANext.

(** The error a run ends with: an exit status of the script, or another error with its text. *)
Inductive run_error := RExitStatus (n : Z) | ROther (text : string).

Inductive script_run :=
| SDone (err : option run_error) (dir : string)
| SWrite (to_stderr : bool) (text : string) (k : bool -> script_run)
| SCall (args : list string) (stdin dir : string) (k : answer -> script_run)
| SOpen (path : string) (k : result sec_error string -> script_run).

(** [Start] is interp.New and the run of the program: the directory, if it is not empty, and the environment, if it is not
    nil, are its options. *)
Record Interpreter :=
  { program : Type;
    Parse : string -> result string program;
    Start : program -> string -> option (gmap string string) -> result string script_run }.

Section Exec.
Context `{FS : FileSystem}.
Variable registry : gmap string Command.

(** The exec handler.  [cwd] is the directory of the script at its start. *)
Definition execHandler (cwd : string) (args : list string) (stdin hc_dir : string) : answer * list invocation :=
  match args with
  | [] => (ANothing, [])
  | cmdName :: args =>
      match Lookup registry cmdName with
      | None => (ANext, [])
      | Some cmd =>
          let dir := if hc_dir =s? "" then cwd else hc_dir in
          let r := Run cmd args stdin dir in
          (ARan r (if (exit_code r =? 0)%Z then None else Some (uwrap 8 (exit_code r))),
           [{| inv_cmd := cmdName; inv_args := args; inv_stdin := stdin; inv_cwd := dir |}])
      end
  end.

(** The open handler: the path the default handler opens. *)
Definition open_base (cwd : string) : string :=
  let base := if cwd =s? "" then fs_wd else cwd in if base =s? "" then "/" else base.
Definition openHandler (cwd path : string) : result sec_error string := SecurePath fs_wd path (open_base cwd).

(** The state of a run: the streams with their limit, the commands and the files so far. *)
Record streams := { lStdout : LimitWriter; lStderr : LimitWriter; ran : list invocation; opened : list string }.

Definition stream_limit : Z := 128 * 1024 * 1024.
Definition new_streams : streams :=
  {| lStdout := new_writer stream_limit; lStderr := new_writer stream_limit; ran := []; opened := [] |}.

(** runner.Run: the requests of the script, answered. *)
Fixpoint drive (cwd : string) (r : script_run) (s : streams) : option run_error * string * streams :=
  match r with
  | SDone err dir => (err, dir, s)
  | SWrite to_stderr text k =>
      let '(w, _, failed) := Write (if to_stderr then lStderr s else lStdout s) text in
      drive cwd (k failed)
        (if to_stderr then {| lStdout := lStdout s; lStderr := w; ran := ran s; opened := opened s |}
         else {| lStdout := w; lStderr := lStderr s; ran := ran s; opened := opened s |})
  | SCall args stdin dir k =>
      let '(a, inv) := execHandler cwd args stdin dir in
      drive cwd (k a) {| lStdout := lStdout s; lStderr := lStderr s; ran := ran s ++ inv; opened := opened s |}
  | SOpen path k =>
      let p := openHandler cwd path in
      drive cwd (k p)
        {| lStdout := lStdout s; lStderr := lStderr s; ran := ran s;
           opened := opened s ++ match p with Ok q => [q] | Err _ => [] end |}
  end.

Definition failed_start (msg : string) : ExecResult := {| ShStdout := ""; ShStderr := msg; ShExitCode := 127; ShCWD := "" |}.

Definition script_result (cwd : string) (err : option run_error) (dir : string) (s : streams) : ExecResult :=
  {| ShStdout := W (lStdout s);
     ShStderr := W (lStderr s) +:+ match err with Some (ROther text) => text +:+ String "010" "" | _ => "" end;
     ShExitCode := match err with None => 0 | Some (RExitStatus n) => uwrap 8 n | Some (ROther _) => 1 end;
     ShCWD := if dir =s? "" then (if cwd =s? "" then fs_wd else cwd) else dir |}.

Definition Exec (sh : Interpreter) (script cwd : string) (env : option (gmap string string)) : ExecResult * streams :=
  match Parse sh script with
  | Err msg => (failed_start msg, new_streams)
  | Ok prog =>
      match Start sh prog cwd env with
      | Err msg => (failed_start msg, new_streams)
      | Ok r => let '(err, dir, s) := drive cwd r new_streams in (script_result cwd err dir s, s)
      end
  end.

(** * What a script reaches *)

(** The commands are those of the registry, and the files of redirections lie below the directory. *)
Definition streams_ok (cwd : string) (s : streams) : Prop :=
  Forall (fun i => is_Some (Lookup registry (inv_cmd i))) (ran s) /\
  Forall (fun q => exists bs rs, resolveSymlinks (sec_base fs_wd (open_base cwd)) = Ok (abs_path bs) /\
            q = abs_path rs /\ Forall (fun c => clean_comp c) rs /\ bs `prefix_of` rs) (opened s).

Lemma execHandler_ran cwd args stdin dir :
  Forall (fun i => is_Some (Lookup registry (inv_cmd i)) /\ (inv_cwd i = dir \/ dir = "" /\ inv_cwd i = cwd))
    (snd (execHandler cwd args stdin dir)).
Proof.
  unfold execHandler. destruct args as [|c args]; [by apply Forall_nil|]. destruct (Lookup registry c) eqn:E; [|by apply Forall_nil].
  apply Forall_singleton. cbn [inv_cmd inv_cwd]. rewrite E. split; [done|]. destruct (seqb_spec dir ""); tauto.
Qed.

Lemma drive_ok cwd r : forall s, streams_ok cwd s -> streams_ok cwd (snd (drive cwd r s)).
Proof.
  induction r as [err dir|to_stderr text k IH|args stdin dir k IH|path k IH]; intros s [Hr Ho]; cbn [drive].
  - by split.
  - destruct (Write _ text) as [[w n] failed]. apply IH. by destruct to_stderr.
  - pose proof (execHandler_ran cwd args stdin dir) as H. destruct (execHandler cwd args stdin dir) as [a inv].
    apply IH. split; [|done]. apply Forall_app. split; [done|]. eapply Forall_impl; [exact H|]. by intros i [? _].
  - apply IH. split; [done|]. apply Forall_app. split; [done|]. destruct (openHandler cwd path) as [q|] eqn:E; [|by apply Forall_nil].
    apply Forall_singleton. destruct (SecurePath_confined_lemma _ _ _ _ fs_wd_abs E) as (bs & rs & Hb & -> & Hc & Hp). by exists bs, rs.
Qed.

Lemma Exec_ok sh script cwd env : streams_ok cwd (snd (Exec sh script cwd env)).
Proof.
  assert (H0 : streams_ok cwd new_streams) by (split; by apply Forall_nil).
  unfold Exec. destruct (Parse sh script) as [prog|]; [|done]. destruct (Start sh prog cwd env) as [r|]; [|done].
  pose proof (drive_ok cwd r new_streams H0) as H. by destruct (drive cwd r new_streams) as [[err dir] s].
Qed.

(** Whatever the script, the files of its redirections are below the directory it is started in, and the commands it runs through
    the registry are registered. *)
Theorem Exec_confines_files sh script cwd env :
  let s := snd (Exec sh script cwd env) in
  Forall (fun q => exists bs rs, resolveSymlinks (sec_base fs_wd (open_base cwd)) = Ok (abs_path bs) /\
            q = abs_path rs /\ Forall (fun c => clean_comp c) rs /\ bs `prefix_of` rs) (opened s) /\
  Forall (fun i => is_Some (Lookup registry (inv_cmd i))) (ran s).
Proof. by destruct (Exec_ok sh script cwd env). Qed.
End Exec.

(** A shell with the one command [cd], which it does itself; everything else it asks for. *)
Fixpoint demo_script (cmds : list (list string)) (dir : string) : script_run :=
  match cmds with
  | [] => SDone None dir
  | ["cd"; d] :: cmds => demo_script cmds d
  | [">"; path] :: cmds => SOpen path (fun _ => demo_script cmds dir)
  | args :: cmds =>
      SCall args "" dir (fun a =>
        SWrite false (match a with ARan r _ => sconcat (out_writes r) | _ => "" end) (fun _ => demo_script cmds dir))
  end.

(** Lines of words separated by blanks. *)
Definition demo_interpreter : Interpreter :=
  {| program := list (list string);
     Parse := fun script => Ok ((fun l => split_on (String.length l) l " ") <$> split_nl script);
     Start := fun p dir _ => Ok (demo_script p dir) |}.
