(* ===== verification/RateLimit.v ===== *)
(** The token bucket of the daemon: internal/daemon/ratelimit.go.

    The float64 values are finite and in the normal range, so they are modelled as the
    rationals they denote, and every float operation is the exact operation followed by a
    rounding function.  [Rounding] states what IEEE 754 guarantees of the rounding and the
    code relies on: it is monotone and exact on integers up to 2^53. *)

From S2P Require Import Prelude GoStd.
From Stdlib Require Import QArith Lqa Sorted.

Local Open Scope Q_scope.

Class Rounding := {
  rnd : Q -> Q;
  rnd_mono x y : x <= y -> rnd x <= rnd y;
  rnd_int n : (Z.abs n <= 2 ^ 53)%Z -> rnd (inject_Z n) == inject_Z n
}.

(** Exact arithmetic is one such rounding. *)
Definition exact_rounding : Rounding.
Proof. refine {| rnd := fun x => x |}; [auto|reflexivity]. Defined.

Record RateLimiter := { rate : Q; burst : Z; tokens : Q; lastUpdate : Z }.

Definition NewRateLimiter (r : Q) (b : Z) (now : Z) : RateLimiter :=
  {| rate := r; burst := b; tokens := inject_Z b; lastUpdate := now |}.

Definition Qltb (x y : Q) : bool := negb (Qle_bool y x).

Lemma Qltb_lt x y : Qltb x y = true <-> x < y.
Proof.
  unfold Qltb. rewrite negb_true_iff. destruct (Qle_bool y x) eqn:E.
  - apply Qle_bool_iff in E. split; [done|]. lra.
  - split; [|done]. intros _. apply Qnot_le_lt. intros H. apply Qle_bool_iff in H. congruence.
Qed.

Lemma Qltb_ge x y : Qltb x y = false <-> y <= x.
Proof. unfold Qltb. rewrite negb_false_iff. apply Qle_bool_iff. Qed.

Section Operations.
Context `{RD : Rounding}.

(** [Duration.Seconds]: whole seconds plus the remaining nanoseconds over 1e9. *)
Definition Seconds (d : Z) : Q :=
  rnd (inject_Z (Z.quot d (10 ^ 9)) + rnd (inject_Z (Z.rem d (10 ^ 9)) / inject_Z (10 ^ 9))).

(** [Allow] at clock reading [now] (nanoseconds).  Both readings are monotonic ones, a time since the start of the process that is kept in an
    int64 and not negative, so that the difference [now.Sub] takes of them is exact. *)
Definition Allow (now : Z) (rl : RateLimiter) : bool * RateLimiter :=
  let elapsed := Seconds (now - lastUpdate rl) in
  let t := rnd (tokens rl + rnd (elapsed * rate rl)) in
  let t := if Qltb (inject_Z (burst rl)) t then inject_Z (burst rl) else t in
  if Qle_bool 1 t
  then (true, {| rate := rate rl; burst := burst rl; tokens := rnd (t - 1); lastUpdate := now |})
  else (false, {| rate := rate rl; burst := burst rl; tokens := t; lastUpdate := now |}).

(** The answers to a sequence of calls. *)
Fixpoint allow_run (times : list Z) (rl : RateLimiter) : list bool * RateLimiter :=
  match times with
  | [] => ([], rl)
  | now :: times =>
      let '(b, rl) := Allow now rl in
      let '(bs, rl) := allow_run times rl in (b :: bs, rl)
  end.

(** * Lemmas *)

Lemma rnd_0 : rnd 0 == 0.
Proof. apply (rnd_int 0). lia. Qed.

Lemma rnd_nonneg x : 0 <= x -> 0 <= rnd x.
Proof. intros H. apply rnd_mono in H. pose proof rnd_0. lra. Qed.

Lemma rnd_Proper x y : x == y -> rnd x == rnd y.
Proof.
  intros H. assert (x <= y) as H1 by lra. assert (y <= x) as H2 by lra.
  apply rnd_mono in H1, H2. lra.
Qed.

Lemma inject_le a b : (a <= b)%Z -> inject_Z a <= inject_Z b.
Proof. by rewrite <- Zle_Qle. Qed.

Lemma inject_pred n : inject_Z (n - 1) == inject_Z n - 1.
Proof. unfold Z.sub. rewrite inject_Z_plus. reflexivity. Qed.

Lemma Seconds_nonneg d : (0 <= d)%Z -> 0 <= Seconds d.
Proof.
  intros H. unfold Seconds. apply rnd_nonneg.
  assert (0 <= inject_Z (Z.quot d (10 ^ 9))) by (apply (inject_le 0), Z.quot_pos; lia).
  assert (0 <= rnd (inject_Z (Z.rem d (10 ^ 9)) / inject_Z (10 ^ 9))); [|lra].
  apply rnd_nonneg, Qle_shift_div_l; [reflexivity|].
  rewrite Qmult_0_l. apply (inject_le 0), Z.rem_nonneg; lia.
Qed.

Lemma Seconds_0 : Seconds 0 == 0.
Proof.
  unfold Seconds. rewrite (rnd_Proper _ 0); [apply rnd_0|].
  change (inject_Z (Z.quot 0 (10 ^ 9))) with 0. rewrite Qplus_0_l.
  rewrite (rnd_Proper _ 0); [apply rnd_0|]. reflexivity.
Qed.

(** A well-formed limiter: the bucket is between empty and full. *)
Definition limiter_ok (rl : RateLimiter) : Prop :=
  0 <= rate rl /\ (0 <= burst rl <= 2 ^ 53)%Z /\ 0 <= tokens rl <= inject_Z (burst rl).

Lemma NewRateLimiter_ok r b now :
  0 <= r -> (0 <= b <= 2 ^ 53)%Z -> limiter_ok (NewRateLimiter r b now).
Proof.
  intros Hr Hb. unfold limiter_ok. simpl. repeat split; try done; try lia.
  - apply (inject_le 0). lia.
  - lra.
Qed.

Lemma Allow_ok now rl :
  limiter_ok rl -> (lastUpdate rl <= now)%Z -> limiter_ok (snd (Allow now rl)).
Proof.
  intros (Hr & Hb & Ht) Hn. unfold Allow.
  set (t0 := rnd (tokens rl + _)).
  assert (0 <= t0) as H0.
  { apply rnd_nonneg. assert (0 <= rnd (Seconds (now - lastUpdate rl) * rate rl)); [|lra].
    apply rnd_nonneg, Qmult_le_0_compat; [apply Seconds_nonneg; lia|done]. }
  set (t1 := if Qltb _ t0 then _ else t0).
  assert (0 <= t1 <= inject_Z (burst rl)) as H1.
  { unfold t1. destruct (Qltb _ t0) eqn:E; [lra|]. apply Qltb_ge in E. lra. }
  destruct (Qle_bool 1 t1) eqn:E; simpl; [|done].
  apply Qle_bool_iff in E. split; [done|]. split; [done|]. split.
  - apply rnd_nonneg. lra.
  - apply Qle_trans with (rnd (inject_Z (burst rl - 1))).
    + apply rnd_mono. rewrite inject_pred. lra.
    + rewrite rnd_int by lia. apply inject_le. simpl. lia.
Qed.

(** A call at the time of the last update sees the tokens unchanged. *)
Lemma Allow_now rl n :
  (0 <= n <= burst rl)%Z -> (burst rl <= 2 ^ 53)%Z -> tokens rl == inject_Z n ->
  fst (Allow (lastUpdate rl) rl) = (0 <? n)%Z /\
  tokens (snd (Allow (lastUpdate rl) rl)) == inject_Z (Z.max 0 (n - 1)) /\
  burst (snd (Allow (lastUpdate rl) rl)) = burst rl /\
  lastUpdate (snd (Allow (lastUpdate rl) rl)) = lastUpdate rl.
Proof.
  intros Hn Hb Ht. unfold Allow. rewrite Z.sub_diag.
  set (t0 := rnd (tokens rl + _)).
  assert (t0 == inject_Z n) as E0.
  { unfold t0. rewrite <- (rnd_int n) by lia. apply rnd_Proper.
    rewrite (rnd_Proper _ 0), rnd_0; [rewrite Ht; lra|]. rewrite Seconds_0. lra. }
  assert (Qltb (inject_Z (burst rl)) t0 = false) as ->.
  { apply Qltb_ge. rewrite E0. apply inject_le. lia. }
  destruct (Z.ltb_spec 0 n) as [Hp|Hz].
  - assert (Qle_bool 1 t0 = true) as ->.
    { apply Qle_bool_iff. rewrite E0. apply (inject_le 1). lia. }
    simpl. do 2 (split; [try done|]); [|done].
    rewrite Z.max_r by lia. rewrite <- rnd_int by lia. apply rnd_Proper.
    rewrite E0, inject_pred. lra.
  - assert (n = 0%Z) as -> by lia.
    assert (Qle_bool 1 t0 = false) as ->.
    { destruct (Qle_bool 1 t0) eqn:E; [|done]. apply Qle_bool_iff in E.
      rewrite E0 in E. change (inject_Z 0) with 0 in E. lra. }
    simpl. split; [done|]. split; [|done]. exact E0.
Qed.

Lemma allow_run_now k : forall rl n,
  (0 <= n <= burst rl)%Z -> (burst rl <= 2 ^ 53)%Z -> tokens rl == inject_Z n ->
  fst (allow_run (replicate k (lastUpdate rl)) rl) =
  replicate (Nat.min k (Z.to_nat n)) true ++ replicate (k - Z.to_nat n) false.
Proof.
  induction k as [|k IH]; intros rl n Hn Hb Ht; [done|]. simpl.
  destruct (Allow_now rl n Hn Hb Ht) as (Ea & Et & Eb & El).
  destruct (Allow (lastUpdate rl) rl) as [b rl'] eqn:E. simpl in *.
  specialize (IH rl' (Z.max 0 (n - 1))). rewrite El in IH.
  destruct (allow_run (replicate k (lastUpdate rl)) rl') as [bs rl2] eqn:Er. simpl in *.
  rewrite IH by (lia || done). subst b.
  destruct (Z.ltb_spec 0 n).
  - replace (Z.to_nat n) with (S (Z.to_nat (Z.max 0 (n - 1)))) by lia. done.
  - replace (Z.to_nat n) with 0%nat by lia. replace (Z.to_nat (Z.max 0 (n - 1))) with 0%nat by lia.
    rewrite Nat.min_0_r, !Nat.sub_0_r. done.
Qed.

Lemma Allow_burst_0 now rl :
  limiter_ok rl -> burst rl = 0%Z -> (lastUpdate rl <= now)%Z -> fst (Allow now rl) = false.
Proof.
  intros (Hr & _ & Ht) Hb Hn. unfold Allow. rewrite Hb in *.
  set (t0 := rnd (tokens rl + _)).
  set (t1 := if Qltb (inject_Z 0) t0 then inject_Z 0 else t0).
  assert (t1 <= 0) as H1.
  { unfold t1. destruct (Qltb _ t0) eqn:E; [apply Qle_refl|]. by apply Qltb_ge in E. }
  destruct (Qle_bool 1 t1) eqn:E; [|done]. apply Qle_bool_iff in E. lra.
Qed.

Lemma Seconds_at_least d e : (0 <= d <= 2 ^ 53)%Z -> (d * 10 ^ 9 <= e)%Z -> inject_Z d <= Seconds e.
Proof.
  intros Hd He. unfold Seconds. rewrite <- (rnd_int d) by lia. apply rnd_mono.
  assert (inject_Z d <= inject_Z (Z.quot e (10 ^ 9))) by (apply inject_le, Z.quot_le_lower_bound; lia).
  assert (0 <= rnd (inject_Z (Z.rem e (10 ^ 9)) / inject_Z (10 ^ 9))); [|lra].
  apply rnd_nonneg, Qle_shift_div_l; [reflexivity|].
  rewrite Qmult_0_l. apply (inject_le 0), Z.rem_nonneg; lia.
Qed.

(** After a pause in which a token accrues a request is admitted. *)
Lemma Allow_after_pause d now rl :
  limiter_ok rl -> (1 <= burst rl)%Z -> (0 <= d <= 2 ^ 53)%Z -> 1 <= inject_Z d * rate rl ->
  (lastUpdate rl + d * 10 ^ 9 <= now)%Z -> fst (Allow now rl) = true.
Proof.
  intros (Hr & Hb & Ht) H1 Hd Hdr Hn. unfold Allow. set (t0 := rnd (tokens rl + _)).
  assert (1 <= t0) as H0.
  { unfold t0. rewrite <- (rnd_int 1) by lia. apply rnd_mono.
    assert (1 <= rnd (Seconds (now - lastUpdate rl) * rate rl)); [|change (inject_Z 1) with 1; lra].
    rewrite <- (rnd_int 1) by lia. apply rnd_mono. apply Qle_trans with (inject_Z d * rate rl); [done|].
    apply Qmult_le_compat_r; [|done]. apply Seconds_at_least; lia. }
  set (t1 := if Qltb _ t0 then _ else t0).
  assert (1 <= t1) as Ht1 by (unfold t1; destruct (Qltb _ t0); [apply (inject_le 1); lia|done]).
  apply Qle_bool_iff in Ht1. by rewrite Ht1.
Qed.

Lemma Allow_fields now rl :
  rate (snd (Allow now rl)) = rate rl /\ burst (snd (Allow now rl)) = burst rl /\ lastUpdate (snd (Allow now rl)) = now.
Proof. unfold Allow. by destruct (Qle_bool _ _). Qed.

Lemma allow_run_fields times : forall rl,
  rate (snd (allow_run times rl)) = rate rl /\ burst (snd (allow_run times rl)) = burst rl /\
  lastUpdate (snd (allow_run times rl)) = List.last times (lastUpdate rl).
Proof.
  induction times as [|now times IH]; intros rl; [done|]. cbn [allow_run].
  destruct (Allow_fields now rl) as (E1 & E2 & E3). destruct (Allow now rl) as [b rl']. cbn [snd] in *.
  specialize (IH rl'). destruct (allow_run times rl') as [bs rl2]. cbn [snd] in *. rewrite E1, E2, E3 in IH.
  destruct IH as (-> & -> & ->). split; [done|]. split; [done|]. destruct times as [|t times]; [done|].
  clear. revert now t. induction times as [|x times IH]; intros now t; [done|]. cbn. apply (IH now x).
Qed.

End Operations.

(** * Properties *)

Section Properties.
Context `{RD : Rounding}.

(** The bucket invariant.  Whatever the clock readings, as long as they do not go back,
    the number of tokens stays between zero and the burst size. *)
Theorem limiter_invariant times rl :
  limiter_ok rl -> Sorted Z.le (lastUpdate rl :: times) ->
  limiter_ok (snd (allow_run times rl)).
Proof.
  revert rl. induction times as [|now times IH]; intros rl Hok Hs; [done|].
  apply Sorted_inv in Hs as [Hs Hh]. inversion Hh as [|? ? Hle]; subst. simpl.
  pose proof (Allow_ok now rl Hok Hle) as Hok'.
  assert (lastUpdate (snd (Allow now rl)) = now) as El.
  { unfold Allow. by destruct (Qle_bool _ _). }
  destruct (Allow now rl) as [b rl']. simpl in *. subst now.
  specialize (IH rl' Hok' Hs). by destruct (allow_run times rl').
Qed.

(** C10: the burst.  Of any number of requests that reach a fresh limiter at one instant,
    exactly the first [burst] are allowed, and all later ones are refused. *)
Theorem limiter_burst r b now k :
  (0 <= b <= 2 ^ 53)%Z ->
  fst (allow_run (replicate k now) (NewRateLimiter r b now)) =
  replicate (Nat.min k (Z.to_nat b)) true ++ replicate (k - Z.to_nat b) false.
Proof. intros Hb. apply (allow_run_now k (NewRateLimiter r b now) b); simpl; (done || lia). Qed.

(** C11: no client is shut out.  Whatever requests a client has sent before, and however many of them were refused,
    once it pauses for [d] whole seconds in which the rate gives a token, its next request is admitted, and so is every one it sends
    with such a pause before it.  The daemon sets the burst to the whole part of the rate, so for a rate of at least one per second
    a pause of one second is always enough. *)
Theorem limiter_admits_again r b now0 history d later :
  0 <= r -> (1 <= b <= 2 ^ 53)%Z -> Sorted Z.le (now0 :: history) ->
  (0 <= d <= 2 ^ 53)%Z -> 1 <= inject_Z d * r ->
  Sorted (fun t u => t + d * 10 ^ 9 <= u)%Z (List.last history now0 :: later) ->
  fst (allow_run later (snd (allow_run history (NewRateLimiter r b now0)))) = replicate (length later) true.
Proof.
  intros Hr Hb Hh Hd Hdr. pose proof (limiter_invariant history (NewRateLimiter r b now0)) as Hok.
  specialize (Hok ltac:(apply NewRateLimiter_ok; [done|lia]) Hh).
  destruct (allow_run_fields history (NewRateLimiter r b now0)) as (E1 & E2 & E3). cbn in E1, E2, E3. rewrite <- E3. rewrite <- E1 in Hdr.
  assert (1 <= burst (snd (allow_run history (NewRateLimiter r b now0))))%Z as Hb1 by (rewrite E2; lia). clear -Hok Hb1 Hd Hdr.
  revert Hok Hb1 Hdr. generalize (snd (allow_run history (NewRateLimiter r b now0))) as rl. induction later as [|now later IH]; intros rl Hok Hb Hdr Hs; [done|].
  apply Sorted_inv in Hs as [Hs Hn]. apply HdRel_inv in Hn. cbn [allow_run].
  pose proof (Allow_after_pause d now rl Hok Hb Hd Hdr Hn) as Ha. pose proof (Allow_ok now rl Hok ltac:(lia)) as Hok'.
  destruct (Allow_fields now rl) as (F1 & F2 & F3). destruct (Allow now rl) as [a rl']. cbn [fst snd] in *. subst a.
  specialize (IH rl' Hok' ltac:(lia) ltac:(by rewrite F1)). rewrite F3 in IH. specialize (IH Hs).
  destruct (allow_run later rl') as [bs rl2]. cbn in *. by subst.
Qed.

(** a limiter whose burst size is zero refuses every request for ever.  The daemon builds
    its limiter with burst int(rate), so a configured rate below one request per second
    blocks the connection instead of slowing it down. *)
Theorem limiter_zero_burst_refuses r now0 times :
  0 <= r -> Sorted Z.le (now0 :: times) ->
  fst (allow_run times (NewRateLimiter r 0 now0)) = replicate (length times) false.
Proof.
  intros Hr.
  assert (forall rl, limiter_ok rl -> burst rl = 0%Z -> Sorted Z.le (lastUpdate rl :: times) ->
    fst (allow_run times rl) = replicate (length times) false) as H.
  { induction times as [|now times IH]; intros rl Hok Hb Hs; [done|].
    apply Sorted_inv in Hs as [Hs Hh]. inversion Hh as [|? ? Hle]; subst. simpl.
    pose proof (Allow_burst_0 now rl Hok Hb Hle) as E.
    pose proof (Allow_ok now rl Hok Hle) as Hok'.
    assert (lastUpdate (snd (Allow now rl)) = now /\ burst (snd (Allow now rl)) = burst rl)
      as [El Eb] by (unfold Allow; by destruct (Qle_bool _ _)).
    destruct (Allow now rl) as [b rl']. simpl in *. subst b now.
    specialize (IH rl' Hok'). rewrite Eb in IH. specialize (IH Hb Hs).
    destruct (allow_run times rl'). simpl in *. by subst. }
  intros Hs. apply H; [|done|exact Hs]. apply NewRateLimiter_ok; [done|lia].
Qed.
End Properties.

Lemma limiter_invariant_witness :
  @limiter_ok (snd (@allow_run exact_rounding [0; 5; 10 ^ 9]%Z (NewRateLimiter 2 3 0))).
Proof.
  apply (@limiter_invariant exact_rounding).
  - apply NewRateLimiter_ok; [lra|lia].
  - repeat constructor; simpl; lia.
Defined.

Lemma limiter_burst_witness :
  fst (@allow_run exact_rounding (replicate 5 0%Z) (NewRateLimiter 2 3 0)) =
    [true; true; true; false; false] /\
  fst (@allow_run exact_rounding (replicate 5 0%Z) (NewRateLimiter 2 3 0)) =
    replicate (Nat.min 5 (Z.to_nat 3)) true ++ replicate (5 - Z.to_nat 3) false.
Proof. split; [vm_compute; reflexivity|]. apply (@limiter_burst exact_rounding). lia. Defined.

Lemma limiter_admits_again_witness :
  let history := [0; 0; 1; 2]%Z in
  fst (@allow_run exact_rounding history (NewRateLimiter (3 # 2) 1 0)) = [true; false; false; false] /\
  fst (@allow_run exact_rounding [1000000002; 2000000002]%Z (snd (@allow_run exact_rounding history (NewRateLimiter (3 # 2) 1 0)))) = replicate 2 true.
Proof.
  split; [vm_compute; reflexivity|]. apply (@limiter_admits_again exact_rounding (3 # 2) 1 0 [0; 0; 1; 2]%Z 1 [1000000002; 2000000002]%Z).
  - lra.
  - lia.
  - repeat constructor; simpl; lia.
  - lia.
  - change (inject_Z 1) with 1. lra.
  - repeat constructor; simpl; lia.
Defined.

Lemma limiter_zero_burst_refuses_witness :
  fst (@allow_run exact_rounding [0; 10 ^ 9; 10 ^ 12]%Z (NewRateLimiter (1 # 2) 0 0)) =
    replicate 3 false.
Proof.
  apply (@limiter_zero_burst_refuses exact_rounding (1 # 2) 0 [0; 10 ^ 9; 10 ^ 12]%Z).
  - lra.
  - repeat constructor; simpl; lia.
Defined.

(** Two requests per second, bursts of two. *)
Definition demo_limiter : RateLimiter := NewRateLimiter 2 2 0.
