(* ===== verification/Server.v ===== *)
(** The JSON-RPC server of the daemon: internal/daemon/server.go.

    Parameters of the model, arguments of every definition below: the command registry, the
    interpreter of shell scripts (see Shell.v), the reading of a
    command's JSON envelope, and the file system.  The clock and the random session
    identifiers are arguments of the handlers.  JSON texts are values of [json]; a raw
    message is the value it encodes. *)

From S2P Require Import Prelude GoStd Paths FileTree Security Session Dispatch Shell RateLimit.

(** * JSON values and requests *)

#[warnings="-register-all"]
Inductive json :=
| JNull
| JBool (b : bool)
| JNum (text : string)
| JStr (s : string)
| JArr (l : list json)
| JObj (fields : list (string * json)).

(** Missing members are [None]; an id of null is Go's nil interface, also [None].  An id is
    the Go value it decodes to: a [JNum] id is the float64 read from the text. *)
Record Request :=
  { JSONRPC : string; Method : string; Params : option json; ReqID : option json }.

Definition zero_request : Request :=
  {| JSONRPC := ""; Method := ""; Params := None; ReqID := None |}.

(** Member names match up to the case of letters in encoding/json: for names in ASCII these are the ASCII letters, the long s
    (U+017F) and the Kelvin sign (U+212A). *)
Definition lower_char (c : ascii) : ascii :=
  if ((65 <=? code c) && (code c <=? 90))%Z then chr (code c + 32) else c.

Fixpoint foldName (s : string) : string :=
  match s with
  | "" => ""
  | String c s1 =>
      match s1 with
      | "" => String (lower_char c) ""
      | String d s2 =>
          if ((code c =? 0xC5) && (code d =? 0xBF))%Z then String "s" (foldName s2)
          else
            match s2 with
            | "" => String (lower_char c) (foldName s1)
            | String e s3 =>
                if ((code c =? 0xE2) && (code d =? 0x84) && (code e =? 0xAA))%Z then String "k" (foldName s3)
                else String (lower_char c) (foldName s1)
            end
      end
  end.

Definition is_member (k n : string) : bool := foldName k =s? foldName n.

(** Whether the number with this text is in the range of float64; another one is an error where a number is decoded. *)
Fixpoint digits_value (acc : Z) (s : string) : Z :=
  match s with "" => acc | String c s => digits_value (acc * 10 + (code c - 48)) s end.

Definition number_fits (text : string) : bool :=
  let text := TrimPrefix text "-" in
  let '(int, r) := str_span is_digit text in
  let '(frac, r) := match r with String c t => if (code c =? 46)%Z then str_span is_digit t else ("", r) | "" => ("", "") end in
  let exp :=
    match r with
    | String _ t => if HasPrefix t "-" then (- digits_value 0 (TrimPrefix t "-"))%Z else digits_value 0 (TrimPrefix t "+")
    | "" => 0%Z
    end in
  let ds := snd (str_span (fun c => code c =? 48)%Z (int +:+ frac)) in
  let m := digits_value 0 ds in
  let e := (exp - Z.of_nat (String.length frac))%Z in
  let top := (Z.of_nat (String.length ds) + e)%Z in
  let limit := (2 ^ 1024 - 2 ^ 970)%Z in
  if (m =? 0)%Z || (top <=? 308)%Z then true
  else if (310 <=? top)%Z then false
  else if (0 <=? e)%Z then (m * 10 ^ e <? limit)%Z else (m <? limit * 10 ^ (- e))%Z.

Fixpoint numbers_fit (v : json) : bool :=
  match v with
  | JNum text => number_fits text
  | JArr l => forallb numbers_fit l
  | JObj fields => forallb (fun kv => numbers_fit (snd kv)) fields
  | _ => true
  end.

Example number_fits_bounds :
  number_fits "1.7976931348623157e308" = true /\ number_fits "1.7976931348623159e308" = false /\ number_fits "-1e309" = false /\
  number_fits "0e999" = true /\ number_fits "0.1E-400" = true /\ number_fits "12" = true.
Proof. vm_compute. done. Qed.

(** Decoding into a string, bool or []string variable: [None] is a type error; null leaves
    the variable unchanged. *)
Definition decode_string (v : json) (cur : string) : option string :=
  match v with JStr s => Some s | JNull => Some cur | _ => None end.

Definition decode_bool (v : json) (cur : bool) : option bool :=
  match v with JBool b => Some b | JNull => Some cur | _ => None end.

Definition decode_strings (v : json) : option (list string) :=
  match v with
  | JNull => Some []
  | JArr l => mapM (fun v => decode_string v "") l
  | _ => None
  end.

(** Members are decoded in order; unknown members are skipped. *)
Definition decode_struct {T} (zero : T) (set : T -> string -> json -> option T) (v : json)
    : option T :=
  match v with
  | JNull => Some zero
  | JObj fields =>
      foldl (fun acc kv => match acc with Some t => set t (fst kv) (snd kv) | None => None end)
        (Some zero) fields
  | _ => None
  end.

Definition set_request (r : Request) (k : string) (v : json) : option Request :=
  if is_member k "jsonrpc" then
    match decode_string v (JSONRPC r) with
    | Some s => Some {| JSONRPC := s; Method := Method r; Params := Params r; ReqID := ReqID r |}
    | None => None
    end
  else if is_member k "method" then
    match decode_string v (Method r) with
    | Some s => Some {| JSONRPC := JSONRPC r; Method := s; Params := Params r; ReqID := ReqID r |}
    | None => None
    end
  else if is_member k "params" then
    Some {| JSONRPC := JSONRPC r; Method := Method r; Params := Some v; ReqID := ReqID r |}
  else if is_member k "id" then
    if numbers_fit v then
      Some {| JSONRPC := JSONRPC r; Method := Method r; Params := Params r;
              ReqID := match v with JNull => None | _ => Some v end |}
    else None
  else Some r.

Definition decode_request (v : json) : option Request := decode_struct zero_request set_request v.

Record GoposixParams :=
  { Flags : list string; Path : string; Text : string; Stdin : string; SessionId : string;
    RawOutput : bool }.

Definition zero_params : GoposixParams :=
  {| Flags := []; Path := ""; Text := ""; Stdin := ""; SessionId := ""; RawOutput := false |}.

Definition set_params (p : GoposixParams) (k : string) (v : json) : option GoposixParams :=
  let mk f pa t i s r := Some {| Flags := f; Path := pa; Text := t; Stdin := i; SessionId := s;
                                 RawOutput := r |} in
  if is_member k "flags" then
    match decode_strings v with
    | Some f => mk f (Path p) (Text p) (Stdin p) (SessionId p) (RawOutput p) | None => None end
  else if is_member k "path" then
    match decode_string v (Path p) with
    | Some x => mk (Flags p) x (Text p) (Stdin p) (SessionId p) (RawOutput p) | None => None end
  else if is_member k "text" then
    match decode_string v (Text p) with
    | Some x => mk (Flags p) (Path p) x (Stdin p) (SessionId p) (RawOutput p) | None => None end
  else if is_member k "stdin" then
    match decode_string v (Stdin p) with
    | Some x => mk (Flags p) (Path p) (Text p) x (SessionId p) (RawOutput p) | None => None end
  else if is_member k "sessionId" then
    match decode_string v (SessionId p) with
    | Some x => mk (Flags p) (Path p) (Text p) (Stdin p) x (RawOutput p) | None => None end
  else if is_member k "rawOutput" then
    match decode_bool v (RawOutput p) with
    | Some x => mk (Flags p) (Path p) (Text p) (Stdin p) (SessionId p) x | None => None end
  else Some p.

Definition decode_params (v : json) : option GoposixParams := decode_struct zero_params set_params v.

(** The anonymous parameter structs of the session and shell methods: a session identifier
    and one more string member. *)
Definition decode_pair (second : string) (v : json) : option (string * string) :=
  decode_struct ("", "")
    (fun p k v =>
       if is_member k "sessionId" then
         match decode_string v (fst p) with Some x => Some (x, snd p) | None => None end
       else if is_member k second then
         match decode_string v (snd p) with Some x => Some (fst p, x) | None => None end
       else Some p) v.

Definition decode_session_id (v : json) : option string :=
  decode_struct ""
    (fun p k v => if is_member k "sessionId" then decode_string v p else Some p) v.

(** * Responses *)

(** The part of a command's JSON envelope the server reads. *)
Record Envelope := { env_data : option json; env_error : option (string * string) }.

Inductive rpc_result :=
| RPong (active : Z)
| RSession (s : Session)
| RTrue
| RSessions (l : list Session)
| RShell (r : ExecResult)
| RRaw (exitCode : Z) (stdout stderr : string)
| RText (exitCode : Z) (data : option string) (stderr : string)
| RData (exitCode : Z) (data : option json) (stderr : string).

(** [ErrData] is the exit code, the envelope's error code and the stderr text. *)
Record RpcError := { ErrCode : Z; ErrMessage : string; ErrData : option (Z * string * string) }.

Record Response := { RespID : option json; Body : result RpcError rpc_result }.

Definition err_response (id : json) (c : Z) (msg : string) : Response :=
  {| RespID := Some id; Body := Err {| ErrCode := c; ErrMessage := msg; ErrData := None |} |}.

Definition ok_response (id : json) (r : rpc_result) : Response :=
  {| RespID := Some id; Body := Ok r |}.

(** * The server *)

Record Server :=
  { sm : SessionManager; activeWorkers : Z; totalRequests : Z;
    durationCounts : gmap string Z;  (* of [Metrics]; the sums of durations are left out *)
    rateLimitedTotal : Z }.

Definition with_sm (m : SessionManager) (s : Server) : Server :=
  {| sm := m; activeWorkers := activeWorkers s; totalRequests := totalRequests s;
     durationCounts := durationCounts s; rateLimitedTotal := rateLimitedTotal s |}.

Definition add_workers (n : Z) (s : Server) : Server :=
  {| sm := sm s; activeWorkers := wrap 32 (activeWorkers s + n);
     totalRequests := totalRequests s; durationCounts := durationCounts s;
     rateLimitedTotal := rateLimitedTotal s |}.

Definition count_request (s : Server) : Server :=
  {| sm := sm s; activeWorkers := activeWorkers s;
     totalRequests := wrap 64 (totalRequests s + 1); durationCounts := durationCounts s;
     rateLimitedTotal := rateLimitedTotal s |}.

(** [m.durationCounts[method]++]: a missing key reads as 0. *)
Definition RecordRequest (method : string) (s : Server) : Server :=
  {| sm := sm s; activeWorkers := activeWorkers s; totalRequests := totalRequests s;
     durationCounts :=
       <[method := wrap 64 (default 0%Z (durationCounts s !! method) + 1)]> (durationCounts s);
     rateLimitedTotal := rateLimitedTotal s |}.

Definition RecordRateLimited (s : Server) : Server :=
  {| sm := sm s; activeWorkers := activeWorkers s; totalRequests := totalRequests s;
     durationCounts := durationCounts s; rateLimitedTotal := wrap 64 (rateLimitedTotal s + 1) |}.

Section Handlers.
Context `{FS : FileSystem} `{RD : Rounding}.
Variable registry : gmap string Command.
Variable shell : Interpreter.
Variable parse_envelope : string -> option Envelope.

Definition response_limit : Z := 50 * 1024 * 1024.

(** ** The methods of the session manager and the shell

    Each handler takes the id of the request (its caller has checked that there is one), the
    parameters, the clock and the server. *)

Definition handle_setCwd (id : json) (ps : option json) (now : Z) (s : Server)
    : Response * Server :=
  match match ps with Some v => decode_pair "path" v | None => None end with
  | None => (err_response id (-32602) "Invalid params", s)
  | Some (sid, path) =>
      match Get sid now (sm s) with
      | (None, m) => (err_response id (-32602) "Invalid session", with_sm m s)
      | (Some _, m) =>
          match SetCwd sid path now m with
          | (true, m) => (ok_response id RTrue, with_sm m s)
          | (false, m) =>
              (err_response id (-32602) "Path traversal detected or directory does not exist",
               with_sm m s)
          end
      end
  end.

Definition handle_destroy (id : json) (ps : option json) (s : Server) : Response * Server :=
  match match ps with Some v => decode_session_id v | None => None end with
  | None => (err_response id (-32602) "Invalid session", s)
  | Some sid =>
      match Destroy sid (sm s) with
      | (true, m) => (ok_response id RTrue, with_sm m s)
      | (false, m) => (err_response id (-32602) "Invalid session", with_sm m s)
      end
  end.

Definition handle_shell (id : json) (ps : option json) (now : Z) (s : Server)
    : Response * Server * list invocation :=
  match match ps with Some v => decode_pair "script" v | None => None end with
  | None => (err_response id (-32602) "Invalid params", s, [])
  | Some (sid, script) =>
      let '(cwd, env, m) :=
        if sid =s? "" then ("/", None, sm s)
        else match Get sid now (sm s) with
             | (Some session, m) => (CWD session, Env session, m)
             | (None, m) => ("/", None, m)
             end in
      let '(res, streams) := Exec registry shell script cwd env in
      let m :=
        if negb (sid =s? "") && negb (ShCWD res =s? "")
        then snd (SetCwd sid (ShCWD res) now m) else m in
      (ok_response id (RShell res), with_sm m s, ran streams)
  end.

(** ** Running a utility *)

(** The arguments of the command, [None] when the path escapes.  [cwd] is the working
    directory of the session, if there is one. *)
Definition build_args (cmdName : string) (params : option GoposixParams) (cwd : option string)
    : option (list string) :=
  match params with
  | None => Some ["--json"]
  | Some p =>
      let base := match cwd with Some c => if c =s? "" then "/" else c | None => "/" end in
      let path :=
        if Path p =s? "" then Some ""
        else match SecurePath fs_wd (Path p) base with Ok q => Some q | Err _ => None end in
      match path with
      | None => None
      | Some path =>
          let args :=
            Flags p ++
            (if (cmdName =s? "echo") && negb (Text p =s? "") then [Text p] else []) ++
            (if path =s? "" then [] else [path]) in
          Some (if RawOutput p then args else "--json" :: args)
      end
  end.

(** The response to a request with id [id] after the command returned. *)
Definition command_response (id : json) (rawOutput : bool) (r : run_result) : Response :=
  let buf := W (write_all (new_writer response_limit) (out_writes r)) in
  let errBuf := W (write_all (new_writer response_limit) (err_writes r)) in
  if rawOutput then ok_response id (RRaw (exit_code r) buf errBuf)
  else
    match parse_envelope buf with
    | None =>
        ok_response id (RText (exit_code r) (if buf =s? "" then None else Some buf) errBuf)
    | Some env =>
        match env_error env with
        | Some (c, m) =>
            {| RespID := Some id;
               Body := Err {| ErrCode := -32000; ErrMessage := m;
                              ErrData := Some (exit_code r, c, errBuf) |} |}
        | None => ok_response id (RData (exit_code r) (env_data env) errBuf)
        end
    end.

Definition handle_command (cmdName : string) (cmd : Command) (params : option GoposixParams)
    (id : option json) (now : Z) (s : Server)
    : option Response * Server * list invocation :=
  let '(session, m) :=
    match params with
    | Some p => if SessionId p =s? "" then (None, sm s) else Get (SessionId p) now (sm s)
    | None => (None, sm s)
    end in
  let s := with_sm m s in
  match build_args cmdName params (CWD <$> session) with
  | None =>
      (match id with Some id => Some (err_response id (-32602) "Path traversal detected")
                | None => None end, s, [])
  | Some args =>
      let stdin := match params with Some p => Stdin p | None => "" end in
      let cwd :=
        match session with Some se => if CWD se =s? "" then "/" else CWD se | None => "/" end in
      let r := Run cmd args stdin cwd in
      let rawOutput := match params with Some p => RawOutput p | None => false end in
      (match id with Some id => Some (command_response id rawOutput r) | None => None end, s,
       [{| inv_cmd := cmdName; inv_args := args; inv_stdin := stdin; inv_cwd := cwd |}])
  end.

(** ** [processRequest] *)

(** The dispatch on the method, between the two updates of the worker counter. *)
Definition dispatch_method (req : Request) (params : option GoposixParams) (now : Z)
    (fresh : string) (s : Server) : option Response * Server * list invocation :=
  let on_id (f : json -> Response * Server) : option Response * Server * list invocation :=
    match ReqID req with
    | None => (None, s, [])
    | Some id => let '(r, s) := f id in (Some r, s, [])
    end in
  if negb (JSONRPC req =s? "2.0") then
    on_id (fun id => (err_response id (-32600) "Invalid Request", s))
  else if 256 <? String.length (Method req) then
    on_id (fun id => (err_response id (-32600) "Method too long", s))
  else if Method req =s? "goposix.ping" then
    on_id (fun id => (ok_response id (RPong (activeWorkers s)), s))
  else if Method req =s? "goposix.session.create" then
    on_id (fun id => let '(se, m) := Create fresh now (sm s) in
                     (ok_response id (RSession se), with_sm m s))
  else if Method req =s? "goposix.session.setCwd" then
    on_id (fun id => handle_setCwd id (Params req) now s)
  else if Method req =s? "goposix.session.list" then
    on_id (fun id => (ok_response id (RSessions (ListSessions (sm s))), s))
  else if Method req =s? "goposix.session.destroy" then
    on_id (fun id => handle_destroy id (Params req) s)
  else if Method req =s? "goposix.shell.exec" then
    match ReqID req with
    | None => (None, s, [])
    | Some id => let '(r, s, inv) := handle_shell id (Params req) now s in (Some r, s, inv)
    end
  else if negb (HasPrefix (Method req) "goposix.") then
    on_id (fun id => (err_response id (-32601) "Method not found", s))
  else
    let cmdName := TrimPrefix (Method req) "goposix." in
    match Lookup registry cmdName with
    | None => on_id (fun id => (err_response id (-32601) "Method not found", s))
    | Some cmd => handle_command cmdName cmd params (ReqID req) now s
    end.

(** [params] is nil when there are none or they do not decode. *)
Definition request_params (req : Request) : option GoposixParams :=
  match Params req with Some v => decode_params v | None => None end.

Definition processRequest (req : Request) (now : Z) (fresh : string) (s : Server)
    : option Response * Server * list invocation :=
  let s := add_workers 1 (count_request s) in
  let '(res, s, inv) := dispatch_method req (request_params req) now fresh s in
  (res, add_workers (-1) (RecordRequest (Method req) s), inv).

(** ** Connections *)

(** What one [Decode] of the stream yields: a value, the end of the stream, or an error. *)
Inductive frame := FMsg (v : json) | FEOF | FBad.

(** One write of the server to the connection. *)
Inductive output :=
| OResponse (r : Response)
| OBatch (l : list Response)
| OError (c : Z) (msg : string).  (* writeError with a nil id *)

(** The clock reading and the random session identifier a request would use. *)
Record oracle := { o_now : Z; o_fresh : string }.

(** The workers of a batch run concurrently and each writes its own slot of [results];
    [order] is the order in which they take their (atomic) turns. *)
Fixpoint run_batch (order : list nat) (reqs : list Request) (os : list oracle)
    (results : list (option Response)) (s : Server)
    : list (option Response) * Server * list invocation :=
  match order with
  | [] => (results, s, [])
  | i :: order =>
      match reqs !! i, os !! i with
      | Some req, Some o =>
          let '(res, s, inv) := processRequest req (o_now o) (o_fresh o) s in
          let results := match res with Some r => <[i := Some r]> results | None => results end in
          let '(results, s, invs) := run_batch order reqs os results s in
          (results, s, inv ++ invs)
      | _, _ => run_batch order reqs os results s
      end
  end.

Definition handleBatch (order : list nat) (reqs : list Request) (os : list oracle) (s : Server)
    : list output * Server * list invocation :=
  let '(results, s, inv) := run_batch order reqs os (replicate (length reqs) None) s in
  let final := omap id results in
  (match final with [] => [] | _ => [OBatch final] end, s, inv).

(** A single request: the connection waits for the worker before it reads on. *)
Definition handleSingle (req : Request) (o : oracle) (s : Server)
    : list output * Server * list invocation :=
  let '(res, s, inv) := processRequest req (o_now o) (o_fresh o) s in
  (match res with Some r => [OResponse r] | None => [] end, s, inv).

(** One message, after the rate limiter let it pass.  [os] has one entry per request. *)
Definition handleMessage (v : json) (order : list nat) (os : list oracle) (s : Server)
    : list output * Server * list invocation :=
  match v with
  | JArr l =>
      match mapM decode_request l with
      | None => ([OError (-32600) "Invalid Request"], s, [])
      | Some [] => ([OError (-32600) "Invalid Request"], s, [])
      | Some reqs => handleBatch order reqs os s
      end
  | _ =>
      match decode_request v with
      | None => ([OError (-32600) "Invalid Request"], s, [])
      | Some req =>
          match os with
          | o :: _ => handleSingle req o s
          | [] => ([], s, [])
          end
      end
  end.

(** A frame with the moment it was read, the order in which a batch would run and the
    oracles of its requests. *)
Record arrival := { a_frame : frame; a_time : Z; a_order : list nat; a_oracles : list oracle }.

Fixpoint handleConn (arrivals : list arrival) (rl : RateLimiter) (s : Server)
    : list output * Server * list invocation :=
  match arrivals with
  | [] => ([], s, [])
  | a :: arrivals =>
      match a_frame a with
      | FEOF => ([], s, [])
      | FBad => ([OError (-32700) "Parse error or request too large"], s, [])
      | FMsg v =>
          let '(allowed, rl) := Allow (a_time a) rl in
          if allowed then
            let '(out, s, inv) := handleMessage v (a_order a) (a_oracles a) s in
            let '(outs, s, invs) := handleConn arrivals rl s in
            (out ++ outs, s, inv ++ invs)
          else
            let '(outs, s, invs) := handleConn arrivals rl (RecordRateLimited s) in
            (OError (-32000) "Rate limit exceeded" :: outs, s, invs)
      end
  end.

(** * Lemmas *)

(** Every branch answers exactly the requests that carry an id, with that id. *)
Lemma command_response_id id raw r : RespID (command_response id raw r) = Some id.
Proof. unfold command_response. by repeat case_match. Qed.

Lemma handle_command_id cn cmd ps id now s res s' inv :
  handle_command cn cmd ps id now s = (res, s', inv) -> (RespID <$> res) = (Some <$> id).
Proof.
  unfold handle_command. destruct (match ps with Some _ => _ | None => _ end) as [se m].
  destruct (build_args _ _ _); intros [= <- <- <-]; destruct id; simpl; try done.
  by rewrite command_response_id.
Qed.

Lemma handle_setCwd_id id ps now s : RespID (fst (handle_setCwd id ps now s)) = Some id.
Proof.
  unfold handle_setCwd. repeat case_match; done.
Qed.

Lemma handle_destroy_id id ps s : RespID (fst (handle_destroy id ps s)) = Some id.
Proof. unfold handle_destroy. repeat case_match; done. Qed.

Lemma handle_shell_id id ps now s : RespID (fst (fst (handle_shell id ps now s))) = Some id.
Proof.
  unfold handle_shell. destruct (match ps with Some _ => _ | None => _ end) as [[sid sc]|]; [|done].
  destruct (if sid =s? "" then _ else _) as [[cwd env] m]. by destruct (Exec _ _ _ _ _).
Qed.

Lemma dispatch_method_id req ps now fresh s res s' inv :
  dispatch_method req ps now fresh s = (res, s', inv) ->
  (RespID <$> res) = (Some <$> ReqID req).
Proof.
  unfold dispatch_method.
  repeat match goal with
    |- (if ?b then _ else _) = _ -> _ => destruct b
  end;
  try (destruct (Lookup _ _); [apply handle_command_id|]);
  destruct (ReqID req) as [id|]; simpl; try (by intros [= <- <- <-]).
  - destruct (handle_setCwd id _ now s) as [r s0] eqn:E. intros [= <- <- <-]. simpl.
    by rewrite <- (handle_setCwd_id id (Params req) now s), E.
  - destruct (handle_destroy id _ s) as [r s0] eqn:E. intros [= <- <- <-]. simpl.
    by rewrite <- (handle_destroy_id id (Params req) s), E.
  - destruct (handle_shell id _ now s) as [[r s0] i0] eqn:E. intros [= <- <- <-]. simpl.
    by rewrite <- (handle_shell_id id (Params req) now s), E.
Qed.

Lemma processRequest_id req now fresh s res s' inv :
  processRequest req now fresh s = (res, s', inv) -> (RespID <$> res) = (Some <$> ReqID req).
Proof.
  unfold processRequest.
  destruct (dispatch_method _ _ _ _ _) as [[r s0] i] eqn:E. intros [= <- <- <-].
  by apply dispatch_method_id in E.
Qed.

(** ** The session manager is only changed by its operations *)

Lemma Get_steps sid now m m' o : Get sid now m = (o, m') -> rtc sm_step m m'.
Proof. intros E. apply rtc_once. by rewrite <- (f_equal snd E : snd (Get sid now m) = m'); constructor. Qed.

Lemma SetCwd_steps sid p now m m' o : SetCwd sid p now m = (o, m') -> rtc sm_step m m'.
Proof.
  intros E. apply rtc_once.
  by rewrite <- (f_equal snd E : snd (SetCwd sid p now m) = m'); constructor.
Qed.

Lemma Destroy_steps sid m m' o : Destroy sid m = (o, m') -> rtc sm_step m m'.
Proof.
  intros E. apply rtc_once. by rewrite <- (f_equal snd E : snd (Destroy sid m) = m'); constructor.
Qed.

(** [s'] is [s] with a session manager reached by whole operations. *)
Definition sm_moves (s s' : Server) : Prop :=
  rtc sm_step (sm s) (sm s') /\ s' = with_sm (sm s') s.

Lemma sm_moves_refl s : sm_moves s s.
Proof. split; [apply rtc_refl|by destruct s]. Qed.

Lemma sm_moves_with m s : rtc sm_step (sm s) m -> sm_moves s (with_sm m s).
Proof. by split. Qed.

Lemma handle_setCwd_sm id ps now s : sm_moves s (snd (handle_setCwd id ps now s)).
Proof.
  unfold handle_setCwd. destruct (match ps with Some _ => _ | None => _ end) as [[sid path]|];
    [|apply sm_moves_refl].
  destruct (Get sid now (sm s)) as [[se|] m] eqn:E; apply Get_steps in E;
    [|by apply sm_moves_with].
  destruct (SetCwd sid path now m) as [[] m'] eqn:E'; apply SetCwd_steps in E';
    apply sm_moves_with; by transitivity m.
Qed.

Lemma handle_destroy_sm id ps s : sm_moves s (snd (handle_destroy id ps s)).
Proof.
  unfold handle_destroy. destruct (match ps with Some _ => _ | None => _ end) as [sid|];
    [|apply sm_moves_refl].
  destruct (Destroy sid (sm s)) as [[] m] eqn:E; apply Destroy_steps in E; by apply sm_moves_with.
Qed.

Lemma handle_shell_sm id ps now s : sm_moves s (snd (fst (handle_shell id ps now s))).
Proof.
  unfold handle_shell. destruct (match ps with Some _ => _ | None => _ end) as [[sid sc]|];
    [|apply sm_moves_refl].
  destruct (if sid =s? "" then _ else _) as [[cwd env] m] eqn:E.
  assert (rtc sm_step (sm s) m) as Hm.
  { destruct (sid =s? ""); [injection E as <- <- <-; apply rtc_refl|].
    destruct (Get sid now (sm s)) as [[se|] m0] eqn:E0; injection E as <- <- <-;
      by apply Get_steps in E0. }
  destruct (Exec _ _ _ _ _) as [res streams].
  destruct (negb _ && negb _); simpl; apply sm_moves_with; [|done].
  destruct (SetCwd sid _ now m) as [o m'] eqn:E'. apply SetCwd_steps in E'. by transitivity m.
Qed.

Lemma handle_command_sm cn cmd ps id now s res s' inv :
  handle_command cn cmd ps id now s = (res, s', inv) -> sm_moves s s'.
Proof.
  unfold handle_command. destruct (match ps with Some _ => _ | None => _ end) as [se m] eqn:E.
  assert (rtc sm_step (sm s) m) as Hm.
  { destruct ps as [p|]; [|injection E as <- <-; apply rtc_refl].
    destruct (SessionId p =s? ""); [injection E as <- <-; apply rtc_refl|].
    by apply Get_steps in E. }
  destruct (build_args _ _ _); intros [= <- <- <-]; by apply sm_moves_with.
Qed.

Lemma dispatch_method_sm req ps now fresh s res s' inv :
  sessions (sm s) !! fresh = None ->
  dispatch_method req ps now fresh s = (res, s', inv) -> sm_moves s s'.
Proof.
  intros Hf. unfold dispatch_method.
  repeat match goal with
    |- (if ?b then _ else _) = _ -> _ => destruct b
  end;
  try (destruct (Lookup _ _); [apply handle_command_sm|]);
  destruct (ReqID req) as [id|]; simpl; try (by intros [= <- <- <-]; apply sm_moves_refl).
  - intros [= <- <- <-]. apply sm_moves_with, rtc_once.
    by apply (step_create fresh now (sm s)).
  - destruct (handle_setCwd id _ now s) as [r s0] eqn:E. intros [= <- <- <-].
    pose proof (handle_setCwd_sm id (Params req) now s) as H. by rewrite E in H.
  - destruct (handle_destroy id _ s) as [r s0] eqn:E. intros [= <- <- <-].
    pose proof (handle_destroy_sm id (Params req) s) as H. by rewrite E in H.
  - destruct (handle_shell id _ now s) as [[r s0] i0] eqn:E. intros [= <- <- <-].
    pose proof (handle_shell_sm id (Params req) now s) as H. by rewrite E in H.
Qed.

Lemma wrap_add_wrap b x y : (1 <= b)%Z -> wrap b (wrap b x + y) = wrap b (x + y).
Proof.
  intros Hb. unfold wrap. f_equal.
  replace ((x + 2 ^ (b - 1)) mod 2 ^ b - 2 ^ (b - 1) + y + 2 ^ (b - 1))%Z
    with ((x + 2 ^ (b - 1)) mod 2 ^ b + y)%Z by lia.
  rewrite Zplus_mod_idemp_l. f_equal. lia.
Qed.

Lemma processRequest_state req now fresh s res s' inv :
  sessions (sm s) !! fresh = None -> (- 2 ^ 31 <= activeWorkers s < 2 ^ 31)%Z ->
  processRequest req now fresh s = (res, s', inv) ->
  rtc sm_step (sm s) (sm s') /\ activeWorkers s' = activeWorkers s /\
  totalRequests s' = wrap 64 (totalRequests s + 1) /\ rateLimitedTotal s' = rateLimitedTotal s /\
  durationCounts s' =
    <[Method req := wrap 64 (default 0%Z (durationCounts s !! Method req) + 1)]> (durationCounts s).
Proof.
  intros Hf Ha. unfold processRequest.
  destruct (dispatch_method _ _ _ _ _) as [[r s0] i] eqn:E. intros [= <- <- <-].
  apply dispatch_method_sm in E as [Hrtc Hs0]; [|done]. simpl in *.
  rewrite Hs0. simpl. split; [done|]. split; [|done].
  rewrite wrap_add_wrap by lia. replace (activeWorkers s + 1 + -1)%Z with (activeWorkers s) by lia.
  apply wrap_small; lia.
Qed.

(** ** What is run *)

(** The working directory a request's parameters select. *)
Definition selected_cwd (params : option GoposixParams) (m : SessionManager) : string :=
  match params with
  | Some p =>
      if SessionId p =s? "" then "/"
      else match sessions m !! SessionId p with
           | Some se => if CWD se =s? "" then "/" else CWD se
           | None => "/"
           end
  | None => "/"
  end.

Lemma handle_command_inv cn cmd ps id now s res s' inv :
  handle_command cn cmd ps id now s = (res, s', inv) ->
  forall i, i ∈ inv ->
    inv_cmd i = cn /\ inv_cwd i = selected_cwd ps (sm s) /\
    match ps with
    | None => inv_args i = ["--json"]
    | Some p =>
        exists operand,
          inv_args i = (if RawOutput p then [] else ["--json"]) ++ Flags p ++
            (if (cn =s? "echo") && negb (Text p =s? "") then [Text p] else []) ++ operand /\
          (Path p = "" -> operand = []) /\
          (Path p <> "" -> exists q, operand = [q] /\ SecurePath fs_wd (Path p) (inv_cwd i) = Ok q)
    end.
Proof.
  unfold handle_command. destruct (match ps with Some _ => _ | None => _ end) as [se m] eqn:E.
  assert (match se with Some se0 => if CWD se0 =s? "" then "/" else CWD se0 | None => "/" end
    = selected_cwd ps (sm s)) as Hcwd.
  { unfold selected_cwd. destruct ps as [p|]; [|by injection E as <- <-].
    destruct (SessionId p =s? ""); [by injection E as <- <-|]. unfold Get in E.
    destruct (sessions (sm s) !! SessionId p) as [s0|]; injection E as <- <-; [|done].
    by rewrite copy_eq. }
  destruct (build_args cn ps (CWD <$> se)) as [args|] eqn:Eb; intros [= <- <- <-] i;
    [|set_solver]. rewrite list_elem_of_singleton. intros ->. simpl.
  split; [done|]. split; [done|]. unfold build_args in Eb. destruct ps as [p|]; [|by injection Eb].
  assert (match CWD <$> se with Some c => if c =s? "" then "/" else c | None => "/" end
    = selected_cwd (Some p) (sm s)) as Hb by (rewrite <- Hcwd; by destruct se).
  rewrite Hb in Eb. rewrite Hcwd.
  destruct (seqb_spec (Path p) "") as [Ep|Ep].
  - simpl in Eb. injection Eb as <-. exists []. rewrite !app_nil_r.
    split; [by destruct (RawOutput p)|]. done.
  - destruct (SecurePath fs_wd (Path p) (selected_cwd (Some p) (sm s))) as [q|] eqn:Eq; [|done].
    destruct (SecurePath_confined_lemma _ _ _ _ fs_wd_abs Eq) as (_ & rs & _ & Er & _ & _).
    rewrite (seqb_ne q "") in Eb by (by rewrite Er). injection Eb as <-.
    exists [q]. split; [by destruct (RawOutput p)|]. split; [done|]. eauto.
Qed.

(** The directory a script starts in. *)
Definition shell_dir (sid : string) (m : SessionManager) : string :=
  if sid =s? "" then "/" else match sessions m !! sid with Some se => CWD se | None => "/" end.

Lemma handle_shell_inv id ps now s i :
  i ∈ snd (handle_shell id ps now s) ->
  exists v sid script env, ps = Some v /\ decode_pair "script" v = Some (sid, script) /\
    i ∈ ran (snd (Exec registry shell script (shell_dir sid (sm s)) env)).
Proof.
  unfold handle_shell. destruct ps as [v|]; [|set_solver]. destruct (decode_pair "script" v) as [[sid script]|] eqn:Ed; [|set_solver].
  destruct (if sid =s? "" then _ else _) as [[cwd env] m] eqn:E. assert (cwd = shell_dir sid (sm s)) as ->.
  { unfold shell_dir. destruct (sid =s? ""); [by injection E as <- _ _|]. unfold Get in E.
    destruct (sessions (sm s) !! sid) as [se|]; [rewrite copy_eq in E|]; by injection E as <- _ _. }
  destruct (Exec _ _ _ _ _) as [res streams] eqn:Ex. cbn [snd]. intros Hi. exists v, sid, script, env. rewrite Ex. done.
Qed.

(** Only a method that names a command, which then runs once, and a script run commands. *)
Lemma dispatch_method_inv req ps now fresh s res s' inv i :
  dispatch_method req ps now fresh s = (res, s', inv) -> i ∈ inv ->
  (Method req <> "goposix.shell.exec" /\ exists cn cmd, Lookup registry cn = Some cmd /\ Method req = "goposix." +:+ cn /\
    length inv = 1 /\ handle_command cn cmd ps (ReqID req) now s = (res, s', inv)) \/
  (Method req = "goposix.shell.exec" /\ exists id, inv = snd (handle_shell id (Params req) now s)).
Proof.
  intros E Hi. unfold dispatch_method in E.
  destruct (seqb_spec (Method req) "goposix.shell.exec") as [Hsh|Hsh].
  { right. split; [done|]. rewrite Hsh in E. cbn [String.eqb] in E.
    repeat match type of E with (if ?b then _ else _) = _ => destruct b eqn:? end;
      try (destruct (ReqID req) as [id|]; repeat match type of E with (let '(_, _) := ?h in _) = _ => destruct h as [r0 s0] eqn:? end;
        injection E as <- <- <-; first [by apply elem_of_nil in Hi|done]).
    all: destruct (ReqID req) as [id|]; [|injection E as <- <- <-; by apply elem_of_nil in Hi].
    all: exists id; destruct (handle_shell id (Params req) now s) as [[r0 s0] i0]; by injection E as <- <- <-. }
  left. split; [done|].
  repeat match type of E with
    (if ?b then _ else _) = _ => destruct b eqn:?
  end; try (destruct (ReqID req);
    [repeat match type of E with (let '(_, _) := ?h in _) = _ => destruct h as [r0 s0] end|];
    injection E as <- <- <-; by apply elem_of_nil in Hi).
  all: destruct (Lookup registry _) as [cmd|] eqn:El;
    [|destruct (ReqID req); injection E as <- <- <-; by apply elem_of_nil in Hi].
  exists (TrimPrefix (Method req) "goposix."), cmd. split; [done|].
  split; [|split; [|done]].
  - match goal with H : negb (HasPrefix _ _) = false |- _ =>
      apply negb_false_iff in H; unfold TrimPrefix; rewrite H; apply HasPrefix_iff in H as [u Hu] end.
    by rewrite Hu.
  - unfold handle_command in E.
    match type of E with (let '(_, _) := ?h in _) = _ => destruct h as [se m] end.
    destruct (build_args _ _ _); injection E as <- <- <-; [done|by apply elem_of_nil in Hi].
Qed.

Lemma processRequest_inv req now fresh s i :
  i ∈ snd (processRequest req now fresh s) ->
  (Method req <> "goposix.shell.exec" /\ length (snd (processRequest req now fresh s)) = 1 /\
   exists cn cmd s1 r s2,
    Lookup registry cn = Some cmd /\ Method req = "goposix." +:+ cn /\ sm s1 = sm s /\
    handle_command cn cmd (request_params req) (ReqID req) now s1 =
      (r, s2, snd (processRequest req now fresh s))) \/
  (Method req = "goposix.shell.exec" /\ exists ps sid script env, Params req = Some ps /\
     decode_pair "script" ps = Some (sid, script) /\
     i ∈ ran (snd (Exec registry shell script (shell_dir sid (sm s)) env))).
Proof.
  unfold processRequest.
  destruct (dispatch_method _ _ _ _ _) as [[res s'] inv] eqn:E. cbn [fst snd]. intros Hi.
  destruct (dispatch_method_inv _ _ _ _ _ _ _ _ _ E Hi) as [(Hne & cn & cmd & Hl & Hm & Hn & Hh)|(He & id & ->)].
  - left. split; [done|]. split; [done|]. by exists cn, cmd, (add_workers 1 (count_request s)), res, s'.
  - right. split; [done|]. by apply handle_shell_inv in Hi.
Qed.

(** ** Batches *)

(** The ids in the result slots. *)
Definition slot_ids (results : list (option Response)) : list (option (option json)) :=
  (fun o : option Response => RespID <$> o) <$> results.

Lemma run_batch_slots order reqs os : forall results s results' s' inv,
  length reqs = length results -> length os = length reqs ->
  (forall i, i ∈ order -> i < length reqs) ->
  run_batch order reqs os results s = (results', s', inv) ->
  length results' = length results /\
  forall i, slot_ids results' !! i =
    match decide (i ∈ order), reqs !! i ≫= ReqID with
    | left _, Some id => Some (Some (Some id))
    | _, _ => slot_ids results !! i
    end.
Proof.
  induction order as [|j order IH]; intros results s results' s' inv Hl Ho Hi; simpl.
  { intros [= <- <- <-]. split; [done|]. intros i. destruct (decide (i ∈ [])) as [Hn|]; [|done]. by apply elem_of_nil in Hn. }
  destruct (lookup_lt_is_Some_2 reqs j) as [req Hreq]; [set_solver|].
  destruct (lookup_lt_is_Some_2 os j) as [o Hoj]; [rewrite Ho; set_solver|].
  rewrite Hreq, Hoj.
  destruct (processRequest req _ _ s) as [[res s1] inv1] eqn:Ep.
  apply processRequest_id in Ep.
  set (results1 := match res with Some r => _ | None => results end).
  assert (length results1 = length results) as Hl1
    by (unfold results1; destruct res; by rewrite ?length_insert).
  destruct (run_batch order reqs os results1 s1) as [[results2 s2] inv2] eqn:Er.
  intros [= <- <- <-].
  apply IH in Er as [Hlen Hslots]; [|congruence|done|set_solver].
  split; [congruence|]. intros i. rewrite Hslots.
  assert (slot_ids results1 !! i = match decide (i = j), ReqID req with
    | left _, Some id => Some (Some (Some id)) | _, _ => slot_ids results !! i end) as E1.
  { unfold results1, slot_ids. destruct res as [r|], (ReqID req) as [id|] eqn:Eid; simpl in Ep;
      try discriminate Ep; [|by destruct (decide (i = j))].
    rewrite list_fmap_insert. simpl. rewrite Ep.
    destruct (decide (i = j)) as [->|Hne]; [|by rewrite list_lookup_insert_ne].
    rewrite list_lookup_insert_eq; [done|]. rewrite length_fmap, <- Hl. set_solver. }
  rewrite E1. destruct (decide (i = j)) as [->|Hne].
  - destruct (decide (j ∈ j :: order)) as [_|[]]; [|by left]. rewrite Hreq. simpl.
    destruct (decide (j ∈ order)), (ReqID req); done.
  - destruct (decide (i ∈ order)), (decide (i ∈ j :: order)) as [Hin|Hin]; try done.
    + destruct Hin. by right.
    + by apply elem_of_cons in Hin as [?|?].
Qed.

Lemma handleBatch_ids order reqs os s out s' inv :
  order ≡ₚ seq 0 (length reqs) -> length os = length reqs ->
  handleBatch order reqs os s = (out, s', inv) ->
  match omap ReqID reqs with
  | [] => out = []
  | ids => exists l, out = [OBatch l] /\ RespID <$> l = Some <$> ids
  end.
Proof.
  intros Hord Ho. unfold handleBatch.
  destruct (run_batch _ _ _ _ _) as [[results s1] inv1] eqn:Er. intros [= <- <- <-].
  apply run_batch_slots in Er as [Hlen Hslots];
    [|by rewrite length_replicate|done|intros i; rewrite Hord, elem_of_seq; lia].
  assert (slot_ids results = (fun r => Some <$> ReqID r) <$> reqs) as E.
  { apply list_eq. intros i. rewrite Hslots, list_lookup_fmap. unfold slot_ids.
    rewrite list_lookup_fmap.
    destruct (reqs !! i) as [req|] eqn:Er.
    - assert (i < length reqs) as Hi by (by apply lookup_lt_is_Some_1).
      destruct (decide (i ∈ order)) as [_|[]]; [|rewrite Hord, elem_of_seq; lia]. simpl.
      rewrite lookup_replicate_2 by done. by destruct (ReqID req).
    - rewrite (lookup_ge_None_2 (replicate _ _));
        [|rewrite length_replicate; by apply lookup_ge_None_1]. simpl. by case_decide. }
  assert (RespID <$> omap id results = Some <$> omap ReqID reqs) as Eids.
  { transitivity (omap id (slot_ids results)).
    - unfold slot_ids. clear. induction results as [|[r|] l IH]; simpl; [done|f_equal; apply IH|apply IH].
    - rewrite E. clear. induction reqs as [|r l IH]; simpl; [done|].
      destruct (ReqID r); simpl; [f_equal|]; apply IH. }
  destruct (omap ReqID reqs), (omap id results); simpl in *; try done; eauto.
Qed.

(** ** Transcripts *)

(** The outline of an output: which requests it answers. *)
Inductive answer := AnsOne (id : option json) | AnsBatch (ids : list (option json)) | AnsErr (c : Z).

Definition answer_of (o : output) : answer :=
  match o with
  | OResponse r => AnsOne (RespID r)
  | OBatch l => AnsBatch (RespID <$> l)
  | OError c _ => AnsErr c
  end.

(** What a message must be answered with. *)
Definition message_answers (v : json) : list answer :=
  match v with
  | JArr l =>
      match mapM decode_request l with
      | None | Some [] => [AnsErr (-32600)]
      | Some reqs =>
          match omap ReqID reqs with [] => [] | ids => [AnsBatch (Some <$> ids)] end
      end
  | _ =>
      match decode_request v with
      | None => [AnsErr (-32600)]
      | Some req => match ReqID req with Some id => [AnsOne (Some id)] | None => [] end
      end
  end.

Fixpoint conn_answers (arrivals : list arrival) (rl : RateLimiter) : list answer :=
  match arrivals with
  | [] => []
  | a :: arrivals =>
      match a_frame a with
      | FEOF => []
      | FBad => [AnsErr (-32700)]
      | FMsg v =>
          (if fst (Allow (a_time a) rl) then message_answers v else [AnsErr (-32000)]) ++
          conn_answers arrivals (snd (Allow (a_time a) rl))
      end
  end.

(** An arrival whose batch order is a permutation and that has an oracle per request. *)
Definition arrival_ok (a : arrival) : Prop :=
  match a_frame a with
  | FMsg (JArr l) =>
      a_order a ≡ₚ seq 0 (length l) /\ length (a_oracles a) = length l
  | FMsg _ => a_oracles a <> []
  | _ => True
  end.

Lemma handleMessage_answers v order os s out s' inv t :
  arrival_ok {| a_frame := FMsg v; a_time := t; a_order := order; a_oracles := os |} ->
  handleMessage v order os s = (out, s', inv) -> answer_of <$> out = message_answers v.
Proof.
  assert (forall w, os <> [] ->
    match decode_request w with
    | None => ([OError (-32600) "Invalid Request"], s, [])
    | Some req => match os with o :: _ => handleSingle req o s | [] => ([], s, []) end
    end = (out, s', inv) ->
    answer_of <$> out =
    match decode_request w with
    | None => [AnsErr (-32600)]
    | Some req => match ReqID req with Some id => [AnsOne (Some id)] | None => [] end
    end) as Hsingle.
  { intros w Hos. destruct (decode_request w) as [req|]; [|by intros [= <- <- <-]].
    destruct os as [|o os]; [done|]. unfold handleSingle.
    destruct (processRequest _ _ _ _) as [[res s1] i] eqn:E. intros [= <- <- <-].
    apply processRequest_id in E. destruct res as [r|], (ReqID req); simpl in *; congruence. }
  unfold arrival_ok, handleMessage, message_answers. cbn [a_frame a_order a_oracles].
  destruct v; try (by apply (Hsingle _)).
  intros [Hord Hos]. destruct (mapM decode_request l) as [reqs|] eqn:Em; [|by intros [= <- <- <-]].
  assert (length reqs = length l) as Hlen by (symmetry; by apply (length_mapM _ _ _ Em)).
  rewrite <- Hlen in Hord, Hos.
  destruct reqs as [|req reqs]; [by intros [= <- <- <-]|]. intros Hb.
  apply handleBatch_ids in Hb; [|done..].
  destruct (omap ReqID (req :: reqs)); [by subst|]. destruct Hb as (r & -> & E).
  simpl. by rewrite E.
Qed.

Lemma handleConn_answers arrivals : forall rl s out s' inv,
  Forall arrival_ok arrivals ->
  handleConn arrivals rl s = (out, s', inv) -> answer_of <$> out = conn_answers arrivals rl.
Proof.
  induction arrivals as [|a arrivals IH]; intros rl s out s' inv Hok; simpl; [by intros [= <- <- <-]|].
  inversion Hok as [|? ? Ha Hok']; subst.
  destruct (a_frame a) as [v| |] eqn:Ef; [|by intros [= <- <- <-]..].
  destruct (Allow (a_time a) rl) as [[] rl'] eqn:Ea; simpl.
  - destruct (handleMessage v _ _ s) as [[o1 s1] i1] eqn:Em.
    destruct (handleConn arrivals rl' s1) as [[o2 s2] i2] eqn:Ec. intros [= <- <- <-].
    rewrite fmap_app. f_equal; [|by apply (IH _ _ _ _ _ Hok' Ec)].
    apply (handleMessage_answers v (a_order a) (a_oracles a) s _ s1 i1 0); [|done].
    unfold arrival_ok in *. rewrite Ef in Ha. exact Ha.
  - destruct (handleConn arrivals rl' _) as [[o2 s2] i2] eqn:Ec. intros [= <- <- <-].
    simpl. f_equal. by apply (IH _ _ _ _ _ Hok' Ec).
Qed.
End Handlers.

(** * The request size limit *)

Module LimitReader.

Record PerRequestLimitReader := { limit : Z; read : Z }.

Definition NewPerRequestLimitReader (l : Z) : PerRequestLimitReader := {| limit := l; read := 0 |}.

(** [Read] with a buffer of [plen] bytes; [inner n] is how many bytes the wrapped reader
    delivers into a buffer of [n].  [None] is the size-limit error. *)
Definition Read (plen : Z) (inner : Z -> Z) (pr : PerRequestLimitReader)
    : option Z * PerRequestLimitReader :=
  if (limit pr <=? read pr)%Z then (None, pr)
  else
    let max := (limit pr - read pr)%Z in
    let plen := if (max <? plen)%Z then max else plen in
    let n := inner plen in
    (Some n, {| limit := limit pr; read := read pr + n |}).

Definition Reset (pr : PerRequestLimitReader) : PerRequestLimitReader :=
  {| limit := limit pr; read := 0 |}.

(** The bytes delivered by a sequence of reads. *)
Fixpoint read_all (reads : list (Z * (Z -> Z))) (pr : PerRequestLimitReader)
    : Z * PerRequestLimitReader :=
  match reads with
  | [] => (0%Z, pr)
  | (plen, inner) :: reads =>
      match Read plen inner pr with
      | (None, pr) => (0%Z, pr)
      | (Some n, pr) => let '(m, pr) := read_all reads pr in ((n + m)%Z, pr)
      end
  end.

(** An [io.Reader] delivers at most as many bytes as the buffer holds. *)
Definition reader_ok (r : Z * (Z -> Z)) : Prop :=
  (0 <= fst r)%Z /\ forall n, (0 <= n)%Z -> (0 <= snd r n <= n)%Z.

Lemma read_all_bound reads : forall pr,
  Forall reader_ok reads -> (0 <= read pr <= limit pr)%Z ->
  (0 <= fst (read_all reads pr) /\ read pr + fst (read_all reads pr) <= limit pr)%Z.
Proof.
  induction reads as [|[plen inner] reads IH]; intros pr Hok Hpr; simpl; [lia|].
  inversion Hok as [|? ? [H1 H2] Hok']; subst. unfold Read. simpl in *.
  destruct (Z.leb_spec (limit pr) (read pr)); [simpl; lia|].
  set (k := if (_ <? plen)%Z then _ else plen).
  assert (0 <= k <= limit pr - read pr)%Z as Hk
    by (unfold k; destruct (Z.ltb_spec (limit pr - read pr) plen); lia).
  specialize (H2 k (proj1 Hk)).
  specialize (IH {| limit := limit pr; read := read pr + inner k |} Hok'). simpl in IH.
  destruct (read_all reads _) as [m pr']. simpl in *. lia.
Qed.

End LimitReader.

(** * Properties *)

Section Properties.
Context `{FS : FileSystem} `{RD : Rounding}.
Variable registry : gmap string Command.
Variable shell : Interpreter.
Variable parse_envelope : string -> option Envelope.

(** The methods the server answers itself. *)
Definition builtin_methods : list string :=
  ["goposix.ping"; "goposix.session.create"; "goposix.session.setCwd"; "goposix.session.list";
   "goposix.session.destroy"; "goposix.shell.exec"].

(** C6: every request with an id is answered, by exactly one response that carries that id,
    on every path through the handler (errors, session methods, shell, commands); a
    notification (no id, or a null id) is never answered. *)
Theorem processRequest_answers req now fresh s :
  RespID <$> fst (fst (processRequest registry shell parse_envelope req now fresh s)) = Some <$> ReqID req.
Proof.
  destruct (processRequest registry shell parse_envelope req now fresh s) as [[res s'] inv] eqn:E. by apply processRequest_id in E.
Qed.

(** Handling a request only changes the sessions through whole operations of the session
    manager, so every state the server reaches satisfies the manager's invariants; the
    worker counter is restored, and the request counter and the count of the request's method
    advance by one. *)
Theorem processRequest_preserves_sessions req now fresh s t :
  sm_reachable t (sm s) -> sessions (sm s) !! fresh = None ->
  (- 2 ^ 31 <= activeWorkers s < 2 ^ 31)%Z ->
  let s' := snd (fst (processRequest registry shell parse_envelope req now fresh s)) in
  sm_reachable t (sm s') /\ activeWorkers s' = activeWorkers s /\
  totalRequests s' = wrap 64 (totalRequests s + 1) /\
  durationCounts s' =
    <[Method req := wrap 64 (default 0%Z (durationCounts s !! Method req) + 1)]> (durationCounts s).
Proof.
  intros Hr Hf Ha. destruct (processRequest registry shell parse_envelope req now fresh s) as [[res s'] inv] eqn:E.
  apply processRequest_state in E as (H1 & H2 & H3 & _ & H4); [|done..]. simpl.
  split; [|done]. unfold sm_reachable in *. by transitivity (sm s).
Qed.


(** C7: a batch is answered in the order of its requests, whatever the order in which the
    concurrent workers ran: one array with the ids of the requests that have one, in request
    order, and nothing at all when all of them are notifications. *)
Theorem handleBatch_in_order order reqs os s out s' inv :
  order ≡ₚ seq 0 (length reqs) -> length os = length reqs ->
  handleBatch registry shell parse_envelope order reqs os s = (out, s', inv) ->
  match omap ReqID reqs with
  | [] => out = []
  | ids => exists l, out = [OBatch l] /\ RespID <$> l = Some <$> ids
  end.
Proof. apply handleBatch_ids. Qed.

(** C8: the transcript of a connection.  The sequence of answers is determined by the
    messages and the rate limiter alone: each admitted message is answered as its requests
    demand and in order of arrival, each refused one by error -32000, an undecodable one by
    -32600, and a broken stream by -32700, after which nothing is read. *)
Theorem handleConn_transcript arrivals rl s out s' inv :
  Forall arrival_ok arrivals ->
  handleConn registry shell parse_envelope arrivals rl s = (out, s', inv) ->
  answer_of <$> out = conn_answers arrivals rl.
Proof. apply handleConn_answers. Qed.

(** ** Rejected requests *)

Lemma HasPrefix_self p u : HasPrefix (p +:+ u) p = true.
Proof. apply HasPrefix_iff. by exists u. Qed.

Lemma TrimPrefix_self p u : TrimPrefix (p +:+ u) p = u.
Proof. unfold TrimPrefix. rewrite HasPrefix_self. apply str_drop_exact. Qed.

(** Why a request that carries an id is refused, with the code and the message of the answer. *)
Inductive rejected (req : Request) (m : SessionManager) : Z -> string -> Prop :=
| rej_version : JSONRPC req <> "2.0" -> rejected req m (-32600) "Invalid Request"
| rej_long : JSONRPC req = "2.0" -> 256 < String.length (Method req) -> rejected req m (-32600) "Method too long"
| rej_prefix : JSONRPC req = "2.0" -> String.length (Method req) <= 256 -> HasPrefix (Method req) "goposix." = false ->
    rejected req m (-32601) "Method not found"
| rej_unknown cmdName : JSONRPC req = "2.0" -> String.length (Method req) <= 256 -> Method req = "goposix." +:+ cmdName ->
    Method req ∉ builtin_methods -> Lookup registry cmdName = None -> rejected req m (-32601) "Method not found"
| rej_path cmdName cmd p e : JSONRPC req = "2.0" -> String.length (Method req) <= 256 -> Method req = "goposix." +:+ cmdName ->
    Method req ∉ builtin_methods -> Lookup registry cmdName = Some cmd -> request_params req = Some p -> Path p <> "" ->
    SecurePath fs_wd (Path p) (selected_cwd (Some p) m) = Err e -> rejected req m (-32602) "Path traversal detected"
| rej_setCwd_params : JSONRPC req = "2.0" -> Method req = "goposix.session.setCwd" -> Params req ≫= decode_pair "path" = None ->
    rejected req m (-32602) "Invalid params"
| rej_shell_params : JSONRPC req = "2.0" -> Method req = "goposix.shell.exec" -> Params req ≫= decode_pair "script" = None ->
    rejected req m (-32602) "Invalid params"
| rej_setCwd_session sid path : JSONRPC req = "2.0" -> Method req = "goposix.session.setCwd" ->
    Params req ≫= decode_pair "path" = Some (sid, path) -> sessions m !! sid = None -> rejected req m (-32602) "Invalid session"
| rej_setCwd_path sid path se : JSONRPC req = "2.0" -> Method req = "goposix.session.setCwd" ->
    Params req ≫= decode_pair "path" = Some (sid, path) -> sessions m !! sid = Some se ->
    match SecurePath fs_wd path (if BaseDir se =s? "" then "/" else BaseDir se) with Ok q => fs_isDir q = false | Err _ => True end ->
    rejected req m (-32602) "Path traversal detected or directory does not exist"
| rej_destroy : JSONRPC req = "2.0" -> Method req = "goposix.session.destroy" ->
    match Params req ≫= decode_session_id with Some sid => sessions m !! sid = None | None => True end ->
    rejected req m (-32602) "Invalid session".

(** The table of sessions, apart from the times of their last use. *)
Definition table (m : SessionManager) : gmap string (string * string * string * option (gmap string string)) :=
  (fun se => (ID se, CWD se, BaseDir se, Env se)) <$> sessions m.

Lemma table_Get sid now m : table (snd (Get sid now m)) = table m.
Proof.
  unfold Get. destruct (sessions m !! sid) as [se|] eqn:E; [|done]. unfold table. cbn [snd with_sessions sessions].
  rewrite fmap_insert. apply insert_id. rewrite lookup_fmap, E. done.
Qed.

Lemma Get_None sid now m : sessions m !! sid = None -> Get sid now m = (None, m).
Proof. unfold Get. by intros ->. Qed.

Lemma SetCwd_refused sid path now m se : sessions m !! sid = Some se ->
  match SecurePath fs_wd path (if BaseDir se =s? "" then "/" else BaseDir se) with Ok q => fs_isDir q = false | Err _ => True end <->
  fst (SetCwd sid path now m) = false.
Proof. intros E. unfold SetCwd. rewrite E. destruct (SecurePath _ _ _) as [q|]; [|done]. by destruct (fs_isDir q). Qed.

Lemma SetCwd_false sid path now m : fst (SetCwd sid path now m) = false -> snd (SetCwd sid path now m) = m.
Proof. unfold SetCwd. by repeat case_match. Qed.

Lemma not_builtin req m0 : Method req ∉ builtin_methods -> m0 ∈ builtin_methods -> (Method req =s? m0) = false.
Proof. intros H Hm. apply seqb_ne. by intros E; rewrite E in H. Qed.

Lemma selected_cwd_get p m now :
  match CWD <$> fst (if SessionId p =s? "" then (None, m) else Get (SessionId p) now m) with
  | Some c => if c =s? "" then "/" else c | None => "/" end = selected_cwd (Some p) m /\
  table (snd (if SessionId p =s? "" then (None, m) else Get (SessionId p) now m)) = table m.
Proof.
  unfold selected_cwd. destruct (SessionId p =s? ""); [done|]. split; [|apply table_Get]. unfold Get.
  destruct (sessions m !! SessionId p) as [se|]; [|done]. by rewrite copy_eq.
Qed.

(** Each reason for a refusal gives its answer. *)
Lemma dispatch_rejected req now fresh s id c msg res s' inv :
  ReqID req = Some id -> rejected req (sm s) c msg ->
  dispatch_method registry shell parse_envelope req (request_params req) now fresh s = (res, s', inv) ->
  res = Some (err_response id c msg) /\ inv = [] /\ table (sm s') = table (sm s).
Proof.
  intros Hid H. unfold dispatch_method. rewrite Hid.
  destruct H as [Hv|Hv Hl|Hv Hl Hp|cn Hv Hl Hm Hb Hr|cn cmd p e Hv Hl Hm Hb Hr Hps Hp He|Hv Hm Hd|Hv Hm Hd|sid path Hv Hm Hd Hs
    |sid path se Hv Hm Hd Hs Hc|Hv Hm Hd];
    [rewrite (proj2 (String.eqb_neq _ _) Hv); by intros [= <- <- <-]|rewrite Hv; change (negb ("2.0" =s? "2.0")) with false; cbn iota..].
  - apply Nat.ltb_lt in Hl. rewrite Hl. by intros [= <- <- <-].
  - apply Nat.ltb_ge in Hl. rewrite Hl.
    repeat match goal with |- context [if ?m =s? ?n then _ else _] =>
      destruct (seqb_spec m n) as [E|_]; [by rewrite E in Hp|] end.
    rewrite Hp. by intros [= <- <- <-].
  - apply Nat.ltb_ge in Hl. rewrite Hl. rewrite !(not_builtin req) by (done || (unfold builtin_methods; set_solver)).
    rewrite Hm, HasPrefix_self, TrimPrefix_self, Hr. by intros [= <- <- <-].
  - apply Nat.ltb_ge in Hl. rewrite Hl. rewrite !(not_builtin req) by (done || (unfold builtin_methods; set_solver)).
    rewrite Hm, HasPrefix_self, TrimPrefix_self, Hr. cbn [negb]. unfold handle_command. rewrite Hps.
    destruct (selected_cwd_get p (sm s) now) as [Hcwd Ht].
    destruct (if SessionId p =s? "" then _ else _) as [se m]. cbn [fst snd] in *. unfold build_args.
    rewrite (proj2 (String.eqb_neq _ _) Hp), Hcwd, He. by intros [= <- <- <-].
  - rewrite Hm. unfold handle_setCwd. destruct (Params req) as [v|]; [cbn [mbind option_bind] in Hd; rewrite Hd|]; by intros [= <- <- <-].
  - rewrite Hm. unfold handle_shell. destruct (Params req) as [v|]; [cbn [mbind option_bind] in Hd; rewrite Hd|]; by intros [= <- <- <-].
  - rewrite Hm. unfold handle_setCwd. destruct (Params req) as [v|]; [|done]. cbn [mbind option_bind] in Hd. rewrite Hd, Get_None by done.
    by intros [= <- <- <-].
  - rewrite Hm. unfold handle_setCwd. destruct (Params req) as [v|]; [|done]. cbn [mbind option_bind] in Hd. rewrite Hd.
    pose proof (table_Get sid now (sm s)) as Ht. destruct (Get sid now (sm s)) as [o m] eqn:Eg. unfold Get in Eg. rewrite Hs in Eg.
    injection Eg as <- <-. cbn [snd] in Ht. set (m := with_sessions _ _) in *.
    assert (Hf : fst (SetCwd sid path now m) = false).
    { unfold m, SetCwd. cbn [with_sessions sessions]. rewrite lookup_insert_eq. cbn [BaseDir].
      destruct (SecurePath _ _ _); [by rewrite Hc|done]. }
    pose proof (SetCwd_false sid path now m Hf) as Hm'. destruct (SetCwd sid path now m) as [o m']. cbn [fst snd] in *. subst o m'.
    by intros [= <- <- <-].
  - rewrite Hm. unfold handle_destroy. destruct (Params req) as [v|]; [|by intros [= <- <- <-]]. cbn [mbind option_bind] in Hd.
    destruct (decode_session_id v) as [sid|]; [|by intros [= <- <- <-]]. unfold Destroy. rewrite Hd. by intros [= <- <- <-].
Qed.

(** And each answer with a code and no data has a reason. *)
Lemma dispatch_only_rejected req now fresh s id c msg s' inv :
  ReqID req = Some id ->
  dispatch_method registry shell parse_envelope req (request_params req) now fresh s = (Some (err_response id c msg), s', inv) ->
  rejected req (sm s) c msg.
Proof.
  intros Hid. unfold dispatch_method. rewrite Hid.
  destruct (seqb_spec (JSONRPC req) "2.0") as [Hv|Hv]; cbn [negb]; [|intros [= <- <- _ _]; by apply rej_version].
  destruct (Nat.ltb_spec 256 (String.length (Method req))) as [Hl|Hl]; [intros [= <- <- _ _]; by apply rej_long|].
  destruct (seqb_spec (Method req) "goposix.ping") as [|H1]; [done|].
  destruct (seqb_spec (Method req) "goposix.session.create") as [|H2]; [by destruct (Create fresh now (sm s))|].
  destruct (seqb_spec (Method req) "goposix.session.setCwd") as [Hm|H3].
  { unfold handle_setCwd. destruct (match Params req with Some v => _ | None => None end) as [[sid path]|] eqn:Ed.
    2:{ intros [= <- <- _ _]. by apply rej_setCwd_params. }
    destruct (sessions (sm s) !! sid) as [se|] eqn:Es.
    - unfold Get. rewrite Es. cbn iota. set (m := with_sessions _ _). destruct (SetCwd sid path now m) as [[] m'] eqn:E; [done|].
      intros [= <- <- _ _]. apply (rej_setCwd_path _ _ sid path se); try done. apply (f_equal fst) in E. cbn [fst] in E.
      unfold m, SetCwd in E. cbn [with_sessions sessions] in E. rewrite lookup_insert_eq in E. cbn [BaseDir] in E.
      destruct (SecurePath _ _ _); [|done]. by destruct (fs_isDir _).
    - rewrite Get_None by done. intros [= <- <- _ _]. by apply (rej_setCwd_session _ _ sid path). }
  destruct (seqb_spec (Method req) "goposix.session.list") as [|H4]; [done|].
  destruct (seqb_spec (Method req) "goposix.session.destroy") as [Hm|H5].
  { unfold handle_destroy. destruct (match Params req with Some v => _ | None => None end) as [sid|] eqn:Ed.
    2:{ intros [= <- <- _ _]. apply rej_destroy; [done..|]. destruct (Params req) as [v|]; [|done]. cbn. by rewrite Ed. }
    unfold Destroy. destruct (sessions (sm s) !! sid) eqn:Es; [done|]. intros [= <- <- _ _]. apply rej_destroy; [done..|].
    destruct (Params req) as [v|]; [|done]. cbn. by rewrite Ed. }
  destruct (seqb_spec (Method req) "goposix.shell.exec") as [Hm|H6].
  { unfold handle_shell. destruct (match Params req with Some v => _ | None => None end) as [[sid script]|] eqn:Ed.
    2:{ intros [= <- <- _ _]. by apply rej_shell_params. }
    destruct (if sid =s? "" then _ else _) as [[cwd env] m]. by destruct (Exec _ _ _ _ _). }
  assert (Hb : Method req ∉ builtin_methods) by (unfold builtin_methods; set_solver).
  destruct (HasPrefix (Method req) "goposix.") eqn:Hp; cbn [negb]; [|intros [= <- <- _ _]; by apply rej_prefix].
  apply HasPrefix_iff in Hp as [cn Hm]. rewrite Hm, TrimPrefix_self.
  destruct (Lookup registry cn) as [cmd|] eqn:El; [|intros [= <- <- _ _]; by apply (rej_unknown _ _ cn)].
  unfold handle_command. destruct (request_params req) as [p|] eqn:Ep.
  - destruct (selected_cwd_get p (sm s) now) as [Hcwd _]. destruct (if SessionId p =s? "" then _ else _) as [se m]. cbn [fst snd] in *.
    unfold build_args. rewrite Hcwd. destruct (seqb_spec (Path p) "") as [|Hpath].
    + intros [= Hr _ _]. exfalso. revert Hr. unfold command_response. repeat case_match; done.
    + destruct (SecurePath _ _ _) as [q|e] eqn:Eq; [|intros [= <- <- _ _]; by apply (rej_path _ _ cn cmd p e)].
      intros [= Hr _ _]. exfalso. revert Hr. unfold command_response. repeat case_match; done.
  - unfold build_args. intros [= Hr _ _]. exfalso. revert Hr. unfold command_response. repeat case_match; done.
Qed.


(** An unknown session is not an error.  A command request whose session identifier is
    not in the table (never created, destroyed, or expired by the cleanup) runs in "/", with
    its path operand confined to the root only, instead of being refused. *)
Theorem unknown_session_runs_at_root req p now fresh s i :
  Method req <> "goposix.shell.exec" -> request_params req = Some p -> sessions (sm s) !! SessionId p = None ->
  i ∈ snd (processRequest registry shell parse_envelope req now fresh s) -> inv_cwd i = "/".
Proof.
  intros Hne Hp Hs Hi. destruct (processRequest_inv _ _ _ _ _ _ _ _ Hi)
    as [(_ & _ & cn & cmd & s1 & r & s2 & _ & _ & Hsm & E)|[? _]]; [|done].
  destruct (handle_command_inv _ _ _ _ _ _ _ _ _ _ E i Hi) as (_ & -> & _).
  rewrite Hp, Hsm. unfold selected_cwd. rewrite Hs. by destruct (_ =s? _).
Qed.
End Properties.

(** A small installation: a command that prints its arguments, the shell [demo_interpreter], and
    no JSON envelopes. *)
Definition demo_registry : gmap string Command :=
  {["cat" := {| Name := "cat"; Usage := "";
                Run := fun args _ _ => {| exit_code := 0; out_writes := args; err_writes := [] |} |}]}.

Definition demo_server : Server :=
  {| sm := demo_sm; activeWorkers := 0; totalRequests := 7; durationCounts := ∅;
     rateLimitedTotal := 0 |}.

Definition demo_request (method : string) (id : option json) (ps : list (string * json)) : Request :=
  {| JSONRPC := "2.0"; Method := method; Params := Some (JObj ps); ReqID := id |}.

Definition demo_cat (session : string) : Request :=
  demo_request "goposix.cat" (Some (JNum "1"))
    [("path", JStr "a.txt"); ("sessionId", JStr session)].

Abbreviation demo_process :=
  (@processRequest (tree_fs demo_tree) demo_registry demo_interpreter (fun _ => None)).

Lemma processRequest_preserves_sessions_witness :
  let s' := snd (fst (demo_process (demo_request "goposix.session.create" (Some (JNum "1")) [])
                        9 "s2" demo_server)) in
  @sm_reachable (tree_fs demo_tree) 100 (sm s') /\ activeWorkers s' = 0%Z /\
  totalRequests s' = wrap 64 (7 + 1) /\
  durationCounts s' = {["goposix.session.create" := wrap 64 1]}.
Proof.
  apply (@processRequest_preserves_sessions (tree_fs demo_tree) demo_registry demo_interpreter
    (fun _ => None) (demo_request "goposix.session.create" (Some (JNum "1")) []) 9 "s2" demo_server).
  - eapply rtc_l; [apply (step_create "s1" 0); reflexivity|].
    eapply rtc_l; [apply (step_setcwd "s1" "/app/sandbox" 5)|]. apply rtc_refl.
  - vm_compute. reflexivity.
  - simpl. lia.
Defined.


(** A script is not kept to the directory of its session: after cd it runs the registered commands anywhere, here in /etc for a
    session in /app/sandbox.  Its redirections are kept to it, and the session does not follow the script. *)
Theorem script_leaves_session :
  let req script := demo_request "goposix.shell.exec" (Some (JNum "1")) [("script", JStr script); ("sessionId", JStr "s1")] in
  let r script := demo_process (req script) 9 "s2" demo_server in
  snd (r ("cd /etc" +:+ String "010" "cat passwd")) =
    [{| inv_cmd := "cat"; inv_args := ["passwd"]; inv_stdin := ""; inv_cwd := "/etc" |}] /\
  CWD <$> sessions (sm (snd (fst (r ("cd /etc" +:+ String "010" "cat passwd"))))) !! "s1" = Some "/app/sandbox" /\
  snd (r "> ../../etc/passwd") = [] /\
  opened (snd (@Exec (tree_fs demo_tree) demo_registry demo_interpreter "> ../../etc/passwd" "/app/sandbox" None)) = [] /\
  opened (snd (@Exec (tree_fs demo_tree) demo_registry demo_interpreter "> a.txt" "/app/sandbox" None)) = ["/data/box/a.txt"].
Proof. vm_compute. done. Qed.

Definition demo_batch : list Request :=
  [demo_cat "s1"; demo_request "goposix.ping" None []; demo_request "goposix.ping" (Some (JStr "b")) []].

Definition demo_oracle : oracle := {| o_now := 9; o_fresh := "s2" |}.

Lemma handleBatch_in_order_witness :
  exists l, fst (fst (@handleBatch (tree_fs demo_tree) demo_registry demo_interpreter (fun _ => None)
      [2; 0; 1] demo_batch (replicate 3 demo_oracle) demo_server)) = [OBatch l] /\
    RespID <$> l = [Some (JNum "1"); Some (JStr "b")].
Proof.
  destruct (@handleBatch (tree_fs demo_tree) demo_registry demo_interpreter (fun _ => None)
      [2; 0; 1] demo_batch (replicate 3 demo_oracle) demo_server) as [[out s'] inv] eqn:E.
  apply (@handleBatch_in_order (tree_fs demo_tree) demo_registry demo_interpreter (fun _ => None)
    [2; 0; 1] demo_batch (replicate 3 demo_oracle) demo_server out s' inv).
  - apply (bool_decide_unpack _). vm_compute. exact I.
  - reflexivity.
  - exact E.
Defined.

Definition demo_arrivals : list arrival :=
  [{| a_frame := FMsg (JObj [("jsonrpc", JStr "2.0"); ("method", JStr "goposix.ping"); ("id", JNum "4")]);
      a_time := 0; a_order := []; a_oracles := [demo_oracle] |};
   {| a_frame := FMsg (JArr []); a_time := 0; a_order := []; a_oracles := [] |};
   {| a_frame := FMsg JNull; a_time := 0; a_order := []; a_oracles := [demo_oracle] |};
   {| a_frame := FBad; a_time := 0; a_order := []; a_oracles := [] |}].

Lemma handleConn_transcript_witness :
  answer_of <$> fst (fst (@handleConn (tree_fs demo_tree) exact_rounding demo_registry demo_interpreter
    (fun _ => None) demo_arrivals demo_limiter demo_server)) =
  [AnsOne (Some (JNum "4")); AnsErr (-32600); AnsErr (-32000); AnsErr (-32700)].
Proof.
  destruct (@handleConn (tree_fs demo_tree) exact_rounding demo_registry demo_interpreter
    (fun _ => None) demo_arrivals demo_limiter demo_server) as [[out s'] inv] eqn:E. cbn [fst].
  rewrite (@handleConn_transcript (tree_fs demo_tree) exact_rounding demo_registry demo_interpreter
    (fun _ => None) demo_arrivals demo_limiter demo_server out s' inv).
  - vm_compute. reflexivity.
  - unfold demo_arrivals. rewrite !Forall_cons. repeat split; done.
  - exact E.
Defined.


Lemma unknown_session_runs_at_root_witness :
  exists i, snd (demo_process (demo_cat "gone") 9 "s2" demo_server) = [i] /\ inv_cwd i = "/".
Proof.
  eexists. split; [vm_compute; reflexivity|].
  eapply (@unknown_session_runs_at_root (tree_fs demo_tree) demo_registry demo_interpreter (fun _ => None)
    (demo_cat "gone") _ 9 "s2" demo_server).
  - discriminate.
  - vm_compute. reflexivity.
  - vm_compute. reflexivity.
  - apply list_elem_of_singleton. vm_compute. reflexivity.
Defined.

(** The size limit.  After a reset the reader hands the JSON decoder at most [limit] bytes
    for the next request, however the reads are sized, whatever the connection delivers and
    whatever was read before; a new reader starts as a reset one. *)
Theorem request_size_bounded pr reads :
  (0 <= LimitReader.limit pr)%Z -> Forall LimitReader.reader_ok reads ->
  (0 <= fst (LimitReader.read_all reads (LimitReader.Reset pr)) <= LimitReader.limit pr)%Z /\
  LimitReader.NewPerRequestLimitReader (LimitReader.limit pr) = LimitReader.Reset pr.
Proof.
  intros Hl Hr. split; [|done].
  destruct (LimitReader.read_all_bound reads (LimitReader.Reset pr)) as [H1 H2]; [done|simpl; lia|].
  simpl in *. lia.
Qed.

Lemma request_size_bounded_witness :
  (0 <= fst (LimitReader.read_all [(4, fun n => Z.min n 3); (9, fun n => n)]%Z
               (LimitReader.NewPerRequestLimitReader 10)) <= 10)%Z.
Proof.
  apply (request_size_bounded (LimitReader.NewPerRequestLimitReader 10)
    [(4, fun n => Z.min n 3); (9, fun n => n)]%Z); [simpl; lia|].
  rewrite !Forall_cons. repeat split; simpl; (lia || done).
Defined.
