(* ===== verification/Output.v ===== *)
(** The output layer of the utilities: pkg/common/output.go and RenderFlagError of
    pkg/common/flagerr.go.

    What a utility writes to a stream is a list of chunks: texts, and envelopes handed to the
    JSON encoder.  [D] is the type of the utility's data. *)

From S2P Require Import Prelude Flags.

Record ErrorInfo := { ErrorCode : string; Message : string }.

Record JSONEnvelope (D : Type) := {
  Command : string;
  EnvVersion : string;
  SchemaVersion : string;
  ExitCode : Z;
  Data : option D;
  Error : option ErrorInfo
}.
Arguments Command {D}.
Arguments EnvVersion {D}.
Arguments SchemaVersion {D}.
Arguments ExitCode {D}.
Arguments Data {D}.
Arguments Error {D}.

Definition Version : string := "0.1.0".

Inductive chunk (D : Type) :=
| CText (s : string)
| CJson (env : JSONEnvelope D).
Arguments CText {D} s.
Arguments CJson {D} env.

(** [Render]: [textFn] is what the callback writes to the same stream. *)
Definition Render {D} (cmdName : string) (data : D) (jsonMode : bool) (textFn : list (chunk D))
    : list (chunk D) :=
  if jsonMode then
    [CJson {| Command := cmdName; EnvVersion := Version; SchemaVersion := "1.0"; ExitCode := 0;
              Data := Some data; Error := None |}]
  else textFn.

Definition RenderError {D} (cmdName : string) (exitCode : Z) (errCode message : string)
    (jsonMode : bool) : list (chunk D) :=
  if negb jsonMode then []
  else
    [CJson {| Command := cmdName; EnvVersion := Version; SchemaVersion := "1.0";
              ExitCode := exitCode; Data := None;
              Error := Some {| ErrorCode := errCode; Message := message |} |}].

(** What is written to [errOut], and the exit code. *)
Definition RenderFlagError {D} (name : string) (args : list string) (err : string) (exitCode : Z)
    : list (chunk D) * Z :=
  if HasJSONFlag args then (RenderError name exitCode "FLAG_ERROR" err true, exitCode)
  else ([CText (name +:+ ": " +:+ err +:+ String "010" "")], exitCode).

(** The result of a utility's [run]: exit code, standard output and standard error. *)
Record run_io (D : Type) := { rc : Z; out : list (chunk D); errs : list (chunk D) }.
Arguments rc {D}.
Arguments out {D}.
Arguments errs {D}.
Arguments Build_run_io {D}.

(** A line of text. *)
Definition line {D} (s : string) : chunk D := CText (s +:+ String "010" "").

(** The streams as texts; [enc] is the JSON encoder. *)
Definition text_of {D} (enc : JSONEnvelope D -> string) (l : list (chunk D)) : string :=
  sconcat ((fun c => match c with CText s => s | CJson e => enc e end) <$> l).

(** An envelope reports an error exactly when it carries no data. *)
Definition envelope_ok {D} (e : JSONEnvelope D) : Prop :=
  match Error e with Some _ => Data e = None | None => Data e <> None /\ ExitCode e = 0%Z end.

Lemma Render_ok {D} n (d : D) j t e : CJson e ∈ Render n d j t -> CJson e ∈ t \/ envelope_ok e.
Proof.
  unfold Render. destruct j; [|by left]. rewrite list_elem_of_singleton. intros [= ->].
  by right.
Qed.

Lemma RenderError_ok {D} n c k m j (e : JSONEnvelope D) :
  CJson e ∈ RenderError n c k m j -> envelope_ok e /\ ExitCode e = c.
Proof.
  unfold RenderError. destruct j; simpl; [|by intros H%elem_of_nil].
  rewrite list_elem_of_singleton. by intros [= ->].
Qed.
