(* ===== verification/Utf8.v ===== *)
(** UTF-8 as Go strings use it: [utf8.DecodeRuneInString], the [range] loop over a string,
    and [utf8.AppendRune]. *)

From S2P Require Import Prelude.

Local Open Scope Z_scope.

Definition RuneError : Z := 0xFFFD.

Definition is_cont (lo hi : Z) (c : ascii) : bool := (lo <=? code c) && (code c <=? hi).

(** The range of the second byte and the number of bytes that a first byte announces. *)
Definition first_byte (b : Z) : option (nat * Z * Z) :=
  if (0xC2 <=? b) && (b <=? 0xDF) then Some (2%nat, 0x80, 0xBF)
  else if b =? 0xE0 then Some (3%nat, 0xA0, 0xBF)
  else if b =? 0xED then Some (3%nat, 0x80, 0x9F)
  else if (0xE1 <=? b) && (b <=? 0xEF) then Some (3%nat, 0x80, 0xBF)
  else if b =? 0xF0 then Some (4%nat, 0x90, 0xBF)
  else if b =? 0xF4 then Some (4%nat, 0x80, 0x8F)
  else if (0xF1 <=? b) && (b <=? 0xF3) then Some (4%nat, 0x80, 0xBF)
  else None.

Definition low6 (c : ascii) : Z := Z.land (code c) 0x3F.

(** The first rune of a non-empty string and its width in bytes. *)
Definition DecodeRune (s : string) : Z * nat :=
  match s with
  | "" => (RuneError, 0%nat)
  | String c0 s1 =>
      let b := code c0 in
      if b <? 0x80 then (b, 1%nat)
      else
        match first_byte b, s1 with
        | Some (2%nat, lo, hi), String c1 _ =>
            if is_cont lo hi c1 then (Z.land b 0x1F * 64 + low6 c1, 2%nat) else (RuneError, 1%nat)
        | Some (3%nat, lo, hi), String c1 (String c2 _) =>
            if is_cont lo hi c1 && is_cont 0x80 0xBF c2
            then (Z.land b 0x0F * 4096 + low6 c1 * 64 + low6 c2, 3%nat)
            else (RuneError, 1%nat)
        | Some (4%nat, lo, hi), String c1 (String c2 (String c3 _)) =>
            if is_cont lo hi c1 && is_cont 0x80 0xBF c2 && is_cont 0x80 0xBF c3
            then (Z.land b 0x07 * 262144 + low6 c1 * 4096 + low6 c2 * 64 + low6 c3, 4%nat)
            else (RuneError, 1%nat)
        | _, _ => (RuneError, 1%nat)
        end
  end.

(** [for i, c := range s]: the runes with their byte offsets. *)
Fixpoint range_from (fuel : nat) (i : nat) (s : string) : list (nat * Z) :=
  match fuel, s with
  | S fuel, String _ _ =>
      let '(r, n) := DecodeRune s in (i, r) :: range_from fuel (i + n) (str_drop n s)
  | _, _ => []
  end.

Definition range (s : string) : list (nat * Z) := range_from (String.length s) 0 s.

(** [[]rune(s)]. *)
Definition runes (s : string) : list Z := snd <$> range s.

(** [strings.ContainsRune]: a lead byte always starts a rune of the [range] loop, so the
    substring search of the library finds exactly the runes of the loop. *)
Definition ContainsRune (s : string) (r : Z) : bool := existsb (Z.eqb r) (runes s).

(** [utf8.AppendRune] on nothing: surrogates and out-of-range values become RuneError. *)
Definition EncodeRune (r : Z) : string :=
  let r := if (r <? 0) || (0x10FFFF <? r) || ((0xD800 <=? r) && (r <=? 0xDFFF))
           then RuneError else r in
  if r <? 0x80 then String (chr r) ""
  else if r <? 0x800 then
    String (chr (0xC0 + r / 64)) (String (chr (0x80 + r mod 64)) "")
  else if r <? 0x10000 then
    String (chr (0xE0 + r / 4096)) (String (chr (0x80 + r / 64 mod 64))
      (String (chr (0x80 + r mod 64)) ""))
  else
    String (chr (0xF0 + r / 262144)) (String (chr (0x80 + r / 4096 mod 64))
      (String (chr (0x80 + r / 64 mod 64)) (String (chr (0x80 + r mod 64)) ""))).

(** [unicode.IsSpace] *)
Definition IsSpace (r : Z) : bool :=
  ((9 <=? r) && (r <=? 13)) || (r =? 32) || (r =? 0x85) || (r =? 0xA0) || (r =? 0x1680) ||
  ((0x2000 <=? r) && (r <=? 0x200A)) || (r =? 0x2028) || (r =? 0x2029) || (r =? 0x202F) ||
  (r =? 0x205F) || (r =? 0x3000).

(** [strings.Fields]: the maximal runs of runes that are not spaces. *)
Fixpoint fields_from (fuel : nat) (cur s : string) : list string :=
  match fuel, s with
  | S fuel, String _ _ =>
      let '(r, n) := DecodeRune s in
      if IsSpace r then
        (if cur =s? "" then [] else [cur]) ++ fields_from fuel "" (str_drop n s)
      else fields_from fuel (cur +:+ str_take n s) (str_drop n s)
  | _, _ => if cur =s? "" then [] else [cur]
  end.

Definition Fields (s : string) : list string := fields_from (String.length s) "" s.

(** [strings.TrimSpace]: the runes that are not spaces at both ends. *)
Fixpoint trim_left (fuel : nat) (s : string) : string :=
  match fuel, s with
  | S fuel, String _ _ =>
      let '(r, n) := DecodeRune s in if IsSpace r then trim_left fuel (str_drop n s) else s
  | _, _ => s
  end.

(** The offset after the last rune that is not a space. *)
Fixpoint trim_end (fuel : nat) (i keep : nat) (s : string) : nat :=
  match fuel, s with
  | S fuel, String _ _ =>
      let '(r, n) := DecodeRune s in
      trim_end fuel (i + n) (if IsSpace r then keep else (i + n)%nat) (str_drop n s)
  | _, _ => keep
  end.

Definition TrimSpace (s : string) : string :=
  let s := trim_left (String.length s) s in str_take (trim_end (String.length s) 0 0 s) s.

Definition ascii_char (c : ascii) : bool := code c <? 0x80.

(** * Runes *)

Definition isc (r : Z) (c : ascii) : bool := r =? code c.
Definition rune_digit (r : Z) : bool := (48 <=? r) && (r <=? 57).

(** The longest prefix of runes that satisfy [P], and the rest. *)
Fixpoint span (P : Z -> bool) (rs : list Z) : list Z * list Z :=
  match rs with
  | [] => ([], [])
  | r :: t => if P r then let '(w, u) := span P t in (r :: w, u) else ([], rs)
  end.

(** [string(runes)] *)
Definition string_of_runes (rs : list Z) : string := sconcat (EncodeRune <$> rs).


Lemma DecodeRune_ascii c s : ascii_char c = true -> DecodeRune (String c s) = (code c, 1%nat).
Proof. unfold ascii_char, DecodeRune. by intros ->. Qed.

(** A decoded rune is at least one byte wide and within the string. *)
Lemma DecodeRune_width c s :
  (1 <= snd (DecodeRune (String c s)) <= String.length (String c s))%nat.
Proof.
  unfold DecodeRune. generalize (first_byte (code c)), (code c <? 0x80). intros fb b0.
  repeat case_match; cbn [snd String.length]; lia.
Qed.

Lemma range_from_ascii s : forall i,
  str_forall ascii_char s = true ->
  range_from (String.length s) i s = zip (seq i (String.length s)) (code <$> String.list_ascii_of_string s).
Proof.
  induction s as [|c s IH]; intros i; [done|].
  cbn [str_forall]. intros [Hc Hs]%andb_true_iff.
  cbn [String.length range_from]. rewrite DecodeRune_ascii by done.
  cbn [str_drop]. rewrite Nat.add_1_r, IH by done. reflexivity.
Qed.

(** On ASCII text the [range] loop is the byte loop. *)
Lemma range_ascii s :
  str_forall ascii_char s = true ->
  range s = zip (seq 0 (String.length s)) (code <$> String.list_ascii_of_string s).
Proof. apply range_from_ascii. Qed.

(** A word of printable ASCII characters followed by a space is a field. *)
Lemma fields_word w : forall fuel cur s,
  str_forall (fun c => (33 <=? code c) && (code c <=? 126)) w = true ->
  (String.length w <= fuel)%nat ->
  fields_from fuel cur (w +:+ s) = fields_from (fuel - String.length w) (cur +:+ w) s.
Proof.
  induction w as [|c w IH]; intros fuel cur s Hw Hf.
  - rewrite sapp_nil_l, sapp_nil_r. cbn [String.length]. by rewrite Nat.sub_0_r.
  - cbn [str_forall String.length] in *. apply andb_true_iff in Hw as [Hc Hw].
    destruct fuel as [|fuel]; [lia|]. rewrite sapp_cons. cbn [fields_from].
    rewrite DecodeRune_ascii by (unfold ascii_char; lia).
    assert (IsSpace (code c) = false) as -> by (unfold IsSpace; lia).
    cbn [str_take str_drop]. rewrite IH by (done || lia). cbn [Nat.sub].
    by rewrite sapp_assoc.
Qed.

Definition word (s : string) : bool := str_forall (fun c => (33 <=? code c) && (code c <=? 126)) s.

Lemma word_app s t : word s = true -> word t = true -> word (s +:+ t) = true.
Proof.
  unfold word. induction s as [|c s IH]; [done|]. rewrite sapp_cons. cbn [str_forall].
  rewrite !andb_true_iff. intros [H1 H2] Ht. auto.
Qed.

Lemma Fields_one w : word w = true -> w <> "" -> Fields w = [w].
Proof.
  intros Hw Hne. unfold Fields.
  replace (fields_from (String.length w) "" w) with (fields_from (String.length w) "" (w +:+ ""))
    by (by rewrite sapp_nil_r).
  rewrite fields_word by (done || lia). rewrite sapp_nil_l, Nat.sub_diag. cbn [fields_from].
  by rewrite (seqb_ne w "" Hne).
Qed.

Lemma Fields_cons w s : word w = true -> w <> "" -> Fields (w +:+ " " +:+ s) = w :: Fields s.
Proof.
  intros Hw Hne. unfold Fields. rewrite !slength_app.
  rewrite fields_word by (done || lia). rewrite sapp_nil_l.
  replace (String.length w + (String.length " " + String.length s) - String.length w)%nat
    with (S (String.length s)) by (simpl; lia).
  rewrite sapp_cons. cbn [fields_from]. rewrite DecodeRune_ascii by done.
  replace (IsSpace (code " ")) with true by done. rewrite (seqb_ne w "" Hne).
  cbn [str_drop app]. by rewrite sapp_nil_l.
Qed.

(** A line of ASCII text that starts and ends with a word has no space to trim. *)
Lemma trim_end_ascii s : forall fuel i keep t,
  str_forall ascii_char s = true -> (String.length s <= fuel)%nat ->
  exists keep', trim_end fuel i keep (s +:+ t) =
    trim_end (fuel - String.length s) (i + String.length s) keep' t.
Proof.
  induction s as [|c s IH]; intros fuel i keep t Hs Hf.
  - exists keep. cbn [String.length]. by rewrite sapp_nil_l, Nat.sub_0_r, Nat.add_0_r.
  - cbn [str_forall String.length] in *. apply andb_true_iff in Hs as [Hc Hs].
    destruct fuel as [|fuel]; [lia|]. rewrite sapp_cons. cbn [trim_end].
    rewrite DecodeRune_ascii by done. cbn [str_drop].
    destruct (IH fuel (i + 1)%nat (if IsSpace (code c) then keep else (i + 1)%nat) t Hs ltac:(lia))
      as [k ->]. exists k. cbn [Nat.sub]. f_equal. lia.
Qed.

Lemma trim_end_word w : forall fuel i keep,
  word w = true -> w <> "" -> (String.length w <= fuel)%nat ->
  trim_end fuel i keep w = (i + String.length w)%nat.
Proof.
  induction w as [|c w IH]; intros fuel i keep Hw Hne Hf; [done|].
  unfold word in *. cbn [str_forall String.length] in *. apply andb_true_iff in Hw as [Hc Hw].
  destruct fuel as [|fuel]; [lia|]. cbn [trim_end].
  rewrite DecodeRune_ascii by (unfold ascii_char; lia).
  assert (IsSpace (code c) = false) as -> by (unfold IsSpace; lia). cbn [str_drop].
  destruct w as [|d w].
  - destruct fuel; simpl; lia.
  - rewrite IH by (done || lia). simpl. lia.
Qed.

Lemma str_take_length s : str_take (String.length s) s = s.
Proof. rewrite <- (sapp_nil_r s) at 2. apply str_take_exact. Qed.

Lemma TrimSpace_words c v s w :
  (33 <=? code c) && (code c <=? 126) = true -> str_forall ascii_char s = true ->
  word w = true -> w <> "" -> v = String c s +:+ w -> TrimSpace v = v.
Proof.
  intros Hc Hs Hw Hne ->. unfold TrimSpace.
  assert (ascii_char c = true) as Ha by (unfold ascii_char; lia).
  assert (trim_left (String.length (String c s +:+ w)) (String c s +:+ w) = String c s +:+ w) as ->.
  { rewrite sapp_cons. cbn [String.length trim_left]. rewrite DecodeRune_ascii by done.
    by assert (IsSpace (code c) = false) as -> by (unfold IsSpace; lia). }
  destruct (trim_end_ascii (String c s) (String.length (String c s +:+ w)) 0 0 w) as [k E].
  - cbn [str_forall]. by rewrite Ha.
  - rewrite slength_app. lia.
  - rewrite E, trim_end_word by (done || rewrite slength_app; lia).
    rewrite Nat.add_0_l, <- slength_app. apply str_take_length.
Qed.

Lemma TrimSpace_word w : word w = true -> w <> "" -> TrimSpace w = w.
Proof.
  intros Hw Hne. unfold TrimSpace. destruct w as [|c w]; [done|].
  assert (trim_left (String.length (String c w)) (String c w) = String c w) as ->.
  { unfold word in Hw. cbn [str_forall] in Hw. apply andb_true_iff in Hw as [Hc _].
    cbn [String.length trim_left]. rewrite DecodeRune_ascii by (unfold ascii_char; lia).
    by assert (IsSpace (code c) = false) as -> by (unfold IsSpace; lia). }
  rewrite trim_end_word by done. apply str_take_length.
Qed.

Lemma length_list_ascii s : length (String.list_ascii_of_string s) = String.length s.
Proof. induction s; simpl; auto. Qed.

Lemma runes_ascii s :
  str_forall ascii_char s = true -> runes s = code <$> String.list_ascii_of_string s.
Proof.
  intros H. unfold runes. rewrite range_ascii by done.
  rewrite snd_zip; [done|]. rewrite length_fmap, length_seq, length_list_ascii. done.
Qed.

Lemma ascii_runes_string s : str_forall ascii_char s = true -> string_of_runes (runes s) = s.
Proof.
  intros H. rewrite runes_ascii by done. unfold string_of_runes.
  induction s as [|c s IH]; [done|]. cbn [str_forall] in H. apply andb_true_iff in H as [Hc Hs].
  cbn [String.list_ascii_of_string]. rewrite !fmap_cons. unfold sconcat in *. cbn [foldr]. rewrite IH by done.
  assert (EncodeRune (code c) = String c "") as ->.
  { unfold EncodeRune, ascii_char in *. pose proof (code_bound c).
    replace ((code c <? 0) || _ || _) with false by lia. by rewrite Hc, chr_code. }
  by rewrite sapp_cons, sapp_nil_l.
Qed.

Lemma runes_app s t : str_forall ascii_char s = true -> str_forall ascii_char t = true ->
  runes (s +:+ t) = runes s ++ runes t.
Proof.
  intros Hs Ht. rewrite !runes_ascii by (rewrite ?str_forall_app, ?Hs, ?Ht; done). rewrite <- fmap_app. f_equal.
  clear. induction s as [|c s IH]; [done|]. rewrite sapp_cons. simpl. by rewrite IH.
Qed.

(** ** Spans *)

Lemma span_suffix P rs : snd (span P rs) `suffix_of` rs.
Proof.
  induction rs as [|r rs IH]; simpl; [done|]. destruct (P r); [|done].
  destruct (span P rs). simpl in *. auto using suffix_cons_r.
Qed.
