(* ===== verification/Scanner.v ===== *)
(** [bufio.Scanner] with its default split function, as the utilities read text with it. *)

From S2P Require Import Prelude.

Local Open Scope Z_scope.

Definition nl : string := String "010" "".

(** The text of a list of lines. *)
Definition text_of_lines (ls : list string) : string := sconcat ((fun l => l +:+ nl) <$> ls).

(** [bufio.ScanLines]: a line loses its newline and one carriage return; there is no empty last
    line.  [cur] is the line read so far. *)
Definition drop_cr (l : string) : string :=
  match String.length l with
  | O => l
  | S k => if str_drop k l =s? String "013" "" then str_take k l else l
  end.

Fixpoint raw_lines (cur s : string) : list string :=
  match s with
  | "" => if cur =s? "" then [] else [cur]
  | String c s =>
      if code c =? 10 then cur :: raw_lines "" s else raw_lines (cur +:+ String c "") s
  end.

(** The lines that fit the buffer of 64 KiB with their newline, up to the first that does not. *)
Fixpoint fitting (ls : list string) : list string * bool :=
  match ls with
  | [] => ([], false)
  | l :: ls =>
      if Z.of_nat (String.length l) <? 65536 then
        let '(r, e) := fitting ls in (l :: r, e)
      else ([], true)
  end.

(** The lines that [Scan] and [Text] deliver, and whether [Err] is then "token too long". *)
Definition scan (data : string) : list string * bool :=
  let '(ls, e) := fitting (raw_lines "" data) in (drop_cr <$> ls, e).

(** * Lemmas *)

Definition no_nl (s : string) : bool := str_forall (fun c => negb (code c =? 10)) s.

(** A line that the scanner hands over unchanged. *)
Definition safe_line (l : string) : Prop :=
  no_nl l = true /\ drop_cr l = l /\ Z.of_nat (String.length l) < 65536.

Lemma raw_lines_line l : forall cur rest,
  no_nl l = true -> raw_lines cur (l +:+ nl +:+ rest) = (cur +:+ l) :: raw_lines "" rest.
Proof.
  induction l as [|c l IH]; intros cur rest Hl.
  - by rewrite sapp_nil_l, sapp_nil_r.
  - unfold no_nl in *. cbn [str_forall] in Hl. apply andb_true_iff in Hl as [Hc Hl].
    apply negb_true_iff in Hc. rewrite sapp_cons. cbn [raw_lines]. rewrite Hc, (IH _ _ Hl).
    by rewrite sapp_assoc.
Qed.

Lemma text_cons l ls : text_of_lines (l :: ls) = l +:+ nl +:+ text_of_lines ls.
Proof. unfold text_of_lines. rewrite fmap_cons. cbn [sconcat foldr]. by rewrite sapp_assoc. Qed.

Lemma raw_lines_text ls : Forall (fun l => no_nl l = true) ls -> raw_lines "" (text_of_lines ls) = ls.
Proof.
  induction 1 as [|l ls Hl Hls IH]; [done|].
  rewrite text_cons, raw_lines_line by done. by rewrite sapp_nil_l, IH.
Qed.

(** Scanning the text of safe lines gives the lines. *)
Lemma scan_text ls : Forall safe_line ls -> scan (text_of_lines ls) = (ls, false).
Proof.
  intros H. unfold scan.
  rewrite raw_lines_text by (eapply Forall_impl; [exact H|]; by intros l (? & _)).
  assert (fitting ls = (ls, false)) as ->.
  { induction H as [|l ls (_ & _ & Hl) H IH]; [done|]. simpl.
    rewrite (proj2 (Z.ltb_lt _ _) Hl). by rewrite IH. }
  f_equal. rewrite <- (list_fmap_id ls) at 2. apply list_fmap_ext.
  intros i l Hl. rewrite Forall_lookup in H. apply (H _ _ Hl).
Qed.

(** Words without control characters are safe. *)
Lemma printable_safe l :
  str_forall (fun c => 32 <=? code c) l = true -> Z.of_nat (String.length l) < 65536 -> safe_line l.
Proof.
  intros Hp Hl. split; [|split; [|done]].
  - eapply str_forall_impl; [|exact Hp]. intros c. simpl. lia.
  - unfold drop_cr. destruct (String.length l) as [|k] eqn:E; [done|].
    destruct (seqb_spec (str_drop k l) (String "013" "")) as [E'|]; [|done]. exfalso.
    assert (str_forall (fun c => 32 <=? code c) (str_drop k l) = true) as H.
    { clear -Hp. revert l Hp. induction k as [|k IH]; intros [|c l]; simpl; auto.
      rewrite andb_true_iff. intros [_ H]. auto. }
    rewrite E' in H. done.
Qed.
