(* ===== verification/Cursor.v ===== *)
(** The token cursor shared by the expression parsers: pkg/common/cursor.go. *)

From S2P Require Import Prelude.

Record TokenCursor := { tokens : list string; pos : nat }.

Definition NewTokenCursor (ts : list string) : TokenCursor := {| tokens := ts; pos := 0 |}.

Definition Peek (c : TokenCursor) : string :=
  if length (tokens c) <=? pos c then "" else default "" (tokens c !! pos c).

Definition Next (c : TokenCursor) : string * TokenCursor :=
  (Peek c, {| tokens := tokens c; pos := S (pos c) |}).

Definition Done (c : TokenCursor) : bool := length (tokens c) <=? pos c.

(** Offsets may be negative. *)
Definition Lookahead (n : Z) (c : TokenCursor) : string :=
  let i := (Z.of_nat (pos c) + n)%Z in
  if ((i <? 0) || (Z.of_nat (length (tokens c)) <=? i))%Z then ""
  else default "" (tokens c !! Z.to_nat i).

Definition Has (n : Z) (c : TokenCursor) : bool :=
  let i := (Z.of_nat (pos c) + n)%Z in
  ((0 <=? i) && (i <? Z.of_nat (length (tokens c))))%Z.

(** The cursor after [Next]. *)
Definition advance (c : TokenCursor) : TokenCursor := snd (Next c).

(** * Lemmas: a cursor is the list of the tokens that are left *)

Definition rest_of (c : TokenCursor) : list string := drop (pos c) (tokens c).

Definition remaining (c : TokenCursor) : nat := length (rest_of c).

Fixpoint adv (n : nat) (c : TokenCursor) : TokenCursor :=
  match n with O => c | S n => adv n (advance c) end.

Lemma adv_add n m c : adv (n + m) c = adv m (adv n c).
Proof. revert c. induction n; simpl; auto. Qed.

Lemma adv_app {A} (l k : list A) c : adv (length (l ++ k)) c = adv (length k) (adv (length l) c).
Proof. by rewrite length_app, adv_add. Qed.

Lemma Peek_rest c : Peek c = default "" (head (rest_of c)).
Proof.
  unfold Peek, rest_of. destruct (Nat.leb_spec (length (tokens c)) (pos c)).
  - by rewrite drop_ge.
  - destruct (lookup_lt_is_Some_2 (tokens c) (pos c)) as [t Ht]; [lia|].
    rewrite Ht. by rewrite (drop_S _ _ _ Ht).
Qed.

Lemma Done_rest c : Done c = true <-> rest_of c = [].
Proof.
  unfold Done, rest_of. rewrite Nat.leb_le. split; [apply drop_ge|].
  intros E. apply (f_equal length) in E. rewrite length_drop in E. simpl in E. lia.
Qed.

Lemma rest_advance c : rest_of (advance c) = tail (rest_of c).
Proof.
  unfold rest_of, advance. simpl. destruct (tokens c !! pos c) as [t|] eqn:E.
  - by rewrite (drop_S _ _ _ E).
  - apply lookup_ge_None_1 in E. rewrite !drop_ge by lia. done.
Qed.

Lemma rest_advance_cons c t l : rest_of c = t :: l -> rest_of (advance c) = l.
Proof. rewrite rest_advance. by intros ->. Qed.

Lemma Peek_cons c t l : rest_of c = t :: l -> Peek c = t.
Proof. rewrite Peek_rest. by intros ->. Qed.

Lemma rest_adv n c : rest_of (adv n c) = drop n (rest_of c).
Proof.
  revert c. induction n as [|n IH]; intros c; simpl; [by rewrite drop_0|].
  rewrite IH, rest_advance. destruct (rest_of c); simpl; [by rewrite drop_nil|done].
Qed.

Lemma rest_adv_app c l k : rest_of c = l ++ k -> rest_of (adv (length l) c) = k.
Proof. rewrite rest_adv. intros ->. by rewrite drop_app_length. Qed.

Lemma Peek_nonempty c t : Peek c = t -> t <> "" -> exists l, rest_of c = t :: l.
Proof. rewrite Peek_rest. destruct (rest_of c) as [|u l]; simpl; intros; subst; [done|by exists l]. Qed.

Lemma rest_New ts : rest_of (NewTokenCursor ts) = ts.
Proof. unfold rest_of. simpl. by rewrite drop_0. Qed.

Lemma remaining_adv n c : remaining (adv n c) <= remaining c.
Proof. unfold remaining. rewrite rest_adv, length_drop. lia. Qed.

Lemma remaining_advance c : Peek c <> "" -> remaining c = S (remaining (advance c)).
Proof.
  intros H. destruct (Peek_nonempty c _ eq_refl H) as [l E].
  unfold remaining. by rewrite rest_advance, E.
Qed.

#[export] Hint Resolve rest_advance_cons Peek_cons rest_adv_app : goposix.
