(* ===== verification/Expr.v ===== *)
(** The expr utility: pkg/expr/expr.go.

    A Go parser method that returns (string, error) and moves the cursor is a function from a
    cursor to a result with the cursor after it.  [Panic] is a Go run-time panic.  The regular
    expression engine is a parameter. *)

From S2P Require Import Prelude GoStd Utf8 Cursor Output.

Inductive expr_error :=
| MissingOperand
| Unexpected (tok : string)
| NonInteger
| DivisionByZero
| SyntaxError
| ExpectedParen
| UnexpectedEnd
| InvalidRegex
| Panic
| OutOfFuel.

Abbreviation parser := (TokenCursor -> result expr_error (string * TokenCursor)).

(** * Values *)

Definition is_null (s : string) : bool := (s =s? "") || (s =s? "0").

Definition exitCode (r : string) : Z := if is_null r then 1 else 0.

Definition bool_str (b : bool) : string := if b then "1" else "0".

Definition int_cmp (op : string) (a b : Z) : bool :=
  (if op =s? "=" then a =? b
   else if op =s? "!=" then negb (a =? b)
   else if op =s? "<" then a <? b
   else if op =s? "<=" then a <=? b
   else if op =s? ">" then b <? a
   else if op =s? ">=" then b <=? a
   else false)%Z.

(** The result of [strings.Compare] as an integer. *)
Definition compare_int (s t : string) : Z :=
  match Compare s t with Eq => 0 | Lt => -1 | Gt => 1 end.

Definition cmpResult (left op right : string) : string :=
  match ParseInt left, ParseInt right with
  | Some ln, Some rn => bool_str (int_cmp op ln rn)
  | _, _ => bool_str (int_cmp op (compare_int left right) 0)
  end.

Definition addResult (left op right : string) : result expr_error string :=
  match ParseInt left, ParseInt right with
  | Some ln, Some rn =>
      Ok (if op =s? "+" then FormatInt (wrap 64 (ln + rn)) else FormatInt (wrap 64 (ln - rn)))
  | _, _ => Err NonInteger
  end.

(** Division truncates and wraps around. *)
Definition mulResult (left op right : string) : result expr_error string :=
  match ParseInt left, ParseInt right with
  | Some ln, Some rn =>
      if op =s? "*" then Ok (FormatInt (wrap 64 (ln * rn)))
      else if (rn =? 0)%Z then Err DivisionByZero
      else if op =s? "/" then Ok (FormatInt (wrap 64 (Z.quot ln rn)))
      else Ok (FormatInt (wrap 64 (Z.rem ln rn)))
  | _, _ => Err NonInteger
  end.

(** [str[start:end]] with the index arithmetic of the source; a slice out of order panics. *)
Definition substrStr (str posStr lenStr : string) : result expr_error string :=
  match Atoi posStr with
  | None => Err NonInteger
  | Some p =>
      match Atoi lenStr with
      | None => Err NonInteger
      | Some l =>
          let p := if (p <? 1)%Z then 1%Z else p in
          let start := (p - 1)%Z in
          let n := Z.of_nat (String.length str) in
          if (n <=? start)%Z then Ok ""
          else
            let stop := wrap 64 (start + l) in
            let stop := if (n <? stop)%Z then n else stop in
            if (stop <? start)%Z then Err Panic
            else Ok (str_take (Z.to_nat (stop - start)) (str_drop (Z.to_nat start) str))
      end
  end.

Definition indexStr (str chars : string) : string :=
  match list_find (fun ic => ContainsRune chars (snd ic) = true) (range str) with
  | Some (_, (i, _)) => FormatInt (Z.of_nat i + 1)
  | None => "0"
  end.

Section Expr.
(** [regexp.Compile] followed by [FindStringSubmatch]: the outer [None] is a compile error,
    the inner one no match; a match is the whole match and the groups. *)
Variable regexp : string -> option (string -> option (string * list string)).

Definition matchStr (str pattern : string) : result expr_error string :=
  let pattern := if HasPrefix pattern "^" then pattern else "^" +:+ pattern in
  match regexp pattern with
  | None => Err InvalidRegex
  | Some find =>
      match find str with
      | None => Ok (if existsb (Ascii.eqb "(") (String.list_ascii_of_string pattern) then "" else "0")
      | Some (_, g :: _) => Ok g
      | Some (m0, []) => Ok (FormatInt (Z.of_nat (String.length m0)))
      end
  end.

(** * The parser *)

Inductive level := LOr | LAnd | LCmp | LAdd | LMul.

(** The operators of the loop of each level. *)
Definition isop (l : level) (op : string) : bool :=
  match l with
  | LOr => op =s? "|"
  | LAnd => op =s? "&"
  | LCmp =>
      (op =s? "=") || (op =s? "!=") || (op =s? "<") || (op =s? "<=") || (op =s? ">") ||
      (op =s? ">=")
  | LAdd => (op =s? "+") || (op =s? "-")
  | LMul => (op =s? "*") || (op =s? "/") || (op =s? "%")
  end.

(** The bodies of the loops, after both operands are known. *)
Definition apply_op (l : level) (left op right : string) : result expr_error string :=
  match l with
  | LOr => Ok (if negb (left =s? "") && negb (left =s? "0") then left else right)
  | LAnd => Ok (if is_null left || is_null right then "0" else left)
  | LCmp => Ok (cmpResult left op right)
  | LAdd => addResult left op right
  | LMul => mulResult left op right
  end.

(** The [for] loop that parseOr, parseAnd, parseCmp, parseAdd and parseMul have in common. *)
Fixpoint binary_loop (l : level) (operand : parser) (fuel : nat) (left : string)
    (c : TokenCursor) : result expr_error (string * TokenCursor) :=
  match fuel with
  | O => Err OutOfFuel
  | S fuel =>
      if isop l (Peek c) then
        let '(op, c) := Next c in
        let? '(rhs, c) := operand c in
        let? left := apply_op l left op rhs in
        binary_loop l operand fuel left c
      else Ok (left, c)
  end.

Definition parse_binary (l : level) (operand : parser) : parser := fun c =>
  let? '(lhs, c) := operand c in
  binary_loop l operand (S (remaining c)) lhs c.

Section Levels.
Variable parsePrimary : parser.

Definition parseUnary : parser := fun c =>
  let tok := Peek c in
  if tok =s? "match" then
    let? '(str, c) := parsePrimary (advance c) in
    let? '(pat, c) := parsePrimary c in
    let? r := matchStr str pat in Ok (r, c)
  else if tok =s? "substr" then
    let? '(str, c) := parsePrimary (advance c) in
    let? '(posStr, c) := parsePrimary c in
    let? '(lenStr, c) := parsePrimary c in
    let? r := substrStr str posStr lenStr in Ok (r, c)
  else if tok =s? "index" then
    let? '(str, c) := parsePrimary (advance c) in
    let? '(chars, c) := parsePrimary c in
    Ok (indexStr str chars, c)
  else if tok =s? "length" then
    let c := advance c in
    if Done c || (Peek c =s? ")") || (Peek c =s? "|") || (Peek c =s? "&") then Err SyntaxError
    else
      let? '(str, c) := parsePrimary c in
      Ok (FormatInt (Z.of_nat (String.length str)), c)
  else parsePrimary c.

Definition parseMul : parser := parse_binary LMul parseUnary.
Definition parseAdd : parser := parse_binary LAdd parseMul.
Definition parseCmp : parser := parse_binary LCmp parseAdd.
Definition parseAnd : parser := parse_binary LAnd parseCmp.
Definition parseOr : parser := parse_binary LOr parseAnd.
End Levels.

(** The fuel is the nesting depth of parentheses and ':' operators. *)
Fixpoint parsePrimary (fuel : nat) : parser := fun c =>
  match fuel with
  | O => Err OutOfFuel
  | S fuel =>
      let tok := Peek c in
      if tok =s? "(" then
        let? '(r, c) := parseOr (parsePrimary fuel) (advance c) in
        if negb (Peek c =s? ")") then Err ExpectedParen else Ok (r, advance c)
      else if tok =s? "" then Err UnexpectedEnd
      else
        let c := advance c in
        if Peek c =s? ":" then
          let? '(pat, c) := parsePrimary fuel (advance c) in
          let? r := matchStr tok pat in Ok (r, c)
        else Ok (tok, c)
  end.

Definition Eval (ts : list string) : result expr_error (string * Z) :=
  match ts with
  | [] => Err MissingOperand
  | _ =>
      let? '(r, c) := parseOr (parsePrimary (S (length ts))) (NewTokenCursor ts) in
      if negb (Done c) then Err (Unexpected (Peek c)) else Ok (r, exitCode r)
  end.

(** [run]: [None] is a crash; [errText] is the text of the error value. *)
Record ExprResult := { Result : string; ResExitCode : Z }.

Definition run (errText : expr_error -> string) (args : list string) : option (run_io ExprResult) :=
  let jsonMode := existsb (fun a => a =s? "--json") args in
  let posArgs := List.filter (fun a => negb (a =s? "--json")) args in
  match Eval posArgs with
  | Err Panic => None
  | Err e =>
      Some {| rc := 2; out := RenderError "expr" 2 "SYNTAX" (errText e) jsonMode;
              errs := if jsonMode then [] else [line ("expr: " +:+ errText e)] |}
  | Ok (r, code) =>
      Some {| rc := code;
              out := Render "expr" {| Result := r; ResExitCode := code |} jsonMode [line r];
              errs := [] |}
  end.
End Expr.

(** * The grammar

    The grammar of the header comment of expr.go as syntax trees: [etoks] prints a tree, [wf n]
    says that a tree may stand where the grammar asks for level [n] (0 is or, 4 is mul, 5 is
    unary and 6 is primary), and [sem] is its value. *)

Inductive expr :=
| Atom (t : string)
| Colon (t : string) (e : expr)
| Paren (e : expr)
| EMatch (e1 e2 : expr)
| ESubstr (e1 e2 e3 : expr)
| EIndex (e1 e2 : expr)
| ELength (e : expr)
| Bin (l : level) (op : string) (e1 e2 : expr).

Definition lvl (l : level) : nat :=
  match l with LOr => 0 | LAnd => 1 | LCmp => 2 | LAdd => 3 | LMul => 4 end.

Fixpoint etoks (e : expr) : list string :=
  match e with
  | Atom t => [t]
  | Colon t e => t :: ":" :: etoks e
  | Paren e => "(" :: etoks e ++ [")"]
  | EMatch a b => "match" :: etoks a ++ etoks b
  | ESubstr a b d => "substr" :: etoks a ++ etoks b ++ etoks d
  | EIndex a b => "index" :: etoks a ++ etoks b
  | ELength a => "length" :: etoks a
  | Bin _ op a b => etoks a ++ op :: etoks b
  end.

Definition ehead (e : expr) : string := default "" (head (etoks e)).

(** The last token of the tree is a closing parenthesis of the grammar, not an atom. *)
Fixpoint ends_paren (e : expr) : bool :=
  match e with
  | Atom _ => false
  | Colon _ e | ELength e | EMatch _ e | EIndex _ e | ESubstr _ _ e | Bin _ _ _ e => ends_paren e
  | Paren _ => true
  end.

Definition keywords : list string := ["match"; "substr"; "index"; "length"].

Definition is_atom (t : string) : bool := negb (t =s? "") && negb (t =s? "(").

(** A token that is not a keyword where one would be read as such. *)
Definition unary_start (n : nat) (t : string) : bool :=
  (6 <=? n) || negb (existsb (String.eqb t) keywords).

(** ':' binds to an atom on its left. *)
Definition sep (a b : expr) : bool := ends_paren a || negb (ehead b =s? ":").

Fixpoint wf (n : nat) (e : expr) : bool :=
  match e with
  | Atom t => is_atom t && unary_start n t
  | Colon t e => is_atom t && unary_start n t && wf 6 e
  | Paren e => wf 0 e
  | EMatch a b => (n <=? 5) && wf 6 a && wf 6 b && sep a b
  | ESubstr a b d => (n <=? 5) && wf 6 a && wf 6 b && wf 6 d && sep a b && sep b d
  | EIndex a b => (n <=? 5) && wf 6 a && wf 6 b && sep a b
  | ELength a => (n <=? 5) && wf 6 a && negb (existsb (String.eqb (ehead a)) [")"; "|"; "&"])
  | Bin l op a b => (n <=? lvl l) && isop l op && wf (lvl l) a && wf (S (lvl l)) b
  end.

Section Semantics.
Variable regexp : string -> option (string -> option (string * list string)).

Fixpoint sem (e : expr) : result expr_error string :=
  match e with
  | Atom t => Ok t
  | Colon t e => let? p := sem e in matchStr regexp t p
  | Paren e => sem e
  | EMatch a b => let? s := sem a in let? p := sem b in matchStr regexp s p
  | ESubstr a b d =>
      let? s := sem a in let? p := sem b in let? l := sem d in substrStr s p l
  | EIndex a b => let? s := sem a in let? t := sem b in Ok (indexStr s t)
  | ELength a => let? s := sem a in Ok (FormatInt (Z.of_nat (String.length s)))
  | Bin l op a b => let? x := sem a in let? y := sem b in apply_op l x op y
  end.
End Semantics.

(** * Lemmas *)

Definition hd (l : list string) : string := default "" (head l).

Lemma Peek_hd c : Peek c = hd (rest_of c).
Proof. apply Peek_rest. Qed.

Lemma etoks_nonempty e : etoks e <> [].
Proof. destruct e; simpl; try done. by destruct (etoks e1). Qed.

Lemma hd_app e rest : hd (etoks e ++ rest) = ehead e.
Proof. pose proof (etoks_nonempty e). unfold hd, ehead. by destruct (etoks e). Qed.

Lemma isop_nonempty l op : isop l op = true -> op <> "".
Proof. intros H ->. by destruct l. Qed.

Lemma isop_not_colon l op : isop l op = true -> op <> ":".
Proof. intros H ->. by destruct l. Qed.

(** An operator belongs to one level only. *)
Lemma isop_unique l l' op : isop l op = true -> lvl l < lvl l' -> isop l' op = false.
Proof.
  destruct l, l'; simpl; try lia; intros H _;
    repeat (apply orb_true_iff in H as [H|H]); apply String.eqb_eq in H as ->; reflexivity.
Qed.

Lemma apply_op_fuel l x op y : apply_op l x op y <> Err OutOfFuel.
Proof. destruct l; simpl; unfold addResult, mulResult; repeat case_match; done. Qed.

Lemma substrStr_fuel s p l : substrStr s p l <> Err OutOfFuel.
Proof. unfold substrStr; repeat case_match; done. Qed.

Lemma wf_weaken n m e : n <= m -> m <= 5 -> wf m e = true -> wf n e = true.
Proof.
  intros Hn Hm. destruct e; cbn [wf]; unfold unary_start; intros H.
  all: repeat match goal with
    | H : _ && _ = true |- _ => apply andb_true_iff in H as [? ?]
    | H : (_ <=? _) = true |- _ => apply Nat.leb_le in H
    end; rewrite ?andb_true_iff, ?orb_true_iff, ?Nat.leb_le; try tauto; try (repeat split; (done || lia)).
  all: destruct (6 <=? m) eqn:E; [apply Nat.leb_le in E; lia|].
  all: simpl in *; tauto.
Qed.

Lemma wf_unary e : wf 6 e = true -> existsb (String.eqb (ehead e)) keywords = false -> wf 5 e = true.
Proof.
  destruct e; cbn [wf]; try discriminate; unfold ehead, unary_start; simpl; intros H Hk; try done.
  - rewrite Hk. by apply andb_true_iff in H as [-> _].
  - rewrite Hk. apply andb_true_iff in H as [H ->]. by apply andb_true_iff in H as [-> _].
  - by rewrite andb_false_r in H || (destruct l; done).
Qed.

(** A tree of level [lvl l] is a binary operation of that level or a tree of the next one. *)
Lemma wf_step l e :
  wf (lvl l) e = true ->
  (exists op a b, e = Bin l op a b) \/ wf (S (lvl l)) e = true.
Proof.
  destruct e as [t|t e|e|a b|a b d|a b|a|l' op a b]; cbn [wf]; unfold unary_start; intros H;
    try (right; by destruct l); try (right; exact H).
  destruct (decide (lvl l' = lvl l)) as [E|E].
  - left. exists op, a, b. f_equal. by destruct l, l'.
  - right. repeat (apply andb_true_iff in H as [H ?]). apply Nat.leb_le in H.
    rewrite !andb_true_iff, Nat.leb_le. repeat split; (done || lia).
Qed.

Section Correctness.
Variable regexp : string -> option (string -> option (string * list string)).

(** ** Soundness: what a parser accepts is a tree of its level with the returned value *)

Definition sound (n : nat) (p : parser) : Prop :=
  forall c v c', p c = Ok (v, c') ->
  exists e, wf n e = true /\ rest_of c = etoks e ++ rest_of c' /\
    c' = adv (length (etoks e)) c /\ sem regexp e = Ok v /\
    (n = 6 -> ends_paren e = false -> Peek c' <> ":").

Lemma matchStr_fuel s p : matchStr regexp s p <> Err OutOfFuel.
Proof. unfold matchStr. repeat case_match; done. Qed.

Lemma sound_adv n p c v c' : sound n p -> p c = Ok (v, c') -> exists k, c' = adv k c.
Proof. intros H E. destruct (H _ _ _ E) as (e & _ & _ & -> & _). eauto. Qed.

(** The tree of two primaries in a row is separated. *)
Lemma sep_intro a b c rest :
  (ends_paren a = false -> Peek c <> ":") -> rest_of c = etoks b ++ rest -> sep a b = true.
Proof.
  intros H Hr. unfold sep. destruct (ends_paren a); [done|]. simpl.
  rewrite Peek_hd, Hr, hd_app in H. apply negb_true_iff, seqb_ne. auto.
Qed.

Lemma binary_loop_sound l operand fuel : forall left c v c' e0 c0,
  sound (S (lvl l)) operand ->
  wf (lvl l) e0 = true -> rest_of c0 = etoks e0 ++ rest_of c -> c = adv (length (etoks e0)) c0 ->
  sem regexp e0 = Ok left ->
  binary_loop l operand fuel left c = Ok (v, c') ->
  exists e, wf (lvl l) e = true /\ rest_of c0 = etoks e ++ rest_of c' /\
    c' = adv (length (etoks e)) c0 /\ sem regexp e = Ok v.
Proof.
  induction fuel as [|fuel IH]; intros lhs c v c' e0 c0 Hop Hwf Hrest Hc Hsem; simpl; [done|].
  destruct (isop l (Peek c)) eqn:Eop; [|intros [= <- <-]; eauto 6].
  intros H. unbind H. destruct a as [rhs c1]. unbind H.
  destruct (Hop _ _ _ Ha) as (e1 & Hw1 & Hr1 & Hc1 & Hs1 & _).
  destruct (Peek_nonempty c _ eq_refl (isop_nonempty _ _ Eop)) as [r Er].
  pose proof (rest_advance_cons _ _ _ Er) as Era. change (snd (Next c)) with (advance c) in *.
  revert H. apply (IH _ _ _ _ (Bin l (Peek c) e0 e1)); [done| | | |].
  - cbn [wf]. rewrite Eop, Hwf, Hw1, Nat.leb_refl. done.
  - simpl. rewrite Hrest, Er, <- app_assoc. f_equal. simpl. f_equal.
    transitivity (rest_of (advance c)); [by symmetry|exact Hr1].
  - simpl. rewrite Hc1, length_app, adv_add. simpl. by rewrite <- Hc.
  - simpl. rewrite Hsem. simpl. rewrite Hs1. simpl. done.
Qed.

Lemma parse_binary_sound l operand :
  sound (S (lvl l)) operand -> sound (lvl l) (parse_binary l operand).
Proof.
  intros Hop c v c' H. unfold parse_binary in H. unbind H. destruct a as [lhs c1].
  destruct (Hop _ _ _ Ha) as (e & Hw & Hr & Hc & Hs & _).
  destruct (binary_loop_sound l operand (S (remaining c1)) lhs c1 v c' e c Hop) as (e' & H1 & H2 & H3 & H4); try done.
  { apply (wf_weaken _ (S (lvl l))); [lia| |done]. destruct l; simpl; lia. }
  exists e'. repeat split; try done. intros E6. exfalso. destruct l; simpl in E6; lia.
Qed.

(** A keyword and its primaries. *)
Lemma kw_one prim k c s c1 :
  sound 6 prim -> Peek c = k -> k <> "" -> prim (advance c) = Ok (s, c1) ->
  exists e1, wf 6 e1 = true /\ rest_of c = k :: etoks e1 ++ rest_of c1 /\
    c1 = adv (S (length (etoks e1))) c /\ sem regexp e1 = Ok s /\
    (ends_paren e1 = false -> Peek c1 <> ":").
Proof.
  intros Hp E Hk Ha. destruct (Peek_nonempty _ _ E Hk) as [r Er].
  apply rest_advance_cons in Er as Era.
  destruct (Hp _ _ _ Ha) as (e1 & W1 & R1 & C1 & S1 & P1).
  exists e1. rewrite Er, <- Era, R1. repeat split; auto.
Qed.

Lemma kw_two prim k c s c1 q c2 :
  sound 6 prim -> Peek c = k -> k <> "" -> prim (advance c) = Ok (s, c1) -> prim c1 = Ok (q, c2) ->
  exists e1 e2, wf 6 e1 = true /\ wf 6 e2 = true /\ sep e1 e2 = true /\
    rest_of c = k :: etoks e1 ++ etoks e2 ++ rest_of c2 /\
    c2 = adv (S (length (etoks e1 ++ etoks e2))) c /\ sem regexp e1 = Ok s /\
    sem regexp e2 = Ok q /\ (ends_paren e2 = false -> Peek c2 <> ":").
Proof.
  intros Hp E Hk Ha Hb. destruct (kw_one _ _ _ _ _ Hp E Hk Ha) as (e1 & W1 & R1 & C1 & S1 & P1).
  destruct (Hp _ _ _ Hb) as (e2 & W2 & R2 & C2 & S2 & P2). exists e1, e2.
  rewrite R1, R2. repeat split; auto.
  - by apply (sep_intro _ _ c1 (rest_of c2)).
  - rewrite C2, C1. cbn [adv]. by rewrite adv_app.
Qed.

Lemma parseUnary_sound prim : sound 6 prim -> sound 5 (parseUnary regexp prim).
Proof.
  intros Hp c v c' H. unfold parseUnary in H.
  destruct (seqb_spec (Peek c) "match") as [E|E1].
  { unbind H. destruct a as [s c1]. unbind H. destruct a as [q c2]. unbind H. injection H as <- <-.
    destruct (kw_two prim _ c s c1 q c2 Hp E) as (e1 & e2 & W1 & W2 & Sp & R & C & S1 & S2 & _); try done.
    exists (EMatch e1 e2). cbn [wf etoks sem]. rewrite W1, W2, Sp, S1. simpl. rewrite S2.
    repeat split; try done. by rewrite R, <- app_assoc. }
  destruct (seqb_spec (Peek c) "substr") as [E|E2].
  { unbind H. destruct a as [s c1]. unbind H. destruct a as [q c2]. unbind H. destruct a as [q' c3].
    unbind H. injection H as <- <-.
    destruct (kw_two prim _ c s c1 q c2 Hp E) as (e1 & e2 & W1 & W2 & Sp & R & C & S1 & S2 & P2); try done.
    destruct (Hp _ _ _ Ha1) as (e3 & W3 & R3 & C3 & S3 & P3).
    exists (ESubstr e1 e2 e3). cbn [wf etoks sem].
    rewrite W1, W2, W3, Sp, (sep_intro e2 e3 c2 (rest_of c3)), S1 by auto.
    simpl. rewrite S2. simpl. rewrite S3. repeat split; try done.
    - by rewrite R, R3, <- !app_assoc.
    - rewrite C3, C. cbn [adv]. by rewrite !adv_app. }
  destruct (seqb_spec (Peek c) "index") as [E|E3].
  { unbind H. destruct a as [s c1]. unbind H. destruct a as [q c2]. injection H as <- <-.
    destruct (kw_two prim _ c s c1 q c2 Hp E) as (e1 & e2 & W1 & W2 & Sp & R & C & S1 & S2 & _); try done.
    exists (EIndex e1 e2). cbn [wf etoks sem]. rewrite W1, W2, Sp, S1. simpl. rewrite S2.
    repeat split; try done. by rewrite R, <- app_assoc. }
  destruct (seqb_spec (Peek c) "length") as [E|E4].
  { destruct (Done _ || _ || _ || _) eqn:Ed; [done|]. unbind H. destruct a as [s c1].
    injection H as <- <-.
    destruct (kw_one prim _ c s c1 Hp E) as (e1 & W1 & R1 & C1 & S1 & _); try done.
    exists (ELength e1). cbn [wf etoks sem]. rewrite W1, S1.
    rewrite Peek_hd, rest_advance, R1 in Ed. cbn [tail] in Ed. rewrite hd_app in Ed.
    rewrite !orb_false_iff in Ed. destruct Ed as [[[_ Hd1] Hd2] Hd3].
    simpl. rewrite Hd1, Hd2, Hd3. repeat split; done. }
  destruct (Hp _ _ _ H) as (e & W & R & C & S & P). exists e. repeat split; try done.
  apply wf_unary; [done|]. rewrite Peek_hd, R, hd_app in E1, E2, E3, E4. simpl.
  by rewrite !seqb_ne.
Qed.

Lemma parseOr_sound prim : sound 6 prim -> sound 0 (parseOr regexp prim).
Proof.
  intros H. apply (parse_binary_sound LOr), (parse_binary_sound LAnd), (parse_binary_sound LCmp),
    (parse_binary_sound LAdd), (parse_binary_sound LMul), parseUnary_sound, H.
Qed.

Lemma parsePrimary_sound fuel : sound 6 (parsePrimary regexp fuel).
Proof.
  induction fuel as [|fuel IH]; intros c v c' H; [done|]. cbn [parsePrimary] in H.
  destruct (seqb_spec (Peek c) "(") as [E|E1].
  { unbind H. destruct a as [r c1]. destruct (seqb_spec (Peek c1) ")") as [Ec|]; [|done].
    injection H as <- <-. destruct (Peek_nonempty _ _ E) as [t Er]; [done|].
    apply rest_advance_cons in Er as Era. destruct (Peek_nonempty _ _ Ec) as [t' Er']; [done|].
    apply rest_advance_cons in Er' as Era'.
    destruct (parseOr_sound _ IH _ _ _ Ha) as (e & W & R & C & S & _).
    exists (Paren e). repeat split; try done.
    - rewrite Er, <- Era, R, Er', Era'. simpl. by rewrite <- app_assoc.
    - cbn [etoks length adv]. by rewrite adv_app, <- C. }
  destruct (seqb_spec (Peek c) "") as [|E2]; [done|].
  destruct (Peek_nonempty c _ eq_refl E2) as [t Er]. apply rest_advance_cons in Er as Era.
  assert (is_atom (Peek c) = true) as Hat by (unfold is_atom; by rewrite !seqb_ne).
  destruct (seqb_spec (Peek (advance c)) ":") as [E|E3].
  - unbind H. destruct a as [q c2]. unbind H. injection H as <- <-.
    destruct (kw_one _ _ _ _ _ IH E ltac:(done) Ha) as (e & W & R & C & S & P).
    exists (Colon (Peek c) e). cbn [wf etoks sem ends_paren]. rewrite Hat, W, S.
    repeat split; try done. by rewrite Er, <- Era, R.
  - injection H as <- <-. exists (Atom (Peek c)). cbn [wf]. rewrite Hat.
    repeat split; try done. by rewrite Er, Era.
Qed.

(** ** Completeness: a parser reads every tree of its level, with its value or its error *)

Definition completes (f n : nat) (p : parser) : Prop :=
  forall e c rest, wf n e = true -> rest_of c = etoks e ++ rest -> remaining c < f ->
  (ends_paren e = false -> hd rest <> ":") ->
  (forall l, n <= lvl l -> isop l (hd rest) = false) ->
  p c = (let? v := sem regexp e in Ok (v, adv (length (etoks e)) c)).

Definition fueled (f : nat) (p : parser) : Prop :=
  forall c, remaining c < f -> p c <> Err OutOfFuel.

(** The loop does not depend on its fuel. *)
Lemma binary_loop_fuel n l operand : sound n operand -> forall f1 f2 lhs c,
  remaining c < f1 -> remaining c < f2 ->
  binary_loop l operand f1 lhs c = binary_loop l operand f2 lhs c.
Proof.
  intros Hs f1. induction f1 as [|f1 IH]; intros [|f2] lhs c H1 H2; try lia. simpl.
  destruct (isop l (Peek c)) eqn:Eop; [|done].
  change (snd (Next c)) with (advance c).
  pose proof (remaining_advance c (isop_nonempty _ _ Eop)) as Hr.
  destruct (operand _) as [[rhs c1]|] eqn:E; [|done]. simpl.
  destruct (apply_op l lhs (Peek c) rhs) as [v|]; [|done]. simpl.
  destruct (sound_adv _ _ _ _ _ Hs E) as [k ->]. pose proof (remaining_adv k (advance c)).
  unfold advance in *. simpl in *. apply IH; lia.
Qed.

Lemma parse_binary_steps f l operand :
  sound (S (lvl l)) operand -> completes f (S (lvl l)) operand ->
  forall e c rest, wf (lvl l) e = true -> rest_of c = etoks e ++ rest -> remaining c < f ->
  (ends_paren e = false -> hd rest <> ":") ->
  (forall l', lvl l < lvl l' -> isop l' (hd rest) = false) ->
  parse_binary l operand c =
    (let? v := sem regexp e in
     binary_loop l operand (S (length rest)) v (adv (length (etoks e)) c)).
Proof.
  intros Hs Hop.
  assert (forall e c rest, wf (S (lvl l)) e = true -> rest_of c = etoks e ++ rest ->
    remaining c < f -> (ends_paren e = false -> hd rest <> ":") ->
    (forall l', lvl l < lvl l' -> isop l' (hd rest) = false) ->
    parse_binary l operand c =
      (let? v := sem regexp e in
       binary_loop l operand (S (length rest)) v (adv (length (etoks e)) c))) as Hleaf.
  { intros e c rest Hw Hr Hf Hcol Hops. unfold parse_binary.
    rewrite (Hop _ c rest Hw Hr Hf Hcol Hops). destruct (sem regexp e) as [v|]; [|done].
    cbn [res_bind]. unfold remaining. by rewrite (rest_adv_app _ _ _ Hr). }
  intros e. induction e; intros c rest Hw Hr Hf Hcol Hops;
    destruct (wf_step l _ Hw) as [(op' & a & b & Eb)|Hw']; try discriminate Eb;
    try (by apply Hleaf).
  injection Eb as -> -> -> ->. cbn [wf] in Hw. repeat (apply andb_true_iff in Hw as [Hw ?]).
  cbn [etoks] in Hr. rewrite <- app_assoc in Hr. cbn [app] in Hr.
  rewrite (IHe1 c (op' :: etoks b ++ rest)); [|done|done|done| |].
  2: { intros _. by apply (isop_not_colon l). }
  2: { intros l' Hl. by apply (isop_unique l). }
  cbn [sem]. destruct (sem regexp a) as [va|] eqn:Ea; [|done]. cbn [res_bind].
  set (c1 := adv (length (etoks a)) c) in *.
  pose proof (rest_adv_app _ _ _ Hr) as Hr1. fold c1 in Hr1.
  assert (remaining c1 <= remaining c) as Hle by apply remaining_adv.
  pose proof (rest_advance_cons _ _ _ Hr1) as Hr2.
  set (n := S (length rest)).
  cbn [binary_loop]. rewrite (Peek_cons _ _ _ Hr1), H1. unfold Next.
  change {| tokens := tokens c1; pos := S (pos c1) |} with (advance c1).
  rewrite (Hop b (advance c1) rest); [|done|done| |done|done].
  2: { unfold remaining in *. rewrite Hr2. rewrite Hr1 in Hle. simpl in Hle. lia. }
  rewrite (Peek_cons _ _ _ Hr1).
  destruct (sem regexp b) as [vb|]; [|done]. cbn [res_bind].
  destruct (apply_op l va op' vb) as [v|]; [|done]. cbn [res_bind etoks].
  rewrite adv_app. fold c1. cbn [length adv].
  apply (binary_loop_fuel (S (lvl l)) l operand Hs); unfold remaining, n;
    rewrite (rest_adv_app _ _ _ Hr2); [rewrite length_app|]; lia.
Qed.

Lemma parse_binary_completes f l operand :
  sound (S (lvl l)) operand -> completes f (S (lvl l)) operand ->
  completes f (lvl l) (parse_binary l operand).
Proof.
  intros Hs Hop e c rest Hw Hr Hf Hcol Hops.
  rewrite (parse_binary_steps f l operand Hs Hop e c rest); try done;
    [|intros l' Hl; apply Hops; lia].
  destruct (sem regexp e) as [v|]; [|done]. simpl.
  rewrite Peek_hd, (rest_adv_app _ _ _ Hr), Hops by lia. done.
Qed.

Lemma sep_hd a b rest : sep a b = true -> ends_paren a = false -> hd (etoks b ++ rest) <> ":".
Proof.
  unfold sep. intros H E. rewrite E in H. rewrite hd_app. simpl in H.
  apply negb_true_iff, String.eqb_neq in H. done.
Qed.

(** A primary in the middle of an expression. *)
Lemma primary_step f prim a c rest :
  completes f 6 prim -> wf 6 a = true -> rest_of c = etoks a ++ rest -> remaining c < f ->
  (ends_paren a = false -> hd rest <> ":") ->
  prim c = (let? v := sem regexp a in Ok (v, adv (length (etoks a)) c)) /\
  rest_of (adv (length (etoks a)) c) = rest /\ remaining (adv (length (etoks a)) c) < f.
Proof.
  intros Hp Hw Hr Hf Hc. split; [|split; [by apply rest_adv_app|]].
  - apply (Hp _ _ rest); try done. intros [] Hl; simpl in Hl; lia.
  - pose proof (remaining_adv (length (etoks a)) c). lia.
Qed.

Lemma parseUnary_primary prim c :
  existsb (String.eqb (Peek c)) keywords = false -> parseUnary regexp prim c = prim c.
Proof.
  unfold parseUnary. simpl. rewrite !orb_false_iff. by intros (-> & -> & -> & -> & _).
Qed.

Lemma wf5_primary e :
  wf 5 e = true -> wf 6 e = true /\ existsb (String.eqb (ehead e)) keywords = false \/
  match e with EMatch _ _ | ESubstr _ _ _ | EIndex _ _ | ELength _ => True | _ => False end.
Proof.
  destruct e as [t|t e|e|a b|a b d|a b|a|l op a b]; cbn [wf]; try (by right).
  - rewrite andb_true_iff. intros [-> H]. left. split; [done|]. by apply negb_true_iff in H.
  - rewrite !andb_true_iff. intros [[-> H] ->]. left. split; [done|]. by apply negb_true_iff in H.
  - by left.
  - by destruct l.
Qed.

Lemma parseUnary_completes f prim : completes f 6 prim -> completes f 5 (parseUnary regexp prim).
Proof.
  intros Hp e c rest Hw Hr Hf Hcol _.
  destruct (wf5_primary e Hw) as [[H6 Hk]|Hkind].
  { rewrite parseUnary_primary by (by rewrite Peek_hd, Hr, hd_app).
    by apply (primary_step f prim e c rest). }
  unfold parseUnary.
  assert (forall k l, rest_of c = k :: l ->
    Peek c = k /\ rest_of (advance c) = l /\ remaining (advance c) < f) as Hadv.
  { intros k l E. split; [by apply (Peek_cons _ _ l)|]. split; [by apply (rest_advance_cons _ k)|].
    pose proof (remaining_adv 1 c). simpl in *. lia. }
  destruct e as [t|t e|e|a b|a b d|a b|a|l op a b]; try done; cbn [wf etoks ends_paren sem] in *;
    repeat (apply andb_true_iff in Hw as [Hw ?]).
  all: rewrite <- ?app_comm_cons, <- ?app_assoc in Hr; destruct (Hadv _ _ Hr) as (-> & Hr1 & Hf1);
    cbn [String.eqb Ascii.eqb Bool.eqb andb].
  1,3: destruct (primary_step f prim a (advance c) (etoks b ++ rest) Hp) as (-> & Hr2 & Hf2);
    [done..|by apply sep_hd|]; destruct (sem regexp a) as [va|]; simpl; [|done];
    destruct (primary_step f prim b _ rest Hp ltac:(done) Hr2 Hf2 Hcol) as (-> & _ & _);
    destruct (sem regexp b) as [vb|]; simpl; [|done];
    try destruct (matchStr regexp va vb); simpl; try done;
    by rewrite adv_app.
  1: { destruct (primary_step f prim a (advance c) (etoks b ++ etoks d ++ rest) Hp) as (-> & Hr2 & Hf2);
    [done..|by apply sep_hd|]. destruct (sem regexp a) as [va|]; simpl; [|done].
    destruct (primary_step f prim b _ (etoks d ++ rest) Hp ltac:(done) Hr2 Hf2) as (-> & Hr3 & Hf3);
      [by apply sep_hd|]. destruct (sem regexp b) as [vb|]; simpl; [|done].
    destruct (primary_step f prim d _ rest Hp ltac:(done) Hr3 Hf3 Hcol) as (-> & _ & _).
    destruct (sem regexp d) as [vd|]; simpl; [|done].
    destruct (substrStr va vb vd); simpl; [|done]. by rewrite !adv_app. }
  1: { assert (Done (advance c) = false) as ->.
    { apply not_true_is_false. rewrite Done_rest, Hr1. pose proof (etoks_nonempty a).
      by destruct (etoks a). }
    rewrite Peek_hd, Hr1, hd_app.
    match goal with H : negb _ = true |- _ => simpl in H; apply negb_true_iff in H;
      rewrite !orb_false_iff in H; destruct H as (-> & -> & -> & _) end. simpl.
    destruct (primary_step f prim a _ rest Hp ltac:(done) Hr1 Hf1 Hcol) as (-> & _ & _).
    by destruct (sem regexp a). }
Qed.

Lemma parseOr_completes f prim :
  sound 6 prim -> completes f 6 prim -> completes f 0 (parseOr regexp prim).
Proof.
  intros Hs Hc.
  pose proof (parseUnary_sound _ Hs) as S5. pose proof (parseUnary_completes f _ Hc) as C5.
  pose proof (parse_binary_sound LMul _ S5) as S4.
  pose proof (parse_binary_completes f LMul _ S5 C5) as C4.
  pose proof (parse_binary_sound LAdd _ S4) as S3.
  pose proof (parse_binary_completes f LAdd _ S4 C4) as C3.
  pose proof (parse_binary_sound LCmp _ S3) as S2.
  pose proof (parse_binary_completes f LCmp _ S3 C3) as C2.
  pose proof (parse_binary_sound LAnd _ S2) as S1.
  pose proof (parse_binary_completes f LAnd _ S2 C2) as C1.
  exact (parse_binary_completes f LOr _ S1 C1).
Qed.

Lemma parsePrimary_completes f : completes f 6 (parsePrimary regexp f).
Proof.
  induction f as [|f IH]; intros e c rest Hw Hr Hf Hcol _; [lia|].
  assert (forall k l, rest_of c = k :: l -> rest_of (advance c) = l /\ remaining (advance c) < f) as Hadv.
  { intros k l E. pose proof (rest_advance_cons _ _ _ E) as E'. split; [done|].
    unfold remaining in *. rewrite E'. rewrite E in Hf. simpl in Hf. lia. }
  destruct e as [t|t e|e|a b|a b d|a b|a|l op a b]; cbn [wf etoks ends_paren sem] in *;
    try discriminate Hw; [..|by destruct l].
  - apply andb_true_iff in Hw as [[H1 H2]%andb_true_iff _]. cbn [app] in Hr.
    destruct (Hadv _ _ Hr) as [Hr1 _]. apply negb_true_iff in H1, H2.
    cbn [parsePrimary]. rewrite (Peek_cons _ _ _ Hr), H1, H2, Peek_hd, Hr1, seqb_ne by auto. done.
  - apply andb_true_iff in Hw as [[[H1 H2]%andb_true_iff _]%andb_true_iff Hw]. cbn [app] in Hr.
    destruct (Hadv _ _ Hr) as [Hr1 Hf1]. apply negb_true_iff in H1, H2.
    cbn [parsePrimary]. rewrite (Peek_cons _ _ _ Hr), H1, H2, (Peek_cons _ _ _ Hr1), seqb_refl.
    pose proof (rest_advance_cons _ _ _ Hr1) as Hr2.
    destruct (primary_step f _ e (advance (advance c)) rest IH Hw Hr2) as (-> & _ & _); [|done|].
    { pose proof (remaining_adv 1 (advance c)). simpl in *. lia. }
    destruct (sem regexp e); simpl; [|done]. by destruct (matchStr regexp t a).
  - cbn [app] in Hr. rewrite <- app_assoc in Hr. destruct (Hadv _ _ Hr) as [Hr1 Hf1].
    cbn [parsePrimary]. rewrite (Peek_cons _ _ _ Hr). rewrite seqb_refl.
    rewrite (parseOr_completes f _ (parsePrimary_sound f) IH e (advance c) ([")"] ++ rest)); try done.
    + destruct (sem regexp e); simpl; [|done].
      rewrite (Peek_cons _ _ _ (rest_adv_app _ _ _ Hr1)). simpl. by rewrite adv_app.
    + by intros [].
Qed.

(** ** The fuel is enough *)

Lemma binary_loop_fueled n f l operand : sound n operand -> fueled f operand -> forall k lhs c,
  remaining c < f -> remaining c < k -> binary_loop l operand k lhs c <> Err OutOfFuel.
Proof.
  intros Hs Hf k. induction k as [|k IH]; intros lhs c H1 H2; [lia|]. simpl.
  destruct (isop l (Peek c)) eqn:Eop; [|done].
  change {| tokens := tokens c; pos := S (pos c) |} with (advance c).
  pose proof (remaining_advance c (isop_nonempty _ _ Eop)) as Hr.
  pose proof (Hf (advance c)) as Ha. destruct (operand (advance c)) as [[rhs c1]|e] eqn:E; simpl.
  - pose proof (apply_op_fuel l lhs (Peek c) rhs).
    destruct (apply_op _ _ _ _); simpl; [|congruence].
    destruct (sound_adv _ _ _ _ _ Hs E) as [m ->]. pose proof (remaining_adv m (advance c)).
    apply IH; lia.
  - intros [= ->]. apply Ha; [lia|done].
Qed.

Lemma parse_binary_fueled n f l operand :
  sound n operand -> fueled f operand -> fueled f (parse_binary l operand).
Proof.
  intros Hs Hf c Hc. unfold parse_binary. pose proof (Hf c Hc) as Ha.
  destruct (operand c) as [[lhs c1]|e] eqn:E; simpl; [|congruence].
  destruct (sound_adv _ _ _ _ _ Hs E) as [m ->]. pose proof (remaining_adv m c).
  apply (binary_loop_fueled n f l operand Hs Hf (S (remaining (adv m c)))); lia.
Qed.

(** Running a primary and going on. *)
Lemma fueled_bind f prim (k : string -> TokenCursor -> result expr_error (string * TokenCursor)) c :
  sound 6 prim -> fueled f prim -> remaining c < f ->
  (forall v c', remaining c' < f -> k v c' <> Err OutOfFuel) ->
  (let? '(v, c') := prim c in k v c') <> Err OutOfFuel.
Proof.
  intros Hs Hf Hc Hk. pose proof (Hf c Hc). destruct (prim c) as [[v c']|] eqn:E; simpl; [|congruence].
  destruct (sound_adv _ _ _ _ _ Hs E) as [m ->]. apply Hk. pose proof (remaining_adv m c). lia.
Qed.

Lemma parseUnary_fueled f prim : sound 6 prim -> fueled f prim -> fueled f (parseUnary regexp prim).
Proof.
  intros Hs Hf c Hc. unfold parseUnary.
  assert (remaining (advance c) < f) as Hc1 by (pose proof (remaining_adv 1 c); simpl in *; lia).
  repeat case_match; try done; try (by apply Hf).
  - apply (fueled_bind f prim); [done..|]. intros v c' Hc'.
    apply (fueled_bind f prim); [done..|]. intros v' c'' Hc''.
    pose proof (matchStr_fuel v v'). destruct (matchStr _ _ _); simpl; congruence.
  - apply (fueled_bind f prim); [done..|]. intros v c' Hc'.
    apply (fueled_bind f prim); [done..|]. intros v' c'' Hc''.
    apply (fueled_bind f prim); [done..|]. intros v'' c3 Hc3.
    pose proof (substrStr_fuel v v' v''). destruct (substrStr _ _ _); simpl; congruence.
  - apply (fueled_bind f prim); [done..|]. intros v c' Hc'.
    by apply (fueled_bind f prim).
  - by apply (fueled_bind f prim).
Qed.

Lemma parseOr_fueled f prim : sound 6 prim -> fueled f prim -> fueled f (parseOr regexp prim).
Proof.
  intros Hs Hf. pose proof (parseUnary_sound _ Hs) as S5.
  pose proof (parse_binary_sound LMul _ S5) as S4. pose proof (parse_binary_sound LAdd _ S4) as S3.
  pose proof (parse_binary_sound LCmp _ S3) as S2. pose proof (parse_binary_sound LAnd _ S2) as S1.
  unfold parseOr, parseAnd, parseCmp, parseAdd, parseMul.
  repeat (eapply parse_binary_fueled; [eassumption|]). by apply parseUnary_fueled.
Qed.

Lemma parsePrimary_fueled f : fueled f (parsePrimary regexp f).
Proof.
  induction f as [|f IH]; intros c Hc; [lia|]. cbn [parsePrimary].
  pose proof (parsePrimary_sound f) as Hs.
  destruct (seqb_spec (Peek c) "") as [->|Hne]; [done|].
  pose proof (remaining_advance c Hne) as Hr.
  assert (forall d, remaining d <= remaining (advance c) -> remaining d < f) as Hd by (intros; lia).
  destruct (Peek c =s? "(").
  - pose proof (parseOr_fueled f _ Hs IH (advance c) ltac:(lia)).
    destruct (parseOr _ _ _) as [[r c1]|]; simpl; [by case_match|congruence].
  - case_match; [|done]. apply (fueled_bind f (parsePrimary regexp f)); [done..| |].
    + apply Hd. apply (remaining_adv 1).
    + intros v c' _. pose proof (matchStr_fuel (Peek c) v). destruct (matchStr _ _ _); simpl; congruence.
Qed.
End Correctness.

Lemma Eval_complete regexp e : wf 0 e = true ->
  Eval regexp (etoks e) = (let? v := sem regexp e in Ok (v, exitCode v)).
Proof.
  intros Hw. unfold Eval. pose proof (etoks_nonempty e) as Hne.
  rewrite (parseOr_completes regexp (S (length (etoks e))) _ (parsePrimary_sound regexp _)
    (parsePrimary_completes regexp _) e _ []); [|done|by rewrite rest_New, app_nil_r| |done|by intros []].
  2: { unfold remaining. rewrite rest_New. lia. }
  destruct (etoks e) as [|t ts] eqn:E; [done|]. destruct (sem regexp e) as [v|]; [|done]. cbn [res_bind].
  rewrite (proj2 (Done_rest _)); [done|]. by rewrite rest_adv, rest_New, drop_all.
Qed.

(** ** Integers *)

Lemma int_atom t z : ParseInt t = Some z -> is_atom t && unary_start 0 t = true.
Proof.
  intros H. unfold is_atom, unary_start. cbn [existsb keywords].
  rewrite !seqb_ne; [done|intros ->; discriminate H..].
Qed.

Lemma int_exit z : in_int64 z = true -> exitCode (FormatInt z) = (if z =? 0 then 1 else 0)%Z.
Proof.
  intros Hz. apply ParseInt_FormatInt in Hz. unfold exitCode, is_null.
  destruct (seqb_spec (FormatInt z) "") as [E|_]; [rewrite E in Hz; discriminate Hz|]. simpl.
  destruct (seqb_spec (FormatInt z) "0") as [E|E].
  - rewrite E in Hz. by injection Hz as <-.
  - destruct (Z.eqb_spec z 0) as [->|]; done.
Qed.

(** The value of a binary operation on two integers. *)
Lemma Eval_ints regexp l op ta tb a b :
  ParseInt ta = Some a -> ParseInt tb = Some b -> isop l op = true ->
  Eval regexp [ta; op; tb] = (let? v := apply_op l ta op tb in Ok (v, exitCode v)).
Proof.
  intros Ha Hb Hop. change [ta; op; tb] with (etoks (Bin l op (Atom ta) (Atom tb))).
  rewrite (Eval_complete regexp (Bin l op (Atom ta) (Atom tb))).
  - simpl. done.
  - cbn [wf]. apply int_atom in Ha, Hb. apply andb_true_iff in Ha as [Ha Ka], Hb as [Hb Kb].
    rewrite Hop, Ha, Hb. unfold unary_start in *.
    assert (lvl l <= 4) as Hl by (destruct l; simpl; lia).
    destruct (6 <=? lvl l), (6 <=? S (lvl l)); simpl in *; by rewrite ?Ka, ?Kb.
Qed.

(** * Properties *)

(** C12: expr implements the grammar of its parser ([wf] and [etoks]): the precedences, associativity, functions
    and parentheses of the comment at the head of expr.go, except that, other than there, an atom can be followed by
    a colon and a primary, which binds to the right, and [length] needs its operand.  An atom is any token but
    the empty one and "(", and not the name of a function where a function could start.  Every
    expression of this grammar, printed as its tokens, evaluates to its value and exit status, or
    fails with the error of its first failing operation; conversely, whatever [Eval] accepts is an expression of
    the grammar, with that value. *)
Theorem Eval_grammar regexp :
  (forall e, wf 0 e = true ->
     Eval regexp (etoks e) = (let? v := sem regexp e in Ok (v, exitCode v))) /\
  (forall ts v k, Eval regexp ts = Ok (v, k) ->
     exists e, wf 0 e = true /\ etoks e = ts /\ sem regexp e = Ok v /\ k = exitCode v).
Proof.
  split.
  - intros e Hw. by apply Eval_complete.
  - intros ts v k. unfold Eval. destruct ts as [|t ts]; [done|]. intros H. unbind H.
    destruct a as [r c]. destruct (Done c) eqn:Ed; [|done]. injection H as <- <-.
    apply Done_rest in Ed.
    destruct (parseOr_sound regexp _ (parsePrimary_sound regexp _) _ _ _ Ha) as (e & W & R & _ & S & _).
    exists e. rewrite rest_New, Ed, app_nil_r in R. done.
Qed.

(** Two places where the parser is not the grammar of its comment: no operand of [length], and the operator ":". *)
Example expr_comment_grammar :
  Eval (fun _ => None) ["length"] = Err SyntaxError /\
  Eval (fun _ => Some (fun _ => Some ("ab", []))) ["abc"; ":"; "ab"] = Ok ("2", 0%Z).
Proof. split; vm_compute; reflexivity. Qed.

(** Expr always returns: on every argument list the parser ends with a value or one of the
    errors of the source, never for lack of fuel. *)
Theorem Eval_total regexp ts : Eval regexp ts <> Err OutOfFuel.
Proof.
  unfold Eval. destruct ts as [|t ts]; [done|].
  pose proof (parseOr_fueled regexp _ _ (parsePrimary_sound regexp _)
    (parsePrimary_fueled regexp (S (length (t :: ts)))) (NewTokenCursor (t :: ts))) as H.
  destruct (parseOr _ _ _) as [[r c]|e]; simpl in *; [by case_match|].
  intros [= ->]. apply H; [|done]. unfold remaining. rewrite rest_New. simpl. lia.
Qed.

(** Integer arithmetic.  On operands that read as 64-bit integers the five operators give
    the wrapped sum, difference and product, the truncated quotient and the remainder of the
    dividend's sign, printed in decimal; the exit status is 1 exactly when the result is 0;
    and division by zero is an error, not a crash. *)
Theorem Eval_arithmetic regexp ta tb a b :
  ParseInt ta = Some a -> ParseInt tb = Some b ->
  let value z := Ok (FormatInt (wrap 64 z), if (wrap 64 z =? 0)%Z then 1%Z else 0%Z) in
  Eval regexp [ta; "+"; tb] = value (a + b)%Z /\ Eval regexp [ta; "-"; tb] = value (a - b)%Z /\
  Eval regexp [ta; "*"; tb] = value (a * b)%Z /\
  (b <> 0%Z -> Eval regexp [ta; "/"; tb] = value (Z.quot a b) /\
     Eval regexp [ta; "%"; tb] = value (Z.rem a b)) /\
  (b = 0%Z -> Eval regexp [ta; "/"; tb] = Err DivisionByZero /\
     Eval regexp [ta; "%"; tb] = Err DivisionByZero).
Proof.
  intros Ha Hb value. unfold value.
  rewrite !(Eval_ints regexp LAdd _ ta tb a b), !(Eval_ints regexp LMul _ ta tb a b) by done.
  unfold apply_op, addResult, mulResult. rewrite Ha, Hb. cbn [String.eqb Ascii.eqb Bool.eqb].
  cbn [res_bind]. rewrite !int_exit by apply wrap64_in. do 3 (split; [done|]).
  split; intros H; [|by subst b].
  destruct (Z.eqb_spec b 0); [done|]. cbn [res_bind]. by rewrite !int_exit by apply wrap64_in.
Qed.

Lemma Eval_arithmetic_witness :
  Eval (fun _ => None) ["9223372036854775807"; "+"; "1"] = Ok ("-9223372036854775808", 0%Z).
Proof.
  apply (Eval_arithmetic (fun _ => None) "9223372036854775807" "1" 9223372036854775807 1);
    vm_compute; reflexivity.
Defined.

(** substr with a negative length slices out of order and crashes. *)
Theorem substr_negative_length_panics regexp :
  Eval regexp ["substr"; "abc"; "1"; "-1"] = Err Panic.
Proof. reflexivity. Qed.

(** So does a length that overflows the end index. *)
Theorem substr_huge_length_panics regexp :
  Eval regexp ["substr"; "abc"; "2"; "9223372036854775807"] = Err Panic.
Proof. reflexivity. Qed.
