(* ===== verification/Myers.v ===== *)
(** The difference algorithm of diff: [Diff] of pkg/diff/diff.go, Myers' O(ND) greedy
    algorithm.

    Slices are lists read through [aget] and written through [aset], which are [None] on an
    index out of range (a Go panic); the loops carry fuel.  [Diff] returns [None] if anything of
    this happens, and the theorems show that nothing does.  Indices are bounded by the number of
    lines, far from the limits of int. *)

From S2P Require Import Prelude.

Local Open Scope Z_scope.

Inductive diffOp := opEq | opDel | opIns | opIgnoredDel | opIgnoredIns.

#[export] Instance diffOp_eq_dec : EqDecision diffOp.
Proof. solve_decision. Defined.

Record diffItem := { op : diffOp; text : string }.

(** * Slices *)

Definition aget {A} (l : list A) (i : Z) : option A :=
  if i <? 0 then None else l !! Z.to_nat i.

Definition aset {A} (l : list A) (i : Z) (x : A) : option (list A) :=
  match aget l i with Some _ => Some (<[Z.to_nat i := x]> l) | None => None end.

Definition zlen {A} (l : list A) : Z := Z.of_nat (length l).

Section Myers.
Variables a b : list string.

Definition n : Z := zlen a.
Definition m : Z := zlen b.
Definition maxD : Z := n + m.

(** * The forward pass *)

(** [for x < n && y < m && a[x] == b[y] { x++; y++ }] *)
Fixpoint snake (fuel : nat) (x y : Z) : option (Z * Z) :=
  match fuel with
  | O => None
  | S fuel =>
      if (x <? n) && (y <? m) then
        match aget a x, aget b y with
        | Some s, Some t => if s =s? t then snake fuel (x + 1) (y + 1) else Some (x, y)
        | _, _ => None
        end
      else Some (x, y)
  end.

(** [k == -d || (k != d && v[maxD+k-1] < v[maxD+k+1])] *)
Definition goes_down (v : list Z) (d k : Z) : option bool :=
  if k =? - d then Some true
  else if k =? d then Some false
  else
    match aget v (maxD + k - 1), aget v (maxD + k + 1) with
    | Some l, Some r => Some (l <? r)
    | _, _ => None
    end.

(** One diagonal: the new [v] and the point reached. *)
Definition diagonal (v : list Z) (d k : Z) : option (list Z * Z * Z) :=
  match goes_down v d k with
  | None => None
  | Some down =>
      match (if down then aget v (maxD + k + 1)
             else match aget v (maxD + k - 1) with Some l => Some (l + 1) | None => None end) with
      | None => None
      | Some x =>
          match snake (S (length a)) x (x - k) with
          | None => None
          | Some (x, y) =>
              match aset v (maxD + k) x with
              | None => None
              | Some v => Some (v, x, y)
              end
          end
      end
  end.

(** [for k = -d; k <= d; k += 2]: the new [v] and whether the end was reached ([break Outer]). *)
Fixpoint inner (fuel : nat) (v : list Z) (d k : Z) : option (list Z * bool) :=
  match fuel with
  | O => None
  | S fuel =>
      if k <=? d then
        match diagonal v d k with
        | None => None
        | Some (v, x, y) =>
            if (n <=? x) && (m <=? y) then Some (v, true) else inner fuel v d (k + 2)
        end
      else Some (v, false)
  end.

(** [for d = 0; d <= maxD; d++]: the final [d] and the trace. *)
Fixpoint outer (fuel : nat) (v : list Z) (trace : list (list Z)) (d : Z)
    : option (Z * list (list Z)) :=
  match fuel with
  | O => None
  | S fuel =>
      if d <=? maxD then
        match inner (S (S (Z.to_nat d))) v d (- d) with
        | None => None
        | Some (v, true) => Some (d, trace ++ [v])
        | Some (v, false) => outer fuel v (trace ++ [v]) (d + 1)
        end
      else Some (d, trace)
  end.

(** * Backtracking *)

(** [for x > startX { x--; y--; script = append(script, {opEq, a[x]}) }] *)
Fixpoint back_eq (fuel : nat) (startX x y : Z) (script : list diffItem)
    : option (Z * Z * list diffItem) :=
  match fuel with
  | O => None
  | S fuel =>
      if startX <? x then
        match aget a (x - 1) with
        | None => None
        | Some s => back_eq fuel startX (x - 1) (y - 1) (script ++ [{| op := opEq; text := s |}])
        end
      else Some (x, y, script)
  end.

Fixpoint backtrack (fuel : nat) (trace : list (list Z)) (d x y : Z) (script : list diffItem)
    : option (Z * Z * list diffItem) :=
  match fuel with
  | O => None
  | S fuel =>
      if 0 <? d then
        let k := x - y in
        match aget trace (d - 1) with
        | None => None
        | Some v =>
            match goes_down v d k with
            | None => None
            | Some down =>
                let prevK := if down then k + 1 else k - 1 in
                match aget v (maxD + prevK) with
                | None => None
                | Some prevX =>
                    let isDel := prevK =? k - 1 in
                    let startX := if isDel then prevX + 1 else prevX in
                    match back_eq (S (length a)) startX x y script with
                    | None => None
                    | Some (x, y, script) =>
                        if isDel then
                          match aget a (x - 1) with
                          | None => None
                          | Some s =>
                              backtrack fuel trace (d - 1) (x - 1) y
                                (script ++ [{| op := opDel; text := s |}])
                          end
                        else
                          match aget b (y - 1) with
                          | None => None
                          | Some s =>
                              backtrack fuel trace (d - 1) x (y - 1)
                                (script ++ [{| op := opIns; text := s |}])
                          end
                    end
                end
            end
        end
      else Some (x, y, script)
  end.

(** [for x > 0 && y > 0 { ... }] *)
Fixpoint back_start (fuel : nat) (x y : Z) (script : list diffItem) : option (list diffItem) :=
  match fuel with
  | O => None
  | S fuel =>
      if (0 <? x) && (0 <? y) then
        match aget a (x - 1) with
        | None => None
        | Some s => back_start fuel (x - 1) (y - 1) (script ++ [{| op := opEq; text := s |}])
        end
      else Some script
  end.

Definition Diff : option (list diffItem) :=
  if maxD =? 0 then Some []
  else
    match outer (S (S (Z.to_nat maxD))) (replicate (Z.to_nat (2 * maxD + 1)) 0) [] 0 with
    | None => None
    | Some (d, trace) =>
        match backtrack (S (Z.to_nat d)) trace d n m [] with
        | None => None
        | Some (x, y, script) =>
            match back_start (S (length a)) x y script with
            | None => None
            | Some script => Some (reverse script)
            end
        end
    end.
End Myers.

(** * Edit scripts *)

(** The lines a script takes from the old file and puts into the new one. *)
Definition old_side (s : list diffItem) : list string :=
  omap (fun i => match op i with opEq | opDel | opIgnoredDel => Some (text i) | _ => None end) s.

Definition new_side (s : list diffItem) : list string :=
  omap (fun i => match op i with opEq | opIns | opIgnoredIns => Some (text i) | _ => None end) s.

(** The number of edits. *)
Definition edits (s : list diffItem) : nat :=
  length (List.filter (fun i => negb (bool_decide (op i = opEq))) s).

Example diff_small :
  Diff ["a"; "b"; "c"; "a"; "b"; "b"; "a"] ["c"; "b"; "a"; "b"; "a"; "c"] =
  Some [{| op := opDel; text := "a" |}; {| op := opDel; text := "b" |};
        {| op := opEq; text := "c" |}; {| op := opIns; text := "b" |};
        {| op := opEq; text := "a" |}; {| op := opEq; text := "b" |};
        {| op := opDel; text := "b" |}; {| op := opEq; text := "a" |};
        {| op := opIns; text := "c" |}].
Proof. vm_compute. reflexivity. Qed.

(** * Lemmas *)

Lemma aget_Some {A} (l : list A) i x : aget l i = Some x -> 0 <= i < zlen l.
Proof.
  unfold aget, zlen. destruct (Z.ltb_spec i 0); [done|]. intros Hl%lookup_lt_Some. lia.
Qed.

Lemma aget_lt {A} (l : list A) i : 0 <= i < zlen l -> exists x, aget l i = Some x.
Proof.
  unfold aget, zlen. intros H. destruct (Z.ltb_spec i 0); [lia|].
  apply lookup_lt_is_Some. lia.
Qed.

Lemma aset_lt {A} (l : list A) i x : 0 <= i < zlen l -> aset l i x = Some (<[Z.to_nat i := x]> l).
Proof. intros H. unfold aset. by destruct (aget_lt l i H) as [? ->]. Qed.

Lemma aget_insert {A} (l : list A) i j x :
  0 <= i < zlen l -> aget (<[Z.to_nat i := x]> l) j = if decide (i = j) then Some x else aget l j.
Proof.
  unfold aget, zlen. intros H. destruct (Z.ltb_spec j 0).
  { destruct (decide (i = j)); [lia|done]. }
  destruct (decide (i = j)) as [->|Hne].
  - rewrite list_lookup_insert_eq; [done|lia].
  - rewrite list_lookup_insert_ne; [done|lia].
Qed.

Lemma zlen_insert {A} (l : list A) i x : zlen (<[i := x]> l) = zlen l.
Proof. unfold zlen. by rewrite length_insert. Qed.

Lemma aget_app_last {A} (l : list A) x : aget (l ++ [x]) (zlen l) = Some x.
Proof.
  unfold aget, zlen. destruct (Z.ltb_spec (Z.of_nat (length l)) 0); [lia|].
  by rewrite Nat2Z.id, list_lookup_middle.
Qed.

Lemma aget_app_l {A} (l k : list A) i x : aget l i = Some x -> aget (l ++ k) i = Some x.
Proof. unfold aget. destruct (i <? 0); [done|]. apply lookup_app_l_Some. Qed.

Section Correctness.
Variables a b : list string.
Abbreviation n := (n a).
Abbreviation m := (m b).
Abbreviation maxD := (maxD a b).

Lemma n_nonneg : 0 <= n.
Proof. unfold Myers.n, zlen. lia. Qed.

Lemma m_nonneg : 0 <= m.
Proof. unfold Myers.m, zlen. lia. Qed.

(** A diagonal edge of the edit graph. *)
Definition matches (x y : Z) : Prop :=
  x < n /\ y < m /\ exists s, aget a x = Some s /\ aget b y = Some s.

Lemma snake_spec fuel : forall x y,
  0 <= x -> 0 <= y -> Z.max 0 (n - x) < Z.of_nat fuel ->
  exists x', snake a b fuel x y = Some (x', y + (x' - x)) /\ x <= x' /\
    (forall i, x <= i < x' -> matches i (y + (i - x))) /\ ~ matches x' (y + (x' - x)).
Proof.
  induction fuel as [|fuel IH]; intros x y Hx Hy Hf; [lia|]. cbn [snake].
  destruct (Z.ltb_spec x n) as [Hxn|Hxn], (Z.ltb_spec y m) as [Hym|Hym]; cbn [andb].
  2-4: exists x; replace (y + (x - x)) with y by lia; (split; [done|]); (split; [lia|]);
    split; [lia|unfold matches; lia].
  destruct (aget_lt a x) as [s Hs]; [unfold Myers.n in *; lia|].
  destruct (aget_lt b y) as [t Ht]; [unfold Myers.m in *; lia|].
  rewrite Hs, Ht. destruct (seqb_spec s t) as [<-|Hne].
  - destruct (IH (x + 1) (y + 1)) as (x' & E & Hle & Hm & Hstop); [lia..|].
    exists x'. rewrite E. replace (y + 1 + (x' - (x + 1))) with (y + (x' - x)) in * by lia.
    split; [done|]. split; [lia|]. split; [|done]. intros i Hi. destruct (decide (i = x)) as [->|].
    + replace (y + (x - x)) with y by lia. split; [lia|]. split; [lia|]. eauto.
    + replace (y + (i - x)) with (y + 1 + (i - (x + 1))) by lia. apply Hm. lia.
  - exists x. replace (y + (x - x)) with y by lia. split; [done|]. split; [lia|]. split; [lia|].
    intros (_ & _ & u & Hu & Hu'). congruence.
Qed.

(** ** Furthest reaching points *)

(** The end of the snake that starts at [x] on diagonal [k]. *)
Definition run_snake (k x : Z) : Z :=
  match snake a b (S (length a)) x (x - k) with Some (x', _) => x' | None => x end.

(** The furthest point on diagonal [k] after [d] edits, as the forward pass computes it. *)
Fixpoint F (d : nat) (k : Z) : Z :=
  run_snake k
    match d with
    | O => 0
    | S d' =>
        if (k =? - Z.of_nat d) || (negb (k =? Z.of_nat d) && (F d' (k - 1) <? F d' (k + 1)))
        then F d' (k + 1) else F d' (k - 1) + 1
    end.

(** The diagonals visited after [d] edits. *)
Definition valid (d : nat) (k : Z) : Prop :=
  exists j, 0 <= j <= Z.of_nat d /\ k = - Z.of_nat d + 2 * j.

Lemma run_snake_spec k x :
  0 <= x -> k <= x ->
  snake a b (S (length a)) x (x - k) = Some (run_snake k x, run_snake k x - k) /\
  x <= run_snake k x /\ (forall i, x <= i < run_snake k x -> matches i (i - k)) /\
  ~ matches (run_snake k x) (run_snake k x - k).
Proof.
  intros Hx Hk. destruct (snake_spec (S (length a)) x (x - k)) as (x' & E & Hle & Hm & Hs);
    [lia|lia|unfold Myers.n, zlen; lia|].
  unfold run_snake. rewrite E. replace (x - k + (x' - x)) with (x' - k) in * by lia.
  split; [done|]. split; [done|]. split; [|done].
  intros i Hi. replace (i - k) with (x - k + (i - x)) by lia. auto.
Qed.

(** The point from which the snake of diagonal [k] starts after [d + 1] edits. *)
Definition start (d : nat) (k : Z) : Z :=
  if (k =? - Z.of_nat (S d)) || (negb (k =? Z.of_nat (S d)) && (F d (k - 1) <? F d (k + 1)))
  then F d (k + 1) else F d (k - 1) + 1.

Lemma F_S d k : F (S d) k = run_snake k (start d k).
Proof. reflexivity. Qed.

Lemma valid_neighbours d k :
  valid (S d) k ->
  (k <> Z.of_nat (S d) -> valid d (k + 1)) /\ (k <> - Z.of_nat (S d) -> valid d (k - 1)).
Proof.
  intros (j & Hj & ->). split; intros Hne.
  - exists j. lia.
  - exists (j - 1). lia.
Qed.

(** Which neighbour the start point comes from. *)
Lemma start_cases d k :
  valid (S d) k ->
  (valid d (k + 1) /\ start d k = F d (k + 1) /\
     (k <> - Z.of_nat (S d) -> F d (k - 1) < F d (k + 1))) \/
  (valid d (k - 1) /\ start d k = F d (k - 1) + 1 /\ k <> - Z.of_nat (S d) /\
     (k <> Z.of_nat (S d) -> F d (k + 1) <= F d (k - 1))).
Proof.
  intros Hv. destruct (valid_neighbours d k Hv) as [H1 H2]. unfold start.
  destruct (Z.eqb_spec k (- Z.of_nat (S d))) as [->|Hne]; simpl orb.
  { left. split; [apply H1; lia|]. split; [done|]. lia. }
  destruct (Z.eqb_spec k (Z.of_nat (S d))) as [->|Hne']; simpl negb; simpl andb.
  { right. split; [by apply H2|]. repeat split; lia. }
  destruct (Z.ltb_spec (F d (k - 1)) (F d (k + 1))); [left|right]; auto.
Qed.

Lemma valid_0 k : valid 0 k -> k = 0.
Proof. intros (j & Hj & ->). lia. Qed.

Lemma F_nonneg d : forall k, valid d k -> 0 <= F d k /\ k <= F d k.
Proof.
  induction d as [|d IH]; intros k Hv.
  - rewrite (valid_0 k Hv). simpl. destruct (run_snake_spec 0 0) as (_ & H & _); lia.
  - rewrite F_S. destruct (start_cases d k Hv) as [(Hn & -> & _)|(Hn & -> & _)];
      destruct (IH _ Hn) as [H1 H2];
      match goal with |- context [run_snake k ?x] =>
        destruct (run_snake_spec k x) as (_ & H & _); lia end.
Qed.

Lemma start_nonneg d k : valid (S d) k -> 0 <= start d k /\ k <= start d k.
Proof.
  intros Hv. destruct (start_cases d k Hv) as [(Hn & -> & _)|(Hn & -> & _)];
    destruct (F_nonneg d _ Hn); lia.
Qed.

(** ** The edit graph

    [reach d x y]: a path from the origin to (x, y) with [d] edits.  Edits may leave the
    rectangle; the diagonals are those of the two files. *)
Inductive reach : nat -> Z -> Z -> Prop :=
| reach_0 : reach 0 0 0
| reach_diag d x y : reach d x y -> matches x y -> reach d (x + 1) (y + 1)
| reach_right d x y : reach d x y -> reach (S d) (x + 1) y
| reach_down d x y : reach d x y -> reach (S d) x (y + 1).

Lemma reach_nonneg d x y : reach d x y -> 0 <= x /\ 0 <= y /\ valid d (x - y).
Proof.
  induction 1 as [|d x y _ IH _|d x y _ IH|d x y _ IH].
  - repeat split; try lia. exists 0. lia.
  - replace (x + 1 - (y + 1)) with (x - y) by lia. repeat split; try lia. apply IH.
  - destruct IH as (? & ? & j & Hj & E). repeat split; [lia..|]. exists (j + 1). lia.
  - destruct IH as (? & ? & j & Hj & E). repeat split; [lia..|]. exists j. lia.
Qed.

(** No path with [d] edits gets further on its diagonal than [F d]. *)
Lemma F_furthest d x y : reach d x y -> x <= F d (x - y).
Proof.
  induction 1 as [|d x y Hr IH Hm|d x y Hr IH|d x y Hr IH].
  - change (0 - 0) with 0. apply (F_nonneg 0 0). by exists 0.
  - replace (x + 1 - (y + 1)) with (x - y) by lia.
    destruct (decide (x = F d (x - y))) as [E|]; [|lia]. exfalso.
    destruct (reach_nonneg _ _ _ Hr) as (Hx & Hy & Hv).
    assert (~ matches (F d (x - y)) (F d (x - y) - (x - y))) as Hstop.
    { destruct d as [|d].
      - rewrite (valid_0 _ Hv). simpl. apply run_snake_spec; lia.
      - rewrite F_S. apply run_snake_spec; by apply start_nonneg. }
    apply Hstop. rewrite <- E. by replace (x - (x - y)) with y by lia.
  - destruct (reach_nonneg _ _ _ (reach_right _ _ _ Hr)) as (Hx & Hy & Hv).
    set (k := x + 1 - y) in *. replace (x - y) with (k - 1) in IH by (unfold k; lia).
    rewrite F_S. destruct (start_nonneg d k Hv). destruct (run_snake_spec k (start d k)) as (_ & H1 & _); [done..|].
    destruct (reach_nonneg _ _ _ Hr) as (_ & _ & Hv').
    destruct (start_cases d k Hv) as [(_ & E & Hlt)|(_ & E & _)]; [|lia].
    assert (k <> - Z.of_nat (S d)) as Hk by (destruct Hv' as (j & Hj & ?); unfold k; lia).
    specialize (Hlt Hk). lia.
  - destruct (reach_nonneg _ _ _ (reach_down _ _ _ Hr)) as (Hx & Hy & Hv).
    set (k := x - (y + 1)) in *. replace (x - y) with (k + 1) in IH by (unfold k; lia).
    rewrite F_S. destruct (start_nonneg d k Hv). destruct (run_snake_spec k (start d k)) as (_ & H1 & _); [done..|].
    destruct (reach_nonneg _ _ _ Hr) as (_ & _ & Hv').
    destruct (start_cases d k Hv) as [(_ & E & _)|(_ & E & _ & Hle)]; [lia|].
    assert (k <> Z.of_nat (S d)) as Hk by (destruct Hv' as (j & Hj & ?); unfold k; lia).
    specialize (Hle Hk). lia.
Qed.

Lemma reach_snake d k x x' :
  reach d x (x - k) -> x <= x' -> (forall i, x <= i < x' -> matches i (i - k)) ->
  reach d x' (x' - k).
Proof.
  intros Hr Hle Hm. remember (Z.to_nat (x' - x)) as j eqn:Ej. revert x' Hle Hm Ej.
  induction j as [|j IH]; intros x' Hle Hm Ej.
  - by replace x' with x by lia.
  - replace x' with (x' - 1 + 1) by lia. replace (x' - 1 + 1 - k) with (x' - 1 - k + 1) by lia.
    apply reach_diag; [|apply Hm; lia]. apply IH; [lia| |lia]. intros i Hi. apply Hm. lia.
Qed.

(** [F] points are reached. *)
Lemma F_reach d : forall k, valid d k -> reach d (F d k) (F d k - k).
Proof.
  induction d as [|d IH]; intros k Hv.
  - rewrite (valid_0 k Hv).
    simpl. destruct (run_snake_spec 0 0) as (_ & H & Hm & _); [lia..|].
    by apply (reach_snake 0 0 0); [constructor|..].
  - rewrite F_S. destruct (start_nonneg d k Hv) as [H0 H1].
    destruct (run_snake_spec k (start d k) H0 H1) as (_ & H & Hm & _).
    apply (reach_snake _ k (start d k)); [|done..].
    destruct (start_cases d k Hv) as [(Hn & -> & _)|(Hn & -> & _)]; specialize (IH _ Hn).
    + replace (F d (k + 1) - k) with (F d (k + 1) - (k + 1) + 1) by lia. by constructor.
    + replace (F d (k - 1) + 1 - k) with (F d (k - 1) - (k - 1)) by lia. by constructor.
Qed.

(** A path that leaves the rectangle is longer than its projection. *)
Lemma reach_clamp d x y :
  reach d x y ->
  exists d', (d' <= d)%nat /\ reach d' (Z.min x n) (Z.min y m) /\ (d' = d -> x <= n /\ y <= m).
Proof.
  pose proof n_nonneg. pose proof m_nonneg.
  induction 1 as [|d x y Hr IH Hm|d x y Hr IH|d x y Hr IH].
  - exists 0%nat. rewrite !Z.min_l by lia. repeat split; [lia|constructor|lia|lia].
  - destruct IH as (d' & Hle & Hr' & Heq). pose proof Hm as (Hx & Hy & _).
    exists d'. rewrite (Z.min_l x), (Z.min_l y) in Hr' by lia. rewrite !Z.min_l by lia.
    repeat split; [done|by constructor|lia|lia].
  - destruct IH as (d' & Hle & Hr' & Heq). destruct (Z.lt_ge_cases x n).
    + exists (S d'). rewrite (Z.min_l x) in Hr' by lia. rewrite (Z.min_l (x + 1)) by lia.
      repeat split; [lia|by constructor|lia|]. apply Heq. lia.
    + exists d'. rewrite (Z.min_r (x + 1)) by lia. rewrite (Z.min_r x) in Hr' by lia.
      repeat split; [lia|done|lia|lia].
  - destruct IH as (d' & Hle & Hr' & Heq). destruct (Z.lt_ge_cases y m).
    + exists (S d'). rewrite (Z.min_l y) in Hr' by lia. rewrite (Z.min_l (y + 1)) by lia.
      repeat split; [lia|by constructor| |lia]. apply Heq. lia.
    + exists d'. rewrite (Z.min_r (y + 1)) by lia. rewrite (Z.min_r y) in Hr' by lia.
      repeat split; [lia|done|lia|lia].
Qed.

(** ** The forward pass computes [F] *)

(** [v] holds the furthest points after [d] edits. *)
Definition row (v : list Z) (d : nat) : Prop :=
  forall k, valid d k -> aget v (maxD + k) = Some (F d k).

(** The test that the source makes twice. *)
Definition downb (d : nat) (k : Z) : bool :=
  (k =? - Z.of_nat (S d)) || (negb (k =? Z.of_nat (S d)) && (F d (k - 1) <? F d (k + 1))).

Lemma goes_down_spec v d k :
  row v d -> valid (S d) k -> goes_down a b v (Z.of_nat (S d)) k = Some (downb d k).
Proof.
  intros Hrow Hv. destruct (valid_neighbours d k Hv) as [H1 H2]. unfold goes_down, downb.
  destruct (Z.eqb_spec k (- Z.of_nat (S d))) as [|Hne]; [done|].
  destruct (Z.eqb_spec k (Z.of_nat (S d))) as [|Hne']; [done|].
  replace (maxD + k - 1) with (maxD + (k - 1)) by lia.
  replace (maxD + k + 1) with (maxD + (k + 1)) by lia.
  rewrite !Hrow by auto. done.
Qed.

Lemma start_downb d k : start d k = if downb d k then F d (k + 1) else F d (k - 1) + 1.
Proof. reflexivity. Qed.

Lemma downb_valid d k :
  valid (S d) k -> if downb d k then valid d (k + 1) else valid d (k - 1).
Proof.
  intros Hv. destruct (valid_neighbours d k Hv) as [H1 H2]. unfold downb.
  destruct (Z.eqb_spec k (- Z.of_nat (S d))) as [->|]; simpl orb; [apply H1; lia|].
  destruct (Z.eqb_spec k (Z.of_nat (S d))) as [->|]; simpl; [by apply H2|].
  case_match; auto.
Qed.

Lemma valid_range d k : valid d k -> - Z.of_nat d <= k <= Z.of_nat d.
Proof. intros (j & Hj & ->). lia. Qed.

(** What the row before gives to step [d]. *)
Definition before (v : list Z) (d : nat) : Prop :=
  match d with O => aget v (maxD + 1) = Some 0 | S d' => row v d' end.

Lemma diagonal_spec v d k :
  zlen v = 2 * maxD + 1 -> Z.of_nat d <= maxD -> before v d -> valid d k ->
  diagonal a b v (Z.of_nat d) k =
    Some (<[Z.to_nat (maxD + k) := F d k]> v, F d k, F d k - k).
Proof.
  intros Hlen Hd Hb Hv. unfold diagonal. pose proof (valid_range d k Hv) as Hk.
  assert (forall x, 0 <= x -> k <= x -> F d k = run_snake k x ->
    match snake a b (S (length a)) x (x - k) with
    | None => None
    | Some (x, y) => match aset v (maxD + k) x with None => None | Some v => Some (v, x, y) end
    end = Some (<[Z.to_nat (maxD + k) := F d k]> v, F d k, F d k - k)) as Hend.
  { intros x Hx Hkx E. destruct (run_snake_spec k x Hx Hkx) as (-> & _).
    rewrite aset_lt by lia. by rewrite E. }
  destruct d as [|d].
  - rewrite (valid_0 k Hv) in *. unfold goes_down. simpl Z.eqb. cbn [before] in Hb.
    replace (maxD + 0 + 1) with (maxD + 1) by lia. rewrite Hb. by apply (Hend 0).
  - cbn [before] in Hb. rewrite (goes_down_spec v d k Hb Hv).
    pose proof (downb_valid d k Hv) as Hn. pose proof (start_nonneg d k Hv) as [H0 H1].
    rewrite start_downb in H0, H1. pose proof (F_S d k) as EF. rewrite start_downb in EF.
    destruct (downb d k).
    + replace (maxD + k + 1) with (maxD + (k + 1)) by lia. rewrite (Hb _ Hn). by apply Hend.
    + replace (maxD + k - 1) with (maxD + (k - 1)) by lia. rewrite (Hb _ Hn). by apply Hend.
Qed.

(** The end of both files is reached on diagonal [k]. *)
Definition at_end (d : nat) (k : Z) : Prop := n <= F d k /\ m <= F d k - k.

(** Writing a diagonal of step [d] does not disturb the row before it. *)
Lemma before_insert v d k x :
  zlen v = 2 * maxD + 1 -> 1 <= maxD -> Z.of_nat d <= maxD -> valid d k -> before v d ->
  before (<[Z.to_nat (maxD + k) := x]> v) d.
Proof.
  intros Hlen HD Hd Hv Hb. pose proof (valid_range d k Hv). destruct d as [|d]; cbn [before] in *.
  - rewrite (valid_0 k Hv). rewrite aget_insert by lia. destruct (decide _); [lia|done].
  - intros k' Hv'. rewrite aget_insert by lia. destruct (decide (_ = _)) as [E|]; [|by apply Hb].
    exfalso. destruct Hv as (j & _ & ?), Hv' as (j' & _ & ?). lia.
Qed.

Lemma inner_spec d : forall fuel v j,
  zlen v = 2 * maxD + 1 -> 1 <= maxD -> Z.of_nat d <= maxD -> before v d ->
  0 <= j <= Z.of_nat d + 1 -> Z.of_nat d + 1 - j < Z.of_nat fuel ->
  (forall k, valid d k -> k < - Z.of_nat d + 2 * j ->
     aget v (maxD + k) = Some (F d k) /\ ~ at_end d k) ->
  exists v' stop, inner a b fuel v (Z.of_nat d) (- Z.of_nat d + 2 * j) = Some (v', stop) /\
    zlen v' = 2 * maxD + 1 /\
    if stop then exists k, valid d k /\ at_end d k
    else row v' d /\ forall k, valid d k -> ~ at_end d k.
Proof.
  intros fuel. induction fuel as [|fuel IH]; intros v j Hlen HD Hd Hb Hj Hf Hdone; [lia|].
  cbn [inner]. set (k := - Z.of_nat d + 2 * j) in *. destruct (Z.leb_spec k (Z.of_nat d)).
  - assert (valid d k) as Hv by (exists j; lia). pose proof (valid_range d k Hv).
    rewrite diagonal_spec by done.
    destruct (Z.leb_spec n (F d k)), (Z.leb_spec m (F d k - k)); cbn [andb].
    1: { exists (<[Z.to_nat (maxD + k) := F d k]> v), true. rewrite zlen_insert.
         split; [done|]. split; [done|]. exists k. by repeat split. }
    all: replace (k + 2) with (- Z.of_nat d + 2 * (j + 1)) by (unfold k; lia).
    all: apply IH; [by rewrite zlen_insert|done|done|by apply before_insert|lia|lia|].
    all: intros k' Hv' Hk'; rewrite aget_insert by lia;
      destruct (decide (maxD + k = maxD + k')) as [E|E];
      [replace k' with k in * by lia; split; [done|]; unfold at_end; lia|].
    all: apply Hdone; [done|]; destruct Hv' as (j' & ? & ->); lia.
  - exists v, false. repeat split; [done| |].
    + intros k' Hv'. apply Hdone; [done|]. pose proof (valid_range d k' Hv'). lia.
    + intros k' Hv'. apply Hdone; [done|]. pose proof (valid_range d k' Hv'). lia.
Qed.

(** [tr] holds the rows of the steps before [d]. *)
Definition rows (tr : list (list Z)) (d : nat) : Prop :=
  forall d', (d' < d)%nat -> exists v, aget tr (Z.of_nat d') = Some v /\ row v d'.

(** The distance: the first step that reaches the end. *)
Definition distance (D : nat) : Prop :=
  (exists k, valid D k /\ at_end D k) /\
  forall d', (d' < D)%nat -> forall k, valid d' k -> ~ at_end d' k.

Lemma outer_spec fuel : forall v tr d,
  zlen v = 2 * maxD + 1 -> 1 <= maxD -> before v d -> zlen tr = Z.of_nat d -> rows tr d ->
  (forall d', (d' < d)%nat -> forall k, valid d' k -> ~ at_end d' k) ->
  (exists D k, (d <= D)%nat /\ Z.of_nat D <= maxD /\ valid D k /\ at_end D k) ->
  maxD - Z.of_nat d < Z.of_nat fuel ->
  exists D tr', outer a b fuel v tr (Z.of_nat d) = Some (Z.of_nat D, tr') /\
    distance D /\ rows tr' D.
Proof.
  induction fuel as [|fuel IH]; intros v tr d Hlen HD Hb Htr Hrows Hno (D & kD & HdD & HDm & HvD & HaD) Hf;
    [lia|].
  cbn [outer]. destruct (Z.leb_spec (Z.of_nat d) maxD); [|lia].
  destruct (inner_spec d (S (S (Z.to_nat (Z.of_nat d)))) v 0) as (v' & stop & E & Hlen' & Hstop);
    [done|done|done|done|lia|lia| |].
  { intros k Hv Hk. pose proof (valid_range d k Hv). lia. }
  replace (- Z.of_nat d + 2 * 0) with (- Z.of_nat d) in E by lia. rewrite E.
  assert (rows (tr ++ [v']) d) as Hrows'.
  { intros d' Hd'. destruct (Hrows d' Hd') as (w & Hw & Hrow). exists w.
    split; [by apply aget_app_l|done]. }
  destruct stop; [by exists d, (tr ++ [v'])|]. destruct Hstop as [Hrow Hend].
  replace (Z.of_nat d + 1) with (Z.of_nat (S d)) by lia. apply IH; try done.
  - unfold zlen in *. rewrite length_app. simpl. lia.
  - intros d' Hd'. destruct (decide (d' = d)) as [->|]; [|apply Hrows'; lia].
    exists v'. split; [|done]. rewrite <- Htr. apply aget_app_last.
  - intros d' Hd'. destruct (decide (d' = d)) as [->|]; [done|]. apply Hno. lia.
  - exists D, kD. split; [|done]. destruct (decide (D = d)) as [->|]; [|lia].
    exfalso. by apply (Hend kD).
  - lia.
Qed.

(** Deleting everything and inserting everything reaches the end. *)
Lemma reach_all : reach (Z.to_nat maxD) n m.
Proof.
  assert (forall i : nat, reach i (Z.of_nat i) 0) as Hx.
  { induction i as [|i IH]; [constructor|]. replace (Z.of_nat (S i)) with (Z.of_nat i + 1) by lia.
    by constructor. }
  assert (forall (i j : nat), reach (i + j) (Z.of_nat i) (Z.of_nat j)) as H.
  { intros i j. induction j as [|j IH]; [rewrite Nat.add_0_r; apply Hx|].
    replace (i + S j)%nat with (S (i + j)) by lia.
    replace (Z.of_nat (S j)) with (Z.of_nat j + 1) by lia. by constructor. }
  specialize (H (length a) (length b)). unfold Myers.maxD, Myers.n, Myers.m, zlen.
  by replace (Z.to_nat _) with (length a + length b)%nat by lia.
Qed.

(** A path to the corner makes the forward pass stop. *)
Lemma reach_at_end d : reach d n m -> valid d (n - m) /\ at_end d (n - m).
Proof.
  intros Hr. destruct (reach_nonneg _ _ _ Hr) as (_ & _ & Hv). split; [done|].
  pose proof (F_furthest _ _ _ Hr). unfold at_end. lia.
Qed.

(** When the forward pass stops, it stops in the corner. *)
Lemma distance_corner D :
  distance D -> valid D (n - m) /\ F D (n - m) = n /\ reach D n m.
Proof.
  intros [(k & Hv & Hn & Hm) Hmin]. pose proof (F_reach D k Hv) as Hr.
  destruct (reach_clamp _ _ _ Hr) as (d' & Hle & Hr' & Heq).
  rewrite !Z.min_r in Hr' by lia.
  assert (d' = D) as ->.
  { destruct (decide (d' = D)); [done|]. exfalso. destruct (reach_at_end _ Hr') as [Hv' Ha'].
    apply (Hmin d' ltac:(lia) _ Hv' Ha'). }
  destruct (Heq eq_refl) as [H1 H2]. replace k with (n - m) in * by lia.
  split; [done|]. split; [lia|done].
Qed.

(** ** Backtracking *)

Lemma side_app (f : diffItem -> option string) s i : omap f (s ++ [i]) = omap f s ++ omap f [i].
Proof. apply omap_app. Qed.

Lemma edits_app s t : edits (s ++ t) = (edits s + edits t)%nat.
Proof. unfold edits. by rewrite List.filter_app, length_app. Qed.

Lemma edits_one o s : edits [{| op := o; text := s |}] = if decide (o = opEq) then 0%nat else 1%nat.
Proof. by destruct o. Qed.

Lemma edits_reverse s : edits (reverse s) = edits s.
Proof.
  induction s as [|i s IH]; [done|]. rewrite reverse_cons, edits_app, IH.
  unfold edits. simpl. case_match; simpl; lia.
Qed.

Lemma aget_take {A} (l : list A) i x :
  aget l i = Some x -> take (Z.to_nat (i + 1)) l = take (Z.to_nat i) l ++ [x].
Proof.
  intros H. pose proof (aget_Some l i x H). unfold aget in H.
  destruct (Z.ltb_spec i 0); [done|]. replace (Z.to_nat (i + 1)) with (S (Z.to_nat i)) by lia.
  by apply take_S_r.
Qed.

(** The reversed script still to be completed for the first [x] and [y] lines. *)
Definition completes (x y : Z) (d : nat) (script script' : list diffItem) : Prop :=
  old_side (reverse script') = take (Z.to_nat x) a ++ old_side (reverse script) /\
  new_side (reverse script') = take (Z.to_nat y) b ++ new_side (reverse script) /\
  edits script' = (d + edits script)%nat /\
  (Forall (fun i => op i = opEq \/ op i = opDel \/ op i = opIns) script ->
   Forall (fun i => op i = opEq \/ op i = opDel \/ op i = opIns) script').

Lemma completes_refl script : completes 0 0 0 script script.
Proof. repeat split; auto. Qed.

Lemma completes_eq x y d s script script' :
  0 <= x -> 0 <= y -> aget a x = Some s -> aget b y = Some s ->
  completes x y d (script ++ [{| op := opEq; text := s |}]) script' ->
  completes (x + 1) (y + 1) d script script'.
Proof.
  intros Hx Hy Ha Hb (H1 & H2 & H3 & H4). unfold completes.
  rewrite (aget_take _ _ _ Ha), (aget_take _ _ _ Hb), H1, H2, H3, edits_app, <- !app_assoc.
  rewrite reverse_app. repeat split; [rewrite edits_one; simpl; lia|].
  intros HF. apply H4. apply Forall_app. split; [done|]. by constructor; [left|].
Qed.

Lemma completes_del x y d s script script' :
  0 <= x -> aget a x = Some s ->
  completes x y d (script ++ [{| op := opDel; text := s |}]) script' ->
  completes (x + 1) y (S d) script script'.
Proof.
  intros Hx Ha (H1 & H2 & H3 & H4). unfold completes.
  rewrite (aget_take _ _ _ Ha), H1, H2, H3, edits_app, <- !app_assoc.
  rewrite reverse_app. repeat split; [rewrite edits_one; simpl; lia|].
  intros HF. apply H4. apply Forall_app. split; [done|]. by constructor; [right; left|].
Qed.

Lemma completes_ins x y d s script script' :
  0 <= y -> aget b y = Some s ->
  completes x y d (script ++ [{| op := opIns; text := s |}]) script' ->
  completes x (y + 1) (S d) script script'.
Proof.
  intros Hy Hb (H1 & H2 & H3 & H4). unfold completes.
  rewrite (aget_take _ _ _ Hb), H1, H2, H3, edits_app, <- !app_assoc.
  rewrite reverse_app. repeat split; [rewrite edits_one; simpl; lia|].
  intros HF. apply H4. apply Forall_app. split; [done|]. by constructor; [right; right|].
Qed.

Lemma back_eq_spec k startX fuel : forall x script,
  0 <= startX -> k <= startX -> startX <= x -> x - startX < Z.of_nat fuel ->
  (forall i, startX <= i < x -> matches i (i - k)) ->
  exists script', back_eq a fuel startX x (x - k) script = Some (startX, startX - k, script') /\
    forall d final, completes startX (startX - k) d script' final ->
                    completes x (x - k) d script final.
Proof.
  induction fuel as [|fuel IH]; intros x script H0 Hk Hle Hf Hm; [lia|]. cbn [back_eq].
  destruct (Z.ltb_spec startX x).
  - destruct (Hm (x - 1)) as (_ & _ & s & Hs & Ht); [lia|]. rewrite Hs.
    destruct (IH (x - 1) (script ++ [{| op := opEq; text := s |}])) as (script' & E & Hc);
      [lia..|intros i Hi; apply Hm; lia|].
    exists script'. replace (x - k - 1) with (x - 1 - k) by lia. split; [done|].
    intros d final Hfin. replace x with (x - 1 + 1) by lia.
    replace (x - 1 + 1 - k) with (x - 1 - k + 1) by lia.
    apply (completes_eq _ _ _ s); [lia|lia|done|done|]. by apply Hc.
  - replace x with startX by lia. eauto.
Qed.

Lemma back_start_spec fuel : forall x script,
  0 <= x -> x < Z.of_nat fuel -> (forall i, 0 <= i < x -> matches i (i - 0)) ->
  exists final, back_start a fuel x x script = Some final /\ completes x x 0 script final.
Proof.
  induction fuel as [|fuel IH]; intros x script H0 Hf Hm; [lia|]. cbn [back_start].
  destruct (Z.ltb_spec 0 x); cbn [andb].
  - destruct (Hm (x - 1)) as (_ & _ & s & Hs & Ht); [lia|]. rewrite Hs.
    destruct (IH (x - 1) (script ++ [{| op := opEq; text := s |}])) as (final & E & Hc);
      [lia..|intros i Hi; apply Hm; lia|].
    exists final. split; [done|]. replace x with (x - 1 + 1) by lia.
    replace (x - 1 - 0) with (x - 1) in Ht by lia.
    by apply (completes_eq _ _ _ s); [lia|lia|..].
  - replace x with 0 by lia. exists script. split; [done|]. apply completes_refl.
Qed.

Lemma backtrack_spec tr : forall d fuel k script,
  rows tr d -> valid d k -> F d k <= n -> F d k - k <= m -> (d < fuel)%nat ->
  exists script' k0, backtrack a b fuel tr (Z.of_nat d) (F d k) (F d k - k) script =
      Some (F 0 k0, F 0 k0 - k0, script') /\ valid 0 k0 /\ F 0 k0 <= n /\
    forall final, completes (F 0 k0) (F 0 k0 - k0) 0 script' final ->
                  completes (F d k) (F d k - k) d script final.
Proof.
  induction d as [|d IH]; intros [|fuel] k script Hrows Hv Hn Hm Hf; try lia; cbn [backtrack].
  { exists script, k. auto. }
  replace (0 <? Z.of_nat (S d)) with true by (symmetry; apply Z.ltb_lt; lia).
  replace (F (S d) k - (F (S d) k - k)) with k by lia.
  replace (Z.of_nat (S d) - 1) with (Z.of_nat d) by lia.
  destruct (Hrows d) as (v & Hget & Hrow); [lia|]. rewrite Hget, (goes_down_spec v d k Hrow Hv).
  pose proof (downb_valid d k Hv) as Hn'. destruct (start_nonneg d k Hv) as [Hs0 Hsk].
  destruct (run_snake_spec k (start d k) Hs0 Hsk) as (_ & Hle & Hmatch & _).
  rewrite <- F_S in Hle, Hmatch. rewrite start_downb in Hs0, Hsk, Hle, Hmatch.
  assert (F (S d) k < Z.of_nat (S (length a))) as Hfuel by (unfold Myers.n, zlen in Hn; lia).
  assert (rows tr d) as Hrows' by (intros d' Hd'; apply Hrows; lia).
  destruct (downb d k).
  - rewrite (Hrow _ Hn'). destruct (F_nonneg d _ Hn') as [HF0 HFk].
    destruct (Z.eqb_spec (k + 1) (k - 1)); [lia|].
    destruct (back_eq_spec k (F d (k + 1)) (S (length a)) (F (S d) k) script) as (s1 & -> & Hc1);
      [lia..|done|].
    destruct (aget_lt b (F d (k + 1) - k - 1)) as [s Hs]; [unfold Myers.m in Hm; lia|]. rewrite Hs.
    replace (F d (k + 1) - k - 1) with (F d (k + 1) - (k + 1)) in * by lia.
    destruct (IH fuel (k + 1) (s1 ++ [{| op := opIns; text := s |}])) as (s2 & k0 & E & Hv0 & Hk0 & Hc2);
      [done|done|lia|lia|lia|].
    exists s2, k0. rewrite E. split; [done|]. split; [done|]. split; [done|].
    intros final Hfin. apply Hc1. replace (F d (k + 1) - k) with (F d (k + 1) - (k + 1) + 1) by lia.
    apply (completes_ins _ _ _ s); [lia|done|]. by apply Hc2.
  - rewrite (Hrow _ Hn'). destruct (F_nonneg d _ Hn') as [HF0 HFk]. rewrite Z.eqb_refl.
    destruct (back_eq_spec k (F d (k - 1) + 1) (S (length a)) (F (S d) k) script) as (s1 & -> & Hc1);
      [lia..|done|].
    destruct (aget_lt a (F d (k - 1) + 1 - 1)) as [s Hs]; [unfold Myers.n in Hn; lia|]. rewrite Hs.
    replace (F d (k - 1) + 1 - 1) with (F d (k - 1)) in * by lia.
    replace (F d (k - 1) + 1 - k) with (F d (k - 1) - (k - 1)) in * by lia.
    destruct (IH fuel (k - 1) (s1 ++ [{| op := opDel; text := s |}])) as (s2 & k0 & E & Hv0 & Hk0 & Hc2);
      [done|done|lia|lia|lia|].
    exists s2, k0. rewrite E. split; [done|]. split; [done|]. split; [done|].
    intros final Hfin. apply Hc1. apply (completes_del _ _ _ s); [lia|done|]. by apply Hc2.
Qed.

(** ** Scripts are paths *)

Lemma prefix_aget (l k : list string) s : l ++ [s] `prefix_of` k -> aget k (zlen l) = Some s.
Proof.
  intros [r ->]. unfold aget, zlen. destruct (Z.ltb_spec (Z.of_nat (length l)) 0); [lia|].
  rewrite Nat2Z.id, <- app_assoc. by apply list_lookup_middle.
Qed.

Lemma prefix_zlen (l k : list string) s : l ++ [s] `prefix_of` k -> zlen l < zlen k.
Proof. intros H%prefix_aget%aget_Some. lia. Qed.

Lemma zlen_snoc {A} (l : list A) x : zlen (l ++ [x]) = zlen l + 1.
Proof. unfold zlen. rewrite length_app. simpl. lia. Qed.

Lemma script_reach t :
  old_side t `prefix_of` a -> new_side t `prefix_of` b ->
  reach (edits t) (zlen (old_side t)) (zlen (new_side t)).
Proof.
  induction t as [|[o s] t IH] using rev_ind; intros Ho Hn; [constructor|].
  rewrite edits_app, edits_one. unfold old_side, new_side in *. rewrite !side_app in *.
  destruct o; simpl in *; rewrite ?app_nil_r in *; rewrite ?zlen_snoc.
  - rewrite Nat.add_0_r. constructor.
    + apply IH; (etrans; [|eassumption]); by exists [s].
    + repeat split; [by apply prefix_zlen in Ho|by apply prefix_zlen in Hn|].
      exists s. by split; apply prefix_aget.
  - rewrite Nat.add_1_r. constructor. apply IH; [|done]. etrans; [|exact Ho]. by exists [s].
  - rewrite Nat.add_1_r. constructor. apply IH; [done|]. etrans; [|exact Hn]. by exists [s].
  - rewrite Nat.add_1_r. constructor. apply IH; [|done]. etrans; [|exact Ho]. by exists [s].
  - rewrite Nat.add_1_r. constructor. apply IH; [done|]. etrans; [|exact Hn]. by exists [s].
Qed.

(** ** [Diff] *)

Lemma Diff_spec :
  exists s, Diff a b = Some s /\ old_side s = a /\ new_side s = b /\
    Forall (fun i => op i = opEq \/ op i = opDel \/ op i = opIns) s /\
    forall d, reach d n m -> (edits s <= d)%nat.
Proof.
  pose proof n_nonneg as Hn0. pose proof m_nonneg as Hm0. unfold Diff.
  destruct (Z.eqb_spec maxD 0) as [E0|HD].
  { exists []. unfold Myers.maxD in E0. unfold Myers.n, Myers.m, zlen in *.
    destruct a; [|simpl in *; lia]. destruct b; [|simpl in *; lia].
    repeat split; [constructor|]. intros d _. unfold edits. simpl. lia. }
  assert (1 <= maxD) as H1 by (unfold Myers.maxD in *; lia).
  destruct (outer_spec (S (S (Z.to_nat maxD))) (replicate (Z.to_nat (2 * maxD + 1)) 0) [] 0)
    as (D & tr & E & Hdist & Hrows).
  - unfold zlen. rewrite length_replicate. lia.
  - done.
  - cbn [before]. unfold aget. destruct (Z.ltb_spec (maxD + 1) 0); [lia|].
    apply lookup_replicate_2. lia.
  - done.
  - intros d' Hd'. lia.
  - intros d' Hd'. lia.
  - destruct (reach_at_end _ reach_all) as [Hv Ha]. exists (Z.to_nat maxD), (n - m).
    split; [lia|]. split; [lia|]. done.
  - lia.
  - change (Z.of_nat 0) with 0 in E. rewrite E.
    destruct (distance_corner D Hdist) as (Hv & HF & _).
    destruct (backtrack_spec tr D (S (Z.to_nat (Z.of_nat D))) (n - m) [])
      as (s1 & k0 & Eb & Hv0 & Hk0 & Hc); [done|done|lia|lia|lia|].
    rewrite HF in Eb, Hc. replace (n - (n - m)) with m in * by lia. rewrite Eb.
    pose proof (valid_0 _ Hv0) as ->. destruct (F_nonneg 0 0 Hv0) as [HF0 _].
    replace (F 0 0 - 0) with (F 0 0) in * by lia.
    destruct (run_snake_spec 0 0) as (_ & _ & Hmatch & _); [lia..|].
    destruct (back_start_spec (S (length a)) (F 0 0) s1) as (final & Es & Hfin);
      [done|unfold Myers.n, zlen in Hk0; lia|exact Hmatch|].
    rewrite Es. destruct (Hc final Hfin) as (Ho & Hn & He & Hops).
    exists (reverse final). rewrite Ho, Hn, edits_reverse, He. unfold Myers.n, Myers.m, zlen.
    rewrite !Nat2Z.id, !firstn_all. simpl. rewrite !app_nil_r. repeat split.
    + apply Forall_reverse, Hops. constructor.
    + intros d Hr. rewrite Nat.add_0_r. destruct (decide (d < D)%nat); [|lia]. exfalso.
      destruct Hdist as [_ Hmin]. destruct (reach_at_end d Hr) as [Hv' Ha'].
      by apply (Hmin d ltac:(lia) _ Hv').
Qed.
End Correctness.

Lemma Diff_shortest a b s t :
  Diff a b = Some s -> old_side t = a -> new_side t = b -> (edits s <= edits t)%nat.
Proof.
  intros E Ha Hb. destruct (Diff_spec a b) as (s' & E' & _ & _ & _ & Hmin).
  replace s with s' by congruence. apply Hmin.
  pose proof (script_reach a b t) as Hr. rewrite Ha, Hb in Hr. by apply Hr.
Qed.

(** * Properties *)

(** C13: the edit script is right.  On any two files [Diff] returns, without an index out of
    range, a script of equal, deleted and inserted lines whose old side is the first file and
    whose new side is the second. *)
Theorem Diff_correct a b :
  exists s, Diff a b = Some s /\ old_side s = a /\ new_side s = b /\
    Forall (fun i => op i = opEq \/ op i = opDel \/ op i = opIns) s.
Proof. destruct (Diff_spec a b) as (s & H1 & H2 & H3 & H4 & _). eauto. Qed.

(** C14: the edit script is as short as possible: no script that turns the first file into the
    second has fewer deletions and insertions. *)
Theorem Diff_minimal a b s t :
  Diff a b = Some s -> old_side t = a -> new_side t = b -> (edits s <= edits t)%nat.
Proof. apply Diff_shortest. Qed.

Lemma Diff_minimal_witness :
  (2 <= edits [{| op := opDel; text := "x" |}; {| op := opDel; text := "y" |};
               {| op := opIns; text := "y" |}; {| op := opIns; text := "z" |}])%nat.
Proof.
  apply (Diff_minimal ["x"; "y"] ["y"; "z"]
    [{| op := opDel; text := "x" |}; {| op := opEq; text := "y" |}; {| op := opIns; text := "z" |}]);
    vm_compute; reflexivity.
Defined.
