(* ===== verification/Diff.v ===== *)
(** The diff utility: pkg/diff/diff.go, apart from the algorithm itself (Myers.v).

    [GenerateDiff] and what it calls, and the text of unified hunks.  [None] is a Go panic.
    Context arithmetic is 64-bit: -U takes any non-negative int. *)

From S2P Require Import Prelude GoStd Utf8 Scanner Myers.

Local Open Scope Z_scope.

Record Hunk := {
  OldStart : Z; OldLines : Z; NewStart : Z; NewLines : Z; Lines : list string
}.

(** * White space *)

Definition is_space (c : ascii) : bool :=
  (code c =? 32) || (code c =? 9) || (code c =? 13) || (code c =? 10).

(** [strings.TrimRight(l, " \t\r\n")] *)
Fixpoint TrimRight (l : string) : string :=
  match l with
  | "" => ""
  | String c l =>
      match TrimRight l with
      | "" => if is_space c then "" else String c ""
      | t => String c t
      end
  end.

(** The byte loop of [normalizeSpace]. *)
Fixpoint squeeze (inSpace : bool) (l : string) : string :=
  match l with
  | "" => ""
  | String c l =>
      if is_space c then (if inSpace then squeeze true l else String " " (squeeze true l))
      else String c (squeeze false l)
  end.

Definition normalizeSpace (lines : list string) : list string :=
  (fun l => squeeze false (TrimRight l)) <$> lines.

Fixpoint strip_line (l : string) : string :=
  match l with
  | "" => ""
  | String c l => if is_space c then strip_line l else String c (strip_line l)
  end.

Definition stripAllSpace (lines : list string) : list string := strip_line <$> lines.

(** [strings.TrimSpace(s) == ""] *)
Definition is_blank (s : string) : bool := forallb IsSpace (runes s).

Definition is_change (o : diffOp) : bool := match o with opDel | opIns => true | _ => false end.

Definition is_same (o : diffOp) : bool :=
  match o with opEq | opIgnoredDel | opIgnoredIns => true | _ => false end.

Definition ignore_item (i : diffItem) : diffItem :=
  {| op := match op i with opDel => opIgnoredDel | _ => opIgnoredIns end; text := text i |}.

(** The block of changes at the head of a script, and what follows it. *)
Fixpoint change_block (script : list diffItem) : list diffItem * list diffItem :=
  match script with
  | i :: script' =>
      if is_change (op i) then let '(b, r) := change_block script' in (i :: b, r)
      else ([], script)
  | [] => ([], [])
  end.

Fixpoint filter_blank (fuel : nat) (script : list diffItem) : list diffItem :=
  match fuel, script with
  | S fuel, i :: script' =>
      if is_change (op i) then
        let '(block, rest) := change_block script in
        (if forallb (fun j => is_blank (text j)) block then ignore_item <$> block else block) ++
        filter_blank fuel rest
      else i :: filter_blank fuel script'
  | _, _ => script
  end.

Definition filterBlankLineChanges (script : list diffItem) : list diffItem :=
  filter_blank (length script) script.

(** * Hunks *)

(** [for i < len(script) && p(script[i].op) { i++ }] *)
Fixpoint skip_while (p : diffOp -> bool) (fuel : nat) (script : list diffItem) (i : Z) : option Z :=
  match fuel with
  | O => None
  | S fuel =>
      if i <? zlen script then
        match aget script i with
        | None => None
        | Some it => if p (op it) then skip_while p fuel script (i + 1) else Some i
        end
      else Some i
  end.

(** The loop that looks for [endIdx]. *)
Fixpoint find_end (fuel : nat) (script : list diffItem) (context endIdx : Z) : option Z :=
  match fuel with
  | O => None
  | S fuel =>
      if endIdx <? zlen script then
        match skip_while is_change (S (length script)) script endIdx with
        | None => None
        | Some eqStart =>
            match skip_while is_same (S (length script)) script eqStart with
            | None => None
            | Some nextDiff =>
                let eqCount := nextDiff - eqStart in
                if zlen script <=? nextDiff then
                  Some (if context <? eqCount then wrap 64 (nextDiff - eqCount + context)
                        else zlen script)
                else if wrap 64 (2 * context) <? eqCount then
                  let e := wrap 64 (nextDiff - eqCount + context) in
                  Some (if zlen script <? e then zlen script else e)
                else find_end fuel script context nextDiff
            end
        end
      else Some endIdx
  end.

Definition on_old (o : diffOp) : bool :=
  match o with opEq | opDel | opIgnoredDel => true | _ => false end.

Definition on_new (o : diffOp) : bool :=
  match o with opEq | opIns | opIgnoredIns => true | _ => false end.

Definition count_ops (p : diffOp -> bool) (s : list diffItem) : Z :=
  zlen (List.filter (fun i => p (op i)) s).

Definition hunk_line (i : diffItem) : string :=
  match op i with
  | opEq => " " +:+ text i
  | opDel | opIgnoredDel => "-" +:+ text i
  | opIns | opIgnoredIns => "+" +:+ text i
  end.

Definition make_hunk (script : list diffItem) (startIdx endIdx : Z) : Hunk :=
  let before := take (Z.to_nat startIdx) script in
  let body := drop (Z.to_nat startIdx) (take (Z.to_nat endIdx) script) in
  {| OldStart := 1 + count_ops on_old before; NewStart := 1 + count_ops on_new before;
     OldLines := count_ops on_old body; NewLines := count_ops on_new body;
     Lines := hunk_line <$> body |}.

Fixpoint hunks_from (fuel : nat) (script : list diffItem) (context i : Z) : option (list Hunk) :=
  match fuel with
  | O => None
  | S fuel =>
      if i <? zlen script then
        match skip_while is_same (S (length script)) script i with
        | None => None
        | Some i =>
            if zlen script <=? i then Some []
            else
              let startIdx := i - context in
              let startIdx := if startIdx <? 0 then 0 else startIdx in
              match find_end (S (length script)) script context i with
              | None => None
              | Some endIdx =>
                  let endIdx := if zlen script <? endIdx then zlen script else endIdx in
                  match hunks_from fuel script context endIdx with
                  | None => None
                  | Some hs => Some (make_hunk script startIdx endIdx :: hs)
                  end
              end
        end
      else Some []
  end.

(** The two newline arguments are not used by the source. *)
Definition BuildHunks (script : list diffItem) (context : Z) (newline1 newline2 : bool)
    : option (list Hunk) :=
  hunks_from (S (length script)) script context 0.

(** * [GenerateDiff] *)

(** [strings.Split(s, "\n")] *)
Fixpoint split_lines (s : string) : list string :=
  match s with
  | "" => [""]
  | String c s =>
      if (code c =? 10) then "" :: split_lines s
      else match split_lines s with l :: ls => String c l :: ls | [] => [String c ""] end
  end.

(** The lines of a content: no line after a final newline, none in the empty content. *)
Definition content_lines (content : string) : list string :=
  if content =s? "" then []
  else
    let lines := split_lines content in
    match last lines with
    | Some l => if l =s? "" then take (length lines - 1) lines else lines
    | None => lines
    end.

(** The post-processing that puts the original lines back. *)
Fixpoint restore_text (script : list diffItem) (lines1 lines2 : list string)
    : option (list diffItem) :=
  match script with
  | [] => Some []
  | i :: script =>
      match op i with
      | opEq =>
          match lines1 with
          | t :: lines1 =>
              match restore_text script lines1 (tail lines2) with
              | Some r => Some ({| op := opEq; text := t |} :: r) | None => None end
          | [] => None
          end
      | opDel =>
          match lines1 with
          | t :: lines1 =>
              match restore_text script lines1 lines2 with
              | Some r => Some ({| op := opDel; text := t |} :: r) | None => None end
          | [] => None
          end
      | opIns =>
          match lines2 with
          | t :: lines2 =>
              match restore_text script lines1 lines2 with
              | Some r => Some ({| op := opIns; text := t |} :: r) | None => None end
          | [] => None
          end
      | _ =>
          match restore_text script lines1 lines2 with
          | Some r => Some (i :: r) | None => None end
      end
  end.

Definition ends_newline (content : string) : bool :=
  match last (String.list_ascii_of_string content) with
  | Some c => code c =? 10
  | None => false
  end.

Definition GenerateDiff (content1 content2 : string) (contextLines : Z)
    (ignoreSpace ignoreAllSpace ignoreBlankLines : bool) : option (bool * list Hunk) :=
  let lines1 := content_lines content1 in
  let lines2 := content_lines content2 in
  let '(comp1, comp2) :=
    if ignoreAllSpace then (stripAllSpace lines1, stripAllSpace lines2)
    else if ignoreSpace then (normalizeSpace lines1, normalizeSpace lines2)
    else (lines1, lines2) in
  match Diff comp1 comp2 with
  | None => None
  | Some script =>
      match restore_text script lines1 lines2 with
      | None => None
      | Some script =>
          let script := if ignoreBlankLines then filterBlankLineChanges script else script in
          let differ := existsb (fun i => is_change (op i)) script in
          match BuildHunks script contextLines (ends_newline content1) (ends_newline content2) with
          | None => None
          | Some hunks => Some (differ, hunks)
          end
      end
  end.

(** * The text of a unified diff *)

(** A range of the hunk header. *)
Definition range_str (start count : Z) : string :=
  if count =? 1 then FormatInt start
  else if count =? 0 then FormatInt (start - 1) +:+ ",0"
  else FormatInt start +:+ "," +:+ FormatInt count.

Definition hunk_header (h : Hunk) : string :=
  "@@ -" +:+ range_str (OldStart h) (OldLines h) +:+ " +" +:+ range_str (NewStart h) (NewLines h)
  +:+ " @@".

(** The lines printed for a hunk; the last one may be followed by the no-newline marker. *)
Definition hunk_text (newline1 newline2 : bool) (h : Hunk) : list string :=
  hunk_header h :: Lines h ++
  match last (Lines h) with
  | Some (String c _) =>
      if ((c =c? "-") && negb newline1) || ((c =c? "+") && negb newline2)
      then ["\ No newline at end of file"] else []
  | _ => []
  end.

Definition unified_text (file1 file2 : string) (newline1 newline2 : bool) (hunks : list Hunk)
    : list string :=
  ("--- " +:+ file1) :: ("+++ " +:+ file2) :: concat (hunk_text newline1 newline2 <$> hunks).

(** * Applying hunks

    A strict reading of a list of hunks: each must start where its header says, in both files,
    and its old lines must be those of the file. *)

(** The lines of one side of a hunk: [c] is "-" for the old and "+" for the new side. *)
Definition hunk_side (c : ascii) (lines : list string) : list string :=
  omap (fun l => match l with
                 | String d t => if (d =c? " ") || (d =c? c) then Some t else None
                 | "" => None
                 end) lines.

Fixpoint apply_hunks (pos newpos : Z) (old : list string) (hs : list Hunk)
    : option (list string) :=
  match hs with
  | [] => Some old
  | h :: hs =>
      let skip := OldStart h - pos in
      let cnt := Z.to_nat (OldLines h) in
      if (0 <=? skip) && (NewStart h =? newpos + skip) &&
         (NewLines h =? zlen (hunk_side "+" (Lines h))) &&
         bool_decide (take cnt (drop (Z.to_nat skip) old) = hunk_side "-" (Lines h))
      then
        match apply_hunks (OldStart h + OldLines h) (NewStart h + NewLines h)
                (drop (Z.to_nat skip + cnt) old) hs with
        | Some r => Some (take (Z.to_nat skip) old ++ hunk_side "+" (Lines h) ++ r)
        | None => None
        end
      else None
  end.

(** * Lemmas *)

Section Hunks.
Variable script : list diffItem.
Variable context : Z.

Definition op_at (p : diffOp -> bool) (t : Z) : Prop :=
  exists it, aget script t = Some it /\ p (op it) = true.

Lemma skip_while_spec p fuel : forall i,
  0 <= i -> Z.max 0 (zlen script - i) < Z.of_nat fuel ->
  exists j, skip_while p fuel script i = Some j /\ i <= j <= Z.max i (zlen script) /\
    (forall t, i <= t < j -> op_at p t) /\ (j < zlen script -> op_at (fun o => negb (p o)) j).
Proof.
  induction fuel as [|fuel IH]; intros i H0 Hf; [lia|]. cbn [skip_while].
  destruct (Z.ltb_spec i (zlen script)) as [Hi|Hi].
  2: { exists i. split; [done|]. split; [lia|]. split; intros; lia. }
  destruct (aget_lt script i) as [it Hit]; [lia|]. rewrite Hit.
  destruct (p (op it)) eqn:Ep.
  - destruct (IH (i + 1)) as (j & -> & Hj & Hall & Hstop); [lia..|]. exists j.
    split; [done|]. split; [lia|]. split; [|done].
    intros t Ht. destruct (decide (t = i)) as [->|]; [by exists it|]. apply Hall. lia.
  - exists i. split; [done|]. split; [lia|]. split; [intros; lia|].
    intros _. exists it. by rewrite Ep.
Qed.

Lemma not_same_change o : is_same o = negb (is_change o).
Proof. by destruct o. Qed.

Hypothesis context_range : 0 <= context < 2 ^ 61.
Hypothesis script_range : zlen script < 2 ^ 61.

Lemma find_end_spec fuel : forall i,
  0 <= i < zlen script -> op_at is_change i -> zlen script - i < Z.of_nat fuel ->
  exists e, find_end fuel script context i = Some e /\ i < e <= zlen script /\
    forall t, e <= t < e + context -> t < zlen script -> op_at is_same t.
Proof.
  induction fuel as [|fuel IH]; intros i Hi Hc Hf; [lia|]. cbn [find_end].
  destruct (Z.ltb_spec i (zlen script)); [|lia].
  destruct (skip_while_spec is_change (S (length script)) i) as (q & -> & Hq & _ & Hqs);
    [lia|unfold zlen; lia|].
  assert (i < q) as Hiq.
  { destruct (decide (q = i)) as [->|]; [|lia]. destruct Hc as (it & Hit & Hp).
    destruct Hqs as (it' & Hit' & Hp'); [lia|]. rewrite Hit in Hit'. injection Hit' as <-.
    by rewrite Hp in Hp'. }
  destruct (skip_while_spec is_same (S (length script)) q) as (r & -> & Hr & Hsame & Hrs);
    [lia|unfold zlen; lia|].
  replace (r - (r - q) + context) with (q + context) by lia.
  rewrite !wrap_small by lia.
  destruct (Z.leb_spec (zlen script) r).
  - destruct (Z.ltb_spec context (r - q)); eexists; (split; [done|]); (split; [lia|]); intros t Ht Htl.
    + apply Hsame. lia.
    + lia.
  - destruct (Z.ltb_spec (2 * context) (r - q)).
    + exists (q + context). destruct (Z.ltb_spec (zlen script) (q + context)); [lia|].
      split; [done|]. split; [lia|]. intros t Ht Htl. apply Hsame. lia.
    + destruct (IH r) as (e & -> & He & Hall); [lia| |lia|].
      { destruct Hrs as (it & Hit & Hp); [lia|]. exists it. split; [done|].
        rewrite not_same_change in Hp. by rewrite negb_involutive in Hp. }
      exists e. split; [done|]. split; [lia|]. done.
Qed.

(** ** Slices of the script *)

Definition slice (i j : Z) : list diffItem := drop (Z.to_nat i) (take (Z.to_nat j) script).

Lemma drop_slice i j : 0 <= i <= j -> drop (Z.to_nat i) script = slice i j ++ drop (Z.to_nat j) script.
Proof.
  intros H. unfold slice. rewrite <- (take_drop (Z.to_nat j) script) at 1.
  destruct (decide (Z.to_nat i <= length (take (Z.to_nat j) script))%nat) as [Hle|Hgt].
  - by rewrite drop_app_le.
  - rewrite length_take in Hgt. rewrite drop_ge, (drop_ge (take _ _)) by (rewrite ?take_drop, ?length_take; lia).
    rewrite drop_ge by lia. done.
Qed.

Lemma take_slice i j : 0 <= i <= j -> take (Z.to_nat j) script = take (Z.to_nat i) script ++ slice i j.
Proof.
  intros H. unfold slice. rewrite <- (take_drop (Z.to_nat i) (take (Z.to_nat j) script)) at 1.
  rewrite take_take. by replace (Z.to_nat i `min` Z.to_nat j)%nat with (Z.to_nat i) by lia.
Qed.

Lemma slice_Forall (P : diffItem -> Prop) i j :
  0 <= i -> (forall t, i <= t < j -> t < zlen script -> exists it, aget script t = Some it /\ P it) ->
  Forall P (slice i j).
Proof.
  intros H0 H. apply Forall_lookup. intros k x Hx. unfold slice in Hx. rewrite lookup_drop in Hx.
  apply lookup_take_Some in Hx as [Hx Hlt].
  pose proof (lookup_lt_Some _ _ _ Hx). destruct (H (i + Z.of_nat k)) as (it & Hit & HP);
    [lia|unfold zlen; lia|].
  unfold aget in Hit. destruct (Z.ltb_spec (i + Z.of_nat k) 0); [lia|].
  replace (Z.to_nat (i + Z.of_nat k)) with (Z.to_nat i + k)%nat in Hit by lia. congruence.
Qed.
End Hunks.

Lemma count_old s : count_ops on_old s = zlen (old_side s).
Proof.
  unfold count_ops, zlen. f_equal. induction s as [|[[] t] s IH]; simpl; unfold old_side in *; simpl; lia.
Qed.

Lemma count_new s : count_ops on_new s = zlen (new_side s).
Proof.
  unfold count_ops, zlen. f_equal. induction s as [|[[] t] s IH]; simpl; unfold new_side in *; simpl; lia.
Qed.

Lemma hunk_old_side s : hunk_side "-" (hunk_line <$> s) = old_side s.
Proof.
  unfold hunk_side, old_side. induction s as [|[[] t] s IH]; simpl; [done|..];
    (exact IH || (f_equal; exact IH)).
Qed.

Lemma hunk_new_side s : hunk_side "+" (hunk_line <$> s) = new_side s.
Proof.
  unfold hunk_side, new_side. induction s as [|[[] t] s IH]; simpl; [done|..];
    (exact IH || (f_equal; exact IH)).
Qed.

Lemma old_side_app s t : old_side (s ++ t) = old_side s ++ old_side t.
Proof. apply omap_app. Qed.

Lemma new_side_app s t : new_side (s ++ t) = new_side s ++ new_side t.
Proof. apply omap_app. Qed.

Lemma eq_sides s : Forall (fun i => op i = opEq) s -> new_side s = old_side s.
Proof.
  induction 1 as [|[o t] s Ho Hs IH]; [done|]. simpl in Ho. subst o.
  unfold old_side, new_side in *. simpl. by f_equal.
Qed.

Lemma zlen_app {A} (l k : list A) : zlen (l ++ k) = zlen l + zlen k.
Proof. unfold zlen. rewrite length_app. lia. Qed.

Lemma zlen_to_nat {A} (l : list A) : Z.to_nat (zlen l) = length l.
Proof. unfold zlen. lia. Qed.

(** One hunk of a list: unchanged lines, the hunk, and the rest. *)
Lemma apply_hunks_step pre body (old_rest new_rest : list string) h hs p q :
  Forall (fun i => op i = opEq) pre ->
  OldStart h = p + zlen (old_side pre) -> NewStart h = q + zlen (old_side pre) ->
  OldLines h = zlen (old_side body) -> NewLines h = zlen (new_side body) ->
  Lines h = hunk_line <$> body ->
  apply_hunks (OldStart h + OldLines h) (NewStart h + NewLines h) old_rest hs = Some new_rest ->
  apply_hunks p q (old_side pre ++ old_side body ++ old_rest) (h :: hs) =
    Some (new_side pre ++ new_side body ++ new_rest).
Proof.
  intros Hpre Ho Hn Hol Hnl Hl Hrec. cbn [apply_hunks].
  rewrite Hl, hunk_old_side, hunk_new_side, (eq_sides pre Hpre).
  replace (OldStart h - p) with (zlen (old_side pre)) by lia.
  rewrite Hol, Hnl, !zlen_to_nat, drop_app_length, take_app_length.
  rewrite bool_decide_eq_true_2 by done.
  rewrite (proj2 (Z.leb_le 0 _)) by (unfold zlen; lia). rewrite Hn, !Z.eqb_refl. cbn [andb].
  rewrite <- drop_drop, drop_app_length, drop_app_length, take_app_length.
  rewrite <- Hol, <- Hnl, <- Hn, Hrec. done.
Qed.

(** Scripts as [Diff] makes them. *)
Definition plain (s : list diffItem) : Prop :=
  Forall (fun i => op i = opEq \/ op i = opDel \/ op i = opIns) s.

Lemma plain_same s t : plain s -> op_at s is_same t ->
  exists it, aget s t = Some it /\ op it = opEq.
Proof.
  intros Hp (it & Hit & Hs). exists it. split; [done|].
  pose proof (aget_Some _ _ _ Hit). unfold aget in Hit. destruct (t <? 0); [done|].
  unfold plain in Hp. rewrite Forall_lookup in Hp.
  destruct (Hp _ _ Hit) as [E|[E|E]]; rewrite E in Hs; done.
Qed.

Lemma change_not_same s t : op_at s is_change t -> ~ op_at s is_same t.
Proof.
  intros (it & Hit & Hc) (it' & Hit' & Hs). rewrite Hit in Hit'. injection Hit' as <-.
  rewrite not_same_change, Hc in Hs. done.
Qed.

Lemma hunks_from_spec script context :
  0 <= context < 2 ^ 61 -> zlen script < 2 ^ 61 -> plain script -> forall fuel i,
  0 <= i <= zlen script -> zlen script - i < Z.of_nat fuel ->
  (i = 0 \/ forall t, i <= t < i + context -> t < zlen script -> op_at script is_same t) ->
  exists hs, hunks_from fuel script context i = Some hs /\
    apply_hunks (1 + zlen (old_side (take (Z.to_nat i) script)))
      (1 + zlen (new_side (take (Z.to_nat i) script)))
      (old_side (drop (Z.to_nat i) script)) hs = Some (new_side (drop (Z.to_nat i) script)).
Proof.
  intros Hc Hlen Hplain. induction fuel as [|fuel IH]; intros i Hi Hf Hentry; [lia|].
  cbn [hunks_from]. destruct (Z.ltb_spec i (zlen script)) as [Hil|Hil].
  2: { exists []. split; [done|]. rewrite drop_ge by (unfold zlen in *; lia). done. }
  destruct (skip_while_spec script is_same (S (length script)) i) as (i' & -> & Hi' & Hsame & Hstop);
    [lia|unfold zlen; lia|].
  destruct (Z.leb_spec (zlen script) i') as [Hend|Hlt].
  { exists []. split; [done|]. cbn [apply_hunks]. f_equal. symmetry. apply eq_sides.
    assert (drop (Z.to_nat i) script = slice script i i') as ->.
    { rewrite (drop_slice script i i') by lia.
      rewrite (drop_ge script) by (unfold zlen in *; lia). apply app_nil_r. }
    apply slice_Forall; [lia|]. intros t Ht _. apply plain_same; auto. }
  set (s := if i' - context <? 0 then 0 else i' - context).
  assert (op_at script is_change i') as Hchange.
  { destruct (Hstop Hlt) as (it & Hit & Hp). exists it. split; [done|].
    rewrite not_same_change in Hp. by rewrite negb_involutive in Hp. }
  assert (i <= s <= i') as Hs.
  { unfold s. destruct (Z.ltb_spec (i' - context) 0) as [Hneg|Hpos].
    all: destruct Hentry as [->|Hentry]; [lia|].
    all: destruct (Z.le_gt_cases i (i' - context)); [lia|].
    all: exfalso; apply (change_not_same script i' Hchange); apply Hentry; lia. }
  destruct (find_end_spec script context Hc Hlen (S (length script)) i') as (e & -> & He & Hafter);
    [lia|done|unfold zlen; lia|].
  destruct (Z.ltb_spec (zlen script) e); [lia|].
  destruct (IH e) as (hs & -> & Happ); [lia|lia|by right|].
  eexists. split; [done|]. fold s.
  rewrite (drop_slice script i s), (drop_slice script s e) by lia.
  rewrite !old_side_app, !new_side_app.
  assert (Forall (fun it => op it = opEq) (slice script i s)) as Hpre.
  { apply slice_Forall; [lia|]. intros t Ht _. apply plain_same; [done|]. apply Hsame. lia. }
  apply apply_hunks_step; unfold make_hunk; cbn [OldStart OldLines NewStart NewLines Lines].
  - done.
  - rewrite count_old, (take_slice script i s), old_side_app, zlen_app by lia. lia.
  - rewrite count_new, (take_slice script i s), new_side_app, zlen_app by lia.
    rewrite (eq_sides _ Hpre). lia.
  - apply count_old.
  - apply count_new.
  - done.
  - rewrite !count_old, !count_new. fold (slice script s e).
    rewrite <- Happ. f_equal.
    + rewrite (take_slice script s e), old_side_app, zlen_app by lia. lia.
    + rewrite (take_slice script s e), new_side_app, zlen_app by lia. lia.
Qed.

Lemma BuildHunks_spec script context n1 n2 :
  0 <= context < 2 ^ 61 -> zlen script < 2 ^ 61 -> plain script ->
  exists hs, BuildHunks script context n1 n2 = Some hs /\
    apply_hunks 1 1 (old_side script) hs = Some (new_side script).
Proof.
  intros Hc Hl Hp. unfold BuildHunks.
  destruct (hunks_from_spec script context Hc Hl Hp (S (length script)) 0) as (hs & E & H);
    [unfold zlen; lia|unfold zlen; lia|by left|].
  exists hs. split; [done|]. cbn [Z.to_nat] in H. by rewrite take_0, drop_0 in H.
Qed.

Lemma restore_text_id script : forall l1 l2,
  plain script -> old_side script = l1 -> new_side script = l2 ->
  restore_text script l1 l2 = Some script.
Proof.
  unfold old_side, new_side.
  induction script as [|[o t] s IH]; intros l1 l2 Hp Ho Hn; [done|].
  inversion Hp as [|? ? Ho' Hp']; subst. simpl in Ho'.
  destruct Ho' as [-> | [-> | ->]]; simpl; by rewrite IH.
Qed.

Lemma script_length s : plain s -> zlen s <= zlen (old_side s) + zlen (new_side s).
Proof.
  induction 1 as [|[o t] s Ho Hs IH]; [done|]. simpl in Ho.
  rewrite (old_side_app [_] s : old_side (_ :: s) = _),
    (new_side_app [_] s : new_side (_ :: s) = _), !zlen_app, (zlen_app [_] s : zlen (_ :: s) = _).
  destruct Ho as [-> | [-> | ->]]; unfold zlen in *; simpl length; lia.
Qed.

Lemma no_change_eq script :
  plain script -> existsb (fun i => is_change (op i)) script = false ->
  Forall (fun i => op i = opEq) script.
Proof.
  induction 1 as [|[o t] s Ho Hs IH]; [constructor|]. simpl in *.
  rewrite orb_false_iff. intros [H1 H2]. constructor; [|by apply IH].
  simpl. destruct Ho as [-> | [-> | ->]]; done.
Qed.

Definition all_eq (l : list string) : list diffItem := (fun t => {| op := opEq; text := t |}) <$> l.

Lemma all_eq_sides l : old_side (all_eq l) = l /\ new_side (all_eq l) = l /\ edits (all_eq l) = 0%nat.
Proof.
  unfold all_eq. induction l as [|t l IH]; [done|]. destruct IH as (H1 & H2 & H3).
  unfold old_side, new_side in *. simpl. repeat split; [by f_equal..|done].
Qed.

Lemma edits_no_change s : edits s = 0%nat -> existsb (fun i => is_change (op i)) s = false.
Proof.
  unfold edits. induction s as [|[o t] s IH]; [done|]. simpl.
  by destruct o; simpl.
Qed.

(** Every hunk is cut out of the script. *)
Lemma hunks_from_made script context fuel : forall i hs,
  hunks_from fuel script context i = Some hs ->
  Forall (fun h => exists s e, h = make_hunk script s e) hs.
Proof.
  induction fuel as [|fuel IH]; intros i hs; [done|]. cbn [hunks_from].
  destruct (i <? zlen script); [|by intros [= <-]].
  destruct (skip_while _ _ _ _) as [j|]; [|done].
  destruct (zlen script <=? j); [by intros [= <-]|].
  destruct (find_end _ _ _ _) as [e|]; [|done].
  destruct (hunks_from fuel _ _ _) as [hs'|] eqn:E; [|done]. intros [= <-].
  constructor; [|by apply (IH _ _ E)]. eauto.
Qed.

Lemma GenerateDiff_spec content1 content2 context :
  0 <= context < 2 ^ 61 ->
  zlen (content_lines content1) + zlen (content_lines content2) < 2 ^ 61 ->
  exists differ hunks, GenerateDiff content1 content2 context false false false = Some (differ, hunks) /\
    (differ = true <-> content_lines content1 <> content_lines content2) /\
    apply_hunks 1 1 (content_lines content1) hunks = Some (content_lines content2) /\
    Forall (fun h => exists script s e, plain script /\ h = make_hunk script s e) hunks.
Proof.
  intros Hc Hlen. unfold GenerateDiff.
  set (l1 := content_lines content1) in *. set (l2 := content_lines content2) in *.
  destruct (Diff_spec l1 l2) as (s & E & Ho & Hn & Hp & _). rewrite E.
  rewrite (restore_text_id s l1 l2 Hp Ho Hn).
  destruct (BuildHunks_spec s context (ends_newline content1) (ends_newline content2))
    as (hs & Eh & Happ); [done| |done|].
  { rewrite <- Ho, <- Hn in Hlen. pose proof (script_length s Hp). lia. }
  rewrite Eh. eexists _, hs. split; [done|]. rewrite Ho, Hn in Happ. split; [|split; [done|]]; [split|].
  - intros Hd Heq. destruct (all_eq_sides l1) as (A1 & A2 & A3).
    pose proof (Diff_shortest l1 l2 s (all_eq l1) E A1 ltac:(congruence)) as Hle.
    rewrite (edits_no_change s) in Hd by lia. done.
  - intros Hne. destruct (existsb _ s) eqn:Ex; [done|]. exfalso. apply Hne.
    rewrite <- Ho, <- Hn. symmetry. apply eq_sides. by apply no_change_eq.
  - eapply Forall_impl; [exact (hunks_from_made _ _ _ _ _ Eh)|].
    intros h (i & j & ->). eauto.
Qed.

(** * Properties *)

(** C15: the hunks of a plain diff are right.  [GenerateDiff] without the ignore options returns;
    it reports a difference exactly when the lines differ; and its hunks, applied strictly to
    the lines of the first file, with every header start and count checked, give the lines of
    the second, for every number of context lines. *)
Theorem GenerateDiff_roundtrip content1 content2 context :
  0 <= context < 2 ^ 61 ->
  zlen (content_lines content1) + zlen (content_lines content2) < 2 ^ 61 ->
  exists differ hunks, GenerateDiff content1 content2 context false false false = Some (differ, hunks) /\
    (differ = true <-> content_lines content1 <> content_lines content2) /\
    apply_hunks 1 1 (content_lines content1) hunks = Some (content_lines content2).
Proof.
  intros Hc Hlen. destruct (GenerateDiff_spec content1 content2 context Hc Hlen)
    as (differ & hunks & H1 & H2 & H3 & _). eauto.
Qed.

Lemma GenerateDiff_roundtrip_witness :
  exists differ hunks, GenerateDiff (sconcat ["a"; nl; "b"; nl; "c"; nl]) (sconcat ["a"; nl; "c"; nl; "d"]) 1
      false false false = Some (differ, hunks) /\
    (differ = true <-> ["a"; "b"; "c"] <> ["a"; "c"; "d"]) /\
    apply_hunks 1 1 ["a"; "b"; "c"] hunks = Some ["a"; "c"; "d"].
Proof.
  apply (GenerateDiff_roundtrip (sconcat ["a"; nl; "b"; nl; "c"; nl]) (sconcat ["a"; nl; "c"; nl; "d"]) 1);
    [lia|vm_compute; reflexivity].
Defined.

(** Files that differ only in the newline at their end are reported as equal. *)
Theorem GenerateDiff_ignores_final_newline :
  GenerateDiff "a" ("a" +:+ nl) 3 false false false = Some (false, []).
Proof. vm_compute. reflexivity. Qed.

(** The largest context overflows [2 * context] and the index of the hunk's end: a panic. *)
Theorem huge_context_panics :
  GenerateDiff (sconcat ["a"; nl; "b"; nl; "c"; nl]) (sconcat ["x"; nl; "b"; nl; "z"; nl])
    (2 ^ 63 - 1) false false false = None.
Proof. vm_compute. reflexivity. Qed.
