(* ===== verification/Patch.v ===== *)
(** The patch utility: pkg/patch/patch.go.

    Ints are 64-bit ([wrap 64] where the file can make them large); [None] is a Go panic (a slice
    or index out of range).  Reading the target is a parameter, writing it is part of the
    result. *)

From S2P Require Import Prelude GoStd Utf8 Scanner Myers.

Local Open Scope Z_scope.

Record Hunk := {
  OldStart : Z; OldCount : Z; NewStart : Z; NewCount : Z; Lines : list string
}.

Record Patch := { OldFile : string; NewFile : string; Hunks : list Hunk }.

Definition with_lines (h : Hunk) (ls : list string) : Hunk :=
  {| OldStart := OldStart h; OldCount := OldCount h; NewStart := NewStart h;
     NewCount := NewCount h; Lines := ls |}.

(** [l[1:]] of a non-empty string. *)
Definition body (l : string) : string := str_drop 1 l.

(** * Applying a hunk *)

Definition reverseHunk (h : Hunk) : Hunk :=
  {| OldStart := NewStart h; OldCount := NewCount h; NewStart := OldStart h;
     NewCount := OldCount h;
     Lines := (fun l => if HasPrefix l "+" then "-" +:+ body l
                        else if HasPrefix l "-" then "+" +:+ body l else l) <$> Lines h |}.

(** The loop of [verifyHunk] over the lines of the hunk. *)
Fixpoint verify_lines (lines hl : list string) (off : Z) : option bool :=
  match hl with
  | [] => Some true
  | l :: hl =>
      if HasPrefix l "-" then
        if off <? zlen lines then
          match aget lines off with
          | None => None
          | Some t => if t =s? body l then verify_lines lines hl (off + 1) else Some false
          end
        else verify_lines lines hl (off + 1)
      else if (l =s? "") || HasPrefix l " " then
        let expected := body l in
        if off <? zlen lines then
          match aget lines off with
          | None => None
          | Some t => if t =s? expected then verify_lines lines hl (off + 1) else Some false
          end
        else if negb (expected =s? "") then Some false
        else verify_lines lines hl (off + 1)
      else verify_lines lines hl off
  end.

Definition verifyHunk (lines : list string) (h : Hunk) (pos : Z) : option bool :=
  if pos <? 0 then Some false else verify_lines lines (Lines h) pos.

(** The lines a hunk puts into the file. *)
Definition new_lines (hl : list string) : list string :=
  omap (fun l => if HasPrefix l "+" then Some (body l)
                 else if (l =s? "") || HasPrefix l " " then Some (body l) else None) hl.

Definition applyAt (lines : list string) (h : Hunk) (pos : Z) : option (list string) :=
  let head := if pos <? zlen lines then
                (if pos <? 0 then None else Some (take (Z.to_nat pos) lines))
              else Some lines in
  match head with
  | None => None
  | Some head =>
      let afterPos := wrap 64 (pos + OldCount h) in
      if afterPos <? zlen lines then
        if afterPos <? 0 then None
        else Some (head ++ new_lines (Lines h) ++ drop (Z.to_nat afterPos) lines)
      else Some (head ++ new_lines (Lines h))
  end.

(** The lines that [alreadyApplied] looks for: here a no-newline marker counts. *)
Definition expected_lines (hl : list string) : list string :=
  omap (fun l => if HasPrefix l "+" then Some (body l)
                 else if negb (HasPrefix l "-") && negb (l =s? "") then Some (body l) else None) hl.

(** [lines[pos+i] != e] for the expected lines in turn. *)
Fixpoint match_at (lines expected : list string) (pos : Z) : option bool :=
  match expected with
  | [] => Some true
  | e :: expected =>
      match aget lines pos with
      | None => None
      | Some t => if t =s? e then match_at lines expected (wrap 64 (pos + 1)) else Some false
      end
  end.

Fixpoint find_applied (fuel : nat) (lines expected : list string) (stop pos : Z) : option bool :=
  match fuel with
  | O => None
  | S fuel =>
      let last := wrap 64 (pos + zlen expected) in
      if (last <=? stop) && (last <=? zlen lines) then
        match match_at lines expected pos with
        | None => None
        | Some true => Some true
        | Some false => find_applied fuel lines expected stop (wrap 64 (pos + 1))
        end
      else Some false
  end.

Definition alreadyApplied (lines : list string) (h : Hunk) : option bool :=
  let expected := expected_lines (Lines h) in
  match expected with
  | [] => Some false
  | _ =>
      let start := wrap 64 (OldStart h - 1) in
      let start := if start <? 0 then 0 else start in
      let stop := wrap 64 (start + zlen expected + 10) in
      let stop := if zlen lines <? stop then zlen lines else stop in
      find_applied (S (S (length lines))) lines expected stop start
  end.

(** The search around the expected position; [Some None] is no match. *)
Fixpoint slide (fuel : nat) (lines : list string) (h : Hunk) (pos offset : Z)
    : option (option Z) :=
  match fuel with
  | O => Some None
  | S fuel =>
      match (if 0 <=? wrap 64 (pos - offset) then verifyHunk lines h (wrap 64 (pos - offset))
             else Some false) with
      | None => None
      | Some true => Some (Some (wrap 64 (pos - offset)))
      | Some false =>
          match (if wrap 64 (pos + offset + OldCount h) <=? zlen lines
                 then verifyHunk lines h (wrap 64 (pos + offset)) else Some false) with
          | None => None
          | Some true => Some (Some (wrap 64 (pos + offset)))
          | Some false => slide fuel lines h pos (offset + 1)
          end
      end
  end.

Definition applied_at (lines : list string) (h : Hunk) (pos : Z) : option (list string * bool) :=
  match applyAt lines h pos with Some r => Some (r, true) | None => None end.

Definition applyHunk (lines : list string) (h : Hunk) (ignoreApplied : bool)
    : option (list string * bool) :=
  if OldCount h =? 0 then applied_at lines h 0
  else
    match alreadyApplied lines h with
    | None => None
    | Some true => Some (lines, ignoreApplied)
    | Some false =>
        let pos := wrap 64 (OldStart h - 1) in
        let pos := if pos <? 0 then 0 else pos in
        match (if wrap 64 (pos + OldCount h) <=? zlen lines
               then verifyHunk lines h pos else Some false) with
        | None => None
        | Some true => applied_at lines h pos
        | Some false =>
            match slide (length lines) lines h pos 1 with
            | None => None
            | Some (Some p) => applied_at lines h p
            | Some None =>
                match alreadyApplied lines (reverseHunk h) with
                | None => None
                | Some _ => Some (lines, false)
                end
            end
        end
    end.

(** * Parsing unified diffs *)

(** A range of the header: start and count (1 when it is left out). *)
Definition parse_range (part : string) : Z * Z :=
  match Index part "," with
  | Some i => (AtoiVal (str_take i part), AtoiVal (str_drop (S i) part))
  | None => (AtoiVal part, 1)
  end.

Definition parseHunkHeader (line : string) : option Hunk :=
  let line := TrimPrefix line "@@ " in
  let line := match Index line " @@" with Some i => str_take i line | None => line end in
  match Fields line with
  | p0 :: p1 :: _ =>
      let '(os, oc) := parse_range (TrimPrefix p0 "-") in
      let '(ns, nc) := parse_range (TrimPrefix p1 "+") in
      Some {| OldStart := os; OldCount := oc; NewStart := ns; NewCount := nc; Lines := [] |}
  | _ => None
  end.

Record parse_state := {
  patches : list Patch; current : option Patch; currentHunk : option Hunk; inHunk : bool
}.

Definition add_hunk (p : Patch) (h : option Hunk) : Patch :=
  match h with
  | Some h => {| OldFile := OldFile p; NewFile := NewFile p; Hunks := Hunks p ++ [h] |}
  | None => p
  end.

Definition hunk_text_line (line : string) : bool :=
  (line =s? "") || HasPrefix line " " || HasPrefix line "+" || HasPrefix line "-" ||
  (line =s? "\ No newline at end of file").

(** The [switch] of the loop. *)
Definition parse_line (st : parse_state) (line : string) : parse_state :=
  if HasPrefix line "--- " then
    {| patches := match current st with
                  | Some p => patches st ++ [add_hunk p (currentHunk st)]
                  | None => patches st
                  end;
       current := Some {| OldFile := str_drop 4 line; NewFile := ""; Hunks := [] |};
       currentHunk := match current st with Some _ => None | None => currentHunk st end;
       inHunk := false |}
  else if HasPrefix line "+++ " then
    {| patches := patches st;
       current := match current st with
                  | Some p => Some {| OldFile := OldFile p; NewFile := str_drop 4 line;
                                      Hunks := Hunks p |}
                  | None => None
                  end;
       currentHunk := currentHunk st; inHunk := inHunk st |}
  else if HasPrefix line "@@ " then
    match current st with
    | None => st
    | Some p =>
        let p := add_hunk p (currentHunk st) in
        match parseHunkHeader line with
        | Some h => {| patches := patches st; current := Some p; currentHunk := Some h;
                       inHunk := true |}
        | None => {| patches := patches st; current := Some p; currentHunk := currentHunk st;
                     inHunk := inHunk st |}
        end
    end
  else
    match inHunk st, currentHunk st with
    | true, Some h =>
        if hunk_text_line line then
          {| patches := patches st; current := current st;
             currentHunk := Some (with_lines h (Lines h ++ [line])); inHunk := true |}
        else if HasPrefix line "-- " then st
        else {| patches := patches st; current := current st; currentHunk := Some h;
                inHunk := false |}
    | _, _ => st
    end.

(** The lines of the scanner: [parse_lines] is [ParsePatch] after line splitting. *)
Definition parse_lines (lines : list string) : list Patch :=
  let st := foldl parse_line
    {| patches := []; current := None; currentHunk := None; inHunk := false |} lines in
  match current st with
  | Some p => patches st ++ [add_hunk p (currentHunk st)]
  | None => patches st
  end.

Definition ParsePatch (data : string) : result string (list Patch) :=
  let '(lines, tooLong) := scan data in
  if tooLong then Err "bufio.Scanner: token too long" else Ok (parse_lines lines).

(** * Running a patch *)

Fixpoint skip_slashes (s : string) : string :=
  match s with
  | String c s' => if c =c? "/" then skip_slashes s' else s
  | "" => ""
  end.

(** The scan of [stripPath]: what follows the [n]th component, [None] when there are fewer. *)
Fixpoint skip_components (n components : Z) (inComponent : bool) (s : string) : option string :=
  match s with
  | "" => None
  | String c s =>
      if c =c? "/" then
        if inComponent then
          if components + 1 =? n then Some (skip_slashes s)
          else skip_components n (components + 1) false s
        else skip_components n components false s
      else skip_components n components true s
  end.

(** The last component: the path without trailing slashes, from its last slash on. *)
Fixpoint trim_slashes (s : string) : string :=
  match s with
  | "" => ""
  | String c s =>
      match trim_slashes s with
      | "" => if c =c? "/" then "" else String c ""
      | t => String c t
      end
  end.

Fixpoint after_slash (cur s : string) : string :=
  match s with
  | "" => cur
  | String c s => if c =c? "/" then after_slash "" s else after_slash (cur +:+ String c "") s
  end.

Definition last_component (path : string) : string := after_slash "" (trim_slashes path).

Definition stripPath (path : string) (n : Z) : string :=
  let path := match Index path (String "009" "") with Some i => str_take i path | None => path end in
  if n <=? 0 then path
  else match skip_components n 0 false path with
       | Some r => r
       | None => last_component path
       end.

Record PatchResult := {
  File : string; Applied : Z; Rejected : Z; IsNew : bool; Msg : string;
  FailedHunk : option Hunk; FailedHunkNum : Z
}.

(** The message about a hunk that does not apply. *)
Definition failure_msg (applied : bool) (hi : Z) (h : Hunk) : string :=
  (if applied then "Possibly reversed hunk " +:+ FormatInt (hi + 1) +:+ " at " +:+
                   FormatInt (wrap 64 (NewStart h + NewCount h)) +:+ nl else "") +:+
  "Hunk " +:+ FormatInt (hi + 1) +:+ " FAILED 1/1." +:+ nl +:+
  sconcat ((fun l => l +:+ nl) <$> Lines h).

(** The loop of [Run] over the hunks: it stops at the first that fails. *)
Fixpoint run_hunks (hs : list Hunk) (hi : Z) (reverse ignoreApplied : bool) (lines : list string)
    (res : PatchResult) : option (list string * PatchResult) :=
  match hs with
  | [] => Some (lines, res)
  | hunk :: hs =>
      let h := if reverse then reverseHunk hunk else hunk in
      match applyHunk lines h ignoreApplied with
      | None => None
      | Some (lines, true) =>
          run_hunks hs (hi + 1) reverse ignoreApplied lines
            {| File := File res; Applied := Applied res + 1; Rejected := Rejected res;
               IsNew := IsNew res; Msg := Msg res; FailedHunk := FailedHunk res;
               FailedHunkNum := FailedHunkNum res |}
      | Some (_, false) =>
          match alreadyApplied lines hunk with
          | None => None
          | Some applied =>
              Some (lines,
                {| File := File res; Applied := Applied res; Rejected := Rejected res + 1;
                   IsNew := IsNew res; Msg := failure_msg applied hi hunk;
                   FailedHunk := Some hunk; FailedHunkNum := hi + 1 |})
          end
      end
  end.

Fixpoint join_nl (l : list string) : string :=
  match l with
  | [] => ""
  | [w] => w
  | w :: ws => w +:+ nl +:+ join_nl ws
  end.

Definition ends_nl (s : string) : bool :=
  match last (String.list_ascii_of_string s) with Some c => code c =? 10 | None => false end.

Definition file_lines (original : string) : list string :=
  let lines := split_nl original in
  if ends_nl original then take (length lines - 1) lines else lines.

Inductive read_error := NotExist | OtherError (msg : string).

(** What [Run] returns, and the file it wrote. *)
Record run_outcome := {
  outcome : option PatchResult; err : option string; written : option (string * string)
}.

Section Run.
(** [os.ReadFile]; and [os.WriteFile] with its error, if any. *)
Variable readFile : string -> result read_error string.
Variable writeFile : string -> string -> option string.

Definition fail (msg : string) : run_outcome :=
  {| outcome := None; err := Some msg; written := None |}.

Definition Run (patchData targetPath : string) (stripLevel : Z) (reverse ignoreApplied : bool)
    : option run_outcome :=
  match ParsePatch patchData with
  | Err e => Some (fail ("parse patch: " +:+ e))
  | Ok [] => Some (fail "no patches found in input")
  | Ok (p :: _) =>
      let oldFile := stripPath (OldFile p) stripLevel in
      let newFile := stripPath (NewFile p) stripLevel in
      let target := if targetPath =s? "" then newFile else targetPath in
      let isNewFile := (oldFile =s? "/dev/null") || (OldFile p =s? "/dev/null") in
      match (if isNewFile then Ok "" else readFile target) with
      | Err e =>
          let msg := match e with NotExist => "No such file or directory" | OtherError m => m end in
          Some {| outcome := Some {| File := target; Applied := 0; Rejected := zlen (Hunks p);
                    IsNew := false;
                    Msg := "patch: can't open '" +:+ target +:+ "': " +:+ msg;
                    FailedHunk := None; FailedHunkNum := 0 |};
                  err := Some ("can't open '" +:+ target +:+ "': " +:+ msg); written := None |}
      | Ok original =>
          let lines := if isNewFile then [] else file_lines original in
          match run_hunks (Hunks p) 0 reverse ignoreApplied lines
                  {| File := target; Applied := 0; Rejected := 0; IsNew := isNewFile; Msg := "";
                     FailedHunk := None; FailedHunkNum := 0 |} with
          | None => None
          | Some (lines, res) =>
              let output :=
                join_nl lines +:+ (if isNewFile || ends_nl original then nl else "") in
              let write := if 0 <? Applied res then Some (target, output) else None in
              match (match write with Some (t, o) => writeFile t o | None => None end) with
              | Some e =>
                  Some {| outcome := Some res; err := Some ("write " +:+ target +:+ ": " +:+ e);
                          written := None |}
              | None =>
                  Some {| outcome := Some res;
                          err := if 0 <? Rejected res
                                 then Some (FormatInt (Rejected res) +:+ " hunk(s) failed")
                                 else None;
                          written := write |}
              end
          end
      end
  end.
End Run.

(** * Lemmas *)

Example strip_examples :
  (stripPath "a/b/c.txt" 1, stripPath "/usr//src/x" 2, stripPath "a/b" 5, stripPath "x//" 3) =
  ("b/c.txt", "x", "b", "x").
Proof. reflexivity. Qed.

(** A hunk line: a blank, "-" or "+" and a text. *)
Definition hunk_line_ok (l : string) : Prop :=
  exists c t, l = String c t /\ (c = " "%char \/ c = "-"%char \/ c = "+"%char).

(** The two sides of a hunk. *)
Definition old_lines (hl : list string) : list string :=
  omap (fun l => if HasPrefix l "-" || HasPrefix l " " then Some (body l) else None) hl.

Lemma prefix_char c d t : HasPrefix (String c t) (String d "") = (d =c? c).
Proof. simpl. by rewrite andb_true_r. Qed.

#[local] Arguments HasPrefix : simpl never.

Lemma body_cons c t : body (String c t) = t.
Proof. reflexivity. Qed.

Ltac hunk_cases H :=
  let c := fresh "c" in let t := fresh "t" in
  destruct H as (c & t & -> & [-> | [-> | ->]]).

Lemma aget_drop {A} (l : list A) i x r : 0 <= i -> drop (Z.to_nat i) l = x :: r ->
  aget l i = Some x /\ i < zlen l /\ drop (Z.to_nat (i + 1)) l = r.
Proof.
  intros Hi E. assert (l !! Z.to_nat i = Some x) as Hx.
  { rewrite <- (Nat.add_0_r (Z.to_nat i)), <- lookup_drop, E. done. }
  pose proof (lookup_lt_Some _ _ _ Hx). unfold aget, zlen. destruct (Z.ltb_spec i 0); [lia|].
  repeat split; [done|lia|]. replace (Z.to_nat (i + 1)) with (1 + Z.to_nat i)%nat by lia.
  rewrite Nat.add_comm, <- drop_drop, E. done.
Qed.

(** A hunk whose old side stands at a position verifies there. *)
Lemma verify_lines_match lines hl : forall off,
  0 <= off -> Forall hunk_line_ok hl ->
  old_lines hl `prefix_of` drop (Z.to_nat off) lines -> verify_lines lines hl off = Some true.
Proof.
  induction hl as [|l hl IH]; intros off H0 Hok Hp; [done|].
  inversion Hok as [|? ? Hl Hok']; subst. cbn [verify_lines]. unfold old_lines in Hp.
  hunk_cases Hl; rewrite !prefix_char; cbn [Ascii.eqb Bool.eqb].
  3: { apply IH; [done..|]. exact Hp. }
  all: destruct Hp as [r Hr];
    destruct (aget_drop lines off _ _ H0 Hr) as (Hg & Hlt & Hd).
  all: rewrite (proj2 (Z.ltb_lt _ _) Hlt), Hg, !body_cons; cbn [orb String.eqb];
    rewrite seqb_refl; apply IH; [lia|done|].
  all: rewrite Hd; by exists r.
Qed.

Lemma new_lines_app hl kl : new_lines (hl ++ kl) = new_lines hl ++ new_lines kl.
Proof. apply omap_app. Qed.

(** ** Applying where the header says *)

(** The old side of [h] is in the file where its header says. *)
Definition fits (lines : list string) (h : Hunk) : Prop :=
  Forall hunk_line_ok (Lines h) /\ 0 < OldCount h /\ 1 <= OldStart h < 2 ^ 62 /\
  OldCount h = zlen (old_lines (Lines h)) /\
  old_lines (Lines h) `prefix_of` drop (Z.to_nat (OldStart h - 1)) lines.

Definition replaced (lines : list string) (h : Hunk) : list string :=
  take (Z.to_nat (OldStart h - 1)) lines ++ new_lines (Lines h) ++
  drop (Z.to_nat (OldStart h - 1 + OldCount h)) lines.

Lemma fits_range lines h : fits lines h -> OldStart h - 1 + OldCount h <= zlen lines.
Proof.
  intros (_ & Hc & Hs & Hn & Hp). apply prefix_length in Hp. rewrite length_drop in Hp.
  unfold zlen in *. lia.
Qed.

Lemma applyAt_fits lines h :
  zlen lines < 2 ^ 62 -> fits lines h -> applyAt lines h (OldStart h - 1) = Some (replaced lines h).
Proof.
  intros Hlen Hf. pose proof (fits_range lines h Hf) as Hr. destruct Hf as (_ & Hc & Hs & _).
  unfold applyAt, replaced. rewrite (proj2 (Z.ltb_lt _ _)) by lia.
  rewrite (proj2 (Z.ltb_ge _ _)) by lia. rewrite wrap_small by lia.
  destruct (Z.ltb_spec (OldStart h - 1 + OldCount h) (zlen lines)).
  - rewrite (proj2 (Z.ltb_ge _ _)) by lia. done.
  - rewrite (drop_ge lines) by (unfold zlen in *; lia). by rewrite app_nil_r.
Qed.

Lemma applyHunk_fits lines h ignoreApplied :
  zlen lines < 2 ^ 62 -> fits lines h -> alreadyApplied lines h = Some false ->
  applyHunk lines h ignoreApplied = Some (replaced lines h, true).
Proof.
  intros Hlen Hf Ha. pose proof (fits_range lines h Hf) as Hr.
  pose proof (applyAt_fits lines h Hlen Hf) as Hat. destruct Hf as (Hok & Hc & Hs & Hn & Hp).
  unfold applyHunk. destruct (Z.eqb_spec (OldCount h) 0); [lia|]. rewrite Ha.
  rewrite !(wrap_small 64 (OldStart h - 1)) by lia.
  rewrite (proj2 (Z.ltb_ge (OldStart h - 1) 0)) by lia. rewrite wrap_small by lia.
  rewrite (proj2 (Z.leb_le _ _) Hr). unfold verifyHunk.
  rewrite (proj2 (Z.ltb_ge (OldStart h - 1) 0)) by lia.
  rewrite verify_lines_match by (done || lia). unfold applied_at. by rewrite Hat.
Qed.

(** ** Reversal *)

Lemma reverse_line_ok l : hunk_line_ok l ->
  hunk_line_ok (if HasPrefix l "+" then "-" +:+ body l
                else if HasPrefix l "-" then "+" +:+ body l else l).
Proof.
  intros Hl. hunk_cases Hl; rewrite !prefix_char; cbn [Ascii.eqb Bool.eqb]; rewrite ?body_cons;
    eexists _, _; (split; [reflexivity|]); auto.
Qed.

Lemma reverseHunk_sides h : Forall hunk_line_ok (Lines h) ->
  Forall hunk_line_ok (Lines (reverseHunk h)) /\
  old_lines (Lines (reverseHunk h)) = new_lines (Lines h) /\
  new_lines (Lines (reverseHunk h)) = old_lines (Lines h) /\
  reverseHunk (reverseHunk h) = h.
Proof.
  destruct h as [os oc ns nc hl]. unfold reverseHunk. cbn [Lines OldStart OldCount NewStart NewCount].
  intros Hok. split; [|split; [|split]].
  - apply Forall_fmap. eapply Forall_impl; [exact Hok|]. intros l. apply reverse_line_ok.
  - unfold old_lines, new_lines. induction Hok as [|l hl Hl Hok IH]; [done|].
    hunk_cases Hl; simpl;
      (exact IH || (f_equal; exact IH)).
  - unfold old_lines, new_lines. induction Hok as [|l hl Hl Hok IH]; [done|].
    hunk_cases Hl; simpl;
      (exact IH || (f_equal; exact IH)).
  - f_equal. rewrite <- list_fmap_compose. rewrite <- (list_fmap_id hl) at 2.
    apply list_fmap_ext. intros i l Hl. rewrite Forall_lookup in Hok.
    specialize (Hok _ _ Hl) as Hk. hunk_cases Hk; reflexivity.
Qed.

(** Undoing a hunk. *)
Lemma reverse_fits lines h :
  fits lines h -> NewStart h = OldStart h -> NewCount h = zlen (new_lines (Lines h)) ->
  0 < NewCount h ->
  fits (replaced lines h) (reverseHunk h) /\ replaced (replaced lines h) (reverseHunk h) = lines.
Proof.
  intros Hf Hns Hnc Hpos. pose proof (fits_range lines h Hf) as Hr.
  destruct Hf as (Hok & Hc & Hs & Hn & Hp).
  destruct (reverseHunk_sides h Hok) as (Hok' & Eo & En & _).
  assert (length (take (Z.to_nat (OldStart h - 1)) lines) = Z.to_nat (OldStart h - 1)) as Hlen.
  { rewrite length_take. unfold zlen in Hr. lia. }
  assert (drop (Z.to_nat (NewStart h - 1)) (replaced lines h) =
    new_lines (Lines h) ++ drop (Z.to_nat (OldStart h - 1 + OldCount h)) lines) as Ed.
  { unfold replaced. rewrite Hns, <- Hlen at 1. apply drop_app_length. }
  split.
  - split; [done|]. split; [simpl; lia|]. split; [simpl; lia|]. rewrite Eo.
    split; [simpl; lia|]. change (OldStart (reverseHunk h)) with (NewStart h). rewrite Ed. by eexists.
  - unfold replaced at 1. rewrite En. change (OldStart (reverseHunk h)) with (NewStart h).
    change (OldCount (reverseHunk h)) with (NewCount h).
    replace (Z.to_nat (NewStart h - 1 + NewCount h))
      with (Z.to_nat (NewStart h - 1) + Z.to_nat (NewCount h))%nat by lia.
    replace (Z.to_nat (NewCount h)) with (length (new_lines (Lines h)))
      by (rewrite Hnc; unfold zlen; lia).
    rewrite <- drop_drop, Ed, drop_app_length.
    unfold replaced. rewrite Hns, <- Hlen at 1. rewrite take_app_length.
    destruct Hp as [r Hr']. replace (Z.to_nat (OldStart h - 1 + OldCount h))
      with (Z.to_nat (OldStart h - 1) + length (old_lines (Lines h)))%nat
      by (rewrite Hn; unfold zlen; lia).
    rewrite <- drop_drop, Hr', drop_app_length, <- Hr'.
    apply take_drop.
Qed.

(** * Properties *)

(** A hunk is applied where it says.  When the old side of a hunk is in the file at the
    position of its header, and the hunk does not look applied already, [applyHunk] replaces
    exactly these lines by the new side and changes nothing else. *)
Theorem applyHunk_exact lines h ignoreApplied :
  zlen lines < 2 ^ 62 -> fits lines h -> alreadyApplied lines h = Some false ->
  applyHunk lines h ignoreApplied = Some (replaced lines h, true).
Proof. apply applyHunk_fits. Qed.

Definition demo_hunk : Hunk :=
  {| OldStart := 2; OldCount := 2; NewStart := 2; NewCount := 2; Lines := [" b"; "-c"; "+x"] |}.

Lemma demo_hunk_fits : fits ["a"; "b"; "c"; "d"] demo_hunk.
Proof.
  unfold fits, demo_hunk. cbn [Lines OldStart OldCount]. split; [|split; [lia|split; [lia|split; [done|]]]].
  - repeat apply Forall_cons_2; [eexists _, _; split; [reflexivity|]; auto..|constructor].
  - by exists ["d"].
Qed.

Lemma applyHunk_exact_witness :
  applyHunk ["a"; "b"; "c"; "d"] demo_hunk false = Some (["a"; "b"; "x"; "d"], true).
Proof.
  apply (applyHunk_exact ["a"; "b"; "c"; "d"] demo_hunk false);
    [reflexivity|exact demo_hunk_fits|vm_compute; reflexivity].
Defined.

(** Patch -R undoes patch.  A hunk that fits, with the same start in both files, turns the
    lines into new ones in which the reversed hunk fits, and applying that gives the original
    lines back. *)
Theorem reverseHunk_undoes lines h ignoreApplied :
  zlen lines < 2 ^ 62 -> zlen (replaced lines h) < 2 ^ 62 ->
  fits lines h -> NewStart h = OldStart h ->
  NewCount h = zlen (new_lines (Lines h)) -> 0 < NewCount h ->
  alreadyApplied lines h = Some false ->
  alreadyApplied (replaced lines h) (reverseHunk h) = Some false ->
  exists lines', applyHunk lines h ignoreApplied = Some (lines', true) /\
    applyHunk lines' (reverseHunk h) ignoreApplied = Some (lines, true).
Proof.
  intros Hl Hl' Hf Hs Hn Hpos Ha Ha'. exists (replaced lines h).
  destruct (reverse_fits lines h Hf Hs Hn Hpos) as [Hf' E].
  split; [by apply applyHunk_fits|]. rewrite <- E at 2. by apply applyHunk_fits.
Qed.

Lemma reverseHunk_undoes_witness :
  exists lines', applyHunk ["a"; "b"; "c"; "d"] demo_hunk false = Some (lines', true) /\
    applyHunk lines' (reverseHunk demo_hunk) false = Some (["a"; "b"; "c"; "d"], true).
Proof.
  apply (reverseHunk_undoes ["a"; "b"; "c"; "d"] demo_hunk false);
    try exact demo_hunk_fits; vm_compute; reflexivity.
Defined.

(** A valid hunk that deletes one of several equal lines is refused: its result is found in the
    unpatched file. *)
Theorem deletion_of_duplicate_refused :
  applyHunk ["a"; "a"; "a"; "a"]
    {| OldStart := 1; OldCount := 4; NewStart := 1; NewCount := 3;
       Lines := [" a"; " a"; " a"; "-a"] |} false = Some (["a"; "a"; "a"; "a"], false).
Proof. vm_compute. reflexivity. Qed.

(** A hunk without old lines is inserted at the top, wherever its header puts it. *)
Theorem insertion_without_context_misplaced :
  applyHunk ["a"; "b"; "c"]
    {| OldStart := 2; OldCount := 0; NewStart := 3; NewCount := 1; Lines := ["+x"] |} false =
  Some (["x"; "a"; "b"; "c"], true).
Proof. vm_compute. reflexivity. Qed.

(** A header with a negative count crashes the program. *)
Theorem negative_count_panics :
  Run (fun _ => Ok ("a" +:+ nl +:+ "b" +:+ nl)) (fun _ _ => None)
    (sconcat ["--- f"; nl; "+++ f"; nl; "@@ -1,-5 +1 @@"; nl; " a"; nl; "+x"; nl]) "" 0 false false = None.
Proof. vm_compute. reflexivity. Qed.

(** Deleting a line that starts with two dashes and a blank ends the patch: the diff line is
    read as the header of another file. *)
Theorem deleted_dashes_start_new_patch :
  length (parse_lines ["--- f"; "+++ f"; "@@ -1,2 +1 @@"; "--- comment"; " a"]) = 2%nat.
Proof. vm_compute. reflexivity. Qed.
