(* ===== verification/DiffPatch.v ===== *)
(** diff and patch together: what diff prints, patch reads back and applies.

    The text is the one of [Diff.unified_text]; the files have no carriage returns at line ends
    and no lines the scanner of patch refuses, and no deleted or inserted line looks like a file
    header (see the findings about patch). *)

From S2P Require Import Prelude GoStd Utf8 Scanner Myers Diff Patch.

Local Open Scope Z_scope.

(** * Headers *)

Definition no_char (d : ascii) (s : string) : bool := str_forall (fun c => negb (c =c? d)) s.

Lemma FormatInt_no_char d z : 0 <= z -> is_digit d = false -> no_char d (FormatInt z) = true.
Proof.
  intros Hz Hd. eapply str_forall_impl; [|apply FormatInt_digits, Hz].
  intros c Hc. by apply digit_not.
Qed.

Lemma Index_skip w d p s :
  no_char d w = true ->
  Index (w +:+ s) (String d p) = (match Index s (String d p) with
                                  | Some i => Some (String.length w + i)%nat | None => None end).
Proof.
  unfold no_char. induction w as [|c w IH]; intros Hw.
  - rewrite sapp_nil_l. cbn [String.length Nat.add]. by destruct (Index s _).
  - cbn [str_forall] in Hw. apply andb_true_iff in Hw as [Hc Hw]. rewrite sapp_cons.
    cbn [Index HasPrefix]. apply negb_true_iff in Hc.
    assert ((d =c? c) = false) as ->.
    { destruct (ceqb_spec d c) as [->|]; [|done]. by rewrite Ascii.eqb_refl in Hc. }
    cbn [andb]. rewrite (IH Hw). by destruct (Index s _).
Qed.

Lemma split_comma w s :
  no_char "," w = true ->
  parse_range (w +:+ "," +:+ s) = (AtoiVal w, AtoiVal s).
Proof.
  intros Hw. unfold parse_range. rewrite (Index_skip w "," "") by done.
  replace (Index ("," +:+ s) ",") with (Some 0%nat) by done.
  rewrite Nat.add_0_r, str_take_exact.
  replace (S (String.length w)) with (String.length (w +:+ ",")) by (rewrite slength_app; simpl; lia).
  by rewrite <- sapp_assoc, str_drop_exact.
Qed.

(** What patch reads for a range that diff printed. *)
Lemma parse_range_str start count :
  0 <= start < 2 ^ 63 -> 0 <= count < 2 ^ 63 -> (count = 0 -> 1 <= start) ->
  parse_range (range_str start count) = (if count =? 0 then start - 1 else start, count).
Proof.
  intros Hs Hc H0. unfold range_str.
  destruct (Z.eqb_spec count 1) as [->|H1].
  - unfold parse_range. rewrite <- (sapp_nil_r (FormatInt start)) at 1.
    rewrite Index_skip by (apply FormatInt_no_char; [lia|reflexivity]).
    cbn [Index HasPrefix]. by rewrite AtoiVal_FormatInt by lia.
  - destruct (Z.eqb_spec count 0) as [->|Hne].
    + change (FormatInt (start - 1) +:+ ",0") with (FormatInt (start - 1) +:+ "," +:+ "0").
      rewrite (split_comma (FormatInt (start - 1)) "0") by (apply FormatInt_no_char; [lia|reflexivity]).
      by rewrite AtoiVal_FormatInt by lia.
    + rewrite (split_comma (FormatInt start) (FormatInt count))
        by (apply FormatInt_no_char; [lia|reflexivity]).
      by rewrite !AtoiVal_FormatInt by lia.
Qed.

(** ** The header line *)

Lemma word_FormatInt z : 0 <= z -> word (FormatInt z) = true.
Proof.
  intros Hz. eapply str_forall_impl; [|apply FormatInt_digits, Hz].
  intros c. unfold is_digit. lia.
Qed.

Lemma word_range start count :
  0 <= start -> 0 <= count -> (count = 0 -> 1 <= start) -> word (range_str start count) = true.
Proof.
  intros Hs Hc H0. unfold range_str. destruct (count =? 1); [by apply word_FormatInt|].
  destruct (Z.eqb_spec count 0).
  - apply word_app; [apply word_FormatInt; lia|done].
  - apply word_app; [by apply word_FormatInt|]. apply (word_app ","); [done|by apply word_FormatInt].
Qed.

Lemma word_no_space s : word s = true -> no_char " " s = true.
Proof.
  intros H. eapply str_forall_impl; [|exact H]. intros c Hc.
  destruct (ceqb_spec c " ") as [->|]; done.
Qed.

(** Two words are two fields. *)
Lemma Fields_two v w :
  word v = true -> word w = true -> v <> "" -> w <> "" -> Fields (v +:+ " " +:+ w) = [v; w].
Proof. intros. by rewrite Fields_cons, Fields_one. Qed.

(** The header as patch understands it. *)
Definition read_hunk (h : Diff.Hunk) (ls : list string) : Patch.Hunk :=
  {| Patch.OldStart := (if OldLines h =? 0 then Diff.OldStart h - 1 else Diff.OldStart h);
     OldCount := OldLines h;
     Patch.NewStart := (if NewLines h =? 0 then Diff.NewStart h - 1 else Diff.NewStart h);
     NewCount := NewLines h; Patch.Lines := ls |}.

Definition header_ok (h : Diff.Hunk) : Prop :=
  1 <= Diff.OldStart h < 2 ^ 63 /\ 1 <= Diff.NewStart h < 2 ^ 63 /\
  0 <= OldLines h < 2 ^ 63 /\ 0 <= NewLines h < 2 ^ 63.

Lemma parse_hunk_header h :
  header_ok h -> parseHunkHeader (hunk_header h) = Some (read_hunk h []).
Proof.
  intros (Ho & Hn & Hol & Hnl). unfold parseHunkHeader, hunk_header.
  set (R := range_str (Diff.OldStart h) (OldLines h)).
  set (S := range_str (Diff.NewStart h) (NewLines h)).
  assert (word R = true) as HR by (apply word_range; lia).
  assert (word S = true) as HS by (apply word_range; lia).
  assert (TrimPrefix ("@@ -" +:+ R +:+ " +" +:+ S +:+ " @@") "@@ " = "-" +:+ R +:+ " +" +:+ S +:+ " @@") as ->
    by done.
  assert (Index ("-" +:+ R +:+ " +" +:+ S +:+ " @@") " @@" =
          Some (String.length ("-" +:+ R +:+ " +" +:+ S))) as ->.
  { rewrite <- (sapp_assoc "-" R), Index_skip by (apply word_no_space; by apply (word_app "-")).
    change (" +" +:+ S +:+ " @@") with (String " " (("+" +:+ S) +:+ " @@")). cbn [Index HasPrefix].
    replace ("@" =c? "+") with false by done. cbn [Ascii.eqb Bool.eqb andb].
    rewrite (Index_skip ("+" +:+ S)) by (apply word_no_space; by apply (word_app "+")).
    replace (Index " @@" " @@") with (Some 0%nat) by done. f_equal. rewrite !slength_app. simpl. lia. }
  replace ("-" +:+ R +:+ " +" +:+ S +:+ " @@") with (("-" +:+ R +:+ " +" +:+ S) +:+ " @@")
    by (by rewrite !sapp_assoc).
  rewrite str_take_exact.
  replace ("-" +:+ R +:+ " +" +:+ S) with (("-" +:+ R) +:+ " " +:+ ("+" +:+ S)) by (by rewrite !sapp_assoc).
  rewrite Fields_two by (done || by apply (word_app "-") || by apply (word_app "+")).
  replace (TrimPrefix ("-" +:+ R) "-") with R by done.
  replace (TrimPrefix ("+" +:+ S) "+") with S by done.
  unfold R, S. rewrite !parse_range_str by lia. done.
Qed.

(** * The text *)

Definition marker : string := "\ No newline at end of file".

(** A line of a hunk that patch takes for one. *)
Definition body_ok (l : string) : Prop :=
  hunk_text_line l = true /\ HasPrefix l "@@ " = false /\
  HasPrefix l "--- " = false /\ HasPrefix l "+++ " = false.

Lemma fold_lines ls : forall st h,
  currentHunk st = Some h -> inHunk st = true -> Forall body_ok ls ->
  foldl parse_line st ls =
    {| patches := patches st; current := current st;
       currentHunk := Some (with_lines h (Patch.Lines h ++ ls)); inHunk := true |}.
Proof.
  induction ls as [|l ls IH]; intros st h Hc Hi Hok.
  - simpl. destruct st as [ps cur ch ih]. simpl in *. subst. destruct h. unfold with_lines. simpl.
    by rewrite app_nil_r.
  - inversion Hok as [|? ? (Ht & H1 & H2 & H3) Hok']; subst. cbn [foldl].
    assert (parse_line st l = {| patches := patches st; current := current st;
      currentHunk := Some (with_lines h (Patch.Lines h ++ [l])); inHunk := true |}) as ->
      by (unfold parse_line; rewrite H2, H3, H1, Hi, Hc, Ht; done).
    rewrite (IH _ (with_lines h (Patch.Lines h ++ [l]))) by done. simpl.
    unfold with_lines. simpl. by rewrite <- app_assoc.
Qed.

(** The end of [ParsePatch]. *)
Definition finish (st : parse_state) : list Patch :=
  match current st with
  | Some p => patches st ++ [add_hunk p (currentHunk st)]
  | None => patches st
  end.

Definition extend (p : Patch) (hs : list Patch.Hunk) : Patch :=
  {| OldFile := OldFile p; NewFile := NewFile p; Hunks := Hunks p ++ hs |}.

Definition marker_of (n1 n2 : bool) (h : Diff.Hunk) : list string :=
  match last (Diff.Lines h) with
  | Some (String c _) =>
      if ((c =c? "-") && negb n1) || ((c =c? "+") && negb n2) then [marker] else []
  | _ => []
  end.

Lemma header_not_file h : HasPrefix (hunk_header h) "--- " = false /\
  HasPrefix (hunk_header h) "+++ " = false /\ HasPrefix (hunk_header h) "@@ " = true.
Proof. unfold hunk_header. done. Qed.

Lemma fold_hunks n1 n2 hs : forall st p,
  current st = Some p -> Forall header_ok hs ->
  Forall (fun h => Forall body_ok (Diff.Lines h)) hs ->
  finish (foldl parse_line st (concat (hunk_text n1 n2 <$> hs))) =
    patches st ++
      [extend (add_hunk p (currentHunk st))
         ((fun h => read_hunk h (Diff.Lines h ++ marker_of n1 n2 h)) <$> hs)].
Proof.
  induction hs as [|h hs IH]; intros st p Hc Hh Hb.
  - simpl. unfold finish. rewrite Hc. unfold extend. rewrite app_nil_r. by destruct (add_hunk _ _).
  - inversion Hh as [|? ? Hh1 Hh2]; inversion Hb as [|? ? Hb1 Hb2]; subst.
    rewrite fmap_cons, concat_cons, foldl_app.
    change (hunk_text n1 n2 h) with (hunk_header h :: Diff.Lines h ++ marker_of n1 n2 h).
    cbn [foldl].
    destruct (header_not_file h) as (F1 & F2 & F3).
    assert (parse_line st (hunk_header h) =
      {| patches := patches st; current := Some (add_hunk p (currentHunk st));
         currentHunk := Some (read_hunk h []); inHunk := true |}) as ->.
    { unfold parse_line. by rewrite F1, F2, F3, Hc, parse_hunk_header. }
    rewrite (fold_lines (Diff.Lines h ++ marker_of n1 n2 h) _ (read_hunk h [])); [|done|done|].
    2: { apply Forall_app. split; [done|]. unfold marker_of. repeat case_match; repeat constructor. }
    simpl. rewrite (IH _ (add_hunk p (currentHunk st))) by done. simpl. do 2 f_equal.
    unfold extend. simpl. by rewrite <- app_assoc.
Qed.

(** What patch reads from the output of diff. *)
Lemma parse_unified f1 f2 n1 n2 hs :
  Forall header_ok hs -> Forall (fun h => Forall body_ok (Diff.Lines h)) hs ->
  parse_lines (unified_text f1 f2 n1 n2 hs) =
    [{| OldFile := f1; NewFile := f2;
        Hunks := (fun h => read_hunk h (Diff.Lines h ++ marker_of n1 n2 h)) <$> hs |}].
Proof.
  intros Hh Hb. unfold parse_lines, unified_text. cbn [foldl].
  change (match current ?s with Some p => patches ?s ++ [add_hunk p (currentHunk ?s)]
          | None => patches ?s end) with (finish s).
  rewrite (fold_hunks n1 n2 hs _ {| OldFile := f1; NewFile := f2; Hunks := [] |}); done.
Qed.

(** * Files and lines *)

Lemma ParsePatch_text ls : Forall safe_line ls -> ParsePatch (text_of_lines ls) = Ok (parse_lines ls).
Proof. intros H. unfold ParsePatch. by rewrite scan_text. Qed.

Lemma split_same s : split_lines s = split_nl s.
Proof. induction s as [|c s IH]; [done|]. simpl. by rewrite IH. Qed.

(** A file that ends in a newline is the text of its lines. *)
Lemma file_ends_nl s : ends_newline s = true ->
  exists ls, ls <> [] /\ split_nl s = ls ++ [""] /\ s = text_of_lines ls.
Proof.
  unfold ends_newline. induction s as [|c s IH]; [done|].
  destruct s as [|d s].
  - cbn. intros Hc. exists [""]. rewrite Hc. split; [done|]. split; [done|].
    assert (c = "010"%char) as ->; [|done].
    rewrite <- (chr_code c). apply Z.eqb_eq in Hc. by rewrite Hc.
  - intros H. destruct IH as (ls & Hne & Hs & Ht); [exact H|].
    cbn [split_nl] in *. rewrite Hs. destruct (Z.eqb_spec (code c) 10) as [E|E].
    + exists ("" :: ls). split; [done|]. split; [done|].
      assert (c = "010"%char) as -> by (rewrite <- (chr_code c); by rewrite E).
      rewrite text_cons, <- Ht. done.
    + destruct ls as [|l ls]; [done|]. exists (String c l :: ls). split; [done|]. split; [done|].
      rewrite text_cons in *. by rewrite Ht.
Qed.

Lemma join_text ls : ls <> [] -> join_nl ls +:+ nl = text_of_lines ls.
Proof.
  intros H. induction ls as [|l ls IH]; [done|]. rewrite text_cons. destruct ls as [|k ls].
  - simpl. by rewrite sapp_nil_r.
  - change (join_nl (l :: k :: ls)) with (l +:+ nl +:+ join_nl (k :: ls)).
    rewrite !sapp_assoc, IH by done. done.
Qed.

Lemma file_lines_nl s ls : ends_newline s = true -> split_nl s = ls ++ [""] ->
  file_lines s = ls /\ content_lines s = ls.
Proof.
  intros He Hs. split.
  - unfold file_lines. change (ends_nl s) with (ends_newline s). rewrite He, Hs, length_app. simpl.
    replace (length ls + 1 - 1)%nat with (length ls) by lia. apply take_app_length.
  - unfold content_lines. destruct (seqb_spec s "") as [->|]; [done|].
    rewrite split_same, Hs, last_snoc. simpl. rewrite length_app. simpl.
    replace (length ls + 1 - 1)%nat with (length ls) by lia. apply take_app_length.
Qed.

(** * A printed hunk fits *)

Lemma diff_lines_ok s : Forall hunk_line_ok (Diff.hunk_line <$> s) /\
  old_lines (Diff.hunk_line <$> s) = old_side s /\ new_lines (Diff.hunk_line <$> s) = new_side s.
Proof.
  split; [|split].
  - apply Forall_fmap, Forall_true. intros [[] t]; eexists _, t; (split; [reflexivity|]); auto.
  - unfold old_lines, old_side. induction s as [|[[] t] s IH]; simpl; [done|..];
      (exact IH || (f_equal; exact IH)).
  - unfold new_lines, new_side. induction s as [|[[] t] s IH]; simpl; [done|..];
      (exact IH || (f_equal; exact IH)).
Qed.

(** The only hunk of a diff, as patch reads it. *)
Lemma single_hunk_fits old new h script s e :
  h = make_hunk script s e -> apply_hunks 1 1 old [h] = Some new -> 0 < OldLines h ->
  zlen old < 2 ^ 61 ->
  fits old (read_hunk h (Diff.Lines h)) /\ replaced old (read_hunk h (Diff.Lines h)) = new.
Proof.
  intros Hh Happ Hpos Hlen. cbn [apply_hunks] in Happ.
  destruct (_ && _ && _ && _) eqn:Ec; [|done]. injection Happ as <-.
  rewrite !andb_true_iff in Ec. destruct Ec as [[[E1 E2] E3] E4].
  apply Z.leb_le in E1. apply bool_decide_eq_true in E4.
  set (b := drop (Z.to_nat s) (take (Z.to_nat e) script)).
  assert (Diff.Lines h = Diff.hunk_line <$> b) as El by (by rewrite Hh).
  assert (OldLines h = zlen (old_side b)) as Eo by (rewrite Hh; apply count_old).
  destruct (diff_lines_ok b) as (Hok & Hold & Hnew).
  rewrite El, hunk_old_side in E4. rewrite El, hunk_new_side.
  assert (old_side b `prefix_of` drop (Z.to_nat (Diff.OldStart h - 1)) old) as Hp.
  { exists (drop (Z.to_nat (OldLines h)) (drop (Z.to_nat (Diff.OldStart h - 1)) old)).
    rewrite <- E4. symmetry. apply take_drop. }
  pose proof (prefix_length _ _ Hp) as Hpl. rewrite length_drop in Hpl.
  unfold fits, replaced, read_hunk.
  cbn [Patch.Lines Patch.OldStart OldCount Patch.NewStart NewCount].
  destruct (Z.eqb_spec (OldLines h) 0); [lia|]. rewrite Hold, Hnew. split.
  - split; [done|]. split; [done|]. split; [unfold zlen in *; lia|]. by split.
  - do 3 f_equal. lia.
Qed.

Lemma header_ok_made h script s e old new :
  h = make_hunk script s e -> apply_hunks 1 1 old [h] = Some new ->
  zlen old < 2 ^ 61 -> zlen new < 2 ^ 61 -> 0 < OldLines h -> header_ok h.
Proof.
  intros Hh Happ Hl Hl' Hpos.
  destruct (single_hunk_fits old new h script s e Hh Happ Hpos Hl) as [Hf _].
  pose proof (fits_range _ _ Hf) as Hr. destruct Hf as (_ & _ & Hs & _).
  cbn [read_hunk Patch.OldStart OldCount] in Hr, Hs.
  rewrite (proj2 (Z.eqb_neq (OldLines h) 0)) in Hr, Hs by lia.
  clear Hh. cbn [apply_hunks] in Happ. destruct (_ && _ && _ && _) eqn:Ec; [|done]. injection Happ as <-.
  rewrite !andb_true_iff in Ec. destruct Ec as [[[E1 E2] E3] E4].
  apply Z.eqb_eq in E2, E3. apply Z.leb_le in E1.
  rewrite !zlen_app in Hl'. unfold header_ok, zlen in *. lia.
Qed.

(** * Properties *)

Section EndToEnd.
Variable readFile : string -> result read_error string.
Variable writeFile : string -> string -> option string.

(** Patch reads what diff writes.  Every list of hunks of diff, printed as a unified diff
    whose lines pass the scanner and do not look like headers, is parsed back as one patch with
    the same files, starts, counts and lines (a start is one less where the count is 0, as the
    header says). *)
Theorem ParsePatch_unified f1 f2 n1 n2 hs :
  Forall header_ok hs -> Forall (fun h => Forall body_ok (Diff.Lines h)) hs ->
  Forall safe_line (unified_text f1 f2 n1 n2 hs) ->
  ParsePatch (text_of_lines (unified_text f1 f2 n1 n2 hs)) =
    Ok [{| OldFile := f1; NewFile := f2;
           Hunks := (fun h => read_hunk h (Diff.Lines h ++ marker_of n1 n2 h)) <$> hs |}].
Proof. intros Hh Hb Hs. rewrite ParsePatch_text by done. by rewrite parse_unified. Qed.

(** C16: patch turns the first file into the second.  Let both files end in a newline and their diff
    have one hunk, which has old lines (it is not an insertion without context) and whose lines do not begin like a
    header of a patch or hunk; let the printed lines be shorter than 64 KiB and not end in a carriage return, and the first file not be named
    /dev/null; and let the hunk not look applied to the first file already ([alreadyApplied]).  Then running patch on the
    printed diff, not in reverse, with a target that can be read and written, writes exactly the second file to it.
    The last conditions are needed: see [Patch.deletion_of_duplicate_refused] and
    [Patch.deleted_dashes_start_new_patch]. *)
Theorem patch_applies_diff content1 content2 context f1 f2 target lvl h ignoreApplied :
  0 <= context < 2 ^ 61 ->
  zlen (content_lines content1) + zlen (content_lines content2) < 2 ^ 61 ->
  ends_newline content1 = true -> ends_newline content2 = true ->
  GenerateDiff content1 content2 context false false false = Some (true, [h]) ->
  0 < OldLines h -> Forall body_ok (Diff.Lines h) ->
  Forall safe_line (unified_text f1 f2 true true [h]) ->
  alreadyApplied (content_lines content1) (read_hunk h (Diff.Lines h)) = Some false ->
  target <> "" -> f1 <> "/dev/null" -> stripPath f1 lvl <> "/dev/null" ->
  readFile target = Ok content1 -> writeFile target content2 = None ->
  option_map (fun r => (err r, written r))
    (Run readFile writeFile (text_of_lines (unified_text f1 f2 true true [h])) target lvl false
       ignoreApplied) = Some (None, Some (target, content2)).
Proof.
  intros Hc Hlen He1 He2 Hgen Hpos Hbody Hsafe Hnot Htarget Hf1 Hf1' Hread Hwrite.
  destruct (GenerateDiff_spec content1 content2 context Hc Hlen) as (d & hs & E & _ & Happ & Hmade).
  rewrite Hgen in E. injection E as <- <-.
  inversion Hmade as [|? ? (script & s & e & _ & Hmk) _]; subst.
  set (h := make_hunk script s e) in *. assert (h = make_hunk script s e) as Hh by done. clearbody h.
  assert (zlen (content_lines content1) < 2 ^ 61 /\ zlen (content_lines content2) < 2 ^ 61) as [L1 L2]
    by (unfold zlen in *; lia).
  destruct (file_ends_nl content1 He1) as (ls1 & Hne1 & Hs1 & Ht1).
  destruct (file_ends_nl content2 He2) as (ls2 & Hne2 & Hs2 & Ht2).
  destruct (file_lines_nl content1 ls1 He1 Hs1) as [F1 C1].
  destruct (file_lines_nl content2 ls2 He2 Hs2) as [_ C2]. rewrite C1, C2 in *.
  destruct (single_hunk_fits ls1 ls2 h script s e Hh Happ Hpos L1) as [Hfit Hrep].
  pose proof (header_ok_made h script s e ls1 ls2 Hh Happ L1 L2 Hpos) as Hok.
  unfold Run. rewrite ParsePatch_text, parse_unified by (done || by apply Forall_singleton).
  cbn [OldFile NewFile Hunks]. rewrite (seqb_ne target ""), !seqb_ne by done. cbn [orb].
  rewrite Hread, F1, fmap_cons. cbn [run_hunks fmap list_fmap].
  assert (marker_of true true h = []) as ->.
  { unfold marker_of. repeat case_match; try done.
    match goal with H : _ || _ = true |- _ => by rewrite !andb_false_r in H end. }
  rewrite app_nil_r, (applyHunk_fits ls1 (read_hunk h (Diff.Lines h))) by (done || lia).
  change (ends_nl content1) with (ends_newline content1). rewrite He1, Hrep. cbn [Applied Rejected].
  rewrite join_text, <- Ht2 by done. change (0 <? 0 + 1) with true. cbn. by rewrite Hwrite.
Qed.
End EndToEnd.

Definition demo_old : string := text_of_lines ["a"; "b"; "c"; "d"; "e"].
Definition demo_new : string := text_of_lines ["a"; "b"; "x"; "d"; "e"].

Definition demo_diff_hunk : Diff.Hunk :=
  {| Diff.OldStart := 2; OldLines := 3; Diff.NewStart := 2; NewLines := 3;
     Diff.Lines := [" b"; "-c"; "+x"; " d"] |}.

Lemma demo_unified_safe : Forall safe_line (unified_text "f" "f" true true [demo_diff_hunk]).
Proof.
  vm_compute unified_text.
  repeat apply Forall_cons_2; [(split; [reflexivity|split; [reflexivity|vm_compute; reflexivity]])..|constructor].
Qed.

Lemma demo_body_ok : Forall body_ok (Diff.Lines demo_diff_hunk).
Proof. repeat apply Forall_cons_2; [repeat split..|constructor]. Qed.

Lemma ParsePatch_unified_witness :
  ParsePatch (text_of_lines (unified_text "f" "f" true true [demo_diff_hunk])) =
    Ok [{| OldFile := "f"; NewFile := "f";
           Hunks := [{| Patch.OldStart := 2; OldCount := 3; Patch.NewStart := 2; NewCount := 3;
                        Patch.Lines := [" b"; "-c"; "+x"; " d"] |}] |}].
Proof.
  rewrite ParsePatch_unified.
  - reflexivity.
  - apply Forall_singleton. unfold header_ok. simpl. lia.
  - apply Forall_singleton, demo_body_ok.
  - exact demo_unified_safe.
Defined.

Lemma patch_applies_diff_witness :
  option_map (fun r => (err r, written r))
    (Run (fun _ => Ok demo_old) (fun _ _ => None)
       (text_of_lines (unified_text "f" "f" true true [demo_diff_hunk])) "f" 0 false false) =
  Some (None, Some ("f", demo_new)).
Proof.
  apply (patch_applies_diff (fun _ => Ok demo_old) (fun _ _ => None) demo_old demo_new 1);
    try done; try (vm_compute; reflexivity).
  - exact demo_body_ok.
  - exact demo_unified_safe.
Defined.
