(* ===== verification/Uu.v ===== *)
(** uuencode and uudecode: pkg/uuencode/uuencode.go and pkg/uudecode/uudecode.go, with the
    standard base64 encoding of encoding/base64 that both use.

    The text mode of uuencode on a stream, the encoders, and the decoder from the scanned lines to
    the data and its destination.  Bytes are characters of a string; byte arithmetic wraps at 8
    bits.  Opening and writing files is left to the operating system. *)

From S2P Require Import Prelude GoStd Utf8 Scanner.

Local Open Scope Z_scope.

(** * uuencode *)

Definition uuenc (val : Z) : Z :=
  let v := uwrap 8 (Z.land val 63 + 32) in if v =? 32 then 96 else v.

(** One step of the loop: three bytes, absent ones being 0. *)
Definition enc_group (b1 b2 b3 : Z) : string :=
  let c1 := Z.shiftr b1 2 in
  let c2 := Z.lor (uwrap 8 (Z.shiftl (Z.land b1 3) 4)) (Z.shiftr b2 4) in
  let c3 := Z.lor (uwrap 8 (Z.shiftl (Z.land b2 15) 2)) (Z.shiftr b3 6) in
  let c4 := Z.land b3 63 in
  String (chr (uuenc c1)) (String (chr (uuenc c2)) (String (chr (uuenc c3))
    (String (chr (uuenc c4)) ""))).

(** [for i := 0; i < n; i += 3] *)
Fixpoint enc_groups (data : string) : string :=
  match data with
  | "" => ""
  | String a "" => enc_group (code a) 0 0
  | String a (String b "") => enc_group (code a) (code b) 0
  | String a (String b (String c data)) => enc_group (code a) (code b) (code c) +:+ enc_groups data
  end.

Definition encodeTraditionalLine (data : string) : string :=
  String (chr (uuenc (uwrap 8 (Z.of_nat (String.length data))))) (enc_groups data).

(** The reads of 45 bytes, as [io.ReadFull] on the stream and the slices of
    [encodeTraditionalString] make them. *)
Fixpoint chunks (fuel : nat) (data : string) : list string :=
  match fuel, data with
  | S fuel, String _ _ => str_take 45 data :: chunks fuel (str_drop 45 data)
  | _, _ => []
  end.

Definition chunks45 (data : string) : list string := chunks (String.length data) data.

Definition encodeTraditionalString (data : string) : string :=
  sconcat ((fun l => encodeTraditionalLine l +:+ nl) <$> chunks45 data) +:+ "`" +:+ nl.

(** [base64.StdEncoding] *)
Definition b64_char (v : Z) : ascii :=
  if v <? 26 then chr (65 + v)
  else if v <? 52 then chr (97 + (v - 26))
  else if v <? 62 then chr (48 + (v - 52))
  else if v =? 62 then "+"%char else "/"%char.

Fixpoint EncodeToString (data : string) : string :=
  match data with
  | "" => ""
  | String a "" =>
      String (b64_char (code a / 4)) (String (b64_char (code a mod 4 * 16)) "==")
  | String a (String b "") =>
      String (b64_char (code a / 4)) (String (b64_char (code a mod 4 * 16 + code b / 16))
        (String (b64_char (code b mod 16 * 4)) "="))
  | String a (String b (String c data)) =>
      String (b64_char (code a / 4)) (String (b64_char (code a mod 4 * 16 + code b / 16))
        (String (b64_char (code b mod 16 * 4 + code c / 64)) (String (b64_char (code c mod 64))
          (EncodeToString data))))
  end.

(** The lines printed in text mode. *)
Definition uuencode_lines (useBase64 : bool) (mode remotename data : string) : list string :=
  if useBase64 then
    ("begin-base64 " +:+ mode +:+ " " +:+ remotename) ::
      (EncodeToString <$> chunks45 data) ++ ["===="]
  else
    ("begin " +:+ mode +:+ " " +:+ remotename) ::
      (encodeTraditionalLine <$> chunks45 data) ++ ["`"; "end"].

(** * uudecode *)

(** [(c - 32) & 0x3F] on a byte. *)
Definition uudec (c : Z) : Z := Z.land (uwrap 8 (c - 32)) 63.

(** The loop over the chunks of four characters; [got] is what the line has given so far. *)
Fixpoint dec_chunks (fuel : nat) (decLen : Z) (got rest : string) : string :=
  match fuel with
  | O => got
  | S fuel =>
      if negb (rest =s? "") && (Z.of_nat (String.length got) <? decLen) then
        let chunk := str_take 4 rest in
        if Z.of_nat (String.length chunk) <? 2 then got
        else
          let at' i := match String.get i chunk with Some c => code c | None => 32 end in
          let v1 := uudec (at' 0%nat) in
          let v2 := uudec (at' 1%nat) in
          let v3 := uudec (at' 2%nat) in
          let v4 := uudec (at' 3%nat) in
          let b1 := Z.lor (uwrap 8 (Z.shiftl v1 2)) (Z.shiftr v2 4) in
          let b2 := Z.lor (uwrap 8 (Z.shiftl (Z.land v2 15) 4)) (Z.shiftr v3 2) in
          let b3 := Z.lor (uwrap 8 (Z.shiftl (Z.land v3 3) 6)) v4 in
          let got := got +:+ String (chr b1) "" in
          let got := if Z.of_nat (String.length got) <? decLen then got +:+ String (chr b2) "" else got in
          let got := if Z.of_nat (String.length got) <? decLen then got +:+ String (chr b3) "" else got in
          dec_chunks fuel decLen got (str_drop 4 rest)
      else got
  end.

(** The traditional branch, from the line after the header. *)
Fixpoint dec_lines (lines : list string) : string :=
  match lines with
  | [] => ""
  | line :: lines =>
      match line with
      | "" => dec_lines lines
      | String lenChar rest =>
          if line =s? "end" then ""
          else if (lenChar =c? "`") || (lenChar =c? " ") then ""
          else
            let decLen := Z.land (uwrap 8 (code lenChar - 32)) 63 in
            if decLen <=? 0 then ""
            else dec_chunks (S (String.length rest)) decLen "" rest +:+ dec_lines lines
      end
  end.

(** [base64.StdEncoding.DecodeString]: newlines and carriage returns are skipped, the text is read
    in groups of four, and padding ends it. *)
Definition b64_val (c : ascii) : option Z :=
  let z := code c in
  if (65 <=? z) && (z <=? 90) then Some (z - 65)
  else if (97 <=? z) && (z <=? 122) then Some (z - 97 + 26)
  else if (48 <=? z) && (z <=? 57) then Some (z - 48 + 52)
  else if z =? 43 then Some 62
  else if z =? 47 then Some 63
  else None.

Fixpoint str_filter (P : ascii -> bool) (s : string) : string :=
  match s with "" => "" | String c s => if P c then String c (str_filter P s) else str_filter P s end.

Fixpoint dec_quanta (s : string) : option string :=
  match s with
  | "" => Some ""
  | String c0 (String c1 (String c2 (String c3 rest))) =>
      match b64_val c0, b64_val c1 with
      | Some v0, Some v1 =>
          let b0 := chr (v0 * 4 + v1 / 16) in
          if c2 =c? "=" then
            if (c3 =c? "=") && (rest =s? "") then Some (String b0 "") else None
          else
            match b64_val c2 with
            | None => None
            | Some v2 =>
                let b1 := chr (v1 mod 16 * 16 + v2 / 4) in
                if c3 =c? "=" then (if rest =s? "" then Some (String b0 (String b1 "")) else None)
                else
                  match b64_val c3 with
                  | None => None
                  | Some v3 =>
                      match dec_quanta rest with
                      | None => None
                      | Some r => Some (String b0 (String b1 (String (chr (v2 mod 4 * 64 + v3)) r)))
                      end
                  end
            end
      | _, _ => None
      end
  | _ => None
  end.

Definition DecodeString (s : string) : option string :=
  dec_quanta (str_filter (fun c => negb ((code c =? 10) || (code c =? 13))) s).

(** The base64 text after the header. *)
Fixpoint b64_text (lines : list string) : string :=
  match lines with
  | [] => ""
  | l :: lines =>
      let l := TrimSpace l in
      if (l =s? "====") || (l =s? "end") then "" else l +:+ b64_text lines
  end.

(** The characters the relaxed decoding keeps. *)
Definition b64_keep (c : ascii) : bool :=
  match b64_val c with Some _ => true | None => c =c? "=" end.

(** The header line and the lines after it. *)
Fixpoint find_header (lines : list string) : option (string * list string) :=
  match lines with
  | [] => None
  | l :: lines =>
      let l := TrimSpace l in
      if HasPrefix l "begin " || HasPrefix l "begin-base64 " then Some (l, lines)
      else find_header lines
  end.

Inductive uu_error := MissingHeader | InvalidHeader | DecodeError.

Record decoded := { modeStr : string; dest : option string (* None is standard output *);
                    decodedData : string }.

(** From the scanned lines to what is written; [o] is the argument of -o, "" when absent. *)
Definition uudecode (o : string) (lines : list string) : result uu_error decoded :=
  match find_header lines with
  | None => Err MissingHeader
  | Some (headerLine, lines) =>
      match Fields headerLine with
      | kind :: mode :: name :: _ =>
          let target := if o =s? "" then name else o in
          let dest := if target =s? "-" then None else Some target in
          if kind =s? "begin-base64" then
            let text := b64_text lines in
            match (match DecodeString text with
                   | Some d => Some d
                   | None => DecodeString (str_filter b64_keep text)
                   end) with
            | None => Err DecodeError
            | Some data => Ok {| modeStr := mode; dest := dest; decodedData := data |}
            end
          else Ok {| modeStr := mode; dest := dest; decodedData := dec_lines lines |}
      | _ => Err InvalidHeader
      end
  end.

(** The permissions of the written file. *)
Definition permMode (mode : string) : Z :=
  match ParseUint mode 8 32 with Some v => v | None => 420 (* 0644 *) end.

(** * Lemmas *)

(** Induction by groups of three bytes. *)
Lemma group3_ind (P : string -> Prop) :
  P "" -> (forall a, P (String a "")) -> (forall a b, P (String a (String b ""))) ->
  (forall a b c s, P s -> P (String a (String b (String c s)))) -> forall s, P s.
Proof.
  intros H0 H1 H2 H3. fix IH 1. intros [|a [|b [|c s]]]; [done|apply H1|apply H2|apply H3, IH].
Qed.

(** ** Six-bit groups *)

Lemma lor_shift a b k : 0 <= k -> 0 <= b < 2 ^ k -> Z.lor (Z.shiftl a k) b = a * 2 ^ k + b.
Proof.
  intros Hk Hb. assert (Z.land (Z.shiftl a k) b = 0) as H0.
  { apply Z.bits_inj'. intros i Hi. rewrite Z.land_spec, Z.bits_0.
    destruct (Z.lt_ge_cases i k).
    - rewrite Z.shiftl_spec_low by lia. done.
    - rewrite andb_comm. destruct (Z.testbit b i) eqn:E; [|done]. exfalso.
      rewrite <- (Z.mod_small b (2 ^ k)), Z.mod_pow2_bits_high in E by lia. done. }
  pose proof (Z.add_lor_land (Z.shiftl a k) b). rewrite <- Z.shiftl_mul_pow2 by done. lia.
Qed.

Lemma uwrap_lor_shift a b k :
  0 <= k <= 8 -> 0 <= a < 2 ^ (8 - k) -> 0 <= b < 2 ^ k ->
  Z.lor (uwrap 8 (Z.shiftl a k)) b = a * 2 ^ k + b.
Proof.
  intros Hk Ha Hb. unfold uwrap. rewrite Z.mod_small; [apply lor_shift; lia|].
  rewrite Z.shiftl_mul_pow2 by lia. pose proof (Z.pow_pos_nonneg 2 k).
  replace (2 ^ 8) with (2 ^ (8 - k) * 2 ^ k) by (rewrite <- Z.pow_add_r by lia; f_equal; lia). nia.
Qed.

Lemma land_3 a : Z.land a 3 = a mod 4.
Proof. apply (Z.land_ones a 2). lia. Qed.

Lemma land_15 a : Z.land a 15 = a mod 16.
Proof. apply (Z.land_ones a 4). lia. Qed.

Lemma land_63 a : Z.land a 63 = a mod 64.
Proof. apply (Z.land_ones a 6). lia. Qed.

Lemma uuenc_uudec v : 0 <= v < 64 -> uudec (code (chr (uuenc v))) = v.
Proof.
  assert (forallb (fun v => uudec (code (chr (uuenc v))) =? v) (Z.of_nat <$> seq 0 64) = true) as H
    by (vm_compute; reflexivity).
  intros Hv. rewrite forallb_forall in H. apply Z.eqb_eq, H, list_elem_of_In.
  rewrite list_elem_of_fmap. exists (Z.to_nat v). rewrite elem_of_seq. lia.
Qed.

(** The four values of a group. *)
Definition six (a b c : Z) : Z * Z * Z * Z :=
  (a / 4, a mod 4 * 16 + b / 16, b mod 16 * 4 + c / 64, c mod 64).

Lemma enc_group_six a b c :
  0 <= a < 256 -> 0 <= b < 256 -> 0 <= c < 256 ->
  let '(v1, v2, v3, v4) := six a b c in
  enc_group a b c = String (chr (uuenc v1)) (String (chr (uuenc v2)) (String (chr (uuenc v3))
    (String (chr (uuenc v4)) ""))) /\
  0 <= v1 < 64 /\ 0 <= v2 < 64 /\ 0 <= v3 < 64 /\ 0 <= v4 < 64.
Proof.
  intros Ha Hb Hc. unfold six, enc_group.
  rewrite land_3, land_15, land_63.
  rewrite !Z.shiftr_div_pow2 by lia.
  change (2 ^ 2) with 4. change (2 ^ 4) with 16. change (2 ^ 6) with 64.
  rewrite !uwrap_lor_shift by (simpl; Z.div_mod_to_equations; lia).
  change (2 ^ 2) with 4. change (2 ^ 4) with 16. split; [done|].
  Z.div_mod_to_equations. lia.
Qed.

(** What the decoder makes of the four values. *)
Lemma dec_six a b c :
  0 <= a < 256 -> 0 <= b < 256 -> 0 <= c < 256 ->
  let '(v1, v2, v3, v4) := six a b c in
  Z.lor (uwrap 8 (Z.shiftl v1 2)) (Z.shiftr v2 4) = a /\
  Z.lor (uwrap 8 (Z.shiftl (Z.land v2 15) 4)) (Z.shiftr v3 2) = b /\
  Z.lor (uwrap 8 (Z.shiftl (Z.land v3 3) 6)) v4 = c.
Proof.
  intros Ha Hb Hc. unfold six. rewrite land_15, land_3.
  rewrite !Z.shiftr_div_pow2 by lia. change (2 ^ 2) with 4. change (2 ^ 4) with 16.
  rewrite !uwrap_lor_shift by (simpl; Z.div_mod_to_equations; lia).
  change (2 ^ 2) with 4. change (2 ^ 4) with 16. change (2 ^ 6) with 64.
  Z.div_mod_to_equations. lia.
Qed.

(** ** A line *)

(** Appending bytes until the line is full. *)
Definition fill (decLen : Z) (got : string) (c : ascii) : string :=
  if Z.of_nat (String.length got) <? decLen then got +:+ String c "" else got.

Lemma fill_lt decLen got c : Z.of_nat (String.length got) < decLen ->
  fill decLen got c = got +:+ String c "".
Proof. intros H. unfold fill. by rewrite (proj2 (Z.ltb_lt _ _) H). Qed.

Lemma fill_ge decLen got c : decLen <= Z.of_nat (String.length got) -> fill decLen got c = got.
Proof. intros H. unfold fill. by rewrite (proj2 (Z.ltb_ge _ _) H). Qed.

Lemma dec_chunks_step fuel decLen got a b c rest :
  0 <= a < 256 -> 0 <= b < 256 -> 0 <= c < 256 -> Z.of_nat (String.length got) < decLen ->
  dec_chunks (S fuel) decLen got (enc_group a b c +:+ rest) =
    dec_chunks fuel decLen
      (fill decLen (fill decLen (got +:+ String (chr a) "") (chr b)) (chr c)) rest.
Proof.
  intros Ha Hb Hc Hgot. pose proof (enc_group_six a b c Ha Hb Hc) as HE.
  pose proof (dec_six a b c Ha Hb Hc) as HD. destruct (six a b c) as [[[v1 v2] v3] v4].
  destruct HE as (-> & H1 & H2 & H3 & H4). destruct HD as (D1 & D2 & D3).
  cbn [dec_chunks]. rewrite !sapp_cons, sapp_nil_l.
  rewrite (proj2 (Z.ltb_lt _ _) Hgot). cbn [String.eqb negb andb].
  cbn [str_take str_drop String.length String.get]. change (Z.of_nat 4 <? 2) with false. cbv iota.
  rewrite !uuenc_uudec by done. rewrite D1, D2, D3. done.
Qed.

Lemma dec_chunks_correct data : forall fuel decLen got,
  Z.of_nat (String.length got + String.length data) = decLen ->
  (String.length (enc_groups data) < fuel)%nat ->
  dec_chunks fuel decLen got (enc_groups data) = got +:+ data.
Proof.
  induction data as [|a|a b|a b c data IH] using group3_ind; intros fuel decLen got Hlen Hf;
    (destruct fuel as [|fuel]; [simpl in *; lia|]); cbn [String.length] in Hlen.
  - by rewrite sapp_nil_r.
  - change (enc_groups (String a "")) with (enc_group (code a) 0 0 +:+ "") in *.
    rewrite dec_chunks_step by (apply code_bound || lia).
    rewrite chr_code, (fill_ge _ (got +:+ _)) by (rewrite slength_app; simpl; lia).
    rewrite fill_ge by (rewrite slength_app; simpl; lia).
    destruct fuel as [|fuel]; [simpl in Hf; lia|]. done.
  - change (enc_groups (String a (String b ""))) with (enc_group (code a) (code b) 0 +:+ "") in *.
    rewrite dec_chunks_step by (apply code_bound || lia).
    rewrite !chr_code, (fill_lt _ (got +:+ _)) by (rewrite slength_app; simpl; lia).
    rewrite fill_ge by (rewrite !slength_app; simpl; lia).
    destruct fuel as [|fuel]; [simpl in Hf; lia|]. cbn [dec_chunks String.eqb negb andb].
    by rewrite sapp_assoc.
  - change (enc_groups (String a (String b (String c data))))
      with (enc_group (code a) (code b) (code c) +:+ enc_groups data) in *.
    rewrite slength_app in Hf. rewrite dec_chunks_step by (apply code_bound || lia).
    rewrite !chr_code, (fill_lt _ (got +:+ _)) by (rewrite slength_app; simpl; lia).
    rewrite fill_lt by (rewrite !slength_app; simpl; lia). rewrite IH.
    + by rewrite !sapp_assoc.
    + rewrite !slength_app. simpl. lia.
    + simpl in Hf. lia.
Qed.

(** The length character of a line of 1 to 45 bytes. *)
Lemma length_char k : (1 <= k <= 45)%nat ->
  let c := chr (uuenc (uwrap 8 (Z.of_nat k))) in
  Z.land (uwrap 8 (code c - 32)) 63 = Z.of_nat k /\ (c =c? "`") = false /\ (c =c? " ") = false /\
  (c =c? "e") = false /\ 33 <= code c <= 126.
Proof.
  intros Hk.
  assert (forallb (fun k => let c := chr (uuenc (uwrap 8 (Z.of_nat k))) in
    (Z.land (uwrap 8 (code c - 32)) 63 =? Z.of_nat k) && negb (c =c? "`") && negb (c =c? " ") &&
    negb (c =c? "e") && (33 <=? code c) && (code c <=? 126)) (seq 1 45) = true) as H
    by (vm_compute; reflexivity).
  rewrite forallb_forall in H. specialize (H k). rewrite <- list_elem_of_In, elem_of_seq in H.
  specialize (H ltac:(lia)). cbv zeta in *. rewrite !andb_true_iff, !negb_true_iff in H.
  destruct H as [[[[[H1 H2] H3] H4] H5] H6]. repeat split; try done; lia.
Qed.

Lemma dec_lines_line data rest :
  (1 <= String.length data <= 45)%nat ->
  dec_lines (encodeTraditionalLine data :: rest) = data +:+ dec_lines rest.
Proof.
  intros Hl. unfold encodeTraditionalLine. cbn [dec_lines].
  destruct (length_char _ Hl) as (H1 & H2 & H3 & H4 & _). cbv zeta in *.
  set (c := chr (uuenc (uwrap 8 (Z.of_nat (String.length data))))) in *.
  assert ((String c (enc_groups data) =s? "end") = false) as ->.
  { cbn [String.eqb]. by rewrite H4. }
  rewrite H2, H3. cbn [orb]. rewrite H1. rewrite (proj2 (Z.leb_gt _ _)) by lia.
  rewrite dec_chunks_correct by (simpl; lia). by rewrite sapp_nil_l.
Qed.

(** ** Chunks *)

Lemma chunks_spec fuel : forall data, (String.length data <= fuel)%nat ->
  sconcat (chunks fuel data) = data /\
  Forall (fun l => (1 <= String.length l <= 45)%nat) (chunks fuel data).
Proof.
  induction fuel as [|fuel IH]; intros data Hf; [destruct data; [done|simpl in Hf; lia]|].
  destruct data as [|c data]; [done|]. cbn [chunks].
  destruct (IH (str_drop 45 (String c data))) as [H1 H2].
  { rewrite slength_drop. simpl in *. lia. }
  split; [cbn [sconcat foldr]; fold (sconcat (chunks fuel (str_drop 45 (String c data))));
    rewrite H1; apply str_take_drop|].
  constructor; [|done]. rewrite slength_take_min. simpl String.length. lia.
Qed.

Lemma dec_lines_all ls rest : Forall (fun l => (1 <= String.length l <= 45)%nat) ls ->
  dec_lines ((encodeTraditionalLine <$> ls) ++ "`" :: rest) = sconcat ls.
Proof.
  induction 1 as [|l ls Hl Hls IH]; [done|].
  rewrite fmap_cons. cbn [app]. rewrite dec_lines_line by done. by rewrite IH.
Qed.

(** ** Base64 *)

Lemma b64_check v : 0 <= v < 64 ->
  b64_val (b64_char v) = Some v /\ (b64_char v =c? "=") = false /\ 33 <= code (b64_char v) <= 126.
Proof.
  assert (forallb (fun v => bool_decide (b64_val (b64_char v) = Some v) && negb (b64_char v =c? "=") &&
    (33 <=? code (b64_char v)) && (code (b64_char v) <=? 126)) (Z.of_nat <$> seq 0 64) = true) as H
    by (vm_compute; reflexivity).
  intros Hv. rewrite forallb_forall in H. specialize (H v).
  rewrite <- list_elem_of_In, list_elem_of_fmap in H.
  specialize (H ltac:(exists (Z.to_nat v); rewrite elem_of_seq; lia)).
  rewrite !andb_true_iff, negb_true_iff, bool_decide_eq_true in H.
  destruct H as [[[H1 H2] H3] H4]. repeat split; try done; lia.
Qed.

Lemma dec_quanta_encode data : dec_quanta (EncodeToString data) = Some data.
Proof.
  assert (forall z x, 0 <= z < 256 -> z = code x -> chr z = x) as Hchr.
  { intros z x _ ->. apply chr_code. }
  induction data as [|a|a b|a b c data IH] using group3_ind; [done|..]; cbn [EncodeToString dec_quanta];
    pose proof (code_bound a).
  - destruct (b64_check (code a / 4)) as (-> & _ & _); [Z.div_mod_to_equations; lia|].
    destruct (b64_check (code a mod 4 * 16)) as (-> & _ & _); [Z.div_mod_to_equations; lia|].
    rewrite Ascii.eqb_refl. cbn [andb String.eqb]. do 2 f_equal.
    apply Hchr; Z.div_mod_to_equations; lia.
  - pose proof (code_bound b).
    destruct (b64_check (code a / 4)) as (-> & _ & _); [Z.div_mod_to_equations; lia|].
    destruct (b64_check (code a mod 4 * 16 + code b / 16)) as (-> & _ & _); [Z.div_mod_to_equations; lia|].
    destruct (b64_check (code b mod 16 * 4)) as (-> & -> & _); [Z.div_mod_to_equations; lia|].
    rewrite Ascii.eqb_refl. cbn [String.eqb]. do 2 f_equal; [|f_equal];
      apply Hchr; Z.div_mod_to_equations; lia.
  - pose proof (code_bound b). pose proof (code_bound c).
    destruct (b64_check (code a / 4)) as (-> & _ & _); [Z.div_mod_to_equations; lia|].
    destruct (b64_check (code a mod 4 * 16 + code b / 16)) as (-> & _ & _); [Z.div_mod_to_equations; lia|].
    destruct (b64_check (code b mod 16 * 4 + code c / 64)) as (-> & -> & _); [Z.div_mod_to_equations; lia|].
    destruct (b64_check (code c mod 64)) as (-> & -> & _); [Z.div_mod_to_equations; lia|].
    rewrite IH. do 2 f_equal; [|f_equal; [|f_equal]]; apply Hchr; Z.div_mod_to_equations; lia.
Qed.

Lemma encode_word data : word (EncodeToString data) = true.
Proof.
  assert (forall v, 0 <= v < 64 -> (33 <=? code (b64_char v)) && (code (b64_char v) <=? 126) = true) as Hc.
  { intros v Hv. destruct (b64_check v Hv). lia. }
  unfold word.
  induction data as [|a|a b|a b c data IH] using group3_ind; [done|..]; cbn [EncodeToString str_forall];
    pose proof (code_bound a); try pose proof (code_bound b); try pose proof (code_bound c);
    rewrite !Hc by (Z.div_mod_to_equations; lia); done.
Qed.

Lemma encode_shape c data : exists x y z w r,
  EncodeToString (String c data) = String x (String y (String z (String w r))) /\ (x =c? "=") = false.
Proof.
  pose proof (code_bound c).
  assert ((b64_char (code c / 4) =c? "=") = false) as He
    by (apply b64_check; Z.div_mod_to_equations; lia).
  destruct data as [|b [|d data]]; cbn [EncodeToString]; eauto 10.
Qed.

Lemma encode_app s t : (Nat.modulo (String.length s) 3 = 0)%nat ->
  EncodeToString (s +:+ t) = EncodeToString s +:+ EncodeToString t.
Proof.
  induction s as [|a|a b|a b c s IH] using group3_ind; intros Hm; try done.
  rewrite !sapp_cons. cbn [EncodeToString]. rewrite IH; [done|].
  cbn [String.length] in Hm. change (S (S (S (String.length s)))) with (3 + String.length s)%nat in Hm.
  replace (3 + String.length s)%nat with (String.length s + 1 * 3)%nat in Hm by lia.
  by rewrite Nat.Div0.mod_add in Hm.
Qed.

Lemma encode_chunks fuel : forall data, (String.length data <= fuel)%nat ->
  sconcat (EncodeToString <$> chunks fuel data) = EncodeToString data.
Proof.
  induction fuel as [|fuel IH]; intros data Hf; [destruct data; [done|simpl in Hf; lia]|].
  destruct data as [|c data]; [done|]. cbn [chunks]. rewrite fmap_cons.
  change (sconcat (?x :: ?l)) with (x +:+ sconcat l). rewrite IH.
  2: { rewrite slength_drop. simpl in *. lia. }
  destruct (decide (String.length (String c data) <= 45)%nat) as [Hle|Hgt].
  - assert (str_drop 45 (String c data) = "") as ->.
    { pose proof (slength_drop 45 (String c data)) as E.
      destruct (str_drop 45 (String c data)); [done|]. simpl String.length in *. lia. }
    rewrite sapp_nil_r. f_equal. pose proof (str_take_drop 45 (String c data)) as E.
    assert (str_drop 45 (String c data) = "") as E'.
    { pose proof (slength_drop 45 (String c data)) as E1.
      destruct (str_drop 45 (String c data)); [done|]. simpl String.length in *. lia. }
    rewrite E', sapp_nil_r in E. done.
  - rewrite <- encode_app; [by rewrite str_take_drop|].
    rewrite slength_take_min, Nat.min_l by lia. done.
Qed.

Lemma DecodeString_encode data : DecodeString (EncodeToString data) = Some data.
Proof.
  unfold DecodeString. rewrite <- dec_quanta_encode at 1. f_equal.
  pose proof (encode_word data) as H. revert H. generalize (EncodeToString data). unfold word.
  intros s. induction s as [|c s IH]; [done|]. cbn [str_forall str_filter].
  rewrite andb_true_iff. intros [Hc Hs]. rewrite (IH Hs).
  destruct (Z.eqb_spec (code c) 10), (Z.eqb_spec (code c) 13); simpl; try lia; done.
Qed.

Lemma word_ascii s : word s = true -> str_forall ascii_char s = true.
Proof. apply str_forall_impl. intros c. unfold ascii_char. lia. Qed.

Lemma b64_text_all ls : Forall (fun l => (1 <= String.length l <= 45)%nat) ls ->
  b64_text ((EncodeToString <$> ls) ++ ["===="]) = sconcat (EncodeToString <$> ls).
Proof.
  induction 1 as [|l ls Hl Hls IH]; [done|]. rewrite fmap_cons. cbn [app b64_text].
  destruct l as [|c l]; [simpl in Hl; lia|].
  pose proof (encode_word (String c l)) as Hw.
  destruct (encode_shape c l) as (x & y & z & w & r & E & Hx). rewrite E in *.
  unfold word in Hw. cbn [str_forall] in Hw. apply andb_true_iff in Hw as [Hwx Hw].
  rewrite (TrimSpace_words x _ "" (String y (String z (String w r)))); [|done..].
  assert ((String x (String y (String z (String w r))) =s? "====") = false) as ->
    by (cbn [String.eqb]; by rewrite Hx).
  assert ((String x (String y (String z (String w r))) =s? "end") = false) as ->.
  { apply seqb_ne. done. }
  cbn [orb]. by rewrite IH.
Qed.

(** ** The header and the whole stream *)

Lemma header_lines (kind mode name : string) lines :
  kind = "begin" \/ kind = "begin-base64" ->
  word mode = true -> word name = true -> name <> "" ->
  find_header ((kind +:+ " " +:+ mode +:+ " " +:+ name) :: lines) =
    Some (kind +:+ " " +:+ mode +:+ " " +:+ name, lines).
Proof.
  intros Hk Hm Hn Hne. cbn [find_header]. destruct Hk as [-> | ->].
  - rewrite (TrimSpace_words "b" _ ("egin " +:+ mode +:+ " ") name); [done|done| |done|done|].
    + rewrite str_forall_app, str_forall_app, (word_ascii _ Hm). done.
    + by rewrite !sapp_cons, !sapp_nil_l, !sapp_assoc.
  - rewrite (TrimSpace_words "b" _ ("egin-base64 " +:+ mode +:+ " ") name); [done|done| |done|done|].
    + rewrite str_forall_app, str_forall_app, (word_ascii _ Hm). done.
    + by rewrite !sapp_cons, !sapp_nil_l, !sapp_assoc.
Qed.

Lemma header_fields (kind mode name : string) :
  kind = "begin" \/ kind = "begin-base64" ->
  word mode = true -> mode <> "" -> word name = true -> name <> "" ->
  Fields (kind +:+ " " +:+ mode +:+ " " +:+ name) = [kind; mode; name].
Proof.
  intros Hk Hm Hme Hn Hne.
  rewrite Fields_cons by (destruct Hk as [-> | ->]; done).
  by rewrite Fields_cons, Fields_one.
Qed.

Definition printable (s : string) : bool := str_forall (fun c => 32 <=? code c) s.

Lemma word_printable s : word s = true -> printable s = true.
Proof. apply str_forall_impl. intros c. lia. Qed.

Lemma uuenc_printable v : (32 <=? code (chr (uuenc v))) = true.
Proof.
  unfold uuenc, uwrap. change 63 with (Z.ones 6). rewrite Z.land_ones by lia.
  pose proof (Z.mod_pos_bound v (2 ^ 6) ltac:(lia)) as H. change (2 ^ 6) with 64 in *.
  change (2 ^ 8) with 256. rewrite Z.mod_small by lia.
  destruct (Z.eqb_spec (v mod 64 + 32) 32); rewrite code_chr by lia; lia.
Qed.

Lemma enc_groups_safe data :
  printable (enc_groups data) = true /\ (String.length (enc_groups data) <= 4 * String.length data)%nat.
Proof.
  unfold printable.
  induction data as [|a|a b|a b c data [IH1 IH2]] using group3_ind; [done|..];
    cbn [enc_groups]; rewrite ?str_forall_app, ?slength_app; unfold enc_group;
    cbn [str_forall String.length]; rewrite !uuenc_printable, ?IH1; (split; [done|simpl; lia]).
Qed.

Lemma encodeTraditionalLine_safe data :
  (String.length data <= 45)%nat -> safe_line (encodeTraditionalLine data).
Proof.
  intros Hl. destruct (enc_groups_safe data) as [H1 H2]. apply printable_safe.
  - unfold encodeTraditionalLine. cbn [str_forall]. by rewrite uuenc_printable.
  - unfold encodeTraditionalLine. cbn [String.length]. lia.
Qed.

Lemma encode_length data : (String.length (EncodeToString data) <= 4 * String.length data)%nat.
Proof.
  induction data as [|a|a b|a b c data IH] using group3_ind; cbn [EncodeToString String.length]; lia.
Qed.

Lemma EncodeToString_safe data :
  (String.length data <= 45)%nat -> safe_line (EncodeToString data).
Proof.
  intros Hl. pose proof (encode_length data). apply printable_safe; [|lia].
  apply word_printable, encode_word.
Qed.

Lemma header_safe (kind mode name : string) :
  kind = "begin" \/ kind = "begin-base64" -> word mode = true -> word name = true ->
  Z.of_nat (String.length mode + String.length name) < 65000 ->
  safe_line (kind +:+ " " +:+ mode +:+ " " +:+ name).
Proof.
  intros Hk Hm Hn Hl. apply word_printable in Hm, Hn. unfold printable in *. apply printable_safe.
  - rewrite !str_forall_app, Hm, Hn. by destruct Hk as [-> | ->].
  - rewrite !slength_app. destruct Hk as [-> | ->]; simpl; lia.
Qed.

(** The lines of [uuencode] survive the scanner. *)
Lemma uuencode_lines_safe useBase64 mode name data :
  word mode = true -> word name = true ->
  Z.of_nat (String.length mode + String.length name) < 65000 ->
  Forall safe_line (uuencode_lines useBase64 mode name data).
Proof.
  intros Hm Hn Hl. destruct (chunks_spec (String.length data) data ltac:(lia)) as [_ Hc].
  destruct useBase64; unfold uuencode_lines, chunks45; constructor.
  - apply (header_safe "begin-base64"); auto.
  - apply Forall_app; split; [|repeat constructor].
    apply Forall_fmap. eapply Forall_impl; [exact Hc|]. intros l [_ Hl']. by apply EncodeToString_safe.
  - apply (header_safe "begin"); auto.
  - apply Forall_app; split; [|repeat constructor].
    apply Forall_fmap. eapply Forall_impl; [exact Hc|]. intros l [_ Hl'].
    by apply encodeTraditionalLine_safe.
Qed.

(** * Properties *)

(** C18: [uudecode] undoes [uuencode]: whatever the bytes of the data, the text that [uuencode]
    prints, in the traditional format or with -m, is scanned and decoded into the same bytes, with
    the mode and, unless -o names another, the destination of the header, for a mode and a remote name that are
    words of printable ASCII characters (not empty, without blanks) of less than 65000 bytes together.  A name with a
    space is not given back: see [uu_name_with_space]. *)
Theorem uu_roundtrip useBase64 (mode name data o : string) :
  word mode = true -> mode <> "" -> word name = true -> name <> "" ->
  Z.of_nat (String.length mode + String.length name) < 65000 ->
  uudecode o (fst (scan (text_of_lines (uuencode_lines useBase64 mode name data)))) =
    Ok {| modeStr := mode;
          dest := let target := if o =s? "" then name else o in
                  if target =s? "-" then None else Some target;
          decodedData := data |}.
Proof.
  intros Hm Hme Hn Hne Hl. rewrite scan_text by by apply uuencode_lines_safe. cbn [fst].
  destruct (chunks_spec (String.length data) data ltac:(lia)) as [Hc Hf].
  unfold uudecode, uuencode_lines, chunks45. destruct useBase64.
  - change ("begin-base64 " +:+ mode +:+ " " +:+ name) with ("begin-base64" +:+ " " +:+ mode +:+ " " +:+ name).
    rewrite header_lines, header_fields by auto. cbn [String.eqb Ascii.eqb Bool.eqb].
    rewrite b64_text_all by done. rewrite encode_chunks by lia. by rewrite DecodeString_encode.
  - change ("begin " +:+ mode +:+ " " +:+ name) with ("begin" +:+ " " +:+ mode +:+ " " +:+ name).
    rewrite header_lines, header_fields by auto. cbn [String.eqb Ascii.eqb Bool.eqb].
    rewrite dec_lines_all by done. by rewrite Hc.
Qed.

Lemma uu_roundtrip_witness :
  uudecode "" (fst (scan (text_of_lines
    (uuencode_lines false "644" "a.bin" (String "255" (String "000" "xyz")))))) =
    Ok {| modeStr := "644"; dest := Some "a.bin"; decodedData := String "255" (String "000" "xyz") |}.
Proof. apply (uu_roundtrip false "644" "a.bin" _ ""); done. Defined.

(** The name of the header ends at its first space: a remote name with one is not kept. *)
Example uu_name_with_space :
  uudecode "" (fst (scan (text_of_lines (uuencode_lines false "644" "my file" "x")))) =
    Ok {| modeStr := "644"; dest := Some "my"; decodedData := "x" |}.
Proof. vm_compute. reflexivity. Qed.
