(* ===== verification/Factor.v ===== *)
(** factor: pkg/factor/factor.go.

    Modular arithmetic on 64 bits, the Miller-Rabin test, Pollard's rho and the factorization, the
    arguments' preprocessing and the text output.  [None] is a panic, or a loop that has not
    finished within the fuel; the theorems show that neither happens. *)

From stdpp Require Import sorting.
From Stdlib Require Import Znumtheory Zmod.ZmodInv.
From S2P Require Import Prelude GoStd Utf8 Flags.

Local Open Scope Z_scope.

(** * Arithmetic *)

(** 2^64, in digits for evaluation. *)
Definition two64 : Z := 18446744073709551616.

(** [bits.Mul64] *)
Definition Mul64 (x y : Z) : Z * Z := Z.div_eucl (x * y) two64.

(** [bits.Div64] panics for [y = 0] and when the quotient overflows. *)
Definition Div64 (hi lo y : Z) : option (Z * Z) :=
  if y <=? hi then None else Some (Z.div_eucl (hi * two64 + lo) y).

(** [a % b] panics for [b = 0]. *)
Definition urem (a b : Z) : option Z := if b =? 0 then None else Some (a mod b).

Definition mulMod (a b m : Z) : option Z :=
  let '(hi, lo) := Mul64 a b in
  '(_, rem) ← Div64 hi lo m; Some rem.

(** [for exp > 0] *)
Fixpoint powMod_loop (fuel : nat) (result base exp mod' : Z) : option Z :=
  match fuel with
  | O => None
  | S fuel =>
      if 0 <? exp then
        result ← (if Z.land exp 1 =? 1 then mulMod result base mod' else Some result);
        base ← mulMod base base mod';
        powMod_loop fuel result base (Z.shiftr exp 1) mod'
      else Some result
  end.

Definition powMod (base exp mod' : Z) : option Z :=
  base ← urem base mod';
  powMod_loop 65 1 base exp mod'.

(** * The primality test *)

(** [for d%2 == 0]: [d] and [s]. *)
Fixpoint split_twos (fuel : nat) (d s : Z) : option (Z * Z) :=
  match fuel with
  | O => None
  | S fuel => if d mod 2 =? 0 then split_twos fuel (d / 2) (s + 1) else Some (d, s)
  end.

(** [for r := 0; r < s-1; r++]: the value of [composite]. *)
Fixpoint mr_squares (k : nat) (x n : Z) : option bool :=
  match k with
  | O => Some true
  | S k => x ← mulMod x x n; if x =? n - 1 then Some false else mr_squares k x n
  end.

Fixpoint mr_bases (bases : list Z) (n d s : Z) : option bool :=
  match bases with
  | [] => Some true
  | a :: bases =>
      if n <=? a then Some true
      else
        x ← powMod a d n;
        if (x =? 1) || (x =? n - 1) then mr_bases bases n d s
        else
          composite ← mr_squares (Z.to_nat (s - 1)) x n;
          if composite : bool then Some false else mr_bases bases n d s
  end.

Definition witness_bases : list Z := [2; 3; 5; 7; 11; 13; 17; 19; 23; 29; 31; 37].

Definition millerRabin (n : Z) : option bool :=
  if n <? 2 then Some false
  else if (n =? 2) || (n =? 3) then Some true
  else if n mod 2 =? 0 then Some false
  else
    '(d, s) ← split_twos 65 (n - 1) 0;
    mr_bases witness_bases n d s.

(** * Factors *)

Fixpoint gcd_loop (fuel : nat) (a b : Z) : option Z :=
  match fuel with
  | O => None
  | S fuel => if b =? 0 then Some a else gcd_loop fuel b (a mod b)
  end.

Definition gcd (a b : Z) : option Z := gcd_loop 130 a b.

(** The closure [f]; the sum wraps. *)
Definition rho_f (n c x : Z) : option Z :=
  sq ← mulMod x x n; urem (uwrap 64 (sq + c)) n.

(** [for d == 1] *)
Fixpoint rho_loop (fuel : nat) (n c x y d : Z) : option Z :=
  match fuel with
  | O => None
  | S fuel =>
      if d =? 1 then
        x ← rho_f n c x;
        y ← (y ← rho_f n c y; rho_f n c y);
        let diff := if y <? x then uwrap 64 (x - y) else uwrap 64 (y - x) in
        d ← gcd diff n;
        rho_loop fuel n c x y d
      else Some d
  end.

(** [for c := uint64(1); ; c++]; [k] bounds the inner loop. *)
Fixpoint rho_search (fuel k : nat) (n c : Z) : option Z :=
  match fuel with
  | O => None
  | S fuel =>
      d ← rho_loop k n c 2 2 1;
      if negb (d =? n) then Some d else rho_search fuel k n (uwrap 64 (c + 1))
  end.

Definition pollardRho (fuel : nat) (n : Z) : option Z :=
  if n mod 2 =? 0 then Some 2
  else if n mod 3 =? 0 then Some 3
  else rho_search fuel fuel n 1.

(** [factorize(n, factors)]: the new value of [*factors]. *)
Fixpoint factorize (depth fuel : nat) (n : Z) (factors : list Z) : option (list Z) :=
  match depth with
  | O => None
  | S depth =>
      if n <? 2 then Some factors
      else
        prime ← millerRabin n;
        if prime : bool then Some (factors ++ [n])
        else
          d ← pollardRho fuel n;
          factors ← factorize depth fuel d factors;
          factorize depth fuel (n / d) factors
  end.

(** * The command *)

(** [preProcessFactorArgs]; [inserted] says that flag parsing is already terminated. *)
Fixpoint preprocess (inserted : bool) (args : list string) : list string :=
  match args with
  | [] => []
  | arg :: args =>
      if inserted then arg :: preprocess inserted args
      else if arg =s? "--" then arg :: preprocess true args
      else if HasPrefix arg "-" then
        if (arg =s? "-h") || (arg =s? "--help") || (arg =s? "-V") || (arg =s? "--version")
           || (arg =s? "--json")
        then arg :: preprocess inserted args
        else "--" :: arg :: preprocess true args
      else "--" :: arg :: preprocess true args
  end.

Definition preProcessFactorArgs (args : list string) : list string := preprocess false args.

Record FactorEntry := { Input : string; Factors : list Z; Error : string }.

(** One input: its entry and the value parsed, [None] for an invalid number. *)
Definition factor_input (depth fuel : nat) (inputStr : string) : option (FactorEntry * option Z) :=
  let origClean := TrimSpace inputStr in
  let clean := match origClean with
               | String c s => if c =c? "+" then s else origClean
               | "" => origClean
               end in
  let invalid := ({| Input := origClean; Factors := []; Error := "invalid number" |}, None) in
  if HasPrefix clean "-" || (clean =s? "") then Some invalid
  else
    match ParseUint clean 10 64 with
    | None => Some invalid
    | Some val =>
        factors ← (if 1 <? val then
                     factors ← factorize depth fuel val []; Some (merge_sort Z.le factors)
                   else Some []);
        Some ({| Input := origClean; Factors := factors; Error := "" |}, Some val)
    end.

Record factor_output := { f_stdout : list string; f_stderr : list string; f_hasError : bool }.

(** The loop over the inputs in text mode, as lines of the two streams, and the exit code. *)
Fixpoint factor_inputs (depth fuel : nat) (inputs : list string) : option factor_output :=
  match inputs with
  | [] => Some {| f_stdout := []; f_stderr := []; f_hasError := false |}
  | inputStr :: inputs =>
      '(e, val) ← factor_input depth fuel inputStr;
      out ← factor_inputs depth fuel inputs;
      match val with
      | None =>
          Some {| f_stdout := f_stdout out; f_hasError := true;
                  f_stderr := ("factor: " +:+ Input e +:+ ": invalid number") :: f_stderr out |}
      | Some v =>
          Some {| f_stdout := (FormatInt v +:+ ":" +:+
                               sconcat ((fun f => " " +:+ FormatInt f) <$> Factors e)) :: f_stdout out;
                  f_stderr := f_stderr out; f_hasError := f_hasError out |}
      end
  end.

Definition factor_run (depth fuel : nat) (inputs : list string) : option (factor_output * Z) :=
  out ← factor_inputs depth fuel inputs;
  Some (out, if f_hasError out then 1 else 0).

(** * The arithmetic is exact *)

Lemma mulMod_ok a b m :
  0 <= a -> 0 <= b -> a < m -> b < m -> m < 2 ^ 64 -> mulMod a b m = Some (a * b mod m).
Proof.
  intros Ha Hb Ham Hbm Hm. unfold mulMod, Mul64, Div64. change two64 with (2 ^ 64).
  pose proof (Z_div_mod (a * b) (2 ^ 64) eq_refl) as H1.
  destruct (Z.div_eucl (a * b) (2 ^ 64)) as [hi lo]. destruct H1 as [H1 Hlo].
  rewrite (proj2 (Z.leb_gt _ _)) by nia.
  replace (hi * 2 ^ 64 + lo) with (a * b) by lia. unfold Z.modulo.
  by destruct (Z.div_eucl (a * b) m).
Qed.

Lemma powMod_loop_ok m : 2 <= m < 2 ^ 64 -> forall fuel result base exp,
  0 <= result < m -> 0 <= base < m -> 0 <= exp < 2 ^ Z.of_nat fuel ->
  powMod_loop (S fuel) result base exp m = Some (result * base ^ exp mod m).
Proof.
  intros Hm. induction fuel as [|fuel IH]; intros result base exp Hr Hb He.
  - replace exp with 0 by (change (2 ^ Z.of_nat 0) with 1 in He; lia). simpl.
    rewrite Z.mul_1_r, Z.mod_small by lia. done.
  - remember (S fuel) as k. cbn [powMod_loop]. subst k. destruct (Z.ltb_spec 0 exp).
    2: { replace exp with 0 by lia. simpl. rewrite Z.mul_1_r, Z.mod_small by lia. done. }
    assert (0 <= Z.shiftr exp 1 < 2 ^ Z.of_nat fuel) as Hs.
    { rewrite Z.shiftr_div_pow2 by lia. change (2 ^ 1) with 2.
      rewrite Nat2Z.inj_succ, Z.pow_succ_r in He by lia. Z.div_mod_to_equations. lia. }
    assert (exp = 2 * Z.shiftr exp 1 + exp mod 2) as Hexp.
    { rewrite Z.shiftr_div_pow2 by lia. change (2 ^ 1) with 2. apply Z.div_mod. lia. }
    assert (Z.land exp 1 = exp mod 2) as -> by (apply (Z.land_ones exp 1); lia).
    pose proof (Z.mod_pos_bound (base * base) m ltac:(lia)) as Hbb.
    rewrite (mulMod_ok base base) by lia.
    assert (forall r, (r * (base * base mod m) ^ Z.shiftr exp 1) mod m =
                      (r * base ^ (2 * Z.shiftr exp 1)) mod m) as Hstep.
    { intros r. rewrite Z.pow_mul_r, Z.pow_2_r by lia.
      rewrite <- Z.mul_mod_idemp_r by lia. rewrite Z.mod_pow_l.
      by rewrite Z.mul_mod_idemp_r by lia. }
    destruct (Z.eqb_spec (exp mod 2) 1) as [E|E].
    + rewrite mulMod_ok by lia. cbn [mbind option_bind].
      pose proof (Z.mod_pos_bound (result * base) m ltac:(lia)).
      rewrite IH by lia. rewrite Hstep. f_equal.
      rewrite Z.mul_mod_idemp_l by lia. f_equal. rewrite Hexp at 2. rewrite E.
      rewrite Z.pow_add_r by lia. ring.
    + cbn [mbind option_bind]. rewrite IH by lia. rewrite Hstep. f_equal.
      rewrite Hexp at 2. pose proof (Z.mod_pos_bound exp 2 ltac:(lia)).
      replace (exp mod 2) with 0 by lia. by rewrite Z.add_0_r.
Qed.

Lemma powMod_ok base exp m :
  0 <= base -> 0 <= exp < 2 ^ 64 -> 2 <= m < 2 ^ 64 ->
  powMod base exp m = Some (base ^ exp mod m).
Proof.
  intros Hb He Hm. unfold powMod, urem. rewrite (proj2 (Z.eqb_neq _ _)) by lia.
  cbn [mbind option_bind]. rewrite powMod_loop_ok; [|lia|lia| |done].
  - by rewrite Z.mul_1_l, Z.mod_pow_l.
  - apply Z.mod_pos_bound. lia.
Qed.

Lemma split_twos_ok fuel : forall d s, 0 < d < 2 ^ Z.of_nat fuel -> 0 <= s ->
  exists d' s', split_twos (S fuel) d s = Some (d', s') /\ d = d' * 2 ^ (s' - s) /\ s <= s' /\
    0 < d' /\ (d mod 2 = 0 -> s < s').
Proof.
  induction fuel as [|fuel IH]; intros d s Hd Hs; [change (2 ^ Z.of_nat 0) with 1 in Hd; lia|].
  remember (S fuel) as k. cbn [split_twos]. subst k. destruct (Z.eqb_spec (d mod 2) 0) as [E|E].
  - rewrite Nat2Z.inj_succ, Z.pow_succ_r in Hd by lia.
    destruct (IH (d / 2) (s + 1)) as (d' & s' & -> & H1 & H2 & H3 & _);
      [Z.div_mod_to_equations; lia|lia|].
    exists d', s'. repeat split; try lia.
    replace (s' - s) with (Z.succ (s' - (s + 1))) by lia. rewrite Z.pow_succ_r by lia.
    rewrite (Z.div_mod d 2), E by lia. lia.
  - exists d, s. rewrite Z.sub_diag. repeat split; lia.
Qed.

Lemma gcd_loop_ok fuel : forall a b, 0 <= b -> b <= a -> a * b < 2 ^ Z.of_nat fuel ->
  gcd_loop (S fuel) a b = Some (Z.gcd a b).
Proof.
  induction fuel as [|fuel IH]; intros a b Hb Hab Hf.
  - assert (b = 0) as -> by (change (2 ^ Z.of_nat 0) with 1 in Hf; nia).
    simpl. rewrite Z.gcd_0_r, Z.abs_eq by lia. done.
  - remember (S fuel) as k. cbn [gcd_loop]. subst k. destruct (Z.eqb_spec b 0) as [->|Hne].
    { rewrite Z.gcd_0_r, Z.abs_eq by lia. done. }
    pose proof (Z.mod_pos_bound a b ltac:(lia)).
    rewrite Nat2Z.inj_succ, Z.pow_succ_r in Hf by lia.
    rewrite IH; [|lia..|]; [|pose proof (Z.div_mod a b); pose proof (Z.div_str_pos a b); nia].
    rewrite Z.gcd_comm, Z.gcd_mod by done. by rewrite Z.gcd_comm.
Qed.

Lemma gcd_fuel fuel a b : (130 <= fuel)%nat -> 0 <= a < 2 ^ 64 -> 0 <= b < 2 ^ 64 ->
  gcd_loop fuel a b = Some (Z.gcd a b).
Proof.
  intros Hf Ha Hb. destruct fuel as [|[|k]]; [lia..|].
  assert (2 ^ 128 <= 2 ^ Z.of_nat k) as Hk by (apply Z.pow_le_mono_r; lia).
  assert (a * b < 2 ^ Z.of_nat k) as Hab by nia.
  destruct (Z.le_gt_cases b a).
  - apply gcd_loop_ok; [lia..|]. rewrite Nat2Z.inj_succ, Z.pow_succ_r by lia. lia.
  - remember (S k) as k'. cbn [gcd_loop]. subst k'. rewrite (proj2 (Z.eqb_neq _ _)) by lia.
    rewrite Z.mod_small by lia. rewrite gcd_loop_ok by lia. by rewrite Z.gcd_comm.
Qed.

Lemma gcd_ok a b : 0 <= a < 2 ^ 64 -> 0 <= b < 2 ^ 64 -> gcd a b = Some (Z.gcd a b).
Proof. intros Ha Hb. by apply gcd_fuel. Qed.

(** * The test accepts every prime *)

Lemma prime_sqrt_1 p x : Z.prime p -> 0 <= x < p -> x * x mod p = 1 -> x = 1 \/ x = p - 1.
Proof.
  intros Hp Hx H. pose proof (Z.prime_ge_2 p Hp).
  assert (p | (x - 1) * (x + 1)) as Hd.
  { exists (x * x / p). pose proof (Z.div_mod (x * x) p). lia. }
  apply Z.divide_prime_mul in Hd as [[k Hk] | [k Hk]]; [| |done].
  - left. assert (k = 0) by nia. lia.
  - right. assert (k = 1) by nia. lia.
Qed.

Lemma pow2_succ x k : 0 <= k -> x ^ 2 ^ (Z.succ k) = (x * x) ^ 2 ^ k.
Proof.
  intros Hk. rewrite Z.pow_succ_r, Z.pow_mul_r by (try apply Z.pow_nonneg; lia).
  by rewrite Z.pow_2_r.
Qed.

Lemma mr_squares_prime n : Z.prime n -> n < 2 ^ 64 -> forall k x, 0 <= x < n -> x <> 1 -> x <> n - 1 ->
  x ^ 2 ^ Z.of_nat (S k) mod n = 1 -> mr_squares k x n = Some false.
Proof.
  intros Hp Hn. pose proof (Z.prime_ge_2 n Hp).
  induction k as [|k IH]; intros x Hx H1 Hm Hpow.
  - rewrite Nat2Z.inj_succ, pow2_succ in Hpow by lia. change (2 ^ Z.of_nat 0) with 1 in Hpow.
    rewrite Z.pow_1_r in Hpow. destruct (prime_sqrt_1 n x Hp Hx Hpow); done.
  - cbn [mr_squares]. rewrite mulMod_ok by lia. cbn [mbind option_bind].
    destruct (Z.eqb_spec (x * x mod n) (n - 1)) as [|Hne]; [done|].
    pose proof (Z.mod_pos_bound (x * x) n ltac:(lia)). apply IH; [lia| |done|].
    + intros E. destruct (prime_sqrt_1 n x Hp Hx E); done.
    + rewrite Z.mod_pow_l, <- pow2_succ by lia. by rewrite <- Nat2Z.inj_succ.
Qed.

Lemma mr_squares_total n k : 2 <= n < 2 ^ 64 -> forall x, 0 <= x < n -> is_Some (mr_squares k x n).
Proof.
  intros Hn. induction k as [|k IH]; intros x Hx; [done|]. cbn [mr_squares].
  rewrite mulMod_ok by lia. cbn [mbind option_bind]. destruct (_ =? _); [done|].
  apply IH. apply Z.mod_pos_bound. lia.
Qed.

Lemma mr_bases_prime n d s bases : Z.prime n -> n < 2 ^ 64 -> 0 <= d < 2 ^ 64 -> 1 <= s ->
  n - 1 = d * 2 ^ s -> Forall (fun a => 2 <= a) bases -> mr_bases bases n d s = Some true.
Proof.
  intros Hp Hn Hd Hs Hnd Hb. pose proof (Z.prime_ge_2 n Hp).
  induction Hb as [|a bases Ha Hb IH]; [done|]. cbn [mr_bases].
  destruct (Z.leb_spec n a); [done|]. rewrite powMod_ok by lia. cbn [mbind option_bind].
  destruct (Z.eqb_spec (a ^ d mod n) 1) as [|H1]; [done|].
  destruct (Z.eqb_spec (a ^ d mod n) (n - 1)) as [|Hm]; [done|]. cbn [orb].
  rewrite mr_squares_prime; [done|done|done|apply Z.mod_pos_bound; lia|done|done|].
  replace (Z.of_nat (S (Z.to_nat (s - 1)))) with s by lia.
  rewrite Z.mod_pow_l, <- Z.pow_mul_r, <- Hnd by (try apply Z.pow_nonneg; lia).
  apply ZmodInv.Z.fermat_nz; [done|]. rewrite Z.mod_small; lia.
Qed.

Lemma mr_bases_total n d s bases : 2 <= n < 2 ^ 64 -> 0 <= d < 2 ^ 64 ->
  Forall (fun a => 2 <= a) bases -> is_Some (mr_bases bases n d s).
Proof.
  intros Hn Hd Hb. induction Hb as [|a bases Ha Hb IH]; [done|]. cbn [mr_bases].
  destruct (Z.leb_spec n a); [done|]. rewrite powMod_ok by lia. cbn [mbind option_bind].
  destruct (_ || _); [done|].
  destruct (mr_squares_total n (Z.to_nat (s - 1)) Hn (a ^ d mod n)) as [[] ->];
    [apply Z.mod_pos_bound; lia|done|done].
Qed.

Lemma bases_ge_2 : Forall (fun a => 2 <= a) witness_bases.
Proof. unfold witness_bases. repeat constructor; lia. Qed.

Lemma millerRabin_spec n : 0 <= n < 2 ^ 64 ->
  exists b : bool, millerRabin n = Some b /\ (Z.prime n -> b = true).
Proof.
  intros Hn. unfold millerRabin.
  destruct (Z.ltb_spec n 2). { exists false. split; [done|]. intros Hp%Z.prime_ge_2. lia. }
  destruct ((n =? 2) || (n =? 3)) eqn:E23; [by exists true|].
  destruct (Z.eqb_spec (n mod 2) 0) as [E|E].
  { exists false. split; [done|]. intros [_ Hp]. exfalso. apply (Hp 2); [lia|].
    by apply Z.mod_divide. }
  destruct (split_twos_ok 64 (n - 1) 0) as (d & s & -> & Hnd & Hs & Hd & Hs'); [simpl; lia|lia|].
  rewrite Z.sub_0_r in Hnd. cbn [mbind option_bind].
  assert ((n - 1) mod 2 = 0) as He by (Z.div_mod_to_equations; lia). specialize (Hs' He).
  assert (d < 2 ^ 64) by (pose proof (Z.pow_pos_nonneg 2 s); nia).
  destruct (mr_bases_total n d s witness_bases ltac:(lia) ltac:(lia) bases_ge_2) as [b Hb].
  exists b. split; [done|]. intros Hp.
  rewrite mr_bases_prime in Hb by (done || lia || apply bases_ge_2). by injection Hb as <-.
Qed.

(** What the test rejects has a divisor. *)
Lemma rejected_composite n : 2 <= n < 2 ^ 64 -> millerRabin n = Some false ->
  exists p, 1 < p /\ p * p <= n /\ (p | n).
Proof.
  intros Hn H. destruct (millerRabin_spec n) as (b & Hb & Hp); [lia|].
  rewrite H in Hb. injection Hb as <-.
  destruct (not_prime_divide n) as (d & Hd & q & Hq); [lia| |].
  { intros Hpr%prime_alt. by specialize (Hp Hpr). }
  destruct (Z.le_gt_cases d q).
  - exists d. split; [lia|]. split; [nia|]. by exists q.
  - exists q. split; [nia|]. split; [nia|]. exists d. lia.
Qed.

(** * Pollard's rho *)

(** The closure without its panics. *)
Definition rho_g (n c x : Z) : Z := uwrap 64 (x * x mod n + c) mod n.

Lemma rho_f_ok n c x : 2 <= n < 2 ^ 64 -> 0 <= x < n -> rho_f n c x = Some (rho_g n c x).
Proof.
  intros Hn Hx. unfold rho_f, urem, rho_g. rewrite mulMod_ok by lia. cbn [mbind option_bind].
  by rewrite (proj2 (Z.eqb_neq _ _)) by lia.
Qed.

Lemma rho_g_range n c x : 2 <= n -> 0 <= rho_g n c x < n.
Proof. intros Hn. apply Z.mod_pos_bound. lia. Qed.

(** The sequence of the iterates of [f] from 2. *)
Definition rho_seq (n c : Z) (i : nat) : Z := Nat.iter i (rho_g n c) 2.

Lemma rho_seq_range n c i : 2 < n -> 0 <= rho_seq n c i < n.
Proof. intros Hn. destruct i; simpl; [lia|]. apply rho_g_range. lia. Qed.

Lemma rho_seq_add n c i j k : rho_seq n c i = rho_seq n c j -> rho_seq n c (k + i) = rho_seq n c (k + j).
Proof. intros H. induction k as [|k IH]; [done|]. simpl. by rewrite IH. Qed.

(** Floyd: a repetition in the sequence makes [x] and [y] meet. *)
Lemma rho_meet n c i j : (i < j)%nat -> rho_seq n c i = rho_seq n c j ->
  exists m, (1 <= m <= j)%nat /\ rho_seq n c m = rho_seq n c (2 * m).
Proof.
  intros Hij E. set (l := (j - i)%nat).
  assert (forall t m, (i <= m)%nat -> rho_seq n c m = rho_seq n c (m + t * l)) as Hper.
  { induction t as [|t IH]; intros m Hm; [by rewrite Nat.add_0_r|].
    rewrite (IH m Hm). replace (m + t * l)%nat with ((m - i + t * l) + i)%nat by lia.
    rewrite (rho_seq_add n c i j) by done. f_equal. lia. }
  exists (l * (i / l + 1))%nat.
  pose proof (Nat.div_mod i l ltac:(lia)). pose proof (Nat.mod_upper_bound i l ltac:(lia)).
  split; [lia|]. rewrite (Hper (i / l + 1)%nat) by lia. f_equal. lia.
Qed.

(** One of the first [n] comparisons finds [x] and [y] equal. *)
Lemma rho_meets n c : 2 < n ->
  exists m, (1 <= m <= Z.to_nat n)%nat /\ rho_seq n c m = rho_seq n c (2 * m).
Proof.
  intros Hn.
  destruct (decide (Exists (fun m => rho_seq n c m = rho_seq n c (2 * m)) (seq 1 (Z.to_nat n))))
    as [H|H].
  { rewrite Exists_exists in H. destruct H as (m & Hm & E). rewrite elem_of_seq in Hm.
    exists m. split; [lia|done]. }
  exfalso. set (l := rho_seq n c <$> seq 0 (S (Z.to_nat n))).
  assert (NoDup l) as Hnd.
  { apply NoDup_alt. intros i j x Hi Hj. unfold l in *.
    rewrite list_lookup_fmap in Hi, Hj.
    apply fmap_Some in Hi as (i' & Hi & ->). apply fmap_Some in Hj as (j' & Hj & E).
    rewrite lookup_seq in Hi, Hj. destruct Hi as [-> Hi], Hj as [-> Hj]. simpl in *.
    destruct (Nat.lt_trichotomy i j) as [Hlt | [? | Hlt]]; [|done|]; exfalso; apply H;
      rewrite Exists_exists.
    - destruct (rho_meet n c i j Hlt E) as (m & Hm & Em). exists m. rewrite elem_of_seq. split; [lia|done].
    - destruct (rho_meet n c j i Hlt (eq_sym E)) as (m & Hm & Em). exists m.
      rewrite elem_of_seq. split; [lia|done]. }
  assert (length l <= length (Z.of_nat <$> seq 0 (Z.to_nat n)))%nat as Hl.
  { apply NoDup_incl_length; [by apply NoDup_ListNoDup|]. intros x Hx%list_elem_of_In.
    apply list_elem_of_fmap in Hx as (i & -> & _). apply list_elem_of_In, list_elem_of_fmap.
    pose proof (rho_seq_range n c i Hn). exists (Z.to_nat (rho_seq n c i)).
    rewrite elem_of_seq. lia. }
  unfold l in Hl. rewrite !length_fmap, !length_seq in Hl. lia.
Qed.

Lemma rho_diff n x y : 2 <= n < 2 ^ 64 -> 0 <= x < n -> 0 <= y < n ->
  gcd (if y <? x then uwrap 64 (x - y) else uwrap 64 (y - x)) n = Some (Z.gcd (x - y) n).
Proof.
  intros Hn Hx Hy. unfold uwrap. destruct (Z.ltb_spec y x).
  - rewrite Z.mod_small by lia. apply gcd_ok; lia.
  - rewrite Z.mod_small by lia. rewrite gcd_ok by lia.
    rewrite <- (Z.gcd_opp_l (x - y)). by replace (- (x - y)) with (y - x) by lia.
Qed.

(** A turn of the inner loop. *)
Lemma rho_loop_S fuel n c x y d :
  rho_loop (S fuel) n c x y d =
    if d =? 1 then
      x ← rho_f n c x; y ← (y ← rho_f n c y; rho_f n c y);
      d ← gcd (if y <? x then uwrap 64 (x - y) else uwrap 64 (y - x)) n;
      rho_loop fuel n c x y d
    else Some d.
Proof. reflexivity. Qed.

Lemma bind_Some {A B} (f : A -> option B) x : (Some x ≫= f) = f x.
Proof. done. Qed.

Lemma rho_loop_step fuel n c i : 2 < n < 2 ^ 64 ->
  rho_loop (S fuel) n c (rho_seq n c i) (rho_seq n c (2 * i)) 1 =
    rho_loop fuel n c (rho_seq n c (S i)) (rho_seq n c (2 * S i))
      (Z.gcd (rho_seq n c (S i) - rho_seq n c (2 * S i)) n).
Proof.
  intros Hn. rewrite rho_loop_S, Z.eqb_refl.
  pose proof (rho_seq_range n c i ltac:(lia)). pose proof (rho_seq_range n c (2 * i) ltac:(lia)).
  pose proof (rho_seq_range n c (S i) ltac:(lia)).
  pose proof (rho_seq_range n c (2 * S i) ltac:(lia)).
  assert (rho_g n c (rho_seq n c i) = rho_seq n c (S i)) as E1 by done.
  assert (rho_g n c (rho_g n c (rho_seq n c (2 * i))) = rho_seq n c (2 * S i)) as E2.
  { replace (2 * S i)%nat with (S (S (2 * i))) by lia. done. }
  rewrite !rho_f_ok, !bind_Some, rho_f_ok, E1, E2 by (lia || apply rho_g_range; lia).
  by rewrite bind_Some, rho_diff, bind_Some by lia.
Qed.

(** The inner loop ends, with a divisor of [n] other than 1; it is [n] unless the first
    comparison gives another one. *)
Lemma rho_loop_ok n c : 2 < n < 2 ^ 64 ->
  exists d, (forall fuel, (Z.to_nat n + 1 <= fuel)%nat -> rho_loop fuel n c 2 2 1 = Some d) /\
    1 < d /\ (d | n) /\
    (Z.gcd (rho_seq n c 1 - rho_seq n c 2) n <> 1 -> d = Z.gcd (rho_seq n c 1 - rho_seq n c 2) n).
Proof.
  intros Hn. set (D i := Z.gcd (rho_seq n c i - rho_seq n c (2 * i)) n).
  assert (forall i, 0 < D i /\ (D i | n)) as HD.
  { intros i. unfold D. split; [|apply Z.gcd_divide_r].
    pose proof (Z.gcd_nonneg (rho_seq n c i - rho_seq n c (2 * i)) n).
    enough (Z.gcd (rho_seq n c i - rho_seq n c (2 * i)) n <> 0) by lia.
    intros E%Z.gcd_eq_0_r. lia. }
  assert (forall k i, (exists m, i < m <= i + k /\ rho_seq n c m = rho_seq n c (2 * m))%nat ->
    exists d, (forall fuel, (k + 1 <= fuel)%nat ->
        rho_loop fuel n c (rho_seq n c i) (rho_seq n c (2 * i)) 1 = Some d) /\
      1 < d /\ (d | n) /\ (D (S i) <> 1 -> d = D (S i))) as H.
  { induction k as [|k IH]; intros i (m & Hm & E); [lia|].
    destruct (HD (S i)) as [Hpos Hdiv]. destruct (decide (D (S i) = 1)) as [H1|H1].
    - destruct (IH (S i)) as (d & Hd & H2 & H3 & _).
      { exists m. split; [|done]. enough (m <> S i) by lia. intros ->.
        unfold D in H1. rewrite E, Z.sub_diag, Z.gcd_0_l in H1. lia. }
      exists d. split; [|done]. intros [|fuel] Hf; [lia|]. rewrite rho_loop_step by lia.
      fold (D (S i)). rewrite H1. apply Hd. lia.
    - exists (D (S i)). split; [|split; [lia|done]]. intros [|[|fuel]] Hf; [lia..|].
      rewrite rho_loop_step by lia. fold (D (S i)). by rewrite rho_loop_S, (proj2 (Z.eqb_neq _ _) H1). }
  destruct (rho_meets n c) as (m & Hm & E); [lia|].
  apply (H (Z.to_nat n) 0%nat). exists m. split; [lia|done].
Qed.

(** ** The search over [c] *)

(** The first comparison of the search with [c = p - 2], [p] a divisor: [2] is a fixed point of
    [f] modulo [p]. *)
Lemma rho_first n p q : 5 <= p -> n = p * q -> p + 2 < n -> n < 2 ^ 64 ->
  (p + 2) * (p + 2) mod n + (p - 2) < 2 ^ 64 ->
  Z.gcd (rho_seq n (p - 2) 1 - rho_seq n (p - 2) 2) n = Z.gcd (p * (p + 4)) n.
Proof.
  intros Hp Hn Hlt H64 Hw.
  assert (rho_seq n (p - 2) 1 = p + 2) as E1.
  { unfold rho_seq, rho_g, uwrap. simpl Nat.iter. rewrite (Z.mod_small (2 * 2) n) by lia.
    replace (2 * 2 + (p - 2)) with (p + 2) by lia.
    by rewrite (Z.mod_small _ (2 ^ 64)), Z.mod_small by lia. }
  assert (rho_seq n (p - 2) 2 = ((p + 2) * (p + 2) mod n + (p - 2)) mod n) as E2.
  { change (rho_seq n (p - 2) 2) with (rho_g n (p - 2) (rho_seq n (p - 2) 1)). rewrite E1.
    unfold rho_g, uwrap. rewrite (Z.mod_small _ (2 ^ 64)); [done|].
    pose proof (Z.mod_pos_bound ((p + 2) * (p + 2)) n). lia. }
  rewrite E1, E2, Z.add_mod_idemp_l by lia.
  pose proof (Z.div_mod ((p + 2) * (p + 2) + (p - 2)) n ltac:(lia)) as E.
  revert E. generalize (((p + 2) * (p + 2) + (p - 2)) / n) (((p + 2) * (p + 2) + (p - 2)) mod n).
  intros t r E. rewrite <- Z.gcd_opp_l.
  replace (- (p + 2 - r)) with (p * (p + 4) + (- t) * n) by (ring_simplify; ring_simplify in E; lia).
  by rewrite Z.gcd_comm, Z.gcd_add_mult_diag_r, Z.gcd_comm.
Qed.

(** When [n] does not divide [p * (p + 4)], that comparison gives a proper divisor. *)
Lemma rho_loop_hits n p q : 5 <= p -> n = p * q -> p + 2 < n -> n < 2 ^ 64 ->
  (p + 2) * (p + 2) mod n + (p - 2) < 2 ^ 64 -> ~ (q | p + 4) ->
  exists d, (forall fuel, (Z.to_nat n + 1 <= fuel)%nat -> rho_loop fuel n (p - 2) 2 2 1 = Some d) /\
    1 < d /\ (d | n) /\ d <> n.
Proof.
  intros Hp Hn Hlt H64 Hw Hq.
  destruct (rho_loop_ok n (p - 2)) as (d & Hd & H1 & H2 & H3); [lia|].
  exists d. do 3 (split; [done|]). rewrite (rho_first n p q) in H3 by done.
  assert ((p | Z.gcd (p * (p + 4)) n)) as Hpg.
  { apply Z.gcd_greatest; [by exists (p + 4); lia|]. by exists q; lia. }
  pose proof (Z.gcd_nonneg (p * (p + 4)) n).
  rewrite H3.
  2: { intros E. rewrite E in Hpg. apply Z.divide_1_r_nonneg in Hpg; lia. }
  intros E. apply Hq. pose proof (Z.gcd_divide_l (p * (p + 4)) n) as Hdiv.
  rewrite E, Hn in Hdiv. destruct Hdiv as [k Hk]. exists k. nia.
Qed.

(** Some [c] below 2^32 + 2 gives a proper divisor of a composite number. *)
Lemma rho_good_c n p : 1 < p -> p * p <= n -> (p | n) -> n < 2 ^ 64 -> n mod 2 <> 0 -> n mod 3 <> 0 ->
  exists c d, 1 <= c < 2 ^ 33 /\
    (forall fuel, (Z.to_nat n + 1 <= fuel)%nat -> rho_loop fuel n c 2 2 1 = Some d) /\
    1 < d /\ (d | n) /\ d <> n.
Proof.
  intros Hp Hpp [q Hq] H64 H2 H3.
  assert (forall r, (r | p) \/ (r | q) -> (r | n)) as Hr.
  { intros r [[k ->] | [k ->]]; rewrite Hq; [exists (q * k)|exists (k * p)]; lia. }
  assert (forall r, 0 < r -> n mod r <> 0 -> p mod r <> 0 /\ q mod r <> 0) as Hmod.
  { intros r Hr0 Hn. split; intros E; apply Hn, Z.mod_divide, Hr; try lia;
      [left|right]; (apply Z.mod_divide; [lia|done]). }
  destruct (Hmod 2) as [P2 Q2]; [lia|done|]. destruct (Hmod 3) as [P3 Q3]; [lia|done|].
  assert (5 <= p /\ p <= q) as [Hp5 Hpq].
  { split; [|nia]. destruct (decide (p = 2)), (decide (p = 3)), (decide (p = 4)); subst; try done; lia. }
  assert (p < 2 ^ 32) as Hp32 by nia.
  assert (p <> 2 ^ 32 - 1) by (intros ->; done).
  assert (p <> 2 ^ 32 - 2) by (intros ->; done).
  destruct (Zdivide_dec q (p + 4)) as [[k Hk]|Hnd].
  - assert (k = 1) as -> by nia. assert (q = p + 4) as -> by lia.
    exists (p + 4 - 2). destruct (rho_loop_hits n (p + 4) p) as (d & Hd); try (lia || nia).
    + assert ((p + 4 + 2) * (p + 4 + 2) mod n <= 8 * p + 36); [|lia].
      replace ((p + 4 + 2) * (p + 4 + 2)) with (8 * p + 36 + 1 * n) by lia.
      rewrite Z.mod_add by lia. apply Z.mod_le; lia.
    + intros [k Hk']. assert (k = 1 \/ 2 <= k) as [-> | Hk2] by nia; [lia|].
      assert ((k - 1) * p = 8) as E by lia.
      assert (p <= 8) by nia. assert (p = 5 \/ p = 6 \/ p = 7 \/ p = 8) as Hcases by lia.
      destruct Hcases as [-> | [-> | [-> | ->]]]; lia || done.
    + exists d. split; [lia|]. exact Hd.
  - exists (p - 2). destruct (rho_loop_hits n p q) as (d & Hd); try (lia || nia || done).
    + pose proof (Z.mod_le ((p + 2) * (p + 2)) n). nia.
    + exists d. split; [lia|]. exact Hd.
Qed.

(** The inner loop returns for every [c], so the search reaches that one. *)
Lemma rho_search_ok n c0 d0 : 2 < n < 2 ^ 64 -> c0 < 2 ^ 33 ->
  (forall fuel, (Z.to_nat n + 1 <= fuel)%nat -> rho_loop fuel n c0 2 2 1 = Some d0) ->
  1 < d0 -> (d0 | n) -> d0 <> n ->
  forall m c, 1 <= c <= c0 -> m = Z.to_nat (c0 - c) ->
  exists d, (forall fuel k, (m + 1 <= fuel)%nat -> (Z.to_nat n + 1 <= k)%nat ->
      rho_search fuel k n c = Some d) /\ 1 < d /\ (d | n) /\ d <> n.
Proof.
  intros Hn Hc0 H0 Hd1 Hd2 Hd3. induction m as [|m IH]; intros c Hc Hm.
  - exists d0. split; [|done]. intros [|fuel] k Hf Hk; [lia|]. cbn [rho_search].
    replace c with c0 by lia. rewrite H0, bind_Some by done.
    by rewrite (proj2 (Z.eqb_neq _ _) Hd3).
  - destruct (rho_loop_ok n c) as (d & Hd & H1 & H2 & _); [done|].
    destruct (decide (d = n)) as [->|Hne].
    + destruct (IH (c + 1)) as (d & Hs & Hrest); [lia..|]. exists d. split; [|done].
      intros [|fuel] k Hf Hk; [lia|]. cbn [rho_search].
      rewrite Hd, bind_Some, Z.eqb_refl by done. unfold uwrap. rewrite Z.mod_small by lia.
      apply Hs; lia.
    + exists d. split; [|done]. intros [|fuel] k Hf Hk; [lia|]. cbn [rho_search].
      rewrite Hd, bind_Some by done. by rewrite (proj2 (Z.eqb_neq _ _) Hne).
Qed.

Lemma pollardRho_ok n : 2 <= n < 2 ^ 64 -> millerRabin n = Some false ->
  exists F d, (forall fuel, (F <= fuel)%nat -> pollardRho fuel n = Some d) /\ 1 < d < n /\ (d | n).
Proof.
  intros Hn Hmr. destruct (rejected_composite n Hn Hmr) as (p & Hp & Hpp & Hpn).
  assert (3 < n) as Hn3 by nia. unfold pollardRho.
  destruct (Z.eqb_spec (n mod 2) 0) as [E2|E2].
  { exists 0%nat, 2. split; [done|]. split; [lia|]. apply Z.mod_divide; lia. }
  destruct (Z.eqb_spec (n mod 3) 0) as [E3|E3].
  { exists 0%nat, 3. split; [done|]. split; [lia|]. apply Z.mod_divide; lia. }
  destruct (rho_good_c n p) as (c0 & d0 & Hc & H0 & H1 & H2 & H3); try done; [lia|].
  destruct (rho_search_ok n c0 d0 ltac:(lia) ltac:(lia) H0 H1 H2 H3 (Z.to_nat (c0 - 1)) 1)
    as (d & Hs & Hd1 & Hd2 & Hd3); [lia|done|].
  exists (Z.to_nat n + Z.to_nat c0 + 1)%nat, d. split; [intros; apply Hs; lia|].
  split; [|done]. apply Z.divide_pos_le in Hd2 as ?; lia.
Qed.

(** * The factorization *)

Definition product (l : list Z) : Z := foldr Z.mul 1 l.

Lemma product_app l k : product (l ++ k) = product l * product k.
Proof. induction l as [|x l IH]; simpl product in *; [by destruct (product k)|]. unfold product in *. simpl. rewrite IH. lia. Qed.

(** What the test accepts: every factor is at least 2 and passes the test. *)
Definition accepted (p : Z) : Prop := 2 <= p < 2 ^ 64 /\ millerRabin p = Some true.

Lemma factorize_ok depth : forall n, 2 <= n < 2 ^ Z.of_nat depth -> (depth <= 64)%nat ->
  exists F l, (forall fuel factors, (F <= fuel)%nat ->
      factorize depth fuel n factors = Some (factors ++ l)) /\
    product l = n /\ Forall accepted l /\ (Z.prime n -> l = [n]).
Proof.
  induction depth as [|depth IH]; intros n Hn Hd; [change (2 ^ Z.of_nat 0) with 1 in Hn; lia|].
  assert (n < 2 ^ 64) as H64.
  { eapply Z.lt_le_trans; [apply Hn|]. apply Z.pow_le_mono_r; lia. }
  destruct (millerRabin_spec n) as (b & Hb & Hp); [lia|].
  assert (forall fuel factors, factorize (S depth) fuel n factors =
    if b then Some (factors ++ [n])
    else d ← pollardRho fuel n; factors ← factorize depth fuel d factors;
         factorize depth fuel (n / d) factors) as Hstep.
  { intros fuel factors. cbn [factorize]. rewrite (proj2 (Z.ltb_ge _ _)) by lia.
    by rewrite Hb, bind_Some. }
  destruct b.
  - exists 0%nat, [n]. split; [intros; apply Hstep|]. split; [simpl; lia|]. split; [|done].
    repeat constructor; done || lia.
  - destruct (pollardRho_ok n ltac:(lia) Hb) as (F0 & d & Hrho & Hd1 & q & Hq).
    rewrite Nat2Z.inj_succ, Z.pow_succ_r in Hn by lia.
    assert (n / d = q) as Hdiv by (rewrite Hq; apply Z.div_mul; lia).
    assert (2 <= q < 2 ^ Z.of_nat depth) as Hq2 by nia.
    destruct (IH d ltac:(nia) ltac:(lia)) as (F1 & l1 & H1 & P1 & A1 & _).
    destruct (IH q Hq2 ltac:(lia)) as (F2 & l2 & H2 & P2 & A2 & _).
    exists (F0 + F1 + F2)%nat, (l1 ++ l2). split; [|split; [|split]].
    + intros fuel factors Hf. rewrite Hstep, Hrho, bind_Some, H1, bind_Some by lia.
      rewrite Hdiv, H2 by lia. by rewrite app_assoc.
    + rewrite product_app, P1, P2. lia.
    + by apply Forall_app.
    + intros Hpr. by specialize (Hp Hpr).
Qed.

(** ** Small numbers *)

(** Trial division by the numbers up to 63, for [n < 4096]. *)
Definition trial (n : Z) : bool :=
  forallb (fun d => (n <=? d) || negb (n mod d =? 0)) (seqZ 2 62).

Lemma trial_prime n : 2 <= n < 4096 -> trial n = true -> Z.prime n.
Proof.
  intros Hn Ht. split; [lia|]. intros d Hd Hdn.
  assert (forall p, 1 < p -> p * p <= n -> (p | n) -> False) as Hsq.
  { intros p Hp Hpp Hpn. unfold trial in Ht. rewrite forallb_forall in Ht.
    assert (p < 64) by nia. specialize (Ht p).
    rewrite <- list_elem_of_In, elem_of_seqZ in Ht. specialize (Ht ltac:(lia)).
    apply Z.mod_divide in Hpn; [|lia]. rewrite Hpn in Ht. nia. }
  destruct Hdn as [q Hq]. destruct (Z.le_gt_cases d q).
  - apply (Hsq d); [lia|nia|by exists q].
  - apply (Hsq q); [nia|nia|exists d; lia].
Qed.

Lemma small_accepted_prime n : 0 <= n < 4096 -> millerRabin n = Some true -> Z.prime n.
Proof.
  assert (forallb (fun n => if trial n then true
                            else match millerRabin n with Some true => false | _ => true end)
            (seqZ 2 4094) = true) as H by (vm_compute; reflexivity).
  intros Hn Hmr. destruct (Z.lt_ge_cases n 2).
  { unfold millerRabin in Hmr. by rewrite (proj2 (Z.ltb_lt _ _)) in Hmr by done. }
  rewrite forallb_forall in H. specialize (H n).
  rewrite <- list_elem_of_In, elem_of_seqZ in H. specialize (H ltac:(lia)). rewrite Hmr in H.
  apply trial_prime; [lia|]. by destruct (trial n).
Qed.

(** ** The command *)

Lemma product_perm l k : l ≡ₚ k -> product l = product k.
Proof. induction 1; simpl product in *; unfold product in *; simpl; lia. Qed.

Lemma accepted_small_prime l n : 2 <= n < 4096 -> product l = n -> Forall accepted l -> Forall Z.prime l.
Proof.
  intros Hn Hp Ha.
  assert (forall l, Forall accepted l -> 1 <= product l) as Hpos.
  { induction 1 as [|x k [Hx _] _ IH]; [done|]. unfold product in *. simpl. nia. }
  assert (forall l, Forall accepted l -> Forall (fun p => p <= product l) l) as Hle.
  { induction 1 as [|x k [Hx Hm] Hk IH]; constructor; specialize (Hpos k Hk).
    - unfold product in *. simpl. nia.
    - eapply Forall_impl; [exact IH|]. intros y Hy. simpl in Hy. unfold product in *. simpl. nia. }
  specialize (Hle l Ha). rewrite Hp in Hle.
  rewrite !Forall_forall in *. intros p Hin. destruct (Ha p Hin) as [Hp2 Hm].
  specialize (Hle p Hin). apply small_accepted_prime; [lia|done].
Qed.

(** What [factor] prints for [n]. *)
Record factorization (n : Z) (l : list Z) : Prop := {
  fz_product : product l = n;
  fz_sorted : Sorted Z.le l;
  fz_accepted : Forall accepted l;
  fz_prime : Z.prime n -> l = [n];
  fz_small : n < 4096 -> Forall Z.prime l
}.

Lemma factorize_sorted n : 2 <= n < 2 ^ 64 ->
  exists F l, (forall fuel, (F <= fuel)%nat ->
      (factors ← factorize 64 fuel n []; Some (merge_sort Z.le factors)) = Some l) /\ factorization n l.
Proof.
  intros Hn. destruct (factorize_ok 64 n) as (F & l & Hl & Hp & Ha & Hpr); [done|lia|].
  exists F, (merge_sort Z.le l). split.
  { intros fuel Hf. by rewrite (Hl fuel [] Hf). }
  pose proof (merge_sort_Permutation Z.le l) as Hperm.
  assert (Forall accepted (merge_sort Z.le l)) as Ha' by (by rewrite Hperm).
  assert (product (merge_sort Z.le l) = n) as Hp' by (by rewrite (product_perm _ _ Hperm)).
  split; [done| |done| |].
  - apply Sorted_merge_sort. intros x y. lia.
  - intros H. by rewrite (Hpr H).
  - intros H. apply (accepted_small_prime _ n); [lia|done|done].
Qed.

(** An input: invalid, or a number. *)
Lemma factor_input_ok inputStr :
  (exists e, e.(Error) = "invalid number" /\
     forall fuel, factor_input 64 fuel inputStr = Some (e, None)) \/
  (exists F e v, 0 <= v < 2 ^ 64 /\ e.(Error) = "" /\
     (v <= 1 -> Factors e = []) /\ (2 <= v -> factorization v (Factors e)) /\
     forall fuel, (F <= fuel)%nat -> factor_input 64 fuel inputStr = Some (e, Some v)).
Proof.
  unfold factor_input. set (origClean := TrimSpace inputStr). cbv zeta.
  set (clean := match origClean with "" => origClean | String c s => if c =c? "+" then s else origClean end).
  destruct (HasPrefix clean "-" || (clean =s? "")) eqn:E1; [left; eexists; split; [|done]; done|].
  destruct (ParseUint clean 10 64) as [v|] eqn:Ev; [|left; eexists; split; [|done]; done].
  right. apply ParseUint_range in Ev; [|done].
  destruct (Z.ltb_spec 1 v) as [Hv|Hv].
  - destruct (factorize_sorted v) as (F & l & Hl & Hfz); [lia|].
    exists F, {| Input := origClean; Factors := l; Error := "" |}, v.
    do 2 (split; [done|]). split; [lia|]. split; [done|]. intros fuel Hf. by rewrite Hl.
  - exists 0%nat, {| Input := origClean; Factors := []; Error := "" |}, v.
    do 2 (split; [done|]). split; [done|]. split; [lia|]. done.
Qed.

Definition factor_line (v : Z) (l : list Z) : string :=
  FormatInt v +:+ ":" +:+ sconcat ((fun f => " " +:+ FormatInt f) <$> l).

(** A number in decimal is read back. *)
Lemma digits_word s : str_forall is_digit s = true -> word s = true.
Proof. apply str_forall_impl. intros c. unfold is_digit. lia. Qed.

Lemma factor_number n : 0 <= n < 2 ^ 64 -> exists F l e, Factors e = l /\
  ((n <= 1 -> l = []) /\ (2 <= n -> factorization n l)) /\
  (forall fuel, (F <= fuel)%nat -> factor_input 64 fuel (FormatInt n) = Some (e, Some n)).
Proof.
  intros Hn. destruct (FormatInt_digits n) as [Hd Hne]; [lia|].
  assert (ParseUint (FormatInt n) 10 64 = Some n) as Hp.
  { unfold FormatInt. replace (pretty n) with (pretty (Z.to_N n)) by (destruct n; done || lia).
    rewrite ParseUint_pretty by lia. f_equal. lia. }
  unfold factor_input. rewrite TrimSpace_word by (done || by apply digits_word).
  destruct (FormatInt n) as [|c s] eqn:E; [done|]. cbn [str_forall] in Hd.
  apply andb_true_iff in Hd as [Hc _].
  assert ((c =c? "+") = false) as -> by (destruct (ceqb_spec c "+") as [->|]; done).
  assert (HasPrefix (String c s) "-" = false) as ->.
  { cbn [HasPrefix]. by destruct (ceqb_spec "-" c) as [<-|]. }
  cbn [String.eqb orb]. rewrite Hp. destruct (Z.ltb_spec 1 n).
  - destruct (factorize_sorted n) as (F & l & Hl & Hfz); [lia|].
    exists F, l, {| Input := String c s; Factors := l; Error := "" |}. split; [done|].
    split; [split; [lia|done]|]. intros fuel Hf. by rewrite Hl.
  - exists 0%nat, [], {| Input := String c s; Factors := []; Error := "" |}.
    split; [done|]. split; [split; [done|lia]|]. done.
Qed.

(** * Properties *)

(** The Miller-Rabin test always answers, accepts every prime below 2^64, and below 4096 (a
    range with the first pseudoprimes to the base 2) accepts nothing else. *)
Theorem millerRabin_correct n : 0 <= n < 2 ^ 64 ->
  exists b : bool, millerRabin n = Some b /\ (Z.prime n -> b = true) /\
    (n < 4096 -> b = true -> Z.prime n).
Proof.
  intros Hn. destruct (millerRabin_spec n Hn) as (b & Hb & Hp). exists b. split; [done|].
  split; [done|]. intros H4 ->. apply small_accepted_prime; [lia|done].
Qed.

Lemma millerRabin_correct_witness : exists b : bool, millerRabin 2047 = Some b /\
  (Z.prime 2047 -> b = true) /\ (2047 < 4096 -> b = true -> Z.prime 2047).
Proof. apply (millerRabin_correct 2047). lia. Defined.

(** Pollard's rho returns a proper divisor of every number the test rejects: the inner loops
    end whatever [c], by Floyd's argument, and [c = p - 2] or [p + 2] for a divisor [p] up to the
    square root gives one, so that the search over [c] ends too. *)
Theorem pollardRho_returns n : 2 <= n < 2 ^ 64 -> millerRabin n = Some false ->
  exists F d, (forall fuel, (F <= fuel)%nat -> pollardRho fuel n = Some d) /\ 1 < d < n /\ (d | n).
Proof. apply pollardRho_ok. Qed.

Lemma pollardRho_returns_witness : exists F d,
  (forall fuel, (F <= fuel)%nat -> pollardRho fuel 10403 = Some d) /\ 1 < d < 10403 /\ (d | 10403).
Proof. apply (pollardRho_returns 10403); [lia|]. vm_compute. reflexivity. Defined.

(** C19: [factor] always ends without a panic.  Each input is either refused as an invalid number,
    on the error stream, or is a 64-bit number for which a line is printed: the number and its
    factors, in ascending order, whose product is the number, each accepted by the test; a prime
    is its own only factor, and the factors of a number below 4096 are primes.  The exit code is 1
    when an input was refused and 0 otherwise. *)
Theorem factor_correct inputs : exists F out status,
  (forall fuel, (F <= fuel)%nat -> factor_run 64 fuel inputs = Some (out, status)) /\
  status = (if decide (f_stderr out = []) then 0 else 1) /\
  (length (f_stdout out) + length (f_stderr out) = length inputs)%nat /\
  Forall (fun line => exists v l, 0 <= v < 2 ^ 64 /\ line = factor_line v l /\
    (v <= 1 -> l = []) /\ (2 <= v -> factorization v l)) (f_stdout out).
Proof.
  unfold factor_run.
  assert (exists F out, (forall fuel, (F <= fuel)%nat -> factor_inputs 64 fuel inputs = Some out) /\
    f_hasError out = (if decide (f_stderr out = []) then false else true) /\
    (length (f_stdout out) + length (f_stderr out) = length inputs)%nat /\
    Forall (fun line => exists v l, 0 <= v < 2 ^ 64 /\ line = factor_line v l /\
      (v <= 1 -> l = []) /\ (2 <= v -> factorization v l)) (f_stdout out)) as (F & out & H1 & H2 & H3).
  { induction inputs as [|i inputs (F & out & H1 & H2 & H3 & H4)];
      [by exists 0%nat, {| f_stdout := []; f_stderr := []; f_hasError := false |}|].
    destruct (factor_input_ok i) as [(e & He & H) | (F' & e & v & Hv & He & Hs & Hb & H)].
    - eexists F, _. split.
      { intros fuel Hf. cbn [factor_inputs]. rewrite H, bind_Some, H1 by done. reflexivity. }
      simpl. split; [done|]. split; [lia|done].
    - eexists (F + F')%nat, _. split.
      { intros fuel Hf. cbn [factor_inputs]. rewrite H, bind_Some, H1 by lia. reflexivity. }
      simpl. split; [done|]. split; [lia|]. constructor; [|done]. by exists v, (Factors e). }
  exists F, out, (if f_hasError out then 1 else 0). split.
  { intros fuel Hf. by rewrite (H1 fuel Hf). }
  rewrite H2. split; [by case_decide|done].
Qed.

(** Run on numbers in decimal, [factor] prints for each its factorization, and exits with 0. *)
Theorem factor_prints ns : Forall (fun n => 0 <= n < 2 ^ 64) ns ->
  exists F ls, (forall fuel, (F <= fuel)%nat -> factor_run 64 fuel (FormatInt <$> ns) =
      Some ({| f_stdout := zip_with factor_line ns ls; f_stderr := []; f_hasError := false |}, 0)) /\
    Forall2 (fun n l => (n <= 1 -> l = []) /\ (2 <= n -> factorization n l)) ns ls.
Proof.
  intros Hns. unfold factor_run.
  assert (exists F ls, (forall fuel, (F <= fuel)%nat -> factor_inputs 64 fuel (FormatInt <$> ns) =
      Some {| f_stdout := zip_with factor_line ns ls; f_stderr := []; f_hasError := false |}) /\
    Forall2 (fun n l => (n <= 1 -> l = []) /\ (2 <= n -> factorization n l)) ns ls)
    as (F & ls & H & Hl).
  { induction Hns as [|n ns Hn _ (F & ls & H & Hl)]; [exists 0%nat, []; by split; [|constructor]|].
    destruct (factor_number n Hn) as (F' & l & e & <- & Hfz & He).
    exists (F + F')%nat, (Factors e :: ls). split; [|by constructor].
    intros fuel Hf. cbn [fmap list_fmap factor_inputs]. rewrite He, bind_Some by lia.
    setoid_rewrite H; [|lia]. rewrite bind_Some. done. }
  exists F, ls. split; [|done]. intros fuel Hf. by rewrite H by done.
Qed.

Lemma factor_prints_witness : exists F ls, (forall fuel, (F <= fuel)%nat ->
    factor_run 64 fuel (FormatInt <$> [12; 1]) =
      Some ({| f_stdout := zip_with factor_line [12; 1] ls; f_stderr := []; f_hasError := false |}, 0)) /\
    Forall2 (fun n l => (n <= 1 -> l = []) /\ (2 <= n -> factorization n l)) [12; 1] ls.
Proof. apply (factor_prints [12; 1]). repeat constructor; lia. Defined.
