(* ===== verification/Tsort.v ===== *)
(** tsort: pkg/tsort/tsort.go.

    The construction of the graph from the words and Kahn's algorithm on it.  [None] is a loop that
    has not finished within the fuel; [tsort] gives enough. *)

From stdpp Require Import gmap sets relations.
From S2P Require Import Prelude Utf8.

Local Open Scope Z_scope.

(** * The graph *)

Record graph := {
  uniqueNodes : list string;
  nodeMap : gset string;
  adj : gmap string (list string);
  edgeMap : gset string;
  inDegree : gmap string Z
}.

Definition empty_graph : graph :=
  {| uniqueNodes := []; nodeMap := ∅; adj := ∅; edgeMap := ∅; inDegree := ∅ |}.

Definition addNode (node : string) (g : graph) : graph :=
  if decide (node ∈ nodeMap g) then g
  else {| uniqueNodes := uniqueNodes g ++ [node]; nodeMap := {[ node ]} ∪ nodeMap g;
          adj := adj g; edgeMap := edgeMap g; inDegree := inDegree g |}.

(** A missing key of the maps reads as the zero value. *)
Definition adj_of (g : graph) (u : string) : list string := default [] (adj g !! u).
Definition degree (d : gmap string Z) (v : string) : Z := default 0 (d !! v).

Definition addEdge (u v : string) (g : graph) : graph :=
  if u =s? v then g
  else
    let edgeKey := u +:+ "->" +:+ v in
    if decide (edgeKey ∈ edgeMap g) then g
    else {| uniqueNodes := uniqueNodes g; nodeMap := nodeMap g;
            adj := <[u := adj_of g u ++ [v]]> (adj g);
            edgeMap := {[ edgeKey ]} ∪ edgeMap g;
            inDegree := <[v := degree (inDegree g) v + 1]> (inDegree g) |}.

(** [for i := 0; i < len(words); i += 2] *)
Fixpoint build (words : list string) (g : graph) : graph :=
  match words with
  | u :: v :: words => build words (addEdge u v (addNode v (addNode u g)))
  | _ => g
  end.

(** * Kahn's algorithm *)

(** [for _, v := range adj[u]]: the degrees and the queue. *)
Fixpoint relax (vs : list string) (d : gmap string Z) (queue : list string)
    : gmap string Z * list string :=
  match vs with
  | [] => (d, queue)
  | v :: vs =>
      let d := <[v := degree d v - 1]> d in
      relax vs d (if degree d v =? 0 then queue ++ [v] else queue)
  end.

Fixpoint kahn (fuel : nat) (g : graph) (d : gmap string Z) (queue result : list string)
    : option (list string) :=
  match queue with
  | [] => Some result
  | u :: queue =>
      match fuel with
      | O => None
      | S fuel => let '(d, queue) := relax (adj_of g u) d queue in kahn fuel g d queue (result ++ [u])
      end
  end.

Record tsort_output := { nodes : list string; errorLine : option string; exitCode : Z }.

(** From the words of the input to what is printed. *)
Definition tsort (words : list string) : option tsort_output :=
  if negb (Z.of_nat (length words) mod 2 =? 0) then
    Some {| nodes := []; errorLine := Some "tsort: odd number of words in input"; exitCode := 1 |}
  else
    let g := build words empty_graph in
    let queue := filter (fun n => degree (inDegree g) n = 0) (uniqueNodes g) in
    result ← kahn (length words) g (inDegree g) queue [];
    if (length result <? length (uniqueNodes g))%nat then
      Some {| nodes := result; errorLine := Some "tsort: cycle detected"; exitCode := 1 |}
    else Some {| nodes := result; errorLine := None; exitCode := 0 |}.

Definition tsort_data (data : string) : option tsort_output := tsort (Fields data).

(** * The graph that is built *)

(** The pairs of the input, and the edges kept: a pair is dropped when its two words are equal or
    when its key is already there. *)
Fixpoint pairs (words : list string) : list (string * string) :=
  match words with u :: v :: words => (u, v) :: pairs words | _ => [] end.

Definition key (e : string * string) : string := fst e +:+ "->" +:+ snd e.

Definition keep_edge (es : list (string * string)) (e : string * string) : list (string * string) :=
  if fst e =s? snd e then es else if decide (key e ∈ key <$> es) then es else es ++ [e].

Definition kept (es : list (string * string)) (ps : list (string * string)) : list (string * string) :=
  foldl keep_edge es ps.

(** The successors of [u] and the number of edges into [v] from outside [P]. *)
Definition succs (es : list (string * string)) (u : string) : list string :=
  (filter (fun e => fst e = u) es).*2.

Definition indeg (es : list (string * string)) (P : list string) (v : string) : Z :=
  Z.of_nat (length (filter (fun e => snd e = v /\ fst e ∉ P) es)).

(** What [build] has made of the pairs read. *)
Record built (g : graph) (ws : list string) (es : list (string * string)) : Prop := {
  b_nodup : NoDup (uniqueNodes g);
  b_nodes : forall x, x ∈ uniqueNodes g <-> x ∈ ws;
  b_map : forall x, x ∈ nodeMap g <-> x ∈ uniqueNodes g;
  b_keys : forall k, k ∈ edgeMap g <-> k ∈ key <$> es;
  b_adj : forall u, adj_of g u = succs es u;
  b_deg : forall v, degree (inDegree g) v = indeg es [] v;
  b_edges : NoDup es;
  b_ends : forall u v, (u, v) ∈ es -> u <> v /\ u ∈ ws /\ v ∈ ws
}.

Lemma built_empty : built empty_graph [] [].
Proof. split; try set_solver; by constructor. Qed.

Lemma elem_of_snoc {A} (l : list A) x y : y ∈ l ++ [x] <-> y ∈ l \/ y = x.
Proof. by rewrite elem_of_app, list_elem_of_singleton. Qed.

Lemma NoDup_snoc {A} (l : list A) x : NoDup l -> x ∉ l -> NoDup (l ++ [x]).
Proof.
  intros Hl Hx. apply NoDup_app. split; [done|]. split; [|apply NoDup_singleton].
  by intros y Hy ->%list_elem_of_singleton.
Qed.

Lemma built_addNode g ws es x : built g ws es -> built (addNode x g) (ws ++ [x]) es.
Proof.
  intros [H1 H2 H3 H4 H5 H6 H7 H8].
  assert (forall u v, (u, v) ∈ es -> u <> v /\ u ∈ ws ++ [x] /\ v ∈ ws ++ [x]) as H8'.
  { intros u v Huv. destruct (H8 u v Huv) as (? & ? & ?). rewrite !elem_of_snoc. auto. }
  unfold addNode. case_decide as Hx; split; simpl; try done.
  - intros y. rewrite elem_of_snoc, H2. rewrite H3, H2 in Hx. naive_solver.
  - apply NoDup_snoc; [done|]. by rewrite <- H3.
  - intros y. by rewrite !elem_of_snoc, H2.
  - intros y. rewrite elem_of_snoc, elem_of_union, elem_of_singleton, H3. tauto.
Qed.

Lemma succs_snoc es u v x :
  succs (es ++ [(u, v)]) x = succs es x ++ (if decide (x = u) then [v] else []).
Proof.
  unfold succs. rewrite filter_app, fmap_app. f_equal. rewrite filter_cons. simpl.
  repeat case_decide; subst; done.
Qed.

Lemma indeg_snoc es u v x :
  indeg (es ++ [(u, v)]) [] x = indeg es [] x + (if decide (x = v) then 1 else 0).
Proof.
  unfold indeg. rewrite filter_app, length_app, Nat2Z.inj_add. f_equal. rewrite filter_cons. simpl.
  pose proof (not_elem_of_nil u). repeat case_decide; naive_solver.
Qed.

Lemma built_addEdge g ws es u v :
  u ∈ ws -> v ∈ ws -> built g ws es -> built (addEdge u v g) ws (keep_edge es (u, v)).
Proof.
  intros Hu Hv [H1 H2 H3 H4 H5 H6 H7 H8]. unfold addEdge, keep_edge. simpl.
  destruct (seqb_spec u v) as [|Hne]; [done|].
  change (u +:+ "->" +:+ v) with (key (u, v)).
  destruct (decide (key (u, v) ∈ edgeMap g)) as [Hk|Hk]; rewrite H4 in Hk.
  { by rewrite decide_True. }
  rewrite decide_False by done. split; simpl; try done.
  - intros k. rewrite fmap_app. cbn [fmap list_fmap]. rewrite elem_of_snoc, elem_of_union, elem_of_singleton, H4. tauto.
  - intros x. unfold adj_of at 1. simpl. rewrite succs_snoc. destruct (decide (x = u)) as [->|Hx].
    + by rewrite lookup_insert_eq, <- H5.
    + rewrite lookup_insert_ne by done. rewrite app_nil_r. apply H5.
  - intros x. unfold degree at 1. rewrite indeg_snoc. destruct (decide (x = v)) as [->|Hx].
    + by rewrite lookup_insert_eq, <- H6.
    + rewrite lookup_insert_ne by done. rewrite Z.add_0_r. apply H6.
  - apply NoDup_snoc; [done|]. intros He. apply Hk. by apply list_elem_of_fmap_2.
  - intros a b [Hab|[= -> ->]%list_elem_of_singleton]%elem_of_app; [by apply H8|done].
Qed.

Lemma build_built n : forall words g ws es, (length words <= n)%nat -> built g ws es ->
  Nat.Even (length words) ->
  built (build words g) (ws ++ words) (kept es (pairs words)).
Proof.
  induction n as [|n IH]; intros words g ws es Hn Hg He.
  - destruct words; [|simpl in Hn; lia]. by rewrite app_nil_r.
  - destruct words as [|u [|v words]]; [by rewrite app_nil_r|by destruct He; simpl in *; lia|].
    cbn [build pairs kept foldl]. replace (ws ++ u :: v :: words) with (((ws ++ [u]) ++ [v]) ++ words)
      by (by rewrite <- !app_assoc). apply IH; [simpl in Hn; lia| |].
    + apply built_addEdge; [by rewrite !elem_of_snoc; auto..|]. by apply built_addNode, built_addNode.
    + destruct He as [k Hk]. exists (k - 1)%nat. simpl in Hk. lia.
Qed.

(** * The run of the algorithm *)

(** [u] is printed before [v]. *)
Definition before (l : list string) (u v : string) : Prop :=
  exists l1 l2, l = l1 ++ v :: l2 /\ u ∈ l1.

Lemma before_snoc l x u v : before l u v -> before (l ++ [x]) u v.
Proof. intros (l1 & l2 & -> & Hu). exists l1, (l2 ++ [x]). by rewrite <- app_assoc. Qed.

Lemma split_unique {A} (v : A) a1 : forall c1 a2 c2,
  NoDup (a1 ++ v :: a2) -> a1 ++ v :: a2 = c1 ++ v :: c2 -> a1 = c1.
Proof.
  induction a1 as [|x a1 IH]; intros [|y c1] a2 c2 Hl E; simpl in *; [done|..].
  - injection E as <- ->. apply NoDup_cons in Hl as [Hl _]. exfalso. apply Hl.
    rewrite elem_of_app. right. left.
  - injection E as -> E. apply NoDup_cons in Hl as [Hl _]. exfalso. apply Hl.
    rewrite elem_of_app. right. left.
  - injection E as -> E. apply NoDup_cons in Hl as [_ Hl]. f_equal. by apply (IH c1 a2 c2).
Qed.

Lemma before_trans l u v w : NoDup l -> before l u v -> before l v w -> before l u w.
Proof.
  intros Hl (a1 & a2 & -> & Hu) (b1 & b2 & E & Hv).
  apply list_elem_of_split in Hv as (c1 & c2 & ->). rewrite <- app_assoc in E.
  pose proof (split_unique v a1 c1 a2 _ Hl E) as ->.
  exists (c1 ++ v :: c2), b2. split; [by rewrite E, <- app_assoc|]. rewrite elem_of_app. by left.
Qed.

Lemma before_irrefl l u : NoDup l -> ~ before l u u.
Proof.
  intros Hl (l1 & l2 & -> & Hu). apply NoDup_app in Hl as (_ & Hl & _). apply (Hl u Hu). left.
Qed.

Lemma elem_of_succs es u v : v ∈ succs es u <-> (u, v) ∈ es.
Proof.
  unfold succs. rewrite list_elem_of_fmap. split.
  - intros ([a b] & -> & [Ha He]%list_elem_of_filter). simpl in *. by subst.
  - intros He. exists (u, v). by rewrite list_elem_of_filter.
Qed.

Lemma NoDup_succs es u : NoDup es -> NoDup (succs es u).
Proof.
  intros Hes. unfold succs. apply NoDup_fmap_2_strong; [|by apply NoDup_filter].
  intros [a b] [c d] [Ha _]%list_elem_of_filter [Hc _]%list_elem_of_filter. simpl in *. congruence.
Qed.

Lemma indeg_zero es P v : indeg es P v = 0 <-> forall u, (u, v) ∈ es -> u ∈ P.
Proof.
  unfold indeg. split.
  - intros H u Hu. destruct (decide (u ∈ P)) as [|Hn]; [done|]. exfalso.
    assert ((u, v) ∈ filter (fun e => snd e = v /\ fst e ∉ P) es) as Hin
      by (by apply list_elem_of_filter).
    destruct (filter _ es); [by apply not_elem_of_nil in Hin|simpl in H; lia].
  - intros H. destruct (filter _ es) as [|[a b] l] eqn:E; [done|]. exfalso.
    assert ((a, b) ∈ filter (fun e => snd e = v /\ fst e ∉ P) es) as Hin by (rewrite E; left).
    apply list_elem_of_filter in Hin as [[<- Hn] Hin]. by apply Hn, H.
Qed.

Lemma indeg_step es P u v : NoDup es -> u ∉ P ->
  indeg es (P ++ [u]) v = indeg es P v - (if decide ((u, v) ∈ es) then 1 else 0).
Proof.
  intros Hes Hu. unfold indeg. induction Hes as [|[a b] es Hn Hes IH]; [done|].
  rewrite !filter_cons. simpl. pose proof (elem_of_snoc P u a) as Ha.
  destruct (decide ((u, v) ∈ es)) as [Hin|Hin].
  - rewrite (decide_True (P := (u, v) ∈ (a, b) :: es)) by by right.
    assert (~ (b = v /\ a = u)) by (intros [-> ->]; done).
    repeat case_decide; simpl length; try lia; exfalso; tauto.
  - destruct (decide ((a, b) = (u, v))) as [[= -> ->]|Hne].
    + rewrite (decide_True (P := (u, v) ∈ (u, v) :: es)) by by left.
      repeat case_decide; simpl length; try lia; exfalso; tauto.
    + rewrite (decide_False (P := (u, v) ∈ (a, b) :: es)) by (rewrite elem_of_cons; naive_solver).
      assert (~ (b = v /\ a = u)) by (intros [-> ->]; done).
      repeat case_decide; simpl length; try lia; exfalso; tauto.
Qed.

Lemma filter_ext_in {A} (P Q : A -> Prop) `{!forall x, Decision (P x), !forall x, Decision (Q x)} (l : list A) :
  (forall x, x ∈ l -> P x <-> Q x) -> filter P l = filter Q l.
Proof.
  induction l as [|x l IH]; intros Hl; [done|]. rewrite !filter_cons.
  pose proof (Hl x ltac:(left)). rewrite IH by (intros y Hy; apply Hl; by right).
  repeat case_decide; tauto || done.
Qed.

Lemma relax_spec vs : NoDup vs -> forall d q,
  (forall x, degree (fst (relax vs d q)) x = degree d x - (if decide (x ∈ vs) then 1 else 0)) /\
  snd (relax vs d q) = q ++ filter (fun v => degree d v = 1) vs.
Proof.
  induction 1 as [|v vs Hv Hvs IH]; intros d q.
  - split; [|by rewrite app_nil_r]. intros x. simpl. lia.
  - cbn [relax]. set (d' := <[v := degree d v - 1]> d).
    assert (degree d' v = degree d v - 1) as Hd by (unfold d', degree at 1; by rewrite lookup_insert_eq).
    assert (forall x, x <> v -> degree d' x = degree d x) as Hd'.
    { intros x Hx. unfold d', degree at 1. by rewrite lookup_insert_ne. }
    destruct (IH d' (if degree d' v =? 0 then q ++ [v] else q)) as [H1 H2]. split.
    + intros x. rewrite H1. destruct (decide (x = v)) as [->|Hx].
      * rewrite decide_False by done. rewrite decide_True by by left. lia.
      * rewrite Hd' by done. destruct (decide (x ∈ vs)).
        -- by rewrite decide_True by by right.
        -- by rewrite decide_False by (rewrite elem_of_cons; naive_solver).
    + rewrite H2, filter_cons, Hd.
      assert (filter (fun v => degree d' v = 1) vs = filter (fun v => degree d v = 1) vs) as ->.
      { apply filter_ext_in. intros x Hx. by rewrite Hd' by by intros ->. }
      destruct (Z.eqb_spec (degree d v - 1) 0).
      * rewrite decide_True by lia. by rewrite <- app_assoc.
      * by rewrite decide_False by lia.
Qed.

Lemma tc_flip_2 {A} (R : relation A) x y : tc (flip R) x y -> tc R y x.
Proof. induction 1 as [x y H|x y z H _ IH]; [by apply tc_once|]. by apply (tc_r z y x). Qed.

Section run.
Context (g : graph) (ws : list string) (es : list (string * string)) (Hg : built g ws es).

(** The invariant of Kahn's loop: the degrees count the edges from outside the result, and the
    result and the queue are the nodes with none. *)
Record inv (d : gmap string Z) (Q P : list string) : Prop := {
  i_deg : forall v, degree d v = indeg es P v;
  i_nodup : NoDup (P ++ Q);
  i_mem : forall x, x ∈ P ++ Q <-> x ∈ ws /\ indeg es P x = 0;
  i_order : forall u v, (u, v) ∈ es -> v ∈ P -> before P u v
}.

Lemma inv_init :
  inv (inDegree g) (filter (fun n => degree (inDegree g) n = 0) (uniqueNodes g)) [].
Proof.
  split; simpl.
  - apply (b_deg _ _ _ Hg).
  - apply NoDup_filter, (b_nodup _ _ _ Hg).
  - intros x. rewrite list_elem_of_filter, (b_nodes _ _ _ Hg), (b_deg _ _ _ Hg). tauto.
  - intros u v _ Hv. by apply not_elem_of_nil in Hv.
Qed.

Lemma inv_step d u Q P : inv d (u :: Q) P ->
  inv (fst (relax (adj_of g u) d Q)) (snd (relax (adj_of g u) d Q)) (P ++ [u]).
Proof.
  intros [H1 H2 H3 H4]. rewrite (b_adj _ _ _ Hg).
  destruct (relax_spec (succs es u) (NoDup_succs es u (b_edges _ _ _ Hg)) d Q) as [D1 D2].
  assert (u ∉ P) as Hu.
  { intros Hin. apply NoDup_app in H2 as (_ & H2 & _). apply (H2 u Hin). left. }
  assert (forall x, indeg es (P ++ [u]) x = indeg es P x - (if decide ((u, x) ∈ es) then 1 else 0))
    as Hstep by (intros x; apply indeg_step; [apply (b_edges _ _ _ Hg)|done]).
  assert (forall x, x ∈ P ++ u :: Q -> (u, x) ∉ es) as Hno.
  { intros x Hx He. apply H3 in Hx as [_ Hx]. rewrite indeg_zero in Hx. by apply Hu, Hx. }
  rewrite D2. split.
  - intros x. rewrite D1, H1, Hstep. f_equal. repeat case_decide; rewrite elem_of_succs in *; done.
  - rewrite <- app_assoc. cbn [app].
    change (u :: Q ++ ?l) with ((u :: Q) ++ l). rewrite app_assoc. apply NoDup_app. split; [done|].
    split; [|apply NoDup_filter, NoDup_succs, (b_edges _ _ _ Hg)].
    intros x Hx [_ Hs%elem_of_succs]%list_elem_of_filter. by apply (Hno x).
  - intros x. rewrite <- app_assoc. cbn [app]. change (u :: Q ++ ?l) with ((u :: Q) ++ l).
    rewrite app_assoc, elem_of_app, H3, list_elem_of_filter, elem_of_succs, H1, Hstep.
    pose proof (Hno x) as Hnx. rewrite H3 in Hnx.
    destruct (decide ((u, x) ∈ es)) as [He|He].
    + destruct (b_ends _ _ _ Hg _ _ He) as (_ & _ & Hw). split; [|intuition lia].
      intros [[? ?] | [? ?]]; [tauto|]. split; [done|lia].
    + rewrite Z.sub_0_r. tauto.
  - intros a b He [Hb|Hb]%elem_of_snoc.
    + by apply before_snoc, H4.
    + subst b. exists P, []. split; [done|].
      assert (u ∈ P ++ u :: Q) as Hin by (rewrite elem_of_app; right; left).
      apply H3 in Hin as [_ Hin]. rewrite indeg_zero in Hin. by apply Hin.
Qed.

Lemma inv_length d Q P : inv d Q P -> (length P + length Q <= length (uniqueNodes g))%nat.
Proof.
  intros [_ H2 H3 _]. rewrite <- length_app. apply NoDup_incl_length; [by apply NoDup_ListNoDup|].
  intros x Hx%list_elem_of_In. apply list_elem_of_In, (b_nodes _ _ _ Hg). by apply H3.
Qed.

Lemma kahn_ends fuel : forall d Q P, inv d Q P -> (length (uniqueNodes g) <= fuel + length P)%nat ->
  exists d' R, kahn fuel g d Q P = Some R /\ inv d' [] R.
Proof.
  induction fuel as [|fuel IH]; intros d [|u Q] P Hinv Hf; try (by exists d, P).
  - apply inv_length in Hinv. simpl in *. lia.
  - cbn [kahn]. apply inv_step in Hinv.
    destruct (relax (adj_of g u) d Q) as [d' Q']. apply (IH d' Q' _ Hinv).
    rewrite length_app. simpl. lia.
Qed.

(** Every node is printed exactly when no node reaches itself. *)
Lemma complete_iff_acyclic d R : inv d [] R ->
  ((length R <? length (uniqueNodes g))%nat = false <->
   forall x, ~ tc (fun u v => (u, v) ∈ es) x x).
Proof.
  intros Hinv. pose proof (i_mem _ _ _ Hinv) as H3. pose proof (i_nodup _ _ _ Hinv) as H2.
  rewrite app_nil_r in H2. setoid_rewrite app_nil_r in H3. rewrite Nat.ltb_ge. split.
  - intros Hlen x Hx.
    assert (forall y, y ∈ ws -> y ∈ R) as Hall.
    { intros y Hy. rewrite <- (b_nodes _ _ _ Hg), list_elem_of_In in Hy. apply list_elem_of_In.
      revert y Hy. apply NoDup_length_incl; [by apply NoDup_ListNoDup|done|].
      intros y Hy%list_elem_of_In. apply list_elem_of_In, (b_nodes _ _ _ Hg). by apply H3. }
    assert (forall a b, tc (fun u v => (u, v) ∈ es) a b -> before R a b) as Hb.
    { induction 1 as [a b He|a b c He _ IH].
      - apply (i_order _ _ _ Hinv); [done|]. apply Hall, (b_ends _ _ _ Hg _ _ He).
      - apply (before_trans _ _ b); [done| |done]. apply (i_order _ _ _ Hinv); [done|].
        apply Hall, (b_ends _ _ _ Hg _ _ He). }
    by apply (before_irrefl R x), Hb.
  - intros Hac. apply NoDup_incl_length; [apply NoDup_ListNoDup, (b_nodup _ _ _ Hg)|].
    intros x Hx%list_elem_of_In. rewrite (b_nodes _ _ _ Hg) in Hx. apply list_elem_of_In.
    assert (Acc (fun u v => (u, v) ∈ es) x) as Hacc.
    { apply (tc_finite_sn (R := flip (fun u v => (u, v) ∈ es))).
      - intros y Hy. apply (Hac y). by apply tc_flip_2.
      - exists ws. intros y Hy%tc_flip_2. inversion Hy as [? ? He|? ? ? He]; subst;
          by destruct (b_ends _ _ _ Hg _ _ He) as (_ & ? & ?). }
    induction Hacc as [x _ IH]. apply H3. split; [done|]. apply indeg_zero.
    intros u Hu. apply IH; [done|]. apply (b_ends _ _ _ Hg _ _ Hu).
Qed.

End run.

(** * Keys *)

Definition no_arrow (w : string) : Prop := forall a b, w <> a +:+ "->" +:+ b.

Lemma sapp_inv_head s t u : s +:+ t = s +:+ u -> t = u.
Proof. induction s as [|c s IH]; [done|]. rewrite !sapp_cons. intros [= H]. auto. Qed.

Lemma arrow_split u : forall u' v v', no_arrow u -> no_arrow u' ->
  u +:+ "->" +:+ v = u' +:+ "->" +:+ v' -> u = u' /\ v = v'.
Proof.
  assert (forall c s, no_arrow (String c s) -> no_arrow s) as Htl.
  { intros c s H a b ->. apply (H (String c a) b). done. }
  assert (forall c s v' v, no_arrow (String c s) ->
            "->" +:+ v = String c s +:+ "->" +:+ v' -> False) as Hnil.
  { intros c s v' v H E. rewrite sapp_cons in E. injection E as <- E. destruct s as [|d s].
    - done.
    - rewrite sapp_cons in E. injection E as <- E. apply (H "" s). done. }
  induction u as [|c u IH]; intros [|d u'] v v' Hu Hu' E.
  - by apply (sapp_inv_head "->") in E.
  - exfalso. by apply (Hnil d u' v' v).
  - exfalso. by apply (Hnil c u v v').
  - rewrite !sapp_cons in E. injection E as <- E.
    destruct (IH u' v v') as [-> ->]; [by eapply Htl..|done|done].
Qed.

(** The edges of the input. *)
Definition edge (words : list string) (u v : string) : Prop := (u, v) ∈ pairs words /\ u <> v.

Lemma elem_of_kept ps : forall es e,
  (forall a b, a ∈ es ++ ps -> b ∈ es ++ ps -> key a = key b -> a = b) ->
  e ∈ kept es ps <-> e ∈ es \/ (e ∈ ps /\ fst e <> snd e).
Proof.
  induction ps as [|p ps IH]; intros es e Hinj; cbn [kept foldl].
  { split; [by left|]. intros [H | [H _]]; [done|]. by apply not_elem_of_nil in H. }
  change (foldl keep_edge (keep_edge es p) ps) with (kept (keep_edge es p) ps).
  assert (forall x, x ∈ keep_edge es p <-> x ∈ es \/ (x = p /\ fst p <> snd p)) as Hk.
  { intros x. unfold keep_edge. destruct (seqb_spec (fst p) (snd p)) as [E|E]; [tauto|].
    case_decide as Hin; [|rewrite elem_of_snoc; tauto]. split; [tauto|].
    intros [H | [-> _]]; [done|]. apply list_elem_of_fmap in Hin as (y & Hy & Hin).
    by rewrite (Hinj p y) by (done || rewrite elem_of_app; (by left) || (right; left)). }
  rewrite IH.
  - rewrite Hk, elem_of_cons. naive_solver.
  - intros a b Ha Hb. apply Hinj; rewrite elem_of_app, ?elem_of_cons, Hk in *; naive_solver.
Qed.

Lemma pairs_words words n : (length words <= n)%nat ->
  forall u v, (u, v) ∈ pairs words -> u ∈ words /\ v ∈ words.
Proof.
  revert words. induction n as [|n IH]; intros [|a [|b words]] Hn u v H; simpl in *;
    try (by apply not_elem_of_nil in H); try lia.
  rewrite elem_of_cons in H. rewrite !elem_of_cons. destruct H as [[= -> ->]|H]; [auto|].
  destruct (IH words ltac:(lia) u v H). auto.
Qed.

Lemma kept_edges words u v : Forall no_arrow words ->
  (u, v) ∈ kept [] (pairs words) <-> edge words u v.
Proof.
  intros Hw. rewrite elem_of_kept.
  - unfold edge. simpl. pose proof (not_elem_of_nil (u, v)). tauto.
  - intros [a b] [c d] Ha Hb E. simpl in *. unfold key in E. simpl in E.
    rewrite Forall_forall in Hw.
    apply (pairs_words _ _ (le_n _)) in Ha as [Ha _]. apply (pairs_words _ _ (le_n _)) in Hb as [Hb _].
    by destruct (arrow_split a c b d (Hw a Ha) (Hw c Hb) E) as [-> ->].
Qed.

Lemma even_words (words : list string) : Nat.Even (length words) -> negb (Z.of_nat (length words) mod 2 =? 0) = false.
Proof.
  intros [k ->]. rewrite negb_false_iff, Z.eqb_eq. Z.div_mod_to_equations; lia.
Qed.

(** * Properties *)

(** C20: [tsort] sorts: on an even number of words, none of which contains an arrow "->", it always ends, prints
    every word at most once and each word after all its predecessors; its exit code is 0, with every word printed,
    exactly when no word precedes itself, and otherwise it reports a cycle with exit code 1.  (A
    word with an arrow can be confused with a pair: see [tsort_arrow_drops_edge].) *)
Theorem tsort_correct words : Nat.Even (length words) -> Forall no_arrow words ->
  exists out, tsort words = Some out /\
    NoDup (nodes out) /\ (forall x, x ∈ nodes out -> x ∈ words) /\
    (forall u v, edge words u v -> v ∈ nodes out -> before (nodes out) u v) /\
    (exitCode out = 0 /\ errorLine out = None /\ (forall x, x ∈ words -> x ∈ nodes out) /\
       (forall x, ~ tc (edge words) x x) \/
     exitCode out = 1 /\ errorLine out = Some "tsort: cycle detected" /\
       ~ (forall x, ~ tc (edge words) x x)).
Proof.
  intros He Ha. unfold tsort. rewrite even_words by done.
  set (g := build words empty_graph). set (es := kept [] (pairs words)).
  assert (built g words es) as Hg by (apply (build_built (length words) words empty_graph [] [] (le_n _) built_empty He)).
  assert (forall u v, (u, v) ∈ es <-> edge words u v) as Hes by (intros u v; by apply kept_edges).
  destruct (kahn_ends g words es Hg (length words) _ _ _ (inv_init g words es Hg)) as (d & R & HR & Hinv).
  { rewrite Nat.add_0_r. apply NoDup_incl_length; [apply NoDup_ListNoDup, (b_nodup _ _ _ Hg)|].
    intros x Hx%list_elem_of_In. apply list_elem_of_In. by apply (b_nodes _ _ _ Hg). }
  rewrite HR. pose proof (complete_iff_acyclic g words es Hg d R Hinv) as Hc.
  pose proof (i_nodup _ _ _ _ _ Hinv) as H2. pose proof (i_mem _ _ _ _ _ Hinv) as H3.
  rewrite app_nil_r in H2. setoid_rewrite app_nil_r in H3.
  assert ((forall x, ~ tc (fun u v => (u, v) ∈ es) x x) <-> (forall x, ~ tc (edge words) x x)) as Htc.
  { split; intros H x Hx; apply (H x); revert Hx; apply (tc_congruence (B := string) id);
      intros a b; apply Hes. }
  rewrite Htc in Hc. cbn [mbind option_bind].
  destruct (length R <? length (uniqueNodes g))%nat eqn:El; eexists; (split; [done|]); simpl.
  all: split; [done|]; split; [intros x Hx; by apply H3|];
    split; [intros u v Hu Hv; apply (i_order _ _ _ _ _ Hinv); [by apply Hes|done]|].
  - right. do 2 (split; [done|]). intros H. by apply Hc in H.
  - left. do 2 (split; [done|]). split; [|by apply Hc].
    intros x Hx. rewrite <- (b_nodes _ _ _ Hg), list_elem_of_In in Hx. apply list_elem_of_In.
    apply Nat.ltb_ge in El. revert x Hx. apply NoDup_length_incl; [by apply NoDup_ListNoDup|done|].
    intros y Hy%list_elem_of_In. apply list_elem_of_In, (b_nodes _ _ _ Hg). by apply H3.
Qed.

Lemma tsort_correct_witness : exists out, tsort ["a"; "b"; "c"; "a"] = Some out /\
    NoDup (nodes out) /\ (forall x, x ∈ nodes out -> x ∈ ["a"; "b"; "c"; "a"]) /\
    (forall u v, edge ["a"; "b"; "c"; "a"] u v -> v ∈ nodes out -> before (nodes out) u v) /\
    (exitCode out = 0 /\ errorLine out = None /\
       (forall x, x ∈ ["a"; "b"; "c"; "a"] -> x ∈ nodes out) /\
       (forall x, ~ tc (edge ["a"; "b"; "c"; "a"]) x x) \/
     exitCode out = 1 /\ errorLine out = Some "tsort: cycle detected" /\
       ~ (forall x, ~ tc (edge ["a"; "b"; "c"; "a"]) x x)).
Proof.
  apply (tsort_correct ["a"; "b"; "c"; "a"]).
  - by exists 2%nat.
  - repeat constructor; intros [|x a] b H; try done; injection H as _ H; by destruct a.
Defined.

(** The keys of the pairs (a->b, c) and (a, b->c) are the same: the second pair is dropped, and
    "b->c" is printed before "a". *)
Lemma tsort_arrow_drops_edge :
  tsort ["b->c"; "b->c"; "a->b"; "c"; "a"; "b->c"] =
    Some {| nodes := ["b->c"; "a->b"; "a"; "c"]; errorLine := None; exitCode := 0 |}.
Proof. vm_compute. reflexivity. Qed.
