(* ===== verification/Testcmd.v ===== *)
(** The test utility and its bracket form: pkg/testcmd/testcmd.go.

    A parser method that returns (bool, error) and moves the cursor is a function from a cursor to
    a result with the cursor after it.  [os.Lstat] and [os.Stat] are parameters. *)

From S2P Require Import Prelude GoStd Cursor Output.

(** Error values: the text of the source, or an argument that is quoted into the text. *)
Inductive test_error :=
| Msg (text : string)
| UnexpectedArgument (tok : string)
| OutOfFuel.

Abbreviation parser := (TokenCursor -> result test_error (bool * TokenCursor)).

(** [os.FileInfo], with the mode bits of io/fs. *)
Record FileInfo := { Mode : Z; Size : Z }.

Definition ModeDir : Z := 2 ^ 31.
Definition ModeSymlink : Z := 2 ^ 27.
Definition ModeDevice : Z := 2 ^ 26.
Definition ModeNamedPipe : Z := 2 ^ 25.
Definition ModeSocket : Z := 2 ^ 24.
Definition ModeSetuid : Z := 2 ^ 23.
Definition ModeSetgid : Z := 2 ^ 22.
Definition ModeCharDevice : Z := 2 ^ 21.
Definition ModeSticky : Z := 2 ^ 20.
Definition ModeIrregular : Z := 2 ^ 19.
Definition ModeType : Z :=
  ModeDir + ModeSymlink + ModeNamedPipe + ModeSocket + ModeDevice + ModeCharDevice + ModeIrregular.

Definition has_bits (mode bits : Z) : bool := negb (Z.land mode bits =? 0)%Z.

Definition isUnaryOp (tok : string) : bool :=
  existsb (String.eqb tok)
    ["-e"; "-f"; "-d"; "-s"; "-r"; "-w"; "-x"; "-L"; "-h"; "-b"; "-c"; "-p"; "-S"; "-g"; "-u"; "-k";
     "-t"; "-z"; "-n"].

Definition isBinaryOp (op : string) : bool :=
  existsb (String.eqb op) ["="; "=="; "!="; "-eq"; "-ne"; "-lt"; "-le"; "-gt"; "-ge"].

Section Test.
Variables Lstat Stat : string -> option FileInfo.

(** The file tests on the result of [Lstat]; [None] for the operators that the switch lacks. *)
Definition lstat_test (op : string) (info : option FileInfo) : option bool :=
  let with_mode (f : Z -> bool) := match info with Some i => f (Mode i) | None => false end in
  if op =s? "-e" then Some (match info with Some _ => true | None => false end)
  else if op =s? "-f" then Some (with_mode (fun m => negb (has_bits m ModeType)))
  else if op =s? "-d" then Some (with_mode (fun m => has_bits m ModeDir))
  else if op =s? "-s" then Some (match info with Some i => (0 <? Size i)%Z | None => false end)
  else if (op =s? "-L") || (op =s? "-h") then Some (with_mode (fun m => has_bits m ModeSymlink))
  else if op =s? "-b" then Some (with_mode (fun m => has_bits m ModeDevice))
  else if op =s? "-c" then Some (with_mode (fun m => has_bits m ModeCharDevice))
  else if op =s? "-p" then Some (with_mode (fun m => has_bits m ModeNamedPipe))
  else if op =s? "-S" then Some (with_mode (fun m => has_bits m ModeSocket))
  else if op =s? "-g" then Some (with_mode (fun m => has_bits m ModeSetgid))
  else if op =s? "-u" then Some (with_mode (fun m => has_bits m ModeSetuid))
  else if op =s? "-k" then Some (with_mode (fun m => has_bits m ModeSticky))
  else None.

Definition evalUnary (op arg : string) : result test_error bool :=
  if op =s? "-z" then Ok (arg =s? "")
  else if op =s? "-n" then Ok (negb (arg =s? ""))
  else
    match lstat_test op (Lstat arg) with
    | Some b => Ok b
    | None =>
        if (op =s? "-r") || (op =s? "-w") || (op =s? "-x") then
          match Stat arg with
          | None => Ok false
          | Some info =>
              let mode := Z.land (Mode info) 511 (* 0777 *) in
              if op =s? "-r" then Ok (has_bits mode 292 (* 0444 *))
              else if op =s? "-w" then Ok (has_bits mode 146 (* 0222 *))
              else Ok (has_bits mode 73 (* 0111 *))
          end
        else Err (Msg ("unknown unary operator: " +:+ op))
    end.

Definition evalBinary (left op right : string) : result test_error bool :=
  if (op =s? "=") || (op =s? "==") then Ok (left =s? right)
  else if op =s? "!=" then Ok (negb (left =s? right))
  else
    match ParseInt left, ParseInt right with
    | Some ln, Some rn =>
        if op =s? "-eq" then Ok (ln =? rn)%Z
        else if op =s? "-ne" then Ok (negb (ln =? rn)%Z)
        else if op =s? "-lt" then Ok (ln <? rn)%Z
        else if op =s? "-le" then Ok (ln <=? rn)%Z
        else if op =s? "-gt" then Ok (rn <? ln)%Z
        else if op =s? "-ge" then Ok (rn <=? ln)%Z
        else Err (Msg ("unknown binary operator: " +:+ op))
    | _, _ => Err (Msg "integer expression expected")
    end.

(** [left op right] once [left] is consumed and [op] is next. *)
Definition binary_rest (left : string) : parser := fun c =>
  let '(op, c) := Next c in
  if Done c then Err (Msg ("missing argument after " +:+ op))
  else
    let '(rhs, c) := Next c in
    let? b := evalBinary left op rhs in Ok (b, c).

Section Levels.
Variable parseExpr : parser.

Definition parsePrimary : parser := fun c =>
  let tok := Peek c in
  if (tok =s? "(") && negb (Has 1 c && isBinaryOp (Lookahead 1 c)) then
    let? '(r, c) := parseExpr (advance c) in
    if negb (Peek c =s? ")") then Err (Msg "missing ')'") else Ok (r, advance c)
  else if isUnaryOp tok then
    let hasArg := Has 1 c in
    let nextIsBinary := hasArg && isBinaryOp (Lookahead 1 c) in
    if hasArg && negb nextIsBinary then
      let '(arg, c) := Next (advance c) in
      let? b := evalUnary tok arg in Ok (b, c)
    else
      let c := advance c in
      if negb (Done c) && isBinaryOp (Peek c) then binary_rest tok c
      else Ok (negb (tok =s? ""), c)
  else if Done c then Ok (false, c)
  else
    let '(lhs, c) := Next c in
    if negb (Done c) && isBinaryOp (Peek c) then binary_rest lhs c
    else Ok (negb (lhs =s? ""), c).

(** The text compared with in parseNot; no error has it ([errors_are_not_end]). *)
Definition is_end_error (e : test_error) : bool :=
  match e with Msg t => t =s? "unexpected end of expression" | _ => false end.

Fixpoint parseNot (fuel : nat) (c : TokenCursor) : result test_error (bool * TokenCursor) :=
  match fuel with
  | O => Err OutOfFuel
  | S fuel =>
      if Peek c =s? "!" then
        if Has 1 c && isBinaryOp (Lookahead 1 c) then parsePrimary c
        else
          let c := advance c in
          if Done c then Ok (true, c)
          else
            match parseNot fuel c with
            | Err e => if is_end_error e then Ok (true, c) else Err e
            | Ok (r, c) => Ok (negb r, c)
            end
      else parsePrimary c
  end.

(** The loop that parseAnd and parseOr have in common: both operands are always evaluated. *)
Fixpoint chain (op : string) (combine : bool -> bool -> bool) (operand : parser) (fuel : nat)
    (lhs : bool) (c : TokenCursor) : result test_error (bool * TokenCursor) :=
  match fuel with
  | O => Err OutOfFuel
  | S fuel =>
      if Peek c =s? op then
        let? '(rhs, c) := operand (advance c) in
        chain op combine operand fuel (combine lhs rhs) c
      else Ok (lhs, c)
  end.

Definition parse_chain (op : string) (combine : bool -> bool -> bool) (operand : parser) : parser :=
  fun c =>
    let? '(lhs, c) := operand c in
    chain op combine operand (S (remaining c)) lhs c.

Definition parseAnd : parser := parse_chain "-a" andb (fun c => parseNot (S (remaining c)) c).
Definition parseOr : parser := parse_chain "-o" orb parseAnd.
End Levels.

(** The fuel is the nesting depth of parentheses. *)
Fixpoint parseExpr (fuel : nat) : parser := fun c =>
  match fuel with
  | O => Err OutOfFuel
  | S fuel => parseOr (parseExpr fuel) c
  end.

Definition Evaluate (ts : list string) : result test_error bool :=
  match ts with
  | [] => Ok false
  | _ =>
      let? '(r, c) := parseExpr (S (length ts)) (NewTokenCursor ts) in
      if negb (Done c) then Err (UnexpectedArgument (Peek c)) else Ok r
  end.

(** The commands; the data of the JSON envelope is the result.  [errText] is the text of the error
    value. *)
Section Commands.
Variable errText : test_error -> string.

Definition finish (name : string) (jsonMode : bool) (r : result test_error bool) : run_io bool :=
  match r with
  | Err e =>
      {| rc := 2; out := RenderError name 2 "SYNTAX" (errText e) jsonMode;
         errs := if jsonMode then [] else [line (name +:+ ": " +:+ errText e)] |}
  | Ok result =>
      {| rc := if result then 0 else 1;
         out := if jsonMode then Render name result true [] else [];
         errs := [] |}
  end.

Definition runTest (args : list string) : run_io bool :=
  let jsonMode := existsb (String.eqb "--json") args in
  let cleanArgs := List.filter (fun a => negb (a =s? "--json")) args in
  finish "test" jsonMode (Evaluate cleanArgs).

Definition runBracket (args : list string) : run_io bool :=
  let jsonMode := existsb (String.eqb "--json") args in
  let cleanArgs := List.filter (fun a => negb (a =s? "--json")) args in
  match last cleanArgs with
  | Some "]" => finish "[" jsonMode (Evaluate (removelast cleanArgs))
  | _ =>
      {| rc := 2; out := RenderError "[" 2 "SYNTAX" "missing ']'" jsonMode;
         errs := if jsonMode then [] else [line "[: missing ']'"] |}
  end.
End Commands.
End Test.

(** * The grammar

    The grammar of the comment of the source as syntax trees.  [ttoks] prints a tree, [wf n] says
    that a tree may stand at level [n] (0 is or, 1 is and, 2 is not or primary), and [sem] is its
    value.  A token that would be read as something else is excluded where it stands. *)

Inductive texpr :=
| TStr (s : string)
| TUnary (op arg : string)
| TBinary (l op r : string)
| TNot (e : texpr)
| TParen (e : texpr)
| TAnd (e1 e2 : texpr)
| TOr (e1 e2 : texpr).

Fixpoint ttoks (e : texpr) : list string :=
  match e with
  | TStr s => [s]
  | TUnary op arg => [op; arg]
  | TBinary l op r => [l; op; r]
  | TNot e => "!" :: ttoks e
  | TParen e => "(" :: ttoks e ++ [")"]
  | TAnd a b => ttoks a ++ "-a" :: ttoks b
  | TOr a b => ttoks a ++ "-o" :: ttoks b
  end.

Definition thead (e : texpr) : string := match ttoks e with t :: _ => t | [] => "" end.

Fixpoint wf (n : nat) (e : texpr) : bool :=
  match e with
  | TStr s => negb (s =s? "(") && negb (s =s? "!") && negb (isUnaryOp s)
  | TUnary op arg => isUnaryOp op && negb (isBinaryOp arg)
  | TBinary l op r => isBinaryOp op
  | TNot e => wf 2 e && negb (isBinaryOp (thead e))
  | TParen e => wf 0 e && negb (isBinaryOp (thead e))
  | TAnd a b => (n <=? 1) && wf 1 a && wf 2 b
  | TOr a b => (n <=? 0) && wf 0 a && wf 1 b
  end.

Section Semantics.
Variables Lstat Stat : string -> option FileInfo.

Fixpoint sem (e : texpr) : result test_error bool :=
  match e with
  | TStr s => Ok (negb (s =s? ""))
  | TUnary op arg => evalUnary Lstat Stat op arg
  | TBinary l op r => evalBinary l op r
  | TNot e => let? b := sem e in Ok (negb b)
  | TParen e => sem e
  | TAnd a b => let? x := sem a in let? y := sem b in Ok (x && y)
  | TOr a b => let? x := sem a in let? y := sem b in Ok (x || y)
  end.
End Semantics.

(** * The conditions of POSIX by the number of arguments

    [None] where POSIX leaves the result unspecified; more than four arguments are unspecified. *)
Section Posix.
Variables Lstat Stat : string -> option FileInfo.

Definition posix1 (a : string) : result test_error bool := Ok (negb (a =s? "")).

Definition res_not (r : result test_error bool) : result test_error bool :=
  let? b := r in Ok (negb b).

Definition posix2 (a b : string) : option (result test_error bool) :=
  if a =s? "!" then Some (res_not (posix1 b))
  else if isUnaryOp a then Some (evalUnary Lstat Stat a b)
  else None.

Definition posix3 (a b c : string) : option (result test_error bool) :=
  if isBinaryOp b then Some (evalBinary a b c)
  else if a =s? "!" then res_not <$> posix2 b c
  else if (a =s? "(") && (c =s? ")") then Some (posix1 b)
  else None.

Definition posix4 (a b c d : string) : option (result test_error bool) :=
  if a =s? "!" then res_not <$> posix3 b c d
  else if (a =s? "(") && (d =s? ")") then posix2 b c
  else None.

Definition posix (args : list string) : option (result test_error bool) :=
  match args with
  | [] => Some (Ok false)
  | [a] => Some (posix1 a)
  | [a; b] => posix2 a b
  | [a; b; c] => posix3 a b c
  | [a; b; c; d] => posix4 a b c d
  | _ => None
  end.
End Posix.

(** * Lemmas *)

Lemma Has_1 c : Has 1 c = match rest_of c with _ :: _ :: _ => true | _ => false end.
Proof.
  unfold Has. replace (0 <=? Z.of_nat (pos c) + 1)%Z with true by (symmetry; apply Z.leb_le; lia).
  simpl. assert (length (rest_of c) = length (tokens c) - pos c) as E
    by (unfold rest_of; by rewrite length_drop).
  destruct (rest_of c) as [|x [|y l]]; simpl in E; [| |]; destruct (Z.ltb_spec (Z.of_nat (pos c) + 1) (Z.of_nat (length (tokens c)))); lia || done.
Qed.

Lemma Lookahead_1 c : Lookahead 1 c = match rest_of c with _ :: y :: _ => y | _ => "" end.
Proof.
  unfold Lookahead. replace (Z.of_nat (pos c) + 1 <? 0)%Z with false by (symmetry; apply Z.ltb_ge; lia).
  replace (Z.to_nat (Z.of_nat (pos c) + 1)) with (pos c + 1) by lia.
  assert (tokens c !! (pos c + 1) = rest_of c !! 1) as -> by (unfold rest_of; by rewrite lookup_drop).
  assert (length (rest_of c) = length (tokens c) - pos c) as E
    by (unfold rest_of; by rewrite length_drop).
  destruct (rest_of c) as [|x [|y l]]; simpl in *; [by case_match|by case_match|].
  destruct (Z.leb_spec (Z.of_nat (length (tokens c))) (Z.of_nat (pos c) + 1)); [lia|done].
Qed.

(** The lookahead that tells an operand from an operator. *)
Lemma lookahead_binary c x y l : rest_of c = x :: y :: l ->
  Has 1 c && isBinaryOp (Lookahead 1 c) = isBinaryOp y.
Proof. intros E. by rewrite Has_1, Lookahead_1, E. Qed.

Lemma lookahead_last c x : rest_of c = [x] -> Has 1 c = false.
Proof. intros E. by rewrite Has_1, E. Qed.

Lemma not_Done c x l : rest_of c = x :: l -> Done c = false.
Proof.
  intros E. destruct (Done c) eqn:D; [|done]. apply Done_rest in D. by rewrite D in E.
Qed.

Lemma isUnaryOp_special op : isUnaryOp op = true -> (op =s? "(") = false /\ (op =s? "!") = false /\ op <> "".
Proof.
  unfold isUnaryOp. intros H. apply existsb_exists in H as (x & Hx & ->%String.eqb_eq).
  simpl in Hx. repeat destruct Hx as [<-|Hx]; done.
Qed.

(** ** Totality *)

(** The condition on top of a hypothesis or of the goal. *)
Ltac if_in H := match type of H with (if ?b then _ else _) = _ => let E := fresh "Eb" in destruct b eqn:E end.
Ltac if_goal := match goal with |- (if ?b then _ else _) <> _ => let E := fresh "Eb" in destruct b eqn:E end.

Section Total.
Variables Lstat Stat : string -> option FileInfo.

Definition moves (p : parser) : Prop := forall c v c', p c = Ok (v, c') -> exists k, c' = adv k c.

Definition fueled (f : nat) (p : parser) : Prop := forall c, remaining c < f -> p c <> Err OutOfFuel.

Lemma moves_remaining p c v c' : moves p -> p c = Ok (v, c') -> remaining c' <= remaining c.
Proof. intros Hp E. destruct (Hp _ _ _ E) as [k ->]. apply remaining_adv. Qed.

Lemma evalUnary_fuel op arg : evalUnary Lstat Stat op arg <> Err OutOfFuel.
Proof. unfold evalUnary. repeat case_match; done. Qed.

Lemma evalBinary_fuel l op r : evalBinary l op r <> Err OutOfFuel.
Proof. unfold evalBinary. repeat case_match; done. Qed.

(** No error has the text that parseNot compares with. *)
Lemma evalUnary_not_end op arg e : evalUnary Lstat Stat op arg = Err e -> is_end_error e = false.
Proof. unfold evalUnary. intros H. repeat (case_match; try discriminate). by injection H as <-. Qed.

Lemma evalBinary_not_end l op r e : evalBinary l op r = Err e -> is_end_error e = false.
Proof. unfold evalBinary. intros H. repeat (case_match; try discriminate); by injection H as <-. Qed.

Lemma sem_not_end e : forall x, sem Lstat Stat e = Err x -> is_end_error x = false.
Proof.
  induction e as [s|op arg|l op r|e IH|e IH|a IHa b IHb|a IHa b IHb]; simpl; intros x H.
  - done.
  - by apply evalUnary_not_end in H.
  - by apply evalBinary_not_end in H.
  - destruct (sem Lstat Stat e); [done|]. injection H as <-. auto.
  - auto.
  - destruct (sem Lstat Stat a); [|injection H as <-; auto]. simpl in H.
    destruct (sem Lstat Stat b); [done|]. injection H as <-. auto.
  - destruct (sem Lstat Stat a); [|injection H as <-; auto]. simpl in H.
    destruct (sem Lstat Stat b); [done|]. injection H as <-. auto.
Qed.

Lemma binary_rest_moves s : moves (binary_rest s).
Proof.
  intros c v c' H. unfold binary_rest, Next in H.
  destruct (Done _); [done|]. unbind H. injection H as <- <-. by exists 2.
Qed.

Lemma binary_rest_fuel s c : binary_rest s c <> Err OutOfFuel.
Proof.
  unfold binary_rest, Next. destruct (Done _); [done|]. pose proof (evalBinary_fuel s (Peek c)) as H.
  destruct (evalBinary _ _ _) eqn:E; simpl; [done|]. intros [= ->]. by apply (H _ E).
Qed.

Lemma parsePrimary_moves pe : moves pe -> moves (parsePrimary Lstat Stat pe).
Proof.
  intros Hp c v c' H. unfold parsePrimary in H. if_in H.
  { unbind H. destruct a as [r c1]. destruct (Peek c1 =s? ")"); [|done]. injection H as <- <-.
    destruct (Hp _ _ _ Ha) as [k ->]. exists (S k + 1). by rewrite adv_add. }
  if_in H.
  { if_in H.
    - unfold Next in H. unbind H. injection H as <- <-. by exists 2.
    - if_in H; [|injection H as <- <-; by exists 1].
      destruct (binary_rest_moves _ _ _ _ H) as [k ->]. by exists (S k). }
  if_in H; [injection H as <- <-; by exists 0|].
  unfold Next in H. if_in H; [|injection H as <- <-; by exists 1].
  destruct (binary_rest_moves _ _ _ _ H) as [k ->]. by exists (S k).
Qed.

Lemma primary_fueled f pe : fueled f pe -> fueled (S f) (parsePrimary Lstat Stat pe).
Proof.
  intros Hp c Hc. unfold parsePrimary. if_goal.
  { apply andb_true_iff in Eb as [E1%String.eqb_eq _].
    assert (Peek c <> "") as Hr%remaining_advance by (by rewrite E1).
    specialize (Hp (advance c) ltac:(lia)).
    destruct (pe (advance c)) as [[r c1]|e]; simpl; [by case_match|]. intros [= ->]. done. }
  if_goal.
  { if_goal.
    - unfold Next. pose proof (evalUnary_fuel (Peek c) (Peek (advance c))).
      destruct (evalUnary _ _ _ _); simpl; [done|]. by intros [= ->].
    - if_goal; [apply binary_rest_fuel|done]. }
  if_goal; [done|]. unfold Next. if_goal; [apply binary_rest_fuel|done].
Qed.

Section Not.
Context (pe : parser) (Hm : moves pe) (f : nat) (Hf : fueled f pe).

Lemma parseNot_moves fuel : moves (parseNot Lstat Stat pe fuel).
Proof.
  induction fuel as [|fuel IH]; intros c v c' H; [done|]. cbn [parseNot] in H.
  if_in H; [|by apply (parsePrimary_moves pe Hm) in H].
  if_in H; [by apply (parsePrimary_moves pe Hm) in H|].
  if_in H; [injection H as <- <-; by exists 1|].
  destruct (parseNot _ _ _ _ _) as [[r c1]|e] eqn:E.
  - injection H as <- <-. destruct (IH _ _ _ E) as [k ->]. by exists (S k).
  - destruct (is_end_error e); [|done]. injection H as <- <-. by exists 1.
Qed.

Lemma parseNot_fueled fuel : forall c, remaining c < fuel -> remaining c <= f ->
  parseNot Lstat Stat pe fuel c <> Err OutOfFuel.
Proof.
  induction fuel as [|fuel IH]; intros c Hc Hcf; [lia|]. cbn [parseNot].
  assert (parsePrimary Lstat Stat pe c <> Err OutOfFuel) as Hp
    by (apply (primary_fueled f); [done|lia]).
  destruct (seqb_spec (Peek c) "!") as [E|]; [|done].
  if_goal; [done|]. if_goal; [done|].
  assert (Peek c <> "") as Hr%remaining_advance by (by rewrite E).
  specialize (IH (advance c) ltac:(lia) ltac:(lia)).
  destruct (parseNot _ _ _ _ _) as [[r c1]|e]; [done|].
  destruct (is_end_error e); [done|]. by intros [= ->].
Qed.
End Not.

Lemma chain_moves op comb operand fuel : moves operand -> forall x, moves (chain op comb operand fuel x).
Proof.
  intros Hm. induction fuel as [|fuel IH]; intros x c v c' H; [done|]. cbn [chain] in H.
  if_in H; [|injection H as <- <-; by exists 0].
  unbind H. destruct a as [r c1]. destruct (Hm _ _ _ Ha) as [k ->].
  destruct (IH _ _ _ _ H) as [k' ->]. exists (S k + k'). by rewrite adv_add.
Qed.

Lemma parse_chain_moves op comb operand : moves operand -> moves (parse_chain op comb operand).
Proof.
  intros Hm c v c' H. unfold parse_chain in H. unbind H. destruct a as [r c1].
  destruct (Hm _ _ _ Ha) as [k ->]. destruct (chain_moves _ _ _ _ Hm _ _ _ _ H) as [k' ->].
  exists (k + k'). by rewrite adv_add.
Qed.

Lemma chain_fueled op comb operand f : op <> "" -> moves operand -> fueled f operand ->
  forall fuel x c, remaining c < fuel -> remaining c < f ->
  chain op comb operand fuel x c <> Err OutOfFuel.
Proof.
  intros Hop Hm Hf. induction fuel as [|fuel IH]; intros x c Hc Hcf; [lia|]. cbn [chain].
  destruct (seqb_spec (Peek c) op) as [E|]; [|done].
  assert (Peek c <> "") as Hr%remaining_advance by (by rewrite E).
  specialize (Hf (advance c) ltac:(lia)).
  destruct (operand (advance c)) as [[r c1]|e] eqn:Ea; simpl; [|by intros [= ->]].
  apply moves_remaining in Ea; [|done]. apply IH; lia.
Qed.

Lemma parse_chain_fueled op comb operand f : op <> "" -> moves operand -> fueled f operand ->
  fueled f (parse_chain op comb operand).
Proof.
  intros Hop Hm Hf c Hc. unfold parse_chain. specialize (Hf c Hc) as Hfc.
  destruct (operand c) as [[r c1]|e] eqn:Ea; cbn [res_bind]; [|by intros [= ->]].
  apply moves_remaining in Ea; [|done]. apply (chain_fueled op comb operand f); done || lia.
Qed.

Lemma parseNot_op_moves pe : moves pe -> moves (fun c => parseNot Lstat Stat pe (S (remaining c)) c).
Proof. intros Hm c v c' H. by apply (parseNot_moves pe Hm) in H. Qed.

Lemma parseAnd_moves pe : moves pe -> moves (parseAnd Lstat Stat pe).
Proof. intros Hm. by apply parse_chain_moves, parseNot_op_moves. Qed.

Lemma parseExpr_total fuel : moves (parseExpr Lstat Stat fuel) /\ fueled fuel (parseExpr Lstat Stat fuel).
Proof.
  induction fuel as [|fuel [IHm IHf]]; [split; intros c; [done|lia]|]. split.
  - cbn [parseExpr]. apply parse_chain_moves, parseAnd_moves, IHm.
  - cbn [parseExpr]. assert (fueled (S fuel) (fun c => parseNot Lstat Stat (parseExpr Lstat Stat fuel)
      (S (remaining c)) c)) as Hn.
    { intros c Hc. apply (parseNot_fueled _ fuel IHf); lia. }
    apply parse_chain_fueled; [done|by apply parseAnd_moves|].
    apply parse_chain_fueled; [done|by apply parseNot_op_moves|done].
Qed.

Lemma Evaluate_fuel ts : Evaluate Lstat Stat ts <> Err OutOfFuel.
Proof.
  unfold Evaluate. destruct ts as [|t ts]; [done|].
  destruct (parseExpr_total (S (length (t :: ts)))) as [_ H].
  specialize (H (NewTokenCursor (t :: ts))). unfold remaining in H. rewrite rest_New in H.
  specialize (H ltac:(lia)).
  destruct (parseExpr _ _ _ _) as [[r c]|e]; simpl in *; [by case_match|]. by intros [= ->].
Qed.

(** The loop does not depend on its fuel. *)
Lemma chain_fuel op comb operand : op <> "" -> moves operand -> forall f1 f2 x c,
  remaining c < f1 -> remaining c < f2 ->
  chain op comb operand f1 x c = chain op comb operand f2 x c.
Proof.
  intros Hop Hm f1. induction f1 as [|f1 IH]; intros [|f2] x c H1 H2; try lia. cbn [chain].
  destruct (seqb_spec (Peek c) op) as [E|]; [|done].
  assert (Peek c <> "") as Hr%remaining_advance by (by rewrite E).
  destruct (operand (advance c)) as [[r c1]|e] eqn:Ea; simpl; [|done].
  apply moves_remaining in Ea; [|done]. apply IH; lia.
Qed.

End Total.

(** ** Completeness *)

Section Complete.
Variables Lstat Stat : string -> option FileInfo.

Definition hd (l : list string) : string := default "" (head l).

(** What may follow a tree of level [n]. *)
Definition stop (n : nat) (rest : list string) : Prop :=
  isBinaryOp (hd rest) = false /\ (n <= 1 -> hd rest <> "-a") /\ (n <= 0 -> hd rest <> "-o").

Definition completes (f n : nat) (p : parser) : Prop :=
  forall e c rest, wf n e = true -> rest_of c = ttoks e ++ rest -> remaining c < f -> stop n rest ->
  p c = (let? v := sem Lstat Stat e in Ok (v, adv (length (ttoks e)) c)).

Lemma ttoks_head e : exists l, ttoks e = thead e :: l.
Proof.
  assert (ttoks e <> []) as H by (destruct e; simpl; try done; by destruct (ttoks e1)).
  unfold thead. destruct (ttoks e) as [|t l]; [done|]. by exists l.
Qed.

(** An operand followed by a binary operator. *)
Lemma binary_rest_ok lhs op r c rest : rest_of c = op :: r :: rest ->
  binary_rest lhs c = (let? v := evalBinary lhs op r in Ok (v, adv 2 c)).
Proof.
  intros E. unfold binary_rest. cbn [Next]. apply rest_advance_cons in E as E1.
  rewrite (Peek_cons _ _ _ E). unfold Next. change (snd (Next c)) with (advance c).
  change {| tokens := tokens c; pos := S (pos c) |} with (advance c).
  rewrite (not_Done _ _ _ E1), (Peek_cons _ _ _ E1). done.
Qed.

Section Primary.
Context (pe : parser) (f : nat) (Hpe : completes f 0 pe).

Lemma primary_binary l op r c rest : isBinaryOp op = true -> rest_of c = l :: op :: r :: rest ->
  parsePrimary Lstat Stat pe c = (let? v := evalBinary l op r in Ok (v, adv 3 c)).
Proof.
  intros Hop E. unfold parsePrimary. rewrite (lookahead_binary _ _ _ _ E), (Peek_cons _ _ _ E), Hop.
  rewrite andb_false_r. apply rest_advance_cons in E as E1.
  destruct (isUnaryOp l).
  - rewrite andb_false_r, (not_Done _ _ _ E1), (Peek_cons _ _ _ E1), Hop. cbn [negb andb].
    by rewrite (binary_rest_ok _ op r _ rest E1).
  - rewrite (not_Done _ _ _ E). unfold Next. rewrite (Peek_cons _ _ _ E).
    change {| tokens := tokens c; pos := S (pos c) |} with (advance c).
    rewrite (not_Done _ _ _ E1), (Peek_cons _ _ _ E1), Hop. cbn [negb andb].
    by rewrite (binary_rest_ok _ op r _ rest E1).
Qed.

Lemma primary_completes e c rest : match e with TNot _ | TAnd _ _ | TOr _ _ => False | _ => True end ->
  wf 2 e = true -> rest_of c = ttoks e ++ rest -> remaining c < S f -> stop 2 rest ->
  parsePrimary Lstat Stat pe c = (let? v := sem Lstat Stat e in Ok (v, adv (length (ttoks e)) c)).
Proof.
  intros He Hw E Hf [Hs _]. destruct e as [s|op arg|l op r|e|e|a b|a b]; try done; cbn [wf] in Hw.
  - rewrite !andb_true_iff, !negb_true_iff in Hw. destruct Hw as [[Hp _] Hu].
    cbn [ttoks app] in E. unfold parsePrimary. rewrite (Peek_cons _ _ _ E), Hp, Hu, (not_Done _ _ _ E).
    unfold Next. rewrite (Peek_cons _ _ _ E).
    change {| tokens := tokens c; pos := S (pos c) |} with (advance c).
    rewrite (Peek_rest (advance c)), (rest_advance_cons _ _ _ E). fold (hd rest).
    by rewrite Hs, andb_false_r.
  - rewrite andb_true_iff, negb_true_iff in Hw. destruct Hw as [Hu Hb].
    cbn [ttoks app] in E. unfold parsePrimary.
    rewrite (lookahead_binary _ _ _ _ E), (Peek_cons _ _ _ E), Hu, Hb.
    destruct (isUnaryOp_special op Hu) as (-> & _). rewrite Has_1, E. cbn [andb negb]. unfold Next.
    change {| tokens := tokens (advance c); pos := S (pos (advance c)) |} with (adv 2 c).
    by rewrite (Peek_cons (advance c) arg rest) by by apply rest_advance_cons in E.
  - cbn [ttoks app] in E. by rewrite (primary_binary l op r c rest).
  - rewrite andb_true_iff, negb_true_iff in Hw. destruct Hw as [Hw Hb].
    destruct (ttoks_head e) as [l El]. cbn [ttoks app] in E. rewrite <- app_assoc in E.
    assert (rest_of c = "(" :: thead e :: l ++ [")"] ++ rest) as E0 by (by rewrite E, El).
    unfold parsePrimary. rewrite (lookahead_binary _ _ _ _ E0), (Peek_cons _ _ _ E), Hb.
    cbn [String.eqb Ascii.eqb Bool.eqb andb negb]. apply rest_advance_cons in E as E1.
    rewrite (Hpe e (advance c) (")" :: rest)); [|done|done| |done].
    2: { unfold remaining in *. rewrite E in Hf. rewrite E1. cbn [length] in Hf. lia. }
    cbn [sem]. destruct (sem Lstat Stat e) as [v|x]; [|done]. cbn [res_bind].
    apply rest_adv_app in E1. rewrite (Peek_cons _ _ _ E1). cbn [String.eqb Ascii.eqb Bool.eqb negb].
    cbn [ttoks length adv]. by rewrite adv_app.
Qed.

Lemma parseNot_completes e : forall fuel c rest, wf 2 e = true -> rest_of c = ttoks e ++ rest ->
  remaining c < fuel -> remaining c < S f -> stop 2 rest ->
  parseNot Lstat Stat pe fuel c = (let? v := sem Lstat Stat e in Ok (v, adv (length (ttoks e)) c)).
Proof.
  induction e as [s|op arg|l op r|e IH|e _|a _ b _|a _ b _]; intros [|fuel] c rest Hw E Hfu Hf Hs;
    try lia; cbn [parseNot].
  - rewrite <- (primary_completes (TStr s) c rest) by done.
    cbn [wf] in Hw. rewrite !andb_true_iff, !negb_true_iff in Hw. destruct Hw as [[_ Hn] _].
    cbn [ttoks app] in E. by rewrite (Peek_cons _ _ _ E), Hn.
  - rewrite <- (primary_completes (TUnary op arg) c rest) by done.
    cbn [wf] in Hw. rewrite andb_true_iff in Hw. destruct Hw as [Hu _].
    cbn [ttoks app] in E. destruct (isUnaryOp_special op Hu) as (_ & Hn & _).
    by rewrite (Peek_cons _ _ _ E), Hn.
  - rewrite <- (primary_completes (TBinary l op r) c rest) by done.
    cbn [wf] in Hw. cbn [ttoks app] in E. rewrite (lookahead_binary _ _ _ _ E), Hw.
    by destruct (Peek c =s? "!").
  - cbn [wf] in Hw. rewrite andb_true_iff, negb_true_iff in Hw. destruct Hw as [Hw Hb].
    destruct (ttoks_head e) as [l El]. cbn [ttoks app] in E.
    assert (rest_of c = "!" :: thead e :: l ++ rest) as E0 by (by rewrite E, El).
    rewrite (lookahead_binary _ _ _ _ E0), (Peek_cons _ _ _ E), Hb. cbn [String.eqb Ascii.eqb Bool.eqb].
    apply rest_advance_cons in E as E1. apply rest_advance_cons in E0 as E2.
    rewrite (not_Done _ _ _ E2).
    assert (remaining c = S (remaining (advance c))) as Hr by (unfold remaining; by rewrite E, E1).
    rewrite (IH fuel (advance c) rest) by (done || lia). cbn [sem].
    destruct (sem Lstat Stat e) as [v|x] eqn:Es; [done|]. cbn [res_bind].
    by rewrite (sem_not_end _ _ _ _ Es).
  - rewrite <- (primary_completes (TParen e) c rest) by done.
    cbn [ttoks app] in E. by rewrite (Peek_cons _ _ _ E).
  - done.
  - done.
Qed.
End Primary.

(** One level of the chain: [node] is the binary constructor of level [n]. *)
Section Chain.
Context (n : nat) (op : string) (comb : bool -> bool -> bool) (node : texpr -> texpr -> texpr).
Context (Htoks : forall a b, ttoks (node a b) = ttoks a ++ op :: ttoks b).
Context (Hsem : forall a b, sem Lstat Stat (node a b) =
  (let? x := sem Lstat Stat a in let? y := sem Lstat Stat b in Ok (comb x y))).
Context (Hwf : forall e, wf n e = true -> wf (S n) e = true \/
  exists a b, e = node a b /\ wf n a = true /\ wf (S n) b = true).
Context (Hop : op <> "") (Hstop : forall rest, stop (S n) (op :: rest)).
Context (Hhd : forall rest, stop n rest -> stop (S n) rest /\ hd rest <> op).
Context (f : nat) (operand : parser) (Hm : moves operand) (Hc : completes f (S n) operand).

Lemma chain_S fuel x c : chain op comb operand (S fuel) x c =
  if Peek c =s? op then
    let? '(rhs, c) := operand (advance c) in chain op comb operand fuel (comb x rhs) c
  else Ok (x, c).
Proof. done. Qed.

Lemma chain_steps m : forall e c rest, length (ttoks e) <= m -> wf n e = true ->
  rest_of c = ttoks e ++ rest -> remaining c < f -> stop (S n) rest ->
  parse_chain op comb operand c =
    (let? v := sem Lstat Stat e in
     chain op comb operand (S (length rest)) v (adv (length (ttoks e)) c)).
Proof.
  induction m as [|m IH]; intros e c rest Hl Hw E Hf Hs.
  { destruct (ttoks_head e) as [l El]. rewrite El in Hl. simpl in Hl. lia. }
  destruct (Hwf e Hw) as [Hw'|(a & b & -> & Hwa & Hwb)].
  { unfold parse_chain. rewrite (Hc e c rest) by done. destruct (sem Lstat Stat e) as [v|]; [|done].
    cbn [res_bind]. unfold remaining. by rewrite (rest_adv_app _ _ _ E). }
  rewrite Htoks in *. rewrite length_app in Hl. cbn [length] in Hl. rewrite <- app_assoc in E.
  cbn [app] in E.
  rewrite (IH a c (op :: ttoks b ++ rest)) by (done || apply Hstop || lia).
  rewrite Hsem. destruct (sem Lstat Stat a) as [va|] eqn:Ea; [|done]. cbn [res_bind].
  set (c1 := adv (length (ttoks a)) c) in *.
  pose proof (rest_adv_app _ _ _ E) as Hr1. fold c1 in Hr1.
  assert (remaining c1 <= remaining c) as Hle by apply remaining_adv.
  pose proof (rest_advance_cons _ _ _ Hr1) as Hr2.
  rewrite chain_S, (Peek_cons _ _ _ Hr1), String.eqb_refl.
  assert (remaining (advance c1) < remaining c1) as Hlt by (unfold remaining; rewrite Hr1, Hr2; simpl; lia).
  rewrite (Hc b (advance c1) rest) by (done || lia).
  destruct (sem Lstat Stat b) as [vb|]; [|done]. cbn [res_bind].
  rewrite length_app. cbn [length]. rewrite adv_add. fold c1.
  change (adv (S (length (ttoks b))) c1) with (adv (length (ttoks b)) (advance c1)).
  apply (chain_fuel op comb operand Hop Hm); unfold remaining; rewrite (rest_adv_app _ _ _ Hr2);
    [rewrite length_app|]; lia.
Qed.

Lemma parse_chain_completes : completes f n (parse_chain op comb operand).
Proof.
  intros e c rest Hw E Hf Hs. destruct (Hhd rest Hs) as [Hs' Hne].
  rewrite (chain_steps (length (ttoks e)) e c rest) by done.
  destruct (sem Lstat Stat e) as [v|]; [|done]. cbn [res_bind chain].
  rewrite Peek_rest, (rest_adv_app _ _ _ E). fold (hd rest). by rewrite (seqb_ne _ _ Hne).
Qed.
End Chain.

Lemma parseExpr_completes fuel : completes fuel 0 (parseExpr Lstat Stat fuel).
Proof.
  induction fuel as [|fuel IH]; [intros e c rest _ _ H; lia|].
  pose proof (proj1 (parseExpr_total Lstat Stat fuel)) as Hm. cbn [parseExpr].
  assert (completes (S fuel) 2
    (fun c => parseNot Lstat Stat (parseExpr Lstat Stat fuel) (S (remaining c)) c)) as H2.
  { intros e c rest Hw E Hf Hs. apply (parseNot_completes _ fuel IH _ _ _ rest); done || lia. }
  assert (completes (S fuel) 1 (parseAnd Lstat Stat (parseExpr Lstat Stat fuel))) as H1.
  { apply (parse_chain_completes 1 "-a" andb TAnd); try done.
    - intros e. destruct e; cbn [wf]; try (by left). rewrite !andb_true_iff.
      intros [[_ H] H']. right. eauto 6.
    - intros rest. split; [done|]. split; [lia|done].
    - intros rest (? & Ha & _). split; [|auto]. split; [done|]. split; lia.
    - by apply parseNot_op_moves. }
  apply (parse_chain_completes 0 "-o" orb TOr); try done.
  - intros e. destruct e; cbn [wf]; try (by left). rewrite !andb_true_iff.
    intros [[_ H] H']. right. eauto 6.
  - intros rest. split; [done|]. split; [done|lia].
  - intros rest (? & Ha & Ho). split; [|auto]. split; [done|]. split; [auto|lia].
  - by apply parseAnd_moves.
Qed.

Lemma Evaluate_complete e : wf 0 e = true -> Evaluate Lstat Stat (ttoks e) = sem Lstat Stat e.
Proof.
  intros Hw. unfold Evaluate. destruct (ttoks_head e) as [l El]. rewrite El. rewrite <- El.
  rewrite (parseExpr_completes _ e _ []); [|done| | |done].
  - destruct (sem Lstat Stat e) as [v|]; [|done]. cbn [res_bind].
    assert (Done (adv (length (ttoks e)) (NewTokenCursor (ttoks e))) = true) as ->; [|done].
    apply Done_rest. apply rest_adv_app. by rewrite rest_New, app_nil_r.
  - by rewrite rest_New, app_nil_r.
  - unfold remaining. rewrite rest_New. rewrite El. simpl. lia.
Qed.

End Complete.

(** ** The verdicts of POSIX as trees *)

Definition sane (s : string) : bool := negb (s =s? "(") && negb (s =s? "!") && negb (isUnaryOp s).

(** The argument lists without an operand that the parser takes for something else: an operand
    that is a parenthesis, or one in an operator's place. *)
Definition plain (args : list string) : bool :=
  match args with
  | [a] => negb (a =s? "(")
  | [a; b] => negb (isBinaryOp b) && (negb (a =s? "!") || negb (b =s? "("))
  | [a; b; c] =>
      isBinaryOp b ||
      (if a =s? "!" then negb (isBinaryOp c) && (negb (b =s? "!") || negb (c =s? "(")) else sane b)
  | [a; b; c; d] =>
      negb (isBinaryOp b) &&
      (if a =s? "!" then
         isBinaryOp c ||
         (if b =s? "!" then negb (isBinaryOp d) && (negb (c =s? "!") || negb (d =s? "(")) else sane c)
       else negb (isBinaryOp c) && (negb (b =s? "!") || sane c))
  | _ => true
  end.

Lemma unary_not_binary op : isUnaryOp op = true -> isBinaryOp op = false.
Proof.
  unfold isUnaryOp. intros H. apply existsb_exists in H as (x & Hx & ->%String.eqb_eq).
  simpl in Hx. repeat destruct Hx as [<-|Hx]; done.
Qed.

Section Verdict.
Variables Lstat Stat : string -> option FileInfo.

(** Negations before a word, whatever the word. *)
Lemma bang_word k s : k <= 3 -> s <> "(" -> k = 0 \/ isBinaryOp s = false ->
  Evaluate Lstat Stat (replicate k "!" ++ [s]) = Ok (Nat.iter k negb (negb (s =s? ""))).
Proof.
  intros Hk Hs Hb. destruct (sane s) eqn:Es.
  - assert (forall k, k = 0 \/ isBinaryOp s = false ->
      wf 2 (Nat.iter k TNot (TStr s)) = true /\ ttoks (Nat.iter k TNot (TStr s)) = replicate k "!" ++ [s] /\
      sem Lstat Stat (Nat.iter k TNot (TStr s)) = Ok (Nat.iter k negb (negb (s =s? "")))) as H.
    { clear k Hk Hb. induction k as [|k IH]; intros Hb; [by cbn [Nat.iter wf]; fold (sane s)|].
      destruct Hb as [|Hb]; [done|]. destruct IH as (H1 & H2 & H3); [by right|].
      rewrite !Nat.iter_succ. cbn [wf ttoks sem]. unfold thead. rewrite H1, H2, H3. split; [|done].
      destruct k; simpl; by rewrite ?Hb. }
    destruct (H k Hb) as (H1 & H2 & H3). rewrite <- H2, <- H3. apply Evaluate_complete.
    destruct k; [exact H1|]. rewrite Nat.iter_succ in *. exact H1.
  - assert (s = "!" \/ isUnaryOp s = true) as [-> | Hu].
    { unfold sane in Es. destruct (seqb_spec s "("), (seqb_spec s "!"); try done; [by left|].
      right. by destruct (isUnaryOp s). }
    + destruct k as [|[|[|[|k]]]]; [reflexivity..|lia].
    + unfold isUnaryOp in Hu. apply existsb_exists in Hu as (x & Hx & ->%String.eqb_eq).
      simpl in Hx. repeat destruct Hx as [<-|Hx]; try done;
        (destruct k as [|[|[|[|k]]]]; [reflexivity..|lia]).
Qed.

Lemma tree_verdict e args v : wf 0 e = true -> ttoks e = args -> sem Lstat Stat e = v ->
  Evaluate Lstat Stat args = v.
Proof. intros Hw <- <-. by apply Evaluate_complete. Qed.

Ltac plain_hyps :=
  repeat match goal with
  | H : _ && _ = true |- _ => apply andb_true_iff in H as [? ?]
  | H : negb true || _ = true |- _ => cbn [negb orb] in H
  | H : negb _ = true |- _ => apply negb_true_iff in H
  | H : Some _ = Some _ |- _ => injection H as <-
  | H : _ <$> _ = Some _ |- _ => apply fmap_Some in H as (? & H & ->)
  | H : false = true |- _ => discriminate H
  end.

Lemma posix_verdict_2 a b v : plain [a; b] = true -> posix2 Lstat Stat a b = Some v ->
  Evaluate Lstat Stat [a; b] = v.
Proof.
  unfold plain, posix2. intros Hp Hv. destruct (seqb_spec a "!") as [->|]; plain_hyps.
  - apply (bang_word 1); [lia| |by right]. by apply String.eqb_neq.
  - destruct (isUnaryOp a) eqn:Hu; [|done]. plain_hyps.
    apply (tree_verdict (TUnary a b)); [|done|done]. cbn [wf]. by rewrite Hu, H.
Qed.

Lemma posix_verdict_3 a b c v : plain [a; b; c] = true -> posix3 Lstat Stat a b c = Some v ->
  Evaluate Lstat Stat [a; b; c] = v.
Proof.
  unfold plain, posix3. intros Hp Hv. destruct (isBinaryOp b) eqn:Hb.
  { plain_hyps. by apply (tree_verdict (TBinary a b c)). }
  cbn [orb] in Hp. destruct (seqb_spec a "!") as [->|].
  - plain_hyps. unfold posix2 in Hv. destruct (seqb_spec b "!") as [->|]; plain_hyps.
    + apply (bang_word 2); [lia| |by right]. by apply String.eqb_neq.
    + destruct (isUnaryOp b) eqn:Hu; [|done]. plain_hyps.
      apply (tree_verdict (TNot (TUnary b c))); [|done|done].
      cbn [wf]. unfold thead. cbn [ttoks app]. by rewrite Hu, H, Hb.
  - destruct ((a =s? "(") && (c =s? ")")) eqn:E; [|done]. plain_hyps.
    apply String.eqb_eq in H as ->. apply String.eqb_eq in H0 as ->.
    apply (tree_verdict (TParen (TStr b))); [|done|done].
    cbn [wf]. unfold thead. cbn [ttoks app]. rewrite Hb. fold (sane b). by rewrite Hp.
Qed.

Lemma posix_verdict_4 a b c d v : plain [a; b; c; d] = true -> posix4 Lstat Stat a b c d = Some v ->
  Evaluate Lstat Stat [a; b; c; d] = v.
Proof.
  unfold plain, posix4. intros Hp Hv. plain_hyps. rename H into Hb, H0 into Hp.
  destruct (seqb_spec a "!") as [->|].
  - plain_hyps. unfold posix3 in Hv. destruct (isBinaryOp c) eqn:Hc.
    { plain_hyps. apply (tree_verdict (TNot (TBinary b c d))); [|done|done].
      cbn [wf]. unfold thead. cbn [ttoks app]. by rewrite Hc, Hb. }
    cbn [orb] in Hp. destruct (seqb_spec b "!") as [->|].
    + plain_hyps. unfold posix2 in Hv. destruct (seqb_spec c "!") as [->|]; plain_hyps.
      * apply (bang_word 3); [lia| |by right]. by apply String.eqb_neq.
      * destruct (isUnaryOp c) eqn:Hu; [|done]. plain_hyps.
        apply (tree_verdict (TNot (TNot (TUnary c d)))); [|done|].
        -- cbn [wf]. unfold thead. cbn [ttoks app]. by rewrite Hu, H, Hc.
        -- done.
    + destruct ((b =s? "(") && (d =s? ")")) eqn:E; [|done]. plain_hyps.
      apply String.eqb_eq in H as ->. apply String.eqb_eq in H0 as ->.
      apply (tree_verdict (TNot (TParen (TStr c)))); [|done|done].
      cbn [wf]. unfold thead. cbn [ttoks app]. rewrite Hc. fold (sane c). by rewrite Hp.
  - destruct ((a =s? "(") && (d =s? ")")) eqn:E; [|done]. plain_hyps.
    apply String.eqb_eq in H as ->. apply String.eqb_eq in H0 as ->. rename H1 into Hc, H2 into Hs.
    unfold posix2 in Hv. destruct (seqb_spec b "!") as [->|].
    + plain_hyps. cbn [negb orb] in Hs. apply (tree_verdict (TParen (TNot (TStr c)))); [|done|done].
      cbn [wf]. unfold thead. cbn [ttoks app]. rewrite Hc. fold (sane c). by rewrite Hs.
    + destruct (isUnaryOp b) eqn:Hu; [|done]. plain_hyps.
      apply (tree_verdict (TParen (TUnary b c))); [|done|done].
      cbn [wf]. unfold thead. cbn [ttoks app]. by rewrite Hu, Hc, Hb.
Qed.
End Verdict.

(** * Properties *)

(** C21: [test] implements its grammar and always returns.  Every expression of the grammar,
    printed as its tokens, evaluates to its value, with -a binding tighter than -o and ! tighter
    than both, or fails with its first error; and on every argument list at all the parser ends
    with a value or an error of the source. *)
Theorem Evaluate_grammar Lstat Stat :
  (forall e, wf 0 e = true -> Evaluate Lstat Stat (ttoks e) = sem Lstat Stat e) /\
  (forall ts, Evaluate Lstat Stat ts <> Err OutOfFuel).
Proof. split; [apply Evaluate_complete|apply Evaluate_fuel]. Qed.

(** On at most four arguments [test] gives the verdict that POSIX lays down by the number of
    arguments, unless an argument is an operand that the parser takes for an operator or a
    parenthesis (see [test_paren_operand] and the lemmas after it). *)
Theorem Evaluate_posix Lstat Stat args v :
  plain args = true -> posix Lstat Stat args = Some v -> Evaluate Lstat Stat args = v.
Proof.
  intros Hp Hv. destruct args as [|a [|b [|c [|d [|? ?]]]]]; cbn [posix] in Hv; try done.
  - by injection Hv as <-.
  - injection Hv as <-. unfold plain in Hp. apply negb_true_iff, String.eqb_neq in Hp.
    apply (bang_word Lstat Stat 0); [lia|done|by left].
  - by apply posix_verdict_2.
  - by apply posix_verdict_3.
  - by apply posix_verdict_4.
Qed.

Lemma Evaluate_posix_witness :
  Evaluate (fun _ => None) (fun _ => None) ["!"; "12"; "-lt"; "7"] = Ok true.
Proof. apply (Evaluate_posix _ _ ["!"; "12"; "-lt"; "7"]); vm_compute; reflexivity. Defined.

(** Where the parser departs from the verdict: a lone parenthesis, an operator in parentheses, a
    binary operator as the operand of ! or of a unary operator. *)
Lemma test_paren_operand L S :
  posix L S ["("] = Some (Ok true) /\ Evaluate L S ["("] = Err (Msg "missing ')'") /\
  posix L S ["("; "!"; ")"] = Some (Ok true) /\ Evaluate L S ["("; "!"; ")"] = Err (Msg "missing ')'").
Proof. done. Qed.

Lemma test_operator_operand L S :
  posix L S ["!"; "="] = Some (Ok false) /\
  Evaluate L S ["!"; "="] = Err (Msg "missing argument after =") /\
  posix L S ["-n"; "="] = Some (Ok true) /\
  Evaluate L S ["-n"; "="] = Err (Msg "missing argument after =") /\
  posix L S ["!"; "="; "="; "x"] = Some (Ok true) /\
  Evaluate L S ["!"; "="; "="; "x"] = Err (UnexpectedArgument "x").
Proof. done. Qed.

(** The operator -t is accepted by the parser and has no evaluation; -f does not follow links. *)
Lemma test_terminal_fails L S fd :
  isBinaryOp fd = false -> Evaluate L S ["-t"; fd] = Err (Msg "unknown unary operator: -t").
Proof. intros H. apply (tree_verdict L S (TUnary "-t" fd)); [|done|done]. cbn [wf]. by rewrite H. Qed.

Lemma test_f_on_link S p : isBinaryOp p = false ->
  Evaluate (fun _ => Some {| Mode := ModeSymlink + 511; Size := 4 |}) S ["-f"; p] = Ok false.
Proof.
  intros H. apply (tree_verdict _ S (TUnary "-f" p)); [|done|vm_compute; reflexivity].
  cbn [wf]. by rewrite H.
Qed.
