(* ===== verification/Xxd.v ===== *)
(** xxd: pkg/xxd/xxd.go.

    The dumps take the input as the list of what the reads of the loop deliver, at most the size
    of the buffer each: a reader may deliver less.  The reverse modes take the scanned lines. *)

From S2P Require Import Prelude GoStd Utf8 Scanner.

Local Open Scope Z_scope.

(** * Formatting *)

Definition hex_char (v : Z) : ascii := if v <? 10 then chr (48 + v) else chr (87 + v).

(** [%02x] of a byte. *)
Definition hex2 (b : ascii) : string :=
  String (hex_char (code b / 16)) (String (hex_char (code b mod 16)) "").

(** [%x] of a non-negative number of at most [fuel] digits, before [acc]. *)
Fixpoint hex_digits (fuel : nat) (n : Z) (acc : string) : string :=
  match fuel with
  | O => acc
  | S fuel =>
      let acc := String (hex_char (n mod 16)) acc in
      if n <? 16 then acc else hex_digits fuel (n / 16) acc
  end.

(** [%08x] *)
Definition offset08 (n : Z) : string :=
  let s := hex_digits 16 n "" in repeat_char "0" (8 - String.length s) +:+ s.

(** * The dumps *)

(** The hexadecimal column: pairs of bytes. *)
Fixpoint hex_parts (buf : string) : list string :=
  match buf with
  | "" => []
  | String a "" => [hex2 a]
  | String a (String b buf) => (hex2 a +:+ hex2 b) :: hex_parts buf
  end.

Fixpoint join_space (l : list string) : string :=
  match l with [] => "" | [s] => s | s :: l => s +:+ " " +:+ join_space l end.

Fixpoint ascii_column (buf : string) : string :=
  match buf with
  | "" => ""
  | String b buf =>
      String (if (32 <=? code b) && (code b <=? 126) then b else "."%char) (ascii_column buf)
  end.

Definition dump_line (offset : Z) (buf : string) : string :=
  let hexCol := join_space (hex_parts buf) in
  let hexCol := if (String.length hexCol <? 39)%nat
                then hexCol +:+ repeat_char " " (39 - String.length hexCol) else hexCol in
  offset08 offset +:+ ": " +:+ hexCol +:+ "  " +:+ ascii_column buf.

Fixpoint dumpStandard (offset : Z) (reads : list string) : list string :=
  match reads with
  | [] => []
  | buf :: reads =>
      let n := Z.of_nat (String.length buf) in
      if 0 <? n then dump_line offset buf :: dumpStandard (offset + n) reads
      else dumpStandard offset reads
  end.

Fixpoint hex_all (buf : string) : string :=
  match buf with "" => "" | String b buf => hex2 b +:+ hex_all buf end.

Fixpoint dumpPlain (reads : list string) : list string :=
  match reads with
  | [] => []
  | buf :: reads =>
      if 0 <? Z.of_nat (String.length buf) then hex_all buf :: dumpPlain reads else dumpPlain reads
  end.

(** * The reverse *)

Definition hexVal (char : ascii) : option Z :=
  let z := code char in
  if (48 <=? z) && (z <=? 57) then Some (uwrap 8 (z - 48))
  else if (97 <=? z) && (z <=? 102) then Some (uwrap 8 (z - 97 + 10))
  else if (65 <=? z) && (z <=? 70) then Some (uwrap 8 (z - 65 + 10))
  else None.

Definition is_blank (c : ascii) : bool :=
  (c =c? " ") || (code c =? 9) || (code c =? 13) || (code c =? 10).

(** The search for a digit: the digit and the rest of the line; the end of the line; two bad
    characters in a row; or, for the second digit of a byte, one bad character, with the rest and
    the count of bad characters. *)
Inductive search :=
| Digit (val : Z) (rest : string)
| NoDigit
| Truncated
| Bad (rest : string) (badSeqCount : Z).

(** [second]: whether a bad character ends the search. *)
Fixpoint find_digit (second : bool) (line : string) (badSeqCount : Z) : search :=
  match line with
  | "" => NoDigit
  | String char line =>
      if is_blank char then find_digit second line 0
      else
        match hexVal char with
        | Some val => Digit val line
        | None =>
            let badSeqCount := badSeqCount + 1 in
            if 2 <=? badSeqCount then Truncated
            else if second then Bad line badSeqCount
            else find_digit second line badSeqCount
        end
  end.

(** The bytes written for a line, as both reverse modes have the loop. *)
Fixpoint hex_line (fuel : nat) (line : string) (badSeqCount : Z) : string :=
  match fuel with
  | O => ""
  | S fuel =>
      match find_digit false line badSeqCount with
      | Digit d1 line =>
          match find_digit true line 0 with
          | Digit d2 line => String (chr (Z.lor (uwrap 8 (Z.shiftl d1 4)) d2)) (hex_line fuel line 0)
          | Bad line badSeqCount => hex_line fuel line badSeqCount
          | NoDigit | Truncated => ""
          end
      | _ => ""
      end
  end.

Definition bytes_of_line (line : string) : string := hex_line (S (String.length line)) line 0.

Definition reversePlain (lines : list string) : string := sconcat (bytes_of_line <$> lines).

(** [strings.TrimLeft(line, " \t\r\n")] *)
Fixpoint trim_blanks (line : string) : string :=
  match line with String c l => if is_blank c then trim_blanks l else line | "" => "" end.

(** The part of a line that holds the bytes, [None] for a line that is skipped. *)
Definition hex_content (line : string) : option string :=
  let trimmed := trim_blanks line in
  if trimmed =s? "" then None
  else
    match Index trimmed ":" with
    | None => None
    | Some colonIdx =>
        let hexContent := str_drop (colonIdx + 1) trimmed in
        Some (match Index hexContent "  " with
              | Some i => str_take i hexContent
              | None => hexContent
              end)
    end.

Definition reverseStandard (lines : list string) : string :=
  sconcat ((fun l => match hex_content l with Some h => bytes_of_line h | None => "" end) <$> lines).

(** [Run] on the scanned lines of the input for the reverse modes, and the output text. *)
Definition Run (plainMode reverseMode : bool) (reads : list string) (lines : list string) : string :=
  if reverseMode then (if plainMode then reversePlain lines else reverseStandard lines)
  else text_of_lines (if plainMode then dumpPlain reads else dumpStandard 0 reads).

(** * Lemmas *)

(** Characters of the hexadecimal text. *)
Definition hexc (c : ascii) : bool :=
  match hexVal c with Some _ => negb (is_blank c) && negb (c =c? ":") && (33 <=? code c) | None => false end.

Lemma hex_char_ok v : 0 <= v < 16 -> hexVal (hex_char v) = Some v /\ hexc (hex_char v) = true.
Proof.
  assert (forallb (fun v => bool_decide (hexVal (hex_char v) = Some v) && hexc (hex_char v)) (seqZ 0 16) = true)
    as H by (vm_compute; reflexivity).
  intros Hv. rewrite forallb_forall in H. specialize (H v).
  rewrite <- list_elem_of_In, elem_of_seqZ, andb_true_iff, bool_decide_eq_true in H. apply H. lia.
Qed.

Lemma byte_digits b : 0 <= code b / 16 < 16 /\ 0 <= code b mod 16 < 16.
Proof. pose proof (code_bound b). Z.div_mod_to_equations. lia. Qed.

Lemma hex2_hexc b : str_forall hexc (hex2 b) = true.
Proof.
  destruct (byte_digits b) as [H1 H2]. unfold hex2. cbn [str_forall].
  by rewrite (proj2 (hex_char_ok _ H1)), (proj2 (hex_char_ok _ H2)).
Qed.

Lemma find_digit_hex second v line bad : 0 <= v < 16 ->
  find_digit second (String (hex_char v) line) bad = Digit v line.
Proof.
  intros Hv. destruct (hex_char_ok v Hv) as [E H]. cbn [find_digit]. unfold hexc in H. rewrite E in *.
  apply andb_true_iff in H as [H _]. apply andb_true_iff in H as [H _].
  apply negb_true_iff in H. by rewrite H.
Qed.

(** ** Reading bytes back *)

Lemma hex_line_byte fuel b line bad :
  hex_line (S fuel) (hex2 b +:+ line) bad = String b (hex_line fuel line 0).
Proof.
  destruct (byte_digits b) as [H1 H2]. unfold hex2. rewrite !sapp_cons, sapp_nil_l. cbn [hex_line].
  rewrite find_digit_hex by done. rewrite find_digit_hex by done. f_equal.
  assert (uwrap 8 (Z.shiftl (code b / 16) 4) = Z.shiftl (code b / 16) 4) as ->.
  { unfold uwrap. rewrite Z.shiftl_mul_pow2 by lia. apply Z.mod_small. simpl. lia. }
  rewrite <- (chr_code b) at 3. f_equal.
  assert (Z.land (Z.shiftl (code b / 16) 4) (code b mod 16) = 0) as H0.
  { apply Z.bits_inj'. intros i Hi. rewrite Z.land_spec, Z.bits_0.
    destruct (Z.lt_ge_cases i 4); [by rewrite Z.shiftl_spec_low by lia|].
    rewrite andb_comm. change 16 with (2 ^ 4). by rewrite Z.mod_pow2_bits_high by lia. }
  pose proof (Z.add_lor_land (Z.shiftl (code b / 16) 4) (code b mod 16)).
  rewrite Z.shiftl_mul_pow2 in * by lia. pose proof (Z.div_mod (code b) 16). simpl in *. lia.
Qed.

Lemma hex_line_space fuel line bad : hex_line (S fuel) (String " " line) bad = hex_line (S fuel) line 0.
Proof. done. Qed.

Lemma hex_line_all buf : forall fuel, (String.length (hex_all buf) < fuel)%nat ->
  hex_line fuel (hex_all buf) 0 = buf.
Proof.
  induction buf as [|b buf IH]; intros [|fuel] Hf; try (simpl in Hf; lia); [done|].
  cbn [hex_all] in *. rewrite slength_app in Hf. rewrite hex_line_byte, IH; [done|].
  simpl in Hf. lia.
Qed.

(** Induction by pairs of bytes. *)
Lemma pair_ind (P : string -> Prop) : P "" -> (forall a, P (String a "")) ->
  (forall a b s, P s -> P (String a (String b s))) -> forall s, P s.
Proof. intros H0 H1 H2. fix IH 1. intros [|a [|b s]]; [done|apply H1|apply H2, IH]. Qed.

Lemma join_space_cons s l : l <> [] -> join_space (s :: l) = s +:+ " " +:+ join_space l.
Proof. by destruct l. Qed.

Lemma hex_parts_nonempty c s : hex_parts (String c s) <> [].
Proof. by destruct s. Qed.

Lemma hex_column_cons a b c s : join_space (hex_parts (String a (String b (String c s)))) =
  hex2 a +:+ hex2 b +:+ " " +:+ join_space (hex_parts (String c s)).
Proof.
  change (hex_parts (String a (String b (String c s)))) with ((hex2 a +:+ hex2 b) :: hex_parts (String c s)).
  rewrite join_space_cons by apply hex_parts_nonempty. by rewrite sapp_assoc.
Qed.

Lemma hex_line_column buf : forall fuel, (String.length (join_space (hex_parts buf)) < fuel)%nat ->
  hex_line fuel (join_space (hex_parts buf)) 0 = buf.
Proof.
  induction buf as [|a|a b s IH] using pair_ind; intros fuel Hf.
  - by destruct fuel.
  - destruct fuel as [|fuel]; [simpl in Hf; lia|].
    change (join_space (hex_parts (String a ""))) with (hex2 a).
    rewrite <- (sapp_nil_r (hex2 a)), hex_line_byte. by destruct fuel.
  - destruct s as [|c s].
    + change (join_space (hex_parts (String a (String b "")))) with (hex2 a +:+ hex2 b) in *.
      destruct fuel as [|[|fuel]]; try (simpl in Hf; lia).
      rewrite hex_line_byte, <- (sapp_nil_r (hex2 b)), hex_line_byte. by destruct fuel.
    + rewrite hex_column_cons in *. rewrite !slength_app in Hf.
      destruct fuel as [|[|[|fuel]]]; try (simpl in Hf; lia).
      rewrite !hex_line_byte. change (" " +:+ ?t) with (String " " t).
      rewrite hex_line_space, IH; [done|]. simpl in *. lia.
Qed.

(** ** Finding the hexadecimal column *)

Lemma Index_step c s t : (c =c? " ") = false -> Index (String c (s +:+ t)) "  " =
  match Index (s +:+ t) "  " with Some i => Some (S i) | None => None end.
Proof. intros H. cbn [Index HasPrefix]. by rewrite Ascii.eqb_sym, H. Qed.

Lemma hexc_not_space c : hexc c = true -> (c =c? " ") = false /\ is_blank c = false.
Proof.
  unfold hexc, is_blank. destruct (hexVal c); [|done]. rewrite !andb_true_iff, negb_true_iff.
  intros [[H _] _]. rewrite !orb_false_iff in H. rewrite !orb_false_iff. tauto.
Qed.

Lemma Index_hex s t : str_forall hexc s = true ->
  Index (s +:+ t) "  " = match Index t "  " with Some i => Some (String.length s + i)%nat | None => None end.
Proof.
  induction s as [|c s IH]; cbn [str_forall]; intros H.
  - rewrite sapp_nil_l. by destruct (Index t "  ").
  - apply andb_true_iff in H as [Hc H]. apply hexc_not_space in Hc as [Hc _].
    rewrite sapp_cons, Index_step, (IH H) by done. by destruct (Index t "  ").
Qed.

Lemma column_head c s : exists d r, join_space (hex_parts (String c s)) = String d r /\ hexc d = true.
Proof.
  pose proof (hex2_hexc c) as H. unfold hex2 in H. cbn [str_forall] in H.
  apply andb_true_iff in H as [H _]. destruct s as [|d [|e s]]; unfold hex_parts; fold hex_parts;
    unfold hex2 at 1; eauto. rewrite join_space_cons by apply hex_parts_nonempty. eauto.
Qed.

Lemma Index_single c s t : Index (" " +:+ join_space (hex_parts (String c s)) +:+ t) "  " =
  match Index (join_space (hex_parts (String c s)) +:+ t) "  " with Some i => Some (S i) | None => None end.
Proof.
  destruct (column_head c s) as (d & r & E & Hd%hexc_not_space). rewrite E. destruct Hd as [Hd _].
  change (" " +:+ String d r +:+ t) with (String " " (String d (r +:+ t))). rewrite sapp_cons.
  remember (String d (r +:+ t)) as u. cbn [Index]. subst u. cbn [HasPrefix].
  by rewrite Ascii.eqb_refl, Ascii.eqb_sym, Hd.
Qed.

Lemma Index_column t buf : buf <> "" ->
  Index (join_space (hex_parts buf) +:+ "  " +:+ t) "  " = Some (String.length (join_space (hex_parts buf))).
Proof.
  assert (Index ("  " +:+ t) "  " = Some 0%nat) as H0 by done.
  induction buf as [|a|a b s IH] using pair_ind; intros Hne; [done| |].
  - change (join_space (hex_parts (String a ""))) with (hex2 a).
    by rewrite Index_hex, H0, Nat.add_0_r by apply hex2_hexc.
  - destruct s as [|c s].
    + change (join_space (hex_parts (String a (String b "")))) with (hex2 a +:+ hex2 b).
      rewrite sapp_assoc, !Index_hex, H0 by apply hex2_hexc. by rewrite slength_app, Nat.add_0_r.
    + rewrite hex_column_cons, !sapp_assoc, !Index_hex by apply hex2_hexc.
      rewrite Index_single, IH by done. by rewrite !slength_app.
Qed.

Lemma repeat_space k t : repeat_char " " k +:+ "  " +:+ t = "  " +:+ repeat_char " " k +:+ t.
Proof.
  induction k as [|k IH]; [done|]. cbn [repeat_char].
  rewrite (sapp_cons " " (repeat_char " " k) ("  " +:+ t)), IH. by rewrite !sapp_cons, !sapp_nil_l.
Qed.

Lemma hex_digits_ok fuel : forall n acc, 0 <= n -> str_forall hexc acc = true ->
  str_forall hexc (hex_digits (S fuel) n acc) = true /\ hex_digits (S fuel) n acc <> "" /\
  (String.length (hex_digits (S fuel) n acc) <= S fuel + String.length acc)%nat.
Proof.
  induction fuel as [|fuel IH]; intros n acc Hn Hacc.
  - assert (hexc (hex_char (n mod 16)) = true) as Hc by (apply hex_char_ok; Z.div_mod_to_equations; lia).
    cbn [hex_digits]. destruct (n <? 16); cbn [str_forall String.length]; rewrite Hc; (split; [done|split; [done|lia]]).
  - assert (hexc (hex_char (n mod 16)) = true) as Hc by (apply hex_char_ok; Z.div_mod_to_equations; lia).
    remember (S fuel) as k. cbn [hex_digits]. subst k. destruct (n <? 16).
    + cbn [str_forall String.length]. rewrite Hc. split; [done|]. split; [done|lia].
    + destruct (IH (n / 16) (String (hex_char (n mod 16)) acc)) as (H1 & H2 & H3).
      { apply Z.div_pos; lia. }
      { cbn [str_forall]. by rewrite Hc. }
      split; [done|]. split; [done|]. cbn [String.length] in H3. lia.
Qed.

Lemma repeat_hexc k : str_forall hexc (repeat_char "0" k) = true /\ String.length (repeat_char "0" k) = k.
Proof.
  induction k as [|k [IH1 IH2]]; [done|]. cbn [repeat_char str_forall String.length].
  rewrite IH1, IH2. done.
Qed.

Lemma offset08_ok n : 0 <= n -> str_forall hexc (offset08 n) = true /\ offset08 n <> "" /\
  (String.length (offset08 n) <= 24)%nat.
Proof.
  intros Hn. unfold offset08. destruct (hex_digits_ok 15 n "" Hn eq_refl) as (H1 & H2 & H3).
  set (s := hex_digits 16 n "") in *. destruct (repeat_hexc (8 - String.length s)) as [R1 R2].
  rewrite str_forall_app, R1, H1, slength_app, R2. split; [done|]. split; [|simpl in H3; lia].
  destruct s as [|c s]; [done|]. by destruct (repeat_char "0" _).
Qed.

(** ** Lines of the dumps *)

Lemma hexc_head s : str_forall hexc s = true -> s <> "" ->
  exists c r, s = String c r /\ is_blank c = false /\ (c =c? ":") = false.
Proof.
  destruct s as [|c r]; [done|]. cbn [str_forall]. intros H _. apply andb_true_iff in H as [H _].
  exists c, r. split; [done|]. unfold hexc in H. destruct (hexVal c); [|done].
  rewrite !andb_true_iff, !negb_true_iff in H. tauto.
Qed.

Lemma hex_content_line off buf : 0 <= off -> buf <> "" ->
  hex_content (dump_line off buf) = Some (" " +:+ join_space (hex_parts buf)).
Proof.
  intros Hoff Hne. destruct (offset08_ok off Hoff) as (O1 & O2 & _). unfold dump_line.
  set (H := join_space (hex_parts buf)).
  assert (exists t, offset08 off +:+ ": " +:+
    (if (String.length H <? 39)%nat then H +:+ repeat_char " " (39 - String.length H) else H) +:+
    "  " +:+ ascii_column buf = offset08 off +:+ String ":" (" " +:+ H +:+ "  " +:+ t)) as [t ->].
  { destruct (String.length H <? 39)%nat.
    - exists (repeat_char " " (39 - String.length H) +:+ ascii_column buf).
      by rewrite sapp_assoc, repeat_space.
    - by exists (ascii_column buf). }
  unfold hex_content.
  assert (forall u, trim_blanks (offset08 off +:+ u) = offset08 off +:+ u) as ->.
  { intros u. destruct (hexc_head _ O1 O2) as (c & r & -> & Hb & _). rewrite sapp_cons.
    cbn [trim_blanks]. by rewrite Hb. }
  assert (forall u, (offset08 off +:+ u =s? "") = false) as ->.
  { intros u. destruct (hexc_head _ O1 O2) as (c & r & -> & _). by rewrite sapp_cons. }
  rewrite Index_char.
  2: { eapply str_forall_impl; [|exact O1]. intros c Hc. unfold hexc in Hc.
       destruct (hexVal c); [|done]. rewrite !andb_true_iff in Hc. tauto. }
  assert (forall u, str_drop (String.length (offset08 off) + 1) (offset08 off +:+ String ":" u) = u) as ->.
  { intros u. change (String ":" u) with (":" +:+ u). rewrite <- sapp_assoc.
    replace (String.length (offset08 off) + 1)%nat with (String.length (offset08 off +:+ ":"))
      by (by rewrite slength_app). apply str_drop_exact. }
  destruct buf as [|c s]; [done|]. unfold H. rewrite Index_single, Index_column by done. f_equal.
  rewrite <- !sapp_assoc.
  change (S (String.length (join_space (hex_parts (String c s)))))
    with (String.length (" " +:+ join_space (hex_parts (String c s)))).
  rewrite sapp_assoc. apply str_take_exact.
Qed.

Lemma bytes_of_column buf : bytes_of_line (" " +:+ join_space (hex_parts buf)) = buf.
Proof.
  unfold bytes_of_line. change (" " +:+ ?s) with (String " " s). cbn [String.length].
  rewrite hex_line_space. apply hex_line_column. lia.
Qed.

Lemma dumpStandard_reverse reads : forall off, 0 <= off ->
  reverseStandard (dumpStandard off reads) = sconcat reads.
Proof.
  unfold reverseStandard. induction reads as [|buf reads IH]; intros off Hoff; [done|].
  cbn [dumpStandard]. destruct buf as [|c s]; [by apply IH|].
  rewrite (proj2 (Z.ltb_lt _ _)) by (simpl; lia). rewrite fmap_cons.
  rewrite hex_content_line, bytes_of_column by done.
  change (sconcat (?x :: ?l)) with (x +:+ sconcat l). rewrite IH; [done|]. simpl. lia.
Qed.

Lemma dumpPlain_reverse reads : reversePlain (dumpPlain reads) = sconcat reads.
Proof.
  unfold reversePlain. induction reads as [|buf reads IH]; [done|].
  cbn [dumpPlain]. destruct buf as [|c s]; [done|].
  rewrite (proj2 (Z.ltb_lt _ _)) by (simpl; lia). rewrite fmap_cons.
  unfold bytes_of_line at 1. rewrite hex_line_all by lia.
  change (sconcat (?x :: ?l)) with (x +:+ sconcat l). by rewrite IH.
Qed.

(** ** The lines survive the scanner *)

Definition shown (s : string) : bool := str_forall (fun c => 32 <=? code c) s.

Lemma hexc_shown s : str_forall hexc s = true -> shown s = true.
Proof.
  apply str_forall_impl. intros c H. unfold hexc in H. destruct (hexVal c); [|done].
  rewrite !andb_true_iff in H. destruct H as [_ H]. lia.
Qed.

Lemma hex_all_ok buf : shown (hex_all buf) = true /\
  String.length (hex_all buf) = (2 * String.length buf)%nat.
Proof.
  unfold shown. induction buf as [|b buf [IH1 IH2]]; [done|]. cbn [hex_all].
  rewrite str_forall_app, slength_app, IH1, IH2. fold (shown (hex2 b)).
  rewrite hexc_shown by apply hex2_hexc. simpl. split; [done|lia].
Qed.

Lemma column_ok buf : shown (join_space (hex_parts buf)) = true /\
  (String.length (join_space (hex_parts buf)) <= 3 * String.length buf)%nat.
Proof.
  unfold shown. induction buf as [|a|a b s [IH1 IH2]] using pair_ind; [done| |].
  - change (join_space (hex_parts (String a ""))) with (hex2 a). fold (shown (hex2 a)).
    rewrite hexc_shown by apply hex2_hexc. simpl. split; [done|lia].
  - destruct s as [|c s].
    + change (join_space (hex_parts (String a (String b "")))) with (hex2 a +:+ hex2 b).
      rewrite str_forall_app. fold (shown (hex2 a)) (shown (hex2 b)).
      rewrite !hexc_shown by apply hex2_hexc. simpl. split; [done|lia].
    + rewrite hex_column_cons, !str_forall_app, IH1. fold (shown (hex2 a)) (shown (hex2 b)).
      rewrite !hexc_shown by apply hex2_hexc. rewrite !slength_app. split; [done|].
      cbn [String.length] in *. simpl (String.length (hex2 _)). lia.
Qed.

Lemma repeat_space_ok k : shown (repeat_char " " k) = true /\ String.length (repeat_char " " k) = k.
Proof.
  unfold shown. induction k as [|k [IH1 IH2]]; [done|]. cbn [repeat_char str_forall String.length].
  by rewrite IH1, IH2.
Qed.

Lemma ascii_column_ok buf : shown (ascii_column buf) = true /\
  String.length (ascii_column buf) = String.length buf.
Proof.
  unfold shown. induction buf as [|b buf [IH1 IH2]]; [done|].
  cbn [ascii_column str_forall String.length]. rewrite IH1, IH2.
  destruct ((32 <=? code b) && (code b <=? 126)) eqn:E; [|done].
  apply andb_true_iff in E as [-> _]. done.
Qed.

Lemma dump_line_safe off buf : 0 <= off -> (String.length buf <= 16)%nat -> safe_line (dump_line off buf).
Proof.
  intros Hoff Hl. destruct (offset08_ok off Hoff) as (O1 & _ & O3).
  destruct (column_ok buf) as [C1 C2]. destruct (ascii_column_ok buf) as [A1 A2].
  unfold dump_line. set (H := join_space (hex_parts buf)) in *.
  assert (shown (if (String.length H <? 39)%nat then H +:+ repeat_char " " (39 - String.length H) else H) = true /\
    (String.length (if (String.length H <? 39)%nat then H +:+ repeat_char " " (39 - String.length H) else H) <= 48)%nat)
    as [P1 P2].
  { destruct (Nat.ltb_spec (String.length H) 39); [|split; [done|lia]].
    destruct (repeat_space_ok (39 - String.length H)) as [R1 R2]. unfold shown in *.
    rewrite str_forall_app, C1, R1, slength_app, R2. split; [done|lia]. }
  apply printable_safe.
  - apply hexc_shown in O1. unfold shown in *. by rewrite !str_forall_app, O1, P1, A1.
  - rewrite !slength_app, A2. simpl (String.length ": "). simpl (String.length "  "). lia.
Qed.

Lemma dumps_safe (plainMode : bool) reads :
  Forall (fun r => (String.length r <= if plainMode then 30 else 16)%nat) reads ->
  forall off, 0 <= off -> Forall safe_line (if plainMode then dumpPlain reads else dumpStandard off reads).
Proof.
  destruct plainMode; induction 1 as [|buf reads Hb Hr IH]; intros off Hoff;
    cbn [dumpPlain dumpStandard]; try by constructor.
  - destruct (0 <? _); [|by apply (IH off)]. constructor; [|by apply (IH off)].
    destruct (hex_all_ok buf) as [H1 H2]. apply printable_safe; [done|lia].
  - destruct (0 <? _); [|by apply IH]. constructor; [by apply dump_line_safe|].
    apply IH. lia.
Qed.

(** * Properties *)

(** [xxd -r] undoes [xxd], and [xxd -r -p] undoes [xxd -p]: however the reads of the dump cut
    the input, the text of the dump is scanned and decoded into the same bytes. *)
Theorem xxd_roundtrip (plainMode : bool) reads :
  Forall (fun r => (String.length r <= if plainMode then 30 else 16)%nat) reads ->
  Run plainMode true [] (fst (scan (Run plainMode false reads []))) = sconcat reads.
Proof.
  intros Hr. pose proof (dumps_safe plainMode reads Hr 0 ltac:(lia)) as Hs. unfold Run.
  destruct plainMode; rewrite scan_text by done; [apply dumpPlain_reverse|].
  by apply dumpStandard_reverse.
Qed.

Lemma xxd_roundtrip_witness :
  Run false true [] (fst (scan (Run false false ["hello world, abc"; String "000" "::  x"] []))) =
    "hello world, abc" +:+ String "000" "::  x".
Proof. apply (xxd_roundtrip false ["hello world, abc"; String "000" "::  x"]). repeat constructor. Defined.

(** An odd digit at the end of a line is dropped, as is a digit before a bad character. *)
Example reverse_drops_odd_digit : reversePlain ["414"; "4x42"] = "AB".
Proof. vm_compute. reflexivity. Qed.
