(* ===== verification/Cksum.v ===== *)
(** cksum and sum: pkg/cksum/cksum.go and pkg/sum/sum.go.

    The checksums of a byte string.  uint32 values are integers below 2^32.  The reference for the
    CRC is long division of polynomials over GF(2), a polynomial being the integer with its
    coefficients as bits. *)

From S2P Require Import Prelude GoStd Output.

Local Open Scope Z_scope.

(** * cksum *)

(** The body of the inner loop. *)
Definition crc_bit (crc : Z) : Z :=
  if negb (Z.land crc 0x80000000 =? 0) then Z.lxor (uwrap 32 (Z.shiftl crc 1)) 0x04C11DB7
  else uwrap 32 (Z.shiftl crc 1).

(** A byte or a length octet. *)
Definition crc_octet (crc octet : Z) : Z :=
  Nat.iter 8 crc_bit (Z.lxor crc (uwrap 32 (Z.shiftl octet 24))).

Fixpoint crc_data (data : string) (crc : Z) : Z :=
  match data with "" => crc | String b data => crc_data data (crc_octet crc (code b)) end.

(** [for n != 0] *)
Fixpoint crc_length (fuel : nat) (n crc : Z) : option Z :=
  match fuel with
  | O => None
  | S fuel =>
      if n =? 0 then Some crc
      else crc_length fuel (Z.shiftr n 8) (crc_octet crc (Z.land n 0xFF))
  end.

Definition posixCRC (data : string) : option Z :=
  crc ← crc_length 9 (Z.of_nat (String.length data)) (crc_data data 0);
  Some (Z.lxor crc 0xFFFFFFFF).

(** The files of [Run] and their contents, in order; [read] is [None] for a file that cannot be
    opened or read, which ends the run. *)
Record CksumFileResult := { Name : string; Checksum : Z; Bytes : Z }.

Definition computeCRC (data : string) : option (Z * Z) :=
  crc ← posixCRC data; Some (crc, Z.of_nat (String.length data)).

Section Run.
Variable read : string -> option string.
Variable os_stdin : string.

Fixpoint run_files (files : list string) : option (list CksumFileResult) :=
  match files with
  | [] => Some []
  | filename :: files =>
      data ← read filename;
      '(crc, n) ← computeCRC data;
      rest ← run_files files;
      Some ({| Name := filename; Checksum := crc; Bytes := n |} :: rest)
  end.

Definition Run (files : list string) : option (list CksumFileResult) :=
  match files with
  | [] => '(crc, n) ← computeCRC os_stdin; Some [{| Name := ""; Checksum := crc; Bytes := n |}]
  | _ => run_files files
  end.

(** The lines printed. *)
Definition cksum_line (f : CksumFileResult) : string :=
  if negb (Name f =s? "") then FormatInt (Checksum f) +:+ " " +:+ FormatInt (Bytes f) +:+ " " +:+ Name f
  else FormatInt (Checksum f) +:+ " " +:+ FormatInt (Bytes f).
End Run.

(** * sum *)

Fixpoint bsd_loop (data : string) (sum : Z) : Z :=
  match data with
  | "" => sum
  | String b data =>
      bsd_loop data (Z.land (Z.shiftr sum 1 + Z.shiftl (Z.land sum 1) 15 + code b) 0xFFFF)
  end.

Definition sumBSD (data : string) : Z * Z :=
  if Z.of_nat (String.length data) =? 0 then (0, 0)
  else (bsd_loop data 0, (Z.of_nat (String.length data) + 1023) / 1024).

Fixpoint sysv_loop (data : string) (sum : Z) : Z :=
  match data with "" => sum | String b data => sysv_loop data (uwrap 32 (sum + code b)) end.

Definition sumSysV (data : string) : Z * Z :=
  if Z.of_nat (String.length data) =? 0 then (0, 0)
  else (Z.land (sysv_loop data 0) 0xFFFFFFFF mod 0x10000, (Z.of_nat (String.length data) + 511) / 512).

(** * Division of polynomials *)

(** x^32 + x^26 + x^23 + x^22 + x^16 + x^12 + x^11 + x^10 + x^8 + x^7 + x^5 + x^4 + x^2 + x + 1 *)
Definition G : Z := 0x104C11DB7.

(** Multiplication by x of a remainder: one step of the division. *)
Definition xtime (r : Z) : Z :=
  let r := Z.shiftl r 1 in if Z.testbit r 32 then Z.lxor r G else r.

(** The remainder, a coefficient at a time from the highest. *)
Fixpoint prem_pos (m : positive) : Z :=
  match m with
  | xH => 1
  | xO m => xtime (prem_pos m)
  | xI m => Z.lxor (xtime (prem_pos m)) 1
  end.

Definition prem (m : Z) : Z := match m with Zpos m => prem_pos m | _ => 0 end.

(** The multiples of [G]. *)
Inductive multiple : Z -> Prop :=
| multiple_0 : multiple 0
| multiple_step k m : 0 <= k -> multiple m -> multiple (Z.lxor m (Z.shiftl G k)).

(** The polynomial of a byte string, the first byte highest, and the octets of a length. *)
Definition poly (l : list Z) : Z := foldl (fun m b => Z.lxor (Z.shiftl m 8) b) 0 l.

Fixpoint octets (fuel : nat) (n : Z) : list Z :=
  match fuel with
  | O => []
  | S fuel => if n =? 0 then [] else n mod 256 :: octets fuel (n / 256)
  end.

(** The message whose remainder POSIX asks for: the bytes and the octets of their number, times
    x^32. *)
Definition message (data : string) : Z :=
  poly ((code <$> String.list_ascii_of_string data) ++ octets 8 (Z.of_nat (String.length data))).

(** * Lemmas *)

Lemma testbit_top a n : 0 <= n -> 0 <= a < 2 ^ (n + 1) -> Z.testbit a n = (2 ^ n <=? a).
Proof.
  intros Hn Ha. rewrite Z.pow_add_r in Ha by lia. destruct (Z.leb_spec (2 ^ n) a).
  - rewrite Z.testbit_eqb by lia.
    assert (a / 2 ^ n = 1) as -> by (symmetry; apply (Z.div_unique _ _ _ (a - 2 ^ n)); lia). done.
  - rewrite <- (Z.mod_small a (2 ^ n)) by lia. by rewrite Z.mod_pow2_bits_high by lia.
Qed.

(** ** Multiplication by x *)

Lemma top_bit x : 2 ^ 32 <= x < 2 ^ 33 -> Z.lxor x (2 ^ 32) = x - 2 ^ 32.
Proof.
  intros Hx. assert (Z.land (x - 2 ^ 32) (2 ^ 32) = 0) as H0.
  { apply Z.bits_inj'. intros i Hi. rewrite Z.land_spec, Z.bits_0, Z.pow2_bits_eqb by lia.
    destruct (Z.eqb_spec 32 i) as [<-|]; [|apply andb_false_r].
    rewrite testbit_top by (simpl; lia). by rewrite (proj2 (Z.leb_gt _ _)) by lia. }
  apply Z.add_nocarry_lxor in H0. replace (x - 2 ^ 32 + 2 ^ 32) with x in H0 by lia.
  rewrite H0 at 1. by rewrite Z.lxor_assoc, Z.lxor_nilpotent, Z.lxor_0_r.
Qed.

Lemma xtime_eq r : 0 <= r < 2 ^ 32 ->
  xtime r = if 2 ^ 31 <=? r then Z.lxor (2 * r - 2 ^ 32) 0x04C11DB7 else 2 * r.
Proof.
  intros Hr. unfold xtime. rewrite Z.shiftl_mul_pow2, Z.mul_comm by lia. change (2 ^ 1) with 2.
  rewrite testbit_top by (simpl; lia).
  destruct (Z.leb_spec (2 ^ 32) (2 * r)), (Z.leb_spec (2 ^ 31) r); try lia; try done.
  change G with (Z.lxor (2 ^ 32) 0x04C11DB7). rewrite <- Z.lxor_assoc. f_equal. apply top_bit. lia.
Qed.

Lemma xtime_range r : 0 <= r < 2 ^ 32 -> 0 <= xtime r < 2 ^ 32.
Proof.
  intros Hr. rewrite xtime_eq by done. destruct (Z.leb_spec (2 ^ 31) r); [|lia].
  apply lxor_lt; lia.
Qed.

Lemma crc_bit_xtime r : 0 <= r < 2 ^ 32 -> crc_bit r = xtime r.
Proof.
  intros Hr. rewrite xtime_eq by done. unfold crc_bit, uwrap.
  assert (Z.land r 0x80000000 = if Z.testbit r 31 then 0x80000000 else 0) as ->.
  { change 0x80000000 with (2 ^ 31). apply Z.bits_inj'. intros i Hi.
    rewrite Z.land_spec, Z.pow2_bits_eqb by lia. destruct (Z.eqb_spec 31 i) as [<-|Hne].
    - rewrite andb_true_r. by destruct (Z.testbit r 31).
    - rewrite andb_false_r. destruct (Z.testbit r 31); [|by rewrite Z.bits_0].
      by rewrite Z.pow2_bits_false by done. }
  rewrite testbit_top by (simpl; lia).
  rewrite Z.shiftl_mul_pow2, Z.mul_comm by lia. change (2 ^ 1) with 2.
  destruct (Z.leb_spec (2 ^ 31) r); cbn [Z.eqb negb].
  - f_equal. symmetry. apply (Z.mod_unique _ _ 1); lia.
  - apply Z.mod_small. lia.
Qed.

(** The step is linear and loses nothing. *)
Lemma xtime_lxor a b : xtime (Z.lxor a b) = Z.lxor (xtime a) (xtime b).
Proof.
  unfold xtime. rewrite Z.shiftl_lxor, Z.lxor_spec.
  destruct (Z.testbit (Z.shiftl a 1) 32), (Z.testbit (Z.shiftl b 1) 32); cbn [xorb];
    apply Z.bits_inj'; intros i Hi; rewrite !Z.lxor_spec;
    generalize (Z.testbit (Z.shiftl a 1) i) (Z.testbit (Z.shiftl b 1) i) (Z.testbit G i); by intros [] [] [].
Qed.

Lemma xtime_zero r : 0 <= r < 2 ^ 32 -> xtime r = 0 -> r = 0.
Proof.
  intros Hr H. rewrite xtime_eq in H by done. destruct (Z.leb_spec (2 ^ 31) r); [|lia].
  apply Z.lxor_eq in H. exfalso. assert ((2 * r - 2 ^ 32) mod 2 = 0x04C11DB7 mod 2) as E by (by rewrite H).
  replace (2 * r - 2 ^ 32) with ((r - 2 ^ 31) * 2) in E by lia. by rewrite Z.mod_mul in E.
Qed.

Lemma xtimes_lxor k a b :
  Nat.iter k xtime (Z.lxor a b) = Z.lxor (Nat.iter k xtime a) (Nat.iter k xtime b).
Proof. induction k as [|k IH]; [done|]. rewrite !Nat.iter_succ, IH. apply xtime_lxor. Qed.

Lemma xtimes_range k r : 0 <= r < 2 ^ 32 -> 0 <= Nat.iter k xtime r < 2 ^ 32.
Proof. intros Hr. induction k as [|k IH]; [done|]. rewrite Nat.iter_succ. by apply xtime_range. Qed.

Lemma xtimes_zero k r : 0 <= r < 2 ^ 32 -> Nat.iter k xtime r = 0 -> r = 0.
Proof.
  intros Hr. induction k as [|k IH]; [done|]. rewrite Nat.iter_succ. intros H.
  apply IH, xtime_zero; [by apply xtimes_range|done].
Qed.

(** ** The remainder *)

Lemma prem_double m : 0 <= m -> prem (2 * m) = xtime (prem m).
Proof. intros Hm. by destruct m. Qed.

Lemma prem_succ_double m : 0 <= m -> prem (2 * m + 1) = Z.lxor (xtime (prem m)) 1.
Proof. intros Hm. by destruct m. Qed.

Lemma prem_range m : 0 <= prem m < 2 ^ 32.
Proof.
  destruct m as [|m|m]; [done| |done]. simpl prem. induction m as [m IH|m IH|]; cbn [prem_pos].
  - apply lxor_lt; [lia|by apply xtime_range|done].
  - by apply xtime_range.
  - done.
Qed.

(** Induction on the coefficients. *)
Lemma binary_ind (P : Z -> Prop) : P 0 ->
  (forall m, 0 <= m -> P m -> P (2 * m)) -> (forall m, 0 <= m -> P m -> P (2 * m + 1)) ->
  forall m, 0 <= m -> P m.
Proof.
  intros H0 Hd Hs [|m|m] Hm; [done| |lia]. clear Hm. induction m as [m IH|m IH|].
  - apply (Hs (Zpos m)); [lia|done].
  - apply (Hd (Zpos m)); [lia|done].
  - by apply (Hs 0).
Qed.

Lemma prem_small m : 0 <= m < 2 ^ 32 -> prem m = m.
Proof.
  intros [Hm Hlt]. revert Hlt. pattern m. apply binary_ind; try done; intros k Hk IH Hlt.
  - rewrite prem_double, IH, xtime_eq by lia. by rewrite (proj2 (Z.leb_gt _ _)) by lia.
  - rewrite prem_succ_double, IH, xtime_eq by lia. rewrite (proj2 (Z.leb_gt _ _)) by lia.
    rewrite <- Z.add_nocarry_lxor; [done|]. change 1 with (Z.ones 1). rewrite Z.land_ones by lia.
    change (2 ^ 1) with 2. rewrite Z.mul_comm. apply Z.mod_mul. lia.
Qed.

Lemma prem_step m x : 0 <= m -> x = 0 \/ x = 1 ->
  prem (Z.lxor (2 * m) x) = Z.lxor (xtime (prem m)) x.
Proof.
  intros Hm [-> | ->].
  - by rewrite !Z.lxor_0_r, prem_double.
  - rewrite <- prem_succ_double by done. f_equal. symmetry. apply Z.add_nocarry_lxor.
    change 1 with (Z.ones 1). rewrite Z.land_ones by lia. change (2 ^ 1) with 2.
    rewrite Z.mul_comm. apply Z.mod_mul. lia.
Qed.

Lemma low_bit b : 0 <= b -> exists m x, b = Z.lxor (2 * m) x /\ 0 <= m /\ (x = 0 \/ x = 1).
Proof.
  intros Hb. exists (b / 2), (b mod 2). pose proof (Z.mod_pos_bound b 2). split; [|split; [apply Z.div_pos; lia|lia]].
  rewrite <- Z.add_nocarry_lxor; [apply Z.div_mod; lia|].
  assert (b mod 2 = 0 \/ b mod 2 = 1) as [-> | ->] by lia; [apply Z.land_0_r|].
  change 1 with (Z.ones 1). rewrite Z.land_ones by lia. change (2 ^ 1) with 2.
  rewrite Z.mul_comm. apply Z.mod_mul. lia.
Qed.

Lemma lxor_pairs a b x y :
  Z.lxor (Z.lxor (2 * a) x) (Z.lxor (2 * b) y) = Z.lxor (2 * Z.lxor a b) (Z.lxor x y).
Proof.
  rewrite !(Z.mul_comm 2). change 2 with (2 ^ 1). rewrite <- !Z.shiftl_mul_pow2 by lia.
  rewrite Z.shiftl_lxor, !Z.lxor_assoc. f_equal. rewrite <- !Z.lxor_assoc. f_equal. apply Z.lxor_comm.
Qed.

Lemma bits_lxor x y : x = 0 \/ x = 1 -> y = 0 \/ y = 1 -> Z.lxor x y = 0 \/ Z.lxor x y = 1.
Proof. intros [-> | ->] [-> | ->]; auto. Qed.

Lemma prem_lxor a b : 0 <= a -> 0 <= b -> prem (Z.lxor a b) = Z.lxor (prem a) (prem b).
Proof.
  assert (forall n a b, 0 <= a < 2 ^ Z.of_nat n -> 0 <= b < 2 ^ Z.of_nat n ->
    prem (Z.lxor a b) = Z.lxor (prem a) (prem b)) as H.
  { induction n as [|n IH]; intros c d Hc Hd.
    - change (2 ^ Z.of_nat 0) with 1 in *. by replace c with 0 by lia; replace d with 0 by lia.
    - rewrite Nat2Z.inj_succ, Z.pow_succ_r in Hc, Hd by lia.
      assert (forall e, 0 <= e < 2 * 2 ^ Z.of_nat n -> exists m x, e = Z.lxor (2 * m) x /\
        0 <= m < 2 ^ Z.of_nat n /\ (x = 0 \/ x = 1)) as Hsplit.
      { intros e He. destruct (low_bit e) as (m & x & E & Hm & Hx); [lia|].
        exists m, x. split; [done|]. split; [|done]. split; [done|].
        assert (Z.lxor (2 * m) x = 2 * m + x) as E2.
        { symmetry. apply Z.add_nocarry_lxor. destruct Hx as [-> | ->]; [apply Z.land_0_r|].
          change 1 with (Z.ones 1). rewrite Z.land_ones by lia. change (2 ^ 1) with 2.
          rewrite Z.mul_comm. apply Z.mod_mul. lia. }
        lia. }
      destruct (Hsplit c Hc) as (m & x & -> & Hm & Hx). destruct (Hsplit d Hd) as (k & y & -> & Hk & Hy).
      rewrite lxor_pairs, prem_step by first [by apply bits_lxor | apply Z.lxor_nonneg; lia].
      rewrite IH, xtime_lxor, !prem_step by (done || lia).
      rewrite !Z.lxor_assoc. f_equal. rewrite <- !Z.lxor_assoc. f_equal. apply Z.lxor_comm. }
  intros Ha Hb. apply (H (Z.to_nat (a + b))); (split; [lia|]);
    (apply Z.le_lt_trans with (a + b); [lia|]); rewrite Z2Nat.id by lia; apply Z.pow_gt_lin_r; lia.
Qed.

Lemma prem_shiftl m k : 0 <= m -> prem (Z.shiftl m (Z.of_nat k)) = Nat.iter k xtime (prem m).
Proof.
  intros Hm. induction k as [|k IH]; [by rewrite Z.shiftl_0_r|].
  rewrite Nat.iter_succ, <- IH, <- prem_double by (by apply Z.shiftl_nonneg).
  f_equal. rewrite !Z.shiftl_mul_pow2, Nat2Z.inj_succ, Z.pow_succ_r by lia. lia.
Qed.

Lemma G_shiftl_nonneg k : 0 <= Z.shiftl G k.
Proof. apply Z.shiftl_nonneg. unfold G. lia. Qed.

Lemma multiple_nonneg m : multiple m -> 0 <= m.
Proof. induction 1 as [|k m _ _ IH]; [done|]. pose proof (G_shiftl_nonneg k). apply Z.lxor_nonneg. lia. Qed.

Lemma multiple_prem m : multiple m -> prem m = 0.
Proof.
  induction 1 as [|k m Hk Hm IH]; [done|]. rewrite prem_lxor, IH by first [by apply multiple_nonneg | apply G_shiftl_nonneg].
  rewrite Z.lxor_0_l. rewrite <- (Z2Nat.id k) by done. rewrite prem_shiftl by (unfold G; lia).
  change (prem G) with 0. induction (Z.to_nat k) as [|j IHj]; [done|]. by rewrite Nat.iter_succ, IHj.
Qed.

Lemma multiple_double m : multiple m -> multiple (2 * m).
Proof.
  induction 1 as [|k m Hk Hm IH]; [apply multiple_0|].
  replace (2 * Z.lxor m (Z.shiftl G k)) with (Z.lxor (2 * m) (Z.shiftl G (k + 1))).
  - apply multiple_step; [lia|done].
  - rewrite Z.mul_comm, (Z.mul_comm 2). change 2 with (2 ^ 1).
    rewrite <- !Z.shiftl_mul_pow2, Z.shiftl_lxor, Z.shiftl_shiftl by lia. done.
Qed.

Lemma lxor_double a b : Z.lxor (2 * a) (2 * b) = 2 * Z.lxor a b.
Proof. pose proof (lxor_pairs a b 0 0) as H. by rewrite !Z.lxor_0_r in H. Qed.

Lemma lxor_cancel a b x g : Z.lxor (Z.lxor a x) (Z.lxor (Z.lxor b g) x) = Z.lxor (Z.lxor a b) g.
Proof.
  apply Z.bits_inj'. intros i Hi. rewrite !Z.lxor_spec.
  generalize (Z.testbit a i) (Z.testbit b i) (Z.testbit x i) (Z.testbit g i). by intros [] [] [] [].
Qed.

(** The remainder is congruent to the polynomial, and nothing else below x^32 is. *)
Lemma prem_congruent m : 0 <= m -> multiple (Z.lxor m (prem m)).
Proof.
  assert (forall m x, 0 <= m -> x = 0 \/ x = 1 -> multiple (Z.lxor m (prem m)) ->
    multiple (Z.lxor (Z.lxor (2 * m) x) (prem (Z.lxor (2 * m) x)))) as H.
  { intros k x Hk Hx IH. rewrite prem_step by done. unfold xtime.
    rewrite Z.shiftl_mul_pow2, (Z.mul_comm (prem k)) by lia. change (2 ^ 1) with 2.
    apply multiple_double in IH. destruct (Z.testbit _ _).
    - rewrite lxor_cancel, lxor_double, <- (Z.shiftl_0_r G). by apply multiple_step.
    - by rewrite lxor_pairs, Z.lxor_nilpotent, Z.lxor_0_r. }
  apply (binary_ind (fun m => multiple (Z.lxor m (prem m)))); [apply multiple_0|..]; intros k Hk IH.
  - rewrite <- (Z.lxor_0_r (2 * k)). apply (H k 0); auto.
  - replace (2 * k + 1) with (Z.lxor (2 * k) 1); [apply (H k 1); auto|].
    destruct (low_bit (2 * k + 1)) as (j & x & E & Hj & Hx); [lia|].
    symmetry. apply Z.add_nocarry_lxor. change 1 with (Z.ones 1). rewrite Z.land_ones by lia.
    change (2 ^ 1) with 2. rewrite Z.mul_comm. apply Z.mod_mul. lia.
Qed.

Lemma prem_unique m r : 0 <= m -> 0 <= r < 2 ^ 32 -> multiple (Z.lxor m r) -> r = prem m.
Proof.
  intros Hm Hr H%multiple_prem. rewrite prem_lxor, (prem_small r) in H by lia.
  symmetry. by apply Z.lxor_eq.
Qed.

(** ** The loops *)

Lemma crc_bits k r : 0 <= r < 2 ^ 32 -> Nat.iter k crc_bit r = Nat.iter k xtime r.
Proof.
  intros Hr. induction k as [|k IH]; [done|]. rewrite !Nat.iter_succ, IH.
  apply crc_bit_xtime, xtimes_range, Hr.
Qed.

Lemma shift24 b : 0 <= b < 256 -> 0 <= Z.shiftl b 24 < 2 ^ 32.
Proof. intros Hb. rewrite Z.shiftl_mul_pow2 by lia. lia. Qed.

Lemma crc_octet_prem m b : 0 <= m -> 0 <= b < 256 ->
  crc_octet (prem (Z.shiftl m 32)) b = prem (Z.shiftl (Z.lxor (Z.shiftl m 8) b) 32).
Proof.
  intros Hm Hb. pose proof (shift24 b Hb). pose proof (prem_range (Z.shiftl m 32)).
  unfold crc_octet, uwrap. rewrite (Z.mod_small (Z.shiftl b 24)) by done.
  rewrite crc_bits by (by apply lxor_lt).
  assert (Z.shiftl (Z.lxor (Z.shiftl m 8) b) 32 =
    Z.shiftl (Z.lxor (Z.shiftl m 32) (Z.shiftl b 24)) (Z.of_nat 8)) as ->.
  { rewrite !Z.shiftl_lxor, !Z.shiftl_shiftl by lia. done. }
  rewrite prem_shiftl by (apply Z.lxor_nonneg; rewrite !Z.shiftl_nonneg; lia).
  rewrite prem_lxor, (prem_small (Z.shiftl b 24)) by first [done | apply Z.shiftl_nonneg; lia | apply Z.lxor_nonneg; rewrite !Z.shiftl_nonneg; lia]. done.
Qed.

Lemma poly_step_nonneg m l : 0 <= m -> Forall (fun b => 0 <= b < 256) l ->
  0 <= foldl (fun m b => Z.lxor (Z.shiftl m 8) b) m l.
Proof.
  intros Hm Hl. revert m Hm. induction Hl as [|b l Hb Hl IH]; intros m Hm; [done|].
  simpl. apply IH, Z.lxor_nonneg. rewrite Z.shiftl_nonneg. lia.
Qed.

Lemma crc_octets l : forall m, 0 <= m -> Forall (fun b => 0 <= b < 256) l ->
  foldl crc_octet (prem (Z.shiftl m 32)) l =
    prem (Z.shiftl (foldl (fun m b => Z.lxor (Z.shiftl m 8) b) m l) 32).
Proof.
  induction l as [|b l IH]; intros m Hm Hl; [done|]. apply Forall_cons in Hl as [Hb Hl].
  simpl. rewrite crc_octet_prem by done. apply IH; [|done].
  apply Z.lxor_nonneg. rewrite Z.shiftl_nonneg. lia.
Qed.

Lemma crc_data_fold data : forall crc,
  crc_data data crc = foldl crc_octet crc (code <$> String.list_ascii_of_string data).
Proof. induction data as [|b data IH]; intros crc; [done|]. apply IH. Qed.

Lemma crc_length_fold fuel : forall n crc, 0 <= n < 256 ^ Z.of_nat fuel ->
  crc_length (S fuel) n crc = Some (foldl crc_octet crc (octets fuel n)).
Proof.
  induction fuel as [|fuel IH]; intros n crc Hn.
  - change (256 ^ Z.of_nat 0) with 1 in Hn. by replace n with 0 by lia.
  - remember (S fuel) as k. cbn [crc_length]. subst k. cbn [octets].
    destruct (Z.eqb_spec n 0); [done|]. rewrite Nat2Z.inj_succ, Z.pow_succ_r in Hn by lia.
    rewrite Z.shiftr_div_pow2 by lia. change (2 ^ 8) with 256.
    rewrite IH by (Z.div_mod_to_equations; lia). simpl. do 2 f_equal.
    change 0xFF with (Z.ones 8). by rewrite Z.land_ones by lia.
Qed.

Lemma octets_range fuel : forall n, 0 <= n -> Forall (fun b => 0 <= b < 256) (octets fuel n).
Proof.
  induction fuel as [|fuel IH]; intros n Hn; cbn [octets]; [constructor|].
  destruct (n =? 0); constructor; [apply Z.mod_pos_bound; lia|]. apply IH, Z.div_pos; lia.
Qed.

Lemma codes_range data : Forall (fun b => 0 <= b < 256) (code <$> String.list_ascii_of_string data).
Proof. apply Forall_fmap, Forall_true. intros c. apply code_bound. Qed.

Lemma message_nonneg data : 0 <= message data.
Proof.
  apply poly_step_nonneg; [done|]. apply Forall_app. split; [apply codes_range|apply octets_range; lia].
Qed.

Lemma posixCRC_prem data : Z.of_nat (String.length data) < 2 ^ 63 ->
  posixCRC data = Some (Z.lxor (prem (Z.shiftl (message data) 32)) 0xFFFFFFFF).
Proof.
  intros Hl. unfold posixCRC. rewrite crc_length_fold by (simpl; lia). cbn [mbind option_bind].
  rewrite crc_data_fold, <- foldl_app. do 2 f_equal.
  apply (crc_octets _ 0); [done|]. apply Forall_app. split; [apply codes_range|apply octets_range; lia].
Qed.

(** ** Bursts *)

Lemma poly_snoc l b : poly (l ++ [b]) = Z.lxor (Z.shiftl (poly l) 8) b.
Proof. unfold poly. by rewrite foldl_app. Qed.

Lemma poly_app l k : poly (l ++ k) = Z.lxor (Z.shiftl (poly l) (Z.of_nat (8 * length k))) (poly k).
Proof.
  induction k as [|b k IH] using rev_ind; [by rewrite app_nil_r, Z.shiftl_0_r, Z.lxor_0_r|].
  rewrite app_assoc, !poly_snoc, IH, Z.shiftl_lxor, Z.shiftl_shiftl, Z.lxor_assoc by lia.
  do 2 f_equal. rewrite length_app. simpl length. lia.
Qed.

Lemma poly_nonneg l : Forall (fun b => 0 <= b < 256) l -> 0 <= poly l.
Proof. by apply poly_step_nonneg. Qed.

Lemma shiftl8_add p b : 0 <= b < 256 -> Z.lxor (Z.shiftl p 8) b = p * 256 + b.
Proof.
  intros Hb. assert (Z.land (Z.shiftl p 8) b = 0) as H0.
  { apply Z.bits_inj'. intros i Hi. rewrite Z.land_spec, Z.bits_0. destruct (Z.lt_ge_cases i 8).
    - by rewrite Z.shiftl_spec_low by lia.
    - rewrite andb_comm, <- (Z.mod_small b (2 ^ 8)) by lia. by rewrite Z.mod_pow2_bits_high by lia. }
  apply Z.add_nocarry_lxor in H0. rewrite <- H0. by rewrite Z.shiftl_mul_pow2 by lia.
Qed.

Lemma poly_bound l : Forall (fun b => 0 <= b < 256) l -> poly l < 2 ^ Z.of_nat (8 * length l).
Proof.
  induction l as [|b l IH] using rev_ind; intros Hl; [done|].
  apply Forall_app in Hl as [Hl Hb]. apply Forall_cons in Hb as [Hb _]. specialize (IH Hl).
  rewrite poly_snoc, shiftl8_add by done. rewrite length_app. simpl length.
  replace (Z.of_nat (8 * (length l + 1))) with (Z.of_nat (8 * length l) + 8) by lia.
  rewrite Z.pow_add_r by lia. change (2 ^ 8) with 256. lia.
Qed.

Lemma poly_inj l : forall k, length l = length k -> Forall (fun b => 0 <= b < 256) l ->
  Forall (fun b => 0 <= b < 256) k -> poly l = poly k -> l = k.
Proof.
  induction l as [|b l IH] using rev_ind; intros k Hlen Hl Hk E.
  - by destruct k.
  - induction k as [|c k _] using rev_ind; [rewrite length_app in Hlen; simpl in Hlen; lia|].
    rewrite !length_app in Hlen. simpl in Hlen.
    apply Forall_app in Hl as [Hl Hb]. apply Forall_cons in Hb as [Hb _].
    apply Forall_app in Hk as [Hk Hc]. apply Forall_cons in Hc as [Hc _].
    rewrite !poly_snoc, !shiftl8_add in E by done.
    rewrite (IH k) by (done || lia). f_equal. f_equal. lia.
Qed.

Lemma message_burst p x y s : String.length x = String.length y ->
  exists k, Z.lxor (message (p +:+ x +:+ s)) (message (p +:+ y +:+ s)) =
    Z.shiftl (Z.lxor (poly (codes x)) (poly (codes y))) (Z.of_nat k).
Proof.
  intros Hl. unfold message. fold (codes (p +:+ x +:+ s)) (codes (p +:+ y +:+ s)).
  rewrite !codes_app, !slength_app, Hl, <- !app_assoc.
  set (t := codes s ++ octets 8 _). exists (8 * length t)%nat.
  rewrite !poly_app, !length_app, !codes_length, Hl, !Z.shiftl_lxor.
  apply Z.bits_inj'. intros i Hi. rewrite !Z.lxor_spec.
  generalize (Z.testbit (Z.shiftl (poly (codes p)) (Z.of_nat (8 * (String.length y + length t)))) i)
    (Z.testbit (Z.shiftl (poly (codes x)) (Z.of_nat (8 * length t))) i)
    (Z.testbit (Z.shiftl (poly (codes y)) (Z.of_nat (8 * length t))) i) (Z.testbit (poly t) i).
  by intros [] [] [] [].
Qed.

(** * Properties *)

(** C22: [posixCRC] is the checksum that POSIX defines: it always returns, and its complement is
    the only polynomial of degree below 32 congruent, modulo the generator, to the message (the
    bytes, then the octets of their number from the lowest up to the last that is not zero) times
    x^32. *)
Theorem posixCRC_correct data : Z.of_nat (String.length data) < 2 ^ 63 ->
  exists c, posixCRC data = Some c /\ 0 <= c < 2 ^ 32 /\
    multiple (Z.lxor (Z.shiftl (message data) 32) (Z.lxor c 0xFFFFFFFF)) /\
    forall r, 0 <= r < 2 ^ 32 -> multiple (Z.lxor (Z.shiftl (message data) 32) r) ->
      r = Z.lxor c 0xFFFFFFFF.
Proof.
  intros Hl. rewrite posixCRC_prem by done. pose proof (message_nonneg data) as Hm.
  assert (0 <= Z.shiftl (message data) 32) as Hs by (by apply Z.shiftl_nonneg).
  pose proof (prem_range (Z.shiftl (message data) 32)) as Hr.
  set (m := Z.shiftl (message data) 32) in *. exists (Z.lxor (prem m) 0xFFFFFFFF).
  assert (Z.lxor (Z.lxor (prem m) 0xFFFFFFFF) 0xFFFFFFFF = prem m) as E
    by (by rewrite Z.lxor_assoc, Z.lxor_nilpotent, Z.lxor_0_r).
  split; [done|]. split; [by apply lxor_lt|]. rewrite E. split; [by apply prem_congruent|].
  intros r Hr' H. by apply prem_unique.
Qed.

Lemma posixCRC_correct_witness : exists c, posixCRC "123456789" = Some c /\ 0 <= c < 2 ^ 32 /\
    multiple (Z.lxor (Z.shiftl (message "123456789") 32) (Z.lxor c 0xFFFFFFFF)) /\
    forall r, 0 <= r < 2 ^ 32 -> multiple (Z.lxor (Z.shiftl (message "123456789") 32) r) ->
      r = Z.lxor c 0xFFFFFFFF.
Proof. apply (posixCRC_correct "123456789"). simpl. lia. Defined.

Example posixCRC_check : posixCRC "123456789" = Some 930766865.
Proof. vm_compute. reflexivity. Qed.

(** [cksum] detects every change of up to four bytes in a row. *)
Theorem posixCRC_detects p x y s :
  String.length x = String.length y -> (String.length x <= 4)%nat -> x <> y ->
  Z.of_nat (String.length (p +:+ x +:+ s)) < 2 ^ 63 ->
  posixCRC (p +:+ x +:+ s) <> posixCRC (p +:+ y +:+ s).
Proof.
  intros Hl H4 Hne Hlen E. rewrite !posixCRC_prem in E by (rewrite ?slength_app in *; lia).
  injection E as E. apply (f_equal (fun z => Z.lxor z 0xFFFFFFFF)) in E.
  rewrite !Z.lxor_assoc, Z.lxor_nilpotent, !Z.lxor_0_r in E.
  pose proof (message_nonneg (p +:+ x +:+ s)) as M1. pose proof (message_nonneg (p +:+ y +:+ s)) as M2.
  apply Z.lxor_eq_0_iff in E. rewrite <- prem_lxor in E by (by apply Z.shiftl_nonneg).
  rewrite <- Z.shiftl_lxor in E. destruct (message_burst p x y s Hl) as [k Hk].
  rewrite Hk, Z.shiftl_shiftl in E by lia.
  pose proof (poly_nonneg _ (codes_range x)) as X0. pose proof (poly_nonneg _ (codes_range y)) as Y0.
  pose proof (poly_bound _ (codes_range x)) as X1. pose proof (poly_bound _ (codes_range y)) as Y1.
  fold (codes x) in *. fold (codes y) in *. rewrite codes_length in X1, Y1.
  assert (forall n, (n <= 4)%nat -> 2 ^ Z.of_nat (8 * n) <= 2 ^ 32) as Hpow
    by (intros n Hn; apply Z.pow_le_mono_r; lia).
  pose proof (Hpow _ H4) as HX. pose proof (Hpow (String.length y) ltac:(lia)) as HY.
  assert (0 <= Z.lxor (poly (codes x)) (poly (codes y)) < 2 ^ 32) as He by (apply lxor_lt; lia).
  replace (Z.of_nat k + 32) with (Z.of_nat (k + 32)) in E by lia.
  rewrite prem_shiftl, prem_small in E by (lia || done).
  apply xtimes_zero in E; [|done]. rewrite Z.lxor_eq_0_iff in E.
  apply Hne, codes_inj, poly_inj; [by rewrite !codes_length|apply codes_range|apply codes_range|done].
Qed.

Lemma posixCRC_detects_witness : posixCRC ("ab" +:+ "XYZ" +:+ "c") <> posixCRC ("ab" +:+ "XZZ" +:+ "c").
Proof. apply (posixCRC_detects "ab" "XYZ" "XZZ" "c"); [reflexivity|simpl; lia|discriminate|reflexivity]. Defined.

(** The checksum of [sum -s] should add the upper half of the total to the lower half; the code
    drops it. *)
Example sumSysV_drops_carry :
  fst (sumSysV (sconcat (replicate 258 (String "255" "")))) = 254 /\
  (258 * 255) mod 65536 + (258 * 255) / 65536 = 255.
Proof. vm_compute. done. Qed.

Lemma sumBSD_range data : 0 <= fst (sumBSD data) < 2 ^ 16.
Proof.
  assert (forall s sum, 0 <= sum < 2 ^ 16 -> 0 <= bsd_loop s sum < 2 ^ 16) as H.
  { induction s as [|b s IH]; intros sum Hs; [done|]. cbn [bsd_loop]. apply IH.
    change 0xFFFF with (Z.ones 16). rewrite Z.land_ones by lia. apply Z.mod_pos_bound. lia. }
  unfold sumBSD. destruct (_ =? _); [done|]. apply H. done.
Qed.
