(* ===== verification/Rat.v ===== *)
(** Rationals of math/big and their truncation: pkg/common/rat.go.

    A [*big.Rat] is a rational in lowest terms with a positive denominator: a [Q] that [Qred]
    leaves as it is.  [Num] and [Denom] are its numerator and denominator. *)

From Stdlib Require Export QArith Qabs Qpower.
From Stdlib Require Import Lqa Lia.
From Stdlib Require Qcanon.
From S2P Require Import Prelude GoStd.

Local Open Scope Z_scope.

Definition Num (r : Q) : Z := Qnum r.
Definition Denom (r : Q) : Z := Zpos (Qden r).
Definition Sign (r : Q) : Z := Z.sgn (Qnum r).
Definition IsInt (r : Q) : bool := Denom r =? 1.

(** [SetFrac(n, d)] for a positive [d]. *)
Definition SetFrac (n d : Z) : Q := Qred (n # Z.to_pos d).
Definition SetInt (n : Z) : Q := n # 1.

Definition ratAdd (a b : Q) : Q := Qred (a + b).
Definition ratSub (a b : Q) : Q := Qred (a - b).
Definition ratMul (a b : Q) : Q := Qred (a * b).
(** [Quo] for a divisor that is not zero. *)
Definition ratQuo (a b : Q) : Q := Qred (a / b).
Definition ratCmp (a b : Q) : comparison := (a ?= b)%Q.

(** [big.Int.Exp(10, e, nil)]: 1 for an exponent that is not positive. *)
Definition pow10 (e : Z) : Z := if e <=? 0 then 1 else 10 ^ e.

(** [big.Int.Int64]: the low 64 bits when the integer has no [int64] value. *)
Definition RatToInt64 (r : Q) : Z := wrap 64 (Z.quot (Num r) (Denom r)).

Definition RatTruncate (r : Q) (scale : Z) : Q :=
  if Sign r =? 0 then 0%Q
  else
    let scale := if scale <? 0 then 0 else scale in
    let factor := pow10 scale in
    let scaled := ratMul r (SetInt factor) in
    let intPart := Z.quot (Num scaled) (Denom scaled) in
    SetFrac intPart factor.

(** * Decimals *)

(** In lowest terms. *)
Definition reduced (r : Q) : Prop := Qred r = r.

(** [n] units of the [d]-th decimal. *)
Definition dec (n d : Z) : Q := n # Z.to_pos (10 ^ d).

(** A number with at most [d] decimals. *)
Definition decimal (d : Z) (r : Q) : Prop := exists n, (r == dec n d)%Q.

(** [x] cut after the [d]-th decimal. *)
Definition cut (d : Z) (x r : Q) : Prop :=
  exists n, (r == dec n d)%Q /\ (Qabs (x - r) < dec 1 d)%Q /\ (0 <= r * x)%Q /\ (Qabs r <= Qabs x)%Q.

Lemma pow10_eq e : 0 <= e -> pow10 e = 10 ^ e.
Proof. intros. unfold pow10. case_match; [|done]. by replace e with 0 by lia. Qed.

Lemma pow10_pos e : 0 < pow10 e.
Proof. unfold pow10. case_match; [lia|]. apply Z.pow_pos_nonneg; lia. Qed.

Lemma ten_pos d : 0 <= d -> 0 < 10 ^ d.
Proof. intros. apply Z.pow_pos_nonneg; lia. Qed.

Lemma reduced_Qred r : reduced (Qred r).
Proof. apply Qred_complete, Qred_correct. Qed.

Lemma reduced_int n : reduced (n # 1).
Proof.
  apply Qcanon.Qred_identity. simpl. apply Z.gcd_1_r.
Qed.

Lemma reduced_eq a b : reduced a -> reduced b -> (a == b)%Q -> a = b.
Proof. intros Ha Hb E. rewrite <- Ha, <- Hb. by apply Qred_complete. Qed.

#[export] Hint Resolve reduced_Qred reduced_int : goposix.

Lemma dec_eq n d : 0 <= d -> (dec n d == inject_Z n / inject_Z (10 ^ d))%Q.
Proof. intros. unfold dec. rewrite Qmake_Qdiv, Z2Pos.id by (by apply ten_pos). reflexivity. Qed.

Lemma dec_eqb n d m e : 0 <= d -> 0 <= e -> (dec n d == dec m e)%Q <-> n * 10 ^ e = m * 10 ^ d.
Proof. intros. unfold dec, Qeq. simpl. by rewrite !Z2Pos.id by (by apply ten_pos). Qed.

Lemma dec_shift n d k : 0 <= d -> 0 <= k -> (dec n d == dec (n * 10 ^ k) (d + k))%Q.
Proof. intros. apply dec_eqb; [lia..|]. rewrite Z.pow_add_r by lia. ring. Qed.

Lemma decimal_weaken d e r : 0 <= d <= e -> decimal d r -> decimal e r.
Proof.
  intros Hd [n E]. exists (n * 10 ^ (e - d)). rewrite E, (dec_shift n d (e - d)) by lia.
  by replace (d + (e - d)) with e by lia.
Qed.

Lemma dec_add n m d : 0 <= d -> (dec n d + dec m d == dec (n + m) d)%Q.
Proof. intros. rewrite !dec_eq, inject_Z_plus by done. field. change 0%Q with (inject_Z 0). rewrite inject_Z_injective. pose proof (ten_pos d). lia. Qed.

Lemma dec_opp n d : (- dec n d == dec (- n) d)%Q.
Proof. reflexivity. Qed.

Lemma dec_mul n m d e : 0 <= d -> 0 <= e -> (dec n d * dec m e == dec (n * m) (d + e))%Q.
Proof.
  intros. unfold dec, Qeq, Qmult. simpl. rewrite Pos2Z.inj_mul, !Z2Pos.id by (apply ten_pos; lia).
  rewrite Z.pow_add_r by lia. ring.
Qed.

Lemma decimal_add d a b : 0 <= d -> decimal d a -> decimal d b -> decimal d (a + b)%Q.
Proof. intros Hd [n En] [m Em]. exists (n + m). by rewrite En, Em, dec_add. Qed.

Lemma decimal_opp d a : decimal d a -> decimal d (- a)%Q.
Proof. intros [n En]. exists (- n). by rewrite En, dec_opp. Qed.

Lemma decimal_mul d e a b : 0 <= d -> 0 <= e -> decimal d a -> decimal e b -> decimal (d + e) (a * b)%Q.
Proof. intros Hd He [n En] [m Em]. exists (n * m). by rewrite En, Em, dec_mul. Qed.

#[export] Instance decimal_Proper d : Proper (Qeq ==> iff) (decimal d).
Proof. intros a b E. split; intros [n H]; exists n; [by rewrite <- E|by rewrite E]. Qed.

#[export] Instance cut_Proper d : Proper (Qeq ==> Qeq ==> iff) (cut d).
Proof.
  intros a b E r t E'. unfold cut. split; intros (n & H1 & H2 & H3 & H4); exists n.
  - by rewrite <- E, <- E'.
  - by rewrite E, E'.
Qed.

Lemma decimal_int d n : 0 <= d -> decimal d (n # 1).
Proof. intros. exists (n * 10 ^ d). rewrite <- (dec_shift n 0 d) by lia. reflexivity. Qed.

(** * Truncation *)

(** The integer part. *)
Definition qtrunc (x : Q) : Z := Z.quot (Qnum x) (Zpos (Qden x)).

#[export] Instance qtrunc_Proper : Proper (Qeq ==> eq) qtrunc.
Proof.
  intros [a b] [c d] E. unfold qtrunc, Qeq in *. simpl in *.
  rewrite <- (Z.quot_mul_cancel_r a (Zpos b) (Zpos d)) by lia.
  rewrite <- (Z.quot_mul_cancel_r c (Zpos d) (Zpos b)) by lia. rewrite E. f_equal. lia.
Qed.

Lemma qtrunc_spec x :
  (Qabs (x - inject_Z (qtrunc x)) < 1)%Q /\ (0 <= inject_Z (qtrunc x) * x)%Q /\
  (Qabs (inject_Z (qtrunc x)) <= Qabs x)%Q.
Proof.
  destruct x as [p q]. unfold qtrunc. simpl. set (n := Z.quot p (Zpos q)).
  pose proof (Z.quot_rem p (Zpos q) ltac:(lia)) as E. fold n in E.
  pose proof (Z.rem_bound_abs p (Zpos q) ltac:(lia)) as B.
  assert (0 <= n * p) as Hs.
  { pose proof (Z.rem_sign_mul p (Zpos q) ltac:(lia)).
    destruct (Z.le_gt_cases 0 p).
    - apply Z.mul_nonneg_nonneg; [by apply Z.quot_pos; lia|done].
    - apply Z.mul_nonpos_nonpos; [|lia]. unfold n. rewrite <- (Z.opp_involutive p), Z.quot_opp_l by lia.
      pose proof (Z.quot_pos (- p) (Zpos q)). lia. }
  split; [|split].
  - unfold Qlt, Qabs, Qminus, Qopp, Qplus, inject_Z. simpl. rewrite Pos.mul_1_r. lia.
  - unfold Qle, Qmult, inject_Z. simpl. by rewrite Z.mul_1_r.
  - unfold Qle, Qabs, inject_Z. simpl. rewrite Z.mul_1_r. unfold n.
    rewrite <- Z.quot_abs by lia. rewrite Z.mul_comm. apply Z.mul_quot_le; lia.
Qed.

Lemma cut_div d x : 0 <= d -> cut d x (dec (qtrunc (x * inject_Z (10 ^ d))) d).
Proof.
  intros Hd. set (n := qtrunc _). exists n. split; [reflexivity|].
  pose proof (qtrunc_spec (x * inject_Z (10 ^ d))) as (H1 & H2 & H3). fold n in H1, H2, H3.
  pose proof (ten_pos d Hd) as HF. rewrite !dec_eq by done. set (F := inject_Z (10 ^ d)) in *.
  assert (0 < F)%Q as Fpos by (unfold F; rewrite <- (Zlt_Qlt 0); done).
  assert (~ F == 0)%Q as FN by (intros E; symmetry in E; revert E; by apply Qlt_not_eq).
  assert (x - inject_Z n / F == (x * F - inject_Z n) * / F)%Q as -> by (field; done).
  assert (Qabs (/ F) == / F)%Q as EF by (apply Qabs_pos, Qlt_le_weak, Qinv_lt_0_compat; done).
  assert (0 < / F)%Q as IF by (by apply Qinv_lt_0_compat).
  unfold Qdiv. rewrite !Qabs_Qmult, EF. split; [|split].
  - apply Qmult_lt_compat_r; done.
  - assert (inject_Z n * / F * x == inject_Z n * (x * F) * / F * / F)%Q as -> by (field; done).
    apply Qmult_le_0_compat; [apply Qmult_le_0_compat; [done|]|]; by apply Qlt_le_weak.
  - rewrite Qabs_Qmult in H3. rewrite (Qabs_pos F) in H3 by (by apply Qlt_le_weak).
    apply (Qmult_le_compat_r _ _ (/ F)) in H3; [|by apply Qlt_le_weak].
    by rewrite <- Qmult_assoc, Qmult_inv_r, Qmult_1_r in H3 by done.
Qed.

Lemma RatTruncate_eq r s :
  (RatTruncate r s == dec (qtrunc (r * inject_Z (10 ^ Z.max 0 s))) (Z.max 0 s))%Q.
Proof.
  unfold RatTruncate, Sign. destruct (Z.eqb_spec (Z.sgn (Qnum r)) 0) as [E|E].
  - assert (r == 0)%Q as -> by (unfold Qeq; simpl; lia). rewrite Qmult_0_l. reflexivity.
  - replace (if s <? 0 then 0 else s) with (Z.max 0 s) by (destruct (Z.ltb_spec s 0); lia).
    rewrite pow10_eq by lia. unfold SetFrac. rewrite Qred_correct. unfold dec.
    change (Num ?x ÷ Denom ?x) with (qtrunc x). unfold ratMul. by rewrite Qred_correct.
Qed.

Lemma RatTruncate_cut r s : cut (Z.max 0 s) r (RatTruncate r s).
Proof. rewrite RatTruncate_eq. apply cut_div. lia. Qed.

Lemma RatTruncate_cut_eq x r s : 0 <= s -> (r == x)%Q -> cut s x (RatTruncate r s).
Proof. intros Hs <-. pose proof (RatTruncate_cut r s) as H. by rewrite Z.max_r in H. Qed.

Lemma RatTruncate_decimal r s : decimal (Z.max 0 s) (RatTruncate r s).
Proof. rewrite RatTruncate_eq. eexists. reflexivity. Qed.

Lemma RatTruncate_reduced r s : reduced (RatTruncate r s).
Proof. unfold RatTruncate. case_match; [done|]. apply reduced_Qred. Qed.

Lemma RatTruncate_id r s : reduced r -> decimal (Z.max 0 s) r -> RatTruncate r s = r.
Proof.
  intros Hr [n E]. apply reduced_eq; [apply RatTruncate_reduced|done|].
  rewrite RatTruncate_eq. rewrite E at 2. set (d := Z.max 0 s) in *.
  assert (r * inject_Z (10 ^ d) == inject_Z n)%Q as ->.
  { rewrite E, dec_eq by lia. field. change 0%Q with (inject_Z 0). rewrite inject_Z_injective.
    pose proof (ten_pos d). lia. }
  unfold qtrunc, inject_Z. simpl. by rewrite Z.quot_1_r.
Qed.

Lemma Sign_zero r : Sign r = 0 <-> (r == 0)%Q.
Proof. unfold Sign, Qeq. simpl. lia. Qed.

(** The rest of a division by [b] whose quotient [q] is cut at [k]. *)
Lemma cut_remainder k a b q r : ~ (b == 0)%Q -> cut k (a / b) q -> (a == q * b + r)%Q ->
  (Qabs r < Qabs b * dec 1 k)%Q /\ (0 <= r * a)%Q.
Proof.
  intros Hb (n & _ & H1 & H2 & H3) E.
  assert (r == b * (a / b - q))%Q as Er by (rewrite E at 1; field; done).
  assert (0 < Qabs b)%Q as Bp.
  { destruct (Qlt_le_dec 0 (Qabs b)) as [|H]; [done|]. apply Qabs_Qle_condition in H as [L U].
    exfalso. apply Hb. apply Qle_antisym; [done|]. revert L. by apply Qle_trans. }
  split.
  - rewrite Er, Qabs_Qmult, (Qmult_comm (Qabs b)), (Qmult_comm (Qabs b)). by apply Qmult_lt_compat_r.
  - assert (r * a == b * b * ((a / b - q) * (a / b)))%Q as -> by (rewrite Er; field; done).
    apply Qmult_le_0_compat; [nra|]. set (x := (a / b)%Q) in *.
    destruct (Qlt_le_dec x 0) as [Hx|Hx].
    + rewrite (Qabs_neg x) in H3 by lra. apply Qabs_Qle_condition in H3. nra.
    + rewrite (Qabs_pos x) in H3 by lra. apply Qabs_Qle_condition in H3. nra.
Qed.

(** * Powers by squaring *)

Lemma power_halves b e : 0 <= e -> (b ^ e == ratMul b b ^ (e / 2) * (if e mod 2 =? 1 then b else 1))%Q.
Proof.
  intros He. unfold ratMul. rewrite Qred_correct.
  pose proof (Z.div_mod e 2 ltac:(lia)) as Ed. pose proof (Z.mod_pos_bound e 2 ltac:(lia)) as Hm.
  assert (b ^ (e mod 2) == (if e mod 2 =? 1 then b else 1))%Q as <-.
  { destruct (Z.eqb_spec (e mod 2) 1) as [->|]; [simpl; ring|]. by replace (e mod 2) with 0 by lia. }
  destruct (Qeq_dec b 0) as [Hb|Hb].
  - rewrite Hb. destruct (Z.eq_dec e 0) as [->|Hn]; [reflexivity|]. rewrite Qpower_0 by done.
    destruct (Z.eq_dec (e / 2) 0) as [E|E].
    + replace (e mod 2) with 1 by lia. rewrite (Qpower_0 1) by done. ring.
    + rewrite Qmult_0_l, (Qpower_0 (e / 2)) by done. ring.
  - rewrite Qmult_power, <- !Qpower_plus by done. by replace (e / 2 + e / 2 + e mod 2) with e by lia.
Qed.

#[export] Hint Resolve RatTruncate_reduced RatTruncate_decimal : goposix.
