(* ===== verification/DcNum.v ===== *)
(** The numbers of dc: pkg/dc/dc.go.

    Reading and printing numbers, and the arithmetic of the commands.  The [int] fields are
    integers whose additions wrap around. *)

From Stdlib Require Import Zdivisibility Qpower Lqa Lia.
From S2P Require Import Prelude GoStd Rat.

Local Open Scope Z_scope.

Inductive dc_error :=
| InvalidNumber (s : string)
| DcError (text : string).

(** A value of the stack; [rat] has no meaning in a string. *)
Record dcValue := { isStr : bool; str : string; rat : Q; fracDigits : Z; negZero : bool }.

Definition number (r : Q) (fd : Z) (nz : bool) : dcValue :=
  {| isStr := false; str := ""; rat := r; fracDigits := fd; negZero := nz |}.

Definition text (s : string) : dcValue :=
  {| isStr := true; str := s; rat := 0%Q; fracDigits := 0; negZero := false |}.

(** * Reading a number *)

Definition is_blank (c : ascii) : bool := (c =c? " ") || (code c =? 9).

(** [for len(s) > 1 && s[0] == '0' && s[1] != '.'] *)
Fixpoint strip_zeros (s : string) : string :=
  match s with
  | String c ((String d _) as t) => if (c =c? "0") && negb (d =c? ".") then strip_zeros t else s
  | _ => s
  end.

(** [newNumStr] once the sign is read.  [Rat.SetString] accepts more than the digits that an
    integer has here, which is all that the interpreter passes. *)
Definition read_body (negative : bool) (s : string) : result dc_error (Q * Z) :=
  let s := strip_zeros s in
  let s := if (s =s? "") || (s =s? ".") then "0" else s in
  match Index s "." with
  | None =>
      let s := if negative : bool then "-" +:+ s else s in
      match int_SetString s with
      | None => Err (InvalidNumber s)
      | Some n => Ok (SetInt n, 0)
      end
  | Some dotIdx =>
      let intPart := str_take dotIdx s in
      let fracPart := str_drop (dotIdx + 1) s in
      let intPart := if intPart =s? "" then "0" else intPart in
      let fracPart := if fracPart =s? "" then "0" else fracPart in
      let combined := intPart +:+ fracPart in
      let combined := if negative : bool then "-" +:+ combined else combined in
      let len := Z.of_nat (String.length fracPart) in
      match int_SetString combined with
      | None => Err (InvalidNumber s)
      | Some num => Ok (SetFrac num (pow10 len), len)
      end
  end.

(** The rational of a string and the number of its decimals. *)
Definition newNumStr (s : string) : result dc_error (Q * Z) :=
  let s := TrimLeft is_blank s in
  let '(negative, s) := if HasPrefix s "_" then (true, str_drop 1 s) else (false, s) in
  let '(negative, s) := if HasPrefix s "-" then (true, str_drop 1 s) else (negative, s) in
  read_body negative s.

(** * Printing *)

(** [for rem.Sign() != 0 && fracStr.Len() < maxDigits] *)
Fixpoint frac_digits (fuel : nat) (rem den : Z) : string :=
  match fuel with
  | O => ""
  | S fuel =>
      if rem =? 0 then ""
      else
        let rem := rem * 10 in
        String (chr (48 + Z.quot rem den)) (frac_digits fuel (Z.rem rem den) den)
  end.

Definition with_point (sign : string) (intPart : Z) (fs : string) : string :=
  let intStr := FormatInt intPart in
  if intStr =s? "0" then sign +:+ "." +:+ fs else sign +:+ intStr +:+ "." +:+ fs.

Definition formatRat (r : Q) (scale : Z) (negZero : bool) : string :=
  if Sign r =? 0 then "0"
  else if IsInt r && (scale =? 0) then
    (if Sign r <? 0 then "-" else "") +:+ FormatInt (Z.abs (Num r))
  else
    let sign := if (Sign r <? 0) || ((Sign r =? 0) && negZero) then "-" else "" in
    let num := Z.abs (Num r) in
    let den := Denom r in
    let intPart := Z.quot num den in
    let rem := Z.rem num den in
    let maxDigits := wrap 64 (scale + 10) in
    let maxDigits := if maxDigits <? 200 then 200 else maxDigits in
    let fs := frac_digits (Z.to_nat maxDigits) rem den in
    if 0 <? scale then
      let fs := if scale <? Z.of_nat (String.length fs) then str_take (Z.to_nat scale) fs else fs in
      let fs := fs +:+ repeat_char "0" (Z.to_nat scale - String.length fs) in
      with_point sign intPart fs
    else
      let fs := TrimRightSet (fun c => c =c? "0") fs in
      if negb (fs =s? "") then with_point sign intPart fs else sign +:+ FormatInt intPart.

(** [dcValue.String] *)
Definition String_of (v : dcValue) : string :=
  if isStr v then str v else formatRat (rat v) (fracDigits v) (negZero v).

(** The length that the command Z computes of a number. *)
Definition digit_count (r : Q) (fd scale : Z) (negZero : bool) : Z :=
  let s := formatRat r scale negZero in
  let s := TrimPrefix s "-" in
  let s := remove_char "." s in
  let s := if 0 <? fd then s +:+ repeat_char "0" (Z.to_nat fd - String.length s) else s in
  let s := TrimLeft (fun c => c =c? "0") s in
  if s =s? "" then 1 else Z.of_nat (String.length s).

(** * Arithmetic *)

Definition isNegVal (v : dcValue) : bool :=
  if isStr v then false else (Sign (rat v) <? 0) || ((Sign (rat v) =? 0) && negZero v).

Definition is_zero (r : Q) : bool := Sign r =? 0.

Definition dc_add (a b : dcValue) : dcValue :=
  number (ratAdd (rat a) (rat b)) (Z.max (fracDigits a) (fracDigits b)) false.

Definition dc_sub (a b : dcValue) : dcValue :=
  number (ratSub (rat a) (rat b)) (Z.max (fracDigits a) (fracDigits b)) false.

Definition dc_mul (scale : Z) (a b : dcValue) : dcValue :=
  let r := ratMul (rat a) (rat b) in
  let fd := wrap 64 (fracDigits a + fracDigits b) in
  let maxScale := Z.max (Z.max scale (fracDigits a)) (fracDigits b) in
  let fd := if maxScale <? fd then maxScale else fd in
  let r := RatTruncate r fd in
  let neg := negb (eqb (isNegVal a) (isNegVal b)) in
  number r fd (neg && is_zero r).

Definition dc_div (scale : Z) (a b : dcValue) : result dc_error dcValue :=
  if is_zero (rat b) then Err (DcError "divide by zero")
  else
    let r := RatTruncate (ratQuo (rat a) (rat b)) scale in
    let neg := negb (eqb (isNegVal a) (isNegVal b)) in
    Ok (number r scale (neg && is_zero r)).

(** The remainder, with its number of decimals. *)
Definition remainder (scale : Z) (a b : dcValue) : Q * Z :=
  let q := RatTruncate (ratQuo (rat a) (rat b)) scale in
  let prod := ratMul q (rat b) in
  let r := ratSub (rat a) prod in
  let fd := Z.max (fracDigits a) (wrap 64 (scale + fracDigits b)) in
  (RatTruncate r fd, fd).

Definition dc_mod (scale : Z) (a b : dcValue) : result dc_error dcValue :=
  if is_zero (rat b) then Err (DcError "remainder by zero")
  else
    let '(r, fd) := remainder scale a b in
    Ok (number r fd (isNegVal a && is_zero r)).

(** The quotient and the remainder, in the order they are pushed. *)
Definition dc_divmod (scale : Z) (a b : dcValue) : result dc_error (dcValue * dcValue) :=
  if is_zero (rat b) then Err (DcError "divide by zero")
  else
    let q := RatTruncate (ratQuo (rat a) (rat b)) scale in
    let '(rem, remScale) := remainder scale a b in
    Ok (number q scale (negb (eqb (isNegVal a) (isNegVal b)) && is_zero q),
        number rem remScale (isNegVal a && is_zero rem)).

(** The loop of ratPowInt; 64 halvings end an [int64]. *)
Fixpoint pow_loop (fuel : nat) (r b : Q) (exp : Z) : Q :=
  match fuel with
  | O => r
  | S fuel =>
      if 0 <? exp then
        pow_loop fuel (if Z.land exp 1 =? 1 then ratMul r b else r) (ratMul b b) (Z.shiftr exp 1)
      else r
  end.

Definition ratPowInt (base : Q) (exp : Z) : Q := pow_loop 64 1%Q base exp.

Definition dc_pow (scale : Z) (a b : dcValue) : dcValue :=
  let exp := RatToInt64 (rat b) in
  let '(r, resultFrac, neg) :=
    if exp =? 0 then (1%Q, 0, false)
    else if is_zero (rat a) then (0%Q, 0, isNegVal a && negb (Z.rem exp 2 =? 0))
    else if exp <? 0 then
      let r := ratPowInt (rat a) (wrap 64 (- exp)) in
      (RatTruncate (Qred (/ r)) scale, scale,
       isNegVal a && negb (Z.rem (wrap 64 (- exp)) 2 =? 0))
    else
      let r := ratPowInt (rat a) exp in
      let fd := wrap 64 (exp * fracDigits a) in
      let maxScale := Z.max scale (fracDigits a) in
      let fd := if maxScale <? fd then maxScale else fd in
      (RatTruncate r fd, fd, isNegVal a && negb (Z.rem exp 2 =? 0)) in
  number r resultFrac (neg && is_zero r).

Definition ratSqrtNewton (a : Q) (scale : Z) : Q :=
  if Sign a =? 0 then 0%Q
  else
    let num := Num a in
    let den := Denom a in
    let scalePow := pow10 (wrap 64 (2 * (scale + 2))) in
    let prod := num * den * scalePow in
    let n := Z.sqrt prod in
    let denPow := den * pow10 (wrap 64 (scale + 2)) in
    SetFrac n denPow.

Definition dc_sqrt (scale : Z) (a : dcValue) : result dc_error dcValue :=
  if Sign (rat a) <? 0 then Err (DcError "square root of negative number")
  else
    let fd := Z.max scale (fracDigits a) in
    Ok (number (RatTruncate (ratSqrtNewton (rat a) scale) fd) fd false).

(** [big.Int.Exp(b, e, m)] for an [m] that is not zero: modulo the absolute value of [m]; for a
    negative exponent a power of the inverse, and nil when there is none. *)
Definition big_Exp (b e m : Z) : option Z :=
  let m := Z.abs m in
  if 0 <=? e then Some ((b ^ e) mod m)
  else
    let '(u, _, g) := Z.extgcd b m in
    if g =? 1 then Some ((u ^ (- e)) mod m) else None.

(** [None] is the panic on the nil result. *)
Definition ratModExpVal (base exp mod_ : Q) : option Q :=
  if Sign exp =? 0 then Some 1%Q
  else
    let b := if IsInt base then Num base else Z.quot (Num base) (Denom base) in
    let e := Z.quot (Num exp) (Denom exp) in
    let m := if IsInt mod_ then Num mod_ else Z.quot (Num mod_) (Denom mod_) in
    if m =? 0 then Some 0%Q
    else r ← big_Exp b e m; Some (SetInt r).

(** * Numbers in range *)

(** A number is in lowest terms and has no more decimals than [fracDigits] says. *)
Definition value_ok (v : dcValue) : Prop :=
  isStr v = false -> reduced (rat v) /\ decimal (Z.max 0 (fracDigits v)) (rat v).

Lemma number_ok r fd nz : reduced r -> decimal (Z.max 0 fd) r -> value_ok (number r fd nz).
Proof. done. Qed.

Lemma integer_ok n fd nz : value_ok (number (n # 1) fd nz).
Proof. intros _. split; [apply reduced_int|]. apply decimal_int. lia. Qed.

Lemma text_ok s : value_ok (text s).
Proof. done. Qed.

Lemma truncated_ok r s nz : value_ok (number (RatTruncate r s) s nz).
Proof. apply number_ok; [apply RatTruncate_reduced|apply RatTruncate_decimal]. Qed.

#[export] Hint Resolve integer_ok text_ok truncated_ok : goposix.

Lemma numeric a : value_ok a -> isStr a = false ->
  reduced (rat a) /\ decimal (Z.max 0 (fracDigits a)) (rat a).
Proof. auto. Qed.

Lemma dc_add_ok a b : isStr a = false -> isStr b = false -> value_ok a -> value_ok b ->
  value_ok (dc_add a b) /\ value_ok (dc_sub a b).
Proof.
  intros Ia Ib [Ra Da]%numeric [Rb Db]%numeric; [|done..].
  assert (decimal (Z.max 0 (Z.max (fracDigits a) (fracDigits b))) (rat a)) as Ha
    by (eapply decimal_weaken; [|exact Da]; lia).
  assert (decimal (Z.max 0 (Z.max (fracDigits a) (fracDigits b))) (rat b)) as Hb
    by (eapply decimal_weaken; [|exact Db]; lia).
  split; intros _; (split; [apply reduced_Qred|]); cbn [rat fracDigits dc_add dc_sub number];
    unfold ratAdd, ratSub; rewrite Qred_correct.
  - apply decimal_add; [lia|done..].
  - apply decimal_add; [lia|done|by apply decimal_opp].
Qed.

Lemma dc_mul_ok k a b : value_ok (dc_mul k a b).
Proof. apply truncated_ok. Qed.

Lemma dc_div_ok k a b v : dc_div k a b = Ok v -> value_ok v.
Proof. unfold dc_div. case_match; [done|]. intros [= <-]. apply truncated_ok. Qed.

Lemma remainder_ok k a b nz : let '(r, fd) := remainder k a b in value_ok (number r fd nz).
Proof. apply truncated_ok. Qed.

Lemma dc_mod_ok k a b v : dc_mod k a b = Ok v -> value_ok v.
Proof. unfold dc_mod. case_match; [done|]. intros [= <-]. apply truncated_ok. Qed.

Lemma dc_divmod_ok k a b q r : dc_divmod k a b = Ok (q, r) -> value_ok q /\ value_ok r.
Proof. unfold dc_divmod. case_match; [done|]. intros [= <- <-]. split; apply truncated_ok. Qed.

Lemma dc_pow_ok k a b : value_ok (dc_pow k a b).
Proof.
  unfold dc_pow. repeat case_match; simplify_eq; first [apply truncated_ok | apply (integer_ok _ 0)].
Qed.

Lemma dc_sqrt_ok k a v : dc_sqrt k a = Ok v -> value_ok v.
Proof. unfold dc_sqrt. case_match; [done|]. intros [= <-]. apply truncated_ok. Qed.

Lemma ratModExpVal_int b e m r : ratModExpVal b e m = Some r -> exists n, r = (n # 1)%Q.
Proof.
  unfold ratModExpVal. destruct (Sign e =? 0); [intros [= <-]; by exists 1|].
  cbv zeta. destruct (_ =? 0); [intros [= <-]; by exists 0|].
  intros (n & _ & [= <-])%bind_Some. by exists n.
Qed.

(** * The arithmetic is right *)

Lemma is_zero_false r : ~ (r == 0)%Q -> is_zero r = false.
Proof. intros H. unfold is_zero. destruct (Z.eqb_spec (Sign r) 0) as [E|]; [|done]. by apply Sign_zero in E. Qed.

(** The remainder of a division cut at the scale needs no cut of its own. *)
Lemma remainder_exact k a b : value_ok a -> value_ok b -> isStr a = false -> isStr b = false ->
  0 <= k -> 0 <= fracDigits b -> k + fracDigits b < 2 ^ 63 -> ~ (rat b == 0)%Q ->
  let q := RatTruncate (ratQuo (rat a) (rat b)) k in
  (rat a == q * rat b + fst (remainder k a b))%Q.
Proof.
  intros Ha Hb Ia Ib Hk Hf Hov Hz q. destruct (numeric a Ha Ia) as [Ra Da], (numeric b Hb Ib) as [Rb Db].
  unfold remainder. cbn [fst]. fold q.
  rewrite (wrap_small 64) by lia. set (fd := Z.max _ _).
  rewrite RatTruncate_id.
  - unfold ratSub, ratMul. rewrite !Qred_correct. ring.
  - apply reduced_Qred.
  - unfold ratSub, ratMul. rewrite !Qred_correct. unfold Qminus.
    apply decimal_add; [lia| |apply decimal_opp].
    + eapply decimal_weaken; [|exact Da]. lia.
    + eapply decimal_weaken; [|apply (decimal_mul k (fracDigits b))]; try lia.
      * pose proof (RatTruncate_decimal (ratQuo (rat a) (rat b)) k) as H. by rewrite Z.max_r in H by lia.
      * by rewrite Z.max_r in Db by lia.
Qed.

Lemma dc_sqrt_exact k a : value_ok a -> isStr a = false -> (0 <= rat a)%Q -> 0 <= k ->
  0 <= fracDigits a <= k + 2 -> 2 * (k + 2) < 2 ^ 63 ->
  exists v, dc_sqrt k a = Ok v /\ fracDigits v = Z.max k (fracDigits a) /\ (0 <= rat v)%Q /\
    (rat v * rat v <= rat a)%Q /\
    (rat a < (rat v + dec 1 (fracDigits v)) * (rat v + dec 1 (fracDigits v)))%Q.
Proof.
  intros Ha Ia Hp Hk Hf Hov. unfold dc_sqrt. set (t := Z.max k (fracDigits a)).
  assert (0 <= Num (rat a)) as HN by (unfold Qle in Hp; simpl in Hp; unfold Num; lia).
  rewrite (proj2 (Z.ltb_ge (Sign (rat a)) 0)) by (unfold Sign, Num in *; lia).
  eexists. split; [reflexivity|]. split; [reflexivity|]. cbn [rat number fracDigits].
  assert (exists m, (RatTruncate (ratSqrtNewton (rat a) k) t == dec m t)%Q /\ 0 <= m /\
    m * m * Denom (rat a) <= Num (rat a) * 10 ^ (2 * t) < (m + 1) * (m + 1) * Denom (rat a))
    as (m & Em & Hm & L & U).
  { unfold ratSqrtNewton. destruct (Z.eqb_spec (Sign (rat a)) 0) as [E0|E0].
    - exists 0. split; [reflexivity|].
      replace (Num (rat a)) with 0 by (unfold Sign, Num in *; lia). unfold Denom. lia.
    - rewrite !(wrap_small 64), !pow10_eq by lia. set (N := Num (rat a)) in *. set (D := Denom (rat a)).
      assert (0 < D) by (unfold D, Denom; lia). set (n := Z.sqrt _).
      set (j := k + 2 - t). set (K := D * 10 ^ j).
      pose proof (ten_pos j ltac:(lia)) as Hj. pose proof (ten_pos t ltac:(lia)) as Ht.
      pose proof (ten_pos (k + 2) ltac:(lia)) as Hk2.
      assert (10 ^ (k + 2) = 10 ^ j * 10 ^ t) as Ek by (rewrite <- Z.pow_add_r by lia; f_equal; lia).
      assert (10 ^ (2 * (k + 2)) = 10 ^ (k + 2) * 10 ^ (k + 2)) as E2
        by (rewrite <- Z.pow_add_r by lia; f_equal; lia).
      assert (0 <= N * D * 10 ^ (2 * (k + 2))) as HS by (rewrite E2; repeat apply Z.mul_nonneg_nonneg; lia).
      pose proof (Z.sqrt_spec _ HS) as [S1 S2]. fold n in S1, S2.
      assert (0 <= n) by (apply Z.sqrt_nonneg).
      assert (qtrunc (SetFrac n (D * 10 ^ (k + 2)) * inject_Z (10 ^ t)) = n / K) as Eq.
      { unfold SetFrac. rewrite Qred_correct. unfold qtrunc, Qmult, inject_Z. simpl.
        rewrite Pos.mul_1_r, Z2Pos.id by nia. rewrite Ek.
        replace (D * (10 ^ j * 10 ^ t)) with (K * 10 ^ t) by (unfold K; ring).
        rewrite Z.quot_mul_cancel_r by (unfold K; nia). apply Z.quot_div_nonneg; unfold K; nia. }
      exists (n / K). split; [rewrite RatTruncate_eq; replace (Z.max 0 t) with t by lia; by rewrite Eq|]. assert (0 < K) by (unfold K; nia).
      pose proof (Z.mul_div_le n K ltac:(lia)) as D1. pose proof (Z.mul_succ_div_gt n K ltac:(lia)) as D2.
      set (m := n / K) in *. assert (0 <= m) by (apply Z.div_pos; lia). split; [done|].
      assert (10 ^ (2 * t) = 10 ^ t * 10 ^ t) as -> by (rewrite <- Z.pow_add_r by lia; f_equal; lia).
      assert (N * D * 10 ^ (2 * (k + 2)) = (N * (10 ^ t * 10 ^ t)) * (D * (10 ^ j * 10 ^ j))) as E3
        by (rewrite E2, Ek; ring).
      rewrite E3 in S1, S2. assert (0 < D * (10 ^ j * 10 ^ j)) as HP by nia. split.
      + apply (Z.mul_le_mono_pos_r _ _ (D * (10 ^ j * 10 ^ j))); [done|].
        transitivity (n * n); [|done]. replace (m * m * D * (D * (10 ^ j * 10 ^ j))) with ((K * m) * (K * m))
          by (unfold K; ring). apply Z.mul_le_mono_nonneg; nia.
      + apply (Z.mul_lt_mono_pos_r (D * (10 ^ j * 10 ^ j))); [done|].
        apply Z.lt_le_trans with (1 := S2).
        replace ((m + 1) * (m + 1) * D * (D * (10 ^ j * 10 ^ j))) with ((K * (m + 1)) * (K * (m + 1)))
          by (unfold K; ring). apply Z.mul_le_mono_nonneg; nia. }
  assert (0 <= t) by lia. pose proof (ten_pos t ltac:(lia)) as Ht.
  assert (10 ^ (2 * t) = 10 ^ t * 10 ^ t) as E2 by (rewrite <- Z.pow_add_r by lia; f_equal; lia).
  rewrite !Em, dec_add by done. unfold dec. split; [unfold Qle; simpl; lia|].
  assert (rat a == Num (rat a) # Z.to_pos (Denom (rat a)))%Q as -> by (by destruct (rat a)).
  assert (0 < Denom (rat a)) by (unfold Denom; lia).
  split; unfold Qle, Qlt, Qmult; simpl; rewrite !Pos2Z.inj_mul, !Z2Pos.id by done;
    rewrite E2 in *; unfold Denom in *; assumption.
Qed.

(** * Powers *)

Lemma pow_loop_ok fuel : forall r b e, 0 <= e < 2 ^ Z.of_nat fuel -> (pow_loop fuel r b e == r * b ^ e)%Q.
Proof.
  induction fuel as [|fuel IH]; intros r b e He.
  - replace e with 0 by (simpl in He; lia). simpl. ring.
  - cbn [pow_loop]. destruct (Z.ltb_spec 0 e) as [Hp|]; [|replace e with 0 by lia; simpl; ring].
    rewrite Nat2Z.inj_succ, Z.pow_succ_r in He by lia.
    change 1 with (Z.ones 1) at 1. rewrite Z.land_ones, Z.shiftr_div_pow2 by lia. change (2 ^ 1) with 2.
    rewrite IH by (split; [apply Z.div_pos; lia|apply Z.div_lt_upper_bound; lia]).
    rewrite (power_halves b e) by lia. unfold ratMul. destruct (e mod 2 =? 1); rewrite ?Qred_correct; ring.
Qed.

Lemma ratPowInt_ok b e : 0 <= e < 2 ^ 64 -> (ratPowInt b e == b ^ e)%Q.
Proof. intros. unfold ratPowInt. rewrite pow_loop_ok by done. ring. Qed.

(** * Reading a printed number back *)

(** A printed or written sign: minus, the underscore of the programs, or none. *)
Inductive sign_text : string -> bool -> Prop :=
| SPlus : sign_text "" false
| SMinus : sign_text "-" true
| SUnder : sign_text "_" true.

Definition apply_sign (neg : bool) (n : Z) : Z := if neg then - n else n.

Lemma newNumStr_sign sgn neg c s : sign_text sgn neg -> is_digit c = true \/ c = "."%char ->
  newNumStr (sgn +:+ String c s) = read_body neg (String c s).
Proof.
  intros Hs Hc.
  assert (is_blank c = false /\ (c =c? "_") = false /\ (c =c? "-") = false) as (B & U & M).
  { destruct Hc as [Hc| ->]; [|done]. unfold is_digit in Hc. unfold is_blank.
    split; [|split]; [|apply negb_true_iff; by apply digit_not..].
    apply orb_false_iff. split; [apply negb_true_iff; by apply digit_not|lia]. }
  unfold newNumStr, TrimLeft.
  assert ((("_"%char) =c? c) = false /\ (("-"%char) =c? c) = false) as [U' M']
    by (rewrite !(Ascii.eqb_sym _ c); done).
  assert (is_blank "-" = false /\ is_blank "_" = false) as [Bm Bu] by done.
  assert (("_" =c? "-") = false /\ ("-" =c? "-") = true /\ ("_" =c? "_") = true) as (E1 & E2 & E3) by done.
  destruct Hs; rewrite ?sapp_cons, ?sapp_nil_l; cbn [str_span]; rewrite ?B, ?Bm, ?Bu;
    cbn [snd HasPrefix str_drop]; rewrite ?U', ?E1, ?E3; cbn [andb]; cbn beta iota;
    cbn [HasPrefix]; rewrite ?M', ?E2; reflexivity.
Qed.

Lemma int_SetString_sign neg s n : str_forall is_digit s = true -> s <> "" -> parse_digits 10 s 0 = Some n ->
  int_SetString (if neg : bool then "-" +:+ s else s) = Some (apply_sign neg n).
Proof.
  intros Hs Hn E. destruct neg.
  - rewrite minus_digits, E by done. reflexivity.
  - by rewrite digits_sign.
Qed.

(** Leading zeros go, the value stays. *)
Lemma strip_zeros_ok i t : str_forall is_digit i = true -> t = "" \/ HasPrefix t "." = true ->
  exists j, strip_zeros (i +:+ t) = j +:+ t /\ str_forall is_digit j = true /\ (i <> "" -> j <> "") /\
    forall acc, 0 = acc -> parse_digits 10 j acc = parse_digits 10 i acc.
Proof.
  induction i as [|c i IH]; intros Hi Ht.
  - exists "". rewrite !sapp_nil_l. split; [|done]. destruct Ht as [->|Ht]; [done|].
    destruct t as [|d t]; [done|]. cbn [HasPrefix] in Ht. apply andb_true_iff in Ht as [Hd _].
    apply Ascii.eqb_eq in Hd as <-. by destruct t.
  - cbn [str_forall] in Hi. apply andb_true_iff in Hi as [Hc Hi]. destruct (IH Hi Ht) as (j & E & J1 & J2 & J3).
    rewrite sapp_cons. destruct i as [|d i].
    + exists (String c ""). split; [|cbn [str_forall]; rewrite Hc; done].
      rewrite sapp_nil_l. rewrite sapp_cons, sapp_nil_l. destruct Ht as [->|Ht]; [done|].
      destruct t as [|d t]; [done|]. cbn [HasPrefix] in Ht. apply andb_true_iff in Ht as [Hd _].
      apply Ascii.eqb_eq in Hd as <-. cbn [strip_zeros]. by rewrite andb_false_r.
    + assert ((d =c? ".") = false) as Hd.
      { cbn [str_forall] in Hi. apply andb_true_iff in Hi as [Hd _]. apply negb_true_iff. by apply digit_not. }
      rewrite sapp_cons in *. change (strip_zeros (String c (String d (i +:+ t)))) with
        (if (c =c? "0") && negb (d =c? ".") then strip_zeros (String d (i +:+ t)) else String c (String d (i +:+ t))).
      rewrite Hd, andb_true_r. destruct (Prelude.ceqb_spec c "0") as [->|Hc0].
      * exists j. split; [done|]. split; [done|]. split; [intros _; by apply J2|]. intros acc <-. by rewrite J3.
      * exists (String c (String d i)). split; [done|]. split; [|done]. cbn [str_forall] in *. by rewrite Hc, Hi.
Qed.

Lemma seqb_nonempty s : s <> "" -> (s =s? "") = false.
Proof. apply seqb_ne. Qed.

Lemma read_int neg i n : str_forall is_digit i = true -> i <> "" -> parse_digits 10 i 0 = Some n ->
  read_body neg i = Ok (SetInt (apply_sign neg n), 0).
Proof.
  intros Hi Hn E. unfold read_body.
  destruct (strip_zeros_ok i "" Hi (or_introl eq_refl)) as (j & Ej & J1 & J2 & J3).
  rewrite !sapp_nil_r in Ej. rewrite Ej. cbv zeta.
  assert (((j =s? "") || (j =s? ".")) = false) as ->.
  { apply orb_false_iff. split; apply seqb_ne; [auto|]. intros ->. done. }
  rewrite Index_none by (by apply digits_without).
  rewrite (int_SetString_sign neg j n); [done|done|auto|]. by rewrite J3.
Qed.

Lemma read_dec neg i f n : str_forall is_digit i = true -> str_forall is_digit f = true -> f <> "" ->
  parse_digits 10 (i +:+ f) 0 = Some n ->
  read_body neg (i +:+ "." +:+ f) =
    Ok (SetFrac (apply_sign neg n) (10 ^ Z.of_nat (String.length f)), Z.of_nat (String.length f)).
Proof.
  intros Hi Hf Hn E. unfold read_body.
  destruct (strip_zeros_ok i ("." +:+ f) Hi (or_intror eq_refl)) as (j & Ej & J1 & J2 & J3).
  rewrite Ej. cbv zeta.
  assert (((j +:+ "." +:+ f =s? "") || (j +:+ "." +:+ f =s? ".")) = false) as ->.
  { apply orb_false_iff. split; apply seqb_ne; intros H; apply (f_equal String.length) in H;
      rewrite !slength_app in H; simpl in H; destruct f; simpl in *; done || lia. }
  rewrite sapp_cons, sapp_nil_l, Index_char by (by apply digits_without).
  rewrite str_take_exact. rewrite Nat.add_1_r.
  assert (str_drop (S (String.length j)) (j +:+ String "." f) = f) as ->.
  { clear. induction j as [|c j IH]; [done|exact IH]. }
  rewrite (seqb_nonempty f) by done. cbv zeta. rewrite pow10_eq by lia.
  set (k := if j =s? "" then "0" else j).
  assert (str_forall is_digit k = true /\ k <> "" /\ parse_digits 10 k 0 = parse_digits 10 i 0) as (K1 & K2 & K3).
  { unfold k. rewrite <- J3 by done. destruct (seqb_spec j "") as [->|]; done. }
  rewrite (int_SetString_sign neg (k +:+ f) n); [done| | |].
  - by rewrite str_forall_app, K1, Hf.
  - intros H. apply (f_equal String.length) in H. rewrite slength_app in H. destruct k; simpl in *; done || lia.
  - by rewrite parse_digits_app, K3, <- parse_digits_app.
Qed.

(** The digits that the division writes are those of the fraction. *)
Lemma frac_digits_ok d : forall fuel rem den, (d <= fuel)%nat -> 0 <= rem < den ->
  (den | rem * 10 ^ Z.of_nat d) ->
  let s := frac_digits fuel rem den in
  (String.length s <= d)%nat /\ str_forall is_digit s = true /\
  forall acc, parse_digits 10 (s +:+ repeat_char "0" (d - String.length s)) acc =
    Some (acc * 10 ^ Z.of_nat d + rem * 10 ^ Z.of_nat d / den).
Proof.
  assert (forall k acc, parse_digits 10 (repeat_char "0" k) acc = Some (acc * 10 ^ Z.of_nat k)) as Hz.
  { induction k as [|k IH]; intros acc; [simpl; f_equal; lia|]. cbn [repeat_char parse_digits].
    change (digit_val "0") with (Some 0). cbn [Z.ltb Z.compare]. rewrite IH, Nat2Z.inj_succ, Z.pow_succ_r by lia.
    f_equal. ring. }
  induction d as [|d IH]; intros fuel rem den Hf Hr Hd s.
  - assert (rem = 0) as ->.
    { rewrite Z.mul_1_r in Hd. destruct (Z.eq_dec rem 0) as [|Hn]; [done|].
      apply Z.divide_pos_le in Hd; lia. }
    assert (s = "") as -> by (unfold s; by destruct fuel). split; [simpl; lia|]. split; [done|].
    intros acc. simpl. rewrite Z.div_0_l by lia. f_equal. lia.
  - destruct fuel as [|fuel]; [lia|]. subst s. cbn [frac_digits]. destruct (Z.eqb_spec rem 0) as [->|Hn].
    + split; [simpl; lia|]. split; [done|]. intros acc. rewrite sapp_nil_l, Hz.
      rewrite Z.mul_0_l, Z.div_0_l by lia. f_equal. simpl String.length. rewrite Nat.sub_0_r. ring.
    + rewrite Z.quot_div_nonneg, Z.rem_mod_nonneg by lia.
      set (q := rem * 10 / den). set (rem' := (rem * 10) mod den).
      assert (rem * 10 = den * q + rem') as E by (apply Z.div_mod; lia).
      assert (0 <= rem' < den) as Hr' by (apply Z.mod_pos_bound; lia).
      assert (0 <= q < 10) as Hq by (split; [apply Z.div_pos; lia|apply Z.div_lt_upper_bound; lia]).
      rewrite Nat2Z.inj_succ, Z.pow_succ_r in Hd |- * by lia. set (T := 10 ^ Z.of_nat d) in *.
      assert (rem * (10 * T) = den * (q * T) + rem' * T) as E' by (rewrite Z.mul_assoc, E; ring).
      destruct (IH fuel rem' den ltac:(lia) Hr') as (L & D & P).
      { rewrite E' in Hd. eapply Z.divide_add_cancel_r; [|exact Hd]. apply Z.divide_factor_l. }
      assert (is_digit (chr (48 + q)) = true) as Hc by (unfold is_digit; rewrite code_chr; lia).
      split; [cbn [String.length]; lia|]. split; [cbn [str_forall]; by rewrite Hc, D|].
      intros acc. rewrite sapp_cons. cbn [parse_digits String.length].
      destruct (is_digit_val _ Hc) as (v & Ev & Hv & _). rewrite code_chr in Hv by lia.
      rewrite Ev. rewrite (proj2 (Z.ltb_lt v 10)) by lia. cbn [Nat.sub]. rewrite P. f_equal.
      rewrite E'. fold T. replace (den * (q * T) + rem' * T) with (q * T * den + rem' * T) by ring.
      rewrite Z.div_add_l by lia. subst v. ring.
Qed.

(** The shapes of a printed number. *)
Definition printed (r : Q) (fd : Z) (s : string) : Prop :=
  exists sgn neg i f n, sign_text sgn neg /\
    str_forall is_digit i = true /\ str_forall is_digit f = true /\
    ((s = sgn +:+ i /\ i <> "" /\ parse_digits 10 i 0 = Some n /\ r = SetInt (apply_sign neg n) /\ fd = 0) \/
     (s = sgn +:+ i +:+ "." +:+ f /\ f <> "" /\ Z.of_nat (String.length f) = fd /\
      parse_digits 10 (i +:+ f) 0 = Some n /\ r = SetFrac (apply_sign neg n) (10 ^ fd))).

Lemma reduced_den r d n : reduced r -> 0 <= d -> (r == dec n d)%Q -> Num r * 10 ^ d = n * Denom r.
Proof. intros _ Hd E. unfold dec, Qeq in E. simpl in E. rewrite Z2Pos.id in E by (by apply ten_pos). exact E. Qed.

Lemma signed_abs z : apply_sign (z <? 0) (Z.abs z) = z.
Proof. destruct (Z.ltb_spec z 0); simpl; lia. Qed.

Lemma sign_of z : exists neg, sign_text (if z <? 0 then "-" else "") neg /\ (z <? 0) = neg.
Proof. destruct (z <? 0); eexists; (split; [constructor|done]). Qed.

Lemma printed_int r s : reduced r -> Denom r = 1 ->
  s = (if Num r <? 0 then "-" else "") +:+ FormatInt (Z.abs (Num r)) -> printed r 0 s.
Proof.
  intros Hr Hd ->. destruct (sign_of (Num r)) as (neg & Hs & En).
  exists (if Num r <? 0 then "-" else ""), neg, (FormatInt (Z.abs (Num r))), "", (Z.abs (Num r)).
  destruct (FormatInt_digits (Z.abs (Num r)) ltac:(lia)) as [F1 F2].
  split; [done|]. split; [done|]. split; [done|]. left. split; [done|]. split; [done|].
  split; [apply parse_digits_FormatInt; lia|]. split; [|done]. rewrite <- En, signed_abs.
  apply reduced_eq; [done|apply reduced_int|]. unfold SetInt, Qeq, Num, Denom in *. simpl. lia.
Qed.

Definition shown_decimals (r : Q) (fd : Z) : Z := if is_zero r then 0 else Z.max 0 fd.

Lemma formatRat_printed r fd nz : reduced r -> decimal (Z.max 0 fd) r -> fd < 2 ^ 63 - 10 -> - 2 ^ 63 <= fd ->
  printed r (shown_decimals r fd) (formatRat r fd nz).
Proof.
  intros Hr [N EN] Hfd Hlo. unfold formatRat, shown_decimals, is_zero.
  destruct (Z.eqb_spec (Sign r) 0) as [E0|E0].
  { apply Sign_zero in E0. assert (r = 0%Q) as -> by (apply reduced_eq; done || apply (reduced_int 0)).
    apply printed_int; done. }
  assert ((Sign r <? 0) = (Num r <? 0)) as -> by (unfold Sign, Num in *; lia).
  cbn [andb]. rewrite orb_false_r.
  destruct (Z.le_gt_cases fd 0) as [Hf|Hf].
  - (* an integer *)
    assert (Denom r = 1) as Hd.
    { replace (Z.max 0 fd) with 0 in EN by lia. assert (r = (N # 1)%Q) as -> by (by apply reduced_eq; [|apply reduced_int|]). done. }
    replace (Z.max 0 fd) with 0 by lia. apply printed_int; [done..|].
    unfold IsInt. rewrite Hd. cbn [Z.eqb Pos.eqb andb]. destruct (Z.eqb_spec fd 0); [done|].
    rewrite Z.quot_1_r, Z.rem_1_r. rewrite (proj2 (Z.ltb_ge 0 fd)) by lia.
    assert (forall k, frac_digits k 0 1 = "") as -> by (by intros []). done.
  - rewrite (proj2 (Z.eqb_neq fd 0)), andb_false_r by lia.
    rewrite (wrap_small 64), (proj2 (Z.ltb_lt 0 fd)) by lia.
    rewrite (Z.max_r 0 fd) in * by lia. set (k := Z.to_nat _).
    assert (Z.to_nat fd <= k)%nat as Hk by (unfold k; destruct (Z.ltb_spec (fd + 10) 200); lia).
    pose proof (reduced_den r fd N Hr ltac:(lia) EN) as EN'.
    assert (0 < Denom r) as HD by (unfold Denom; lia). set (D := Denom r) in *.
    pose proof (Z.quot_rem (Z.abs (Num r)) D ltac:(lia)) as Eq.
    rewrite Z.quot_div_nonneg, Z.rem_mod_nonneg in * by lia.
    set (ip := Z.abs (Num r) / D) in *. set (rem := Z.abs (Num r) mod D) in *.
    assert (0 <= rem < D) as Hrem by (apply Z.mod_pos_bound; lia).
    assert (0 <= ip) as Hip by (apply Z.div_pos; lia). pose proof (ten_pos fd ltac:(lia)) as HT.
    assert (rem * 10 ^ fd = (Z.abs N - ip * 10 ^ fd) * D) as Er.
    { assert (Z.abs (Num r) * 10 ^ fd = Z.abs N * D) by nia. nia. }
    destruct (frac_digits_ok (Z.to_nat fd) k rem D Hk Hrem) as (L & G & P).
    { rewrite Z2Nat.id by lia. rewrite Er. apply Z.divide_factor_r. }
    set (fs := frac_digits k rem D) in *. rewrite Z2Nat.id in P by lia.
    rewrite (proj2 (Z.ltb_ge fd (Z.of_nat (String.length fs)))) by lia.
    set (fs' := fs +:+ _) in *.
    assert (str_forall is_digit fs' = true) as G'
      by (unfold fs'; rewrite str_forall_app, G; by apply repeat_char_forall).
    assert (Z.of_nat (String.length fs') = fd) as L'
      by (unfold fs'; rewrite slength_app, repeat_char_length; lia).
    destruct (sign_of (Num r)) as (neg & Hs & En).
    destruct (FormatInt_digits ip Hip) as [F1 F2].
    set (i := if FormatInt ip =s? "0" then "" else FormatInt ip).
    assert (str_forall is_digit i = true /\ parse_digits 10 i 0 = Some ip) as [I1 I2].
    { pose proof (parse_digits_FormatInt ip Hip) as Ei. unfold i.
      destruct (seqb_spec (FormatInt ip) "0") as [E|]; [|done]. rewrite E in Ei. by injection Ei as <-. }
    exists (if Num r <? 0 then "-" else ""), neg, i, fs', (Z.abs N).
    split; [done|]. split; [done|]. split; [done|]. right.
    split; [unfold with_point, i; by destruct (FormatInt ip =s? "0")|].
    split; [intros E; rewrite E in L'; simpl in L'; lia|]. split; [done|]. split.
    + rewrite parse_digits_app, I2, P, Er, Z.div_mul by lia. f_equal. ring.
    + assert ((Num r <? 0) = (N <? 0)) as Esg by nia. rewrite <- En, Esg, signed_abs.
      apply reduced_eq; [done|apply reduced_Qred|]. unfold SetFrac. rewrite Qred_correct. exact EN.
Qed.

Lemma printed_reads r fd s : printed r fd s -> newNumStr s = Ok (r, fd).
Proof.
  intros (sgn & neg & i & f & n & Hs & Hi & Hf & [(-> & Hn & P & -> & ->)|(-> & Hn & <- & P & ->)]).
  - destruct i as [|c i]; [done|]. cbn [str_forall] in Hi.
    assert (is_digit c = true) by (by apply andb_true_iff in Hi as [? _]).
    rewrite (newNumStr_sign sgn neg) by auto. by apply read_int.
  - rewrite <- (read_dec neg i f n) by done. destruct i as [|c i].
    + rewrite sapp_nil_l. by apply newNumStr_sign; [|right].
    + apply newNumStr_sign; [done|left]. cbn [str_forall] in Hi. by apply andb_true_iff in Hi as [? _].
Qed.

Lemma newNumStr_ok s r d : newNumStr s = Ok (r, d) -> value_ok (number r d false).
Proof.
  assert (forall neg s, read_body neg s = Ok (r, d) -> value_ok (number r d false)) as H.
  { clear s. intros neg s. unfold read_body. cbv zeta. destruct (Index _ _) as [i|].
    - destruct (int_SetString _) as [n|]; [|done]. intros [= <- <-]. intros _. split; [apply reduced_Qred|].
      cbn [rat fracDigits number]. rewrite Z.max_r, pow10_eq by lia. exists n. unfold SetFrac.
      by rewrite Qred_correct.
    - destruct (int_SetString _) as [n|]; [|done]. intros [= <- <-]. apply integer_ok. }
  unfold newNumStr. repeat case_match; apply H.
Qed.
