(* ===== verification/Dc.v ===== *)
(** The desk calculator: pkg/dc/dc.go.

    A command that runs text as commands gets the interpreter as a parameter, and the interpreter
    spends a unit of fuel on each step of its loop.  The runes still to be read are a list; stacks
    have their top first. *)

From Stdlib Require Import Qpower Lqa Lia.
From S2P Require Import Prelude GoStd Utf8 Rat DcNum Output.

Local Open Scope Z_scope.

(** * State *)

Record dcState := {
  stack : list dcValue;
  regs : gmap string (list dcValue);
  extendedReg : bool;
  scale : Z
}.

(** What evalDC works on: the state, the rest of stdin and the lines of output. *)
Record env := { st : dcState; stdin : string; output : list string }.

(** How an evaluation ends; a panic is the one of [ratModExpVal]. *)
Inductive outcome := Done | Failed (e : dc_error) | Panic | OutOfFuel.

Definition with_stack (e : env) (s : list dcValue) : env :=
  {| st := {| stack := s; regs := regs (st e); extendedReg := extendedReg (st e); scale := scale (st e) |};
     stdin := stdin e; output := output e |}.

Definition with_regs (e : env) (r : gmap string (list dcValue)) : env :=
  {| st := {| stack := stack (st e); regs := r; extendedReg := extendedReg (st e); scale := scale (st e) |};
     stdin := stdin e; output := output e |}.

Definition with_scale (e : env) (k : Z) : env :=
  {| st := {| stack := stack (st e); regs := regs (st e); extendedReg := extendedReg (st e); scale := k |};
     stdin := stdin e; output := output e |}.

Definition with_output (e : env) (o : list string) : env :=
  {| st := st e; stdin := stdin e; output := o |}.

Definition with_stdin (e : env) (s : string) : env :=
  {| st := st e; stdin := s; output := output e |}.

Definition push (v : dcValue) (e : env) : env := with_stack e (v :: stack (st e)).

Definition popVal (e : env) : option (dcValue * env) :=
  match stack (st e) with [] => None | v :: s => Some (v, with_stack e s) end.

(** A string counts as the number 0. *)
Definition as_number (v : dcValue) : dcValue := if isStr v then number 0%Q 0 false else v.

Definition popNumValFD (e : env) : option (dcValue * env) :=
  '(v, e) ← popVal e; Some (as_number v, e).

Definition popNumVal (e : env) : option (Q * env) :=
  '(v, e) ← popNumValFD e; Some (rat v, e).

(** Below and on top; when there is only one value, it stays, as a number. *)
Definition popTwoNumFD (e : env) : (dcValue * dcValue) * env + env :=
  match popNumValFD e with
  | None => inr e
  | Some (b, e) =>
      match popNumValFD e with
      | None => inr (push b e)
      | Some (a, e) => inl ((a, b), e)
      end
  end.

Definition popTwoNumVal (e : env) : (Q * Q) * env + env :=
  match popNumVal e with
  | None => inr e
  | Some (b, e) =>
      match popNumVal e with
      | None => inr (push (number b 0 false) e)
      | Some (a, e) => inl ((a, b), e)
      end
  end.

Definition dupVal (v : dcValue) : dcValue :=
  if isStr v then text (str v) else number (rat v) (fracDigits v) false.

(** A line of output, and text added to the last line. *)
Definition print_line (s : string) (e : env) : env := with_output e (output e ++ [s]).

Fixpoint append_last (l : list string) (s : string) : list string :=
  match l with [] => [s] | [x] => [x +:+ s] | x :: l => x :: append_last l s end.

Definition print_more (s : string) (e : env) : env := with_output e (append_last (output e) s).

(** * Reading the program *)

Definition isIdentChar (ch : Z) : bool :=
  ((97 <=? ch) && (ch <=? 122)) || ((65 <=? ch) && (ch <=? 90)) || rune_digit ch || isc ch "_".

Definition parseRegName (extended : bool) (rs : list Z) : string * list Z :=
  match rs with
  | [] => ("", [])
  | r :: t =>
      if extended && isc r " " then let '(w, u) := span isIdentChar t in (string_of_runes w, u)
      else (EncodeRune r, t)
  end.

(** The text of a number and the rest; [None] for the empty text. *)
Definition parseNumber (rs : list Z) : option (string * list Z) :=
  let '(sign, body) := match rs with r :: t => if isc r "_" then ([r], t) else ([], rs) | [] => ([], []) end in
  let '(int_, t) := span rune_digit body in
  let '(frac, t) :=
    match t with
    | r :: u => if isc r "." then let '(f, u) := span rune_digit u in (r :: f, u) else ([], t)
    | [] => ([], [])
    end in
  (* the first digit, after a leading point *)
  let digits := match body with r :: u => if isc r "." then u else body | [] => [] end in
  match digits with
  | r :: _ => if rune_digit r then Some (string_of_runes (sign ++ int_ ++ frac), t) else None
  | [] => None
  end.

(** A string literal after its bracket: the text written and the rest; [depth] is at least 1. *)
Fixpoint read_string (depth : nat) (rs : list Z) : list Z * list Z :=
  match rs with
  | [] => ([], [])
  | c :: t =>
      if isc c "[" then let '(w, u) := read_string (S depth) t in (c :: w, u)
      else if isc c "]" then
        match depth with
        | S (S d) => let '(w, u) := read_string (S d) t in (c :: w, u)
        | _ => ([], t)
        end
      else if isc c "\" then
        match t with
        | next :: t' =>
            if negb (isc next "[") && negb (isc next "]") then
              let '(w, u) := read_string depth t' in (c :: next :: w, u)
            else let '(w, u) := read_string depth t in (c :: w, u)
        | [] => ([c], [])
        end
      else let '(w, u) := read_string depth t in (c :: w, u)
  end.

(** The escapes that the command P replaces. *)
Fixpoint parse_escapes (rs : list Z) : list Z :=
  match rs with
  | c :: ((next :: t') as t) =>
      if isc c "\" then
        (if isc next "n" then [10] else if isc next "t" then [9] else if isc next "r" then [13]
         else if isc next "\" then [c] else [c; next]) ++ parse_escapes t'
      else c :: parse_escapes t
  | _ => rs
  end.

Definition parseStringEscapes (s : string) : string := string_of_runes (parse_escapes (runes s)).

(** * Commands *)

Inductive cond := CGreater | CLess | CEqual.

(** The cases of the switch over the command character. *)
Inductive opcode :=
| PrintTop | PrintPop | PrintString | PrintAll
| Clear | Duplicate | Swap | Drop | Depth | Digits
| Add | Subtract | Multiply | Divide | Modulus | DivMod | Power | SquareRoot | ModExp
| SetScale | GetScale
| StoreReg | LoadReg | PushReg | PopReg
| Execute
| Above | AboveEq | Same | IsEmpty
| Cond (c : cond) | NotCond
| ReadLine | ToAscii | Unknown.

Definition cond_of (ch : Z) : option cond :=
  if isc ch ">" then Some CGreater else if isc ch "<" then Some CLess
  else if isc ch "=" then Some CEqual else None.

Definition opcode_of (ch : Z) : opcode :=
  if isc ch "p" then PrintTop else if isc ch "n" then PrintPop
  else if isc ch "P" then PrintString else if isc ch "f" then PrintAll
  else if isc ch "c" then Clear else if isc ch "d" then Duplicate
  else if isc ch "r" then Swap else if isc ch "R" then Drop
  else if isc ch "z" then Depth else if isc ch "Z" then Digits
  else if isc ch "+" then Add else if isc ch "-" then Subtract
  else if isc ch "*" then Multiply else if isc ch "/" then Divide
  else if isc ch "%" then Modulus else if isc ch "~" then DivMod
  else if isc ch "^" then Power else if isc ch "v" then SquareRoot
  else if isc ch "|" then ModExp
  else if isc ch "k" then SetScale else if isc ch "K" then GetScale
  else if isc ch "s" then StoreReg else if isc ch "l" then LoadReg
  else if isc ch "S" then PushReg else if isc ch "L" then PopReg
  else if isc ch "x" then Execute
  else if isc ch "(" then Above else if isc ch "{" then AboveEq
  else if isc ch "G" then Same else if isc ch "N" then IsEmpty
  else match cond_of ch with
       | Some c => Cond c
       | None =>
           if isc ch "!" then NotCond else if isc ch "?" then ReadLine
           else if isc ch "a" then ToAscii else Unknown
       end.

(** The commands that read no more of the program and run none. *)
Definition stack_empty (e : env) : outcome * env := (Failed (DcError "stack empty"), e).

Definition push_done (v : dcValue) (e : env) : outcome * env := (Done, push v e).

(** The commands on the two top numbers. *)
Definition binary (op : dcValue -> dcValue -> result dc_error (list dcValue)) (e : env) : outcome * env :=
  match popTwoNumFD e with
  | inr e => stack_empty e
  | inl ((a, b), e) =>
      match op a b with
      | Ok vs => (Done, with_stack e (vs ++ stack (st e)))
      | Err err => (Failed err, e)
      end
  end.

Definition comparison_cmd (holds : comparison -> bool) (e : env) : outcome * env :=
  match popTwoNumVal e with
  | inr e => stack_empty e
  | inl ((a, b), e) => push_done (number (if holds (ratCmp a b) then 1%Q else 0%Q) 0 false) e
  end.

Definition holds_gt (c : comparison) : bool := match c with Gt => true | _ => false end.
Definition holds_ge (c : comparison) : bool := match c with Lt => false | _ => true end.
Definition holds_eq (c : comparison) : bool := match c with Eq => true | _ => false end.
Definition holds_lt (c : comparison) : bool := match c with Lt => true | _ => false end.

Definition printing (op : opcode) (e : env) : outcome * env :=
  match op, stack (st e) with
  | PrintTop, v :: _ => (Done, print_line (String_of v) e)
  | PrintPop, v :: s => (Done, print_more (String_of v) (with_stack e s))
  | PrintString, v :: s =>
      (Done, if isStr v then print_more (parseStringEscapes (str v)) (with_stack e s) else with_stack e s)
  | PrintAll, s => (Done, with_output e (output e ++ (String_of <$> s)))
  | _, _ => (Done, e)
  end.

Definition stacking (op : opcode) (e : env) : outcome * env :=
  match op, stack (st e) with
  | Clear, _ => (Done, with_stack e [])
  | Duplicate, v :: s => (Done, with_stack e (dupVal v :: v :: s))
  | Swap, v :: w :: s => (Done, with_stack e (w :: v :: s))
  | Drop, v :: s => (Done, with_stack e s)
  | Depth, s => push_done (number (SetInt (Z.of_nat (length s))) 0 false) e
  | Digits, v :: s =>
      let length :=
        if isStr v then Z.of_nat (String.length (str v))
        else digit_count (rat v) (fracDigits v) (scale (st e)) (negZero v) in
      push_done (number (SetInt length) 0 false) (with_stack e s)
  | _, _ => (Done, e)
  end.

Definition mod_exp (e : env) : outcome * env :=
  match popNumVal e with
  | None => stack_empty e
  | Some (m, e) =>
      match popNumVal e with
      | None => stack_empty (push (number m 0 false) e)
      | Some (exp, e) =>
          match popNumVal e with
          | None => stack_empty (push (number m 0 false) (push (number exp 0 false) e))
          | Some (base, e) =>
              match ratModExpVal base exp m with
              | Some r => push_done (number r 0 false) e
              | None => (Panic, e)
              end
          end
      end
  end.

Definition arithmetic (op : opcode) (e : env) : outcome * env :=
  let k := scale (st e) in
  let one (r : result dc_error dcValue) := let? v := r in Ok [v] in
  match op with
  | Add => binary (fun a b => Ok [dc_add a b]) e
  | Subtract => binary (fun a b => Ok [dc_sub a b]) e
  | Multiply => binary (fun a b => Ok [dc_mul k a b]) e
  | Divide => binary (fun a b => one (dc_div k a b)) e
  | Modulus => binary (fun a b => one (dc_mod k a b)) e
  | DivMod => binary (fun a b => let? '(q, r) := dc_divmod k a b in Ok [r; q]) e
  | Power => binary (fun a b => Ok [dc_pow k a b]) e
  | SquareRoot =>
      match popNumValFD e with
      | None => stack_empty e
      | Some (a, e) =>
          match dc_sqrt k a with Ok v => push_done v e | Err err => (Failed err, e) end
      end
  | ModExp => mod_exp e
  | Above => comparison_cmd holds_gt e
  | AboveEq => comparison_cmd holds_ge e
  | Same => comparison_cmd holds_eq e
  | _ => (Done, e)
  end.

Definition scaling (op : opcode) (e : env) : outcome * env :=
  match op with
  | SetScale =>
      match popNumVal e with
      | None => stack_empty e
      | Some (v, e) => let s := RatToInt64 v in (Done, with_scale e (if s <? 0 then 0 else s))
      end
  | _ => push_done (number (SetInt (scale (st e))) (scale (st e)) false) e
  end.

(** The register commands once the name is read. *)
Definition registers (op : opcode) (reg : string) (e : env) : outcome * env :=
  if reg =s? "" then (Done, e)
  else
    let vals := default [] (regs (st e) !! reg) in
    match op with
    | StoreReg =>
        match popVal e with
        | Some (v, e) => (Done, with_regs e (<[reg := [dupVal v]]> (regs (st e))))
        | None => (Done, with_regs e (<[reg := [text ""]]> (regs (st e))))
        end
    | LoadReg =>
        match vals with
        | v :: _ => push_done (dupVal v) e
        | [] => push_done (number 0%Q 0 false) e
        end
    | PushReg =>
        match popVal e with
        | Some (v, e) => (Done, with_regs e (<[reg := dupVal v :: vals]> (regs (st e))))
        | None => (Done, e)
        end
    | _ =>
        match vals with
        | v :: vals => (Done, push (dupVal v) (with_regs e (<[reg := vals]> (regs (st e)))))
        | [] => (Done, e)
        end
    end.

Definition converting (op : opcode) (e : env) : outcome * env :=
  match popVal e with
  | None => stack_empty e
  | Some (v, e) =>
      match op with
      | IsEmpty =>
          let empty := if isStr v then str v =s? "" else is_zero (rat v) in
          push_done (number (if empty then 1%Q else 0%Q) 0 false) e
      | _ =>
          let s := if isStr v then str v else EncodeRune (Z.land (RatToInt64 (rat v)) 0xFF) in
          push_done (text s) e
      end
  end.

(** ** Commands that run text *)

(** [readLine]: the line, whether it was ended, and the rest. *)
Fixpoint readLine (s : string) : string * bool * string :=
  match s with
  | "" => ("", false, "")
  | String c t =>
      if code c =? 10 then ("", true, t)
      else let '(l, ok, r) := readLine t in (String c l, ok, r)
  end.

Section Interpreter.
(** [evalDC] on a text. *)
Variable eval : string -> env -> outcome * env.

(** The macro in a register, when its top is a string. *)
Definition run_reg (reg : string) (e : env) : outcome * env :=
  match regs (st e) !! reg with
  | Some (v :: _) => if isStr v then eval (str v) e else (Done, e)
  | _ => (Done, e)
  end.

(** The else clause [e] of a condition. *)
Definition run_else (rs : list Z) (e : env) : outcome * list Z * env :=
  match rs with
  | r :: t =>
      if isc r "e" then
        let '(elseReg, t) := parseRegName (extendedReg (st e)) t in
        if elseReg =s? "" then (Done, t, e)
        else let '(o, e) := run_reg elseReg e in (o, t, e)
      else (Done, rs, e)
  | [] => (Done, rs, e)
  end.

(** A conditional after its operator; [negated] for the form with an exclamation mark. *)
Definition run_cond (negated : bool) (c : cond) (rs : list Z) (e : env) : outcome * list Z * env :=
  let '(reg, rs) := parseRegName (extendedReg (st e)) rs in
  if reg =s? "" then (Done, rs, e)
  else
    match popTwoNumVal e with
    | inr e => let '(o, e) := stack_empty e in (o, rs, e)
    | inl ((a, b), e) =>
        let holds :=
          match c with
          | CGreater => holds_gt (ratCmp b a)
          | CLess => holds_lt (ratCmp b a)
          | CEqual => holds_eq (ratCmp b a)
          end in
        if xorb negated holds then let '(o, e) := run_reg reg e in (o, rs, e)
        else run_else rs e
    end.

(** The error of a line read from stdin is dropped. *)
Definition read_line (e : env) : outcome * env :=
  let '(l, ok, rest) := readLine (stdin e) in
  let e := with_stdin e rest in
  if ok && negb (l =s? "") then
    let '(o, e) := eval l e in
    (match o with Failed _ => Done | _ => o end, e)
  else (Done, e).

Definition execute (e : env) : outcome * env :=
  match popVal e with
  | None => (Done, e)
  | Some (v, e') => if isStr v then eval (str v) e' else (Done, push v e')
  end.

(** A command: how it ends, the runes left and the new environment. *)
Definition command (op : opcode) (rs : list Z) (e : env) : outcome * list Z * env :=
  let simple (r : outcome * env) := let '(o, e) := r in (o, rs, e) in
  match op with
  | PrintTop | PrintPop | PrintString | PrintAll => simple (printing op e)
  | Clear | Duplicate | Swap | Drop | Depth | Digits => simple (stacking op e)
  | Add | Subtract | Multiply | Divide | Modulus | DivMod | Power | SquareRoot | ModExp
  | Above | AboveEq | Same => simple (arithmetic op e)
  | SetScale | GetScale => simple (scaling op e)
  | IsEmpty | ToAscii => simple (converting op e)
  | StoreReg | LoadReg | PushReg | PopReg =>
      let '(reg, rs) := parseRegName (extendedReg (st e)) rs in
      let '(o, e) := registers op reg e in (o, rs, e)
  | Execute => simple (execute e)
  | Cond c => run_cond false c rs e
  | NotCond =>
      match rs with
      | r :: t => match cond_of r with Some c => run_cond true c t e | None => (Done, rs, e) end
      | [] => (Done, rs, e)
      end
  | ReadLine => simple (read_line e)
  | Unknown => (Done, rs, e)
  end.

Definition is_white (ch : Z) : bool := isc ch " " || (ch =? 9) || (ch =? 10) || (ch =? 13).
Definition starts_number (ch : Z) : bool := rune_digit ch || isc ch "_" || isc ch ".".

(** One turn of the loop of evalDC, on a rune and the runes after it. *)
Definition turn (ch : Z) (rs : list Z) (e : env) : outcome * list Z * env :=
  if is_white ch then (Done, rs, e)
  else if isc ch "#" then (Done, snd (span (fun r => negb (r =? 10)) rs), e)
  else if isc ch "[" then
    let '(w, rs) := read_string 1 rs in (Done, rs, push (text (string_of_runes w)) e)
  else if starts_number ch then
    match parseNumber (ch :: rs) with
    | Some (numStr, rs) =>
        match newNumStr numStr with
        | Ok (r, decimals) => (Done, rs, push (number r decimals false) e)
        | Err err => (Failed err, rs, e)
        end
    | None => (Done, rs, e)
    end
  else command (opcode_of ch) rs e.
End Interpreter.

Fixpoint exec (fuel : nat) (rs : list Z) (e : env) : outcome * env :=
  match fuel with
  | O => (OutOfFuel, e)
  | S fuel =>
      match rs with
      | [] => (Done, e)
      | ch :: rs =>
          match turn (fun s => exec fuel (runes s)) ch rs e with
          | (Done, rs, e) => exec fuel rs e
          | (o, _, e) => (o, e)
          end
      end
  end.

Definition evalDC (fuel : nat) (input : string) (e : env) : outcome * env := exec fuel (runes input) e.

(** * The command line *)

(** [line[:69]], a backslash, and so on; the fuel is the length of the line. *)
Fixpoint wrap_line (fuel : nat) (line : string) : list string :=
  match fuel with
  | O => [line]
  | S fuel =>
      if (69 <? String.length line)%nat
      then (str_take 69 line +:+ "\") :: wrap_line fuel (str_drop 69 line)
      else [line]
  end.

Definition wrapOutput (lines : list string) : list string :=
  mbind (fun item => mbind (fun line => wrap_line (String.length line) line) (split_nl item)) lines.

(** The program: the expressions and files of the options; without any, the operands, each the
    contents of the file it names if there is one; without any, stdin.  [None] for an unreadable
    file of an option, with its name. *)
Section Input.
Variable ReadFile : string -> option string.
Variable exists_ : string -> bool.

Fixpoint files_text (files : list string) : result string string :=
  match files with
  | [] => Ok ""
  | f :: files =>
      match ReadFile f with
      | None => Err f
      | Some data => let? rest := files_text files in Ok (data +:+ " " +:+ rest)
      end
  end.

Definition operand_text (arg : string) : string :=
  (if exists_ arg then default arg (ReadFile arg) else arg) +:+ " ".

Definition program (exprs files operands : list string) (input : string) : result string (string * string) :=
  let? fs := files_text files in
  let buf := sconcat ((fun x => x +:+ " ") <$> exprs) +:+ fs in
  if buf =s? "" then
    match operands with
    | [] => Ok (input, "")
    | _ => Ok (sconcat (operand_text <$> operands), input)
    end
  else Ok (buf, input).
End Input.

Definition initial (extended : bool) (input : string) : env :=
  {| st := {| stack := []; regs := ∅; extendedReg := extended; scale := 0 |}; stdin := input; output := [] |}.

(** The result of [run] after the options, [None] for an evaluation that does not end in the fuel
    or panics.  Errors do not change the exit code; [quote] is the [%q] of the error text. *)
Definition dc_finish (quote : string -> string) (jsonMode : bool) (r : outcome * env) :
    option (run_io (list string)) :=
  let finish (o : list string) (err : list string) :=
    let o := wrapOutput o in
    Some {| rc := 0; out := Render "dc" o jsonMode (line <$> o); errs := line <$> err |} in
  match r with
  | (Done, e) => finish (output e) []
  | (Failed (DcError t), e) => finish (output e) ["dc: " +:+ t]
  | (Failed (InvalidNumber s), e) => finish (output e) ["dc: invalid number: " +:+ quote s]
  | _ => None
  end.

(** * Every number stays in range *)

(** With nothing on stdin for the command [?] to read: the errors of a line read there are dropped,
    and a command that fails for want of a number puts back the other one without its decimals. *)
Record env_ok (e : env) : Prop := {
  ok_stack : Forall value_ok (stack (st e));
  ok_regs : map_Forall (fun _ l => Forall value_ok l) (regs (st e));
  ok_scale : 0 <= scale (st e);
  ok_stdin : stdin e = ""
}.

Lemma with_stack_ok e s : env_ok e -> Forall value_ok s -> env_ok (with_stack e s).
Proof. intros [H1 H2 H3 H4] H. by split. Qed.

Lemma with_regs_ok e r : env_ok e -> map_Forall (fun _ l => Forall value_ok l) r -> env_ok (with_regs e r).
Proof. intros [H1 H2 H3 H4] H. by split. Qed.

Lemma with_output_ok e o : env_ok e -> env_ok (with_output e o).
Proof. intros [H1 H2 H3 H4]. by split. Qed.

Lemma with_scale_ok e k : env_ok e -> 0 <= k -> env_ok (with_scale e k).
Proof. intros [H1 H2 H3 H4] H. by split. Qed.

Lemma push_ok v e : env_ok e -> value_ok v -> env_ok (push v e).
Proof. intros H Hv. apply with_stack_ok; [done|]. constructor; [done|apply H]. Qed.

Create HintDb dc.
#[export] Hint Resolve with_stack_ok with_regs_ok with_output_ok with_scale_ok push_ok
  integer_ok text_ok truncated_ok ok_stack dc_mul_ok dc_pow_ok : dc.
#[export] Hint Constructors Forall : dc.

Lemma popVal_ok e v e' : popVal e = Some (v, e') -> env_ok e -> value_ok v /\ env_ok e' /\
  stack (st e) = v :: stack (st e') /\ regs (st e') = regs (st e) /\ scale (st e') = scale (st e).
Proof.
  unfold popVal. destruct (stack (st e)) as [|w s] eqn:E; [done|]. intros [= <- <-] H.
  pose proof (ok_stack e H) as Hs. rewrite E in Hs. apply Forall_cons in Hs as [Hw Hs]. auto with dc.
Qed.

Lemma as_number_ok v : value_ok v -> value_ok (as_number v) /\ isStr (as_number v) = false.
Proof.
  intros H. unfold as_number. destruct (isStr v) eqn:E; [|done]. split; [apply (integer_ok 0)|done].
Qed.

Lemma popNumValFD_ok e v e' : popNumValFD e = Some (v, e') -> env_ok e ->
  value_ok v /\ isStr v = false /\ env_ok e'.
Proof.
  unfold popNumValFD. intros ([w e1] & Hp & [= <- <-])%bind_Some H.
  apply popVal_ok in Hp as (Hw & He & _); [|done]. by destruct (as_number_ok w Hw).
Qed.

Lemma popNumVal_ok e r e' : popNumVal e = Some (r, e') -> env_ok e -> env_ok e' /\ reduced r /\
  exists fd, value_ok (number r fd false).
Proof.
  unfold popNumVal. intros ([w e1] & Hp & [= <- <-])%bind_Some H.
  apply popNumValFD_ok in Hp as (Hw & Iw & He); [|done]. destruct (numeric w Hw Iw) as [R D].
  split; [done|]. split; [done|]. by exists (fracDigits w).
Qed.

Lemma popTwoNumFD_ok e : env_ok e ->
  match popTwoNumFD e with
  | inr e' => env_ok e'
  | inl ((a, b), e') => env_ok e' /\ value_ok a /\ value_ok b /\ isStr a = false /\ isStr b = false
  end.
Proof.
  intros H. unfold popTwoNumFD. destruct (popNumValFD e) as [[b e1]|] eqn:E1; [|done].
  apply popNumValFD_ok in E1 as (Hb & Ib & He1); [|done].
  destruct (popNumValFD e1) as [[a e2]|] eqn:E2; [|auto with dc].
  apply popNumValFD_ok in E2 as (Ha & Ia & He2); [|done]. done.
Qed.

Lemma popTwoNumVal_ok e : env_ok e ->
  match popTwoNumVal e with inr e' => True | inl (_, e') => env_ok e' end.
Proof.
  intros H. unfold popTwoNumVal. destruct (popNumVal e) as [[b e1]|] eqn:E1; [|done].
  apply popNumVal_ok in E1 as (He1 & _); [|done].
  destruct (popNumVal e1) as [[a e2]|] eqn:E2; [|done]. by apply popNumVal_ok in E2 as (He2 & _).
Qed.

(** A command that succeeds keeps the numbers in range. *)
Definition keeps (r : outcome * env) : Prop := fst r = Done -> env_ok (snd r).

Lemma dupVal_ok v : value_ok v -> value_ok (dupVal v).
Proof. intros H. unfold dupVal. destruct (isStr v) eqn:E; [apply text_ok|exact (fun _ => H E)]. Qed.

#[export] Hint Resolve dupVal_ok : dc.

Ltac kept := first [done | intros _; assumption].

Lemma binary_keeps op e : env_ok e ->
  (forall a b vs, value_ok a -> value_ok b -> isStr a = false -> isStr b = false ->
    op a b = Ok vs -> Forall value_ok vs) -> keeps (binary op e).
Proof.
  intros H Hop. unfold binary. pose proof (popTwoNumFD_ok e H) as Hp.
  destruct (popTwoNumFD e) as [[[a b] e']|e']; [|done]. destruct Hp as (He & Ha & Hb & Ia & Ib).
  destruct (op a b) as [vs|err] eqn:E; [|done]. intros _. apply with_stack_ok; [done|].
  apply Forall_app. split; [exact (Hop a b vs Ha Hb Ia Ib E)|apply He].
Qed.

Lemma boolean_ok (b : bool) fd nz : value_ok (number (if b then 1%Q else 0%Q) fd nz).
Proof. destruct b; apply (integer_ok _ fd). Qed.

Lemma comparison_keeps h e : env_ok e -> keeps (comparison_cmd h e).
Proof.
  intros H. unfold comparison_cmd. pose proof (popTwoNumVal_ok e H) as Hp.
  destruct (popTwoNumVal e) as [[[a b] e']|e']; [|done]. intros _. apply push_ok; [done|apply boolean_ok].
Qed.

Lemma printing_keeps op e : env_ok e -> keeps (printing op e).
Proof.
  intros H _. pose proof (ok_stack e H) as Hs.
  destruct op; try exact H; cbn [printing]; destruct (stack (st e)) as [|v s]; try exact H;
    try (apply Forall_cons in Hs as [Hv Hs]); cbn [snd]; repeat case_match;
    unfold print_line, print_more; auto with dc.
Qed.

Lemma stacking_keeps op e : env_ok e -> keeps (stacking op e).
Proof.
  intros H _. pose proof (ok_stack e H) as Hs.
  destruct op; try exact H; cbn [stacking]; destruct (stack (st e)) as [|v [|w s]]; try exact H;
    repeat match goal with Hs : Forall _ (_ :: _) |- _ => apply Forall_cons in Hs as [? Hs] end;
    cbn [snd push_done]; auto 8 with dc; apply push_ok; try (apply (integer_ok _ 0)); auto 8 with dc.
Qed.

Lemma mod_exp_keeps e : env_ok e -> keeps (mod_exp e).
Proof.
  intros H. unfold mod_exp. destruct (popNumVal e) as [[m e1]|] eqn:E1; [|done].
  apply popNumVal_ok in E1 as (H1 & _); [|done]. destruct (popNumVal e1) as [[x e2]|] eqn:E2; [|done].
  apply popNumVal_ok in E2 as (H2 & _); [|done]. destruct (popNumVal e2) as [[b e3]|] eqn:E3; [|done].
  apply popNumVal_ok in E3 as (H3 & _); [|done]. destruct (ratModExpVal b x m) as [r|] eqn:E; [|done].
  intros _. apply push_ok; [done|]. apply ratModExpVal_int in E as [n ->]. apply integer_ok.
Qed.

Lemma arithmetic_keeps op e : env_ok e -> keeps (arithmetic op e).
Proof.
  intros H. destruct op; try (intros _; exact H); cbn [arithmetic].
  1-7: apply binary_keeps; [done|]; intros a b vs Ha Hb Ia Ib E.
  - injection E as <-. destruct (dc_add_ok a b) as [? _]; auto with dc.
  - injection E as <-. destruct (dc_add_ok a b) as [_ ?]; auto with dc.
  - injection E as <-. auto with dc.
  - unbind E. injection E as <-. apply dc_div_ok in Ha0. auto with dc.
  - unbind E. injection E as <-. apply dc_mod_ok in Ha0. auto with dc.
  - unbind E. destruct a0 as [q r]. injection E as <-. apply dc_divmod_ok in Ha0 as [? ?]. auto with dc.
  - injection E as <-. auto with dc.
  - destruct (popNumValFD e) as [[a e1]|] eqn:E1; [|done]. apply popNumValFD_ok in E1 as (_ & _ & H1); [|done].
    destruct (dc_sqrt _ a) as [v|] eqn:E; [|done]. intros _. apply dc_sqrt_ok in E. by apply push_ok.
  - by apply mod_exp_keeps.
  - by apply comparison_keeps.
  - by apply comparison_keeps.
  - by apply comparison_keeps.
Qed.

Lemma scaling_keeps op e : env_ok e -> keeps (scaling op e).
Proof.
  intros H. assert (keeps (push_done (number (SetInt (scale (st e))) (scale (st e)) false) e)) as Hk.
  { intros _. apply push_ok; [done|]. apply integer_ok. }
  destruct op; try exact Hk. cbn [scaling]. destruct (popNumVal e) as [[v e1]|] eqn:E1; [|done].
  apply popNumVal_ok in E1 as (H1 & _); [|done]. intros _. apply with_scale_ok; [done|]. cbn [snd]. case_match; lia.
Qed.

Lemma insert_ok e r l : env_ok e -> Forall value_ok l ->
  map_Forall (fun _ l => Forall value_ok l) (<[r := l]> (regs (st e))).
Proof. intros H Hl. apply map_Forall_insert_2; [done|apply H]. Qed.

#[export] Hint Resolve insert_ok : dc.

Lemma registers_keeps op reg e : env_ok e -> keeps (registers op reg e).
Proof.
  intros H. unfold registers. destruct (reg =s? ""); [kept|].
  assert (Forall value_ok (default [] (regs (st e) !! reg))) as Hr.
  { destruct (regs (st e) !! reg) as [l|] eqn:E; [|constructor]. by apply (ok_regs e H reg). }
  set (vals := default [] _) in *.
  assert (keeps (match vals with
                 | v :: vals => (Done, push (dupVal v) (with_regs e (<[reg := vals]> (regs (st e)))))
                 | [] => (Done, e) end)) as Hpop.
  { destruct vals as [|v l]; [kept|]. apply Forall_cons in Hr as [Hv Hl]. intros _. apply push_ok; auto with dc. }
  destruct op; try exact Hpop; clear Hpop.
  - destruct (popVal e) as [[v e1]|] eqn:E1; [|intros _; apply with_regs_ok; auto with dc].
    apply popVal_ok in E1 as (Hv & H1 & _); [|done]. intros _. apply with_regs_ok; auto with dc.
  - destruct vals as [|v l]; intros _; [apply push_ok; [done|apply (integer_ok 0)]|].
    apply Forall_cons in Hr as [Hv Hl]. apply push_ok; auto with dc.
  - destruct (popVal e) as [[v e1]|] eqn:E1; [|kept].
    apply popVal_ok in E1 as (Hv & H1 & _ & Er & _); [|done]. intros _. apply with_regs_ok; auto with dc.
Qed.

Lemma converting_keeps op e : env_ok e -> keeps (converting op e).
Proof.
  intros H. unfold converting. destruct (popVal e) as [[v e1]|] eqn:E1; [|kept].
  apply popVal_ok in E1 as (Hv & H1 & _); [|done].
  destruct op; intros _; (apply push_ok; [done|]); first [apply text_ok | apply boolean_ok].
Qed.

(** ** The interpreter *)

Definition keeps3 (r : outcome * list Z * env) : Prop := fst (fst r) = Done -> env_ok (snd r).

Section Keeps.
Variable eval : string -> env -> outcome * env.
Hypothesis eval_keeps : forall s e, env_ok e -> keeps (eval s e).

Lemma run_reg_keeps reg e : env_ok e -> keeps (run_reg eval reg e).
Proof. intros H. unfold run_reg. repeat case_match; first [by apply eval_keeps | kept]. Qed.

Lemma simple_keeps (r : outcome * env) rs : keeps r -> keeps3 (let '(o, e) := r in (o, rs, e)).
Proof. by destruct r. Qed.

Lemma run_else_keeps rs e : env_ok e -> keeps3 (run_else eval rs e).
Proof.
  intros H. destruct rs as [|r t]; [kept|]. cbn [run_else]. case_match; [|kept].
  destruct (parseRegName _ t) as [reg t']. case_match; [kept|]. apply simple_keeps. by apply run_reg_keeps.
Qed.

Lemma run_cond_keeps neg c rs e : env_ok e -> keeps3 (run_cond eval neg c rs e).
Proof.
  intros H. unfold run_cond. destruct (parseRegName _ rs) as [reg t]. case_match; [kept|].
  pose proof (popTwoNumVal_ok e H) as Hp. destruct (popTwoNumVal e) as [[[a b] e']|e']; [|kept].
  cbv zeta. destruct (xorb _ _); [|by apply run_else_keeps]. apply simple_keeps. by apply run_reg_keeps.
Qed.

Lemma read_line_keeps e : env_ok e -> keeps (read_line eval e).
Proof.
  intros [H1 H2 H3 H4]. unfold read_line. rewrite H4. cbn. intros _. by split.
Qed.

Lemma execute_keeps e : env_ok e -> keeps (execute eval e).
Proof.
  intros H. unfold execute. destruct (popVal e) as [[v e1]|] eqn:E1; [|kept].
  apply popVal_ok in E1 as (Hv & H1 & _); [|done]. case_match; [by apply eval_keeps|].
  intros _. by apply push_ok.
Qed.

Lemma command_keeps op rs e : env_ok e -> keeps3 (command eval op rs e).
Proof.
  intros H. destruct op; cbn [command];
    first [ kept | by apply run_cond_keeps
          | apply simple_keeps; first [by apply printing_keeps | by apply stacking_keeps
              | by apply arithmetic_keeps | by apply scaling_keeps | by apply converting_keeps
              | by apply execute_keeps | by apply read_line_keeps]
          | destruct (parseRegName _ rs) as [reg t]; apply simple_keeps; by apply registers_keeps
          | idtac ].
  destruct rs as [|r t]; [kept|]. destruct (cond_of r); [by apply run_cond_keeps|kept].
Qed.

End Keeps.

Lemma turn_keeps eval ch rs e : (forall s e, env_ok e -> keeps (eval s e)) ->
  env_ok e -> keeps3 (turn eval ch rs e).
Proof.
  intros He H. unfold turn. destruct (is_white ch); [kept|]. destruct (isc ch "#"); [kept|].
  destruct (isc ch "["); [destruct (read_string 1 rs); intros _; apply push_ok; auto with dc|].
  destruct (starts_number ch); [|by apply command_keeps].
  destruct (parseNumber (ch :: rs)) as [[s t]|]; [|kept].
  destruct (newNumStr s) as [[r d]|err] eqn:E; [|done].
  intros _. apply push_ok; [done|]. by eapply newNumStr_ok.
Qed.

Lemma exec_keeps fuel : forall rs e, env_ok e -> keeps (exec fuel rs e).
Proof.
  induction fuel as [|fuel IH]; intros rs e H; [done|]. cbn [exec].
  destruct rs as [|ch rs]; [kept|].
  pose proof (turn_keeps (fun s => exec fuel (runes s)) ch rs e (fun s e => IH (runes s) e) H) as Ht.
  destruct (turn _ ch rs e) as [[o t] e']. unfold keeps3 in Ht. cbn [fst snd] in Ht.
  destruct o; try done. apply IH. by apply Ht.
Qed.

Lemma initial_ok x : env_ok (initial x "").
Proof. split; [apply Forall_nil_2|apply map_Forall_empty|reflexivity|reflexivity]. Qed.

(** * The runes read and the fuel *)

#[export] Hint Resolve suffix_nil suffix_cons_r : dc.

Lemma parseRegName_suffix x rs : snd (parseRegName x rs) `suffix_of` rs.
Proof.
  destruct rs as [|r rs]; simpl; [done|]. destruct (x && _); simpl; [|auto with dc].
  pose proof (span_suffix isIdentChar rs). destruct (span isIdentChar rs). simpl in *. auto with dc.
Qed.

Lemma read_string_suffix rs : forall d, snd (read_string d rs) `suffix_of` rs.
Proof.
  induction rs as [rs IH] using list_len_ind; intros d. destruct rs as [|c t]; [done|].
  assert (forall d, snd (read_string d t) `suffix_of` t) as Ht by (apply IH; simpl; lia).
  cbn [read_string]. destruct (isc c "[").
  { specialize (Ht (S d)). destruct (read_string (S d) t). simpl in *. auto with dc. }
  destruct (isc c "]").
  { destruct d as [|[|d]]; [auto with dc..|]. specialize (Ht (S d)). destruct (read_string (S d) t).
    simpl in *. auto with dc. }
  pose proof (Ht d) as Hd. destruct (isc c "\"); [|destruct (read_string d t); simpl in *; auto with dc].
  destruct t as [|next t']; [auto with dc|]. destruct (negb _ && _);
    [|destruct (read_string d (next :: t')); simpl in *; auto with dc].
  assert (snd (read_string d t') `suffix_of` t') by (apply IH; simpl; lia).
  destruct (read_string d t'). simpl in *. auto with dc.
Qed.

(** A first rune that starts a number is read. *)
Lemma parseNumber_suffix ch rs s t : starts_number ch = true -> parseNumber (ch :: rs) = Some (s, t) ->
  t `suffix_of` rs.
Proof.
  assert (forall b i u (sg : list Z), span rune_digit b = (i, u) -> u `suffix_of` b /\
    (let '(f, v) := match u with
       | r :: u0 => if isc r "." then let '(f, u1) := span rune_digit u0 in (r :: f, u1) else ([], u)
       | [] => ([], []) end in v `suffix_of` b)) as Hb.
  { intros b i u sg E. pose proof (span_suffix rune_digit b) as Hb. rewrite E in Hb. cbn [snd] in Hb.
    split; [done|]. destruct u as [|r u]; [apply suffix_nil|]. destruct (isc r "."); [|done].
    pose proof (span_suffix rune_digit u) as Hu. destruct (span rune_digit u) as [f v]. cbn [snd] in Hu.
    transitivity (r :: u); auto with dc. }
  intros Hch. unfold parseNumber. destruct (isc ch "_") eqn:Eu.
  - destruct (span rune_digit rs) as [i u] eqn:Ei. destruct (Hb rs i u [] Ei) as [_ Hv].
    destruct (match u with _ => _ end) as [f v]. repeat case_match; intros; by simplify_eq.
  - cbn [span]. destruct (rune_digit ch) eqn:Ed.
    + destruct (span rune_digit rs) as [i u] eqn:Ei. destruct (Hb rs i u [] Ei) as [_ Hv].
      destruct (match u with _ => _ end) as [f v]. repeat case_match; intros; by simplify_eq.
    + unfold starts_number in Hch. rewrite Ed, Eu in Hch. cbn [orb] in Hch. rewrite Hch.
      pose proof (span_suffix rune_digit rs) as Hs. destruct (span rune_digit rs) as [f v].
      repeat case_match; intros; by simplify_eq.
Qed.

Lemma command_suffix eval op rs e : snd (fst (command eval op rs e)) `suffix_of` rs.
Proof.
  assert (forall r : outcome * env, snd (fst (let '(o, e) := r in (o, rs, e))) = rs) as Hs by (by intros []).
  assert (forall neg c rs, snd (fst (run_cond eval neg c rs e)) `suffix_of` rs) as Hc.
  { clear. intros neg c rs. unfold run_cond. pose proof (parseRegName_suffix (extendedReg (st e)) rs) as Hp.
    destruct (parseRegName _ rs) as [reg t]. cbn [snd] in Hp. case_match; [done|].
    destruct (popTwoNumVal e) as [[[a b] e']|e']; [|by destruct (stack_empty e')].
    cbv zeta. destruct (xorb _ _); [by destruct (run_reg eval reg e')|].
    transitivity t; [|done]. destruct t as [|r t]; [done|]. cbn [run_else]. case_match; [|done].
    pose proof (parseRegName_suffix (extendedReg (st e')) t) as Hr. destruct (parseRegName _ t) as [reg' u].
    cbn [snd] in Hr. apply suffix_cons_r. case_match; [done|]. by destruct (run_reg eval reg' e'). }
  destruct op; cbn [command]; rewrite ?Hs; try done; try apply Hc;
    try (pose proof (parseRegName_suffix (extendedReg (st e)) rs) as Hp; destruct (parseRegName _ rs) as [reg t];
      cbn [snd] in Hp; by destruct (registers _ reg e)).
  destruct rs as [|r t]; [done|]. destruct (cond_of r); [|done]. apply suffix_cons_r, Hc.
Qed.

Lemma turn_suffix eval ch rs e : snd (fst (turn eval ch rs e)) `suffix_of` rs.
Proof.
  unfold turn. destruct (is_white ch); [done|]. destruct (isc ch "#"); [apply span_suffix|].
  destruct (isc ch "["); [pose proof (read_string_suffix rs 1) as H; by destruct (read_string 1 rs)|].
  destruct (starts_number ch) eqn:Es; [|apply command_suffix].
  destruct (parseNumber (ch :: rs)) as [[s t]|] eqn:E; [|done]. apply parseNumber_suffix in E; [|done].
  destruct (newNumStr s) as [[r d]|]; done.
Qed.

(** The runes of the commands that run text. *)
Definition runs_text (ch : Z) : bool :=
  isc ch "x" || isc ch "?" || match cond_of ch with Some _ => true | None => false end.

Lemma command_ends eval op rs e :
  match op with Execute | ReadLine | Cond _ => false | _ => true end = true ->
  match rs with r :: _ => runs_text r = false | [] => True end ->
  fst (fst (command eval op rs e)) <> OutOfFuel.
Proof.
  assert (forall o e, fst (binary o e) <> OutOfFuel) as Hb.
  { intros o e'. unfold binary. by repeat case_match. }
  assert (forall h e, fst (comparison_cmd h e) <> OutOfFuel) as Hc.
  { intros h e'. unfold comparison_cmd. by repeat case_match. }
  assert (forall op reg e, fst (registers op reg e) = Done) as Hr.
  { intros o reg e'. unfold registers, push_done. destruct (reg =s? ""); [done|].
    by destruct o, (default [] (regs (st e') !! reg)), (popVal e') as [[? ?]|]. }
  assert (forall r : outcome * env, fst r <> OutOfFuel -> fst (fst (let '(o, e) := r in (o, rs, e))) <> OutOfFuel) as Hs
    by (by intros []).
  assert (forall op, fst (fst (let '(reg, t) := parseRegName (extendedReg (st e)) rs in
    let '(o, e) := registers op reg e in (o, t, e))) <> OutOfFuel) as Hreg.
  { intros o. destruct (parseRegName _ rs) as [reg t]. pose proof (Hr o reg e) as Ho.
    destruct (registers o reg e) as [o' e']. cbn [fst] in *. congruence. }
  intros Hop Hrs. destruct op; try done; cbn [command];
    try (apply Hs; unfold printing, stacking, arithmetic, scaling, converting; cbv zeta;
      first [apply Hb | apply Hc | unfold mod_exp, stack_empty, push_done; by repeat case_match]).
  1-4: apply Hreg.
  destruct rs as [|r t]; [done|]. unfold runs_text in Hrs. destruct (cond_of r); [|done].
  by rewrite orb_true_r in Hrs.
Qed.

Lemma opcode_of_calm ch : runs_text ch = false ->
  match opcode_of ch with Execute | ReadLine | Cond _ => false | _ => true end = true.
Proof.
  unfold runs_text, opcode_of. intros [[Hx Hq]%orb_false_iff Hc]%orb_false_iff. rewrite Hx, Hq.
  destruct (cond_of ch); [done|].
  repeat match goal with |- context [isc ch ?c] => destruct (isc ch c); [reflexivity|] end. done.
Qed.

Lemma exec_ends fuel : forall rs e, (length rs < fuel)%nat -> forallb (fun r => negb (runs_text r)) rs = true ->
  fst (exec fuel rs e) <> OutOfFuel.
Proof.
  induction fuel as [|fuel IH]; intros rs e Hf Hrs; [lia|]. cbn [exec]. destruct rs as [|ch rs]; [done|].
  cbn [forallb length] in *. apply andb_true_iff in Hrs as [Hch Hrs]. apply negb_true_iff in Hch.
  set (eval := fun s => exec fuel (runes s)). pose proof (turn_suffix eval ch rs e) as [k Ek].
  assert (fst (fst (turn eval ch rs e)) <> OutOfFuel) as Ho.
  { unfold turn. destruct (is_white ch); [done|]. destruct (isc ch "#"); [done|].
    destruct (isc ch "["); [by destruct (read_string 1 rs)|]. destruct (starts_number ch).
    - destruct (parseNumber _) as [[s t]|]; [|done]. by destruct (newNumStr s) as [[r d]|].
    - apply command_ends; [by apply opcode_of_calm|]. destruct rs as [|r rs]; [done|].
      cbn [forallb] in Hrs. apply andb_true_iff in Hrs as [Hr _]. by apply negb_true_iff. }
  destruct (turn eval ch rs e) as [[o t] e']. cbn [fst snd] in *. destruct o; try done. apply IH.
  - apply (f_equal length) in Ek. rewrite length_app in Ek. lia.
  - rewrite Ek, forallb_app in Hrs. by apply andb_true_iff in Hrs as [_ Hrs].
Qed.

(** ** More fuel does not change a result *)

Section Mono.
Variables eval eval' : string -> env -> outcome * env.
Hypothesis ext : forall s e, fst (eval s e) <> OutOfFuel -> eval' s e = eval s e.

Lemma run_reg_ext reg e : fst (run_reg eval reg e) <> OutOfFuel -> run_reg eval' reg e = run_reg eval reg e.
Proof. unfold run_reg. repeat case_match; try done. apply ext. Qed.

Lemma run_cond_ext neg c rs e : fst (fst (run_cond eval neg c rs e)) <> OutOfFuel ->
  run_cond eval' neg c rs e = run_cond eval neg c rs e.
Proof.
  assert (forall (r r' : outcome * env) (t : list Z), (fst r <> OutOfFuel -> r' = r) ->
    fst (fst (let '(o, e) := r in (o, t, e))) <> OutOfFuel ->
    (let '(o, e) := r' in (o, t, e)) = (let '(o, e) := r in (o, t, e))) as Hs.
  { intros r r' t H Ho. rewrite H; [done|]. by destruct r. }
  unfold run_cond. destruct (parseRegName _ rs) as [reg t]. case_match; [done|].
  destruct (popTwoNumVal e) as [[[a b] e1]|e1]; [|done]. cbv zeta.
  destruct (xorb _ _); [apply Hs, run_reg_ext|]. unfold run_else. destruct t as [|r u]; [done|].
  case_match; [|done]. destruct (parseRegName _ u) as [reg' w]. case_match; [done|]. apply Hs, run_reg_ext.
Qed.

Lemma turn_ext ch rs e : fst (fst (turn eval ch rs e)) <> OutOfFuel -> turn eval' ch rs e = turn eval ch rs e.
Proof.
  unfold turn. repeat (case_match; [done|]). destruct (opcode_of ch); try done; cbn [command].
  - unfold execute. destruct (popVal e) as [[v e1]|]; [|done]. destruct (isStr v); [|done].
    intros Ho. rewrite ext; [done|]. by destruct (eval (str v) e1).
  - apply run_cond_ext.
  - destruct rs as [|r t]; [done|]. destruct (cond_of r); [apply run_cond_ext|done].
  - unfold read_line. destruct (readLine (stdin e)) as [[l ok] rest].
    destruct (ok && negb (l =s? "")); [|done].
    intros Ho. rewrite ext; [done|]. by destruct (eval l _) as [[] ?].
Qed.
End Mono.

Lemma exec_mono fuel : forall fuel' rs e, (fuel <= fuel')%nat -> fst (exec fuel rs e) <> OutOfFuel ->
  exec fuel' rs e = exec fuel rs e.
Proof.
  induction fuel as [|fuel IH]; intros fuel' rs e Hf Ho; [done|]. destruct fuel' as [|fuel']; [lia|].
  cbn [exec] in *. destruct rs as [|ch rs]; [done|].
  rewrite (turn_ext (fun s => exec fuel (runes s)) (fun s => exec fuel' (runes s))).
  - destruct (turn _ ch rs e) as [[o t] e']. destruct o; try done. apply IH; [lia|done].
  - intros s e' H. apply IH; [lia|done].
  - intros H. destruct (turn _ ch rs e) as [[o t] e']. cbn [fst] in H. by subst o.
Qed.
