(* ===== verification/DcRange.v ===== *)
(** The numbers of dc at every moment: whatever is on stdin and however the run ends, errors, panics and
    evaluations cut short included, every number is in lowest terms and a decimal fraction, and the scale
    is not negative. *)

From Stdlib Require Import Lia.
From S2P Require Import Prelude GoStd Utf8 Rat DcNum Output Dc.

Local Open Scope Z_scope.

(** A number in lowest terms with finitely many decimals, whatever its [fracDigits] says. *)
Definition value_fine (v : dcValue) : Prop :=
  isStr v = false -> reduced (rat v) /\ exists k, 0 <= k /\ decimal k (rat v).

Record env_fine (e : env) : Prop := {
  fine_stack : Forall value_fine (stack (st e));
  fine_regs : map_Forall (fun _ l => Forall value_fine l) (regs (st e));
  fine_scale : 0 <= scale (st e)
}.

Lemma value_ok_fine v : value_ok v -> value_fine v.
Proof. intros H I. destruct (H I) as [R D]. split; [done|]. eexists. split; [|exact D]. lia. Qed.

(** A fine number with a count of decimals that is right. *)
Lemma value_fine_ok v : value_fine v -> isStr v = false -> exists fd, value_ok (number (rat v) fd false).
Proof.
  intros H I. destruct (H I) as (R & k & Hk & D). exists k. intros _. split; [done|].
  cbn [rat fracDigits number]. by rewrite Z.max_r.
Qed.

(** Only the rational counts. *)
Lemma fine_rat v w : value_fine v -> isStr v = false -> rat w = rat v -> value_fine w.
Proof. intros H I E _. rewrite E. by apply H. Qed.

Lemma text_fine s : value_fine (text s).
Proof. done. Qed.

Lemma integer_fine n fd nz : value_fine (number (n # 1) fd nz).
Proof. apply value_ok_fine, integer_ok. Qed.

Lemma boolean_fine (b : bool) fd nz : value_fine (number (if b then 1%Q else 0%Q) fd nz).
Proof. apply value_ok_fine, boolean_ok. Qed.

Lemma dc_add_fine a b : isStr a = false -> isStr b = false -> value_fine a -> value_fine b ->
  value_fine (dc_add a b) /\ value_fine (dc_sub a b).
Proof.
  intros Ia Ib Ha Hb. destruct (value_fine_ok a Ha Ia) as [i Hi], (value_fine_ok b Hb Ib) as [j Hj].
  destruct (dc_add_ok (number (rat a) i false) (number (rat b) j false)) as [H1%value_ok_fine H2%value_ok_fine];
    [done..|]. split; [exact (fine_rat _ _ H1 eq_refl eq_refl)|exact (fine_rat _ _ H2 eq_refl eq_refl)].
Qed.

Lemma dupVal_fine v : value_fine v -> value_fine (dupVal v).
Proof. intros H. unfold dupVal. destruct (isStr v) eqn:E; [apply text_fine|exact (fun _ => H E)]. Qed.

Lemma as_number_fine v : value_fine v -> value_fine (as_number v) /\ isStr (as_number v) = false.
Proof.
  intros H. unfold as_number. destruct (isStr v) eqn:E; [|done]. split; [apply (integer_fine 0)|done].
Qed.

Lemma with_stack_fine e s : env_fine e -> Forall value_fine s -> env_fine (with_stack e s).
Proof. intros [H1 H2 H3] H. by split. Qed.

Lemma with_regs_fine e r : env_fine e -> map_Forall (fun _ l => Forall value_fine l) r -> env_fine (with_regs e r).
Proof. intros [H1 H2 H3] H. by split. Qed.

Lemma with_output_fine e o : env_fine e -> env_fine (with_output e o).
Proof. intros [H1 H2 H3]. by split. Qed.

Lemma with_stdin_fine e s : env_fine e -> env_fine (with_stdin e s).
Proof. intros [H1 H2 H3]. by split. Qed.

Lemma with_scale_fine e k : env_fine e -> 0 <= k -> env_fine (with_scale e k).
Proof. intros [H1 H2 H3] H. by split. Qed.

Lemma push_fine v e : env_fine e -> value_fine v -> env_fine (push v e).
Proof. intros H Hv. apply with_stack_fine; [done|]. constructor; [done|apply H]. Qed.

Lemma insert_fine e r l : env_fine e -> Forall value_fine l ->
  map_Forall (fun _ l => Forall value_fine l) (<[r := l]> (regs (st e))).
Proof. intros H Hl. apply map_Forall_insert_2; [done|apply H]. Qed.

Create HintDb fine.
#[export] Hint Resolve with_stack_fine with_regs_fine with_output_fine with_stdin_fine with_scale_fine push_fine
  insert_fine text_fine integer_fine boolean_fine dupVal_fine fine_stack : fine.
#[export] Hint Constructors Forall : fine.

Lemma reg_fine e r : env_fine e -> Forall value_fine (default [] (regs (st e) !! r)).
Proof.
  intros H. destruct (regs (st e) !! r) as [l|] eqn:E; [|constructor]. exact (fine_regs e H r l E).
Qed.

Lemma popVal_fine e v e' : popVal e = Some (v, e') -> env_fine e ->
  value_fine v /\ env_fine e' /\ regs (st e') = regs (st e).
Proof.
  unfold popVal. destruct (stack (st e)) as [|w s] eqn:E; [done|]. intros [= <- <-] H.
  pose proof (fine_stack e H) as Hs. rewrite E in Hs. apply Forall_cons in Hs as [Hw Hs]. auto with fine.
Qed.

Lemma popNumValFD_fine e v e' : popNumValFD e = Some (v, e') -> env_fine e ->
  value_fine v /\ isStr v = false /\ env_fine e'.
Proof.
  unfold popNumValFD. intros ([w e1] & Hp & [= <- <-])%bind_Some H.
  apply popVal_fine in Hp as (Hw & He & _); [|done]. by destruct (as_number_fine w Hw).
Qed.

Lemma popNumVal_fine e r e' : popNumVal e = Some (r, e') -> env_fine e ->
  env_fine e' /\ value_fine (number r 0 false).
Proof.
  unfold popNumVal. intros ([w e1] & Hp & [= <- <-])%bind_Some H.
  apply popNumValFD_fine in Hp as (Hw & Iw & He); [|done]. split; [done|]. by eapply fine_rat.
Qed.

Lemma popTwoNumFD_fine e : env_fine e ->
  match popTwoNumFD e with
  | inr e' => env_fine e'
  | inl ((a, b), e') => env_fine e' /\ value_fine a /\ value_fine b /\ isStr a = false /\ isStr b = false
  end.
Proof.
  intros H. unfold popTwoNumFD. destruct (popNumValFD e) as [[b e1]|] eqn:E1; [|done].
  apply popNumValFD_fine in E1 as (Hb & Ib & He1); [|done].
  destruct (popNumValFD e1) as [[a e2]|] eqn:E2; [|auto with fine].
  by apply popNumValFD_fine in E2 as (Ha & Ia & He2).
Qed.

Lemma popTwoNumVal_fine e : env_fine e ->
  match popTwoNumVal e with inr e' => env_fine e' | inl (_, e') => env_fine e' end.
Proof.
  intros H. unfold popTwoNumVal. destruct (popNumVal e) as [[b e1]|] eqn:E1; [|done].
  apply popNumVal_fine in E1 as [He1 Hb]; [|done].
  destruct (popNumVal e1) as [[a e2]|] eqn:E2; [|auto with fine]. by apply popNumVal_fine in E2 as [He2 _].
Qed.

(** ** The commands *)

(** A run leaves fine numbers, however it ends. *)
Definition stays (r : outcome * env) : Prop := env_fine (snd r).

Lemma stays_intro o e : env_fine e -> stays (o, e).
Proof. done. Qed.

#[export] Hint Resolve stays_intro : fine.

Lemma push_stays v e : env_fine e -> value_fine v -> stays (push_done v e).
Proof. apply push_fine. Qed.

#[export] Hint Resolve push_stays : fine.

Lemma binary_stays op e : env_fine e ->
  (forall a b vs, value_fine a -> value_fine b -> isStr a = false -> isStr b = false ->
    op a b = Ok vs -> Forall value_fine vs) -> stays (binary op e).
Proof.
  intros H Hop. unfold binary. pose proof (popTwoNumFD_fine e H) as Hp.
  destruct (popTwoNumFD e) as [[[a b] e']|e']; [|done]. destruct Hp as (He & Ha & Hb & Ia & Ib).
  destruct (op a b) as [vs|err] eqn:E; [|done]. apply stays_intro, with_stack_fine; [done|].
  apply Forall_app. split; [exact (Hop a b vs Ha Hb Ia Ib E)|apply He].
Qed.

Lemma comparison_stays h e : env_fine e -> stays (comparison_cmd h e).
Proof.
  intros H. unfold comparison_cmd. pose proof (popTwoNumVal_fine e H) as Hp.
  destruct (popTwoNumVal e) as [[[a b] e']|e']; [|done]. by apply push_stays, boolean_fine.
Qed.

Lemma printing_stays op e : env_fine e -> stays (printing op e).
Proof.
  intros H. pose proof (fine_stack e H) as Hs.
  destruct op; try exact H; cbn [printing]; destruct (stack (st e)) as [|v s]; try exact H;
    try (apply Forall_cons in Hs as [Hv Hs]); apply stays_intro; repeat case_match;
    unfold print_line, print_more; auto with fine.
Qed.

Lemma stacking_stays op e : env_fine e -> stays (stacking op e).
Proof.
  intros H. pose proof (fine_stack e H) as Hs.
  destruct op; try exact H; cbn [stacking]; destruct (stack (st e)) as [|v [|w s]]; try exact H;
    repeat match goal with Hs : Forall _ (_ :: _) |- _ => apply Forall_cons in Hs as [? Hs] end;
    first [apply push_stays|apply stays_intro]; auto 8 with fine; apply (integer_fine _ 0).
Qed.

Lemma mod_exp_stays e : env_fine e -> stays (mod_exp e).
Proof.
  intros H. unfold mod_exp. destruct (popNumVal e) as [[m e1]|] eqn:E1; [|done].
  apply popNumVal_fine in E1 as [H1 Hm]; [|done].
  destruct (popNumVal e1) as [[x e2]|] eqn:E2; [|by apply stays_intro, push_fine].
  apply popNumVal_fine in E2 as [H2 Hx]; [|done].
  destruct (popNumVal e2) as [[b e3]|] eqn:E3; [|apply stays_intro; auto with fine].
  apply popNumVal_fine in E3 as [H3 _]; [|done]. destruct (ratModExpVal b x m) as [r|] eqn:E; [|done].
  apply ratModExpVal_int in E as [n ->]. auto with fine.
Qed.

Lemma arithmetic_stays op e : env_fine e -> stays (arithmetic op e).
Proof.
  intros H. destruct op; try exact H; cbn [arithmetic].
  1-7: apply binary_stays; [done|]; intros a b vs Ha Hb Ia Ib E.
  - injection E as <-. destruct (dc_add_fine a b) as [? _]; auto with fine.
  - injection E as <-. destruct (dc_add_fine a b) as [_ ?]; auto with fine.
  - injection E as <-. constructor; [apply value_ok_fine, dc_mul_ok|done].
  - unbind E. injection E as <-. apply dc_div_ok, value_ok_fine in Ha0. auto with fine.
  - unbind E. injection E as <-. apply dc_mod_ok, value_ok_fine in Ha0. auto with fine.
  - unbind E. destruct a0 as [q r]. injection E as <-.
    apply dc_divmod_ok in Ha0 as [?%value_ok_fine ?%value_ok_fine]. auto with fine.
  - injection E as <-. constructor; [apply value_ok_fine, dc_pow_ok|done].
  - destruct (popNumValFD e) as [[a e1]|] eqn:E1; [|done]. apply popNumValFD_fine in E1 as (_ & _ & H1); [|done].
    destruct (dc_sqrt _ a) as [v|] eqn:E; [|done]. by apply push_stays, value_ok_fine, (dc_sqrt_ok _ _ _ E).
  - by apply mod_exp_stays.
  - by apply comparison_stays.
  - by apply comparison_stays.
  - by apply comparison_stays.
Qed.

Lemma scaling_stays op e : env_fine e -> stays (scaling op e).
Proof.
  intros H. destruct op; try (apply push_stays; [done|apply integer_fine]).
  cbn [scaling]. destruct (popNumVal e) as [[v e1]|] eqn:E1; [|done].
  apply popNumVal_fine in E1 as [H1 _]; [|done]. apply stays_intro, with_scale_fine; [done|]. case_match; lia.
Qed.

Lemma registers_stays op reg e : env_fine e -> stays (registers op reg e).
Proof.
  intros H. unfold registers. destruct (reg =s? ""); [done|]. pose proof (reg_fine e reg H) as Hr.
  set (vals := default [] _) in *.
  assert (stays (match vals with
                 | v :: vals => (Done, push (dupVal v) (with_regs e (<[reg := vals]> (regs (st e)))))
                 | [] => (Done, e) end)) as Hpop.
  { destruct vals as [|v l]; [done|]. apply Forall_cons in Hr as [Hv Hl]. auto 8 with fine. }
  destruct op; try exact Hpop; clear Hpop.
  - destruct (popVal e) as [[v e1]|] eqn:E1; [|auto 8 with fine].
    apply popVal_fine in E1 as (Hv & H1 & _); auto 8 with fine.
  - destruct vals as [|v l]; [apply push_stays; [done|apply (integer_fine 0)]|].
    apply Forall_cons in Hr as [Hv Hl]. auto with fine.
  - destruct (popVal e) as [[v e1]|] eqn:E1; [|done].
    apply popVal_fine in E1 as (Hv & H1 & Er); auto 8 with fine.
Qed.

Lemma converting_stays op e : env_fine e -> stays (converting op e).
Proof.
  intros H. unfold converting. destruct (popVal e) as [[v e1]|] eqn:E1; [|done].
  apply popVal_fine in E1 as (Hv & H1 & _); [|done].
  destruct op; (apply push_stays; [done|]); first [apply text_fine | apply boolean_fine].
Qed.

(** ** The interpreter *)

Definition stays3 (r : outcome * list Z * env) : Prop := env_fine (snd r).

Section Stays.
Variable eval : string -> env -> outcome * env.
Hypothesis eval_stays : forall s e, env_fine e -> stays (eval s e).

Lemma run_reg_stays reg e : env_fine e -> stays (run_reg eval reg e).
Proof. intros H. unfold run_reg. repeat case_match; first [by apply eval_stays | done]. Qed.

Lemma simple_stays (r : outcome * env) rs : stays r -> stays3 (let '(o, e) := r in (o, rs, e)).
Proof. by destruct r. Qed.

Lemma run_else_stays rs e : env_fine e -> stays3 (run_else eval rs e).
Proof.
  intros H. destruct rs as [|r t]; [done|]. cbn [run_else]. case_match; [|done].
  destruct (parseRegName _ t) as [reg t']. case_match; [done|]. by apply simple_stays, run_reg_stays.
Qed.

Lemma run_cond_stays neg c rs e : env_fine e -> stays3 (run_cond eval neg c rs e).
Proof.
  intros H. unfold run_cond. destruct (parseRegName _ rs) as [reg t]. case_match; [done|].
  pose proof (popTwoNumVal_fine e H) as Hp. destruct (popTwoNumVal e) as [[[a b] e']|e']; [|done].
  cbv zeta. destruct (xorb _ _); [|by apply run_else_stays]. by apply simple_stays, run_reg_stays.
Qed.

Lemma read_line_stays e : env_fine e -> stays (read_line eval e).
Proof.
  intros H. unfold read_line. destruct (readLine (stdin e)) as [[l ok] rest].
  case_match; [|by apply stays_intro, with_stdin_fine].
  pose proof (eval_stays l _ (with_stdin_fine e rest H)) as Hs. by destruct (eval l _).
Qed.

Lemma execute_stays e : env_fine e -> stays (execute eval e).
Proof.
  intros H. unfold execute. destruct (popVal e) as [[v e1]|] eqn:E1; [|done].
  apply popVal_fine in E1 as (Hv & H1 & _); [|done]. case_match; [by apply eval_stays|].
  by apply stays_intro, push_fine.
Qed.

Lemma command_stays op rs e : env_fine e -> stays3 (command eval op rs e).
Proof.
  intros H. destruct op; cbn [command];
    first [ done | by apply run_cond_stays
          | apply simple_stays; first [by apply printing_stays | by apply stacking_stays
              | by apply arithmetic_stays | by apply scaling_stays | by apply converting_stays
              | by apply execute_stays | by apply read_line_stays]
          | destruct (parseRegName _ rs) as [reg t]; apply simple_stays; by apply registers_stays
          | idtac ].
  destruct rs as [|r t]; [done|]. destruct (cond_of r); [by apply run_cond_stays|done].
Qed.
End Stays.

Lemma turn_stays eval ch rs e : (forall s e, env_fine e -> stays (eval s e)) ->
  env_fine e -> stays3 (turn eval ch rs e).
Proof.
  intros He H. unfold turn. destruct (is_white ch); [done|]. destruct (isc ch "#"); [done|].
  destruct (isc ch "["); [destruct (read_string 1 rs); by apply push_fine|].
  destruct (starts_number ch); [|by apply command_stays].
  destruct (parseNumber (ch :: rs)) as [[s t]|]; [|done].
  destruct (newNumStr s) as [[r d]|err] eqn:E; [|done].
  apply push_fine; [done|]. apply value_ok_fine. by eapply newNumStr_ok.
Qed.

Lemma exec_stays fuel : forall rs e, env_fine e -> stays (exec fuel rs e).
Proof.
  induction fuel as [|fuel IH]; intros rs e H; [done|]. cbn [exec].
  destruct rs as [|ch rs]; [done|].
  pose proof (turn_stays (fun s => exec fuel (runes s)) ch rs e (fun s e => IH (runes s) e) H) as Ht.
  destruct (turn _ ch rs e) as [[o t] e']. destruct o; try done. by apply IH.
Qed.

Lemma initial_fine x s : env_fine (initial x s).
Proof. split; [apply Forall_nil_2|apply map_Forall_empty|reflexivity]. Qed.
