(* ===== verification/DcLaws.v ===== *)
(** What dc computes: properties of the interpreter of Dc.v, on whole programs.

    Quoted programs, division and the other arithmetic, square roots, numbers that stay in range,
    printed numbers that read back, termination, wrapped lines. *)

From Stdlib Require Import Qpower Lqa Lia.
From S2P Require Import Prelude GoStd Utf8 Rat DcNum Output Dc DcRange.

Local Open Scope Z_scope.

(** * Macros *)

(** Balanced brackets, and no backslash; [d] are open. *)
Fixpoint balanced (d : nat) (rs : list Z) : bool :=
  match rs with
  | [] => match d with O => true | _ => false end
  | c :: t =>
      if isc c "[" then balanced (S d) t
      else if isc c "]" then match d with O => false | S d => balanced d t end
      else negb (isc c "\") && balanced d t
  end.

Lemma read_string_balanced rs : forall d t, balanced d rs = true ->
  read_string (S d) (rs ++ code "]" :: t) = (rs, t).
Proof.
  induction rs as [|c rs IH]; intros d t; cbn [balanced app read_string].
  - destruct d; [done|done].
  - destruct (isc c "["); [intros H; by rewrite (IH (S d))|].
    destruct (isc c "]"); [destruct d as [|d]; [done|]; intros H; by rewrite (IH d)|].
    intros [Hb H]%andb_true_iff. apply negb_true_iff in Hb. rewrite Hb. by rewrite (IH d).
Qed.

Lemma exec_turn fuel ch rs e : exec (S fuel) (ch :: rs) e =
  match turn (fun s => exec fuel (runes s)) ch rs e with
  | (Done, rs, e) => exec fuel rs e
  | (o, _, e) => (o, e)
  end.
Proof. reflexivity. Qed.

Lemma with_stack_push v e : with_stack (push v e) (stack (st e)) = e.
Proof. by destruct e as [[]]. Qed.

(** A quoted program that is run at once is the program. *)
Lemma quoted_runs s e fuel : str_forall ascii_char s = true -> balanced 0 (runes s) = true -> (0 < fuel)%nat ->
  evalDC (S (S fuel)) ("[" +:+ s +:+ "]x") e = evalDC fuel s e.
Proof.
  intros Ha Hb Hf. unfold evalDC.
  rewrite (runes_app "[") by (rewrite ?str_forall_app, ?Ha; done). rewrite (runes_app s) by done.
  change (runes "[") with [code "["]. change (runes "]x") with [code "]"; code "x"].
  cbn [app]. rewrite exec_turn.
  assert (turn (fun s => exec (S fuel) (runes s)) (code "[") (runes s ++ [code "]"; code "x"]) e =
    (Done, [code "x"], push (text s) e)) as ->.
  { unfold turn. change (is_white (code "[")) with false. change (isc (code "[") "#") with false.
    change (isc (code "[") "[") with true. cbv iota. rewrite read_string_balanced by done.
    by rewrite ascii_runes_string. }
  rewrite exec_turn.
  assert (turn (fun s => exec fuel (runes s)) (code "x") [] (push (text s) e) =
    let '(o, e) := exec fuel (runes s) e in (o, [], e)) as ->.
  { change (turn ?ev (code "x") ?t ?e) with (command ev Execute t e). cbn [command execute popVal push].
    unfold execute, popVal. cbn [stack st push with_stack isStr text str]. fold (push (text s) e).
    by rewrite with_stack_push. }
  destruct (exec fuel (runes s) e) as [o e']. destruct o; try done.
  destruct fuel; [lia|done].
Qed.

(** * Properties of the commands *)

(** A command that reads no more runes, alone on the line. *)
Lemma exec_simple c fuel e (r : outcome * env) :
  (forall eval, turn eval (code c) [] e = (let '(o, e) := r in (o, [], e))) -> fst r <> OutOfFuel ->
  ascii_char c = true -> evalDC (S (S fuel)) (String c "") e = r.
Proof.
  intros H Hr Hc. unfold evalDC. rewrite runes_ascii by (cbn [str_forall]; by rewrite Hc).
  cbn [String.list_ascii_of_string fmap list_fmap]. rewrite exec_turn, H. destruct r as [o e']. by destruct o.
Qed.

Lemma popTwo_top e a b s : stack (st e) = b :: a :: s -> isStr a = false -> isStr b = false ->
  popTwoNumFD e = inl ((a, b), with_stack e s).
Proof.
  intros E Ia Ib. unfold popTwoNumFD, popNumValFD, popVal. rewrite E. cbn. unfold as_number. by rewrite Ia, Ib.
Qed.

Lemma binary_top op e a b s vs : stack (st e) = b :: a :: s -> isStr a = false -> isStr b = false ->
  op a b = Ok vs -> binary op e = (Done, with_stack e (vs ++ s)).
Proof. intros E Ia Ib H. unfold binary. by rewrite (popTwo_top e a b s), H by done. Qed.

(** The two numbers on top of a stack. *)
Record operands (e : env) (a b : dcValue) (s : list dcValue) : Prop := {
  on_stack : stack (st e) = b :: a :: s;
  first_ok : value_ok a;
  second_ok : value_ok b;
  first_num : isStr a = false;
  second_num : isStr b = false;
  scale_ok : 0 <= scale (st e);
  first_digits : 0 <= fracDigits a;
  second_digits : 0 <= fracDigits b
}.

Lemma run_binary fuel c op e a b s vs : operands e a b s -> ascii_char c = true ->
  (forall eval, turn eval (code c) [] e = (let '(o, e) := binary op e in (o, [], e))) ->
  op a b = Ok vs -> evalDC (S (S fuel)) (String c "") e = (Done, with_stack e (vs ++ s)).
Proof.
  intros [E _ _ Ia Ib _ _ _] Hc Ht H. rewrite <- (binary_top op e a b s vs) by done.
  apply exec_simple; [done| |done]. by rewrite (binary_top op e a b s vs).
Qed.

(** Division in dc: on two numbers, of which the top one is not zero, the commands / and % push
    the two results of ~, the quotient cut at the scale, toward zero, and the remainder, for which
    the division is exact: smaller than a unit of the quotient's last decimal times the divisor,
    and of the sign of the dividend. *)
Theorem dc_division fuel e a b s : operands e a b s ->
  scale (st e) + fracDigits b < 2 ^ 63 -> ~ (rat b == 0)%Q ->
  exists q r,
    evalDC (S (S fuel)) "~" e = (Done, with_stack e (r :: q :: s)) /\
    evalDC (S (S fuel)) "/" e = (Done, with_stack e (q :: s)) /\
    evalDC (S (S fuel)) "%" e = (Done, with_stack e (r :: s)) /\
    cut (scale (st e)) (rat a / rat b) (rat q) /\ fracDigits q = scale (st e) /\
    (rat a == rat q * rat b + rat r)%Q /\
    (Qabs (rat r) < Qabs (rat b) * dec 1 (scale (st e)))%Q /\ (0 <= rat r * rat a)%Q.
Proof.
  intros Ho Hov Hz. pose proof Ho as [E Ha Hb Ia Ib Hk Hfa Hfb]. set (k := scale (st e)) in *.
  destruct (remainder k a b) as [r fd] eqn:Er.
  set (q := RatTruncate (ratQuo (rat a) (rat b)) k).
  pose proof (remainder_exact k a b Ha Hb Ia Ib Hk Hfb Hov Hz) as Ex. rewrite Er in Ex. cbn [fst] in Ex.
  fold q in Ex.
  assert (cut k (rat a / rat b) q) as Hq.
  { apply RatTruncate_cut_eq; [done|]. apply Qred_correct. }
  destruct (cut_remainder k _ _ q r Hz Hq Ex) as [H1 H2].
  exists (number q k (negb (eqb (isNegVal a) (isNegVal b)) && is_zero q)), (number r fd (isNegVal a && is_zero r)).
  split; [|split; [|split; [|done]]].
  - eapply (run_binary fuel "~" _ e a b s [_; _]); [done|done|intros; reflexivity|].
    cbv zeta. fold k. unfold dc_divmod. rewrite is_zero_false by done. fold q. by rewrite Er.
  - eapply (run_binary fuel "/" _ e a b s [_]); [done|done|intros; reflexivity|].
    cbv zeta. fold k. unfold dc_div. rewrite is_zero_false by done. done.
  - eapply (run_binary fuel "%" _ e a b s [_]); [done|done|intros; reflexivity|].
    cbv zeta. fold k. unfold dc_mod. rewrite is_zero_false by done. by rewrite Er.
Qed.

(** The state with two numbers on the stack. *)
Definition two_numbers (k : Z) (a b : dcValue) : env :=
  {| st := {| stack := [b; a]; regs := ∅; extendedReg := false; scale := k |}; stdin := ""; output := [] |}.

Lemma two_numbers_operands k a b : value_ok a -> value_ok b -> isStr a = false -> isStr b = false ->
  0 <= k -> 0 <= fracDigits a -> 0 <= fracDigits b -> operands (two_numbers k a b) a b [].
Proof. by split. Qed.

Lemma dc_division_witness : exists q r,
    evalDC 2 "~" (two_numbers 3 (number (-10) 0 false) (number 3 0 false)) =
      (Done, with_stack (two_numbers 3 (number (-10) 0 false) (number 3 0 false)) [r; q]) /\
    rat q = (-3333 # 1000)%Q /\ rat r = (-1 # 1000)%Q.
Proof.
  destruct (dc_division 0 (two_numbers 3 (number (-10) 0 false) (number 3 0 false)) (number (-10) 0 false)
    (number 3 0 false) []) as (q & r & H & _); [|done|done|].
  - apply two_numbers_operands; try done; apply integer_ok.
  - vm_compute in H. exists q, r. split; [|injection H as <- <-; done]. vm_compute. exact H.
Defined.

Lemma mul_digits k fa fb : 0 <= k -> 0 <= fa -> 0 <= fb -> fa + fb < 2 ^ 63 ->
  (if Z.max (Z.max k fa) fb <? wrap 64 (fa + fb) then Z.max (Z.max k fa) fb else wrap 64 (fa + fb)) =
  Z.min (fa + fb) (Z.max k (Z.max fa fb)).
Proof. intros. rewrite (wrap_small 64) by lia. case_match; lia. Qed.

(** Addition and subtraction in dc are exact, with as many decimals as the longer operand; a
    product is cut after the decimals that POSIX gives it; a power with an exponent that fits 64
    bits is cut in the same way, and at the scale when the exponent is negative. *)
Theorem dc_arithmetic fuel e a b s : operands e a b s -> fracDigits a + fracDigits b < 2 ^ 63 ->
  let k := scale (st e) in
  let n := qtrunc (rat b) in
  (exists r, evalDC (S (S fuel)) "+" e = (Done, with_stack e (r :: s)) /\
    (rat r == rat a + rat b)%Q /\ fracDigits r = Z.max (fracDigits a) (fracDigits b)) /\
  (exists r, evalDC (S (S fuel)) "-" e = (Done, with_stack e (r :: s)) /\
    (rat r == rat a - rat b)%Q /\ fracDigits r = Z.max (fracDigits a) (fracDigits b)) /\
  (exists r, evalDC (S (S fuel)) "*" e = (Done, with_stack e (r :: s)) /\
    fracDigits r = Z.min (fracDigits a + fracDigits b) (Z.max k (Z.max (fracDigits a) (fracDigits b))) /\
    cut (fracDigits r) (rat a * rat b) (rat r)) /\
  (- 2 ^ 63 < n -> n * Z.max 1 (fracDigits a) < 2 ^ 63 -> ~ (rat a == 0)%Q ->
   exists r, evalDC (S (S fuel)) "^" e = (Done, with_stack e (r :: s)) /\
    fracDigits r = (if n =? 0 then 0 else if n <? 0 then k else Z.min (n * fracDigits a) (Z.max k (fracDigits a))) /\
    cut (fracDigits r) (rat a ^ n) (rat r)).
Proof.
  intros Ho Hov k n. pose proof Ho as [E Ha Hb Ia Ib Hk Hfa Hfb]. fold k in Hk.
  split; [|split; [|split]].
  - exists (dc_add a b). split; [eapply (run_binary fuel "+" _ e a b s [_]); [done|done|intros; reflexivity|done]|].
    split; [apply Qred_correct|done].
  - exists (dc_sub a b). split; [eapply (run_binary fuel "-" _ e a b s [_]); [done|done|intros; reflexivity|done]|].
    split; [apply Qred_correct|done].
  - exists (dc_mul k a b). split; [eapply (run_binary fuel "*" _ e a b s [_]); [done|done|intros; reflexivity|done]|].
    unfold dc_mul. cbn [fracDigits rat number]. rewrite mul_digits by done. split; [done|].
    apply RatTruncate_cut_eq; [lia|]. apply Qred_correct.
  - intros Hn1 Hn2 Hz. exists (dc_pow k a b).
    split; [eapply (run_binary fuel "^" _ e a b s [_]); [done|done|intros; reflexivity|done]|].
    assert (n * fracDigits a < 2 ^ 63 /\ n < 2 ^ 63) as [Hn3 Hn4] by nia.
    unfold dc_pow. assert (RatToInt64 (rat b) = n) as ->.
    { unfold RatToInt64. change (Num (rat b) ÷ Denom (rat b)) with n. apply wrap_small; lia. }
    rewrite is_zero_false by done. destruct (Z.eqb_spec n 0) as [->|Hn0].
    { cbn [fracDigits rat number]. split; [done|]. simpl Qpower. exists 1. by vm_compute. }
    destruct (Z.ltb_spec n 0) as [Hneg|Hpos]; cbn [fracDigits rat number].
    + split; [done|]. rewrite (wrap_small 64) by lia.
      apply RatTruncate_cut_eq; [done|]. rewrite Qred_correct, ratPowInt_ok by lia.
      by rewrite Qpower_opp, Qinv_involutive.
    + rewrite (wrap_small 64) by nia.
      replace (if Z.max k (fracDigits a) <? n * fracDigits a then _ else _) with
        (Z.min (n * fracDigits a) (Z.max k (fracDigits a))) by (case_match; lia).
      split; [done|]. apply RatTruncate_cut_eq; [nia|]. apply ratPowInt_ok. lia.
Qed.

Lemma dc_arithmetic_witness :
  let e := two_numbers 1 (number (3 # 2) 1 false) (number (-2) 0 false) in
  exists r, evalDC 2 "^" e = (Done, with_stack e [r]) /\ fracDigits r = 1 /\ cut (fracDigits r) (4 # 9) (rat r).
Proof.
  intros e. destruct (dc_arithmetic 0 e (number (3 # 2) 1 false) (number (-2) 0 false) []) as (_ & _ & _ & H).
  - apply two_numbers_operands; try done; [|apply integer_ok].
    intros _. split; [done|]. by exists 15.
  - done.
  - destruct H as (r & H1 & H2 & H3); [done|done|done|]. exists r. split; [exact H1|]. split; [exact H2|exact H3].
Defined.

(** The command v pushes the square root cut after as many decimals as the scale and the operand
    have, when the operand has at most two more than the scale. *)
Theorem dc_square_root fuel e a s : stack (st e) = a :: s -> value_ok a -> isStr a = false ->
  (0 <= rat a)%Q -> 0 <= scale (st e) -> 2 * (scale (st e) + 2) < 2 ^ 63 ->
  0 <= fracDigits a <= scale (st e) + 2 ->
  exists r, evalDC (S (S fuel)) "v" e = (Done, with_stack e (r :: s)) /\
    fracDigits r = Z.max (scale (st e)) (fracDigits a) /\ decimal (fracDigits r) (rat r) /\ (0 <= rat r)%Q /\
    (rat r * rat r <= rat a)%Q /\
    (rat a < (rat r + dec 1 (fracDigits r)) * (rat r + dec 1 (fracDigits r)))%Q.
Proof.
  intros E Ha Ia Hp Hk Hov Hf.
  destruct (dc_sqrt_exact (scale (st e)) a Ha Ia Hp Hk Hf Hov) as (r & Er & Hr & H).
  exists r. split; [|split; [done|split; [|done]]].
  - apply exec_simple; [|done|done]. intros eval. change (turn eval (code "v") [] e) with (command eval SquareRoot [] e).
    cbn [command arithmetic]. unfold popNumValFD, popVal. rewrite E. cbn [mbind option_bind fst snd].
    unfold as_number. by rewrite Ia, Er.
  - pose proof (dc_sqrt_ok _ _ _ Er) as Hok. destruct (isStr r) eqn:Ir.
    + unfold dc_sqrt in Er. case_match; [done|]. by injection Er as <-.
    + destruct (Hok Ir) as [_ Hd]. by rewrite Z.max_r in Hd by lia.
Qed.

Lemma dc_square_root_witness :
  let e := push (number 2 0 false) (with_scale (initial false "") 3) in
  exists r, evalDC 2 "v" e = (Done, with_stack e [r]) /\ fracDigits r = 3 /\
    (rat r * rat r <= 2 /\ 2 < (rat r + dec 1 3) * (rat r + dec 1 3))%Q.
Proof.
  intros e. destruct (dc_square_root 0 e (number 2 0 false) []) as (r & H1 & H2 & _ & _ & H3 & H4);
    [done|apply integer_ok|done|done|done|done|done|].
  exists r. split; [exact H1|]. split; [exact H2|]. rewrite H2 in H4. split; [exact H3|exact H4].
Defined.

(** C23: At every moment of a run of dc (any program, fuel and standard input; whatever the outcome, errors,
    panics and cut-short evaluations included) every number on the stack and in the registers is in
    lowest terms and a decimal fraction, and the scale is not negative.  When the run ends without an error and
    nothing was on standard input for the command [?], no number has more decimals than it says.  (With a line to
    read it can: see [failed_comparison_drops_decimals].) *)
Theorem dc_numbers_in_range fuel extended input stdin :
  let '(o, e) := evalDC fuel input (initial extended stdin) in
  (Forall value_fine (stack (st e)) /\ map_Forall (fun _ l => Forall value_fine l) (regs (st e)) /\
   0 <= scale (st e)) /\
  (o = Done -> stdin = "" ->
   Forall value_ok (stack (st e)) /\ map_Forall (fun _ l => Forall value_ok l) (regs (st e))).
Proof.
  pose proof (exec_stays fuel (runes input) _ (initial_fine extended stdin)) as Hf.
  unfold evalDC. destruct (exec fuel (runes input) _) as [o e] eqn:E. split; [by destruct Hf|].
  intros -> ->. pose proof (exec_keeps fuel (runes input) _ (initial_ok extended)) as Hk.
  rewrite E in Hk. by destruct (Hk eq_refl).
Qed.

Lemma dc_numbers_in_range_witness :
  exists e, evalDC 20 "3k 2 3 / 1.50 sa" (initial false "") = (Done, e) /\
    Forall value_ok (stack (st e)) /\ map_Forall (fun _ l => Forall value_ok l) (regs (st e)) /\
    0 <= scale (st e).
Proof.
  pose proof (dc_numbers_in_range 20 false "3k 2 3 / 1.50 sa" "") as H.
  destruct (evalDC 20 "3k 2 3 / 1.50 sa" (initial false "")) as [o e] eqn:E.
  assert (o = Done) as -> by (apply (f_equal fst) in E; vm_compute in E; by symmetry).
  exists e. split; [done|]. destruct H as [(_ & _ & Hs) H]. destruct (H eq_refl eq_refl) as [H1 H2]. done.
Defined.

(** A line read by [?] that fails in a comparison puts its number back without its decimals: twice .25 is 0. *)
Example failed_comparison_drops_decimals :
  output (snd (evalDC 50 "?2*p" (initial false ("0.25(" +:+ String "010" "")))) = ["0"] /\
  output (snd (evalDC 50 "?2*p" (initial false ("0.25" +:+ String "010" "")))) = [".50"].
Proof. by vm_compute. Qed.

(** ** Printing and reading *)

(** A printed number as dc reads it: an underscore for the minus. *)
Definition as_input (s : string) : string :=
  match s with String c t => if c =c? "-" then String "_" t else s | "" => "" end.

Definition ends_digits (t : list Z) : Prop := match t with [] => True | r :: _ => rune_digit r = false end.

Lemma span_digits i t : str_forall is_digit i = true -> ends_digits t ->
  span rune_digit (codes i ++ t) = (codes i, t).
Proof.
  intros Hi Ht. induction i as [|c i IH].
  - change (codes "" ++ t) with t. destruct t as [|r t]; [done|]. cbn in *. by rewrite Ht.
  - cbn [str_forall] in Hi. apply andb_true_iff in Hi as [Hc Hi]. unfold is_digit in Hc.
    change (codes (String c i)) with (code c :: codes i). cbn [app span].
    unfold rune_digit at 1. by rewrite Hc, IH.
Qed.

Lemma digit_rune c d : is_digit c = true -> is_digit d = false ->
  rune_digit (code c) = true /\ isc (code c) d = false.
Proof.
  intros Hc Hd. split; [exact Hc|]. unfold isc. destruct (Z.eqb_spec (code c) (code d)) as [E|]; [|done].
  unfold is_digit in *. rewrite E in Hc. congruence.
Qed.

Lemma digit_ascii c : is_digit c = true -> ascii_char c = true.
Proof. unfold is_digit, ascii_char. lia. Qed.

Lemma digits_ascii s : str_forall is_digit s = true -> str_forall ascii_char s = true.
Proof. apply str_forall_impl, digit_ascii. Qed.

Lemma as_input_sign sgn neg c s : sign_text sgn neg -> is_digit c = true \/ c = "."%char ->
  as_input (sgn +:+ String c s) = (if neg then "_" else "") +:+ String c s.
Proof.
  intros Hs Hc. assert ((c =c? "-") = false) as Hm.
  { destruct Hc as [Hc| ->]; [|done]. apply negb_true_iff. by apply digit_not. }
  destruct Hs; [|reflexivity..]. rewrite sapp_nil_l. cbn [as_input]. by rewrite Hm.
Qed.

Lemma printed_as_input r fd s : printed r fd s -> printed r fd (as_input s) /\ as_input s <> "" /\
  exists neg i t, as_input s = (if neg : bool then "_" else "") +:+ i +:+ t /\ str_forall is_digit i = true /\
    ((t = "" /\ i <> "") \/ exists f, t = "." +:+ f /\ f <> "" /\ str_forall is_digit f = true).
Proof.
  intros (sgn & neg & i & f & n & Hs & Hi & Hf & H).
  assert (sign_text (if neg then "_" else "") neg) as Hs' by (destruct neg; constructor).
  assert (forall b, b <> "" -> (exists c u, b = String c u /\ (is_digit c = true \/ c = "."%char)) ->
    as_input (sgn +:+ b) = (if neg then "_" else "") +:+ b /\ as_input (sgn +:+ b) <> "") as Hb.
  { intros b Hn (c & u & -> & Hc). rewrite (as_input_sign sgn neg) by done. split; [done|].
    destruct neg; done. }
  destruct H as [(-> & Hn & P & -> & ->)|(-> & Hn & <- & P & ->)].
  - destruct (Hb i) as [-> Hne]; [done| |].
    { destruct i as [|c u]; [done|]. exists c, u. split; [done|left]. cbn [str_forall] in Hi.
      by apply andb_true_iff in Hi as [? _]. }
    split; [exists (if neg then "_" else ""), neg, i, f, n; auto 10|]. split; [by destruct neg, i|].
    exists neg, i, "". rewrite sapp_nil_r. auto.
  - destruct (Hb (i +:+ "." +:+ f)) as [-> Hne]; [by destruct i| |].
    { destruct i as [|c u]; [exists "."%char, f; auto|]. exists c, (u +:+ "." +:+ f). split; [done|left].
      cbn [str_forall] in Hi. by apply andb_true_iff in Hi as [? _]. }
    split; [exists (if neg then "_" else ""), neg, i, f, n; auto 10|]. split; [by destruct neg, i|].
    exists neg, i, ("." +:+ f). eauto 10.
Qed.

Lemma string_of_codes s : str_forall ascii_char s = true -> string_of_runes (codes s) = s.
Proof. intros H. unfold codes. rewrite <- runes_ascii by done. by apply ascii_runes_string. Qed.

Lemma parseNumber_text neg i t : str_forall is_digit i = true ->
  ((t = "" /\ i <> "") \/ exists f, t = "." +:+ f /\ f <> "" /\ str_forall is_digit f = true) ->
  let s := (if neg : bool then "_" else "") +:+ i +:+ t in
  str_forall ascii_char s = true /\ parseNumber (codes s) = Some (s, []).
Proof.
  intros Hi Ht s.
  assert (str_forall ascii_char s = true) as Hs.
  { unfold s. rewrite !str_forall_app, (digits_ascii i Hi).
    destruct Ht as [[-> _]|(f & -> & _ & Hf)]; [by destruct neg|]. rewrite str_forall_app, (digits_ascii f Hf).
    by destruct neg. }
  split; [done|]. rewrite <- (string_of_codes s Hs) at 2. unfold s. rewrite !codes_app.
  unfold parseNumber.
  assert (forall b, (forall r u, b = r :: u -> isc r "_" = false) ->
    match codes (if neg then "_" else "") ++ b with
    | r :: u => if isc r "_" then ([r], u) else ([], codes (if neg then "_" else "") ++ b)
    | [] => ([], []) end = (codes (if neg then "_" else ""), b)) as ->.
  { intros b Hb. destruct neg; [done|]. change (codes "") with (@nil Z). cbn [app].
    destruct b as [|r u]; [done|]. by rewrite (Hb r u). }
  2: { intros r u E. destruct i as [|c i].
       - destruct Ht as [[_ Hn]|(f & -> & _)]; [done|]. cbn in E. by injection E as <- _.
       - cbn [str_forall] in Hi. apply andb_true_iff in Hi as [Hc _]. injection E as <- _.
         by apply digit_rune. }
  destruct Ht as [[-> Hn]|(f & -> & Hn & Hf)].
  - change (codes "") with (@nil Z) at 1 2 3 4. rewrite (span_digits i []) by done. rewrite !app_nil_r.
    destruct i as [|c i]; [done|]. change (codes (String c i)) with (code c :: codes i).
    cbn [str_forall] in Hi. apply andb_true_iff in Hi as [Hc _].
    destruct (digit_rune c "." Hc eq_refl) as [E1 E2]. rewrite E2. cbv iota. by rewrite E1.
  - rewrite codes_app. rewrite (span_digits i) by done. change (codes ".") with [46]. cbn [app].
    change (isc 46 ".") with true. cbv iota. rewrite <- (app_nil_r (codes f)) at 1.
    rewrite (span_digits f []) by done.
    destruct i as [|c i].
    + cbn [codes app]. change (codes "" ++ ?l) with l. change (isc 46 ".") with true. cbv iota.
      destruct f as [|d f]; [done|]. cbn [str_forall] in Hf. apply andb_true_iff in Hf as [Hd _].
      change (codes (String d f)) with (code d :: codes f).
      destruct (digit_rune d "." Hd eq_refl) as [E1 _]. change (isc 46 ".") with true. cbv iota. by rewrite E1.
    + change (codes (String c i)) with (code c :: codes i). cbn [app].
      cbn [str_forall] in Hi. apply andb_true_iff in Hi as [Hc _].
      destruct (digit_rune c "." Hc eq_refl) as [E1 E2]. rewrite E2. cbv iota. by rewrite E1.
Qed.

(** What dc prints for a number reads back: whatever number a program leaves on the stack, the
    text that dc prints for it, with an underscore for the minus, is a program that pushes the same
    number, with the decimals that are shown. *)
Theorem dc_reads_printed fuel extended input e v : evalDC fuel input (initial extended "") = (Done, e) ->
  v ∈ stack (st e) -> isStr v = false -> - 2 ^ 63 <= fracDigits v < 2 ^ 63 - 10 ->
  forall e', evalDC (S (S fuel)) (as_input (String_of v)) e' =
    (Done, push (number (rat v) (shown_decimals (rat v) (fracDigits v)) false) e').
Proof.
  intros H Hv Iv Hfd e'.
  pose proof (exec_keeps fuel (runes input) _ (initial_ok extended)) as Hk.
  unfold evalDC in H. rewrite H in Hk. pose proof (ok_stack e (Hk eq_refl)) as Hs. rewrite Forall_forall in Hs.
  destruct (Hs v Hv Iv) as [Rv Dv]. unfold String_of. rewrite Iv.
  pose proof (formatRat_printed (rat v) (fracDigits v) (negZero v) Rv Dv ltac:(lia) ltac:(lia)) as Hp.
  destruct (printed_as_input _ _ _ Hp) as (Hr & Hn & neg & i & t & E & Hi & Ht).
  apply printed_reads in Hr. destruct (parseNumber_text neg i t Hi Ht) as [Ha Hn']. cbv zeta in Ha, Hn'.
  rewrite <- E in Ha, Hn'. unfold evalDC. rewrite runes_ascii by done. fold (codes (as_input (formatRat (rat v)
    (fracDigits v) (negZero v)))). set (s := as_input _) in *.
  destruct (codes s) as [|ch rs] eqn:Ec.
  { exfalso. apply Hn. destruct s; [done|discriminate Ec]. }
  rewrite exec_turn.
  assert (is_white ch = false /\ isc ch "#" = false /\ isc ch "[" = false /\ starts_number ch = true) as (W & S1 & S2 & S3).
  { assert (ch = code "_" \/ ch = code "." \/ rune_digit ch = true) as Hch.
    { rewrite E in Ec. destruct neg; [left; by injection Ec as <-|right].
      rewrite sapp_nil_l in Ec. destruct i as [|c i].
      - destruct Ht as [[_ ?]|(f & -> & _)]; [done|]. left. by injection Ec as <-.
      - right. injection Ec as <- _. cbn [str_forall] in Hi. by apply andb_true_iff in Hi as [Hc _]. }
    destruct Hch as [->|[->|Hch]]; [done|done|]. unfold starts_number. rewrite Hch. unfold rune_digit in Hch.
    unfold is_white, isc. change (code " ") with 32. change (code "#") with 35. change (code "[") with 91.
    repeat split; lia. }
  unfold turn. rewrite W, S1, S2, S3, Hn', Hr. reflexivity.
Qed.

Lemma dc_reads_printed_witness :
  evalDC 22 "_1.500" (initial false "") = (Done, push (number (-3 # 2) 3 false) (initial false "")).
Proof.
  destruct (evalDC 20 "3k 3 _2 /" (initial false "")) as [o e] eqn:E. vm_compute in E. injection E as <- <-.
  refine (dc_reads_printed 20 false "3k 3 _2 /" _ (number (-3 # 2) 3 false) _ _ _ _ (initial false "")).
  - vm_compute. reflexivity.
  - left.
  - reflexivity.
  - cbn. lia.
Defined.

(** A program in brackets that is executed at once does what the program does: the brackets
    quote exactly their balanced contents. *)
Theorem dc_quoted_program_runs program fuel e : str_forall ascii_char program = true ->
  balanced 0 (runes program) = true -> (0 < fuel)%nat ->
  evalDC (S (S fuel)) ("[" +:+ program +:+ "]x") e = evalDC fuel program e.
Proof. apply quoted_runs. Qed.

Lemma dc_quoted_program_runs_witness :
  evalDC 20 "[1 [2]x + p]x" (initial false "") = evalDC 18 "1 [2]x + p" (initial false "").
Proof. exact (dc_quoted_program_runs "1 [2]x + p" 18 (initial false "") eq_refl eq_refl ltac:(lia)). Defined.

(** Dc ends on every program that runs no macro and reads no line, in a step for each rune at
    most; and a program that ends at all has one result, which more steps do not change. *)
Theorem dc_ends input e :
  (forallb (fun r => negb (runs_text r)) (runes input) = true ->
   fst (evalDC (S (length (runes input))) input e) <> OutOfFuel) /\
  forall fuel fuel', (fuel <= fuel')%nat -> fst (evalDC fuel input e) <> OutOfFuel ->
    evalDC fuel' input e = evalDC fuel input e.
Proof.
  split; [intros H; apply exec_ends; [lia|done]|]. intros fuel fuel' Hf. by apply exec_mono.
Qed.

Lemma dc_ends_witness :
  fst (evalDC 8 "1 2+pz^" (initial false "")) <> OutOfFuel /\
  evalDC 100 "1 2+pz^" (initial false "") = evalDC 8 "1 2+pz^" (initial false "").
Proof.
  destruct (dc_ends "1 2+pz^" (initial false "")) as [H1 H2].
  assert (fst (evalDC 8 "1 2+pz^" (initial false "")) <> OutOfFuel) as H by (apply H1; reflexivity).
  split; [exact H|]. apply H2; [lia|exact H].
Defined.

(** A macro that calls itself last: the program needs no memory, but evalDC recurs without end. *)
Lemma tail_call_recurs fuel : fst (evalDC fuel "[lax]salax" (initial false "")) = OutOfFuel.
Proof.
  assert (forall n e, (regs (st e) !! "a" = Some [text "lax"]) -> extendedReg (st e) = false ->
    fst (exec n (codes "lax") e) = OutOfFuel) as H.
  { intros n. induction n as [n IH] using lt_wf_ind. intros e Ha Hx. destruct n as [|n]; [done|].
    change (codes "lax") with [108; 97; 120]. rewrite exec_turn.
    assert (turn (fun s => exec n (runes s)) 108 [97; 120] e = (Done, [120], push (text "lax") e)) as ->.
    { change (turn ?ev 108 ?t e) with (command ev LoadReg t e). cbn [command parseRegName]. rewrite Hx.
      cbn [andb]. change (EncodeRune 97) with "a". unfold registers. rewrite seqb_ne by done.
      by rewrite Ha. }
    destruct n as [|n]; [done|]. rewrite exec_turn.
    assert (turn (fun s => exec n (runes s)) 120 [] (push (text "lax") e) =
      let '(o, e) := exec n (runes "lax") e in (o, [], e)) as ->.
    { change (turn ?ev 120 ?t ?e) with (command ev Execute t e). cbn [command]. unfold execute, popVal.
      cbn [stack st push with_stack isStr text str]. fold (push (text "lax") e). by rewrite with_stack_push. }
    change (runes "lax") with (codes "lax"). specialize (IH n ltac:(lia) e Ha Hx).
    destruct (exec n (codes "lax") e) as [o e']. cbn [fst] in IH. by subst o. }
  unfold evalDC. change (runes "[lax]salax") with [91; 108; 97; 120; 93; 115; 97; 108; 97; 120].
  destruct fuel as [|fuel]; [done|]. rewrite exec_turn.
  assert (turn (fun s => exec fuel (runes s)) 91 [108; 97; 120; 93; 115; 97; 108; 97; 120] (initial false "") =
    (Done, [115; 97; 108; 97; 120], push (text "lax") (initial false ""))) as -> by reflexivity.
  destruct fuel as [|fuel]; [done|]. rewrite exec_turn.
  set (e1 := with_regs (initial false "") (<["a" := [text "lax"]]> ∅)).
  assert (turn (fun s => exec fuel (runes s)) 115 [97; 108; 97; 120] (push (text "lax") (initial false "")) =
    (Done, [108; 97; 120], e1)) as -> by reflexivity.
  apply (H fuel e1); [apply lookup_insert_eq|done].
Qed.

(** ** Lines *)

(** The pieces of a wrapped line, put together. *)
Fixpoint unwrap (ls : list string) : string :=
  match ls with
  | [] => ""
  | [l] => l
  | l :: ls => str_take (String.length l - 1) l +:+ unwrap ls
  end.

Lemma wrap_line_nonempty fuel s : wrap_line fuel s <> [].
Proof. destruct fuel; simpl; [done|]. by case_match. Qed.

Lemma wrap_line_ok fuel : forall s, (String.length s <= fuel)%nat ->
  unwrap (wrap_line fuel s) = s /\ Forall (fun l => String.length l <= 70)%nat (wrap_line fuel s).
Proof.
  assert (forall n s, (n <= String.length s)%nat -> String.length (str_take n s) = n) as Ht.
  { induction n as [|n IH]; intros [|c s] H; simpl in *; [done..|lia|]. by rewrite IH by lia. }
  induction fuel as [|fuel IH]; intros s Hs; cbn [wrap_line].
  - split; [done|]. constructor; [lia|constructor].
  - destruct (Nat.ltb_spec 69 (String.length s)) as [Hl|Hl]; [|split; [done|constructor; [lia|constructor]]].
    pose proof (Ht 69%nat s ltac:(lia)) as H69. pose proof (str_take_drop 69 s) as Hd.
    assert (String.length (str_drop 69 s) = String.length s - 69)%nat as Hl'.
    { apply (f_equal String.length) in Hd. rewrite slength_app in Hd. lia. }
    destruct (IH (str_drop 69 s) ltac:(lia)) as [E F]. pose proof (wrap_line_nonempty fuel (str_drop 69 s)) as Hn.
    destruct (wrap_line fuel (str_drop 69 s)) as [|l ls]; [done|]. split.
    + cbn [unwrap] in *. rewrite E. rewrite slength_app. cbn [String.length]. rewrite Nat.add_sub.
      by rewrite str_take_exact.
    + constructor; [|done]. rewrite slength_app, H69. simpl. lia.
Qed.

(** Lines of a single word wrap to lines of at most 70 bytes that join to it. *)
Lemma wrapOutput_line s : str_forall (fun c => negb (code c =? 10)) s = true ->
  unwrap (wrapOutput [s]) = s /\ Forall (fun l => String.length l <= 70)%nat (wrapOutput [s]).
Proof.
  intros Hs. assert (split_nl s = [s]) as E.
  { induction s as [|c s IH]; [done|]. cbn [str_forall] in Hs. apply andb_true_iff in Hs as [Hc Hs].
    apply negb_true_iff in Hc. cbn [split_nl]. by rewrite Hc, (IH Hs). }
  unfold wrapOutput. cbn [mbind list_bind]. rewrite E. cbn [mbind list_bind app]. rewrite !app_nil_r.
  by apply wrap_line_ok.
Qed.

(** * What the code does otherwise than it means *)

(** A condition that holds leaves its else clause in the program: here the letter of the clause is
    run as the command p. *)
Example else_clause_runs :
  output (snd (evalDC 20 "[]sa 7 1 1=aep" (initial false ""))) = ["7"].
Proof. vm_compute. reflexivity. Qed.

(** A negative exponent without an inverse panics. *)
Example modexp_panics : fst (evalDC 20 "2 _1 4|" (initial false "")) = Panic.
Proof. vm_compute. reflexivity. Qed.

(** The square root of a number with more decimals than the scale has wrong digits. *)
Example sqrt_wrong_digits :
  output (snd (evalDC 20 "2.0000000000vp" (initial false ""))) = ["1.4100000000"].
Proof. vm_compute. reflexivity. Qed.

(** The command n goes on with a line that p has ended. *)
Example n_joins_ended_line : output (snd (evalDC 20 "1p2n" (initial false ""))) = ["12"].
Proof. vm_compute. reflexivity. Qed.

(** Zero to a negative power is zero. *)
Example zero_negative_power : output (snd (evalDC 20 "0 _1^p" (initial false ""))) = ["0"].
Proof. vm_compute. reflexivity. Qed.
