(* ===== verification/Merge.v ===== *)
(** comm, uniq and join: pkg/comm/comm.go, pkg/uniq/uniq.go and pkg/join/join.go.

    The cores of the three utilities that work on sorted lines, on the scanned lines of their
    inputs.  Strings are compared byte by byte. *)

From Stdlib Require Import Sorted.
From S2P Require Import Prelude GoStd Utf8 Scanner Output.

Local Open Scope Z_scope.

(** * The order of strings *)

Definition sle (s t : string) : Prop := Compare s t <> Gt.

Lemma Compare_refl s : Compare s s = Eq.
Proof. induction s as [|c s IH]; [done|]. cbn [Compare]. by rewrite Z.compare_refl. Qed.

Lemma Compare_eq s t : Compare s t = Eq -> s = t.
Proof.
  revert t. induction s as [|c s IH]; intros [|d t]; try done. cbn [Compare].
  destruct (Z.compare_spec (code c) (code d)) as [E| |]; try done.
  intros H%IH. subst t. f_equal. by rewrite <- (chr_code c), E, chr_code.
Qed.

Lemma Compare_antisym s t : Compare t s = CompOpp (Compare s t).
Proof.
  revert t. induction s as [|c s IH]; intros [|d t]; try done. cbn [Compare].
  rewrite (Z.compare_antisym (code c) (code d)).
  destruct (code c ?= code d); cbn [CompOpp]; [apply IH|done|done].
Qed.

Lemma Compare_lt_trans s t u : Compare s t = Lt -> Compare t u <> Gt -> Compare s u = Lt.
Proof.
  revert t u. induction s as [|c s IH]; intros [|d t] [|e u]; try done. cbn [Compare].
  destruct (Z.compare_spec (code c) (code d)) as [E|E|E]; try done.
  - rewrite E. destruct (Z.compare_spec (code d) (code e)); try done. apply IH.
  - intros _. destruct (Z.compare_spec (code d) (code e)) as [E'|E'|E']; try done; intros _.
    + rewrite <- E'. by rewrite (proj2 (Z.compare_lt_iff _ _) E).
    + by rewrite (proj2 (Z.compare_lt_iff (code c) (code e))) by lia.
Qed.

Lemma sle_trans s t u : sle s t -> sle t u -> sle s u.
Proof.
  unfold sle. intros H1 H2. destruct (Compare s t) eqn:E; [|by rewrite (Compare_lt_trans s t u)|done].
  by apply Compare_eq in E as ->.
Qed.

Lemma sle_lt s t : Compare s t = Lt -> sle s t.
Proof. unfold sle. by intros ->. Qed.

Lemma sle_gt s t : Compare s t = Gt -> sle t s.
Proof. unfold sle. rewrite (Compare_antisym s t). by intros ->. Qed.

Lemma sle_refl s : sle s s.
Proof. unfold sle. by rewrite Compare_refl. Qed.

(** Strictly below the head of a sorted list, a string is not in it. *)
Lemma below_sorted s t l : Compare s t = Lt -> StronglySorted sle (t :: l) -> s ∉ t :: l.
Proof.
  intros Hlt [_ Hf]%StronglySorted_inv [->|Hin]%elem_of_cons; [by rewrite Compare_refl in Hlt|].
  rewrite Forall_forall in Hf. pose proof (Hf s Hin) as H. unfold sle in H.
  by rewrite (Compare_antisym s t), Hlt in H.
Qed.

(** * comm *)

Record Entry := { Text : string; Col : Z }.

Fixpoint tail_entries (suppressed : bool) (col : Z) (file : list string) : list Entry :=
  match file with
  | [] => []
  | x :: file =>
      (if suppressed then [] else [{| Text := x; Col := col |}]) ++ tail_entries suppressed col file
  end.

(** The three suppressions are those of the columns 1, 2 and 3. *)
Section Comm.
Variables suppress1 suppress2 suppress3 : bool.

Definition entry (suppressed : bool) (x : string) (col : Z) : list Entry :=
  if suppressed then [] else [{| Text := x; Col := col |}].

Fixpoint comm_compare (file1 : list string) : list string -> list Entry :=
  fix inner (file2 : list string) : list Entry :=
    match file1, file2 with
    | x :: rest1, y :: rest2 =>
        match Compare x y with
        | Lt => entry suppress1 x 1 ++ comm_compare rest1 file2
        | Gt => entry suppress2 y 2 ++ inner rest2
        | Eq => entry suppress3 x 3 ++ comm_compare rest1 rest2
        end
    | [], _ => tail_entries suppress2 2 file2
    | _, [] => tail_entries suppress1 1 file1
    end.
End Comm.

Definition Format (entries : list Entry) : string :=
  let tab := String "009" "" in
  sconcat ((fun e => (if Col e =? 1 then Text e else if Col e =? 2 then tab +:+ Text e
                      else if Col e =? 3 then tab +:+ tab +:+ Text e else "") +:+ nl) <$> entries).

Fixpoint Counts (entries : list Entry) : Z * Z * Z :=
  match entries with
  | [] => (0, 0, 0)
  | e :: entries =>
      let '(c1, c2, c3) := Counts entries in
      if Col e =? 1 then (c1 + 1, c2, c3) else if Col e =? 2 then (c1, c2 + 1, c3)
      else if Col e =? 3 then (c1, c2, c3 + 1) else (c1, c2, c3)
  end.

Record CommResult := { OnlyFile1 : list string; OnlyFile2 : list string; Both : list string }.

Definition texts (col : Z) (entries : list Entry) : list string :=
  Text <$> base.filter (fun e => Col e = col) entries.

Definition toResult (entries : list Entry) : CommResult :=
  {| OnlyFile1 := texts 1 entries; OnlyFile2 := texts 2 entries; Both := texts 3 entries |}.

(** The run once both operands are read: the lines, the totals of the option. *)
Definition comm_run (suppress1 suppress2 suppress3 showTotal jsonMode : bool) (lines1 lines2 : list string) :
    run_io CommResult :=
  let entries := comm_compare suppress1 suppress2 suppress3 lines1 lines2 in
  if jsonMode then {| rc := 0; out := Render "comm" (toResult entries) true []; errs := [] |}
  else
    let '(c1, c2, c3) := Counts entries in
    let tab := String "009" "" in
    {| rc := 0; out := [CText (Format entries)];
       errs := if showTotal
               then [line (FormatInt c1 +:+ tab +:+ FormatInt c2 +:+ tab +:+ FormatInt c3)] else [] |}.

(** [readLines]: the lines of a reader; a line that does not fit the scanner's 64 KiB is an error. *)
Definition too_long_token : string := "bufio.Scanner: token too long".

Definition readLines (text : string) : result string (list string) :=
  let '(lines, tooLong) := scan text in if tooLong : bool then Err too_long_token else Ok lines.

Section CommMain.
(** The text of a file, or the text of the error of opening or reading it. *)
Variable ReadFile : string -> result string string.

(** [getLines], for an operand and what is left on stdin; the lines of stdin are kept when both operands are
    a dash. *)
Definition comm_lines (kept : option (list string)) (path stdin : string) : result string (list string) * string :=
  if path =s? "-" then
    match kept with Some lines => (Ok lines, stdin) | None => (readLines stdin, "") end
  else ((let? text := ReadFile path in readLines text), stdin).

Definition comm_fails (path msg : string) : run_io CommResult :=
  {| rc := 1; out := []; errs := [line ("comm: " +:+ path +:+ ": " +:+ msg)] |}.

(** [commRun] after the options. *)
Definition commRun (suppress1 suppress2 suppress3 showTotal jsonMode : bool) (files : list string) (stdin : string) :
    run_io CommResult :=
  match files with
  | [] => {| rc := 2; out := []; errs := [line "comm: missing file operands"] |}
  | [_] => {| rc := 2; out := []; errs := [line "comm: missing second file operand"] |}
  | path1 :: path2 :: _ =>
      let both := (path1 =s? "-") && (path2 =s? "-") in
      match (if both then let? lines := readLines stdin in Ok (Some lines) else Ok None) with
      | Err e => comm_fails "stdin" e
      | Ok kept =>
          match comm_lines kept path1 stdin with
          | (Err e, _) => comm_fails path1 e
          | (Ok lines1, stdin) =>
              match comm_lines kept path2 stdin with
              | (Err e, _) => comm_fails path2 e
              | (Ok lines2, _) => comm_run suppress1 suppress2 suppress3 showTotal jsonMode lines1 lines2
              end
          end
      end
  end.
End CommMain.

(** * uniq *)

Record UniqItem := { Line : string; Count : Z }.

Definition is_tab_space (c : ascii) : bool := (c =c? " ") || (code c =? 9).

(** [line[idx:]] of the next blank after the field. *)
Fixpoint skip_fields (n : nat) (line : string) : string :=
  match n with
  | O => line
  | S n =>
      let line := TrimLeft is_tab_space line in
      let '(_, rest) := str_span (fun c => negb (is_tab_space c)) line in
      if rest =s? "" then "" else skip_fields n rest
  end.

Definition extractCompareKey (line : string) (skipFields skipChars checkChars : Z) : string :=
  let line := skip_fields (Z.to_nat skipFields) line in
  let line :=
    if 0 <? skipChars then
      let rs := runes line in
      if skipChars <? Z.of_nat (length rs) then string_of_runes (drop (Z.to_nat skipChars) rs) else ""
    else line in
  if 0 <? checkChars then
    let rs := runes line in
    if checkChars <? Z.of_nat (length rs) then string_of_runes (take (Z.to_nat checkChars) rs) else line
  else line.

Section Uniq.
(** [strings.ToLower], and the flags of the run. *)
Variable ToLower : string -> string.
Variables duplicatesOnly uniqueOnly ignoreCase : bool.
Variables skipFields skipChars checkChars : Z.

Definition key_of (orig : string) : string :=
  extractCompareKey (if ignoreCase then ToLower orig else orig) skipFields skipChars checkChars.

Definition wanted (count : Z) : bool :=
  (negb duplicatesOnly && negb uniqueOnly) || (duplicatesOnly && (1 <? count)) || (uniqueOnly && (count =? 1)).

Definition emit (prevOrig : string) (count : Z) : list UniqItem :=
  if wanted count then [{| Line := prevOrig; Count := count |}] else [].

(** The loop after the first line; the count stays far below the limits of int. *)
Fixpoint uniq_loop (prev prevOrig : string) (count : Z) (lines : list string) : list UniqItem :=
  match lines with
  | [] => emit prevOrig count
  | orig :: lines =>
      let key := key_of orig in
      if key =s? prev then uniq_loop prev prevOrig (count + 1) lines
      else emit prevOrig count ++ uniq_loop key orig 1 lines
  end.

(** The loop of [Run] over the scanned lines. *)
Definition uniq_run (lines : list string) : list UniqItem :=
  if uniqueOnly && duplicatesOnly then []
  else match lines with [] => [] | orig :: lines => uniq_loop (key_of orig) orig 1 lines end.

(** [Run] on a reader: the lines up to one that does not fit the scanner's 64 KiB, and whether there is one. *)
Definition uniq_scan (text : string) : list UniqItem * bool :=
  let '(lines, tooLong) := scan text in
  (uniq_run lines, if uniqueOnly && duplicatesOnly then false else tooLong).

(** [%7d %s], or the line alone. *)
Definition uniq_line (countMode : bool) (item : UniqItem) : string :=
  if countMode then
    let n := FormatInt (Count item) in
    repeat_char " " (7 - String.length n) +:+ n +:+ " " +:+ Line item
  else Line item.

(** [uniqRun] once the input is read: with an error of the scanner nothing is written but the complaint. *)
Definition uniq_output (countMode jsonMode : bool) (text : string) : run_io (list UniqItem) :=
  match uniq_scan text with
  | (_, true) => {| rc := 1; out := []; errs := [line ("uniq: " +:+ too_long_token)] |}
  | (items, false) =>
      {| rc := 0; out := Render "uniq" items jsonMode ((fun i => line (uniq_line countMode i)) <$> items);
         errs := [] |}
  end.
End Uniq.

(** * join *)

(** A parsed input line. *)
Record jline := { raw : string; key : string; fields : list string }.

(** [l[i]] of the source for an index that it has checked. *)
Definition nth_field (l : list string) (i : Z) : string :=
  if (0 <=? i) && (i <? Z.of_nat (length l)) then default "" (l !! Z.to_nat i) else "".

Definition parseLine (text delim : string) (fieldIdx : Z) : jline :=
  let fields := split_on (String.length text) text delim in
  {| raw := text; key := nth_field fields fieldIdx; fields := fields |}.

(** The file number and the field number of an item of -o; [None] for an error. *)
Definition parsePairSpec (spec : string) : option (Z * Z) :=
  match Index spec "." with
  | None => fileNum ← Atoi spec; Some (fileNum, 1)
  | Some i =>
      fileNum ← Atoi (str_take i spec);
      fieldNum ← Atoi (str_drop (i + 1) spec);
      Some (fileNum, fieldNum)
  end.

Fixpoint without_index (i : Z) (l : list string) : list string :=
  match l with [] => [] | f :: l => if i =? 0 then l else f :: without_index (i - 1) l end.

Definition selected_field (l1 l2 : jline) (spec : string) : string :=
  match parsePairSpec spec with
  | Some (fileNum, fieldNum) =>
      if negb ((fileNum =? 1) || (fileNum =? 2)) || (fieldNum <? 1) then ""
      else nth_field (if fileNum =? 1 then fields l1 else fields l2) (fieldNum - 1)
  | None => ""
  end.

Definition formatOutput (l1 l2 : jline) (delim oSpec : string) (keyIdx2 : Z) : string :=
  if oSpec =s? "" then
    if raw l1 =s? "" then raw l2
    else if raw l2 =s? "" then raw l1
    else join_with delim (fields l1 ++ without_index keyIdx2 (fields l2))
  else join_with delim (selected_field l1 l2 <$> Fields oSpec).

(** A record before it is formatted: two lines that match, or a line without partner. *)
Inductive joined := Pair (l1 l2 : jline) | Only1 (l : jline) | Only2 (l : jline).

Fixpoint same_key (k : string) (ls : list jline) : list jline * list jline :=
  match ls with
  | [] => ([], [])
  | l :: t => if key l =s? k then let '(g, r) := same_key k t in (l :: g, r) else ([], ls)
  end.

Definition product (g1 g2 : list jline) : list joined := l1 ← g1; (fun l2 => Pair l1 l2) <$> g2.

Section Join.
Variables a1 a2 v1 v2 : bool.

Definition single (wanted : bool) (tag : jline -> joined) (ls : list jline) : list joined :=
  if wanted then tag <$> ls else [].

(** The merge; [None] for too little fuel. *)
Fixpoint join_loop (fuel : nat) (lines1 lines2 : list jline) : option (list joined) :=
  match lines1, lines2 with
  | x :: rest1, y :: rest2 =>
      match fuel with
      | O => None
      | S fuel =>
          match Compare (key x) (key y) with
          | Lt => rs ← join_loop fuel rest1 lines2; Some (single (a1 || v1) Only1 [x] ++ rs)
          | Gt => rs ← join_loop fuel lines1 rest2; Some (single (a2 || v2) Only2 [y] ++ rs)
          | Eq =>
              let '(g1, t1) := same_key (key x) lines1 in
              let '(g2, t2) := same_key (key x) lines2 in
              rs ← join_loop fuel t1 t2;
              Some ((if v1 || v2 then [] else product g1 g2) ++ rs)
          end
      end
  | _, _ => Some (single (a1 || v1) Only1 lines1 ++ single (a2 || v2) Only2 lines2)
  end.

Definition record (delim oSpec : string) (keyIdx2 : Z) (r : joined) : string :=
  match r with
  | Pair l1 l2 => formatOutput l1 l2 delim oSpec keyIdx2
  | Only1 l | Only2 l => raw l
  end.

(** [Run] on the scanned lines. *)
Definition join_run (text1 text2 : list string) (field1 field2 : Z) (delim oSpec : string) : option (list string) :=
  let lines1 := map (fun t => parseLine t delim (field1 - 1)) text1 in
  let lines2 := map (fun t => parseLine t delim (field2 - 1)) text2 in
  rs ← join_loop (length lines1 + length lines2) lines1 lines2;
  Some (map (record delim oSpec (field2 - 1)) rs).
End Join.

(** * comm: the columns give the files *)

Section CommProofs.

Definition shows (s1 s2 s3 : bool) (e : Entry) : bool :=
  if Col e =? 1 then negb s1 else if Col e =? 2 then negb s2 else negb s3.

Lemma tail_suppressed s1 s2 s3 col file : col = 1 \/ col = 2 ->
  tail_entries (if col =? 1 then s1 else s2) col file =
  base.filter (fun e => shows s1 s2 s3 e = true) (tail_entries false col file).
Proof.
  intros Hc. induction file as [|x file IH]; [done|]. cbn [tail_entries]. rewrite IH.
  cbn [app]. rewrite filter_cons. unfold shows at 2. cbn [Col].
  destruct Hc as [-> | ->]; [destruct s1|destruct s2]; by case_decide.
Qed.

Lemma comm_compare_cons s1 s2 s3 x r1 y r2 : comm_compare s1 s2 s3 (x :: r1) (y :: r2) =
  match Compare x y with
  | Lt => entry s1 x 1 ++ comm_compare s1 s2 s3 r1 (y :: r2)
  | Gt => entry s2 y 2 ++ comm_compare s1 s2 s3 (x :: r1) r2
  | Eq => entry s3 x 3 ++ comm_compare s1 s2 s3 r1 r2
  end.
Proof. reflexivity. Qed.

Lemma comm_compare_nil_l s1 s2 s3 l : comm_compare s1 s2 s3 [] l = tail_entries s2 2 l.
Proof. by destruct l. Qed.

Lemma comm_compare_nil_r s1 s2 s3 l : comm_compare s1 s2 s3 l [] = tail_entries s1 1 l.
Proof. by destruct l. Qed.

(** Induction along the merge. *)
Lemma merge_ind (P : list string -> list string -> Prop) :
  (forall l, P [] l) -> (forall l, P l []) ->
  (forall x r1 y r2, Compare x y = Lt -> P r1 (y :: r2) -> P (x :: r1) (y :: r2)) ->
  (forall x r1 y r2, Compare x y = Gt -> P (x :: r1) r2 -> P (x :: r1) (y :: r2)) ->
  (forall x r1 r2, P r1 r2 -> P (x :: r1) (x :: r2)) -> forall l1 l2, P l1 l2.
Proof.
  intros H1 H2 H3 H4 H5. induction l1 as [|x r1 IH1]; [done|]. induction l2 as [|y r2 IH2]; [done|].
  destruct (Compare x y) eqn:E; [|auto|auto]. apply Compare_eq in E as ->. auto.
Qed.

Lemma comm_suppress s1 s2 s3 l1 l2 : comm_compare s1 s2 s3 l1 l2 =
  base.filter (fun e => shows s1 s2 s3 e = true) (comm_compare false false false l1 l2).
Proof.
  assert (forall s x col rest rest', (col = 1 /\ s = s1) \/ (col = 2 /\ s = s2) \/ (col = 3 /\ s = s3) ->
    rest = base.filter (fun e => shows s1 s2 s3 e = true) rest' ->
    entry s x col ++ rest = base.filter (fun e => shows s1 s2 s3 e = true) (entry false x col ++ rest')) as Hc.
  { intros s x col rest rest' Hs ->. unfold entry. cbn [app]. rewrite filter_cons. unfold shows at 2. cbn [Col].
    destruct Hs as [[-> ->]|[[-> ->]|[-> ->]]]; cbn [Z.eqb Pos.eqb];
      [destruct s1|destruct s2|destruct s3]; by case_decide. }
  revert l1 l2. apply merge_ind.
  - intros l. rewrite !comm_compare_nil_l. apply (tail_suppressed s1 s2 s3 2). auto.
  - intros l. rewrite !comm_compare_nil_r. apply (tail_suppressed s1 s2 s3 1). auto.
  - intros x r1 y r2 E IH. rewrite !comm_compare_cons, E. apply Hc; auto.
  - intros x r1 y r2 E IH. rewrite !comm_compare_cons, E. apply Hc; auto.
  - intros x r1 r2 IH. rewrite !comm_compare_cons, Compare_refl. apply Hc; auto.
Qed.

(** The lines of a file: those of its own column and the common ones. *)
Definition side (col : Z) (es : list Entry) : list string :=
  Text <$> base.filter (fun e => Col e = col \/ Col e = 3) es.

Lemma side_cons col x c es : side col ({| Text := x; Col := c |} :: es) =
  (if decide (c = col \/ c = 3) then [x] else []) ++ side col es.
Proof. unfold side. rewrite filter_cons. cbn [Col]. by repeat case_decide. Qed.

Lemma texts_cons col x c es : texts col ({| Text := x; Col := c |} :: es) =
  (if decide (c = col) then [x] else []) ++ texts col es.
Proof. unfold texts. rewrite filter_cons. cbn [Col]. by repeat case_decide. Qed.

Lemma side_tail col c file : side col (tail_entries false c file) =
  if decide (c = col \/ c = 3) then file else [].
Proof.
  induction file as [|x file IH]; [by case_decide|]. cbn [tail_entries app].
  rewrite side_cons, IH. by case_decide.
Qed.

Lemma texts_tail col c file : texts col (tail_entries false c file) = if decide (c = col) then file else [].
Proof.
  induction file as [|x file IH]; [by case_decide|]. cbn [tail_entries app].
  rewrite texts_cons, IH. by case_decide.
Qed.

Lemma comm_sides l1 l2 : side 1 (comm_compare false false false l1 l2) = l1 /\
  side 2 (comm_compare false false false l1 l2) = l2.
Proof.
  revert l1 l2. apply merge_ind.
  - intros l. rewrite comm_compare_nil_l, !side_tail. repeat case_decide; first [done | lia].
  - intros l. rewrite comm_compare_nil_r, !side_tail. repeat case_decide; first [done | lia].
  - intros x r1 y r2 E [IH1 IH2]. rewrite comm_compare_cons, E. cbn [entry app]. rewrite !side_cons, IH1, IH2.
    repeat case_decide; first [done | lia].
  - intros x r1 y r2 E [IH1 IH2]. rewrite comm_compare_cons, E. cbn [entry app]. rewrite !side_cons, IH1, IH2.
    repeat case_decide; first [done | lia].
  - intros x r1 r2 [IH1 IH2]. rewrite comm_compare_cons, Compare_refl. cbn [entry app].
    rewrite !side_cons, IH1, IH2. repeat case_decide; first [done | lia].
Qed.

Definition occ (x : string) (l : list string) : nat := count_occ String.string_dec l x.
End CommProofs.

Lemma occ_cons x y l : occ x (y :: l) = ((if decide (y = x) then 1 else 0) + occ x l)%nat.
Proof. unfold occ. cbn [count_occ]. destruct (String.string_dec y x); case_decide; congruence || lia. Qed.

Lemma occ_none x l : x ∉ l -> occ x l = 0%nat.
Proof.
  induction l as [|y l IH]; [done|]. rewrite not_elem_of_cons, occ_cons. intros [Hn Hl].
  rewrite IH by done. case_decide; congruence || lia.
Qed.

Lemma comm_both x l1 l2 : StronglySorted sle l1 -> StronglySorted sle l2 ->
  occ x (texts 3 (comm_compare false false false l1 l2)) = Nat.min (occ x l1) (occ x l2).
Proof.
  revert l1 l2. apply (merge_ind (fun l1 l2 => StronglySorted sle l1 -> StronglySorted sle l2 -> _)).
  - intros l _ _. rewrite comm_compare_nil_l, texts_tail. by case_decide.
  - intros l _ _. rewrite comm_compare_nil_r, texts_tail. case_decide; [done|]. cbn. lia.
  - intros a r1 b r2 E IH S1 S2. rewrite comm_compare_cons, E. cbn [entry app]. rewrite texts_cons.
    rewrite decide_False by lia. cbn [app]. rewrite IH by first [done | by apply StronglySorted_inv in S1 as [? _]].
    rewrite (occ_cons x a). case_decide as Hx; [|lia]. subst a.
    rewrite (occ_none x (b :: r2)); [lia|]. by apply below_sorted.
  - intros a r1 b r2 E IH S1 S2. rewrite comm_compare_cons, E. cbn [entry app]. rewrite texts_cons.
    rewrite decide_False by lia. cbn [app]. rewrite IH by first [done | by apply StronglySorted_inv in S2 as [? _]].
    rewrite (occ_cons x b). case_decide as Hx; [|lia]. subst b.
    rewrite (occ_none x (a :: r1)); [lia|]. apply below_sorted; [|done].
    by rewrite (Compare_antisym a x), E.
  - intros a r1 r2 IH S1 S2. rewrite comm_compare_cons, Compare_refl. cbn [entry app]. rewrite texts_cons.
    rewrite decide_True by done. cbn [app]. rewrite !occ_cons.
    rewrite IH by first [by apply StronglySorted_inv in S1 as [? _] | by apply StronglySorted_inv in S2 as [? _]]. lia.
Qed.


Lemma tail_texts c file : Text <$> tail_entries false c file = file.
Proof. induction file as [|x file IH]; [done|]. cbn [tail_entries app]. rewrite fmap_cons, IH. done. Qed.

(** Every line of the output comes from one of the files. *)
Lemma comm_origin l1 l2 x : x ∈ Text <$> comm_compare false false false l1 l2 -> x ∈ l1 \/ x ∈ l2.
Proof.
  revert l1 l2. apply (merge_ind (fun l1 l2 => x ∈ Text <$> comm_compare false false false l1 l2 -> x ∈ l1 \/ x ∈ l2)).
  - intros l. rewrite comm_compare_nil_l, tail_texts. auto.
  - intros l. rewrite comm_compare_nil_r, tail_texts. auto.
  - intros a r1 b r2 E IH. rewrite comm_compare_cons, E. cbn [entry app]. rewrite fmap_cons.
    rewrite !elem_of_cons in *. cbn [Text]. naive_solver.
  - intros a r1 b r2 E IH. rewrite comm_compare_cons, E. cbn [entry app]. rewrite fmap_cons.
    rewrite !elem_of_cons in *. cbn [Text]. naive_solver.
  - intros a r1 r2 IH. rewrite comm_compare_cons, Compare_refl. cbn [entry app]. rewrite fmap_cons.
    rewrite !elem_of_cons in *. cbn [Text]. naive_solver.
Qed.

Lemma sle_all x l1 l2 : Forall (sle x) l1 -> Forall (sle x) l2 ->
  Forall (sle x) (Text <$> comm_compare false false false l1 l2).
Proof. rewrite !Forall_forall. intros H1 H2 y Hy. destruct (comm_origin l1 l2 y Hy); auto. Qed.

Lemma below_all x y l : sle x y -> StronglySorted sle (y :: l) -> Forall (sle x) (y :: l).
Proof.
  intros Hxy [_ Hf]%StronglySorted_inv. constructor; [done|]. eapply Forall_impl; [exact Hf|].
  intros z. by apply sle_trans.
Qed.

Lemma comm_sorted l1 l2 : StronglySorted sle l1 -> StronglySorted sle l2 ->
  StronglySorted sle (Text <$> comm_compare false false false l1 l2).
Proof.
  revert l1 l2. apply (merge_ind (fun l1 l2 => StronglySorted sle l1 -> StronglySorted sle l2 -> _)).
  - intros l _ S. by rewrite comm_compare_nil_l, tail_texts.
  - intros l S _. by rewrite comm_compare_nil_r, tail_texts.
  - intros a r1 b r2 E IH S1 S2. rewrite comm_compare_cons, E. cbn [entry app]. rewrite fmap_cons.
    pose proof (StronglySorted_inv S1) as [S1' F1]. constructor; [by apply IH|].
    apply sle_all; [done|]. apply below_all; [by apply sle_lt|done].
  - intros a r1 b r2 E IH S1 S2. rewrite comm_compare_cons, E. cbn [entry app]. rewrite fmap_cons.
    pose proof (StronglySorted_inv S2) as [S2' F2]. constructor; [by apply IH|].
    apply sle_all; [|done]. apply below_all; [by apply sle_gt|done].
  - intros a r1 r2 IH S1 S2. rewrite comm_compare_cons, Compare_refl. cbn [entry app]. rewrite fmap_cons.
    pose proof (StronglySorted_inv S1) as [S1' F1]. pose proof (StronglySorted_inv S2) as [S2' F2].
    constructor; [by apply IH|by apply sle_all].
Qed.

(** C24: comm on sorted lists of lines has one entry for each occurrence of a line, not, as the comment on
    [Compare] says, one per unique line: the entries are sorted; the lines of the first file are those of the
    columns 1 and 3 in their order, the lines of the second those of 2 and 3; a line is in column 3
    as often as in the file that has fewer of it; and the options leave out the entries of their
    columns and nothing else. *)
Theorem comm_correct file1 file2 : StronglySorted sle file1 -> StronglySorted sle file2 ->
  let entries := comm_compare false false false file1 file2 in
  StronglySorted sle (Text <$> entries) /\ side 1 entries = file1 /\ side 2 entries = file2 /\
  (forall x, occ x (texts 3 entries) = Nat.min (occ x file1) (occ x file2)) /\
  forall s1 s2 s3, comm_compare s1 s2 s3 file1 file2 =
    base.filter (fun e => shows s1 s2 s3 e = true) entries.
Proof.
  intros S1 S2 entries. destruct (comm_sides file1 file2). split; [by apply comm_sorted|].
  split; [done|]. split; [done|]. split; [intros x; by apply comm_both|]. intros s1 s2 s3. apply comm_suppress.
Qed.

Lemma comm_correct_witness :
  let entries := comm_compare false false false ["a"; "b"; "b"] ["b"; "c"] in
  entries = [{| Text := "a"; Col := 1 |}; {| Text := "b"; Col := 3 |}; {| Text := "b"; Col := 1 |};
             {| Text := "c"; Col := 2 |}] /\
  side 1 entries = ["a"; "b"; "b"] /\ side 2 entries = ["b"; "c"].
Proof.
  intros entries. split; [reflexivity|].
  assert (forall l, LocallySorted sle l -> StronglySorted sle l) as Hs.
  { intros l H. apply Sorted_StronglySorted; [exact sle_trans|]. by apply Sorted_LocallySorted_iff. }
  destruct (comm_correct ["a"; "b"; "b"] ["b"; "c"]) as (_ & H1 & H2 & _).
  - apply Hs. repeat constructor; done.
  - apply Hs. repeat constructor; done.
  - split; [exact H1|exact H2].
Defined.

(** A line that two files have twice is two entries. *)
Example comm_entry_per_occurrence :
  comm_compare false false false ["a"; "a"] ["a"; "a"] = [{| Text := "a"; Col := 3 |}; {| Text := "a"; Col := 3 |}].
Proof. reflexivity. Qed.

(** The command on two operands with lines that the scanner takes is the comparison of these lines. *)
Theorem comm_command ReadFile s1 s2 s3 total json path1 path2 text1 text2 files1 files2 rest stdin :
  path1 <> "-" -> path2 <> "-" -> ReadFile path1 = Ok text1 -> ReadFile path2 = Ok text2 ->
  Forall safe_line files1 -> Forall safe_line files2 ->
  text1 = text_of_lines files1 -> text2 = text_of_lines files2 ->
  commRun ReadFile s1 s2 s3 total json (path1 :: path2 :: rest) stdin = comm_run s1 s2 s3 total json files1 files2.
Proof.
  intros N1 N2 R1 R2 S1 S2 -> ->.
  assert (Hr : forall ls, Forall safe_line ls -> readLines (text_of_lines ls) = Ok ls)
    by (intros ls H; unfold readLines; by rewrite scan_text).
  unfold commRun, comm_lines.
  destruct (seqb_spec path1 "-") as [|_]; [done|]. destruct (seqb_spec path2 "-") as [|_]; [done|].
  cbn [andb]. rewrite R1, R2. simpl. by rewrite !Hr.
Qed.

Lemma comm_command_witness : commRun (fun path => if path =s? "x" then Ok (text_of_lines ["a"; "b"]) else Ok (text_of_lines ["b"]))
    false false false false false ["x"; "y"] "" = comm_run false false false false false ["a"; "b"] ["b"].
Proof.
  apply (comm_command _ _ _ _ _ _ _ _ (text_of_lines ["a"; "b"]) (text_of_lines ["b"])); try done;
    repeat constructor; done.
Defined.

(** * uniq: blocks of equal keys *)

Section UniqProofs.
Variable ToLower : string -> string.
Variables duplicatesOnly uniqueOnly ignoreCase : bool.
Variables skipFields skipChars checkChars : Z.

Let the_key := key_of ToLower ignoreCase skipFields skipChars checkChars.
Let loop := uniq_loop ToLower duplicatesOnly uniqueOnly ignoreCase skipFields skipChars checkChars.

(** A block: lines with one key. *)
Definition block (b : list string) : Prop := exists x l, b = x :: l /\ Forall (fun y => the_key y = the_key x) l.

(** The keys of neighbours differ. *)
Fixpoint apart (bs : list (list string)) : Prop :=
  match bs with
  | (x :: _) :: (((y :: _) :: _) as t) => the_key x <> the_key y /\ apart t
  | _ => True
  end.

Definition item (b : list string) : list UniqItem :=
  emit duplicatesOnly uniqueOnly (hd "" b) (Z.of_nat (length b)).

Lemma uniq_loop_blocks lines : forall x l, Forall (fun y => the_key y = the_key x) l ->
  exists bs l', (x :: l) ++ lines = concat ((x :: l ++ l') :: bs) /\ Forall block ((x :: l ++ l') :: bs) /\
    apart ((x :: l ++ l') :: bs) /\
    loop (the_key x) x (Z.of_nat (length (x :: l))) lines = mbind item ((x :: l ++ l') :: bs).
Proof.
  unfold loop. induction lines as [|o lines IH]; intros x l Hl.
  - exists [], []. rewrite !app_nil_r. split; [by rewrite concat_cons, concat_nil, app_nil_r|].
    split; [repeat constructor; by exists x, l|]. split; [done|]. cbn [mbind list_bind uniq_loop].
    by rewrite app_nil_r.
  - cbn [uniq_loop]. fold (the_key o). destruct (seqb_spec (the_key o) (the_key x)) as [E|E].
    + destruct (IH x (l ++ [o])) as (bs & l' & H1 & H2 & H3 & H4).
      { apply Forall_app. split; [done|by constructor]. }
      exists bs, (o :: l'). replace (l ++ o :: l') with ((l ++ [o]) ++ l') by (by rewrite <- app_assoc).
      split; [rewrite <- H1; cbn [app]; by rewrite <- app_assoc|]. split; [done|]. split; [done|].
      rewrite <- H4. f_equal. cbn [length]. rewrite length_app. simpl. lia.
    + destruct (IH o [] ltac:(constructor)) as (bs & l' & H1 & H2 & H3 & H4). cbn [app] in *.
      exists ((o :: l') :: bs), []. rewrite app_nil_r. split; [by rewrite concat_cons, <- H1|].
      split; [constructor; [by exists x, l|done]|]. split; [split; [congruence|done]|].
      cbn [mbind list_bind] in *. f_equal. exact H4.
Qed.
End UniqProofs.

(** Uniq divides the lines, in order, into the longest blocks of lines with equal keys, and
    writes for each block its first line and its length: all of them, or those of more than one
    line with -d, or those of one line with -u; nothing with both. *)
Theorem uniq_correct ToLower duplicatesOnly uniqueOnly ignoreCase skipFields skipChars checkChars lines :
  let the_key := key_of ToLower ignoreCase skipFields skipChars checkChars in
  exists bs, lines = concat bs /\
    Forall (fun b => exists x l, b = x :: l /\ Forall (fun y => the_key y = the_key x) l) bs /\
    apart ToLower ignoreCase skipFields skipChars checkChars bs /\
    uniq_run ToLower duplicatesOnly uniqueOnly ignoreCase skipFields skipChars checkChars lines =
      if uniqueOnly && duplicatesOnly then []
      else (fun b => {| Line := hd "" b; Count := Z.of_nat (length b) |}) <$>
        base.filter (fun b => wanted duplicatesOnly uniqueOnly (Z.of_nat (length b)) = true) bs.
Proof.
  intros the_key. destruct lines as [|x lines].
  - exists []. split; [done|]. split; [constructor|]. split; [done|]. unfold uniq_run. by case_match.
  - destruct (uniq_loop_blocks ToLower duplicatesOnly uniqueOnly ignoreCase skipFields skipChars checkChars
      lines x [] ltac:(constructor)) as (bs & l' & H1 & H2 & H3 & H4). cbn [app length] in *.
    exists ((x :: l') :: bs). split; [done|]. split; [exact H2|]. split; [done|]. unfold uniq_run.
    destruct (uniqueOnly && duplicatesOnly); [done|]. change (Z.of_nat 1) with 1 in H4. rewrite H4. clear.
    induction ((x :: l') :: bs) as [|b t IH]; [done|]. rewrite bind_cons, IH, filter_cons.
    unfold item, emit. case_decide as E; [by rewrite E|].
    by destruct (wanted duplicatesOnly uniqueOnly (Z.of_nat (length b))).
Qed.

(** * join: a nested loop *)

Definition partner (ls : list jline) (z : jline) : bool := existsb (fun w => key w =s? key z) ls.

Definition all_pairs (l1 l2 : list jline) : list joined :=
  x ← l1; (fun y => Pair x y) <$> List.filter (fun y => key y =s? key x) l2.

Definition is_pair (r : joined) : bool := match r with Pair _ _ => true | _ => false end.
Definition is_only1 (r : joined) : bool := match r with Only1 _ => true | _ => false end.
Definition is_only2 (r : joined) : bool := match r with Only2 _ => true | _ => false end.

Definition kle (x y : jline) : Prop := sle (key x) (key y).

Lemma same_key_spec k ls g t : same_key k ls = (g, t) -> StronglySorted kle ls ->
  Forall (fun l => sle k (key l)) ls ->
  ls = g ++ t /\ Forall (fun l => key l = k) g /\ Forall (fun l => key l <> k) t /\ StronglySorted kle t.
Proof.
  revert g t. induction ls as [|l ls IH]; intros g t; cbn [same_key].
  { intros [= <- <-] _ _. repeat split; constructor. }
  intros E Hs Hk. destruct (seqb_spec (key l) k) as [El|El].
  - destruct (same_key k ls) as [g' t'] eqn:E'. injection E as <- <-.
    destruct (IH g' t' eq_refl) as (-> & Hg & Ht & Hst); [by apply StronglySorted_inv in Hs as [? _]|by apply Forall_cons in Hk as [_ ?]|].
    repeat split; [by constructor|done|done].
  - injection E as <- <-. repeat split; [constructor| |done]. apply Forall_cons in Hk as [Hkl Hk].
    apply StronglySorted_inv in Hs as [_ Hf]. constructor; [done|]. rewrite Forall_forall in *.
    intros z Hz Ez. pose proof (Hf z Hz) as Hlz. unfold kle in Hlz. rewrite Ez in Hlz.
    unfold sle in Hkl, Hlz. rewrite (Compare_antisym (key l) k) in Hkl.
    destruct (Compare (key l) k) eqn:C; [by apply Compare_eq in C|by apply Hkl|by apply Hlz].
Qed.

Lemma kle_below k x l : Compare k (key x) = Lt -> StronglySorted kle (x :: l) -> Forall (fun y => key y <> k) (x :: l).
Proof.
  intros Hlt [_ Hf]%StronglySorted_inv. constructor; [intros E; by rewrite E, Compare_refl in Hlt|].
  eapply Forall_impl; [exact Hf|]. intros z Hz E. unfold kle, sle in Hz. rewrite E in Hz.
  by rewrite (Compare_antisym k (key x)), Hlt in Hz.
Qed.

Lemma filter_none (P : jline -> bool) l : Forall (fun y => P y = false) l -> List.filter P l = [].
Proof. induction 1 as [|y l Hy _ IH]; [done|]. cbn [List.filter]. by rewrite Hy. Qed.

Lemma filter_every (P : jline -> bool) l : Forall (fun y => P y = true) l -> List.filter P l = l.
Proof. induction 1 as [|y l Hy _ IH]; [done|]. cbn [List.filter]. by rewrite Hy, IH. Qed.

Lemma existsb_none (P : jline -> bool) l : Forall (fun y => P y = false) l -> existsb P l = false.
Proof. induction 1 as [|y l Hy _ IH]; [done|]. cbn [existsb]. by rewrite Hy. Qed.

(** Lines with other keys are no partners. *)
Lemma partner_app_other g l z : Forall (fun y => key y <> key z) g -> partner (g ++ l) z = partner l z.
Proof.
  intros H. unfold partner. rewrite existsb_app, existsb_none; [done|].
  eapply Forall_impl; [exact H|]. intros y. apply seqb_ne.
Qed.

Lemma filter_other g l k : Forall (fun y => key y <> k) g ->
  List.filter (fun y => key y =s? k) (g ++ l) = List.filter (fun y => key y =s? k) l.
Proof.
  intros H. rewrite List.filter_app, filter_none; [done|].
  eapply Forall_impl; [exact H|]. intros y. apply seqb_ne.
Qed.

Lemma filter_ext_Forall (P R : jline -> bool) l : Forall (fun y => P y = R y) l -> List.filter P l = List.filter R l.
Proof. induction 1 as [|y l Hy _ IH]; [done|]. cbn [List.filter]. by rewrite Hy, IH. Qed.

Lemma bind_ext_Forall (f g : jline -> list joined) l : Forall (fun y => f y = g y) l -> l ≫= f = l ≫= g.
Proof. induction 1 as [|y l Hy _ IH]; [done|]. cbn [mbind list_bind]. rewrite Hy. by f_equal. Qed.

Lemma kle_nil_filter (l : list jline) : List.filter (fun x => negb (partner [] x)) l = l.
Proof. apply filter_every. by apply Forall_forall. Qed.

Lemma all_pairs_nil_r l : all_pairs l [] = [].
Proof. unfold all_pairs. induction l as [|x l IH]; [done|]. by rewrite bind_cons, IH. Qed.

Section JoinProofs.
Variables a1 a2 v1 v2 : bool.

Definition only1_of (l1 l2 : list jline) : list joined :=
  if a1 || v1 then Only1 <$> List.filter (fun x => negb (partner l2 x)) l1 else [].

Definition only2_of (l1 l2 : list jline) : list joined :=
  if a2 || v2 then Only2 <$> List.filter (fun y => negb (partner l1 y)) l2 else [].

(** The records of a run, sorted out. *)
Definition join_result (l1 l2 : list jline) (rs : list joined) : Prop :=
  List.filter is_pair rs = (if v1 || v2 then [] else all_pairs l1 l2) /\
  List.filter is_only1 rs = only1_of l1 l2 /\ List.filter is_only2 rs = only2_of l1 l2.


Lemma single1 wanted ls : List.filter is_pair (single wanted Only1 ls) = [] /\
  List.filter is_only1 (single wanted Only1 ls) = single wanted Only1 ls /\
  List.filter is_only2 (single wanted Only1 ls) = [].
Proof.
  unfold single. destruct wanted; [|done]. induction ls as [|l ls (IH1 & IH2 & IH3)]; [done|].
  rewrite fmap_cons. cbn [List.filter is_pair is_only1 is_only2]. by rewrite IH1, IH2, IH3.
Qed.

Lemma single2 wanted ls : List.filter is_pair (single wanted Only2 ls) = [] /\
  List.filter is_only1 (single wanted Only2 ls) = [] /\
  List.filter is_only2 (single wanted Only2 ls) = single wanted Only2 ls.
Proof.
  unfold single. destruct wanted; [|done]. induction ls as [|l ls (IH1 & IH2 & IH3)]; [done|].
  rewrite fmap_cons. cbn [List.filter is_pair is_only1 is_only2]. by rewrite IH1, IH2, IH3.
Qed.

Lemma product_pairs g1 g2 : List.filter is_pair (product g1 g2) = product g1 g2 /\
  List.filter is_only1 (product g1 g2) = [] /\ List.filter is_only2 (product g1 g2) = [].
Proof.
  assert (forall x l, List.filter is_pair ((fun y => Pair x y) <$> l) = ((fun y => Pair x y) <$> l) /\
    List.filter is_only1 ((fun y => Pair x y) <$> l) = [] /\ List.filter is_only2 ((fun y => Pair x y) <$> l) = []) as H.
  { intros x. induction l as [|y l (IH1 & IH2 & IH3)]; [done|]. rewrite !fmap_cons.
    cbn [List.filter is_pair is_only1 is_only2]. by rewrite IH1, IH2, IH3. }
  unfold product. induction g1 as [|x g1 (IH1 & IH2 & IH3)]; [done|]. rewrite bind_cons, !List.filter_app.
  destruct (H x g2) as (H1 & H2 & H3). by rewrite H1, H2, H3, IH1, IH2, IH3.
Qed.

(** ** The steps of the merge on the nested loop *)

Lemma partner_none l z : Forall (fun y => key y <> key z) l -> partner l z = false.
Proof. intros H. rewrite <- (app_nil_r l). by rewrite partner_app_other. Qed.

Lemma skip_first x r1 l2 : Forall (fun y => key y <> key x) l2 ->
  all_pairs (x :: r1) l2 = all_pairs r1 l2 /\
  only1_of (x :: r1) l2 = single (a1 || v1) Only1 [x] ++ only1_of r1 l2 /\
  only2_of (x :: r1) l2 = only2_of r1 l2.
Proof.
  intros H. split; [|split].
  - unfold all_pairs. rewrite bind_cons. pose proof (filter_other l2 [] (key x) H) as E.
    rewrite app_nil_r in E. by rewrite E.
  - unfold only1_of, single. cbn [List.filter]. rewrite partner_none by done. cbn [negb].
    by destruct (a1 || v1).
  - unfold only2_of. destruct (a2 || v2); [|done]. f_equal. apply filter_ext_Forall.
    eapply Forall_impl; [exact H|]. intros y Hy. cbn [partner existsb]. by rewrite seqb_ne.
Qed.

Lemma skip_second y l1 r2 : Forall (fun x => key x <> key y) l1 ->
  all_pairs l1 (y :: r2) = all_pairs l1 r2 /\
  only1_of l1 (y :: r2) = only1_of l1 r2 /\
  only2_of l1 (y :: r2) = single (a2 || v2) Only2 [y] ++ only2_of l1 r2.
Proof.
  intros H. split; [|split].
  - unfold all_pairs. apply bind_ext_Forall. eapply Forall_impl; [exact H|]. intros x Hx.
    cbn [List.filter]. by rewrite seqb_ne.
  - unfold only1_of. destruct (a1 || v1); [|done]. f_equal. apply filter_ext_Forall.
    eapply Forall_impl; [exact H|]. intros x Hx. cbn [partner existsb]. by rewrite seqb_ne.
  - unfold only2_of, single. cbn [List.filter]. rewrite partner_none by done. cbn [negb].
    by destruct (a2 || v2).
Qed.

Lemma partner_in g t z : g <> [] -> Forall (fun y => key y = key z) g -> partner (g ++ t) z = true.
Proof.
  destruct g as [|y g]; [done|]. intros _ [E _]%Forall_cons. unfold partner. cbn [app existsb].
  by rewrite E, seqb_refl.
Qed.

Lemma match_groups k g1 t1 g2 t2 : g1 <> [] -> g2 <> [] ->
  Forall (fun l => key l = k) g1 -> Forall (fun l => key l = k) g2 ->
  Forall (fun l => key l <> k) t1 -> Forall (fun l => key l <> k) t2 ->
  all_pairs (g1 ++ t1) (g2 ++ t2) = product g1 g2 ++ all_pairs t1 t2 /\
  only1_of (g1 ++ t1) (g2 ++ t2) = only1_of t1 t2 /\
  only2_of (g1 ++ t1) (g2 ++ t2) = only2_of t1 t2.
Proof.
  intros Ne1 Ne2 K1 K2 N1 N2.
  assert (forall g t g' t', g' <> [] -> Forall (fun l => key l = k) g -> Forall (fun l => key l = k) g' ->
    Forall (fun l => key l <> k) t -> List.filter (fun x => negb (partner (g' ++ t') x)) (g ++ t) =
      List.filter (fun x => negb (partner t' x)) t) as Hp.
  { intros g t g' t' Ne K K' N. rewrite List.filter_app, filter_none.
    - cbn [app]. apply filter_ext_Forall. eapply Forall_impl; [exact N|]. intros x Hx.
      rewrite partner_app_other; [done|]. eapply Forall_impl; [exact K'|]. intros y Hy. simpl in *. congruence.
    - eapply Forall_impl; [exact K|]. intros x Hx. rewrite partner_in; [done|done|].
      eapply Forall_impl; [exact K'|]. intros y Hy. simpl in *. congruence. }
  split; [|split].
  - unfold all_pairs. rewrite bind_app. f_equal.
    + unfold product. apply bind_ext_Forall. eapply Forall_impl; [exact K1|]. intros x Hx. f_equal.
      rewrite List.filter_app, (filter_none _ t2), app_nil_r.
      * apply filter_every. eapply Forall_impl; [exact K2|]. intros y Hy. simpl in *. rewrite Hx, Hy. apply seqb_refl.
      * eapply Forall_impl; [exact N2|]. intros y Hy. rewrite Hx. by apply seqb_ne.
    + apply bind_ext_Forall. eapply Forall_impl; [exact N1|]. intros x Hx. f_equal. apply filter_other.
      eapply Forall_impl; [exact K2|]. intros y Hy. simpl in *. congruence.
  - unfold only1_of. by rewrite Hp.
  - unfold only2_of. by rewrite Hp.
Qed.

Lemma same_key_head k x l : key x = k -> exists g t, same_key k (x :: l) = (x :: g, t).
Proof. intros E. cbn [same_key]. rewrite E, seqb_refl. destruct (same_key k l) as [g t]. eauto. Qed.

Lemma join_result_app l1 l2 rs r1 r2 h : join_result r1 r2 rs ->
  (if v1 || v2 then [] else all_pairs l1 l2) = List.filter is_pair h ++ (if v1 || v2 then [] else all_pairs r1 r2) ->
  only1_of l1 l2 = List.filter is_only1 h ++ only1_of r1 r2 ->
  only2_of l1 l2 = List.filter is_only2 h ++ only2_of r1 r2 -> join_result l1 l2 (h ++ rs).
Proof.
  intros (R1 & R2 & R3) H1 H2 H3. unfold join_result. rewrite !List.filter_app, R1, R2, R3. auto.
Qed.

Lemma join_end l1 l2 : l1 = [] \/ l2 = [] ->
  join_result l1 l2 (single (a1 || v1) Only1 l1 ++ single (a2 || v2) Only2 l2).
Proof.
  intros H. unfold join_result, only1_of, only2_of. rewrite !List.filter_app.
  destruct (single1 (a1 || v1) l1) as (-> & -> & ->). destruct (single2 (a2 || v2) l2) as (-> & -> & ->).
  unfold single. destruct H as [-> | ->]; rewrite ?kle_nil_filter, ?all_pairs_nil_r, ?app_nil_r;
    (split; [by destruct (v1 || v2)|split]); cbn [app List.filter fmap list_fmap]; by repeat case_match.
Qed.

Lemma join_loop_ok fuel : forall l1 l2, (length l1 + length l2 <= fuel)%nat ->
  StronglySorted kle l1 -> StronglySorted kle l2 ->
  exists rs, join_loop a1 a2 v1 v2 fuel l1 l2 = Some rs /\ join_result l1 l2 rs.
Proof.
  induction fuel as [|fuel IH]; intros l1 l2 Hf S1 S2.
  { destruct l1, l2; simpl in Hf; try lia. eexists. split; [reflexivity|]. apply (join_end [] []). by left. }
  destruct l1 as [|x r1]; [eexists; split; [by destruct l2|]; apply join_end; by left|].
  destruct l2 as [|y r2]; [eexists; split; [done|]; apply join_end; by right|].
  cbn [join_loop]. destruct (Compare (key x) (key y)) eqn:C.
  - apply Compare_eq in C.
    destruct (same_key_head (key x) x r1 eq_refl) as (g1 & t1 & E1).
    destruct (same_key_head (key x) y r2 (eq_sym C)) as (g2 & t2 & E2).
    assert (forall z r, key z = key x -> StronglySorted kle (z :: r) -> Forall (fun l => sle (key x) (key l)) (z :: r)) as F.
    { intros z r Ez [_ F]%StronglySorted_inv. rewrite <- Ez. constructor; [apply sle_refl|exact F]. }
    pose proof (same_key_spec _ _ _ _ E1 S1 (F x r1 eq_refl S1)) as (G1 & K1 & N1 & T1).
    pose proof (same_key_spec _ _ _ _ E2 S2 (F y r2 (eq_sym C) S2)) as (G2 & K2 & N2 & T2).
    rewrite E1, E2. destruct (IH t1 t2) as (rs & -> & R); [|done|done|].
    { apply (f_equal length) in G1, G2. rewrite length_app in *. simpl in *. lia. }
    eexists. split; [reflexivity|].
    destruct (match_groups (key x) (x :: g1) t1 (y :: g2) t2) as (P & O1 & O2); [done..|].
    rewrite G1, G2. destruct (product_pairs (x :: g1) (y :: g2)) as (Q1 & Q2 & Q3).
    apply (join_result_app _ _ rs t1 t2); [done| | |].
    + rewrite P. destruct (v1 || v2); [done|]. by rewrite Q1.
    + rewrite O1. destruct (v1 || v2); [done|]. by rewrite Q2.
    + rewrite O2. destruct (v1 || v2); [done|]. by rewrite Q3.
  - destruct (skip_first x r1 (y :: r2)) as (P & O1 & O2); [by apply kle_below|].
    destruct (IH r1 (y :: r2)) as (rs & -> & R); [simpl in *; lia|by apply StronglySorted_inv in S1 as [? _]|done|].
    eexists. split; [reflexivity|]. destruct (single1 (a1 || v1) [x]) as (Q1 & Q2 & Q3).
    apply (join_result_app _ _ rs r1 (y :: r2)); [done| | |]; rewrite ?Q1, ?Q2, ?Q3; [by rewrite P|done|done].
  - destruct (skip_second y (x :: r1) r2) as (P & O1 & O2).
    { apply kle_below; [|done]. by rewrite (Compare_antisym (key x) (key y)), C. }
    destruct (IH (x :: r1) r2) as (rs & -> & R); [simpl in *; lia|done|by apply StronglySorted_inv in S2 as [? _]|].
    eexists. split; [reflexivity|]. destruct (single2 (a2 || v2) [y]) as (Q1 & Q2 & Q3).
    apply (join_result_app _ _ rs (x :: r1) r2); [done| | |]; rewrite ?Q1, ?Q2, ?Q3; [by rewrite P|done|done].
Qed.
End JoinProofs.

(** C25: join on files sorted by their keys ends, and writes the records of the nested loop: for each
    line of the first file, in order, its combinations with the lines of the second file that have
    its key, in order (none with -v); and the lines of either file without partner that -a or -v ask
    for, in order. *)
Theorem join_correct a1 a2 v1 v2 text1 text2 field1 field2 delim oSpec :
  let lines1 := map (fun t => parseLine t delim (field1 - 1)) text1 in
  let lines2 := map (fun t => parseLine t delim (field2 - 1)) text2 in
  StronglySorted (fun x y => sle (key x) (key y)) lines1 ->
  StronglySorted (fun x y => sle (key x) (key y)) lines2 ->
  exists rs, join_run a1 a2 v1 v2 text1 text2 field1 field2 delim oSpec =
      Some (map (record delim oSpec (field2 - 1)) rs) /\
    List.filter is_pair rs = (if v1 || v2 then [] else
      x ← lines1; (fun y => Pair x y) <$> List.filter (fun y => key y =s? key x) lines2) /\
    List.filter is_only1 rs = (if a1 || v1 then
      Only1 <$> List.filter (fun x => negb (existsb (fun w => key w =s? key x) lines2)) lines1 else []) /\
    List.filter is_only2 rs = (if a2 || v2 then
      Only2 <$> List.filter (fun y => negb (existsb (fun w => key w =s? key y) lines1)) lines2 else []).
Proof.
  intros lines1 lines2 S1 S2.
  destruct (join_loop_ok a1 a2 v1 v2 (length lines1 + length lines2) lines1 lines2) as (rs & E & R); [lia|done|done|].
  exists rs. split; [|exact R]. unfold join_run. fold lines1 lines2. by rewrite E.
Qed.

Lemma join_correct_witness :
  exists rs, join_run true false false false ["a 1"; "b 2"; "b 3"] ["b x"; "c y"] 1 1 " " "" = Some rs /\
    rs = ["a 1"; "b 2 x"; "b 3 x"] /\
    StronglySorted (fun x y => sle (key x) (key y)) (map (fun t => parseLine t " " 0) ["b x"; "c y"]).
Proof.
  assert (StronglySorted (fun x y => sle (key x) (key y)) (map (fun t => parseLine t " " 0) ["b x"; "c y"])) as S2
    by (repeat constructor; done).
  destruct (join_correct true false false false ["a 1"; "b 2"; "b 3"] ["b x"; "c y"] 1 1 " " "") as (rs & E & _).
  - repeat constructor; done.
  - exact S2.
  - exists (map (record " " "" 0) rs). split; [exact E|]. split; [|exact S2].
    vm_compute in E. injection E as E. symmetry. exact E.
Defined.

(** The join field is not moved to the front of the record. *)
Example join_field_not_first :
  join_run false false false false ["1 k"] ["k x"] 2 1 " " "" = Some ["1 k x"].
Proof. reflexivity. Qed.
