(* ===== verification/Xmodem.v ===== *)
(** rx, the XMODEM receiver: pkg/rx/rx.go.

    The sender is the string of bytes that arrives; the receiver's answers are a list of bytes.
    Writing the file is left out: the result is its contents.  The loops carry fuel; the length of
    the stream is enough, since each turn reads a byte. *)

From S2P Require Import Prelude GoStd.

Local Open Scope Z_scope.

Definition SOH : Z := 0x01.
Definition EOT : Z := 0x04.
Definition ACK : Z := 0x06.
Definition NAK : Z := 0x15.
Definition CAN : Z := 0x18.
Definition C_ : Z := 0x43.
Definition blockSize : nat := 128.
Definition maxRetries : nat := 10.

(** * The CRC *)

(** uint16 *)
Definition crc16_bit (crc : Z) : Z :=
  if negb (Z.land crc 0x8000 =? 0) then Z.lxor (uwrap 16 (Z.shiftl crc 1)) 0x1021
  else uwrap 16 (Z.shiftl crc 1).

(** [crcTable[i]] *)
Definition crcTable (i : Z) : Z := Nat.iter 8 crc16_bit (uwrap 16 (Z.shiftl i 8)).

Fixpoint crc16_loop (data : string) (crc : Z) : Z :=
  match data with
  | "" => crc
  | String b data =>
      crc16_loop data (Z.lxor (uwrap 16 (Z.shiftl crc 8)) (crcTable (Z.lxor (Z.shiftr crc 8) (code b))))
  end.

Definition crc16 (data : string) : Z := crc16_loop data 0.

(** * The receiver *)

(** [io.ReadFull] of [n] bytes: [None] when the stream is too short. *)
Definition ReadFull (n : nat) (r : string) : option (string * string) :=
  if (String.length r <? n)%nat then None else Some (str_take n r, str_drop n r).

(** The parts of a block after its first byte. *)
Definition buf0 (buf : string) : Z := match buf with String c _ => code c | _ => 0 end.
Definition buf1 (buf : string) : Z := match buf with String _ (String c _) => code c | _ => 0 end.
Definition buf_data (buf : string) : string := str_take blockSize (str_drop 2 buf).
(** [binary.BigEndian.Uint16] *)
Definition rcvCRC (buf : string) : Z :=
  match str_drop (2 + blockSize) buf with
  | String a (String b _) => code a * 256 + code b
  | _ => 0
  end.

Inductive rx_error := ReadFirstBlock | InvalidFirstBlock | Cancelled | NoResponse.

(** How the reception ends: [Received] the buffer, with the answers so far. *)
Inductive reception := Received (fileBuf : string) (answers : list Z) | Broken (e : rx_error) (answers : list Z) | Stuck.

(** The loop after the first block. *)
Fixpoint recvLoop (fuel : nat) (r fileBuf : string) (blockExpected : Z) (cw : list Z) : reception :=
  match fuel with
  | O => Stuck
  | S fuel =>
      match ReadFull 1 r with
      | None => Received fileBuf cw
      | Some (first, r) =>
          let c := buf0 first in
          if c =? SOH then
            match ReadFull (2 + blockSize + 2) r with
            | None => Received fileBuf cw
            | Some (buf, r) =>
                if negb (buf0 buf =? blockExpected) then
                  if buf0 buf =? uwrap 8 (blockExpected - 1)
                  then recvLoop fuel r fileBuf blockExpected (cw ++ [ACK])
                  else Received fileBuf cw
                else if negb (buf1 buf =? uwrap 8 (255 - buf0 buf)) then Received fileBuf cw
                else if negb (crc16 (buf_data buf) =? rcvCRC buf)
                then recvLoop fuel r fileBuf blockExpected (cw ++ [NAK])
                else recvLoop fuel r (fileBuf +:+ buf_data buf) (uwrap 8 (blockExpected + 1)) (cw ++ [ACK])
            end
          else if c =? EOT then Received fileBuf (cw ++ [ACK])
          else if c =? CAN then Broken Cancelled cw
          else recvLoop fuel r fileBuf blockExpected cw
      end
  end.

(** The attempts of the handshake that are left. *)
Fixpoint handshake (attempts : nat) (r : string) (cw : list Z) : reception :=
  match attempts with
  | O => Broken NoResponse cw
  | S attempts =>
      let cw := cw ++ [C_] in
      match ReadFull 1 r with
      | None => handshake attempts r cw
      | Some (first, r) =>
          let c := buf0 first in
          if c =? SOH then
            match ReadFull (2 + blockSize + 2) r with
            | None => Broken ReadFirstBlock cw
            | Some (buf, r) =>
                if negb (buf0 buf =? 1) || negb (buf1 buf =? 0xFE) then Broken InvalidFirstBlock cw
                else if negb (crc16 (buf_data buf) =? rcvCRC buf) then handshake attempts r (cw ++ [NAK])
                else recvLoop (S (String.length r)) r (buf_data buf) 2 (cw ++ [ACK])
            end
          else if c =? EOT then Received "" (cw ++ [ACK])
          else if c =? CAN then Broken Cancelled cw
          else handshake attempts r cw
      end
  end.

(** The padding goes. *)
Definition strip_padding (raw : string) : string := TrimRightSet (fun c => code c =? 0x1A) raw.

(** The contents of the file and the number of bytes written. *)
Definition receiveFile (r : string) : result rx_error (string * Z) * list Z :=
  match handshake maxRetries r [] with
  | Received fileBuf cw =>
      let raw := strip_padding fileBuf in (Ok (raw, Z.of_nat (String.length raw)), cw)
  | Broken e cw => (Err e, cw)
  | Stuck => (Err NoResponse, [])
  end.

(** * The CRC, bit by bit *)

(** The table replaces eight steps of the division. *)
Definition crc16_bits (data : string) : Z :=
  foldl (fun crc b => Nat.iter 8 crc16_bit (Z.lxor crc (Z.shiftl b 8))) 0 (codes data).

(** * A sender *)

Definition byte (z : Z) : string := String (chr z) "".

Definition crc_bytes (crc : Z) : string := byte (crc / 256) +:+ byte (crc mod 256).

(** A block as it is sent. *)
Definition packet (n : Z) (d : string) (crc : Z) : string :=
  byte SOH +:+ byte n +:+ byte (255 - n) +:+ d +:+ crc_bytes crc.

Definition noise (c : ascii) : Prop := code c <> SOH /\ code c <> EOT /\ code c <> CAN.

(** How a transmission ends: at the end mark, where the stream breaks off, or at a block that is neither the
    next nor the one before, or whose second number does not match.  Only the first is the sender's. *)
Inductive ending := Complete | BrokenOff | OutOfOrder | Mismatch.

(** What arrives from the block number [n] on when the blocks [bs] are delivered: line noise between
    blocks, blocks that arrive with a wrong checksum, the block before again, and the next block. *)
Inductive sends : Z -> list string -> ending -> string -> Prop :=
| SendEnd n s : sends n [] Complete (byte EOT +:+ s)
| SendNothing n : sends n [] BrokenOff ""
| SendCut n s : (String.length s < 2 + blockSize + 2)%nat -> sends n [] BrokenOff (byte SOH +:+ s)
| SendOther n m rest s : 0 <= m < 256 -> m <> n -> m <> uwrap 8 (n - 1) -> String.length rest = (1 + blockSize + 2)%nat ->
    sends n [] OutOfOrder (byte SOH +:+ byte m +:+ rest +:+ s)
| SendMismatch n m rest s : 0 <= m < 256 -> m <> 255 - n -> String.length rest = (blockSize + 2)%nat ->
    sends n [] Mismatch (byte SOH +:+ byte n +:+ byte m +:+ rest +:+ s)
| SendNoise n bs e c s : noise c -> sends n bs e s -> sends n bs e (String c s)
| SendBad n bs e d crc s : String.length d = blockSize -> 0 <= crc < 2 ^ 16 -> crc <> crc16 d ->
    sends n bs e s -> sends n bs e (packet n d crc +:+ s)
| SendAgain n bs e rest s : String.length rest = (1 + blockSize + 2)%nat ->
    sends n bs e s -> sends n bs e (byte SOH +:+ byte (uwrap 8 (n - 1)) +:+ rest +:+ s)
| SendBlock n b bs e s : String.length b = blockSize ->
    sends (uwrap 8 (n + 1)) bs e s -> sends n (b :: bs) e (packet n b (crc16 b) +:+ s).

(** The start of a transmission: the first block in at most [k] attempts. *)
Inductive greets : nat -> list string -> ending -> string -> Prop :=
| GreetEnd k s : greets (S k) [] Complete (byte EOT +:+ s)
| GreetNoise k bs e c s : noise c -> greets k bs e s -> greets (S k) bs e (String c s)
| GreetBad k bs e d crc s : String.length d = blockSize -> 0 <= crc < 2 ^ 16 -> crc <> crc16 d ->
    greets k bs e s -> greets (S k) bs e (packet 1 d crc +:+ s)
| GreetBlock k b bs e s : String.length b = blockSize ->
    sends 2 bs e s -> greets (S k) (b :: bs) e (packet 1 b (crc16 b) +:+ s).

(** A string without the padding byte at its end. *)
Definition unpadded (s : string) : Prop := strip_padding s = s.

(** * The table is the bitwise CRC *)

Lemma crc16_bit_eq x : crc16_bit x =
  Z.lxor (uwrap 16 (Z.shiftl x 1)) (if Z.testbit x 15 then 0x1021 else 0).
Proof.
  unfold crc16_bit. change 0x8000 with (2 ^ 15). rewrite land_bit by lia.
  destruct (Z.testbit x 15); cbn [negb]; [done|]. by rewrite Z.lxor_0_r.
Qed.

Lemma crc16_bit_lxor a b : crc16_bit (Z.lxor a b) = Z.lxor (crc16_bit a) (crc16_bit b).
Proof.
  rewrite !crc16_bit_eq, Z.shiftl_lxor, uwrap_lxor, Z.lxor_spec by lia.
  apply Z.bits_inj'. intros i Hi. rewrite !Z.lxor_spec.
  destruct (Z.testbit a 15), (Z.testbit b 15); cbn [xorb]; rewrite ?Z.bits_0;
    generalize (Z.testbit (uwrap 16 (Z.shiftl a 1)) i) (Z.testbit (uwrap 16 (Z.shiftl b 1)) i) (Z.testbit 0x1021 i);
    by intros [] [] [].
Qed.

Lemma crc16_bits_lxor k a b :
  Nat.iter k crc16_bit (Z.lxor a b) = Z.lxor (Nat.iter k crc16_bit a) (Nat.iter k crc16_bit b).
Proof. induction k as [|k IH]; [done|]. rewrite !Nat.iter_succ, IH. apply crc16_bit_lxor. Qed.

Lemma crc16_bit_range x : 0 <= crc16_bit x < 2 ^ 16.
Proof.
  rewrite crc16_bit_eq. apply lxor_lt; [lia| |destruct (Z.testbit x 15); lia].
  unfold uwrap. apply Z.mod_pos_bound. lia.
Qed.

(** A byte without the top bit set is only shifted. *)
Lemma crc16_bits_low k lo : 0 <= lo < 2 ^ (16 - Z.of_nat k) -> (k <= 8)%nat ->
  Nat.iter k crc16_bit lo = Z.shiftl lo (Z.of_nat k).
Proof.
  induction k as [|k IH]; intros Hlo Hk; [by rewrite Z.shiftl_0_r|].
  assert (2 ^ (16 - Z.of_nat (S k)) * 2 = 2 ^ (16 - Z.of_nat k)) as E.
  { rewrite Z.mul_comm, <- Z.pow_succ_r by lia. f_equal. lia. }
  rewrite Nat.iter_succ, IH by lia. rewrite crc16_bit_eq.
  assert (Z.shiftl lo (Z.of_nat k) < 2 ^ 15) as Hb.
  { rewrite Z.shiftl_mul_pow2 by lia. replace 15 with (16 - Z.of_nat (S k) + Z.of_nat k) by lia.
    rewrite Z.pow_add_r by lia. apply Z.mul_lt_mono_pos_r; [apply Z.pow_pos_nonneg; lia|lia]. }
  assert (0 <= Z.shiftl lo (Z.of_nat k)) as H0 by (apply Z.shiftl_nonneg; lia).
  rewrite <- (Z.mod_small (Z.shiftl lo (Z.of_nat k)) (2 ^ 15)) at 2 by lia.
  rewrite Z.mod_pow2_bits_high by lia. rewrite Z.lxor_0_r, Z.shiftl_shiftl by lia.
  unfold uwrap. rewrite Z.mod_small; [f_equal; lia|].
  rewrite Z.shiftl_mul_pow2 in * by lia. rewrite Z.pow_add_r by lia. lia.
Qed.

Lemma byte_split crc : 0 <= crc < 2 ^ 16 ->
  crc = Z.lxor (Z.shiftl (Z.shiftr crc 8) 8) (crc mod 256) /\ 0 <= Z.shiftr crc 8 < 256 /\ 0 <= crc mod 256 < 256.
Proof.
  intros Hc. assert (0 <= crc mod 256 < 256) as Hl by (apply Z.mod_pos_bound; lia).
  rewrite Z.shiftr_div_pow2 by lia. split; [|split; [|done]].
  - rewrite Z.shiftl_mul_pow2 by lia. rewrite <- Z.add_nocarry_lxor.
    + rewrite (Z.div_mod crc (2 ^ 8)) at 1 by lia. change (2 ^ 8) with 256. ring.
    + apply Z.bits_inj'. intros i Hi. rewrite Z.land_spec, Z.bits_0. destruct (Z.lt_ge_cases i 8).
      * rewrite Z.mul_pow2_bits_low by lia. done.
      * change 256 with (2 ^ 8). rewrite Z.mod_pow2_bits_high by lia. apply andb_false_r.
  - split; [apply Z.div_pos; lia|apply Z.div_lt_upper_bound; lia].
Qed.

Lemma crc16_step crc b : 0 <= crc < 2 ^ 16 -> 0 <= b < 256 ->
  Z.lxor (uwrap 16 (Z.shiftl crc 8)) (crcTable (Z.lxor (Z.shiftr crc 8) b)) =
  Nat.iter 8 crc16_bit (Z.lxor crc (Z.shiftl b 8)).
Proof.
  intros Hc Hb. destruct (byte_split crc Hc) as (E & Hh & Hl).
  set (h := Z.shiftr crc 8) in *. set (l := crc mod 256) in *.
  assert (Z.lxor crc (Z.shiftl b 8) = Z.lxor (Z.shiftl (Z.lxor h b) 8) l) as ->.
  { rewrite E at 1. rewrite Z.shiftl_lxor. rewrite !Z.lxor_assoc. f_equal. apply Z.lxor_comm. }
  rewrite crc16_bits_lxor. rewrite (crc16_bits_low 8 l) by lia. change (Z.of_nat 8) with 8.
  unfold crcTable. pose proof (lxor_lt h b 8 ltac:(lia) Hh Hb) as Hhb.
  assert (uwrap 16 (Z.shiftl (Z.lxor h b) 8) = Z.shiftl (Z.lxor h b) 8) as ->.
  { unfold uwrap. apply Z.mod_small. rewrite Z.shiftl_mul_pow2 by lia. lia. }
  rewrite Z.lxor_comm. f_equal. rewrite !Z.shiftl_mul_pow2 by lia. unfold uwrap, l.
  change (2 ^ 16) with (256 * 2 ^ 8). rewrite Zmult_mod_distr_r. done.
Qed.

Lemma crc16_range data : 0 <= crc16 data < 2 ^ 16.
Proof.
  assert (forall data crc, 0 <= crc < 2 ^ 16 -> 0 <= crc16_loop data crc < 2 ^ 16) as H.
  { clear. induction data as [|b data IH]; intros crc Hc; [done|]. cbn [crc16_loop]. apply IH.
    rewrite crc16_step by (done || apply code_bound). rewrite Nat.iter_succ. apply crc16_bit_range. }
  apply H. lia.
Qed.

Lemma crc16_eq data : crc16 data = crc16_bits data.
Proof.
  assert (forall crc, 0 <= crc < 2 ^ 16 -> crc16_loop data crc =
    foldl (fun crc b => Nat.iter 8 crc16_bit (Z.lxor crc (Z.shiftl b 8))) crc (codes data)) as H; [|apply H; lia].
  induction data as [|b data IH]; intros crc Hc; [done|].
  change (codes (String b data)) with (code b :: codes data). cbn [crc16_loop foldl].
  rewrite <- IH by (rewrite Nat.iter_succ; apply crc16_bit_range).
  by rewrite crc16_step by (done || apply code_bound).
Qed.

(** * Reading what a sender sends *)

Lemma ReadFull_app s t : ReadFull (String.length s) (s +:+ t) = Some (s, t).
Proof.
  unfold ReadFull. rewrite slength_app. rewrite (proj2 (Nat.ltb_ge _ _)) by lia.
  by rewrite str_take_exact, str_drop_exact.
Qed.

Lemma ReadFull_byte z t : ReadFull 1 (byte z +:+ t) = Some (byte z, t).
Proof. exact (ReadFull_app (byte z) t). Qed.

Lemma ReadFull_char c s : ReadFull 1 (String c s) = Some (String c "", s).
Proof. exact (ReadFull_app (String c "") s). Qed.

Lemma buf0_byte z : 0 <= z < 256 -> buf0 (byte z) = z.
Proof. apply code_chr. Qed.

Lemma packet_split n d crc s : packet n d crc +:+ s =
  byte SOH +:+ (byte n +:+ byte (255 - n) +:+ d +:+ crc_bytes crc) +:+ s.
Proof. unfold packet. by rewrite !sapp_assoc. Qed.

Lemma packet_longer n d crc s : (String.length s < String.length (packet n d crc +:+ s))%nat.
Proof.
  rewrite packet_split, slength_app. change (String.length (byte SOH)) with 1%nat. rewrite slength_app. lia.
Qed.

(** The receiver's view of a block. *)
Lemma packet_parts n d crc s : 0 <= n < 256 -> String.length d = blockSize -> 0 <= crc < 2 ^ 16 ->
  let buf := byte n +:+ byte (255 - n) +:+ d +:+ crc_bytes crc in
  ReadFull (2 + blockSize + 2) (buf +:+ s) = Some (buf, s) /\ buf0 buf = n /\ buf1 buf = uwrap 8 (255 - n) /\
  buf_data buf = d /\ rcvCRC buf = crc.
Proof.
  intros Hn Hd Hc buf.
  assert (String.length buf = 2 + blockSize + 2)%nat as Hl by (unfold buf; rewrite !slength_app, Hd; done).
  split; [rewrite <- Hl; apply ReadFull_app|]. split; [unfold buf; apply code_chr; lia|].
  split; [unfold buf, buf1, uwrap; rewrite Z.mod_small by lia; apply code_chr; lia|].
  assert (str_drop 2 buf = d +:+ crc_bytes crc) as E2 by reflexivity.
  split.
  - unfold buf_data. rewrite E2, <- Hd. apply str_take_exact.
  - unfold rcvCRC. assert (str_drop (2 + blockSize) buf = crc_bytes crc) as ->.
    { change (str_drop (2 + blockSize) buf) with (str_drop blockSize (str_drop 2 buf)). rewrite E2, <- Hd.
      apply str_drop_exact. }
    unfold crc_bytes, byte. rewrite sapp_cons, sapp_nil_l.
    assert (0 <= crc / 256 < 256) by (split; [apply Z.div_pos; lia|apply Z.div_lt_upper_bound; lia]).
    assert (0 <= crc mod 256 < 256) by (apply Z.mod_pos_bound; lia).
    rewrite !code_chr by done. pose proof (Z.div_mod crc 256). lia.
Qed.

(** ** The turns of the loop *)

Lemma recv_S fuel r fileBuf k cw : recvLoop (S fuel) r fileBuf k cw =
  match ReadFull 1 r with
  | None => Received fileBuf cw
  | Some (first, r) =>
      let c := buf0 first in
      if c =? SOH then
        match ReadFull (2 + blockSize + 2) r with
        | None => Received fileBuf cw
        | Some (buf, r) =>
            if negb (buf0 buf =? k) then
              if buf0 buf =? uwrap 8 (k - 1) then recvLoop fuel r fileBuf k (cw ++ [ACK])
              else Received fileBuf cw
            else if negb (buf1 buf =? uwrap 8 (255 - buf0 buf)) then Received fileBuf cw
            else if negb (crc16 (buf_data buf) =? rcvCRC buf) then recvLoop fuel r fileBuf k (cw ++ [NAK])
            else recvLoop fuel r (fileBuf +:+ buf_data buf) (uwrap 8 (k + 1)) (cw ++ [ACK])
        end
      else if c =? EOT then Received fileBuf (cw ++ [ACK])
      else if c =? CAN then Broken Cancelled cw
      else recvLoop fuel r fileBuf k cw
  end.
Proof. reflexivity. Qed.

Lemma recv_packet fuel n d crc s fileBuf cw : 0 <= n < 256 -> String.length d = blockSize -> 0 <= crc < 2 ^ 16 ->
  recvLoop (S fuel) (packet n d crc +:+ s) fileBuf n cw =
    if crc16 d =? crc then recvLoop fuel s (fileBuf +:+ d) (uwrap 8 (n + 1)) (cw ++ [ACK])
    else recvLoop fuel s fileBuf n (cw ++ [NAK]).
Proof.
  intros Hn Hd Hc. destruct (packet_parts n d crc s Hn Hd Hc) as (R & B0 & B1 & D & V).
  rewrite recv_S, packet_split, ReadFull_byte. cbv zeta. rewrite buf0_byte by (unfold SOH; lia).
  cbn [Z.eqb SOH Pos.eqb]. rewrite R, B0, B1, D, V, !Z.eqb_refl. cbn [negb]. by destruct (crc16 d =? crc).
Qed.

Lemma recv_noise fuel c s fileBuf n cw : noise c ->
  recvLoop (S fuel) (String c s) fileBuf n cw = recvLoop fuel s fileBuf n cw.
Proof.
  intros (H1 & H2 & H3). rewrite recv_S, ReadFull_char. cbv zeta. cbn [buf0].
  by rewrite (proj2 (Z.eqb_neq _ _) H1), (proj2 (Z.eqb_neq _ _) H2), (proj2 (Z.eqb_neq _ _) H3).
Qed.

Lemma recv_end fuel s fileBuf n cw : recvLoop (S fuel) (byte EOT +:+ s) fileBuf n cw = Received fileBuf (cw ++ [ACK]).
Proof. rewrite recv_S, ReadFull_byte. reflexivity. Qed.

Lemma uwrap8_range z : 0 <= uwrap 8 z < 256.
Proof. unfold uwrap. apply Z.mod_pos_bound. lia. Qed.

Lemma uwrap8_pred n : 0 <= n < 256 -> uwrap 8 (n - 1) <> n.
Proof.
  unfold uwrap. change (2 ^ 8) with 256. intros Hn E. destruct (Z.eq_dec n 0) as [->|].
  - by vm_compute in E.
  - rewrite Z.mod_small in E by lia. lia.
Qed.

Lemma recv_again fuel n rest s fileBuf cw : 0 <= n < 256 -> String.length rest = (1 + blockSize + 2)%nat ->
  recvLoop (S fuel) (byte SOH +:+ byte (uwrap 8 (n - 1)) +:+ rest +:+ s) fileBuf n cw =
    recvLoop fuel s fileBuf n (cw ++ [ACK]).
Proof.
  intros Hn Hr. pose proof (uwrap8_range (n - 1)) as Hu. rewrite recv_S, ReadFull_byte. cbv zeta.
  rewrite buf0_byte by (unfold SOH; lia). cbn [Z.eqb SOH Pos.eqb].
  rewrite <- (sapp_assoc (byte (uwrap 8 (n - 1)))). set (buf := byte (uwrap 8 (n - 1)) +:+ rest).
  assert (String.length buf = 2 + blockSize + 2)%nat as Hl by (unfold buf; rewrite slength_app, Hr; done).
  rewrite <- Hl, ReadFull_app.
  assert (buf0 buf = uwrap 8 (n - 1)) as -> by (unfold buf; by apply code_chr).
  rewrite (proj2 (Z.eqb_neq _ _) (uwrap8_pred n Hn)). cbn [negb]. by rewrite Z.eqb_refl.
Qed.

Lemma uwrap8_complement n : 0 <= n < 256 -> uwrap 8 (255 - n) = 255 - n.
Proof. intros Hn. unfold uwrap. apply Z.mod_small. lia. Qed.

Lemma recv_nothing fuel fileBuf n cw : recvLoop (S fuel) "" fileBuf n cw = Received fileBuf cw.
Proof. reflexivity. Qed.

Lemma recv_soh fuel s fileBuf n cw : recvLoop (S fuel) (byte SOH +:+ s) fileBuf n cw =
  match ReadFull (2 + blockSize + 2) s with
  | None => Received fileBuf cw
  | Some (buf, r) =>
      if negb (buf0 buf =? n) then
        if buf0 buf =? uwrap 8 (n - 1) then recvLoop fuel r fileBuf n (cw ++ [ACK]) else Received fileBuf cw
      else if negb (buf1 buf =? uwrap 8 (255 - buf0 buf)) then Received fileBuf cw
      else if negb (crc16 (buf_data buf) =? rcvCRC buf) then recvLoop fuel r fileBuf n (cw ++ [NAK])
      else recvLoop fuel r (fileBuf +:+ buf_data buf) (uwrap 8 (n + 1)) (cw ++ [ACK])
  end.
Proof. by rewrite recv_S, ReadFull_byte. Qed.

Lemma ReadFull_block buf s : String.length buf = (2 + blockSize + 2)%nat ->
  ReadFull (2 + blockSize + 2) (buf +:+ s) = Some (buf, s).
Proof. intros <-. apply ReadFull_app. Qed.

Lemma recv_other fuel n m rest s fileBuf cw : 0 <= m < 256 -> m <> n -> m <> uwrap 8 (n - 1) ->
  String.length rest = (1 + blockSize + 2)%nat ->
  recvLoop (S fuel) (byte SOH +:+ byte m +:+ rest +:+ s) fileBuf n cw = Received fileBuf cw.
Proof.
  intros Hm H1 H2 Hr. rewrite recv_soh, <- (sapp_assoc (byte m)), ReadFull_block by (rewrite slength_app, Hr; done).
  assert (buf0 (byte m +:+ rest) = m) as -> by (by apply code_chr).
  by rewrite (proj2 (Z.eqb_neq _ _) H1), (proj2 (Z.eqb_neq _ _) H2).
Qed.

Lemma recv_mismatch fuel n m rest s fileBuf cw : 0 <= n < 256 -> 0 <= m < 256 -> m <> 255 - n ->
  String.length rest = (blockSize + 2)%nat ->
  recvLoop (S fuel) (byte SOH +:+ byte n +:+ byte m +:+ rest +:+ s) fileBuf n cw = Received fileBuf cw.
Proof.
  intros Hn Hm H1 Hr. rewrite recv_soh. rewrite <- (sapp_assoc (byte m)), <- (sapp_assoc (byte n)).
  rewrite ReadFull_block by (rewrite !slength_app, Hr; done).
  assert (buf0 (byte n +:+ byte m +:+ rest) = n) as -> by (by apply code_chr).
  assert (buf1 (byte n +:+ byte m +:+ rest) = m) as -> by (by apply code_chr).
  rewrite Z.eqb_refl, uwrap8_complement by done. by rewrite (proj2 (Z.eqb_neq _ _) H1).
Qed.

(** ** Transmissions *)

Lemma recv_sends n bs e s : sends n bs e s -> 0 <= n < 256 -> forall fuel fileBuf cw, (String.length s < fuel)%nat ->
  exists answers, recvLoop fuel s fileBuf n cw = Received (fileBuf +:+ sconcat bs) (cw ++ answers).
Proof.
  induction 1 as [n s|n|n s Hc|n m rest s Hm H1 H2 Hr|n m rest s Hm H1 Hr
    |n bs e c s Hc Hs IH|n bs e d crc s Hd Hcrc Hbad Hs IH|n bs e rest s Hr Hs IH|n b bs e s Hb Hs IH];
    intros Hn fuel fileBuf cw Hf; (destruct fuel as [|fuel]; [lia|]); rewrite ?sapp_nil_r.
  - exists [ACK]. apply recv_end.
  - exists []. rewrite app_nil_r. apply recv_nothing.
  - exists []. rewrite app_nil_r, recv_soh. unfold ReadFull. by rewrite (proj2 (Nat.ltb_lt _ _) Hc).
  - exists []. rewrite app_nil_r. by apply recv_other.
  - exists []. rewrite app_nil_r. by apply recv_mismatch.
  - destruct (IH Hn fuel fileBuf cw) as [a E]; [simpl in Hf; lia|]. exists a. by rewrite recv_noise.
  - destruct (IH Hn fuel fileBuf (cw ++ [NAK])) as [a E].
    { pose proof (packet_longer n d crc s). lia. }
    exists (NAK :: a). rewrite recv_packet by done. rewrite (proj2 (Z.eqb_neq _ _)) by congruence.
    rewrite E. by rewrite <- app_assoc.
  - destruct (IH Hn fuel fileBuf (cw ++ [ACK])) as [a E].
    { rewrite slength_app in Hf. change (String.length (byte SOH)) with 1%nat in Hf. rewrite !slength_app in Hf. lia. }
    exists (ACK :: a). rewrite recv_again by done. rewrite E. by rewrite <- app_assoc.
  - pose proof (crc16_range b) as Hcr.
    destruct (IH (uwrap8_range _) fuel (fileBuf +:+ b) (cw ++ [ACK])) as [a E].
    { pose proof (packet_longer n b (crc16 b) s). lia. }
    exists (ACK :: a). rewrite recv_packet by done. rewrite Z.eqb_refl, E. unfold sconcat. cbn [foldr].
    by rewrite <- app_assoc, sapp_assoc.
Qed.

Lemma handshake_S k r cw0 : handshake (S k) r cw0 =
  let cw := cw0 ++ [C_] in
  match ReadFull 1 r with
  | None => handshake k r cw
  | Some (first, r) =>
      let c := buf0 first in
      if c =? SOH then
        match ReadFull (2 + blockSize + 2) r with
        | None => Broken ReadFirstBlock cw
        | Some (buf, r) =>
            if negb (buf0 buf =? 1) || negb (buf1 buf =? 0xFE) then Broken InvalidFirstBlock cw
            else if negb (crc16 (buf_data buf) =? rcvCRC buf) then handshake k r (cw ++ [NAK])
            else recvLoop (S (String.length r)) r (buf_data buf) 2 (cw ++ [ACK])
        end
      else if c =? EOT then Received "" (cw ++ [ACK])
      else if c =? CAN then Broken Cancelled cw
      else handshake k r cw
  end.
Proof. reflexivity. Qed.

Lemma handshake_packet k d crc s cw : String.length d = blockSize -> 0 <= crc < 2 ^ 16 ->
  handshake (S k) (packet 1 d crc +:+ s) cw =
    if crc16 d =? crc then recvLoop (S (String.length s)) s d 2 ((cw ++ [C_]) ++ [ACK])
    else handshake k s ((cw ++ [C_]) ++ [NAK]).
Proof.
  intros Hd Hc. destruct (packet_parts 1 d crc s ltac:(lia) Hd Hc) as (R & B0 & B1 & D & V).
  rewrite handshake_S, packet_split, ReadFull_byte. cbv zeta. rewrite buf0_byte by (unfold SOH; lia).
  cbn [Z.eqb SOH Pos.eqb]. rewrite R, B0, B1, D, V. change (uwrap 8 (255 - 1) =? 254) with true.
  cbn [Z.eqb Pos.eqb negb orb]. by destruct (crc16 d =? crc).
Qed.

Lemma handshake_greets k bs e s : greets k bs e s -> forall cw,
  exists answers, handshake k s cw = Received (sconcat bs) (cw ++ answers).
Proof.
  induction 1 as [k s|k bs e c s Hc Hs IH|k bs e d crc s Hd Hcrc Hbad Hs IH|k b bs e s Hb Hs]; intros cw.
  - exists [C_; ACK]. rewrite handshake_S, ReadFull_byte. change [C_; ACK] with ([C_] ++ [ACK]). by rewrite app_assoc.
  - destruct (IH (cw ++ [C_])) as [a E]. exists (C_ :: a). rewrite handshake_S, ReadFull_char. cbv zeta. cbn [buf0].
    destruct Hc as (H1 & H2 & H3).
    rewrite (proj2 (Z.eqb_neq _ _) H1), (proj2 (Z.eqb_neq _ _) H2), (proj2 (Z.eqb_neq _ _) H3), E.
    by rewrite <- app_assoc.
  - destruct (IH ((cw ++ [C_]) ++ [NAK])) as [a E]. exists (C_ :: NAK :: a). rewrite handshake_packet by done.
    rewrite (proj2 (Z.eqb_neq _ _)) by congruence. rewrite E. by rewrite <- !app_assoc.
  - destruct (recv_sends 2 bs e s Hs ltac:(lia) (S (String.length s)) b ((cw ++ [C_]) ++ [ACK]) ltac:(lia)) as [a E].
    exists (C_ :: ACK :: a). rewrite handshake_packet by (done || apply crc16_range). rewrite Z.eqb_refl, E.
    unfold sconcat. cbn [foldr]. by rewrite <- !app_assoc.
Qed.

Lemma strip_padded s k : unpadded s -> strip_padding (s +:+ repeat_char (chr 0x1A) k) = s.
Proof.
  unfold unpadded. intros Hs. transitivity (strip_padding s); [|done]. clear Hs. unfold strip_padding. induction s as [|c s IH].
  - rewrite sapp_nil_l. induction k as [|k IH]; [done|]. cbn [repeat_char TrimRightSet] in *. by rewrite IH.
  - rewrite sapp_cons. cbn [TrimRightSet]. by rewrite IH.
Qed.

(** ** What was received was sent *)

Lemma ReadFull_inv n r buf s : ReadFull n r = Some (buf, s) -> r = buf +:+ s /\ String.length buf = n.
Proof.
  unfold ReadFull. destruct (Nat.ltb_spec (String.length r) n); [done|]. intros [= <- <-].
  rewrite str_take_drop, slength_take_min. split; [done|lia].
Qed.

Lemma ReadFull_one r buf s : ReadFull 1 r = Some (buf, s) -> exists c, r = String c s /\ buf0 buf = code c.
Proof.
  intros [-> Hl]%ReadFull_inv. destruct buf as [|c [|? ?]]; [done| |done]. by exists c.
Qed.

Lemma ReadFull_none n r : ReadFull n r = None -> (String.length r < n)%nat.
Proof. unfold ReadFull. by destruct (Nat.ltb_spec (String.length r) n). Qed.

Lemma byte_code c s : String c s = byte (code c) +:+ s.
Proof. unfold byte. by rewrite chr_code. Qed.

(** A block of the right length in its parts. *)
Lemma block_parts buf : String.length buf = (2 + blockSize + 2)%nat ->
  exists rest, buf = byte (buf0 buf) +:+ byte (buf1 buf) +:+ rest /\ String.length rest = (blockSize + 2)%nat /\
    rest = buf_data buf +:+ crc_bytes (rcvCRC buf) /\ String.length (buf_data buf) = blockSize /\
    0 <= buf0 buf < 256 /\ 0 <= buf1 buf < 256 /\ 0 <= rcvCRC buf < 2 ^ 16.
Proof.
  destruct buf as [|a [|b rest]]; [done|done|]. cbn [String.length]. intros Hl.
  assert (String.length rest = (blockSize + 2)%nat) as Hr by (unfold blockSize in *; lia).
  exists rest. cbn [buf0 buf1]. rewrite <- !byte_code. split; [done|]. split; [done|].
  change (buf_data (String a (String b rest))) with (str_take blockSize rest).
  assert (rcvCRC (String a (String b rest)) = match str_drop blockSize rest with String x (String y _) => code x * 256 + code y | _ => 0 end)
    as E by reflexivity.
  pose proof (str_take_drop blockSize rest) as Ht. pose proof (slength_drop blockSize rest) as Hd.
  rewrite Hr in Hd. rewrite E. clear E.
  destruct (str_drop blockSize rest) as [|x [|y [|? ?]]]; try (cbn [String.length] in Hd; lia).
  pose proof (code_bound x). pose proof (code_bound y). split; [|split; [rewrite slength_take_min; lia|]].
  - rewrite <- Ht at 1. f_equal. unfold crc_bytes, byte.
    rewrite Z.div_add_l, Z.div_small, Z.add_0_r by lia. rewrite Z.add_comm, Z.mod_add, Z.mod_small by lia.
    by rewrite !chr_code.
  - split; [apply code_bound|]. split; [apply code_bound|lia].
Qed.

Lemma parts_packet buf r rest : buf = byte (buf0 buf) +:+ byte (buf1 buf) +:+ rest ->
  rest = buf_data buf +:+ crc_bytes (rcvCRC buf) -> 0 <= buf0 buf < 256 -> buf1 buf = uwrap 8 (255 - buf0 buf) ->
  byte SOH +:+ buf +:+ r = packet (buf0 buf) (buf_data buf) (rcvCRC buf) +:+ r.
Proof.
  intros E Er H0 H1. rewrite packet_split. do 2 f_equal. rewrite E at 1. by rewrite Er, H1, uwrap8_complement.
Qed.

Lemma noise_code c : (code c =? SOH) = false -> (code c =? EOT) = false -> (code c =? CAN) = false -> noise c.
Proof. intros H1 H2 H3. by repeat split; apply Z.eqb_neq. Qed.

(** What the loop takes for a transmission is one. *)
Lemma recv_sent fuel : forall r n fileBuf cw got answers, 0 <= n < 256 ->
  recvLoop fuel r fileBuf n cw = Received got answers ->
  exists bs e, sends n bs e r /\ got = fileBuf +:+ sconcat bs.
Proof.
  assert (Hnil : forall n e r fileBuf, sends n [] e r -> exists bs e, sends n bs e r /\ fileBuf = fileBuf +:+ sconcat bs).
  { intros n e r fileBuf Hs. exists [], e. by rewrite sapp_nil_r. }
  induction fuel as [|fuel IH]; intros r n fileBuf cw got answers Hn; [done|]. rewrite recv_S.
  destruct (ReadFull 1 r) as [[first r1]|] eqn:E1.
  2:{ intros [= <- _]. apply ReadFull_none in E1. destruct r; [|simpl in E1; lia]. eapply Hnil. constructor. }
  apply ReadFull_one in E1 as (c & -> & ->). cbv zeta.
  destruct (Z.eqb_spec (code c) SOH) as [Ec|]; [rewrite byte_code, Ec|].
  - destruct (ReadFull _ r1) as [[buf r2]|] eqn:E2.
    2:{ intros [= <- _]. apply ReadFull_none in E2. eapply Hnil. by constructor. }
    apply ReadFull_inv in E2 as [-> Hl]. destruct (block_parts buf Hl) as (rest & Hb & Hr & Hp & Hd & H0 & H1 & Hc).
    destruct (Z.eqb_spec (buf0 buf) n) as [En|En]; cbn [negb].
    + destruct (Z.eqb_spec (buf1 buf) (uwrap 8 (255 - buf0 buf))) as [E1|E1]; cbn [negb].
      * rewrite (parts_packet buf r2 rest) by done. rewrite En.
        destruct (Z.eqb_spec (crc16 (buf_data buf)) (rcvCRC buf)) as [Ek|Ek]; cbn [negb]; intros H.
        -- apply IH in H as (bs & e & Hs & ->); [|apply uwrap8_range]. exists (buf_data buf :: bs), e.
           rewrite <- Ek. split; [by constructor|]. unfold sconcat. cbn [foldr]. by rewrite sapp_assoc.
        -- apply IH in H as (bs & e & Hs & ->); [|done]. exists bs, e. split; [|done]. by constructor.
      * intros [= <- _]. eapply Hnil. rewrite Hb, En, !sapp_assoc. constructor; [done| |done].
        rewrite uwrap8_complement in E1 by done. congruence.
    + assert (String.length (byte (buf1 buf) +:+ rest) = (1 + blockSize + 2)%nat) as Hl1 by (rewrite slength_app, Hr; done).
      destruct (Z.eqb_spec (buf0 buf) (uwrap 8 (n - 1))) as [Em|Em].
      * intros H. apply IH in H as (bs & e & Hs & ->); [|done]. exists bs, e. split; [|done].
        rewrite Hb, Em, sapp_assoc. by constructor.
      * intros [= <- _]. eapply Hnil. rewrite Hb, sapp_assoc. by constructor.
  - destruct (Z.eqb_spec (code c) EOT) as [Ec|]; [intros [= <- _]; rewrite byte_code, Ec; eapply Hnil; constructor|].
    destruct (Z.eqb_spec (code c) CAN) as [Ec|]; [done|]. intros H. apply IH in H as (bs & e & Hs & ->); [|done].
    exists bs, e. split; [|done]. by constructor.
Qed.

Lemma handshake_sent k : forall r cw got answers, handshake k r cw = Received got answers ->
  exists bs e, greets k bs e r /\ got = sconcat bs.
Proof.
  assert (Hshort : forall k cw got answers, handshake k "" cw <> Received got answers)
    by (clear; intros k; induction k as [|k IH]; intros cw got answers; [discriminate|]; exact (IH (cw ++ [C_]) got answers)).
  induction k as [|k IH]; intros r cw got answers; [done|]. rewrite handshake_S. cbv zeta.
  destruct (ReadFull 1 r) as [[first r1]|] eqn:E1.
  2:{ apply ReadFull_none in E1. destruct r; [|simpl in E1; lia]. intros H. by apply Hshort in H. }
  apply ReadFull_one in E1 as (c & -> & ->).
  destruct (Z.eqb_spec (code c) SOH) as [Ec|]; [rewrite byte_code, Ec|].
  - destruct (ReadFull _ r1) as [[buf r2]|] eqn:E2; [|done]. apply ReadFull_inv in E2 as [-> Hl].
    destruct (block_parts buf Hl) as (rest & Hb & Hr & Hp & Hd & H0 & H1 & Hc).
    destruct (Z.eqb_spec (buf0 buf) 1) as [En|En]; cbn [negb orb]; [|done].
    destruct (Z.eqb_spec (buf1 buf) 0xFE) as [E1|E1]; cbn [negb orb]; [|done].
    rewrite (parts_packet buf r2 rest Hb Hp H0) by (rewrite E1, En; done). rewrite En.
    destruct (Z.eqb_spec (crc16 (buf_data buf)) (rcvCRC buf)) as [Ek|Ek]; cbn [negb]; intros H.
    + apply recv_sent in H as (bs & e & Hs & ->); [|lia]. exists (buf_data buf :: bs), e. rewrite <- Ek.
      split; [by constructor|done].
    + apply IH in H as (bs & e & Hs & ->). exists bs, e. split; [|done]. by constructor.
  - destruct (Z.eqb_spec (code c) EOT) as [Ec|]; [intros [= <- _]; rewrite byte_code, Ec; exists [], Complete; by repeat constructor|].
    destruct (Z.eqb_spec (code c) CAN) as [Ec|]; [done|]. intros H. apply IH in H as (bs & e & Hs & ->).
    exists bs, e. split; [|done]. by constructor.
Qed.

(** C26: rx receives what an XMODEM sender sends, and nothing else: it succeeds on a stream exactly when the
    stream delivers the blocks [bs] in sequence, and the file is these blocks without the padding at the
    end.  Between the blocks there may be bytes other than SOH, EOT and CAN, blocks with a wrong checksum (which are
    repeated) and the block before once more; the first block comes within ten attempts.  The transmission ends
    with EOT, but it is also a success where the stream breaks off and at a block with a wrong number (see
    [truncated_transfer_succeeds]).  So data that a sender pads to whole blocks is received as it is,
    unless it ends in the padding byte. *)
Theorem rx_receives s :
  (forall contents n, fst (receiveFile s) = Ok (contents, n) <->
     exists bs e, greets maxRetries bs e s /\ contents = strip_padding (sconcat bs) /\
       n = Z.of_nat (String.length contents)) /\
  (forall data k bs, unpadded data -> sconcat bs = data +:+ repeat_char (chr 0x1A) k ->
     greets maxRetries bs Complete s -> fst (receiveFile s) = Ok (data, Z.of_nat (String.length data))).
Proof.
  assert (Hto : forall bs e, greets maxRetries bs e s ->
    fst (receiveFile s) = Ok (strip_padding (sconcat bs), Z.of_nat (String.length (strip_padding (sconcat bs))))).
  { intros bs e Hs. unfold receiveFile. by destruct (handshake_greets _ _ _ _ Hs []) as [a ->]. }
  split; [split|].
  - unfold receiveFile. destruct (handshake maxRetries s []) as [got a|?|] eqn:E; [|done|done].
    intros [= <- <-]. apply handshake_sent in E as (bs & e & Hs & ->). by exists bs, e.
  - intros (bs & e & Hs & -> & ->). by eapply Hto.
  - intros data k bs Hd Hb Hs. rewrite (Hto _ _ Hs), Hb. by rewrite strip_padded.
Qed.

(** The checksum of rx is the CRC of XMODEM: the table gives the division bit by bit, for each
    byte of the data, and no index is out of the table's range. *)
Theorem crc16_bitwise data : crc16 data = crc16_bits data /\ 0 <= crc16 data < 2 ^ 16 /\
  forall b, 0 <= Z.lxor (Z.shiftr (crc16 data) 8) (code b) < 256.
Proof.
  pose proof (crc16_range data) as Hr. split; [apply crc16_eq|]. split; [done|]. intros b.
  destruct (byte_split _ Hr) as (_ & Hh & _). change 256 with (2 ^ 8). apply lxor_lt; [lia|done|apply code_bound].
Qed.

(** The receiver answers every stream: the loop has a turn for each byte. *)
Lemma ReadFull_shorter n r buf s : (0 < n)%nat -> ReadFull n r = Some (buf, s) -> (String.length s < String.length r)%nat.
Proof.
  unfold ReadFull. intros Hn. destruct (Nat.ltb_spec (String.length r) n); [done|]. intros [= _ <-].
  rewrite slength_drop. lia.
Qed.

Lemma recvLoop_returns fuel r fileBuf n cw : (String.length r < fuel)%nat -> recvLoop fuel r fileBuf n cw <> Stuck.
Proof.
  revert r fileBuf n cw. induction fuel as [|fuel IH]; intros r fileBuf n cw Hf; [lia|]. rewrite recv_S.
  destruct (ReadFull 1 r) as [[first r1]|] eqn:E1; [|done]. apply ReadFull_shorter in E1; [|lia]. cbv zeta.
  repeat case_match; try done; subst; try (apply IH; lia);
    match goal with H : ReadFull (2 + blockSize + 2) _ = Some _ |- _ => apply ReadFull_shorter in H; [apply IH; lia|lia] end.
Qed.

Lemma handshake_returns attempts r cw : handshake attempts r cw <> Stuck.
Proof.
  revert r cw. induction attempts as [|k IH]; intros r cw; [done|]. rewrite handshake_S. cbv zeta.
  repeat case_match; try done; try apply IH. apply recvLoop_returns. lia.
Qed.

(** A stream that breaks off, or a block out of order, is a success with what came before. *)
Example truncated_transfer_succeeds :
  let b := repeat_char "x" 128 in
  fst (receiveFile (packet 1 b (crc16 b) +:+ "")) = Ok (b, 128) /\
  fst (receiveFile (packet 1 b (crc16 b) +:+ packet 3 b (crc16 b) +:+ byte EOT)) = Ok (b, 128).
Proof. split; vm_compute; reflexivity. Qed.

Lemma rx_receives_witness :
  let b := "hello" +:+ repeat_char (chr 0x1A) 123 in
  fst (receiveFile (String "?" (packet 1 b 0 +:+ packet 1 b (crc16 b) +:+ byte EOT +:+ ""))) = Ok ("hello", 5).
Proof.
  intros b. apply (proj2 (rx_receives _) "hello" 123%nat [b]).
  - reflexivity.
  - reflexivity.
  - apply GreetNoise; [repeat split; done|].
    apply GreetBad; [reflexivity|lia|intros E; vm_compute in E; discriminate E|].
    apply GreetBlock; [reflexivity|]. apply SendEnd.
Defined.
