(* ===== verification/BcSyntax.v ===== *)
(** The language of bc: lexer, syntax trees and parser of pkg/bc/bc.go.

    The runes and the tokens that are still to be read are lists; the position of the source is the
    length of what was dropped.  The end of the tokens stands for the last token, TokEOF.  The loop
    of the lexer and the recursion of the parser carry fuel; the number of runes and of tokens is
    enough. *)

From S2P Require Import Prelude GoStd Utf8.

Local Open Scope Z_scope.

(** * Tokens *)

Inductive TokenType :=
| TokEOF | TokError | TokNewline | TokNumber | TokString | TokIdent | TokAssign | TokPlus | TokMinus
| TokMul | TokDiv | TokMod | TokPower | TokInc | TokDec | TokEq | TokLe | TokGe | TokNe | TokLt | TokGt
| TokAnd | TokOr | TokNot | TokLparen | TokRparen | TokLbracket | TokRbracket | TokLbrace | TokRbrace
| TokComma | TokSemicolon | TokKeywordIf | TokKeywordElse | TokKeywordWhile | TokKeywordFor
| TokKeywordDefine | TokKeywordAuto | TokKeywordReturn | TokKeywordBreak | TokKeywordContinue
| TokKeywordHalt | TokKeywordPrint | TokPlusAssign | TokMinusAssign | TokMulAssign | TokDivAssign
| TokPowAssign | TokModAssign | TokDot.

(** The value of [iota]. *)
Definition token_code (t : TokenType) : Z :=
  match t with
  | TokEOF => 0 | TokError => 1 | TokNewline => 2 | TokNumber => 3 | TokString => 4 | TokIdent => 5
  | TokAssign => 6 | TokPlus => 7 | TokMinus => 8 | TokMul => 9 | TokDiv => 10 | TokMod => 11
  | TokPower => 12 | TokInc => 13 | TokDec => 14 | TokEq => 15 | TokLe => 16 | TokGe => 17 | TokNe => 18
  | TokLt => 19 | TokGt => 20 | TokAnd => 21 | TokOr => 22 | TokNot => 23 | TokLparen => 24
  | TokRparen => 25 | TokLbracket => 26 | TokRbracket => 27 | TokLbrace => 28 | TokRbrace => 29
  | TokComma => 30 | TokSemicolon => 31 | TokKeywordIf => 32 | TokKeywordElse => 33
  | TokKeywordWhile => 34 | TokKeywordFor => 35 | TokKeywordDefine => 36 | TokKeywordAuto => 37
  | TokKeywordReturn => 38 | TokKeywordBreak => 39 | TokKeywordContinue => 40 | TokKeywordHalt => 41
  | TokKeywordPrint => 42 | TokPlusAssign => 43 | TokMinusAssign => 44 | TokMulAssign => 45
  | TokDivAssign => 46 | TokPowAssign => 47 | TokModAssign => 48 | TokDot => 49
  end.

Record Token := { Type_ : TokenType; Val : string }.

(** [Token{Type: t, Val: v}] *)
Definition tok (t : TokenType) (v : string) : Token := {| Type_ := t; Val := v |}.

(** * The lexer *)

(** Line continuations are dropped. *)
Fixpoint join_lines (rs : list Z) : list Z :=
  match rs with
  | c :: ((d :: t) as r) => if isc c "\" && (d =? 10) then join_lines t else c :: join_lines r
  | _ => rs
  end.

Definition NewLexer (input : string) : list Z := join_lines (runes input).

(** [peek] of the lexer: 0 at the end. *)
Definition rpeek (rs : list Z) : Z := hd 0 rs.

Definition isStartOfIdent (c : Z) : bool := ((97 <=? c) && (c <=? 122)) || isc c "_".
Definition isUpper (c : Z) : bool := (65 <=? c) && (c <=? 90).
Definition isLetter (c : Z) : bool := ((97 <=? c) && (c <=? 122)) || isUpper c || isc c "_".
Definition isDigit (c : Z) : bool := (48 <=? c) && (c <=? 57).

(** A line comment ends before its newline. *)
Definition skip_line (rs : list Z) : list Z := snd (span (fun c => negb (c =? 10) && negb (c =? 0)) rs).

(** The rest after a comment, from after its opening; one that is not closed ends with the text. *)
Fixpoint skip_comment (rs : list Z) : list Z :=
  match rs with
  | [] => []
  | c :: r => if c =? 0 then r else if isc c "*" && isc (rpeek r) "/" then tl r else skip_comment r
  end.

(** A string from after its opening quote: the runes, or [None] if it is not terminated. *)
Fixpoint lex_string (rs : list Z) : option (list Z) * list Z :=
  match rs with
  | [] => (None, [])
  | c :: r =>
      if c =? 0 then (None, r)
      else if c =? 34 then (Some [], r)
      else if isc c "\" then
        match r with
        | [] => (None, [])
        | d :: r => if d =? 0 then (None, r) else let '(s, r) := lex_string r in ((fun s => c :: d :: s) <$> s, r)
        end
      else let '(s, r) := lex_string r in (cons c <$> s, r)
  end.

Fixpoint lex_number (hasDot : bool) (rs : list Z) : list Z * list Z :=
  match rs with
  | [] => ([], [])
  | p :: r =>
      if isc p "." then
        if hasDot then ([], rs) else let '(s, r) := lex_number true r in (p :: s, r)
      else if isDigit p || isUpper p then let '(s, r) := lex_number hasDot r in (p :: s, r)
      else ([], rs)
  end.

Definition keyword (val : string) : option TokenType :=
  if val =s? "if" then Some TokKeywordIf
  else if val =s? "else" then Some TokKeywordElse
  else if val =s? "while" then Some TokKeywordWhile
  else if val =s? "for" then Some TokKeywordFor
  else if val =s? "define" then Some TokKeywordDefine
  else if val =s? "auto" then Some TokKeywordAuto
  else if val =s? "return" then Some TokKeywordReturn
  else if val =s? "break" then Some TokKeywordBreak
  else if val =s? "continue" then Some TokKeywordContinue
  else if val =s? "halt" then Some TokKeywordHalt
  else if val =s? "print" then Some TokKeywordPrint
  else None.

Definition word_token (w : list Z) : Token :=
  let val := string_of_runes w in
  match keyword val with
  | Some t => tok t val
  | None =>
      let isAllUpper := forallb (fun r => negb (isStartOfIdent r)) w in
      if isAllUpper && negb (val =s? "") then tok TokNumber val else tok TokIdent val
  end.

(** The operators and delimiters: the token for the rune [ch], which may take the next one too. *)
Definition punctuation (ch : Z) (r : list Z) : option (Token * list Z) :=
  let one t v := Some (tok t v, r) in
  let two c t2 v2 t v := if isc (rpeek r) c then Some (tok t2 v2, tl r) else Some (tok t v, r) in
  if isc ch "(" then one TokLparen "("
  else if isc ch ")" then one TokRparen ")"
  else if isc ch "[" then one TokLbracket "["
  else if isc ch "]" then one TokRbracket "]"
  else if isc ch "{" then one TokLbrace "{"
  else if isc ch "}" then one TokRbrace "}"
  else if isc ch "," then one TokComma ","
  else if isc ch ";" then one TokSemicolon ";"
  else if isc ch "+" then
    if isc (rpeek r) "+" then Some (tok TokInc "++", tl r) else two "="%char TokPlusAssign "+=" TokPlus "+"
  else if isc ch "-" then
    if isc (rpeek r) "-" then Some (tok TokDec "--", tl r) else two "="%char TokMinusAssign "-=" TokMinus "-"
  else if isc ch "*" then two "="%char TokMulAssign "*=" TokMul "*"
  else if isc ch "%" then two "="%char TokModAssign "%=" TokMod "%"
  else if isc ch "^" then two "="%char TokPowAssign "^=" TokPower "^"
  else if isc ch "." then if isDigit (rpeek r) then None else one TokDot "."
  else if isc ch "=" then two "="%char TokEq "==" TokAssign "="
  else if isc ch "<" then two "="%char TokLe "<=" TokLt "<"
  else if isc ch ">" then two "="%char TokGe ">=" TokGt ">"
  else if isc ch "!" then two "="%char TokNe "!=" TokNot "!"
  else if isc ch "&" then two "&"%char TokAnd "&&" TokError "&"
  else if isc ch "|" then two "|"%char TokOr "||" TokError "|"
  else None.

(** The token that starts with the rune [ch], once comments and the slash are out of the way. *)
Definition token_at (ch : Z) (r : list Z) : Token * list Z :=
  if ch =? 10 then (tok TokNewline (String "010" ""), r)
  else
    match punctuation ch r with
    | Some tr => tr
    | None =>
        if ch =? 34 then
          let '(s, r) := lex_string r in
          (match s with Some s => tok TokString (string_of_runes s) | None => tok TokError "unterminated string" end, r)
        else if isStartOfIdent ch then
          let '(w, r) := span (fun c => isLetter c || isDigit c) (ch :: r) in (word_token w, r)
        else if isDigit ch || isc ch "." || isUpper ch then
          let '(s, r) := lex_number false (ch :: r) in
          let val := string_of_runes s in
          (if val =s? "." then tok TokError "." else tok TokNumber val, r)
        else (tok TokError (string_of_runes [ch]), r)
    end.

(** [None] for too little fuel. *)
Fixpoint NextToken (fuel : nat) (rs : list Z) : option (Token * list Z) :=
  match fuel with
  | O => None
  | S fuel =>
      match rs with
      | [] => Some (tok TokEOF "", [])
      | ch :: r =>
          if ch =? 0 then Some (tok TokEOF "", rs)
          else if isc ch " " || (ch =? 9) || (ch =? 13) then NextToken fuel r
          else if isc ch "#" then NextToken fuel (skip_line rs)
          else if isc ch "/" then
            if isc (rpeek r) "*" then NextToken fuel (skip_comment (tl r))
            else if isc (rpeek r) "=" then Some (tok TokDivAssign "/=", tl r)
            else Some (tok TokDiv "/", r)
          else Some (token_at ch r)
      end
  end.

(** The tokens before TokEOF. *)
Fixpoint lex_tokens (fuel : nat) (rs : list Z) : option (list Token) :=
  match fuel with
  | O => None
  | S fuel =>
      '(t, r) ← NextToken (S (length rs)) rs;
      match Type_ t with
      | TokEOF => Some []
      | _ => ts ← lex_tokens fuel r; Some (t :: ts)
      end
  end.

Definition lex (input : string) : option (list Token) :=
  let rs := NewLexer input in lex_tokens (S (length rs)) rs.

(** * Syntax trees

    An expression or statement that may be nil is an option. *)

Inductive Expr :=
| NumExpr (val : string)
| StringExpr (val : string)
| VarExpr (name : string)
| ArrayAccessExpr (name : string) (index : option Expr)
| BinaryExpr (op : TokenType) (lhs rhs : Expr)
| UnaryExpr (op : TokenType) (e : Expr) (postIncDec : bool)
| CallExpr (name : string) (args : list Expr)
| AssignExpr (lhs rhs : Expr)
| ParenExpr (e : Expr).

Record FuncDecl_ (Stmt : Type) := {
  Name : string;
  Params : list string;
  ParamArrays : list bool;
  ParamRefs : list bool;
  Autos : list string;
  AutoArrays : list string;
  Body : Stmt;
  Void : bool }.
Arguments Name {Stmt} _.
Arguments Params {Stmt} _.
Arguments ParamArrays {Stmt} _.
Arguments ParamRefs {Stmt} _.
Arguments Autos {Stmt} _.
Arguments AutoArrays {Stmt} _.
Arguments Body {Stmt} _.
Arguments Void {Stmt} _.

Inductive Stmt :=
| ExprStmt (e : Expr)
| BlockStmt (stmts : list Stmt)
| IfStmt (cond : Expr) (then_ else_ : option Stmt)
| WhileStmt (cond : Expr) (body : option Stmt)
| ForStmt (init cond step : option Expr) (body : option Stmt)
| ReturnStmt (val : option Expr)
| BreakStmt
| ContinueStmt
| HaltStmt
| PrintStmt (args : list Expr)
| DefineStmt (decl : FuncDecl_ Stmt).

Definition FuncDecl := FuncDecl_ Stmt.

(** * The parser *)

Inductive bc_syntax := Expected (what : string) | Unexpected (t : Token) | RefNotArray | OutOfFuel.

Definition parser (A : Type) := list Token -> result bc_syntax (A * list Token).

(** The type of [peek]. *)
Definition tpeek (ts : list Token) : TokenType := match ts with t :: _ => Type_ t | [] => TokEOF end.

Definition is_type (t u : TokenType) : bool := token_code t =? token_code u.

(** [p.match(t)]: the tokens after one of the type [t]. *)
Definition accept (t : TokenType) (ts : list Token) : option (list Token) :=
  if is_type (tpeek ts) t then Some (tl ts) else None.

(** [if !p.match(t) { return nil, fmt.Errorf("expected ...") }] *)
Definition expect (t : TokenType) (what : string) (ts : list Token) : result bc_syntax (list Token) :=
  match accept t ts with Some ts => Ok ts | None => Err (Expected what) end.

(** A [match] whose result is dropped. *)
Definition optional (t : TokenType) (ts : list Token) : list Token := default ts (accept t ts).

Fixpoint skipNewlines (ts : list Token) : list Token :=
  match ts with t :: r => if is_type (Type_ t) TokNewline then skipNewlines r else ts | [] => [] end.

(** ** Expressions *)

Definition is_or (t : TokenType) : bool := is_type t TokOr.
Definition is_and (t : TokenType) : bool := is_type t TokAnd.
Definition is_comparison (t : TokenType) : bool :=
  is_type t TokEq || is_type t TokNe || is_type t TokLt || is_type t TokLe || is_type t TokGt || is_type t TokGe.
Definition is_addsub (t : TokenType) : bool := is_type t TokPlus || is_type t TokMinus.
Definition is_muldivmod (t : TokenType) : bool := is_type t TokMul || is_type t TokDiv || is_type t TokMod.
Definition is_incdec (t : TokenType) : bool := is_type t TokInc || is_type t TokDec.
Definition is_unary (t : TokenType) : bool :=
  is_type t TokMinus || is_type t TokPlus || is_type t TokNot || is_incdec t.

(** The operator of a compound assignment. *)
Definition compound (t : TokenType) : option TokenType :=
  match t with
  | TokPlusAssign => Some TokPlus
  | TokMinusAssign => Some TokMinus
  | TokMulAssign => Some TokMul
  | TokDivAssign => Some TokDiv
  | TokPowAssign => Some TokPower
  | TokModAssign => Some TokMod
  | _ => None
  end.

(** A variable may have an increment after it. *)
Definition postfix (e : Expr) : parser Expr := fun ts =>
  if is_incdec (tpeek ts) then Ok (UnaryExpr (tpeek ts) e true, tl ts) else Ok (e, ts).

(** The loop that parseOr, parseAnd, parseComparison, parseAddSub and parseMulDivMod have in
    common, after the first operand. *)
Fixpoint chain (ops : TokenType -> bool) (operand : parser Expr) (fuel : nat) (expr : Expr) : parser Expr := fun ts =>
  match fuel with
  | O => Err OutOfFuel
  | S fuel =>
      let t := tpeek ts in
      if ops t then let? '(rhs, ts) := operand (tl ts) in chain ops operand fuel (BinaryExpr t expr rhs) ts
      else Ok (expr, ts)
  end.

Definition left_assoc (ops : TokenType -> bool) (operand : parser Expr) : parser Expr := fun ts =>
  let? '(expr, ts) := operand ts in chain ops operand (S (length ts)) expr ts.

Section Levels.
Variable parseExpr : parser Expr.

(** The arguments of a call, before the closing parenthesis. *)
Fixpoint call_args (fuel : nat) : parser (list Expr) := fun ts =>
  if is_type (tpeek ts) TokRparen || is_type (tpeek ts) TokEOF then Ok ([], ts)
  else
    let? '(arg, ts) := parseExpr ts in
    match accept TokComma ts with
    | None => Ok ([arg], ts)
    | Some ts =>
        match fuel with
        | O => Err OutOfFuel
        | S fuel => let? '(args, ts) := call_args fuel ts in Ok (arg :: args, ts)
        end
    end.

(** A name and what follows it: a call, an array element, a variable. *)
Definition parse_name (name : string) : parser Expr := fun ts =>
  match accept TokLparen ts with
  | Some ts =>
      let? '(args, ts) := call_args (length ts) ts in
      let? ts := expect TokRparen ") in call" ts in Ok (CallExpr name args, ts)
  | None =>
      match accept TokLbracket ts with
      | Some ts =>
          match accept TokRbracket ts with
          | Some ts => Ok (ArrayAccessExpr name None, ts)
          | None =>
              let? '(idx, ts) := parseExpr ts in
              let? ts := expect TokRbracket "] in array access" ts in Ok (ArrayAccessExpr name (Some idx), ts)
          end
      | None => postfix (VarExpr name) ts
      end
  end.

Definition parsePrimary : parser Expr := fun ts =>
  match ts with
  | [] => Err (Unexpected (tok TokEOF ""))
  | t :: r =>
      match Type_ t with
      | TokNumber => Ok (NumExpr (Val t), r)
      | TokString => Ok (StringExpr (Val t), r)
      | TokIdent => parse_name (Val t) r
      | TokLparen =>
          let? '(expr, ts) := parseExpr r in
          let? ts := expect TokRparen ")" ts in Ok (ParenExpr expr, ts)
      | TokDot => postfix (VarExpr "last") r
      | _ => Err (Unexpected t)
      end
  end.

Fixpoint parseUnary (ts : list Token) : result bc_syntax (Expr * list Token) :=
  match ts with
  | t :: r =>
      if is_unary (Type_ t) then let? '(expr, r) := parseUnary r in Ok (UnaryExpr (Type_ t) expr false, r)
      else parsePrimary ts
  | [] => parsePrimary ts
  end.

Fixpoint parsePower (fuel : nat) : parser Expr := fun ts =>
  match fuel with
  | O => Err OutOfFuel
  | S fuel =>
      let? '(expr, ts) := parseUnary ts in
      if is_type (tpeek ts) TokPower then
        let? '(rhs, ts) := parsePower fuel (tl ts) in Ok (BinaryExpr TokPower expr rhs, ts)
      else Ok (expr, ts)
  end.

Definition parseMulDivMod : parser Expr := left_assoc is_muldivmod (fun ts => parsePower (S (length ts)) ts).
Definition parseAddSub : parser Expr := left_assoc is_addsub parseMulDivMod.
Definition parseComparison : parser Expr := left_assoc is_comparison parseAddSub.
Definition parseAnd : parser Expr := left_assoc is_and parseComparison.
Definition parseOr : parser Expr := left_assoc is_or parseAnd.

(** [parseAssignment]; its recursion is [parseExpr], which only calls it. *)
Definition parseAssignment : parser Expr := fun ts =>
  let? '(expr, ts) := parseOr ts in
  let t := tpeek ts in
  if is_type t TokAssign then
    let? '(rhs, ts) := parseExpr (tl ts) in Ok (AssignExpr expr rhs, ts)
  else
    match compound t with
    | Some binOp => let? '(rhs, ts) := parseExpr (tl ts) in Ok (AssignExpr expr (BinaryExpr binOp expr rhs), ts)
    | None => Ok (expr, ts)
    end.
End Levels.

Fixpoint parse_expr (fuel : nat) : parser Expr := fun ts =>
  match fuel with
  | O => Err OutOfFuel
  | S fuel => parseAssignment (parse_expr fuel) ts
  end.

Definition parseExpr : parser Expr := fun ts => parse_expr (S (length ts)) ts.

(** An expression that is not there when the next token is one of [stops]. *)
Definition parse_opt_expr (stops : list TokenType) : parser (option Expr) := fun ts =>
  if existsb (is_type (tpeek ts)) stops then Ok (None, ts)
  else let? '(e, ts) := parseExpr ts in Ok (Some e, ts).

(** ** Statements *)

(** The arguments of print. *)
Fixpoint print_args (fuel : nat) : parser (list Expr) := fun ts =>
  let? '(expr, ts) := parseExpr ts in
  match accept TokComma ts with
  | None => Ok ([expr], ts)
  | Some ts =>
      match fuel with
      | O => Err OutOfFuel
      | S fuel => let? '(args, ts) := print_args fuel ts in Ok (expr :: args, ts)
      end
  end.

(** [x] or [x[]]: the name and whether it is an array. *)
Definition parse_declared (what bracket : string) : parser (string * bool) := fun ts =>
  match ts with
  | t :: r =>
      if is_type (Type_ t) TokIdent then
        match accept TokLbracket r with
        | Some r => let? r := expect TokRbracket bracket r in Ok (Val t, true, r)
        | None => Ok (Val t, false, r)
        end
      else Err (Expected what)
  | [] => Err (Expected what)
  end.

(** The parameters: the name, whether it is an array, and whether a reference. *)
Fixpoint parse_params (fuel : nat) : parser (list (string * bool * bool)) := fun ts =>
  if is_type (tpeek ts) TokRparen || is_type (tpeek ts) TokEOF then Ok ([], ts)
  else
    let isRef := is_type (tpeek ts) TokMul in
    let? '(param, ts) := parse_declared "param name" "] in param array" (optional TokMul ts) in
    if isRef && negb (snd param) then Err RefNotArray
    else
      match accept TokComma ts with
      | None => Ok ([(param, isRef)], ts)
      | Some ts =>
          match fuel with
          | O => Err OutOfFuel
          | S fuel => let? '(params, ts) := parse_params fuel ts in Ok ((param, isRef) :: params, ts)
          end
      end.

Fixpoint parse_autos (fuel : nat) : parser (list (string * bool)) := fun ts =>
  let? '(auto, ts) := parse_declared "auto variable name" "] in auto array" ts in
  match accept TokComma ts with
  | None => Ok ([auto], ts)
  | Some ts =>
      match fuel with
      | O => Err OutOfFuel
      | S fuel => let? '(autos, ts) := parse_autos fuel ts in Ok (auto :: autos, ts)
      end
  end.

Section Statements.
Variable parseStmt : parser (option Stmt).

(** The statements of a block, before the closing brace. *)
Fixpoint parse_stmts (fuel : nat) : parser (list Stmt) := fun ts =>
  if is_type (tpeek ts) TokRbrace || is_type (tpeek ts) TokEOF then Ok ([], ts)
  else
    let ts := skipNewlines ts in
    if is_type (tpeek ts) TokRbrace then Ok ([], ts)
    else
      match fuel with
      | O => Err OutOfFuel
      | S fuel =>
          let? '(st, ts) := parseStmt ts in
          let? '(stmts, ts) := parse_stmts fuel ts in
          Ok (match st with Some st => st :: stmts | None => stmts end, ts)
      end.

(** After the brace. *)
Definition parse_block (brace : string) : parser Stmt := fun ts =>
  let? '(stmts, ts) := parse_stmts (length ts) ts in
  let? ts := expect TokRbrace brace ts in Ok (BlockStmt stmts, ts).

Definition parse_if : parser Stmt := fun ts =>
  let? ts := expect TokLparen "(" ts in
  let? '(cond, ts) := parseExpr ts in
  let? ts := expect TokRparen ")" ts in
  let? '(thenStmt, ts) := parseStmt (skipNewlines ts) in
  let ts := skipNewlines ts in
  match accept TokKeywordElse ts with
  | Some ts =>
      let? '(elseStmt, ts) := parseStmt (skipNewlines ts) in Ok (IfStmt cond thenStmt elseStmt, ts)
  | None => Ok (IfStmt cond thenStmt None, ts)
  end.

Definition parse_while : parser Stmt := fun ts =>
  let? ts := expect TokLparen "(" ts in
  let? '(cond, ts) := parseExpr ts in
  let? ts := expect TokRparen ")" ts in
  let? '(body, ts) := parseStmt (skipNewlines ts) in Ok (WhileStmt cond body, ts).

Definition parse_for : parser Stmt := fun ts =>
  let? ts := expect TokLparen "(" ts in
  let? '(initExpr, ts) := parse_opt_expr [TokSemicolon] ts in
  let? ts := expect TokSemicolon "; in for loop init" ts in
  let? '(condExpr, ts) := parse_opt_expr [TokSemicolon] ts in
  let? ts := expect TokSemicolon "; in for loop cond" ts in
  let? '(stepExpr, ts) := parse_opt_expr [TokRparen] ts in
  let? ts := expect TokRparen ") in for loop step" ts in
  let? '(body, ts) := parseStmt (skipNewlines ts) in Ok (ForStmt initExpr condExpr stepExpr body, ts).

(** [parseDefine], after the keyword. *)
Definition parseDefine : parser Stmt := fun ts =>
  let isVoid :=
    match ts with
    | t :: u :: _ => is_type (Type_ t) TokIdent && (Val t =s? "void") && is_type (Type_ u) TokIdent
    | _ => false
    end in
  let ts := if isVoid then tl ts else ts in
  if negb (is_type (tpeek ts) TokIdent) then Err (Expected "function name")
  else
    let name := match ts with t :: _ => Val t | [] => "" end in
    let? ts := expect TokLparen "(" (tl ts) in
    let? '(params, ts) := parse_params (length ts) ts in
    let? ts := expect TokRparen ")" ts in
    let? ts := expect TokLbrace "{" (skipNewlines ts) in
    let ts := skipNewlines ts in
    let? '(autos, ts) :=
      match accept TokKeywordAuto ts with
      | Some ts => let? '(autos, ts) := parse_autos (length ts) ts in Ok (autos, skipNewlines (optional TokSemicolon ts))
      | None => Ok ([], ts)
      end in
    let? '(body, ts) := parse_block "} in define body" ts in
    Ok (DefineStmt {| Name := name;
                      Params := (fun p => fst (fst p)) <$> params;
                      ParamArrays := (fun p => snd (fst p)) <$> params;
                      ParamRefs := snd <$> params;
                      Autos := fst <$> base.filter (fun a => snd a = false) autos;
                      AutoArrays := fst <$> base.filter (fun a => snd a = true) autos;
                      Body := body;
                      Void := isVoid |}, ts).

(** [parseStmt] on tokens that are not empty and do not start with a semicolon. *)
Definition parse_stmt_at : parser Stmt := fun ts =>
  let r := tl ts in
  match tpeek ts with
  | TokLbrace => parse_block "}" r
  | TokKeywordIf => parse_if r
  | TokKeywordWhile => parse_while r
  | TokKeywordFor => parse_for r
  | TokKeywordReturn =>
      let? '(e, ts) := parse_opt_expr [TokNewline; TokSemicolon; TokEOF; TokRbrace] r in
      Ok (ReturnStmt e, optional TokSemicolon ts)
  | TokKeywordBreak => Ok (BreakStmt, optional TokSemicolon r)
  | TokKeywordContinue => Ok (ContinueStmt, optional TokSemicolon r)
  | TokKeywordHalt => Ok (HaltStmt, optional TokSemicolon r)
  | TokKeywordPrint =>
      let? '(args, ts) := print_args (length r) r in Ok (PrintStmt args, optional TokSemicolon ts)
  | TokKeywordDefine => parseDefine r
  | _ =>
      let? '(e, ts) := parseExpr ts in Ok (ExprStmt e, optional TokNewline (optional TokSemicolon ts))
  end.
End Statements.

Fixpoint parse_stmt (fuel : nat) : parser (option Stmt) := fun ts =>
  match fuel with
  | O => Err OutOfFuel
  | S fuel =>
      match accept TokSemicolon ts with
      | Some ts => Ok (None, ts)
      | None => let? '(st, ts) := parse_stmt_at (parse_stmt fuel) ts in Ok (Some st, ts)
      end
  end.

Definition parseStmt : parser (option Stmt) := fun ts => parse_stmt (S (length ts)) ts.

(** [Parse] on the tokens that are left; the fuel is their number. *)
Fixpoint parse_program (fuel : nat) (ts : list Token) : result bc_syntax (list Stmt) :=
  let ts := skipNewlines ts in
  match ts with
  | [] => Ok []
  | _ =>
      match fuel with
      | O => Err OutOfFuel
      | S fuel =>
          let? '(st, ts) := parseStmt ts in
          let? stmts := parse_program fuel ts in
          Ok (match st with Some st => st :: stmts | None => stmts end)
      end
  end.

Definition Parse (ts : list Token) : result bc_syntax (list Stmt) := parse_program (length ts) ts.

(** Lexing and parsing a text. *)
Definition parse_text (input : string) : result bc_syntax (list Stmt) :=
  match lex input with Some ts => Parse ts | None => Err OutOfFuel end.
