(* ===== verification/BcGrammar.v ===== *)
(** The grammar of bc, and the parser of BcSyntax.v against it: pkg/bc/bc.go.

    [phrase] is the grammar of expressions with its levels of precedence, [sentence] and [block] that of
    statements with their terminators and newlines, [text_of_tokens] how tokens are written.  The parser
    reads exactly the phrases, it reads every program as its tree, and it always answers. *)

From S2P Require Import Prelude GoStd Utf8 BcSyntax.

Local Open Scope Z_scope.

(** * The grammar

    [phrase k ts e]: the tokens [ts] are an expression with the tree [e], of the level [k] of
    precedence: 0 for assignments, 1 to 5 for the left associative operators, 6 for powers, 7 for
    prefix operators, 8 for the rest. *)

Definition level_ops (k : nat) : TokenType -> bool :=
  match k with
  | 1%nat => is_or | 2%nat => is_and | 3%nat => is_comparison | 4%nat => is_addsub | 5%nat => is_muldivmod
  | _ => fun _ => false
  end.

Inductive phrase : nat -> list Token -> Expr -> Prop :=
| PUp k ts e : (k < 8)%nat -> phrase (S k) ts e -> phrase k ts e
| PAssign t l r tsl tsr : Type_ t = TokAssign -> phrase 1 tsl l -> phrase 0 tsr r ->
    phrase 0 (tsl ++ t :: tsr) (AssignExpr l r)
| PCompound t op l r tsl tsr : compound (Type_ t) = Some op -> phrase 1 tsl l -> phrase 0 tsr r ->
    phrase 0 (tsl ++ t :: tsr) (AssignExpr l (BinaryExpr op l r))
| PBinary k t l r tsl tsr : level_ops k (Type_ t) = true -> phrase k tsl l -> phrase (S k) tsr r ->
    phrase k (tsl ++ t :: tsr) (BinaryExpr (Type_ t) l r)
| PPower t l r tsl tsr : Type_ t = TokPower -> phrase 7 tsl l -> phrase 6 tsr r ->
    phrase 6 (tsl ++ t :: tsr) (BinaryExpr TokPower l r)
| PPrefix t ts e : is_unary (Type_ t) = true -> phrase 7 ts e -> phrase 7 (t :: ts) (UnaryExpr (Type_ t) e false)
| PNumber t : Type_ t = TokNumber -> phrase 8 [t] (NumExpr (Val t))
| PString t : Type_ t = TokString -> phrase 8 [t] (StringExpr (Val t))
| PVar t : Type_ t = TokIdent -> phrase 8 [t] (VarExpr (Val t))
| PVarPost t u : Type_ t = TokIdent -> is_incdec (Type_ u) = true ->
    phrase 8 [t; u] (UnaryExpr (Type_ u) (VarExpr (Val t)) true)
| PLast t : Type_ t = TokDot -> phrase 8 [t] (VarExpr "last")
| PLastPost t u : Type_ t = TokDot -> is_incdec (Type_ u) = true ->
    phrase 8 [t; u] (UnaryExpr (Type_ u) (VarExpr "last") true)
| PCall t lp rp ts es : Type_ t = TokIdent -> Type_ lp = TokLparen -> Type_ rp = TokRparen -> arguments ts es ->
    phrase 8 (t :: lp :: ts ++ [rp]) (CallExpr (Val t) es)
| PArray t lb rb : Type_ t = TokIdent -> Type_ lb = TokLbracket -> Type_ rb = TokRbracket ->
    phrase 8 [t; lb; rb] (ArrayAccessExpr (Val t) None)
| PElement t lb rb ts e : Type_ t = TokIdent -> Type_ lb = TokLbracket -> Type_ rb = TokRbracket -> phrase 0 ts e ->
    phrase 8 (t :: lb :: ts ++ [rb]) (ArrayAccessExpr (Val t) (Some e))
| PParen lp rp ts e : Type_ lp = TokLparen -> Type_ rp = TokRparen -> phrase 0 ts e ->
    phrase 8 (lp :: ts ++ [rp]) (ParenExpr e)
with arguments : list Token -> list Expr -> Prop :=
| ANone : arguments [] []
| AOne ts e : phrase 0 ts e -> arguments ts [e]
| AMore t ts e us es : Type_ t = TokComma -> phrase 0 ts e -> arguments us es -> arguments (ts ++ t :: us) (e :: es).

(** A token that cannot go on a phrase of the level [k]. *)
Definition goes_on (k : nat) (t : TokenType) : bool :=
  match k with
  | O => is_type t TokAssign || bool_decide (is_Some (compound t))
  | 6%nat => is_type t TokPower
  | 8%nat => is_type t TokLparen || is_type t TokLbracket || is_incdec t
  | k => level_ops k t
  end.

Definition stops (k : nat) (t : TokenType) : bool := forallb (fun j => negb (goes_on j t)) (seq k (9 - k)).

(** The parser of a level. *)
Definition level_parser (rec : parser Expr) (k : nat) : parser Expr :=
  match k with
  | O => parseAssignment rec
  | 1%nat => parseOr rec
  | 2%nat => parseAnd rec
  | 3%nat => parseComparison rec
  | 4%nat => parseAddSub rec
  | 5%nat => parseMulDivMod rec
  | 6%nat => fun ts => parsePower rec (S (length ts)) ts
  | 7%nat => parseUnary rec
  | _ => parsePrimary rec
  end.

Scheme phrase_mind := Minimality for phrase Sort Prop
with arguments_mind := Minimality for arguments Sort Prop.
Combined Scheme phrase_arguments_ind from phrase_mind, arguments_mind.

(** * Programs

    [sentence o ts s]: the tokens [ts] are a statement with its terminator and with the tree [s];
    [o] says that it ends with an if that an else after it would belong to. *)

Definition newlines (ts : list Token) : Prop := Forall (fun t => Type_ t = TokNewline) ts.

Definition terminator (t : Token) : Prop := Type_ t = TokSemicolon \/ Type_ t = TokNewline.

Inductive declared : list Token -> string * bool -> Prop :=
| DVar t : Type_ t = TokIdent -> declared [t] (Val t, false)
| DArray t lb rb : Type_ t = TokIdent -> Type_ lb = TokLbracket -> Type_ rb = TokRbracket ->
    declared [t; lb; rb] (Val t, true).

Inductive parameter : list Token -> string * bool * bool -> Prop :=
| DValue ts d : declared ts d -> parameter ts (d, false)
| DRef t ts x : Type_ t = TokMul -> declared ts (x, true) -> parameter (t :: ts) (x, true, true).

(** Items with commas between them, and one at the end if [trailing]. *)
Inductive commas {A} (item : list Token -> A -> Prop) (trailing : bool) : list Token -> list A -> Prop :=
| COne ts x : item ts x -> commas item trailing ts [x]
| CLast t ts x : trailing = true -> Type_ t = TokComma -> item ts x -> commas item trailing (ts ++ [t]) [x]
| CMore t ts x us xs : Type_ t = TokComma -> item ts x -> commas item trailing us xs ->
    commas item trailing (ts ++ t :: us) (x :: xs).

Inductive parameters : list Token -> list (string * bool * bool) -> Prop :=
| PNone : parameters [] []
| PSome ts ps : commas parameter true ts ps -> parameters ts ps.

Inductive opt_phrase : list Token -> option Expr -> Prop :=
| ONone : opt_phrase [] None
| OSome ts e : phrase 0 ts e -> opt_phrase ts (Some e).

(** The declaration of the local variables of a function. *)
Inductive auto_part : list Token -> list (string * bool) -> Prop :=
| AutoNone : auto_part [] []
| AutoSome kw ts ds t : Type_ kw = TokKeywordAuto -> commas declared false ts ds -> terminator t ->
    auto_part (kw :: ts ++ [t]) ds.

(** The keyword of a function without value. *)
Definition void_part (void : bool) (ts : list Token) : Prop :=
  if void then exists v, ts = [v] /\ Type_ v = TokIdent /\ Val v = "void" else ts = [].

Definition func_decl (name : string) (void : bool) (params : list (string * bool * bool))
    (autos : list (string * bool)) (stmts : list Stmt) : FuncDecl :=
  {| Name := name;
     Params := (fun p => fst (fst p)) <$> params;
     ParamArrays := (fun p => snd (fst p)) <$> params;
     ParamRefs := snd <$> params;
     Autos := fst <$> base.filter (fun a => snd a = false) autos;
     AutoArrays := fst <$> base.filter (fun a => snd a = true) autos;
     Body := BlockStmt stmts;
     Void := void |}.

Definition opt_cons {A} (x : option A) (l : list A) : list A := match x with Some x => x :: l | None => l end.

Inductive sentence : bool -> list Token -> option Stmt -> Prop :=
| SEmpty t : Type_ t = TokSemicolon -> sentence false [t] None
| SExpr ts e t : phrase 0 ts e -> terminator t -> sentence false (ts ++ [t]) (Some (ExprStmt e))
| SReturn kw ts e t : Type_ kw = TokKeywordReturn -> opt_phrase ts e -> terminator t ->
    sentence false (kw :: ts ++ [t]) (Some (ReturnStmt e))
| SBreak kw t : Type_ kw = TokKeywordBreak -> terminator t -> sentence false [kw; t] (Some BreakStmt)
| SContinue kw t : Type_ kw = TokKeywordContinue -> terminator t -> sentence false [kw; t] (Some ContinueStmt)
| SHalt kw t : Type_ kw = TokKeywordHalt -> terminator t -> sentence false [kw; t] (Some HaltStmt)
| SPrint kw ts es t : Type_ kw = TokKeywordPrint -> commas (phrase 0) false ts es -> terminator t ->
    sentence false (kw :: ts ++ [t]) (Some (PrintStmt es))
| SBlock lb rb ts ss : Type_ lb = TokLbrace -> Type_ rb = TokRbrace -> block ts ss ->
    sentence false (lb :: ts ++ [rb]) (Some (BlockStmt ss))
| SIf o kw lp rp tc c nls ts s : Type_ kw = TokKeywordIf -> Type_ lp = TokLparen -> Type_ rp = TokRparen ->
    phrase 0 tc c -> newlines nls -> sentence o ts s ->
    sentence true (kw :: lp :: tc ++ rp :: nls ++ ts) (Some (IfStmt c s None))
| SIfElse o kw lp rp tc c nls ts s nls2 el nls3 us s' : Type_ kw = TokKeywordIf -> Type_ lp = TokLparen ->
    Type_ rp = TokRparen -> phrase 0 tc c -> newlines nls -> sentence false ts s -> newlines nls2 ->
    Type_ el = TokKeywordElse -> newlines nls3 -> sentence o us s' ->
    sentence o (kw :: lp :: tc ++ rp :: nls ++ ts ++ nls2 ++ el :: nls3 ++ us) (Some (IfStmt c s s'))
| SWhile o kw lp rp tc c nls ts s : Type_ kw = TokKeywordWhile -> Type_ lp = TokLparen -> Type_ rp = TokRparen ->
    phrase 0 tc c -> newlines nls -> sentence o ts s ->
    sentence o (kw :: lp :: tc ++ rp :: nls ++ ts) (Some (WhileStmt c s))
| SFor o kw lp s1 s2 rp t1 e1 t2 e2 t3 e3 nls ts s : Type_ kw = TokKeywordFor -> Type_ lp = TokLparen ->
    Type_ s1 = TokSemicolon -> Type_ s2 = TokSemicolon -> Type_ rp = TokRparen ->
    opt_phrase t1 e1 -> opt_phrase t2 e2 -> opt_phrase t3 e3 -> newlines nls -> sentence o ts s ->
    sentence o (kw :: lp :: t1 ++ s1 :: t2 ++ s2 :: t3 ++ rp :: nls ++ ts) (Some (ForStmt e1 e2 e3 s))
| SDefine kw void vs name lp tp ps rp nls lb nls2 ta autos ts ss rb : Type_ kw = TokKeywordDefine ->
    void_part void vs -> Type_ name = TokIdent -> Type_ lp = TokLparen -> parameters tp ps -> Type_ rp = TokRparen ->
    newlines nls -> Type_ lb = TokLbrace -> newlines nls2 -> auto_part ta autos -> block ts ss -> Type_ rb = TokRbrace ->
    sentence false (kw :: vs ++ name :: lp :: tp ++ rp :: nls ++ lb :: nls2 ++ ta ++ ts ++ [rb])
      (Some (DefineStmt (func_decl (Val name) void ps autos ss)))
with block : list Token -> list Stmt -> Prop :=
| BNil nls : newlines nls -> block nls []
| BCons o nls ts s us ss : newlines nls -> sentence o ts s -> block us ss -> block (nls ++ ts ++ us) (opt_cons s ss).

Scheme sentence_mind := Minimality for sentence Sort Prop
with block_mind := Minimality for block Sort Prop.
Combined Scheme sentence_block_ind from sentence_mind, block_mind.

(** ** Tokens as they are written *)

(** The token types with one spelling. *)
Definition spelling (t : TokenType) : option string :=
  match t with
  | TokNewline => Some (String "010" "") | TokAssign => Some "=" | TokPlus => Some "+" | TokMinus => Some "-" | TokMul => Some "*"
  | TokDiv => Some "/" | TokMod => Some "%" | TokPower => Some "^" | TokInc => Some "++" | TokDec => Some "--"
  | TokEq => Some "==" | TokLe => Some "<=" | TokGe => Some ">=" | TokNe => Some "!=" | TokLt => Some "<" | TokGt => Some ">"
  | TokAnd => Some "&&" | TokOr => Some "||" | TokNot => Some "!" | TokLparen => Some "(" | TokRparen => Some ")"
  | TokLbracket => Some "[" | TokRbracket => Some "]" | TokLbrace => Some "{" | TokRbrace => Some "}" | TokComma => Some ","
  | TokSemicolon => Some ";" | TokKeywordIf => Some "if" | TokKeywordElse => Some "else" | TokKeywordWhile => Some "while"
  | TokKeywordFor => Some "for" | TokKeywordDefine => Some "define" | TokKeywordAuto => Some "auto"
  | TokKeywordReturn => Some "return" | TokKeywordBreak => Some "break" | TokKeywordContinue => Some "continue"
  | TokKeywordHalt => Some "halt" | TokKeywordPrint => Some "print" | TokPlusAssign => Some "+=" | TokMinusAssign => Some "-="
  | TokMulAssign => Some "*=" | TokDivAssign => Some "/=" | TokPowAssign => Some "^=" | TokModAssign => Some "%=" | TokDot => Some "."
  | _ => None
  end.

Definition digit_or_upper (c : ascii) : bool := isDigit (code c) || isUpper (code c).
Definition word_char (c : ascii) : bool := isLetter (code c) || isDigit (code c).
Definition string_char (c : ascii) : bool :=
  ascii_char c && negb (code c =? 0) && negb (code c =? 34) && negb (c =? "\")%char.

(** A number: digits and capital letters, with a point perhaps; one that starts with the point has a
    decimal digit after it. *)
Definition number_text (s : string) : Prop :=
  (str_forall digit_or_upper s = true /\ s <> "") \/
  exists i f, s = i +:+ "." +:+ f /\ str_forall digit_or_upper i = true /\ str_forall digit_or_upper f = true /\
    (i <> "" \/ exists c f', f = String c f' /\ isDigit (code c) = true).

Definition name_text (s : string) : Prop :=
  str_forall word_char s = true /\ keyword s = None /\
  exists c s', s = String c s' /\ isStartOfIdent (code c) = true.

(** A token and its text. *)
Inductive written_as : Token -> string -> Prop :=
| WFixed t s : spelling t = Some s -> written_as (tok t s) s
| WNumber s : number_text s -> written_as (tok TokNumber s) s
| WName s : name_text s -> written_as (tok TokIdent s) s
| WString s : str_forall string_char s = true -> written_as (tok TokString s) (String (chr 34) (s +:+ String (chr 34) "")).

(** Tokens with blanks after them. *)
Inductive text_of_tokens : list Token -> string -> Prop :=
| TNil : text_of_tokens [] ""
| TCons t s ts u : written_as t s -> text_of_tokens ts u -> text_of_tokens (t :: ts) (s +:+ " " +:+ u).

Lemma is_type_spec t u : reflect (t = u) (is_type t u).
Proof. apply iff_reflect. unfold is_type. rewrite Z.eqb_eq. split; [by intros ->|]. by destruct t, u. Qed.

(** ** Phrases are parsed *)

Lemma stops_S k t : (k < 8)%nat -> stops k t = true -> stops (S k) t = true /\ goes_on k t = false.
Proof.
  intros Hk. unfold stops. replace (9 - k)%nat with (S (9 - S k))%nat by lia. cbn [seq forallb].
  intros [Hg H]%andb_true_iff. apply negb_true_iff in Hg. done.
Qed.

Lemma stops_mono j k t : (j <= k <= 8)%nat -> stops j t = true -> stops k t = true.
Proof.
  intros [Hjk Hk]. induction Hjk as [|k Hjk IH]; [done|]. intros H. apply stops_S; [lia|]. apply IH; [lia|done].
Qed.

Lemma level_ops_stops k t : level_ops k t = true -> (1 <= k <= 5)%nat /\ stops (S k) t = true.
Proof. destruct k as [|[|[|[|[|[|k]]]]]]; try done; destruct t; try done; intros _; split; done || lia. Qed.

(** The first token of a phrase. *)
Definition starts (t : TokenType) : bool :=
  match t with
  | TokNumber | TokString | TokIdent | TokLparen | TokDot => true
  | _ => is_unary t
  end.

Definition starts_primary (t : TokenType) : bool := starts t && negb (is_unary t).

Lemma phrase_start k ts e : phrase k ts e ->
  exists t r, ts = t :: r /\ starts (Type_ t) = true /\ (k = 8%nat -> starts_primary (Type_ t) = true).
Proof.
  intros H. induction H as [k ts e Hk H IH|t l r tsl tsr Ht Hl IHl Hr|t op l r tsl tsr Ht Hl IHl Hr
    |k t l r tsl tsr Ht Hl IHl Hr|t l r tsl tsr Ht Hl IHl Hr|t ts e Ht H IH|t Ht|t Ht|t Ht|t u Ht Hu|t Ht|t u Ht Hu
    |t lp rp ts es Ht H1 H2 Ha|t lb rb Ht H1 H2|t lb rb ts e Ht H1 H2 H|lp rp ts e H1 H2 H];
    try (destruct IH as (x & y & -> & Hx & _)); try (destruct IHl as (x & y & -> & Hx & _));
    try (by eexists _, _; split; [reflexivity|]; unfold starts_primary; rewrite ?Ht, ?H1);
    try (by exists x, (y ++ t :: tsr)).
  - exists x, y. split; [done|]. split; [done|lia].
  - exists x, (y ++ t :: tsr). apply level_ops_stops in Ht as [Hk _]. split; [done|]. split; [done|lia].
  - exists t, (x :: y). split; [done|]. split; [|done]. unfold starts. destruct (Type_ t); done.
Qed.

(** The loop of the binary operators. *)
Lemma chain_stop ops operand fuel e ts : ops (tpeek ts) = false -> chain ops operand (S fuel) e ts = Ok (e, ts).
Proof. intros H. cbn [chain]. cbv zeta. by rewrite H. Qed.

Lemma accept_hit t u ts : Type_ u = t -> accept t (u :: ts) = Some ts.
Proof. intros <-. unfold accept. cbn [tpeek]. by destruct (is_type_spec (Type_ u) (Type_ u)). Qed.

Lemma expect_hit t u w ts : Type_ u = t -> expect t w (u :: ts) = Ok ts.
Proof. intros H. unfold expect. by rewrite accept_hit. Qed.

Lemma accept_miss t ts : is_type (tpeek ts) t = false -> accept t ts = None.
Proof. intros H. unfold accept. by rewrite H. Qed.

(** What the parser of a level does on a phrase of the level. *)
Definition parsed (k : nat) (ts : list Token) (e : Expr) : Prop :=
  forall n rest, (length ts <= n)%nat ->
    match k with
    | O => stops 0 (tpeek rest) = true -> parse_expr (S n) (ts ++ rest) = Ok (e, rest)
    | 6%nat => stops 6 (tpeek rest) = true ->
        forall f, (length ts < f)%nat -> parsePower (parse_expr n) f (ts ++ rest) = Ok (e, rest)
    | S (S (S (S (S (S (S _)))))) =>
        stops k (tpeek rest) = true -> level_parser (parse_expr n) k (ts ++ rest) = Ok (e, rest)
    | _ =>
        stops (S k) (tpeek rest) = true ->
        exists f, (length rest < f)%nat /\
          level_parser (parse_expr n) k (ts ++ rest) =
            chain (level_ops k) (level_parser (parse_expr n) (S k)) f e rest
    end.

Definition parsed_args (ts : list Token) (es : list Expr) : Prop :=
  forall n f rp rest, (length ts < n)%nat -> (length ts <= f)%nat -> Type_ rp = TokRparen ->
    call_args (parse_expr n) f (ts ++ rp :: rest) = Ok (es, rp :: rest).

(** A level from 1 on, once nothing goes on. *)
Lemma parsed_closed k ts e n rest : (1 <= k <= 8)%nat -> parsed k ts e -> (length ts <= n)%nat -> stops k (tpeek rest) = true ->
  level_parser (parse_expr n) k (ts ++ rest) = Ok (e, rest).
Proof.
  intros Hk H Hn Hs. specialize (H n rest Hn).
  assert (k <= 5 \/ 6 <= k)%nat as [H5|H6] by lia.
  - assert (stops (S k) (tpeek rest) = true /\ goes_on k (tpeek rest) = false) as [Hs' Hg] by (apply stops_S; [lia|done]).
    assert (level_ops k (tpeek rest) = false) as Ho by (destruct k as [|[|[|[|[|[|k]]]]]]; try lia; exact Hg).
    assert (exists f, (length rest < f)%nat /\ level_parser (parse_expr n) k (ts ++ rest) =
      chain (level_ops k) (level_parser (parse_expr n) (S k)) f e rest) as (f & Hf & ->).
    { destruct k as [|[|[|[|[|[|k]]]]]]; try lia; by apply H. }
    destruct f as [|f]; [lia|]. by apply chain_stop.
  - destruct k as [|[|[|[|[|[|[|k]]]]]]]; try lia; [|by apply H].
    cbn [level_parser]. apply H; [done|]. rewrite length_app. lia.
Qed.

Lemma parsed_up k ts e : (k < 8)%nat -> phrase (S k) ts e -> parsed (S k) ts e -> parsed k ts e.
Proof.
  intros Hk Hp H n rest Hn.
  assert (stops (S k) (tpeek rest) = true -> level_parser (parse_expr n) (S k) (ts ++ rest) = Ok (e, rest)) as Hc.
  { intros Hs. apply parsed_closed; auto with lia. }
  destruct k as [|[|[|[|[|[|[|[|k]]]]]]]]; try lia; intros Hs.
  - apply stops_S in Hs as [Hs Hg]; [|lia]. cbn [parse_expr]. unfold parseAssignment. cbn [level_parser] in Hc.
    rewrite Hc by done. cbn [res_bind]. cbn [goes_on] in Hg. apply orb_false_iff in Hg as [-> Hg].
    apply bool_decide_eq_false in Hg. destruct (compound (tpeek rest)); [|done]. by destruct Hg.
  - exists (S (length rest)). split; [lia|]. cbn [level_parser]. unfold parseOr, left_assoc.
    cbn [level_parser] in Hc. by rewrite Hc.
  - exists (S (length rest)). split; [lia|]. cbn [level_parser]. unfold parseAnd, left_assoc.
    cbn [level_parser] in Hc. by rewrite Hc.
  - exists (S (length rest)). split; [lia|]. cbn [level_parser]. unfold parseComparison, left_assoc.
    cbn [level_parser] in Hc. by rewrite Hc.
  - exists (S (length rest)). split; [lia|]. cbn [level_parser]. unfold parseAddSub, left_assoc.
    cbn [level_parser] in Hc. by rewrite Hc.
  - exists (S (length rest)). split; [lia|]. cbn [level_parser]. unfold parseMulDivMod, left_assoc.
    cbn [level_parser] in Hc. by rewrite Hc.
  - intros [|f] Hf; [lia|]. apply stops_S in Hs as [Hs Hg]; [|lia]. cbn [level_parser parsePower] in *. rewrite Hc by done.
    cbn [res_bind]. cbn [goes_on] in Hg. by rewrite Hg.
  - assert (stops 8 (tpeek rest) = true) as Hs8 by (apply (stops_mono 7); [lia|done]). specialize (Hc Hs8).
    destruct (phrase_start _ _ _ Hp) as (t & r & -> & _ & Ht). specialize (Ht eq_refl).
    unfold starts_primary in Ht. apply andb_true_iff in Ht as [_ Hu%negb_true_iff].
    cbn [level_parser app parseUnary] in *. by rewrite Hu.
Qed.

Lemma stops_comma : stops 0 TokComma = true.
Proof. reflexivity. Qed.

Lemma parsed_assign t ts l tsl tsr r n rest : (length (tsl ++ t :: tsr) <= n)%nat -> stops 1 (Type_ t) = true ->
  parsed 1 tsl l -> parsed 0 tsr r -> stops 0 (tpeek rest) = true ->
  ts = (tsl ++ t :: tsr) ++ rest ->
  parseOr (parse_expr n) ts = Ok (l, t :: tsr ++ rest) /\ parse_expr n (tsr ++ rest) = Ok (r, rest).
Proof.
  intros Hn Ht Hl Hr Hs ->. rewrite length_app in Hn. cbn [length] in Hn. rewrite <- app_assoc. cbn [app]. split.
  - apply (parsed_closed 1 tsl l n (t :: tsr ++ rest)); [lia|done|lia|done].
  - destruct n as [|n]; [lia|]. apply Hr; [lia|done].
Qed.

Lemma parsed_binary k t l r tsl tsr : level_ops k (Type_ t) = true -> parsed k tsl l -> parsed (S k) tsr r ->
  parsed k (tsl ++ t :: tsr) (BinaryExpr (Type_ t) l r).
Proof.
  intros Ht Hl Hr n rest Hn. pose proof (level_ops_stops _ _ Ht) as [Hk Hst].
  rewrite length_app in Hn. cbn [length] in Hn. rewrite <- app_assoc. cbn [app].
  assert (stops (S k) (tpeek rest) = true -> exists f, (length rest < f)%nat /\
    level_parser (parse_expr n) k (tsl ++ t :: tsr ++ rest) =
      chain (level_ops k) (level_parser (parse_expr n) (S k)) f (BinaryExpr (Type_ t) l r) rest) as H.
  { intros Hs. assert (exists f, (length (t :: tsr ++ rest) < f)%nat /\ level_parser (parse_expr n) k (tsl ++ t :: tsr ++ rest) =
      chain (level_ops k) (level_parser (parse_expr n) (S k)) f l (t :: tsr ++ rest)) as (f & Hf & ->).
    { specialize (Hl n (t :: tsr ++ rest) ltac:(lia)). destruct k as [|[|[|[|[|[|k]]]]]]; try lia; by apply Hl. }
    destruct f as [|f]; [lia|]. exists f. cbn [length] in Hf. rewrite length_app in Hf. split; [lia|].
    cbn [chain tpeek tl]. cbv zeta. rewrite Ht.
    rewrite (parsed_closed (S k) tsr r n rest) by (done || lia). done. }
  destruct k as [|[|[|[|[|[|k]]]]]]; try lia; exact H.
Qed.

Lemma parsed_primary ts e :
  (forall n rest, (length ts <= n)%nat -> stops 8 (tpeek rest) = true -> parsePrimary (parse_expr n) (ts ++ rest) = Ok (e, rest)) ->
  parsed 8 ts e.
Proof. intros H n rest Hn Hs. by apply H. Qed.

Lemma stops_8 t : stops 8 t = true -> is_type t TokLparen = false /\ is_type t TokLbracket = false /\ is_incdec t = false.
Proof. destruct t; done. Qed.

Lemma postfix_stop e ts : is_incdec (tpeek ts) = false -> postfix e ts = Ok (e, ts).
Proof. intros H. unfold postfix. by rewrite H. Qed.

Lemma name_stop rec x ts : stops 8 (tpeek ts) = true -> parse_name rec x ts = Ok (VarExpr x, ts).
Proof.
  intros (H1 & H2 & H3)%stops_8. unfold parse_name. rewrite !accept_miss by done. by apply postfix_stop.
Qed.

Lemma incdec_not u : is_incdec u = true -> is_type u TokLparen = false /\ is_type u TokLbracket = false.
Proof. destruct u; done. Qed.

Lemma starts_not t : starts t = true -> is_type t TokRparen = false /\ is_type t TokEOF = false /\ is_type t TokRbracket = false.
Proof. destruct t; done. Qed.

(** The expression between two delimiters. *)
Lemma parsed_inner ts e n rest u : parsed 0 ts e -> (length ts < n)%nat -> stops 0 (Type_ u) = true ->
  parse_expr n (ts ++ u :: rest) = Ok (e, u :: rest).
Proof. intros H Hn Hu. destruct n as [|n]; [lia|]. apply H; [lia|done]. Qed.

Lemma parsed_all : (forall k ts e, phrase k ts e -> parsed k ts e) /\ (forall ts es, arguments ts es -> parsed_args ts es).
Proof.
  apply phrase_arguments_ind.
  - intros k ts e Hk Hp H. by apply parsed_up.
  - intros t l r tsl tsr Ht _ Hl _ Hr n rest Hn Hs.
    destruct (parsed_assign t _ l tsl tsr r n rest Hn ltac:(by rewrite Ht) Hl Hr Hs eq_refl) as [El Er].
    cbn [parse_expr]. unfold parseAssignment. rewrite El. cbn [res_bind tpeek tl]. by rewrite Ht, Er.
  - intros t op l r tsl tsr Ht _ Hl _ Hr n rest Hn Hs.
    assert (stops 1 (Type_ t) = true /\ is_type (Type_ t) TokAssign = false) as [H1 Ha] by (by destruct (Type_ t)).
    destruct (parsed_assign t _ l tsl tsr r n rest Hn H1 Hl Hr Hs eq_refl) as [El Er].
    cbn [parse_expr]. unfold parseAssignment. rewrite El. cbn [res_bind tpeek tl]. by rewrite Ha, Ht, Er.
  - intros k t l r tsl tsr Ht _ Hl _ Hr. by apply parsed_binary.
  - intros t l r tsl tsr Ht _ Hl _ Hr n rest Hn Hs [|f] Hf; [lia|].
    rewrite length_app in *. cbn [length] in *. rewrite <- app_assoc. cbn [app parsePower].
    pose proof (parsed_closed 7 tsl l n (t :: tsr ++ rest) ltac:(lia) Hl ltac:(lia) ltac:(cbn [tpeek]; by rewrite Ht)) as El.
    cbn [level_parser] in El. rewrite El. cbn [res_bind tpeek tl]. rewrite Ht. cbn [is_type token_code Z.eqb Pos.eqb].
    rewrite (Hr n rest) by (done || lia). done.
  - intros t ts e Ht _ H n rest Hn Hs. cbn [length] in Hn. specialize (H n rest ltac:(lia) Hs).
    cbn [level_parser app parseUnary] in *. by rewrite Ht, H.
  - intros t Ht. apply parsed_primary. intros n rest Hn Hs. cbn [app parsePrimary]. by rewrite Ht.
  - intros t Ht. apply parsed_primary. intros n rest Hn Hs. cbn [app parsePrimary]. by rewrite Ht.
  - intros t Ht. apply parsed_primary. intros n rest Hn Hs. cbn [app parsePrimary]. rewrite Ht. by apply name_stop.
  - intros t u Ht Hu. apply parsed_primary. intros n rest Hn Hs. cbn [app parsePrimary]. rewrite Ht.
    unfold parse_name. destruct (incdec_not _ Hu). rewrite !accept_miss by done. unfold postfix. cbn [tpeek tl]. by rewrite Hu.
  - intros t Ht. apply parsed_primary. intros n rest Hn Hs. cbn [app parsePrimary]. rewrite Ht. apply postfix_stop.
    by apply stops_8 in Hs as (_ & _ & ?).
  - intros t u Ht Hu. apply parsed_primary. intros n rest Hn Hs. cbn [app parsePrimary]. rewrite Ht.
    unfold postfix. cbn [tpeek tl]. by rewrite Hu.
  - intros t lp rp ts es Ht H1 H2 _ Ha. apply parsed_primary. intros n rest Hn Hs. cbn [length] in Hn. rewrite length_app in Hn.
    cbn [length] in Hn. cbn [app parsePrimary]. rewrite Ht. unfold parse_name. rewrite accept_hit by done.
    rewrite <- app_assoc. cbn [app]. rewrite Ha by (rewrite ?length_app; done || lia). cbn [res_bind]. by rewrite expect_hit.
  - intros t lb rb Ht H1 H2. apply parsed_primary. intros n rest Hn Hs. cbn [app parsePrimary]. rewrite Ht. unfold parse_name.
    rewrite accept_miss by (cbn [tpeek]; by rewrite H1). by rewrite !accept_hit.
  - intros t lb rb ts e Ht H1 H2 Hp H. apply parsed_primary. intros n rest Hn Hs. cbn [length] in Hn. rewrite length_app in Hn.
    cbn [length] in Hn. cbn [app parsePrimary]. rewrite Ht. unfold parse_name.
    rewrite accept_miss by (cbn [tpeek]; by rewrite H1). rewrite accept_hit by done. rewrite <- app_assoc. cbn [app].
    destruct (phrase_start _ _ _ Hp) as (x & y & -> & Hx & _). destruct (starts_not _ Hx) as (_ & _ & Hx').
    rewrite accept_miss by done. rewrite (parsed_inner _ e) by (done || lia || by rewrite H2). cbn [res_bind]. by rewrite expect_hit.
  - intros lp rp ts e H1 H2 _ H. apply parsed_primary. intros n rest Hn Hs. cbn [length] in Hn. rewrite length_app in Hn.
    cbn [length] in Hn. cbn [app parsePrimary]. rewrite H1. rewrite <- app_assoc. cbn [app].
    rewrite (parsed_inner _ e) by (done || lia || by rewrite H2). cbn [res_bind]. by rewrite expect_hit.
  - intros n f rp rest Hn Hf Hr. destruct f; cbn [call_args app tpeek]; by rewrite Hr.
  - intros ts e Hp H n f rp rest Hn Hf Hr. destruct (phrase_start _ _ _ Hp) as (x & y & -> & Hx & _).
    destruct (starts_not _ Hx) as (E1 & E2 & _).
    assert (forall ts', is_type (tpeek ((x :: y) ++ ts')) TokRparen || is_type (tpeek ((x :: y) ++ ts')) TokEOF = false) as E
      by (intros; cbn [app tpeek]; by rewrite E1, E2).
    destruct f as [|f]; cbn [call_args]; rewrite E, (parsed_inner _ e) by (done || by rewrite Hr); cbn [res_bind];
      rewrite accept_miss by (cbn [tpeek]; by rewrite Hr); done.
  - intros t ts e us es Ht Hp H _ Ha n f rp rest Hn Hf Hr. rewrite length_app in *. cbn [length] in *.
    rewrite <- app_assoc. cbn [app]. destruct f as [|f]; [lia|]. cbn [call_args].
    assert (is_type (tpeek (ts ++ t :: us ++ rp :: rest)) TokRparen || is_type (tpeek (ts ++ t :: us ++ rp :: rest)) TokEOF = false) as ->.
    { destruct (phrase_start _ _ _ Hp) as (x & y & -> & Hx & _). destruct (starts_not _ Hx) as (E1 & E2 & _).
      cbn [app tpeek]. by rewrite E1, E2. }
    rewrite (parsed_inner _ e) by (done || lia || by rewrite Ht). cbn [res_bind]. rewrite accept_hit by done.
    by rewrite Ha by (done || lia).
Qed.

Lemma parseExpr_phrase ts e rest : phrase 0 ts e -> stops 0 (tpeek rest) = true -> parseExpr (ts ++ rest) = Ok (e, rest).
Proof.
  intros H Hs. unfold parseExpr. apply (proj1 parsed_all 0%nat ts e H); [|done]. rewrite length_app. lia.
Qed.

(** ** What is parsed is a phrase *)

Definition sound (k : nat) (p : parser Expr) : Prop :=
  forall ts e rest, p ts = Ok (e, rest) -> exists pre, ts = pre ++ rest /\ phrase k pre e.

Lemma tpeek_is ts t : is_type (tpeek ts) t = true -> t <> TokEOF -> exists u, ts = u :: tl ts /\ Type_ u = t.
Proof. destruct (is_type_spec (tpeek ts) t) as [<-|]; [|done]. destruct ts as [|u ts]; [done|]. eauto. Qed.

Lemma accept_inv t ts r : accept t ts = Some r -> t <> TokEOF -> exists u, ts = u :: r /\ Type_ u = t.
Proof.
  unfold accept. destruct (is_type (tpeek ts) t) eqn:E; [|done]. intros [= <-] Hne. by apply tpeek_is.
Qed.

Lemma expect_inv t w ts r : expect t w ts = Ok r -> t <> TokEOF -> exists u, ts = u :: r /\ Type_ u = t.
Proof. unfold expect. destruct (accept t ts) eqn:E; [|done]. intros [= <-] Hne. by apply accept_inv. Qed.

Lemma tpeek_cons ts (P : TokenType -> bool) : P (tpeek ts) = true -> P TokEOF = false -> exists u, ts = u :: tl ts /\ tpeek ts = Type_ u.
Proof. destruct ts as [|u ts]; [simpl; congruence|]. eauto. Qed.

Lemma phrase_lower j k ts e : (j <= k <= 8)%nat -> phrase k ts e -> phrase j ts e.
Proof.
  intros [Hjk Hk]. induction Hjk as [|k Hjk IH]; [done|]. intros H. apply IH; [lia|]. apply PUp; [lia|done].
Qed.

Lemma postfix_sound e ts e' rest : postfix e ts = Ok (e', rest) ->
  (e' = e /\ rest = ts) \/ exists u, ts = u :: rest /\ is_incdec (Type_ u) = true /\ e' = UnaryExpr (Type_ u) e true.
Proof.
  unfold postfix. destruct (is_incdec (tpeek ts)) eqn:E; intros [= <- <-]; [right|by left].
  destruct (tpeek_cons ts is_incdec E eq_refl) as (u & Eu & Et). exists u. rewrite Et in *. done.
Qed.

Ltac bind_as H x E := apply res_bind_ok in H as (x & E & H).

Section Sound.
Variable rec : parser Expr.
Hypothesis rec_sound : sound 0 rec.

Lemma call_args_sound f : forall ts es rest, call_args rec f ts = Ok (es, rest) ->
  exists pre, ts = pre ++ rest /\ arguments pre es.
Proof.
  induction f as [|f IH]; intros ts es rest; cbn [call_args];
    (destruct (_ || _); [intros [= <- <-]; exists []; split; [done|apply ANone]|]);
    intros H; bind_as H a E; destruct a as [arg ts1]; apply rec_sound in E as (p1 & -> & Hp1);
    (destruct (accept TokComma ts1) as [ts2|] eqn:Ea; [|injection H as <- <-; exists p1; split; [done|by apply AOne]]); [done|].
  bind_as H a E. destruct a as [args ts3]. injection H as <- <-. apply IH in E as (p2 & -> & Hp2).
  apply accept_inv in Ea as (u & -> & Hu); [|done]. exists (p1 ++ u :: p2). rewrite <- app_assoc.
  split; [done|by apply AMore].
Qed.

Lemma parse_name_sound t ts e rest : Type_ t = TokIdent -> parse_name rec (Val t) ts = Ok (e, rest) ->
  exists pre, ts = pre ++ rest /\ phrase 8 (t :: pre) e.
Proof.
  intros Ht H. unfold parse_name in H. destruct (accept TokLparen ts) as [ts1|] eqn:E1.
  { apply accept_inv in E1 as (lp & -> & Hlp); [|done]. bind_as H a E. destruct a as [args ts2].
    apply call_args_sound in E as (pre & -> & Ha). bind_as H ts3 E. injection H as <- <-.
    apply expect_inv in E as (rp & -> & Hrp); [|done]. exists (lp :: pre ++ [rp]). cbn [app]. rewrite <- app_assoc.
    split; [done|by apply PCall]. }
  destruct (accept TokLbracket ts) as [ts1|] eqn:E2.
  { apply accept_inv in E2 as (lb & -> & Hlb); [|done]. destruct (accept TokRbracket ts1) as [ts2|] eqn:E3.
    - injection H as <- <-. apply accept_inv in E3 as (rb & -> & Hrb); [|done]. exists [lb; rb]. split; [done|by apply PArray].
    - bind_as H a E. destruct a as [idx ts2]. apply rec_sound in E as (pre & -> & Hp). bind_as H ts3 E.
      injection H as <- <-. apply expect_inv in E as (rb & -> & Hrb); [|done]. exists (lb :: pre ++ [rb]). cbn [app].
      rewrite <- app_assoc. split; [done|by apply PElement]. }
  apply postfix_sound in H as [[-> ->]|(u & -> & Hu & ->)].
  - exists []. split; [done|by apply PVar].
  - exists [u]. split; [done|by apply PVarPost].
Qed.

Lemma bc_parsePrimary_sound : sound 8 (parsePrimary rec).
Proof.
  intros [|t ts] e rest H; [done|]. cbn [parsePrimary] in H. destruct (Type_ t) eqn:Et; try done.
  - injection H as <- <-. exists [t]. split; [done|by apply PNumber].
  - injection H as <- <-. exists [t]. split; [done|by apply PString].
  - apply parse_name_sound in H as (pre & -> & Hp); [|done]. by exists (t :: pre).
  - bind_as H a E. destruct a as [x ts1]. apply rec_sound in E as (pre & -> & Hp). bind_as H ts2 E. injection H as <- <-.
    apply expect_inv in E as (rp & -> & Hrp); [|done]. exists (t :: pre ++ [rp]). cbn [app]. rewrite <- app_assoc.
    split; [done|by apply PParen].
  - apply postfix_sound in H as [[-> ->]|(u & -> & Hu & ->)].
    + exists [t]. split; [done|by apply PLast].
    + exists [t; u]. split; [done|by apply PLastPost].
Qed.

Lemma bc_parseUnary_sound : sound 7 (parseUnary rec).
Proof.
  intros ts. induction ts as [|t ts IH]; intros e rest H.
  { cbn [parseUnary] in H. by apply bc_parsePrimary_sound in H as (pre & E & Hp); exists pre; split; [|apply PUp; [lia|]]. }
  cbn [parseUnary] in H. destruct (is_unary (Type_ t)) eqn:Et.
  - bind_as H a E. destruct a as [x ts1]. injection H as <- <-. apply IH in E as (pre & -> & Hp).
    exists (t :: pre). split; [done|by apply PPrefix].
  - apply bc_parsePrimary_sound in H as (pre & E & Hp). exists pre. split; [done|apply PUp; [lia|done]].
Qed.

Lemma parsePower_sound f : sound 6 (parsePower rec f).
Proof.
  induction f as [|f IH]; intros ts e rest H; [done|]. cbn [parsePower] in H. bind_as H a E. destruct a as [x ts1].
  apply bc_parseUnary_sound in E as (p1 & -> & Hp1). destruct (is_type (tpeek ts1) TokPower) eqn:Et.
  - apply tpeek_is in Et as (u & Eu & Hu); [|done]. bind_as H a E. destruct a as [y ts2]. injection H as <- <-.
    apply IH in E as (p2 & E2 & Hp2). exists (p1 ++ u :: p2). rewrite Eu, E2, <- app_assoc. split; [done|by apply PPower].
  - injection H as <- <-. exists p1. split; [done|apply PUp; [lia|done]].
Qed.

Lemma chain_sound k operand f : sound (S k) operand -> forall ts pre0 e0 e rest, phrase k pre0 e0 ->
  chain (level_ops k) operand f e0 ts = Ok (e, rest) -> exists pre, ts = pre ++ rest /\ phrase k (pre0 ++ pre) e.
Proof.
  intros Ho. induction f as [|f IH]; intros ts pre0 e0 e rest Hp H; [done|]. cbn [chain] in H. cbv zeta in H.
  destruct (level_ops k (tpeek ts)) eqn:Et.
  - assert (level_ops k TokEOF = false) as Hk by (by destruct k as [|[|[|[|[|[|k]]]]]]).
    destruct (tpeek_cons ts _ Et Hk) as (u & Eu & Ht). rewrite Ht in *. bind_as H a E. destruct a as [r ts1].
    apply Ho in E as (p1 & E1 & Hp1). apply (IH _ (pre0 ++ u :: p1)) in H as (p2 & -> & Hp2); [|by apply PBinary].
    exists (u :: p1 ++ p2). rewrite Eu, E1. cbn [app]. rewrite <- !app_assoc in *. by cbn [app] in *.
  - injection H as <- <-. exists []. split; [done|]. by rewrite app_nil_r.
Qed.

Lemma left_assoc_sound k operand : (k < 8)%nat -> sound (S k) operand -> sound k (left_assoc (level_ops k) operand).
Proof.
  intros Hk Ho ts e rest H. unfold left_assoc in H. bind_as H a E. destruct a as [x ts1].
  apply Ho in E as (p1 & -> & Hp1). apply (chain_sound k operand _ Ho _ p1) in H as (p2 & -> & Hp2); [|by apply PUp].
  exists (p1 ++ p2). by rewrite <- app_assoc.
Qed.

Lemma bc_parseOr_sound : sound 1 (parseOr rec).
Proof.
  apply (left_assoc_sound 1); [lia|]. apply (left_assoc_sound 2); [lia|]. apply (left_assoc_sound 3); [lia|].
  apply (left_assoc_sound 4); [lia|]. apply (left_assoc_sound 5); [lia|]. intros ts. apply parsePower_sound.
Qed.

Lemma parseAssignment_sound : sound 0 (parseAssignment rec).
Proof.
  intros ts e rest H. unfold parseAssignment in H. bind_as H a E. destruct a as [x ts1].
  apply bc_parseOr_sound in E as (p1 & -> & Hp1). destruct (is_type (tpeek ts1) TokAssign) eqn:Et.
  - apply tpeek_is in Et as (u & Eu & Hu); [|done]. bind_as H a E. destruct a as [y ts2]. injection H as <- <-.
    apply rec_sound in E as (p2 & E2 & Hp2). exists (p1 ++ u :: p2). rewrite Eu, E2, <- app_assoc. split; [done|by apply PAssign].
  - destruct (compound (tpeek ts1)) as [op|] eqn:Ec.
    + destruct ts1 as [|u ts1]; [done|]. cbn [tpeek tl] in *. bind_as H a E. destruct a as [y ts2]. injection H as <- <-.
      apply rec_sound in E as (p2 & -> & Hp2). exists (p1 ++ u :: p2). rewrite <- app_assoc. split; [done|by apply PCompound].
    + injection H as <- <-. exists p1. split; [done|apply PUp; [lia|done]].
Qed.
End Sound.

Lemma parse_expr_sound n : sound 0 (parse_expr n).
Proof. induction n as [|n IH]; [intros ts e rest; done|]. intros ts e rest H. by apply (parseAssignment_sound _ IH). Qed.

Lemma phrase_nonempty k ts e : phrase k ts e -> (0 < length ts)%nat.
Proof. intros H. destruct (phrase_start _ _ _ H) as (t & r & -> & _). simpl. lia. Qed.

Lemma sound_shorter k p ts e rest : sound k p -> p ts = Ok (e, rest) -> (length rest < length ts)%nat.
Proof. intros Hp H. apply Hp in H as (pre & -> & H). apply phrase_nonempty in H. rewrite length_app. lia. Qed.

(** ** The parser answers *)

Definition answers {A} (n : nat) (p : parser A) : Prop := forall ts, (length ts < n)%nat -> p ts <> Err OutOfFuel.

Lemma bind_answers {A B} (r : result bc_syntax A) (f : A -> result bc_syntax B) :
  r <> Err OutOfFuel -> (forall a, r = Ok a -> f a <> Err OutOfFuel) -> res_bind r f <> Err OutOfFuel.
Proof. destruct r as [a|e]; cbn [res_bind]; [eauto|congruence]. Qed.

Lemma expect_answers t w ts : expect t w ts <> Err OutOfFuel.
Proof. unfold expect. by destruct (accept t ts). Qed.

Lemma accept_length t ts r : accept t ts = Some r -> t <> TokEOF -> length ts = S (length r).
Proof. intros H Hne. by apply accept_inv in H as (u & -> & _). Qed.

Lemma expect_length t w ts r : expect t w ts = Ok r -> t <> TokEOF -> length ts = S (length r).
Proof. intros H Hne. by apply expect_inv in H as (u & -> & _). Qed.

Lemma postfix_answers e ts : postfix e ts <> Err OutOfFuel.
Proof. unfold postfix. by destruct (is_incdec _). Qed.

Lemma tl_length (ts : list Token) (P : TokenType -> bool) : P (tpeek ts) = true -> P TokEOF = false -> length ts = S (length (tl ts)).
Proof. intros H1 H2. by destruct (tpeek_cons ts P H1 H2) as (u & -> & _). Qed.

Section Answers.
Variable rec : parser Expr.
Variable n : nat.
Hypothesis rec_sound : sound 0 rec.
Hypothesis rec_answers : answers n rec.

Lemma call_args_answers f : forall ts, (length ts < n)%nat -> (length ts <= f)%nat -> call_args rec f ts <> Err OutOfFuel.
Proof.
  induction f as [|f IH]; intros ts Hn Hf; cbn [call_args];
    (destruct (_ || _) eqn:Eo; [done|]); apply bind_answers; try (by apply rec_answers);
    intros [arg ts1] Ea; pose proof (sound_shorter _ _ _ _ _ rec_sound Ea); (destruct (accept _ ts1) as [ts2|] eqn:E2; [|done]);
    pose proof (accept_length _ _ _ E2 ltac:(done)); [lia|].
  apply bind_answers; [apply IH; lia|]. by intros [args ts3] _.
Qed.

Lemma parse_name_answers x ts : (length ts <= n)%nat -> parse_name rec x ts <> Err OutOfFuel.
Proof.
  intros Hn. unfold parse_name. destruct (accept TokLparen ts) as [ts1|] eqn:E1.
  { apply accept_length in E1; [|done]. apply bind_answers; [apply call_args_answers; lia|]. intros [args ts2] _.
    apply bind_answers; [apply expect_answers|done]. }
  destruct (accept TokLbracket ts) as [ts1|] eqn:E2; [|apply postfix_answers].
  apply accept_length in E2; [|done]. destruct (accept TokRbracket ts1) as [ts2|] eqn:E3; [done|].
  apply bind_answers; [apply rec_answers; lia|]. intros [idx ts2] _. apply bind_answers; [apply expect_answers|done].
Qed.

Lemma parsePrimary_answers ts : (length ts <= n)%nat -> parsePrimary rec ts <> Err OutOfFuel.
Proof.
  intros Hn. destruct ts as [|t ts]; [done|]. cbn [parsePrimary length] in *. destruct (Type_ t); try done.
  - apply parse_name_answers. lia.
  - apply bind_answers; [apply rec_answers; lia|]. intros [x ts1] _. apply bind_answers; [apply expect_answers|done].
  - apply postfix_answers.
Qed.

Lemma parseUnary_answers ts : (length ts <= n)%nat -> parseUnary rec ts <> Err OutOfFuel.
Proof.
  induction ts as [|t ts IH]; intros Hn; cbn [parseUnary]; [by apply parsePrimary_answers|].
  destruct (is_unary (Type_ t)); [|by apply parsePrimary_answers]. cbn [length] in Hn.
  apply bind_answers; [apply IH; lia|]. by intros [x ts1] _.
Qed.

Lemma parsePower_answers f : forall ts, (length ts <= n)%nat -> (length ts < f)%nat -> parsePower rec f ts <> Err OutOfFuel.
Proof.
  induction f as [|f IH]; intros ts Hn Hf; [lia|]. cbn [parsePower]. apply bind_answers; [by apply parseUnary_answers|].
  intros [x ts1] E. pose proof (sound_shorter _ _ _ _ _ (bc_parseUnary_sound rec rec_sound) E).
  destruct (is_type (tpeek ts1) TokPower) eqn:Et; [|done]. pose proof (tl_length ts1 (fun t => is_type t TokPower) Et eq_refl).
  apply bind_answers; [apply IH; lia|]. by intros [y ts2] _.
Qed.

Lemma left_assoc_answers k operand : level_ops k TokEOF = false -> sound (S k) operand ->
  (forall ts, (length ts <= n)%nat -> operand ts <> Err OutOfFuel) ->
  forall ts, (length ts <= n)%nat -> left_assoc (level_ops k) operand ts <> Err OutOfFuel.
Proof.
  intros Hk Hs Ho ts Hn. unfold left_assoc. apply bind_answers; [by apply Ho|]. intros [x ts1] E.
  pose proof (sound_shorter _ _ _ _ _ Hs E).
  assert (forall f e0 ts, (length ts <= n)%nat -> (length ts < f)%nat -> chain (level_ops k) operand f e0 ts <> Err OutOfFuel) as Hc.
  { clear - Hk Hs Ho. induction f as [|f IH]; intros e0 ts Hn Hf; [lia|]. cbn [chain]. cbv zeta.
    destruct (level_ops k (tpeek ts)) eqn:Et; [|done]. pose proof (tl_length ts _ Et Hk).
    apply bind_answers; [apply Ho; lia|]. intros [r ts1] E. pose proof (sound_shorter _ _ _ _ _ Hs E). apply IH; lia. }
  apply Hc; lia.
Qed.

Lemma parseOr_answers ts : (length ts <= n)%nat -> parseOr rec ts <> Err OutOfFuel.
Proof.
  revert ts. apply (left_assoc_answers 1); [done|..].
  { apply (left_assoc_sound 2); [lia|]. apply (left_assoc_sound 3); [lia|]. apply (left_assoc_sound 4); [lia|].
    apply (left_assoc_sound 5); [lia|]. intros ts. by apply parsePower_sound. }
  apply (left_assoc_answers 2); [done|..].
  { apply (left_assoc_sound 3); [lia|]. apply (left_assoc_sound 4); [lia|].
    apply (left_assoc_sound 5); [lia|]. intros ts. by apply parsePower_sound. }
  apply (left_assoc_answers 3); [done|..].
  { apply (left_assoc_sound 4); [lia|]. apply (left_assoc_sound 5); [lia|]. intros ts. by apply parsePower_sound. }
  apply (left_assoc_answers 4); [done|..].
  { apply (left_assoc_sound 5); [lia|]. intros ts. by apply parsePower_sound. }
  apply (left_assoc_answers 5); [done|..].
  { intros ts. by apply parsePower_sound. }
  intros ts Hn. apply parsePower_answers; lia.
Qed.

Lemma parseAssignment_answers ts : (length ts <= n)%nat -> parseAssignment rec ts <> Err OutOfFuel.
Proof.
  intros Hn. unfold parseAssignment. apply bind_answers; [by apply parseOr_answers|]. intros [x ts1] E.
  pose proof (sound_shorter _ _ _ _ _ (bc_parseOr_sound rec rec_sound) E). cbv zeta.
  destruct (is_type (tpeek ts1) TokAssign) eqn:Et.
  - pose proof (tl_length ts1 (fun t => is_type t TokAssign) Et eq_refl).
    apply bind_answers; [apply rec_answers; lia|]. by intros [y ts2] _.
  - destruct (compound (tpeek ts1)) as [op|] eqn:Ec; [|done]. destruct ts1 as [|u ts1]; [done|]. cbn [tl length] in *.
    apply bind_answers; [apply rec_answers; lia|]. by intros [y ts2] _.
Qed.
End Answers.

Lemma parse_expr_answers n : answers n (parse_expr n).
Proof.
  induction n as [|n IH]; intros ts Hn; [lia|]. cbn [parse_expr].
  apply (parseAssignment_answers _ n (parse_expr_sound n) IH). lia.
Qed.

Lemma parseExpr_answers ts : parseExpr ts <> Err OutOfFuel.
Proof. apply parse_expr_answers. lia. Qed.

Lemma parseExpr_sound : sound 0 parseExpr.
Proof. intros ts e rest. apply parse_expr_sound. Qed.

Lemma parseExpr_shorter ts e rest : parseExpr ts = Ok (e, rest) -> (length rest < length ts)%nat.
Proof. apply (sound_shorter 0), parseExpr_sound. Qed.

(** C27: The expression parser of bc answers on all tokens; it reads exactly the phrases of the grammar
    (each with its tree), whatever comes next that cannot go on the phrase. *)
Theorem bc_expression_grammar ts e rest : stops 0 (tpeek rest) = true ->
  (parseExpr (ts ++ rest) = Ok (e, rest) <-> phrase 0 ts e) /\ parseExpr ts <> Err OutOfFuel.
Proof.
  intros Hs. split; [|apply parseExpr_answers]. split; [|intros H; by apply parseExpr_phrase].
  intros H. apply parseExpr_sound in H as (pre & E & H). by apply app_inv_tail in E as ->.
Qed.

(** ** Programs are parsed *)

Lemma skip_newlines nls ts : newlines nls -> skipNewlines (nls ++ ts) = skipNewlines ts.
Proof. induction 1 as [|t nls Ht _ IH]; [done|]. cbn [app skipNewlines]. by rewrite Ht. Qed.

Lemma skip_none ts : is_type (tpeek ts) TokNewline = false -> skipNewlines ts = ts.
Proof. destruct ts as [|t ts]; [done|]. cbn [tpeek skipNewlines]. by intros ->. Qed.

Lemma skip_not_newline ts : is_type (tpeek (skipNewlines ts)) TokNewline = false.
Proof.
  induction ts as [|t ts IH]; [done|]. cbn [skipNewlines]. destruct (is_type (Type_ t) TokNewline) eqn:E; [done|exact E].
Qed.

Lemma skip_skip ts : skipNewlines (skipNewlines ts) = skipNewlines ts.
Proof. apply skip_none, skip_not_newline. Qed.

Lemma skip_shorter ts : (length (skipNewlines ts) <= length ts)%nat.
Proof. induction ts as [|t ts IH]; [done|]. cbn [skipNewlines]. destruct (is_type _ _); simpl; lia. Qed.

Definition sstarts (t : TokenType) : bool :=
  negb (is_type t TokNewline || is_type t TokRbrace || is_type t TokEOF || is_type t TokKeywordElse || is_type t TokKeywordAuto).

Lemma starts_sstarts t : starts t = true -> sstarts t = true.
Proof. by destruct t. Qed.

Lemma sentence_start o ts s : sentence o ts s -> exists t r, ts = t :: r /\ sstarts (Type_ t) = true.
Proof.
  intros H. inversion H; subst; try (eexists _, _; split; [reflexivity|];
    match goal with Hk : Type_ ?k = _ |- sstarts (Type_ ?k) = true => by rewrite Hk end).
  match goal with Hp : phrase 0 _ _ |- _ => destruct (phrase_start _ _ _ Hp) as (x & y & -> & Hx & _) end.
  eexists _, _. split; [reflexivity|]. by apply starts_sstarts.
Qed.

Lemma sstarts_not t : sstarts t = true -> is_type t TokNewline = false /\ is_type t TokRbrace = false /\
  is_type t TokEOF = false /\ is_type t TokKeywordElse = false /\ is_type t TokKeywordAuto = false.
Proof. destruct t; done. Qed.

(** A statement after newlines. *)
Lemma skip_to_sentence o nls ts s rest : newlines nls -> sentence o ts s -> skipNewlines (nls ++ ts ++ rest) = ts ++ rest.
Proof.
  intros Hn Hs. rewrite skip_newlines by done. destruct (sentence_start _ _ _ Hs) as (t & r & -> & Ht).
  apply sstarts_not in Ht as (Ht & _). by apply skip_none.
Qed.

(** What comes first in a block, after newlines, is a statement or what comes after the block. *)
Lemma block_start ts ss rest : block ts ss ->
  skipNewlines (ts ++ rest) = skipNewlines rest \/ sstarts (tpeek (skipNewlines (ts ++ rest))) = true.
Proof.
  intros H. destruct H as [nls Hn|o nls ts s us ss Hn Hs _].
  - left. by apply skip_newlines.
  - right. rewrite <- !app_assoc, (skip_to_sentence o nls ts s) by done.
    destruct (sentence_start _ _ _ Hs) as (t & r & -> & Ht). done.
Qed.

Lemma terminator_ok t : terminator t -> stops 0 (Type_ t) = true /\ is_type (Type_ t) TokComma = false /\
  is_type (Type_ t) TokLbracket = false.
Proof. by intros [-> | ->]. Qed.

(** The end of a statement that may be a semicolon: at most newlines are left. *)
Lemma optional_terminator t rest : terminator t -> skipNewlines (optional TokSemicolon (t :: rest)) = skipNewlines rest.
Proof. intros [Ht|Ht]; unfold optional, accept; cbn [tpeek tl]; rewrite Ht; cbn; by rewrite ?Ht. Qed.

Lemma optional_newline t rest : terminator t ->
  skipNewlines (optional TokNewline (optional TokSemicolon (t :: rest))) = skipNewlines rest.
Proof.
  intros Ht. rewrite <- (optional_terminator t rest Ht). set (ts := optional TokSemicolon (t :: rest)).
  unfold optional at 1, accept. destruct (is_type (tpeek ts) TokNewline) eqn:E; [|done].
  destruct ts as [|u ts']; [done|]. cbn [tpeek tl default skipNewlines] in *. by rewrite E.
Qed.

(** ** Lists *)

Lemma print_args_ok ts es : commas (phrase 0) false ts es -> forall f rest, (length ts <= f)%nat ->
  stops 0 (tpeek rest) = true -> is_type (tpeek rest) TokComma = false -> print_args f (ts ++ rest) = Ok (es, rest).
Proof.
  induction 1 as [ts e He|t ts e Hc|t ts e us es Ht He _ IH]; intros f rest Hf Hs Hc'; [|done|].
  - destruct f as [|f]; cbn [print_args]; rewrite (parseExpr_phrase ts e rest He Hs); cbn [res_bind]; by rewrite accept_miss.
  - rewrite length_app in Hf. cbn [length] in Hf. rewrite <- app_assoc. cbn [app]. destruct f as [|f]; [lia|]. cbn [print_args].
    rewrite (parseExpr_phrase ts e) by (done || cbn [tpeek]; by rewrite Ht). cbn [res_bind]. rewrite accept_hit by done.
    by rewrite IH by (done || lia).
Qed.

Lemma parse_declared_ok ts d w b rest : declared ts d -> is_type (tpeek rest) TokLbracket = false ->
  parse_declared w b (ts ++ rest) = Ok (d, rest).
Proof.
  intros [t Ht|t lb rb Ht Hl Hr] Hb; cbn [app parse_declared]; rewrite Ht; cbn [is_type token_code Z.eqb Pos.eqb].
  - by rewrite accept_miss.
  - rewrite accept_hit by done. by rewrite expect_hit.
Qed.

Lemma declared_start ts d : declared ts d -> exists t r, ts = t :: r /\ Type_ t = TokIdent.
Proof. intros []; eauto. Qed.

Lemma parse_autos_ok ts ds : commas declared false ts ds -> forall f rest, (length ts <= f)%nat ->
  is_type (tpeek rest) TokLbracket = false -> is_type (tpeek rest) TokComma = false -> parse_autos f (ts ++ rest) = Ok (ds, rest).
Proof.
  induction 1 as [ts e He|t ts e Hc|t ts e us es Ht He _ IH]; intros f rest Hf Hb Hc'; [|done|].
  - destruct f as [|f]; cbn [parse_autos]; rewrite (parse_declared_ok ts e) by done; cbn [res_bind]; by rewrite accept_miss.
  - rewrite length_app in Hf. cbn [length] in Hf. rewrite <- app_assoc. cbn [app]. destruct f as [|f]; [lia|]. cbn [parse_autos].
    rewrite (parse_declared_ok ts e) by (done || cbn [tpeek]; by rewrite Ht). cbn [res_bind]. rewrite accept_hit by done.
    by rewrite IH by (done || lia).
Qed.

(** A parameter at the head of the list. *)
Lemma parse_param_ok ts p rest : parameter ts p -> is_type (tpeek rest) TokLbracket = false ->
  is_type (tpeek (ts ++ rest)) TokRparen = false /\ is_type (tpeek (ts ++ rest)) TokEOF = false /\
  is_type (tpeek (ts ++ rest)) TokMul = snd p /\ (snd p = true -> snd (fst p) = true) /\
  parse_declared "param name" "] in param array" (optional TokMul (ts ++ rest)) = Ok (fst p, rest).
Proof.
  intros Hp Hb. destruct Hp as [ts d Hd|t ts x Ht Hd].
  - destruct (declared_start _ _ Hd) as (u & r & Eu & Hu). unfold optional, accept.
    assert (tpeek (ts ++ rest) = TokIdent) as -> by (by rewrite Eu). cbn. repeat split; [done|]. by apply parse_declared_ok.
  - unfold optional, accept. cbn [app tpeek tl]. rewrite Ht. cbn. repeat split. by apply parse_declared_ok.
Qed.

Lemma parse_params_ok vs qs : parameters vs qs -> forall f rp rest, (length vs <= f)%nat -> Type_ rp = TokRparen ->
  parse_params f (vs ++ rp :: rest) = Ok (qs, rp :: rest).
Proof.
  intros [|vs' qs' H] f rp rest Hf Hr; [destruct f; cbn [parse_params app tpeek]; by rewrite Hr|].
  revert f Hf. induction H as [ts p Hp|t ts p _ Ht Hp|t ts p us ps Ht Hp _ IH]; intros f Hf.
  - destruct (parse_param_ok ts p (rp :: rest) Hp ltac:(cbn [tpeek]; by rewrite Hr)) as (E1 & E2 & E3 & E4 & E5).
    destruct f as [|f]; cbn [parse_params]; rewrite E1, E2, E3; cbn [orb]; cbv zeta; rewrite E5; cbn [res_bind];
      (replace (snd p && negb (snd (fst p))) with false by (destruct (snd p); [by rewrite E4|done]));
      rewrite accept_miss by (cbn [tpeek]; by rewrite Hr); by destruct p.
  - rewrite length_app in Hf. cbn [length] in Hf. rewrite <- app_assoc. cbn [app].
    destruct (parse_param_ok ts p (t :: rp :: rest) Hp ltac:(cbn [tpeek]; by rewrite Ht)) as (E1 & E2 & E3 & E4 & E5).
    destruct f as [|f]; [lia|]. cbn [parse_params]; rewrite E1, E2, E3; cbn [orb]; cbv zeta; rewrite E5; cbn [res_bind].
    replace (snd p && negb (snd (fst p))) with false by (destruct (snd p); [by rewrite E4|done]).
    rewrite accept_hit by done. destruct f as [|f]; cbn [parse_params tpeek]; rewrite Hr; by destruct p.
  - rewrite length_app in Hf. cbn [length] in Hf. rewrite <- app_assoc. cbn [app].
    destruct (parse_param_ok ts p (t :: us ++ rp :: rest) Hp ltac:(cbn [tpeek]; by rewrite Ht)) as (E1 & E2 & E3 & E4 & E5).
    destruct f as [|f]; [lia|]. cbn [parse_params]; rewrite E1, E2, E3; cbn [orb]; cbv zeta; rewrite E5; cbn [res_bind].
    replace (snd p && negb (snd (fst p))) with false by (destruct (snd p); [by rewrite E4|done]).
    rewrite accept_hit by done. rewrite IH by lia. by destruct p.
Qed.

Lemma parse_opt_ok stops_ ts e rest : opt_phrase ts e -> existsb (is_type (tpeek rest)) stops_ = true ->
  stops 0 (tpeek rest) = true -> (forall t, starts t = true -> existsb (is_type t) stops_ = false) ->
  parse_opt_expr stops_ (ts ++ rest) = Ok (e, rest).
Proof.
  intros [|us x Hp] He Hs Hno; unfold parse_opt_expr; [cbn [app]; by rewrite He|].
  pose proof (parseExpr_phrase us x rest Hp Hs) as E. destruct (phrase_start _ _ _ Hp) as (t & r & -> & Ht & _).
  cbn [app tpeek] in *. rewrite Hno by done. by rewrite E.
Qed.

(** ** Statements *)

(** What the parser does on a sentence: at most newlines are read of the tokens after it. *)
Definition reads (o : bool) (ts : list Token) (s : option Stmt) : Prop :=
  forall n rest, (length ts <= n)%nat ->
    (o = true -> is_type (tpeek (skipNewlines rest)) TokKeywordElse = false) ->
    exists rest', parse_stmt (S n) (ts ++ rest) = Ok (s, rest') /\ skipNewlines rest' = skipNewlines rest.

Definition reads_block (ts : list Token) (ss : list Stmt) : Prop :=
  (forall n f rb rest, (length ts < n)%nat -> (length (skipNewlines ts) <= f)%nat -> Type_ rb = TokRbrace ->
    parse_stmts (parse_stmt n) f (ts ++ rb :: rest) = Ok (ss, rb :: rest)) /\
  (forall f, (length ts <= f)%nat -> parse_program f ts = Ok ss).

Lemma parse_stmt_some n ts s r : is_type (tpeek ts) TokSemicolon = false -> parse_stmt_at (parse_stmt n) ts = Ok (s, r) ->
  parse_stmt (S n) ts = Ok (Some s, r).
Proof. intros H E. cbn [parse_stmt]. rewrite accept_miss by done. by rewrite E. Qed.

(** Newlines before the statements of a block make no difference. *)
Lemma parse_stmts_skipped p f x : is_type (tpeek (skipNewlines x)) TokEOF = false ->
  parse_stmts p f x = parse_stmts p f (skipNewlines x).
Proof.
  intros H. destruct (is_type (tpeek x) TokNewline) eqn:En; [|by rewrite skip_none].
  assert (is_type (tpeek x) TokRbrace || is_type (tpeek x) TokEOF = false) as Ex by (by destruct (tpeek x)).
  destruct f as [|f]; cbn [parse_stmts]; rewrite Ex, H, skip_skip; cbv zeta; by destruct (is_type (tpeek (skipNewlines x)) TokRbrace).
Qed.

Lemma parse_stmts_skip p f a b : skipNewlines a = skipNewlines b -> is_type (tpeek (skipNewlines a)) TokEOF = false ->
  parse_stmts p f a = parse_stmts p f b.
Proof.
  intros E H. rewrite (parse_stmts_skipped p f a H), E, <- (parse_stmts_skipped p f b); [done|by rewrite <- E].
Qed.

Lemma parse_program_skip f a b : skipNewlines a = skipNewlines b -> parse_program f a = parse_program f b.
Proof. intros E. destruct f; cbn [parse_program]; cbv zeta; by rewrite E. Qed.

(** An expression between parentheses, as conditions have it. *)
Lemma condition_ok tc c rp rest : phrase 0 tc c -> Type_ rp = TokRparen ->
  parseExpr (tc ++ rp :: rest) = Ok (c, rp :: rest).
Proof. intros Hc Hr. apply parseExpr_phrase; [done|]. cbn [tpeek]. by rewrite Hr. Qed.

(** The body of a statement after newlines. *)
Lemma body_ok o nls ts s n rest : newlines nls -> sentence o ts s -> reads o ts s -> (length ts < n)%nat ->
  (o = true -> is_type (tpeek (skipNewlines rest)) TokKeywordElse = false) ->
  exists rest', parse_stmt n (skipNewlines (nls ++ ts ++ rest)) = Ok (s, rest') /\ skipNewlines rest' = skipNewlines rest.
Proof.
  intros Hn Hs Hr Hl Ho. rewrite (skip_to_sentence o nls ts s) by done. destruct n as [|n]; [lia|]. apply Hr; [lia|done].
Qed.

Lemma expect_at t w u rest : Type_ u = t -> expect t w (u :: rest) = Ok rest.
Proof. apply expect_hit. Qed.

Lemma block_ok p brace ts ss rb rest n : (length ts < n)%nat -> reads_block ts ss -> Type_ rb = TokRbrace -> p = parse_stmt n ->
  parse_block p brace (ts ++ rb :: rest) = Ok (BlockStmt ss, rest).
Proof.
  intros Hl [H _] Hr ->. unfold parse_block. pose proof (skip_shorter ts). rewrite H by (done || rewrite length_app; lia). cbn [res_bind]. by rewrite expect_hit.
Qed.

(** The statements that are a keyword with a terminator. *)
Lemma keyword_reads kw t s : terminator t -> is_type (Type_ kw) TokSemicolon = false ->
  (forall p r, parse_stmt_at p (kw :: r) = Ok (s, optional TokSemicolon r)) -> reads false [kw; t] (Some s).
Proof.
  intros Ht Hk H n rest _ _. exists (optional TokSemicolon (t :: rest)). split; [|by apply optional_terminator].
  apply parse_stmt_some; [done|]. apply H.
Qed.

Lemma expr_reads ts e t : phrase 0 ts e -> terminator t -> reads false (ts ++ [t]) (Some (ExprStmt e)).
Proof.
  intros Hp Ht n rest _ _. exists (optional TokNewline (optional TokSemicolon (t :: rest))). split; [|by apply optional_newline].
  rewrite <- app_assoc. cbn [app]. destruct (terminator_ok t Ht) as (Hs & _ & _).
  pose proof (parseExpr_phrase ts e (t :: rest) Hp Hs) as E.
  destruct (phrase_start _ _ _ Hp) as (x & y & -> & Hx & _). cbn [app] in *. apply parse_stmt_some; [by destruct (Type_ x) eqn:Ex; cbn [tpeek]; rewrite Ex|].
  unfold parse_stmt_at. cbn [tpeek tl]. rewrite E. by destruct (Type_ x).
Qed.

Lemma return_reads kw ts e t : Type_ kw = TokKeywordReturn -> opt_phrase ts e -> terminator t ->
  reads false (kw :: ts ++ [t]) (Some (ReturnStmt e)).
Proof.
  intros Hk Hp Ht n rest _ _. exists (optional TokSemicolon (t :: rest)). split; [|by apply optional_terminator].
  cbn [app]. rewrite <- app_assoc. cbn [app]. apply parse_stmt_some; [cbn [tpeek]; by rewrite Hk|].
  unfold parse_stmt_at. cbn [tpeek tl]. rewrite Hk. destruct (terminator_ok t Ht) as (Hs & _ & _).
  rewrite (parse_opt_ok _ ts e (t :: rest)); [done|done| |done|by intros []].
  cbn [tpeek existsb]. destruct Ht as [-> | ->]; done.
Qed.

Lemma print_reads kw ts es t : Type_ kw = TokKeywordPrint -> commas (phrase 0) false ts es -> terminator t ->
  reads false (kw :: ts ++ [t]) (Some (PrintStmt es)).
Proof.
  intros Hk Hp Ht n rest _ _. exists (optional TokSemicolon (t :: rest)). split; [|by apply optional_terminator].
  cbn [app]. rewrite <- app_assoc. cbn [app]. apply parse_stmt_some; [cbn [tpeek]; by rewrite Hk|].
  unfold parse_stmt_at. cbn [tpeek tl]. rewrite Hk. destruct (terminator_ok t Ht) as (Hs & Hc & _).
  rewrite (print_args_ok ts es Hp) by (done || rewrite length_app; lia). done.
Qed.

Lemma block_reads lb rb ts ss : Type_ lb = TokLbrace -> Type_ rb = TokRbrace -> reads_block ts ss ->
  reads false (lb :: ts ++ [rb]) (Some (BlockStmt ss)).
Proof.
  intros Hl Hr Hb n rest Hn _. exists rest. split; [|done]. cbn [length] in Hn. rewrite length_app in Hn. cbn [length] in Hn.
  cbn [app]. rewrite <- app_assoc. cbn [app]. apply parse_stmt_some; [cbn [tpeek]; by rewrite Hl|].
  unfold parse_stmt_at. cbn [tpeek tl]. rewrite Hl. apply (block_ok _ _ _ _ _ _ n); [lia|done..].
Qed.

(** A keyword, an opening parenthesis, and tokens that have them at their head. *)
Ltac keyword_step Hk :=
  repeat first [rewrite <- app_assoc | progress cbn [app]]; apply parse_stmt_some; [cbn [tpeek]; by rewrite Hk|];
  unfold parse_stmt_at; cbn [tpeek tl]; rewrite Hk.

Lemma if_reads o kw lp rp tc c nls ts s : Type_ kw = TokKeywordIf -> Type_ lp = TokLparen -> Type_ rp = TokRparen ->
  phrase 0 tc c -> newlines nls -> sentence o ts s -> reads o ts s ->
  reads true (kw :: lp :: tc ++ rp :: nls ++ ts) (Some (IfStmt c s None)).
Proof.
  intros Hk Hl Hr Hc Hn Hs IH n rest Hlen Ho. specialize (Ho eq_refl). exists (skipNewlines rest). split; [|apply skip_skip].
  cbn [length] in Hlen. rewrite !length_app in Hlen. cbn [length] in Hlen. rewrite length_app in Hlen.
  keyword_step Hk. unfold parse_if. rewrite expect_hit by done. cbn [res_bind]. rewrite (condition_ok tc c) by done.
  cbn [res_bind]. rewrite expect_hit by done. cbn [res_bind].
  destruct (body_ok o nls ts s n rest Hn Hs IH ltac:(lia) ltac:(done)) as (r & -> & Er). cbn [res_bind].
  rewrite Er, accept_miss; done.
Qed.

Lemma if_else_reads o kw lp rp tc c nls ts s nls2 el nls3 us s' : Type_ kw = TokKeywordIf -> Type_ lp = TokLparen ->
  Type_ rp = TokRparen -> phrase 0 tc c -> newlines nls -> sentence false ts s -> reads false ts s -> newlines nls2 ->
  Type_ el = TokKeywordElse -> newlines nls3 -> sentence o us s' -> reads o us s' ->
  reads o (kw :: lp :: tc ++ rp :: nls ++ ts ++ nls2 ++ el :: nls3 ++ us) (Some (IfStmt c s s')).
Proof.
  intros Hk Hl Hr Hc Hn Hs IH Hn2 He Hn3 Hs' IH' n rest Hlen Ho.
  cbn [length] in Hlen. rewrite !length_app in Hlen. cbn [length] in Hlen. rewrite !length_app in Hlen. cbn [length] in Hlen.
  rewrite !length_app in Hlen.
  destruct (body_ok o nls3 us s' n rest Hn3 Hs' IH' ltac:(lia) Ho) as (r' & E' & Er').
  exists r'. split; [|done]. keyword_step Hk. unfold parse_if. rewrite expect_hit by done. cbn [res_bind].
  rewrite (condition_ok tc c) by done. cbn [res_bind]. rewrite expect_hit by done. cbn [res_bind].
  destruct (body_ok false nls ts s n (nls2 ++ el :: nls3 ++ us ++ rest) Hn Hs IH ltac:(lia) ltac:(done)) as (r & E & Er).
  rewrite E. cbn [res_bind].
  rewrite Er, (skip_newlines nls2) by done. rewrite skip_none by (cbn [tpeek]; by rewrite He).
  rewrite accept_hit by done. by rewrite E'.
Qed.

Lemma while_reads o kw lp rp tc c nls ts s : Type_ kw = TokKeywordWhile -> Type_ lp = TokLparen -> Type_ rp = TokRparen ->
  phrase 0 tc c -> newlines nls -> sentence o ts s -> reads o ts s ->
  reads o (kw :: lp :: tc ++ rp :: nls ++ ts) (Some (WhileStmt c s)).
Proof.
  intros Hk Hl Hr Hc Hn Hs IH n rest Hlen Ho.
  cbn [length] in Hlen. rewrite !length_app in Hlen. cbn [length] in Hlen. rewrite length_app in Hlen.
  destruct (body_ok o nls ts s n rest Hn Hs IH ltac:(lia) Ho) as (r & E & Er). exists r. split; [|done].
  keyword_step Hk. unfold parse_while. rewrite expect_hit by done. cbn [res_bind]. rewrite (condition_ok tc c) by done.
  cbn [res_bind]. rewrite expect_hit by done. cbn [res_bind]. by rewrite E.
Qed.

Lemma for_reads o kw lp s1 s2 rp t1 e1 t2 e2 t3 e3 nls ts s : Type_ kw = TokKeywordFor -> Type_ lp = TokLparen ->
  Type_ s1 = TokSemicolon -> Type_ s2 = TokSemicolon -> Type_ rp = TokRparen ->
  opt_phrase t1 e1 -> opt_phrase t2 e2 -> opt_phrase t3 e3 -> newlines nls -> sentence o ts s -> reads o ts s ->
  reads o (kw :: lp :: t1 ++ s1 :: t2 ++ s2 :: t3 ++ rp :: nls ++ ts) (Some (ForStmt e1 e2 e3 s)).
Proof.
  intros Hk Hl H1 H2 Hr He1 He2 He3 Hn Hs IH n rest Hlen Ho.
  cbn [length] in Hlen. rewrite !length_app in Hlen. cbn [length] in Hlen. rewrite !length_app in Hlen.
  cbn [length] in Hlen. rewrite !length_app in Hlen. cbn [length] in Hlen. rewrite !length_app in Hlen.
  destruct (body_ok o nls ts s n rest Hn Hs IH ltac:(lia) Ho) as (r & E & Er). exists r. split; [|done].
  keyword_step Hk.
  unfold parse_for. rewrite expect_hit by done. cbn [res_bind].
  rewrite (parse_opt_ok _ t1 e1) by (try (intros []; done); try done; cbn [tpeek]; by rewrite H1). cbn [res_bind].
  rewrite expect_hit by done. cbn [res_bind].
  rewrite (parse_opt_ok _ t2 e2) by (try (intros []; done); try done; cbn [tpeek]; by rewrite H2). cbn [res_bind].
  rewrite expect_hit by done. cbn [res_bind].
  rewrite (parse_opt_ok _ t3 e3) by (try (intros []; done); try done; cbn [tpeek]; by rewrite Hr). cbn [res_bind].
  rewrite expect_hit by done. cbn [res_bind]. by rewrite E.
Qed.

(** The declaration of local variables, or none when a block comes next. *)
Lemma autos_ok ta autos ts ss rb rest : auto_part ta autos -> block ts ss -> Type_ rb = TokRbrace ->
  exists rest', match accept TokKeywordAuto (skipNewlines (ta ++ ts ++ rb :: rest)) with
    | Some ts => let? '(autos, ts) := parse_autos (length ts) ts in Ok (autos, skipNewlines (optional TokSemicolon ts))
    | None => Ok ([], skipNewlines (ta ++ ts ++ rb :: rest))
    end = Ok (autos, rest') /\ skipNewlines rest' = skipNewlines (ts ++ rb :: rest).
Proof.
  intros Ha Hb Hr. destruct Ha as [|kw us ds t Hk Hd Ht].
  - exists (skipNewlines (ts ++ rb :: rest)). split; [|apply skip_skip]. cbn [app]. rewrite accept_miss; [done|].
    destruct (block_start ts ss (rb :: rest) Hb) as [->|H]; [|by apply sstarts_not in H as (_ & _ & _ & _ & ?)].
    rewrite skip_none by (cbn [tpeek]; by rewrite Hr). cbn [tpeek]. by rewrite Hr.
  - exists (skipNewlines (optional TokSemicolon (t :: ts ++ rb :: rest))). split; [|rewrite skip_skip; by apply optional_terminator].
    cbn [app]. rewrite <- app_assoc. cbn [app]. rewrite skip_none by (cbn [tpeek]; by rewrite Hk). rewrite accept_hit by done.
    destruct (terminator_ok t Ht) as (_ & Hc & Hl). rewrite (parse_autos_ok us ds Hd) by (done || rewrite length_app; lia). done.
Qed.

Lemma skip_app_longer ts r : (length (skipNewlines ts) <= length (skipNewlines (ts ++ r)))%nat.
Proof.
  induction ts as [|t ts IH]; cbn [app skipNewlines]; [simpl; lia|]. destruct (is_type _ _); [done|]. cbn [length]. rewrite length_app. lia.
Qed.

Lemma block_ok_skipped ts ss rb rest a n : (length ts < n)%nat -> block ts ss -> reads_block ts ss -> Type_ rb = TokRbrace ->
  skipNewlines a = skipNewlines (ts ++ rb :: rest) ->
  parse_block (parse_stmt n) "} in define body" a = Ok (BlockStmt ss, rest).
Proof.
  intros Hl Hb [H _] Hr E. unfold parse_block.
  assert (is_type (tpeek (skipNewlines a)) TokEOF = false) as Hne.
  { rewrite E. destruct (block_start ts ss (rb :: rest) Hb) as [->|H']; [|by apply sstarts_not in H' as (_ & _ & ? & _)].
    rewrite skip_none by (cbn [tpeek]; by rewrite Hr). cbn [tpeek]. by rewrite Hr. }
  assert (length (skipNewlines ts) <= length a)%nat as Hla.
  { pose proof (skip_shorter a). rewrite E in *. pose proof (skip_app_longer ts (rb :: rest)). lia. }
  rewrite (parse_stmts_skip _ _ a (ts ++ rb :: rest)) by done. rewrite H by done. cbn [res_bind]. by rewrite expect_hit.
Qed.

Lemma void_ok void vs name lp r : void_part void vs -> Type_ name = TokIdent -> Type_ lp = TokLparen ->
  let ts := vs ++ name :: lp :: r in
  match ts with
  | t :: u :: _ => is_type (Type_ t) TokIdent && (Val t =s? "void") && is_type (Type_ u) TokIdent
  | _ => false
  end = void /\ (if void then tl ts else ts) = name :: lp :: r.
Proof.
  intros Hv Hn Hl ts. unfold ts. destruct void; cbn [void_part] in Hv.
  - destruct Hv as (v & -> & Ht & Ev). cbn [app]. by rewrite Ht, Ev, Hn.
  - subst vs. cbn [app]. rewrite Hl. by rewrite andb_false_r.
Qed.

Lemma define_reads kw void vs name lp tp ps rp nls lb nls2 ta autos ts ss rb : Type_ kw = TokKeywordDefine ->
  void_part void vs -> Type_ name = TokIdent -> Type_ lp = TokLparen -> parameters tp ps -> Type_ rp = TokRparen ->
  newlines nls -> Type_ lb = TokLbrace -> newlines nls2 -> auto_part ta autos -> block ts ss -> reads_block ts ss ->
  Type_ rb = TokRbrace ->
  reads false (kw :: vs ++ name :: lp :: tp ++ rp :: nls ++ lb :: nls2 ++ ta ++ ts ++ [rb])
    (Some (DefineStmt (func_decl (Val name) void ps autos ss))).
Proof.
  intros Hk Hv Hna Hl Hp Hr Hn Hlb Hn2 Ha Hb IH Hrb n rest Hlen _. exists rest. split; [|done].
  assert (length ts < n)%nat as Hts.
  { cbn [length] in Hlen. rewrite !length_app in Hlen. cbn [length] in Hlen. rewrite !length_app in Hlen.
    cbn [length] in Hlen. rewrite !length_app in Hlen. cbn [length] in Hlen. rewrite !length_app in Hlen. lia. }
  clear Hlen. keyword_step Hk. unfold parseDefine.
  destruct (void_ok void vs name lp (tp ++ rp :: nls ++ lb :: nls2 ++ ta ++ ts ++ rb :: rest) Hv Hna Hl) as [E1 E2].
  cbv zeta in E1, E2. cbv zeta. rewrite E1, E2. clear E1 E2. cbn [tpeek tl].
  rewrite Hna. cbn [is_type token_code Z.eqb Pos.eqb negb]. rewrite expect_hit by done. cbn [res_bind].
  rewrite (parse_params_ok tp ps Hp) by (done || rewrite length_app; lia). cbn [res_bind]. rewrite expect_hit by done. cbn [res_bind].
  rewrite (skip_newlines nls), skip_none by (done || cbn [tpeek]; by rewrite Hlb). rewrite expect_hit by done. cbn [res_bind].
  rewrite (skip_newlines nls2) by done.
  destruct (autos_ok ta autos ts ss rb rest Ha Hb Hrb) as (r & -> & Er). cbn [res_bind].
  by rewrite (block_ok_skipped ts ss rb rest r n).
Qed.

(** One statement of a block. *)
Lemma block_cons_reads o nls ts s us ss : newlines nls -> sentence o ts s -> reads o ts s -> block us ss -> reads_block us ss ->
  reads_block (nls ++ ts ++ us) (opt_cons s ss).
Proof.
  intros Hn Hs IH Hb [IHb IHp]. destruct (sentence_start _ _ _ Hs) as (t & r & Et & Ht).
  apply sstarts_not in Ht as (Ht1 & Ht2 & Ht3 & _). split.
  - intros n f rb rest Hlen Hf Hr. rewrite !length_app in Hlen. rewrite (skip_to_sentence o nls ts s us) in Hf by done.
    rewrite length_app in Hf. rewrite <- !app_assoc.
    assert (skipNewlines (nls ++ ts ++ us ++ rb :: rest) = ts ++ us ++ rb :: rest) as Esk by (by apply (skip_to_sentence o nls ts s)).
    rewrite parse_stmts_skipped by (rewrite Esk, Et; done). rewrite Esk.
    destruct (IH (n - 1)%nat (us ++ rb :: rest)) as (r' & E & Er); [lia| |].
    { intros _. destruct (block_start us ss (rb :: rest) Hb) as [->|H]; [|by apply sstarts_not in H as (_ & _ & _ & ? & _)].
      rewrite skip_none by (cbn [tpeek]; by rewrite Hr). cbn [tpeek]. by rewrite Hr. }
    replace (S (n - 1)) with n in E by lia.
    assert (is_type (tpeek (ts ++ us ++ rb :: rest)) TokRbrace || is_type (tpeek (ts ++ us ++ rb :: rest)) TokEOF = false) as E1
      by (rewrite Et; cbn [app tpeek]; by rewrite Ht2, Ht3).
    assert (skipNewlines (ts ++ us ++ rb :: rest) = ts ++ us ++ rb :: rest) as E2 by (apply skip_none; by rewrite Et).
    assert (is_type (tpeek (ts ++ us ++ rb :: rest)) TokRbrace = false) as E3 by (by apply orb_false_iff in E1 as [? _]).
    rewrite Et in Hf. cbn [length] in Hf. destruct f as [|f]; [lia|]. cbn [parse_stmts]. rewrite E1, E2, E3, E. cbn [res_bind].
    rewrite (parse_stmts_skip _ f r' (us ++ rb :: rest)); [| done|].
    + pose proof (skip_shorter us). rewrite IHb by (done || lia). by destruct s.
    + rewrite Er. destruct (block_start us ss (rb :: rest) Hb) as [->|H]; [|by apply sstarts_not in H as (_ & _ & ? & _)].
      rewrite skip_none by (cbn [tpeek]; by rewrite Hr). cbn [tpeek]. by rewrite Hr.
  - intros f Hf. rewrite !length_app, Et in Hf. cbn [length] in Hf. destruct f as [|f]; [lia|]. cbn [parse_program]. cbv zeta.
    rewrite (skip_to_sentence o nls ts s) by done. unfold parseStmt.
    destruct (IH (length (ts ++ us)) us) as (r' & E & Er); [rewrite length_app; lia| |].
    { intros _. pose proof (block_start us ss [] Hb) as H. rewrite app_nil_r in H.
      destruct H as [->|H]; [done|by apply sstarts_not in H as (_ & _ & _ & ? & _)]. }
    rewrite E, Et. cbn [app res_bind]. rewrite (parse_program_skip f r' us) by done. rewrite IHp by lia. by destruct s.
Qed.

Lemma programs_read : (forall o ts s, sentence o ts s -> reads o ts s) /\ (forall ts ss, block ts ss -> reads_block ts ss).
Proof.
  apply sentence_block_ind.
  - intros t Ht n rest _ _. exists rest. split; [|done]. cbn [app parse_stmt]. by rewrite accept_hit.
  - intros ts e t Hp Ht. by apply expr_reads.
  - intros kw ts e t Hk Hp Ht. by apply return_reads.
  - intros kw t Hk Ht. apply keyword_reads; [done|by rewrite Hk|]. intros p r. unfold parse_stmt_at. cbn [tpeek tl]. by rewrite Hk.
  - intros kw t Hk Ht. apply keyword_reads; [done|by rewrite Hk|]. intros p r. unfold parse_stmt_at. cbn [tpeek tl]. by rewrite Hk.
  - intros kw t Hk Ht. apply keyword_reads; [done|by rewrite Hk|]. intros p r. unfold parse_stmt_at. cbn [tpeek tl]. by rewrite Hk.
  - intros kw ts es t Hk Hp Ht. by apply print_reads.
  - intros lb rb ts ss Hl Hr _ H. by apply block_reads.
  - intros. by eapply if_reads.
  - intros. by eapply if_else_reads.
  - intros. by eapply while_reads.
  - intros. by eapply for_reads.
  - intros. by eapply define_reads.
  - intros nls Hn. split.
    + intros n f rb rest _ _ Hr. assert (skipNewlines (nls ++ rb :: rest) = rb :: rest) as E.
      { rewrite skip_newlines by done. apply skip_none. cbn [tpeek]. by rewrite Hr. }
      rewrite parse_stmts_skipped by (rewrite E; cbn [tpeek]; by rewrite Hr). rewrite E.
      destruct f; cbn [parse_stmts tpeek]; by rewrite Hr.
    + intros f _. rewrite <- (app_nil_r nls), (parse_program_skip f _ []) by (by apply skip_newlines). by destruct f.
  - intros. by eapply block_cons_reads.
Qed.

(** ** The parser answers on all tokens

    [behaves d m r]: the result is not out of fuel, and [d] of [m] tokens are read at least. *)

Definition behaves {A} (d m : nat) (r : result bc_syntax (A * list Token)) : Prop :=
  match r with Ok (_, rest) => (length rest + d <= m)%nat | Err OutOfFuel => False | Err _ => True end.

Lemma behaves_answers {A} d m (r : result bc_syntax (A * list Token)) : behaves d m r -> r <> Err OutOfFuel.
Proof. by intros H ->. Qed.

Lemma behaves_weaken {A} d m d' m' (r : result bc_syntax (A * list Token)) : (m + d' <= m' + d)%nat -> behaves d m r -> behaves d' m' r.
Proof. intros Hm. destruct r as [[a rest]|[]]; simpl; try done. lia. Qed.

Lemma behaves_bind {A B} d1 m1 d m (r : result bc_syntax (A * list Token)) (f : A * list Token -> result bc_syntax (B * list Token)) :
  behaves d1 m1 r -> (forall a rest, (length rest + d1 <= m1)%nat -> behaves d m (f (a, rest))) -> behaves d m (res_bind r f).
Proof. destruct r as [[a rest]|[]]; simpl; auto. Qed.

Lemma behaves_expect {B} d m t w ts (f : list Token -> result bc_syntax (B * list Token)) : t <> TokEOF ->
  (forall r, length ts = S (length r) -> behaves d m (f r)) -> behaves d m (res_bind (expect t w ts) f).
Proof.
  intros Ht H. destruct (expect t w ts) as [r|e] eqn:E; simpl; [|unfold expect in E; destruct (accept t ts); [done|by injection E as <-]].
  apply H. by apply (expect_length t w).
Qed.

Lemma behaves_ok {A} d m (a : A) rest : (length rest + d <= m)%nat -> behaves d m (Ok (a, rest)).
Proof. done. Qed.

Lemma behaves_accept {B} d m t ts (f : list Token -> result bc_syntax (B * list Token)) g : t <> TokEOF ->
  (forall r, length ts = S (length r) -> behaves d m (f r)) -> behaves d m g ->
  behaves d m (match accept t ts with Some r => f r | None => g end).
Proof. intros Ht Hf Hg. destruct (accept t ts) as [r|] eqn:E; [|done]. apply Hf. by apply (accept_length t). Qed.

Lemma optional_shorter t ts : (length (optional t ts) <= length ts)%nat.
Proof. unfold optional, accept. destruct (is_type _ _); [|done]. destruct ts; simpl; lia. Qed.

Lemma parseExpr_behaves ts : behaves 1 (length ts) (parseExpr ts).
Proof.
  destruct (parseExpr ts) as [[e r]|x] eqn:E; simpl.
  - apply parseExpr_shorter in E. lia.
  - destruct x; try done. by apply parseExpr_answers in E.
Qed.

Lemma parse_opt_behaves l ts : behaves 0 (length ts) (parse_opt_expr l ts).
Proof.
  unfold parse_opt_expr. destruct (existsb _ _); [simpl; lia|]. eapply behaves_bind; [apply parseExpr_behaves|]. intros e r Hr. simpl. lia.
Qed.

(** A step that reads an expression, an expected token, an optional one. *)
Ltac behave :=
  repeat first
    [ apply behaves_ok; lia
    | apply behaves_expect; [done|]; intros
    | apply behaves_accept; [done| |]; intros
    | eapply behaves_bind; [first [apply parseExpr_behaves | apply parse_opt_behaves]|]; intros ? ? ?
    | done ].

Lemma print_args_behaves f : forall ts, (length ts <= f)%nat -> behaves 1 (length ts) (print_args f ts).
Proof.
  induction f as [|f IH]; intros ts Hf; cbn [print_args]; behave; [lia|].
  eapply behaves_bind; [apply IH; lia|]. intros. apply behaves_ok. lia.
Qed.

Lemma declared_behaves w b ts : behaves 1 (length ts) (parse_declared w b ts).
Proof.
  destruct ts as [|t r]; [done|]. cbn [parse_declared length]. destruct (is_type _ _); [|done]. behave.
Qed.

Lemma parse_params_behaves f : forall ts, (length ts <= f)%nat -> behaves 0 (length ts) (parse_params f ts).
Proof.
  induction f as [|f IH]; intros ts Hf; cbn [parse_params]; (destruct (_ || _); [apply behaves_ok; lia|]); cbv zeta;
    pose proof (optional_shorter TokMul ts); (eapply behaves_bind; [apply declared_behaves|]); intros p r Hr;
    (destruct (_ && _); [done|]); behave; [lia|].
  eapply behaves_bind; [apply IH; lia|]. intros. apply behaves_ok. lia.
Qed.

Lemma parse_autos_behaves f : forall ts, (length ts <= f)%nat -> behaves 1 (length ts) (parse_autos f ts).
Proof.
  induction f as [|f IH]; intros ts Hf; cbn [parse_autos]; (eapply behaves_bind; [apply declared_behaves|]); intros p r Hr;
    behave; [lia|].
  eapply behaves_bind; [apply IH; lia|]. intros. apply behaves_ok. lia.
Qed.

Section Behaves.
Variable p : parser (option Stmt).
Variable n : nat.
Hypothesis Hp : forall ts, (length ts < n)%nat -> behaves 1 (length ts) (p ts).

Lemma parse_stmts_behaves f : forall ts, (length ts < n)%nat -> (length ts <= f)%nat -> behaves 0 (length ts) (parse_stmts p f ts).
Proof.
  induction f as [|f IH]; intros ts Hn Hf; cbn [parse_stmts]; (destruct (_ || _) eqn:Eo; [apply behaves_ok; lia|]); cbv zeta;
    pose proof (skip_shorter ts); (destruct (is_type (tpeek (skipNewlines ts)) TokRbrace); [apply behaves_ok; lia|]).
  - destruct ts; [done|simpl in Hf; lia].
  - eapply behaves_bind; [apply Hp; lia|]. intros st r Hr. eapply behaves_bind; [apply IH; lia|]. intros. apply behaves_ok. lia.
Qed.

Lemma parse_block_behaves b ts : (length ts < n)%nat -> behaves 1 (length ts) (parse_block p b ts).
Proof.
  intros Hn. unfold parse_block. eapply behaves_bind; [by apply parse_stmts_behaves|]. intros. behave.
Qed.

Lemma body_behaves ts : (length ts < n)%nat -> behaves 1 (length ts) (p (skipNewlines ts)).
Proof. intros Hn. pose proof (skip_shorter ts). eapply behaves_weaken; [|apply Hp; lia]. lia. Qed.

Lemma parse_if_behaves ts : (length ts <= n)%nat -> behaves 1 (length ts) (parse_if p ts).
Proof.
  intros Hn. unfold parse_if. behave. eapply behaves_bind; [apply body_behaves; lia|]. intros st r' Hr'. cbv zeta.
  pose proof (skip_shorter r'). behave. eapply behaves_bind; [apply body_behaves; lia|]. intros. behave.
Qed.

Lemma parse_while_behaves ts : (length ts <= n)%nat -> behaves 1 (length ts) (parse_while p ts).
Proof. intros Hn. unfold parse_while. behave. eapply behaves_bind; [apply body_behaves; lia|]. intros. behave. Qed.

Lemma parse_for_behaves ts : (length ts <= n)%nat -> behaves 1 (length ts) (parse_for p ts).
Proof. intros Hn. unfold parse_for. behave. eapply behaves_bind; [apply body_behaves; lia|]. intros. behave. Qed.

Lemma parseDefine_behaves ts : (length ts <= n)%nat -> behaves 1 (length ts) (parseDefine p ts).
Proof.
  intros Hn. unfold parseDefine. cbv zeta. set (void := match ts with _ :: _ :: _ => _ | _ => _ end).
  set (ts1 := if void then tl ts else ts).
  assert (length ts1 <= length ts)%nat as H1 by (unfold ts1; destruct void; [destruct ts; simpl; lia|done]). clearbody void ts1.
  destruct (is_type (tpeek ts1) TokIdent) eqn:Et; [|done]. cbn [negb].
  pose proof (tl_length ts1 (fun t => is_type t TokIdent) Et eq_refl). behave.
  eapply behaves_bind; [by apply parse_params_behaves|]. intros ps r2 H2. behave.
  pose proof (skip_shorter r0). behave. pose proof (skip_shorter r1).
  eapply (behaves_bind 0 (length (skipNewlines r1))).
  - behave. eapply behaves_bind; [by apply parse_autos_behaves|]. intros as_ a Ha.
    pose proof (skip_shorter (optional TokSemicolon a)). pose proof (optional_shorter TokSemicolon a). apply behaves_ok. lia.
  - intros as_ r3 Hr3. eapply behaves_bind; [apply parse_block_behaves; lia|]. intros. apply behaves_ok. lia.
Qed.

Lemma parse_stmt_at_behaves ts : ts <> [] -> (length ts <= n)%nat -> behaves 1 (length ts) (parse_stmt_at p ts).
Proof.
  intros Hne Hn. destruct ts as [|t r]; [done|]. unfold parse_stmt_at. cbn [tpeek tl].
  pose proof (optional_shorter TokSemicolon r). cbn [length] in *.
  assert (behaves 1 (S (length r)) (let? '(e, ts) := parseExpr (t :: r) in
    Ok (ExprStmt e, optional TokNewline (optional TokSemicolon ts)))) as Hd.
  { behave. pose proof (optional_shorter TokSemicolon rest).
    pose proof (optional_shorter TokNewline (optional TokSemicolon rest)). cbn [length] in *. apply behaves_ok. lia. }
  destruct (Type_ t); try exact Hd; clear Hd; try (apply behaves_ok; lia).
  - eapply behaves_weaken; [|apply parse_block_behaves; lia]. lia.
  - eapply behaves_weaken; [|apply parse_if_behaves; lia]. lia.
  - eapply behaves_weaken; [|apply parse_while_behaves; lia]. lia.
  - eapply behaves_weaken; [|apply parse_for_behaves; lia]. lia.
  - eapply behaves_weaken; [|apply parseDefine_behaves; lia]. lia.
  - behave. pose proof (optional_shorter TokSemicolon rest). apply behaves_ok. lia.
  - eapply behaves_bind; [by apply print_args_behaves|]. intros a rest Hr.
    pose proof (optional_shorter TokSemicolon rest). apply behaves_ok. lia.
Qed.
End Behaves.

Lemma parse_stmt_behaves n : forall ts, (length ts < n)%nat -> behaves 1 (length ts) (parse_stmt n ts).
Proof.
  induction n as [|n IH]; intros ts Hn; [lia|]. cbn [parse_stmt]. behave.
  destruct ts as [|t r]; [done|]. eapply behaves_bind; [apply (parse_stmt_at_behaves _ n IH); [done|lia]|].
  intros. apply behaves_ok. lia.
Qed.

Lemma parse_program_answers f : forall ts, (length ts <= f)%nat -> parse_program f ts <> Err OutOfFuel.
Proof.
  induction f as [|f IH]; intros ts Hf; pose proof (skip_shorter ts) as Hs; cbn [parse_program]; cbv zeta;
    (destruct (skipNewlines ts) as [|t r] eqn:E; [done|]); cbn [length] in Hs; [lia|].
  pose proof (parse_stmt_behaves (S (length (t :: r))) (t :: r) ltac:(lia)) as Hb. fold (parseStmt (t :: r)) in Hb.
  destruct (parseStmt (t :: r)) as [[st ts']|[]]; simpl in *; try done.
  assert (parse_program f ts' <> Err OutOfFuel) as Hf' by (apply IH; lia). by destruct (parse_program f ts').
Qed.

Lemma Parse_answers ts : Parse ts <> Err OutOfFuel.
Proof. by apply parse_program_answers. Qed.

(** ** The lexer answers *)

Lemma suffix_le {A} (l k : list A) : l `suffix_of` k -> (length l <= length k)%nat.
Proof. apply suffix_length. Qed.

Lemma tl_le {A} (l : list A) : (length (tl l) <= length l)%nat.
Proof. destruct l; simpl; lia. Qed.

Lemma skip_line_le rs : (length (skip_line rs) <= length rs)%nat.
Proof. apply suffix_le, span_suffix. Qed.

Lemma skip_comment_le rs : (length (skip_comment rs) <= length rs)%nat.
Proof.
  induction rs as [|c r IH]; [done|]. cbn [skip_comment length]. destruct (c =? 0); [lia|].
  destruct (_ && _); [pose proof (tl_le r); lia|lia].
Qed.

Lemma list_pair_ind {A} (P : list A -> Prop) : P [] -> (forall x, P [x]) ->
  (forall x y l, P l -> P (y :: l) -> P (x :: y :: l)) -> forall l, P l.
Proof.
  intros H0 H1 H2. assert (forall l, P l /\ forall x, P (x :: l)) as H; [|intros l; apply H].
  induction l as [|y l [Hl Hx]]; [auto|]. split; [apply Hx|]. intros x. apply H2; auto.
Qed.

Lemma lex_string_le rs : (length (snd (lex_string rs)) <= length rs)%nat.
Proof.
  induction rs as [|c|c d r IH IH'] using list_pair_ind; [done| |].
  - cbn [lex_string]. repeat case_match; simplify_eq/=; lia.
  - cbn [lex_string length] in *. destruct (c =? 0); [simpl; lia|]. destruct (c =? 34); [simpl; lia|].
    destruct (isc c "\").
    + destruct (d =? 0); [simpl; lia|]. destruct (lex_string r). simpl in *. lia.
    + revert IH'. repeat case_match; simplify_eq/=; lia.
Qed.

Lemma lex_number_le b rs : (length (snd (lex_number b rs)) <= length rs)%nat.
Proof.
  revert b. induction rs as [|p r IH]; intros b; [done|]. cbn [lex_number]. destruct (isc p ".").
  - destruct b; [done|]. pose proof (IH true). destruct (lex_number true r). simpl in *. lia.
  - destruct (_ || _); [|done]. pose proof (IH b). destruct (lex_number b r). simpl in *. lia.
Qed.

Lemma punctuation_le ch r t r' : punctuation ch r = Some (t, r') -> (length r' <= length r)%nat.
Proof.
  pose proof (tl_le r) as Ht. unfold punctuation. cbv zeta.
  repeat match goal with |- (if ?c then _ else _) = _ -> _ => destruct c end; intros H; try done; injection H as <- <-; lia || done.
Qed.

Lemma token_at_le ch r t r' : token_at ch r = (t, r') -> (length r' <= length r)%nat.
Proof.
  unfold token_at. destruct (ch =? 10); [by intros [= <- <-]|].
  destruct (punctuation ch r) as [[t0 r0]|] eqn:Ep; [intros [= <- <-]; by eapply punctuation_le|].
  destruct (ch =? 34).
  { pose proof (lex_string_le r). destruct (lex_string r). intros [= <- <-]. done. }
  destruct (isStartOfIdent ch) eqn:Ei.
  { cbn [span]. assert (isLetter ch || isDigit ch = true) as ->.
    { unfold isLetter, isStartOfIdent in *. destruct (_ && _); [done|]. cbn [orb] in *. rewrite Ei. by rewrite orb_true_r. }
    pose proof (span_suffix (fun c => isLetter c || isDigit c) r) as Hs. apply suffix_le in Hs.
    destruct (span _ r). intros [= <- <-]. done. }
  destruct (isDigit ch || isc ch "." || isUpper ch) eqn:En; [|by intros [= <- <-]].
  assert (length (snd (lex_number false (ch :: r))) <= length r)%nat as H.
  { cbn [lex_number]. destruct (isc ch ".") eqn:Ed.
    - pose proof (lex_number_le true r). destruct (lex_number true r). simpl in *. lia.
    - rewrite orb_false_r in En. rewrite En. pose proof (lex_number_le false r). destruct (lex_number false r). simpl in *. lia. }
  destruct (lex_number false (ch :: r)). intros [= <- <-]. done.
Qed.

Lemma NextToken_answers f : forall rs, (length rs < f)%nat ->
  exists t r, NextToken f rs = Some (t, r) /\ (Type_ t <> TokEOF -> (length r < length rs)%nat).
Proof.
  induction f as [|f IH]; intros rs Hf; [lia|]. destruct rs as [|ch r]; [by exists (tok TokEOF ""), []|]. cbn [NextToken].
  cbn [length] in Hf. destruct (ch =? 0); [by exists (tok TokEOF ""), (ch :: r)|].
  assert (forall r0, (length r0 <= length r)%nat -> exists t r1, NextToken f r0 = Some (t, r1) /\
    (Type_ t <> TokEOF -> (length r1 < length (ch :: r))%nat)) as Hr.
  { intros r0 H0. destruct (IH r0 ltac:(lia)) as (t & r1 & E & H). exists t, r1. split; [done|]. intros Ht.
    specialize (H Ht). simpl. lia. }
  destruct (isc ch " " || (ch =? 9) || (ch =? 13)); [by apply Hr|]. pose proof (tl_le r) as Ht.
  destruct (isc ch "#") eqn:Eh.
  { apply Hr. unfold skip_line. cbn [span]. apply Z.eqb_eq in Eh as ->. cbn.
    pose proof (span_suffix (fun c => negb (c =? 10) && negb (c =? 0)) r) as Hs. apply suffix_le in Hs.
    destruct (span _ r). exact Hs. }
  destruct (isc ch "/").
  - destruct (isc (rpeek r) "*"); [apply Hr; pose proof (skip_comment_le (tl r)); lia|].
    destruct (isc (rpeek r) "="); eexists _, _; (split; [reflexivity|]); intros _; simpl; lia.
  - destruct (token_at ch r) as [t r'] eqn:E. exists t, r'. split; [done|]. intros _. apply token_at_le in E. simpl. lia.
Qed.

Lemma lex_tokens_answers f : forall rs, (length rs < f)%nat -> exists ts, lex_tokens f rs = Some ts.
Proof.
  induction f as [|f IH]; intros rs Hf; [lia|]. cbn [lex_tokens].
  destruct (NextToken_answers (S (length rs)) rs ltac:(lia)) as (t & r & -> & H). cbn [mbind option_bind].
  destruct (Type_ t) eqn:Et; try (by exists []); (destruct (IH r) as [ts ->]; [specialize (H ltac:(done)); lia|]; by exists (t :: ts)).
Qed.

Lemma lex_answers input : exists ts, lex input = Some ts.
Proof. apply lex_tokens_answers. lia. Qed.


Definition plain_char (c : ascii) : bool := ascii_char c && negb (c =? "\")%char.

Lemma small_plain c : (code c <? 92) || ((93 <=? code c) && (code c <=? 122)) = true -> plain_char c = true.
Proof.
  intros H. unfold plain_char, ascii_char. destruct (Ascii.eqb_spec c "\"%char) as [->|]; [by vm_compute in H|]. cbn [negb]. lia.
Qed.

Lemma digit_or_upper_plain c : digit_or_upper c = true -> plain_char c = true.
Proof. intros H. apply small_plain. unfold digit_or_upper, isDigit, isUpper in H. lia. Qed.

Lemma word_char_plain c : word_char c = true -> plain_char c = true.
Proof.
  intros H. apply small_plain. unfold word_char, isLetter, isDigit, isUpper, isc in H. change (code "_") with 95 in H. lia.
Qed.

Lemma string_char_plain c : string_char c = true -> plain_char c = true.
Proof. unfold string_char, plain_char. intros H. apply andb_true_iff in H as [H ->]. by destruct (ascii_char c). Qed.

Lemma number_text_plain s : number_text s -> str_forall plain_char s = true.
Proof.
  intros [[H _]|(i & f & -> & Hi & Hf & _)]; [by apply (str_forall_impl digit_or_upper); [apply digit_or_upper_plain|]|].
  rewrite !str_forall_app, (str_forall_impl _ _ i digit_or_upper_plain Hi), (str_forall_impl _ _ f digit_or_upper_plain Hf). done.
Qed.

Lemma written_plain t s : written_as t s -> str_forall plain_char s = true.
Proof.
  intros [t0 s0 H|s0 H|s0 (H & _)|s0 H].
  - destruct t0; try done; by injection H as <-.
  - by apply number_text_plain.
  - revert H. apply str_forall_impl, word_char_plain.
  - cbn [str_forall]. rewrite str_forall_app. rewrite (str_forall_impl string_char plain_char s0); [done|apply string_char_plain|done].
Qed.

Lemma text_plain ts u : text_of_tokens ts u -> str_forall plain_char u = true.
Proof. induction 1 as [|t s ts u Ht _ IH]; [done|]. rewrite !str_forall_app, IH, (written_plain t s); done. Qed.

Lemma plain_ascii s : str_forall plain_char s = true -> str_forall ascii_char s = true.
Proof. apply str_forall_impl. intros c. unfold plain_char. by intros [? _]%andb_true_iff. Qed.

Lemma join_lines_cons c d t : join_lines (c :: d :: t) =
  if isc c "\" && (d =? 10) then join_lines t else c :: join_lines (d :: t).
Proof. reflexivity. Qed.

Lemma join_lines_plain s : str_forall plain_char s = true -> join_lines (codes s) = codes s.
Proof.
  induction s as [|c s IH]; [done|]. cbn [str_forall]. intros [Hc Hs]%andb_true_iff. specialize (IH Hs).
  change (codes (String c s)) with (code c :: codes s). destruct s as [|d s]; [done|].
  change (codes (String d s)) with (code d :: codes s) in *. rewrite join_lines_cons. unfold isc.
  assert (code c =? code "\" = false) as ->.
  { apply Z.eqb_neq. intros E. assert (c = "\"%char) as -> by (rewrite <- (chr_code c), E; done). done. }
  cbn [andb]. by rewrite IH.
Qed.

Lemma NewLexer_plain s : str_forall plain_char s = true -> NewLexer s = codes s.
Proof.
  intros H. unfold NewLexer. rewrite runes_ascii by (by apply plain_ascii). by apply join_lines_plain.
Qed.

Lemma codes_string s : str_forall plain_char s = true -> string_of_runes (codes s) = s.
Proof. intros H. unfold codes. rewrite <- runes_ascii by (by apply plain_ascii). apply ascii_runes_string. by apply plain_ascii. Qed.

Lemma span_codes (P : Z -> bool) s r : str_forall (fun c => P (code c)) s = true -> P (hd 0 r) = false \/ r = [] ->
  span P (codes s ++ r) = (codes s, r).
Proof.
  intros Hs Hr. induction s as [|c s IH]; cbn [codes].
  - destruct r as [|x r]; [done|]. destruct Hr as [Hr|]; [|done]. cbn [codes app] in *. simpl. simpl in Hr. by rewrite Hr.
  - cbn [str_forall] in Hs. apply andb_true_iff in Hs as [Hc Hs]. change (codes (String c s)) with (code c :: codes s).
    cbn [app span]. rewrite Hc, IH by done. done.
Qed.

Lemma lex_number_digits b s r : str_forall digit_or_upper s = true -> digit_or_upper (chr (hd 0 r)) = false -> 0 <= hd 0 r < 256 ->
  (hd 0 r =? 46) = false -> lex_number b (codes s ++ r) = (codes s, r).
Proof.
  intros Hs Hr Hb Hd. revert b. induction s as [|c s IH]; intros b.
  - destruct r as [|x r]; [done|]. simpl in Hd, Hr, Hb. cbn [codes]. simpl. unfold isc. change (code ".") with 46. rewrite Hd.
    unfold digit_or_upper in Hr. rewrite code_chr in Hr by done. by rewrite Hr.
  - cbn [str_forall] in Hs. apply andb_true_iff in Hs as [Hc Hs]. change (codes (String c s)) with (code c :: codes s).
    cbn [app lex_number]. unfold isc. change (code ".") with 46.
    unfold digit_or_upper in Hc. replace (code c =? 46) with false by (unfold isDigit, isUpper in Hc; lia).
    rewrite Hc, IH by done. done.
Qed.

(** A property of the codes in a range, by trying each. *)
Lemma each_code lo n (P : Z -> bool) : forallb (fun i => P (lo + Z.of_nat i)) (seq 0 n) = true ->
  forall z, lo <= z < lo + Z.of_nat n -> P z = true.
Proof.
  intros H z Hz. rewrite forallb_forall in H. specialize (H (Z.to_nat (z - lo))).
  replace (lo + Z.of_nat (Z.to_nat (z - lo))) with z in H by lia. apply H. apply in_seq. lia.
Qed.

(** A rune that starts a number or a word: the lexer comes to these cases. *)
Definition word_start (r : list Z) (ch : Z) : bool :=
  negb (ch =? 0) && negb (isc ch " " || (ch =? 9) || (ch =? 13)) && negb (isc ch "#") && negb (isc ch "/") &&
  negb (ch =? 10) && negb (ch =? 34) && match punctuation ch r with None => true | _ => false end.

Lemma word_start_ok r ch : isDigit ch || isUpper ch || isStartOfIdent ch = true -> word_start r ch = true.
Proof.
  intros H. assert (48 <= ch < 48 + Z.of_nat 10 \/ 65 <= ch < 65 + Z.of_nat 26 \/ 97 <= ch < 97 + Z.of_nat 26 \/ ch = 95) as Hc.
  { unfold isDigit, isUpper, isStartOfIdent, isc in H. change (code "_") with 95 in H. lia. }
  destruct Hc as [Hc|[Hc|[Hc| ->]]]; [revert ch Hc H; intros ch Hc _; revert ch Hc; apply each_code; vm_compute; reflexivity..|].
  vm_compute. reflexivity.
Qed.

Lemma NextToken_word f ch r : word_start r ch = true -> NextToken (S f) (ch :: r) = Some (token_at ch r).
Proof.
  unfold word_start. rewrite !andb_true_iff, !negb_true_iff. intros ((((((H0 & Hb) & Hh) & Hs) & _) & _) & _).
  cbn [NextToken]. by rewrite H0, Hb, Hh, Hs.
Qed.

Lemma token_at_word r ch : word_start r ch = true -> token_at ch r =
  if isStartOfIdent ch then let '(w, r) := span (fun c => isLetter c || isDigit c) (ch :: r) in (word_token w, r)
  else if isDigit ch || isc ch "." || isUpper ch then
    let '(s, r) := lex_number false (ch :: r) in
    let val := string_of_runes s in
    (if val =s? "." then tok TokError "." else tok TokNumber val, r)
  else (tok TokError (string_of_runes [ch]), r).
Proof.
  unfold word_start. rewrite !andb_true_iff, !negb_true_iff. intros ((((((_ & _) & _) & _) & H10) & H34) & Hp).
  unfold token_at. rewrite H10, H34. by destruct (punctuation ch r).
Qed.

Lemma lex_number_point i f r : str_forall digit_or_upper i = true -> str_forall digit_or_upper f = true ->
  lex_number false (codes (i +:+ "." +:+ f) ++ 32 :: r) = (codes (i +:+ "." +:+ f), 32 :: r).
Proof.
  intros Hi Hf. induction i as [|c i IH].
  - rewrite sapp_nil_l, sapp_cons, sapp_nil_l. change (codes (String "." f)) with (46 :: codes f). cbn [app lex_number].
    change (isc 46 ".") with true. cbv iota. rewrite lex_number_digits by done. done.
  - cbn [str_forall] in Hi. apply andb_true_iff in Hi as [Hc Hi]. rewrite sapp_cons.
    change (codes (String c (i +:+ "." +:+ f))) with (code c :: codes (i +:+ "." +:+ f)). cbn [app lex_number]. unfold isc.
    change (code ".") with 46. unfold digit_or_upper in Hc. replace (code c =? 46) with false by (unfold isDigit, isUpper in Hc; lia).
    rewrite Hc, IH by done. done.
Qed.

Lemma lex_number_text s r : number_text s -> lex_number false (codes s ++ 32 :: r) = (codes s, 32 :: r) /\ s <> ".".
Proof.
  intros [[Hs Hne]|(i & f & -> & Hi & Hf & Hne)].
  - split; [by apply lex_number_digits|]. by intros ->.
  - split; [by apply lex_number_point|]. destruct i as [|c i]; [|by destruct i].
    destruct Hne as [|(c & f' & -> & _)]; done.
Qed.

Lemma number_start s r : number_text s -> exists ch s', codes s ++ 32 :: r = ch :: s' /\ word_start s' ch = true /\
  isStartOfIdent ch = false /\ isDigit ch || isc ch "." || isUpper ch = true.
Proof.
  assert (forall ch, isDigit ch || isUpper ch = true -> isStartOfIdent ch = false) as Hn.
  { intros ch H. unfold isDigit, isUpper, isStartOfIdent, isc in *. change (code "_") with 95. lia. }
  assert (forall c u, digit_or_upper c = true -> word_start u (code c) = true /\
    isStartOfIdent (code c) = false /\ isDigit (code c) || isc (code c) "." || isUpper (code c) = true) as Hc.
  { intros c u H. unfold digit_or_upper in H. split; [apply word_start_ok; by rewrite H|]. split; [by apply Hn|].
    apply orb_true_iff in H as [-> | ->]; [done|apply orb_true_r]. }
  intros [[Hs Hne]|(i & f & -> & Hi & Hf & Hne)].
  - destruct s as [|c s]; [done|]. cbn [str_forall] in Hs. apply andb_true_iff in Hs as [H _].
    exists (code c), (codes s ++ 32 :: r). split; [done|]. by apply Hc.
  - destruct i as [|c i].
    + destruct Hne as [|(c & f' & -> & Hd)]; [done|]. exists 46, (codes (String c f') ++ 32 :: r). split; [done|].
      change (codes (String c f')) with (code c :: codes f'). unfold word_start.
      assert (punctuation 46 ((code c :: codes f') ++ 32 :: r) = if isDigit (code c) then None else Some (tok TokDot ".", _)) as -> by reflexivity.
      by rewrite Hd.
    + cbn [str_forall] in Hi. apply andb_true_iff in Hi as [H _]. exists (code c), (codes (i +:+ "." +:+ f) ++ 32 :: r).
      split; [done|]. by apply Hc.
Qed.

Lemma lex_string_text s r : str_forall string_char s = true -> lex_string (codes s ++ 34 :: r) = (Some (codes s), r).
Proof.
  induction s as [|c s IH]; [done|]. cbn [str_forall]. intros [Hc Hs]%andb_true_iff.
  change (codes (String c s)) with (code c :: codes s). cbn [app lex_string]. unfold string_char in Hc.
  rewrite !andb_true_iff, !negb_true_iff in Hc. destruct Hc as [[[_ H0] H34] Hb]. rewrite H0, H34.
  assert (isc (code c) "\" = false) as ->.
  { apply Z.eqb_neq. intros E. assert (c = "\"%char) as -> by (rewrite <- (chr_code c), E; done). done. }
  rewrite IH by done. done.
Qed.

Lemma next_written t s r f : written_as t s -> NextToken (S f) (codes s ++ 32 :: r) = Some (t, 32 :: r) /\ Type_ t <> TokEOF.
Proof.
  intros Hw. pose proof (written_plain _ _ Hw) as Hp. destruct Hw as [t s H|s H|s H|s H]; (split; [|try done]).
  - destruct t; try done; injection H as <-; reflexivity.
  - by destruct t.
  - destruct (number_start s r H) as (ch & u & E & Hst & Hi & Hd). destruct (lex_number_text s r H) as [El Hne].
    rewrite E in *. rewrite NextToken_word, token_at_word, Hi, Hd, El by done. cbv zeta. rewrite codes_string by done.
    by rewrite seqb_ne.
  - destruct H as (Hw & Hk & c & s' & -> & Hi). change (codes (String c s')) with (code c :: codes s'). cbn [app].
    assert (word_start (codes s' ++ 32 :: r) (code c) = true) as Hst by (apply word_start_ok; rewrite Hi; apply orb_true_r).
    rewrite NextToken_word, token_at_word, Hi by done.
    change (code c :: codes s' ++ 32 :: r) with (codes (String c s') ++ 32 :: r).
    rewrite (span_codes (fun c => isLetter c || isDigit c)) by (done || by left).
    unfold word_token. rewrite codes_string, Hk by done.
    change (codes (String c s')) with (code c :: codes s'). cbn [forallb]. by rewrite Hi.
  - change (codes (String (chr 34) (s +:+ String (chr 34) ""))) with (34 :: codes (s +:+ String (chr 34) "")).
    rewrite codes_app. change (codes (String (chr 34) "")) with [34]. cbn [app]. rewrite <- app_assoc. cbn [app].
    cbn [NextToken]. change (NextToken (S f) (34 :: codes s ++ 34 :: 32 :: r)) with (Some (token_at 34 (codes s ++ 34 :: 32 :: r))).
    unfold token_at. cbn. rewrite lex_string_text by done. rewrite codes_string; [done|].
    cbn [str_forall] in Hp. rewrite str_forall_app in Hp. by apply andb_true_iff in Hp as [_ [? _]%andb_true_iff].
Qed.

Lemma written_nonempty t s : written_as t s -> (0 < length (codes s))%nat.
Proof.
  intros [t0 s0 H|s0 [[_ H]|(i & f & -> & _)]|s0 (_ & _ & c & s' & -> & _)|s0 _]; cbn; try lia.
  - destruct t0; try done; injection H as <-; cbn; lia.
  - destruct s0; [done|cbn; lia].
  - rewrite !codes_app, !length_app. cbn. lia.
Qed.

Lemma lex_text ts u : text_of_tokens ts u -> forall f,
  ((length (codes u) < f)%nat -> lex_tokens f (codes u) = Some ts) /\
  ((length (codes u) + 1 < f)%nat -> lex_tokens f (32 :: codes u) = Some ts).
Proof.
  induction 1 as [|t s ts u Ht _ IH]; intros f; (destruct f as [|f]; [split; lia|]); [done|].
  pose proof (written_nonempty _ _ Ht) as Hne.
  rewrite codes_app, codes_app. change (codes " ") with [32]. cbn [app]. rewrite length_app. cbn [length].
  assert ((length (codes u) + 1 < f)%nat -> forall k, (t0 ← NextToken (S k) (codes s ++ 32 :: codes u);
    let '(t, r) := t0 in match Type_ t with TokEOF => Some [] | _ => ts ← lex_tokens f r; Some (t :: ts) end) = Some (t :: ts)) as Hk.
  { intros Hf k. destruct (next_written t s (codes u) k Ht) as [-> Hne']. cbn [mbind option_bind].
    rewrite (proj2 (IH f) Hf). by destruct (Type_ t). }
  split; intros Hf; cbn [lex_tokens]; [apply Hk; lia|]. cbn [length].
  change (NextToken (S (S ?k)) (32 :: ?x)) with (NextToken (S k) x). apply Hk. lia.
Qed.

(** Lexing and parsing always end. Written with blanks between the tokens, every program of the grammar
    (statements with their terminators, blocks, loops, dangling elses, function definitions) is read as its tree. *)
Theorem bc_reads_program ts ss u : block ts ss -> text_of_tokens ts u ->
  parse_text u = Ok ss /\ forall input, parse_text input <> Err OutOfFuel.
Proof.
  intros Hb Hu. split.
  - unfold parse_text, lex. rewrite NewLexer_plain by (by apply (text_plain ts)). rewrite (proj1 (lex_text ts u Hu _)) by lia.
    apply (proj2 programs_read ts ss Hb). done.
  - intros input. unfold parse_text. destruct (lex_answers input) as [x ->]. apply Parse_answers.
Qed.

Lemma bc_expression_grammar_witness :
  let ts := [tok TokIdent "a"; tok TokMinus "-"; tok TokIdent "b"; tok TokPower "^"; tok TokNumber "2"] in
  let e := BinaryExpr TokMinus (VarExpr "a") (BinaryExpr TokPower (VarExpr "b") (NumExpr "2")) in
  parseExpr (ts ++ [tok TokSemicolon ";"]) = Ok (e, [tok TokSemicolon ";"]) /\ phrase 0 ts e.
Proof.
  intros ts e. assert (parseExpr (ts ++ [tok TokSemicolon ";"]) = Ok (e, [tok TokSemicolon ";"])) as E by reflexivity.
  split; [exact E|]. apply (bc_expression_grammar ts e [tok TokSemicolon ";"]); [reflexivity|exact E].
Defined.

(** while (x < 3) { print x , a string ; } else-less, and an increment. *)
Lemma bc_reads_program_witness :
  let kw := tok TokKeywordWhile "while" in let lp := tok TokLparen "(" in let rp := tok TokRparen ")" in
  let x := tok TokIdent "x" in let semi := tok TokSemicolon ";" in
  let ts := kw :: lp :: ([x; tok TokLt "<"; tok TokNumber "3"] ++ rp :: [tok TokNewline (String "010" "")] ++
    ([x; tok TokPlusAssign "+="; tok TokNumber "1"] ++ [semi])) in
  let ss := [WhileStmt (BinaryExpr TokLt (VarExpr "x") (NumExpr "3"))
              (Some (ExprStmt (AssignExpr (VarExpr "x") (BinaryExpr TokPlus (VarExpr "x") (NumExpr "1")))))] in
  let u := "while ( x < 3 ) " +:+ String "010" " x += 1 ; " in
  parse_text u = Ok ss.
Proof.
  intros kw lp rp x semi ts ss u. apply (bc_reads_program ts ss u).
  - rewrite <- (app_nil_r ts). apply (BCons false [] ts (Some _) [] []); [apply Forall_nil_2| |apply BNil, Forall_nil_2].
    apply (SWhile false kw lp rp [x; tok TokLt "<"; tok TokNumber "3"] _ [tok TokNewline (String "010" "")]
      ([x; tok TokPlusAssign "+="; tok TokNumber "1"] ++ [semi])); [reflexivity..| |by repeat constructor|].
    + apply (phrase_lower 0 3); [lia|]. apply (PBinary 3 (tok TokLt "<") _ _ [x] [tok TokNumber "3"]); [reflexivity| |].
      * apply (phrase_lower 3 8); [lia|]. by apply PVar.
      * apply (phrase_lower 4 8); [lia|]. by apply PNumber.
    + apply SExpr; [|by left]. apply (PCompound (tok TokPlusAssign "+=") TokPlus _ _ [x] [tok TokNumber "1"]); [reflexivity| |].
      * apply (phrase_lower 1 8); [lia|]. by apply PVar.
      * apply (phrase_lower 0 8); [lia|]. by apply PNumber.
  - assert (written_as x "x") as Hx.
    { apply WName. split; [reflexivity|]. split; [reflexivity|]. by exists "x"%char, "". }
    apply (TCons _ "while"); [by apply WFixed|]. apply (TCons _ "("); [by apply WFixed|]. apply (TCons _ "x"); [done|].
    apply (TCons _ "<"); [by apply WFixed|]. apply (TCons _ "3"); [apply WNumber; by left|].
    apply (TCons _ ")"); [by apply WFixed|]. apply (TCons _ (String "010" "")); [by apply WFixed|]. apply (TCons _ "x"); [done|].
    apply (TCons _ "+="); [by apply WFixed|]. apply (TCons _ "1"); [apply WNumber; by left|].
    apply (TCons _ ";" [] ""); [by apply WFixed|]. apply TNil.
Defined.

(** An increment after an array element is not parsed, and no separator is needed between statements. *)
Example array_postfix_rejected : parse_text "a[0]++" = Err (Unexpected (tok TokEOF "")) /\
  parse_text "1 2" = Ok [ExprStmt (NumExpr "1"); ExprStmt (NumExpr "2")].
Proof. split; reflexivity. Qed.
