(* ===== verification/BcNum.v ===== *)
(** The numbers of bc: reading, printing, powers and square roots of pkg/bc/bc.go.

    Numbers are the rationals of Rat.v; a value has a scale besides, the number of decimals it is
    printed with.  A [big.Float] of the square root is a rational whose numerator has at most the
    bits of the precision.  How many digits of another base the decimals of a number fill, which the
    source computes with [math.Log], is the parameter [places] of the definitions that print. *)

From S2P Require Import Prelude GoStd Utf8 Rat.

Local Open Scope Z_scope.

(** A division by zero in math/big, a loop that does not end, and a string of more bytes than the allocator of Go can address, for which
    [strings.Repeat] panics. *)
Inductive num_failure := DivisionPanic | Endless | TooLongString.

(** [maxAlloc] of the run-time system, on 64 bits. *)
Definition maxAlloc : Z := 2 ^ 48.

(** * Reading *)

(** [strings.ToUpper] of the characters of a number. *)
Definition to_upper (c : ascii) : ascii := if (97 <=? code c) && (code c <=? 122) then chr (code c - 32) else c.

Fixpoint ToUpper (s : string) : string :=
  match s with "" => "" | String c s => String (to_upper c) (ToUpper s) end.

Definition digitVal (c : ascii) : Z :=
  let c := code c in
  if (48 <=? c) && (c <=? 57) then c - 48
  else if (65 <=? c) && (c <=? 90) then c - 65 + 10
  else if (97 <=? c) && (c <=? 122) then c - 97 + 10
  else -1.

(** The loop of the integer part; a digit out of range counts as the largest, unless it is alone. *)
Fixpoint int_value (ibase : Z) (isSingleDigit : bool) (s : string) (intVal : Z) : Z :=
  match s with
  | "" => intVal
  | String c s =>
      let d := digitVal c in
      if d <? 0 then int_value ibase isSingleDigit s intVal
      else
        let d := if negb isSingleDigit && (ibase <=? d) then ibase - 1 else d in
        int_value ibase isSingleDigit s (intVal * ibase + d)
  end.

Fixpoint frac_value (ibase : Z) (s : string) (fracVal : Q) (power : Z) : Q :=
  match s with
  | "" => fracVal
  | String c s =>
      let d := digitVal c in
      if d <? 0 then frac_value ibase s fracVal power
      else
        let d := if ibase <=? d then ibase - 1 else d in
        let power := power * ibase in
        frac_value ibase s (ratAdd fracVal (ratQuo (SetInt d) (SetInt power))) power
  end.

Definition trim_zeros (s : string) : string := TrimLeft (fun c => c =c? "0") s.

Definition parseNumberInBase (s : string) (ibase : Z) : Q :=
  let s := ToUpper s in
  let '(neg, s) :=
    if HasPrefix s "-" then (true, str_drop 1 s)
    else if HasPrefix s "+" then (false, str_drop 1 s) else (false, s) in
  let parts := split_on (String.length s) s "." in
  let intStr := nth 0 parts "" in
  let fracStr := nth 1 parts "" in
  let isSingleDigit :=
    (length parts =? 1)%nat &&
    (let trimmed := trim_zeros intStr in
     (String.length trimmed =? 1)%nat || ((String.length trimmed =? 0)%nat && (String.length intStr =? 1)%nat)) in
  let res := ratAdd (SetInt (int_value ibase isSingleDigit intStr 0)) (frac_value ibase fracStr 0%Q 1) in
  if neg then Qopp res else res.

(** The scale of a number as it is written. *)
Definition literal_scale (val : string) : Z :=
  match Index val "." with Some idx => Z.of_nat (String.length val) - Z.of_nat idx - 1 | None => 0 end.

(** * Powers *)

(** 64 halvings end an [int64]. *)
Fixpoint power_loop (fuel : nat) (res base : Q) (exponent : Z) : Q :=
  match fuel with
  | O => res
  | S fuel =>
      if 0 <? exponent then
        power_loop fuel (if Z.rem exponent 2 =? 1 then ratMul res base else res) (ratMul base base) (Z.quot exponent 2)
      else res
  end.

Definition ratPower (r : Q) (exponent : Z) : Q :=
  if exponent =? 0 then 1%Q
  else
    let neg := exponent <? 0 in
    if neg && (Sign r =? 0) then 0%Q
    else
      let exponent := if neg then wrap 64 (- exponent) else exponent in
      let res := power_loop 64 1%Q r exponent in
      if neg then Qred (/ res) else res.

(** * Printing *)

(** [big.Int.DivMod]: Euclidean division. *)
Definition DivMod (x y : Z) : Z * Z := let m := x mod Z.abs y in ((x - m) / y, m).

Definition pad2 (z : Z) : string := let s := FormatInt z in if (String.length s <? 2)%nat then "0" +:+ s else s.

Definition formatDigit (val obase : Z) : string :=
  if obase <=? 16 then EncodeRune (if val <? 10 then 48 + val else 65 + val - 10) else pad2 val.

(** [for temp.Cmp(zero) > 0]: the digits, the last one first. *)
Fixpoint int_digits (fuel : nat) (temp obase : Z) : result num_failure (list string) :=
  if 0 <? temp then
    match fuel with
    | O => Err Endless
    | S fuel =>
        if obase =? 0 then Err DivisionPanic
        else
          let '(q, remDigit) := DivMod temp obase in
          let? ds := int_digits fuel q obase in
          Ok (formatDigit remDigit obase :: ds)
    end
  else Ok [].

(** The digits of the fraction [fracTemp]. *)
Fixpoint places_of (n : nat) (fracTemp : Q) (obase : Z) : list string :=
  match n with
  | O => []
  | S n =>
      let fracTemp := ratMul fracTemp (SetInt obase) in
      let digitInt := Num fracTemp / Denom fracTemp in
      formatDigit digitInt obase :: places_of n (ratSub fracTemp (SetInt digitInt)) obase
  end.

Section Printing.
(** [places obase scale] is [int(math.Ceil(float64(scale) * (math.Log(10) / math.Log(float64(obase)))))]. *)
Variable places : Z -> Z -> Z.

Definition format_zero (obase scale : Z) (forceNeg : bool) : string :=
  if scale <=? 0 then "0"
  else if forceNeg then
    if 16 <? obase then "-." +:+ join_with " " (replicate (Z.to_nat scale) "00")
    else "-." +:+ repeat_char "0" (Z.to_nat scale)
  else "0".

Definition formatRat (r : Q) (obase scale : Z) (forceNeg : bool) : result num_failure string :=
  if Sign r =? 0 then
    if forceNeg && (obase <=? 16) && (maxAlloc <? scale) then Err TooLongString else Ok (format_zero obase scale forceNeg)
  else
    let sign := if (Sign r <? 0) || forceNeg then "-" else "" in
    let num := Z.abs (Num r) in
    let denom := Denom r in
    let intPart := num / denom in
    let printScale := if negb (obase =? 10) && (0 <? scale) then places obase scale else scale in
    let? digits := int_digits (S (Z.to_nat (Z.log2 intPart))) intPart obase in
    let intDigits := rev (match digits with [] => ["0"] | _ => digits end) in
    let intStr :=
      if (intPart =? 0) && (0 <? printScale) then ""
      else if 16 <? obase then sconcat ((fun d => " " +:+ d) <$> intDigits)
      else sconcat intDigits in
    if printScale <=? 0 then Ok (sign +:+ intStr)
    else
      let fracDigits := places_of (Z.to_nat printScale) (SetFrac (num mod denom) denom) obase in
      Ok (sign +:+ intStr +:+ "." +:+ join_with (if 16 <? obase then " " else "") fracDigits).

(** [length()] of a number. *)
Definition valLength (r : Q) (scale : Z) : result num_failure Z :=
  if Sign r =? 0 then Ok (if 0 <? scale then scale else 1)
  else
    let? s := formatRat r 10 scale (Sign r <? 0) in
    let s := remove_char "-" s in
    let parts := split_on (String.length s) s "." in
    let intStr := trim_zeros (nth 0 parts "") in
    let fracStr := nth 1 parts "" in
    Ok (Z.of_nat (if (0 <? String.length intStr)%nat then String.length intStr + String.length fracStr
                  else String.length (trim_zeros fracStr))).
End Printing.

(** The lines of a number longer than the line length are continued. *)
Fixpoint print_wrapped (lineLength col : Z) (s : string) : string :=
  match s with
  | "" => ""
  | String ch s =>
      if code ch =? 10 then String ch (print_wrapped lineLength 0 s)
      else
        let full := (1 <? lineLength) && (col =? lineLength - 2) in
        (if full then "\" +:+ String "010" "" else "") +:+ EncodeRune (code ch) +:+
          print_wrapped lineLength ((if full then 0 else col) + 1) s
  end.

Definition printWrapped (lineLength : Z) (s : string) : string := print_wrapped lineLength 0 s.

(** * Square roots *)

Definition pow2 (e : Z) : Q := if 0 <=? e then 2 ^ e # 1 else 1 # Z.to_pos (2 ^ (- e)).

(** The largest [l] with [2 ^ l <= x], for a positive [x]. *)
Definition floor_log2 (x : Q) : Z :=
  let l := Z.log2 (Num x) - Z.log2 (Denom x) in
  if Qle_bool (pow2 l) x then l else l - 1.

(** Rounding of a positive rational to a number with [prec] bits: to nearest, ties to even. *)
Definition float_of (prec : Z) (x : Q) : Q :=
  let e := prec - 1 - floor_log2 x in
  let y := ratMul x (pow2 e) in
  let m := Num y / Denom y in
  let m := match (2 * (Num y mod Denom y)) ?= Denom y with
           | Lt => m | Gt => m + 1 | Eq => if Z.even m then m else m + 1 end in
  ratMul (SetInt m) (pow2 (- e)).

(** [big.Float.Sqrt]: the square root of a positive number, rounded to nearest. *)
Definition float_sqrt (prec : Z) (x : Q) : Q :=
  let e := prec - 1 - floor_log2 x / 2 in
  let y := ratMul x (pow2 (2 * e)) in
  let m := Z.sqrt (Num y / Denom y) in
  let m := if Qle_bool y (((2 * m + 1) * (2 * m + 1)) # 4) then m else m + 1 in
  ratMul (SetInt m) (pow2 (- e)).

(** [uint(targetScale)*4 + 128], at least 256 and at most big.MaxPrec. *)
Definition sqrt_precision (targetScale : Z) : Z :=
  let prec := uwrap 64 (targetScale * 4 + 128) in
  Z.min (if prec <? 256 then 256 else prec) (2 ^ 32 - 1).

(** The root and its scale; [None] for a negative number. *)
Definition valSqrt (r : Q) (xValScale globalScale : Z) : option (Q * Z) :=
  if Sign r <? 0 then None
  else
    let targetScale := if xValScale <? globalScale then globalScale else xValScale in
    if Sign r =? 0 then Some (0%Q, targetScale)
    else
      let prec := sqrt_precision targetScale in
      Some (float_sqrt prec (float_of prec r), targetScale).

(** * Array indices *)

Definition idxString (r : Q) : string := FormatInt (Z.quot (Num r) (Denom r)).

(** * Numbers read back

    In a base up to 16 a digit is one character. *)

Definition digit_char (m : Z) : ascii := chr (if m <? 10 then 48 + m else 65 + m - 10).

Definition base_char (c : ascii) : bool := ((48 <=? code c) && (code c <=? 57)) || ((65 <=? code c) && (code c <=? 70)).

(** The number of decimals of the printed text. *)
Definition print_scale (places : Z -> Z -> Z) (obase scale : Z) : Z :=
  if negb (obase =? 10) && (0 <? scale) then places obase scale else scale.

Ltac sixteen m :=
  let H := fresh in
  assert (m = 0 \/ m = 1 \/ m = 2 \/ m = 3 \/ m = 4 \/ m = 5 \/ m = 6 \/ m = 7 \/ m = 8 \/ m = 9 \/ m = 10 \/
          m = 11 \/ m = 12 \/ m = 13 \/ m = 14 \/ m = 15) as H by lia;
  repeat (destruct H as [->|H]); [..|subst m].

Lemma digit_char_ok m : 0 <= m < 16 ->
  digitVal (digit_char m) = m /\ to_upper (digit_char m) = digit_char m /\ base_char (digit_char m) = true.
Proof. intros Hm. sixteen m; repeat split. Qed.

Lemma formatDigit_char m b : 0 <= m < b -> b <= 16 -> formatDigit m b = String (digit_char m) "".
Proof.
  intros Hm Hb. unfold formatDigit. rewrite (proj2 (Z.leb_le b 16)) by lia. sixteen m; try reflexivity; lia.
Qed.

Lemma base_char_not c d : base_char c = true -> base_char d = false -> (c =c? d) = false.
Proof. intros Hc Hd. destruct (Prelude.ceqb_spec c d) as [->|]; congruence. Qed.

Lemma base_chars_no s c : base_char c = false -> str_forall base_char s = true ->
  str_forall (fun d => negb (d =c? c)) s = true.
Proof.
  intros Hc. induction s as [|d s IH]; [done|]. cbn [str_forall]. intros [Hd Hs]%andb_true_iff.
  by rewrite (base_char_not d c), IH.
Qed.

Lemma ToUpper_base s : str_forall base_char s = true -> ToUpper s = s.
Proof.
  induction s as [|c s IH]; [done|]. cbn [str_forall ToUpper]. intros [Hc Hs]%andb_true_iff. rewrite IH by done.
  unfold to_upper, base_char in *. replace ((97 <=? code c) && (code c <=? 122)) with false by lia. done.
Qed.

Lemma ToUpper_app s t : ToUpper (s +:+ t) = ToUpper s +:+ ToUpper t.
Proof. induction s as [|c s IH]; [done|]. rewrite sapp_cons. cbn [ToUpper]. by rewrite IH, sapp_cons. Qed.

Lemma int_value_app b f s t acc : int_value b f (s +:+ t) acc = int_value b f t (int_value b f s acc).
Proof.
  revert acc. induction s as [|c s IH]; intros acc; [done|]. rewrite sapp_cons. cbn [int_value]. cbv zeta.
  destruct (digitVal c <? 0); apply IH.
Qed.

Lemma int_value_digit b f m s acc : 0 <= m < b -> b <= 16 ->
  int_value b f (String (digit_char m) s) acc = int_value b f s (acc * b + m).
Proof.
  intros Hm Hb. cbn [int_value]. destruct (digit_char_ok m ltac:(lia)) as (-> & _ & _).
  rewrite (proj2 (Z.ltb_ge m 0)), (proj2 (Z.leb_gt b m)) by lia. by rewrite andb_false_r.
Qed.

Lemma sconcat_join l : join_with "" l = sconcat l.
Proof.
  induction l as [|s [|t l] IH]; [done|unfold sconcat; simpl; by rewrite sapp_nil_r|].
  change (join_with "" (s :: t :: l)) with (s +:+ "" +:+ join_with "" (t :: l)). by rewrite sapp_nil_l, IH.
Qed.

Lemma DivMod_pos x y : 0 < y -> DivMod x y = (x / y, x mod y).
Proof.
  intros Hy. unfold DivMod. rewrite Z.abs_eq by lia. f_equal.
  rewrite (Z.div_mod x y) at 1 by lia. replace (y * (x / y) + x mod y - x mod y) with (x / y * y) by lia.
  by rewrite Z.div_mul by lia.
Qed.

(** The digits of an integer. *)
Lemma int_digits_ok b : 2 <= b <= 16 -> forall fuel n, 0 <= n < 2 ^ Z.of_nat fuel ->
  exists ds, int_digits fuel n b = Ok ds /\ str_forall base_char (sconcat (rev ds)) = true /\ (forall f, int_value b f (sconcat (rev ds)) 0 = n) /\ (ds = [] -> n = 0).
Proof.
  intros Hb. induction fuel as [|fuel IH]; intros n Hn.
  { exists []. assert (n = 0) as -> by (simpl in Hn; lia). done. }
  cbn [int_digits]. destruct (Z.ltb_spec 0 n) as [Hp|]; [|exists []; by assert (n = 0) as -> by lia].
  rewrite (proj2 (Z.eqb_neq b 0)) by lia. rewrite DivMod_pos by lia.
  assert (0 <= n / b < 2 ^ Z.of_nat fuel) as Hq.
  { split; [apply Z.div_pos; lia|]. apply Z.div_lt_upper_bound; [lia|].
    rewrite Nat2Z.inj_succ, Z.pow_succ_r in Hn by lia. nia. }
  destruct (IH _ Hq) as (ds & -> & Hc & Hv & _). pose proof (Z.mod_pos_bound n b ltac:(lia)) as Hm.
  cbn [res_bind]. exists (formatDigit (n mod b) b :: ds). split; [done|].
  rewrite (formatDigit_char _ b) by lia. cbn [rev]. rewrite sconcat_app. split; [|split; [|done]].
  - rewrite str_forall_app, Hc. unfold sconcat. cbn [foldr]. rewrite sapp_nil_r. cbn [str_forall].
    destruct (digit_char_ok (n mod b) ltac:(lia)) as (_ & _ & ->). done.
  - intros f. rewrite int_value_app, Hv. unfold sconcat. cbn [foldr]. rewrite sapp_nil_r, int_value_digit by lia.
    cbn [int_value]. rewrite (Z.div_mod n b) at 3 by lia. lia.
Qed.

Lemma enough_bits n : 0 <= n -> n < 2 ^ Z.of_nat (S (Z.to_nat (Z.log2 n))).
Proof.
  intros Hn. rewrite Nat2Z.inj_succ, Z2Nat.id by (apply Z.log2_nonneg).
  destruct (Z.eq_dec n 0) as [->|]; [done|]. by apply Z.log2_spec; lia.
Qed.

(** The text of the integer part. *)
Definition int_text (ds : list string) : string := sconcat (rev (match ds with [] => ["0"] | _ => ds end)).

Lemma int_text_ok b n : 2 <= b <= 16 -> 0 <= n ->
  exists ds, int_digits (S (Z.to_nat (Z.log2 n))) n b = Ok ds /\ str_forall base_char (int_text ds) = true /\ (forall f, int_value b f (int_text ds) 0 = n) /\ int_text ds <> "".
Proof.
  intros Hb Hn. destruct (int_digits_ok b Hb _ n (conj Hn (enough_bits n Hn))) as (ds & E & Hc & Hv & Hz).
  exists ds. split; [done|]. destruct ds as [|d ds].
  - pose proof (Hz eq_refl) as ->. unfold int_text. split; [done|]. split; [|done]. intros f.
    change (sconcat (rev ["0"])) with (String (digit_char 0) ""). by rewrite int_value_digit by lia.
  - unfold int_text. split; [done|]. split; [done|]. intros E0. rewrite E0 in Hv. specialize (Hv true). cbn [int_value] in Hv.
    subst n. by cbn in E.
Qed.

Lemma floor_eq q a den : 0 < den -> (q == a # Z.to_pos den)%Q -> Num q / Denom q = a / den.
Proof.
  intros Hd E. unfold Qeq in E. simpl in E. rewrite Z2Pos.id in E by done. unfold Num, Denom.
  rewrite <- (Z.div_mul_cancel_r (Qnum q) (Zpos (Qden q)) den) by lia. rewrite E.
  rewrite (Z.mul_comm (Zpos (Qden q)) den). apply Z.div_mul_cancel_r; lia.
Qed.

Lemma frac_add d e k p : 0 < k -> 0 < p ->
  ((d # Z.to_pos p) + (e # Z.to_pos (k * p)) == (d * k + e # Z.to_pos (k * p)))%Q.
Proof.
  intros Hk Hp. assert (0 < k * p) by lia. unfold Qeq, Qplus. simpl. rewrite !Pos2Z.inj_mul, !Z2Pos.id by lia. ring.
Qed.

(** The digits of a fraction [rem / den]. *)
Lemma places_ok b n : 2 <= b <= 16 -> forall rem den x, 0 <= rem < den -> (x == rem # Z.to_pos den)%Q ->
  let s := sconcat (places_of n x b) in
  str_forall base_char s = true /\ String.length s = n /\
  forall acc power, 0 < power ->
    (frac_value b s acc power == acc + (rem * b ^ Z.of_nat n / den # Z.to_pos (b ^ Z.of_nat n * power)))%Q.
Proof.
  intros Hb. induction n as [|n IH]; intros rem den x Hr Hx.
  { split; [done|]. split; [done|]. intros acc power Hp. cbn [places_of]. unfold sconcat. cbn [foldr frac_value].
    rewrite Z.mul_1_r, Z.div_small by lia. unfold Qeq, Qplus. simpl. rewrite Pos2Z.inj_mul. ring. }
  cbn [places_of]. cbv zeta. set (y := ratMul x (SetInt b)).
  assert (y == rem * b # Z.to_pos den)%Q as Hy.
  { unfold y, ratMul, SetInt. rewrite Qred_correct, Hx. unfold Qeq. simpl. rewrite Pos.mul_1_r. ring. }
  rewrite (floor_eq y (rem * b) den) by (done || lia). set (d := rem * b / den).
  assert (0 <= d < b) as Hd.
  { unfold d. split; [apply Z.div_pos; nia|]. apply Z.div_lt_upper_bound; nia. }
  rewrite formatDigit_char by lia. set (r := (rem * b) mod den).
  assert (0 <= r < den) as Hr' by (apply Z.mod_pos_bound; lia).
  assert (rem * b = den * d + r) as Ed by (apply Z.div_mod; lia).
  assert (ratSub y (SetInt d) == r # Z.to_pos den)%Q as Hs.
  { unfold ratSub, SetInt. rewrite Qred_correct, Hy. unfold Qeq. simpl. rewrite Pos2Z.inj_mul, !Z2Pos.id by lia.
    rewrite Ed. ring. }
  destruct (IH r den _ Hr' Hs) as (Hc & Hl & Hv). unfold sconcat. cbn [foldr]. fold (sconcat (places_of n (ratSub y (SetInt d)) b)).
  set (s := sconcat (places_of n (ratSub y (SetInt d)) b)) in *.
  destruct (digit_char_ok d ltac:(lia)) as (Ev & _ & Eb).
  change (String (digit_char d) "" +:+ s) with (String (digit_char d) s). split; [|split].
  - cbn [str_forall]. by rewrite Eb, Hc.
  - cbn [String.length]. by rewrite Hl.
  - intros acc power Hp. cbn [frac_value]. cbv zeta. rewrite Ev. rewrite (proj2 (Z.ltb_ge d 0)), (proj2 (Z.leb_gt b d)) by lia.
    rewrite Hv by lia. unfold ratAdd, ratQuo, SetInt. rewrite !Qred_correct.
    assert ((d # 1) / (power * b # 1) == d # Z.to_pos (power * b))%Q as ->.
    { rewrite (Qmake_Qdiv d (Z.to_pos (power * b))), Z2Pos.id by lia. reflexivity. }
    assert (0 < b ^ Z.of_nat n) by (apply Z.pow_pos_nonneg; lia).
    rewrite <- Qplus_assoc, frac_add by lia. rewrite Nat2Z.inj_succ, Z.pow_succ_r by lia.
    replace (rem * (b * b ^ Z.of_nat n)) with (d * b ^ Z.of_nat n * den + r * b ^ Z.of_nat n) by (rewrite Z.mul_assoc, Ed; ring).
    rewrite Z.div_add_l by lia. replace (b * b ^ Z.of_nat n * power) with (b ^ Z.of_nat n * (power * b)) by ring.
    reflexivity.
Qed.

Lemma split_point i f : str_forall base_char i = true -> str_forall base_char f = true ->
  split_on (String.length (i +:+ "." +:+ f)) (i +:+ "." +:+ f) "." = [i; f].
Proof.
  intros Hi Hf. rewrite slength_app, sapp_cons, sapp_nil_l. cbn [String.length]. rewrite Nat.add_succ_r. cbn [split_on].
  rewrite Index_char by (by apply base_chars_no). rewrite str_take_exact. f_equal.
  assert (str_drop (String.length i + String.length ".") (i +:+ String "." f) = f) as ->.
  { change (String "." f) with ("." +:+ f). rewrite <- sapp_assoc.
    rewrite <- slength_app. apply str_drop_exact. }
  assert (Index f "." = None) as E by (apply Index_none; by apply base_chars_no).
  destruct (String.length i + String.length f)%nat; cbn [split_on]; [done|by rewrite E].
Qed.

Lemma split_none i : str_forall base_char i = true -> split_on (String.length i) i "." = [i].
Proof.
  intros Hi. assert (Index i "." = None) as E by (apply Index_none; by apply base_chars_no).
  destruct (String.length i); cbn [split_on]; [done|by rewrite E].
Qed.

(** A number without sign, and with one. *)
Lemma parse_unsigned b i f : 2 <= b <= 16 -> str_forall base_char i = true ->
  (f = None \/ exists t, f = Some t /\ str_forall base_char t = true) -> (f = None -> i <> "") ->
  let s := i +:+ match f with Some t => "." +:+ t | None => "" end in
  exists flag, forall neg : bool,
    parseNumberInBase ((if neg then "-" else "") +:+ s) b =
      (let q := ratAdd (SetInt (int_value b flag i 0)) (frac_value b (default "" f) 0%Q 1) in if neg then Qopp q else q).
Proof.
  intros Hb Hi Hf Hne s.
  assert (ToUpper s = s) as Hu.
  { unfold s. rewrite ToUpper_app, ToUpper_base by done. destruct Hf as [->|(t & -> & Ht)]; [done|].
    by rewrite ToUpper_app, (ToUpper_base t). }
  assert (forall c, base_char c = false -> c <> "."%char -> HasPrefix s (String c "") = false) as Hp.
  { intros c Hc Hd. unfold s. destruct i as [|x i].
    - destruct Hf as [->|(t & -> & Ht)]; [by destruct Hne|]. rewrite sapp_nil_l, sapp_cons. cbn [HasPrefix]. by destruct (Prelude.ceqb_spec c "."%char).
    - cbn [str_forall] in Hi. apply andb_true_iff in Hi as [Hx _]. rewrite sapp_cons. cbn [HasPrefix].
      by rewrite Ascii.eqb_sym, base_char_not. }
  assert (split_on (String.length s) s "." = i :: match f with Some t => [t] | None => [] end) as Hs.
  { unfold s. destruct Hf as [->|(t & -> & Ht)]; [rewrite sapp_nil_r; by apply split_none|by apply split_point]. }
  clearbody s. unfold parseNumberInBase. destruct f as [t|]; eexists; intros [|].
  1, 3: rewrite sapp_cons, sapp_nil_l; cbn [ToUpper]; change (to_upper "-") with "-"%char; rewrite Hu;
    cbn [HasPrefix]; change ("-" =c? "-")%char with true; cbn [andb str_drop]; rewrite Hs; reflexivity.
  all: rewrite sapp_nil_l, Hu, (Hp "-"%char), (Hp "+"%char) by done; rewrite Hs; reflexivity.
Qed.

Lemma reduced_opp r : reduced r -> reduced (Qopp r).
Proof. unfold reduced. intros H. by rewrite Qred_opp, H. Qed.

Lemma SetFrac_quot z d B : 0 < d -> 0 < B ->
  SetFrac (Z.quot (z * B) d) B = if z <? 0 then Qopp (SetFrac (Z.abs z * B / d) B) else SetFrac (Z.abs z * B / d) B.
Proof.
  intros Hd HB. unfold SetFrac. destruct (Z.ltb_spec z 0).
  - rewrite <- Qred_opp. f_equal. unfold Qopp. simpl. f_equal.
    rewrite Z.abs_neq by lia. rewrite <- Z.quot_div_nonneg by nia. rewrite Z.mul_opp_l, Z.quot_opp_l by lia. lia.
  - rewrite Z.abs_eq by lia. by rewrite Z.quot_div_nonneg by nia.
Qed.

(** The integer part and the places of a fraction together. *)
Lemma parts_value num den p b flag i f : 2 <= b <= 16 -> 0 <= num -> 0 < den ->
  int_value b flag i 0 = num / den ->
  (frac_value b f 0%Q 1 == (num mod den) * b ^ Z.of_nat p / den # Z.to_pos (b ^ Z.of_nat p))%Q ->
  ratAdd (SetInt (int_value b flag i 0)) (frac_value b f 0%Q 1) = SetFrac (num * b ^ Z.of_nat p / den) (b ^ Z.of_nat p).
Proof.
  intros Hb Hn Hd Hi Hf. unfold ratAdd, SetFrac. apply Qred_complete. rewrite Hi, Hf. unfold SetInt.
  assert (0 < b ^ Z.of_nat p) by (apply Z.pow_pos_nonneg; lia).
  pose proof (frac_add (num / den) ((num mod den) * b ^ Z.of_nat p / den) (b ^ Z.of_nat p) 1) as E.
  rewrite Z.mul_1_r in E. change (Z.to_pos 1) with 1%positive in E. rewrite E by lia.
  replace (num * b ^ Z.of_nat p) with (num / den * b ^ Z.of_nat p * den + num mod den * b ^ Z.of_nat p)
    by (rewrite (Z.div_mod num den) at 3 by lia; ring).
  by rewrite Z.div_add_l by lia.
Qed.

Lemma literal_scale_point s f : str_forall (fun d => negb (d =c? "."%char)) s = true ->
  literal_scale (s +:+ "." +:+ f) = Z.of_nat (String.length f).
Proof.
  intros Hs. unfold literal_scale. rewrite sapp_cons, sapp_nil_l, Index_char by done.
  rewrite slength_app. cbn [String.length]. lia.
Qed.

Lemma literal_scale_none s : str_forall (fun d => negb (d =c? "."%char)) s = true -> literal_scale s = 0.
Proof. intros Hs. unfold literal_scale. by rewrite Index_none. Qed.

Lemma sign_no_point (neg : bool) i : str_forall base_char i = true ->
  str_forall (fun d => negb (d =c? "."%char)) ((if neg then "-" else "") +:+ i) = true.
Proof. intros Hi. rewrite str_forall_app, (base_chars_no i) by done. by destruct neg. Qed.

(** What bc prints of a number in a base up to 16 reads back, in this base, as the number cut at
    the decimals that are printed, and has them as its scale. *)
Theorem bc_number_roundtrip places b r scale : 2 <= b <= 16 -> reduced r ->
  let p := Z.max 0 (print_scale places b scale) in
  exists s, formatRat places r b scale false = Ok s /\
    parseNumberInBase s b = SetFrac (Z.quot (Num r * b ^ p) (Denom r)) (b ^ p) /\
    literal_scale s = (if Sign r =? 0 then 0 else p).
Proof.
  intros Hb Hr p. assert (0 <= p) as Hp0 by (unfold p; lia).
  assert (0 < b ^ p) as HB by (apply Z.pow_pos_nonneg; lia). unfold formatRat. cbn [andb]. destruct (Z.eqb_spec (Sign r) 0) as [E|E].
  { exists "0". split; [unfold format_zero; by destruct (scale <=? 0)|].
    assert (Num r = 0) as -> by (unfold Sign, Num in *; lia). split; [|done].
    rewrite Z.mul_0_l, Z.quot_0_l by (unfold Denom; lia).
    unfold parseNumberInBase. simpl. unfold SetFrac.
    unfold ratAdd. apply Qred_complete. change (digitVal (to_upper "0")) with 0. rewrite Z.mul_0_l. reflexivity. }
  cbv zeta. fold (print_scale places b scale). set (num := Z.abs (Num r)). set (den := Denom r).
  assert (0 <= num) as Hnum by (unfold num; lia). assert (0 < den) as Hden by (unfold den, Denom; lia).
  assert (0 <= num / den) as Hq by (apply Z.div_pos; lia).
  destruct (int_text_ok b _ Hb Hq) as (ds & -> & Hi & Hv & Hne). cbn [res_bind]. fold (int_text ds).
  set (i := int_text ds) in *.
  assert ((16 <? b) = false) as -> by lia.
  set (neg := (Sign r <? 0) || false).
  assert ((Num r <? 0) = neg) as En by (unfold neg, Sign, Num; rewrite orb_false_r; lia).
  rewrite SetFrac_quot, En by (unfold den, Denom in *; lia). fold num den.
  destruct (Z.leb_spec (print_scale places b scale) 0) as [Hp|Hp].
  - assert (p = 0) as Ep by (unfold p; lia). rewrite Ep, (proj2 (Z.ltb_ge 0 _)) by lia. rewrite andb_false_r.
    destruct (parse_unsigned b i None Hb Hi (or_introl eq_refl) (fun _ => Hne)) as (flag & P).
    eexists. split; [reflexivity|]. rewrite sapp_nil_r in P. split.
    + rewrite P. cbv zeta. cbn [default]. rewrite (parts_value num den 0 b flag i ""); try done.
      change (b ^ Z.of_nat 0) with 1. rewrite Z.mul_1_r, Z.div_small by (by apply Z.mod_pos_bound). reflexivity.
    + apply literal_scale_none. by apply sign_no_point.
  - assert (p = print_scale places b scale) as Ep by (unfold p; lia). rewrite <- Ep in *.
    rewrite (proj2 (Z.ltb_lt 0 p)) by lia. rewrite andb_true_r, sconcat_join.
    destruct (places_ok b (Z.to_nat p) Hb (num mod den) den (SetFrac (num mod den) den)) as (Hc & Hl & Hf).
    { by apply Z.mod_pos_bound. }
    { unfold SetFrac. apply Qred_correct. }
    set (f := sconcat _) in *. set (i' := if num / den =? 0 then "" else i).
    assert (str_forall base_char i' = true /\ (forall flag, int_value b flag i' 0 = num / den)) as [Hi' Hv'].
    { unfold i'. destruct (Z.eqb_spec (num / den) 0) as [->|]; done. }
    destruct (parse_unsigned b i' (Some f) Hb Hi') as (flag & P); [right; eauto|done|].
    eexists. split; [reflexivity|]. split.
    + rewrite P. cbv zeta. change (default "" (Some f)) with f. rewrite (parts_value num den (Z.to_nat p) b flag i' f); try done.
      * rewrite Z2Nat.id by lia. by destruct neg.
      * rewrite Hf by lia. rewrite Z.mul_1_r. ring.
    + rewrite <- sapp_assoc, literal_scale_point by (by apply sign_no_point). rewrite Hl. lia.
Qed.

Lemma bc_number_roundtrip_witness :
  let r := (-511 # 2)%Q in
  formatRat (fun _ scale => scale) r 16 3 false = Ok "-FF.800" /\
  exists s, formatRat (fun _ scale => scale) r 16 3 false = Ok s /\
    parseNumberInBase s 16 = SetFrac (Z.quot (Num r * 16 ^ 3) (Denom r)) (16 ^ 3) /\ literal_scale s = 3.
Proof.
  intros r. split; [reflexivity|].
  exact (bc_number_roundtrip (fun _ scale => scale) 16 r 3 ltac:(lia) ltac:(reflexivity)).
Defined.

(** A base of 0 is a division by zero, and one of 1 does not end, whatever the fuel of the loop. *)
Example obase_zero_panics : formatRat (fun _ scale => scale) 5%Q 0 0 false = Err DivisionPanic.
Proof. reflexivity. Qed.

Lemma obase_one_endless fuel n : 0 < n -> int_digits fuel n 1 = Err Endless.
Proof.
  intros Hn. induction fuel as [|fuel IH]; cbn [int_digits]; rewrite (proj2 (Z.ltb_lt 0 n)) by lia; [done|].
  cbn [Z.eqb]. rewrite DivMod_pos, Z.div_1_r by lia. by rewrite IH.
Qed.

(** Digits above 99 have three characters, those below keep two. *)
Example large_base_digits : formatRat (fun _ scale => scale) (2005 # 1) 1000 0 false = Ok " 02 05" /\
  formatRat (fun _ scale => scale) (2500 # 1) 1000 0 false = Ok " 02 500".
Proof. split; reflexivity. Qed.

(** The root keeps digits beyond its scale, which are not printed but count. *)
Example sqrt_hidden_digits : match valSqrt 2%Q 0 2 with
  | Some (root, s) => formatRat (fun _ scale => scale) root 10 s false = Ok "1.41" /\
      formatRat (fun _ scale => scale) (ratSub root (141 # 100)) 10 s false = Ok ".00" /\ Sign (ratSub root (141 # 100)) = 1
  | None => False
  end.
Proof. vm_compute. repeat split. Qed.
