(* ===== verification/Bc.v ===== *)
(** The interpreter of bc: pkg/bc/bc.go.

    A step of the interpreter takes its state and returns an outcome and the state after it; the
    state has the output written so far.  Arrays are shared: a scope and a value hold the number of
    an array in the store [heap], as the maps of Go are references.  [Locals] is [None] while the
    local scope is the global one.  Evaluation carries fuel, a unit for each level of recursion and
    each turn of a loop. *)

From S2P Require Import Prelude GoStd Utf8 Scanner Output Rat BcSyntax BcNum.

Local Open Scope Z_scope.

(** * Values and state *)

Inductive BcVal :=
| ValNum (rat : Q) (scale : Z) (isNeg : bool)
| ValStr (s : string)
| ValVoid
| ValArrayRef (arr : nat).

Definition newValNumNeg (r : Q) (scale : Z) (isNeg : bool) : BcVal := ValNum r scale (isNeg || (Sign r <? 0)).
Definition newValNum (r : Q) (scale : Z) : BcVal := newValNumNeg r scale false.
Definition number_of (n : Z) : BcVal := newValNum (SetInt n) 0.
Definition zero_val : BcVal := number_of 0.

Definition IsTrue (v : BcVal) : bool := match v with ValNum r _ _ => negb (Sign r =? 0) | _ => false end.

(** The field [Scale]. *)
Definition scale_of (v : BcVal) : Z := match v with ValNum _ s _ => s | _ => 0 end.

Definition array := gmap string BcVal.

(** A scope without its parent, which is the global scope. *)
Record Scope := { Vars : gmap string BcVal; Arrays : gmap string nat }.

Definition NewScope : Scope := {| Vars := ∅; Arrays := ∅ |}.

Record Interpreter := {
  Globals : Scope;
  Locals : option Scope;
  heap : list array;
  Functions : gmap string FuncDecl;
  Scale : Z;
  Ibase : Z;
  Obase : Z;
  stdin : option string;
  Halted : bool;
  Last : BcVal;
  written : string }.

Definition set_scopes (g : Scope) (l : option Scope) (h : list array) (ip : Interpreter) : Interpreter :=
  {| Globals := g; Locals := l; heap := h; Functions := Functions ip; Scale := Scale ip; Ibase := Ibase ip;
     Obase := Obase ip; stdin := stdin ip; Halted := Halted ip; Last := Last ip; written := written ip |}.

Definition set_registers (s i o : Z) (last : BcVal) (ip : Interpreter) : Interpreter :=
  {| Globals := Globals ip; Locals := Locals ip; heap := heap ip; Functions := Functions ip; Scale := s;
     Ibase := i; Obase := o; stdin := stdin ip; Halted := Halted ip; Last := last; written := written ip |}.

Definition set_stdin (t : option string) (ip : Interpreter) : Interpreter :=
  {| Globals := Globals ip; Locals := Locals ip; heap := heap ip; Functions := Functions ip; Scale := Scale ip;
     Ibase := Ibase ip; Obase := Obase ip; stdin := t; Halted := Halted ip; Last := Last ip;
     written := written ip |}.

Definition set_written (w : string) (ip : Interpreter) : Interpreter :=
  {| Globals := Globals ip; Locals := Locals ip; heap := heap ip; Functions := Functions ip; Scale := Scale ip;
     Ibase := Ibase ip; Obase := Obase ip; stdin := stdin ip; Halted := Halted ip; Last := Last ip; written := w |}.

Definition set_halted (ip : Interpreter) : Interpreter :=
  {| Globals := Globals ip; Locals := Locals ip; heap := heap ip; Functions := Functions ip; Scale := Scale ip;
     Ibase := Ibase ip; Obase := Obase ip; stdin := stdin ip; Halted := true; Last := Last ip;
     written := written ip |}.

Definition define (d : FuncDecl) (ip : Interpreter) : Interpreter :=
  {| Globals := Globals ip; Locals := Locals ip; heap := heap ip; Functions := <[Name d := d]> (Functions ip);
     Scale := Scale ip; Ibase := Ibase ip; Obase := Obase ip; stdin := stdin ip; Halted := Halted ip;
     Last := Last ip; written := written ip |}.

Definition set_locals (l : option Scope) (ip : Interpreter) : Interpreter :=
  set_scopes (Globals ip) l (heap ip) ip.

Definition set_heap (h : list array) (ip : Interpreter) : Interpreter :=
  set_scopes (Globals ip) (Locals ip) h ip.

Definition write (s : string) (ip : Interpreter) : Interpreter := set_written (written ip +:+ s) ip.

(** ** Scopes *)

(** The scope [ip.Locals] points to, and the state with another content of it. *)
Definition current (ip : Interpreter) : Scope := default (Globals ip) (Locals ip).

Definition with_current (sc : Scope) (ip : Interpreter) : Interpreter :=
  match Locals ip with
  | Some _ => set_scopes (Globals ip) (Some sc) (heap ip) ip
  | None => set_scopes sc None (heap ip) ip
  end.

Definition insert_var (name : string) (v : BcVal) (sc : Scope) : Scope :=
  {| Vars := <[name := v]> (Vars sc); Arrays := Arrays sc |}.

Definition insert_array (name : string) (arr : nat) (sc : Scope) : Scope :=
  {| Vars := Vars sc; Arrays := <[name := arr]> (Arrays sc) |}.

(** [ip.Locals.Get] *)
Definition Get (name : string) (ip : Interpreter) : BcVal :=
  match Vars (current ip) !! name with
  | Some v => v
  | None => default zero_val (Vars (Globals ip) !! name)
  end.

(** [ip.Locals.Set]: a variable that is nowhere is created in the local scope. *)
Definition Set_ (name : string) (v : BcVal) (ip : Interpreter) : Interpreter :=
  match Vars (current ip) !! name with
  | Some _ => with_current (insert_var name v (current ip)) ip
  | None =>
      match Vars (Globals ip) !! name with
      | Some _ => set_scopes (insert_var name v (Globals ip)) (Locals ip) (heap ip) ip
      | None => with_current (insert_var name v (current ip)) ip
      end
  end.

(** The array of a name, from the local scope or else from the global one. *)
Definition find_array (name : string) (ip : Interpreter) : option nat :=
  match Arrays (current ip) !! name with
  | Some a => Some a
  | None => Arrays (Globals ip) !! name
  end.

Definition array_at (a : nat) (ip : Interpreter) : array := default ∅ (heap ip !! a).

Definition GetArray (name index : string) (ip : Interpreter) : BcVal :=
  match find_array name ip with
  | Some a => default zero_val (array_at a ip !! index)
  | None => zero_val
  end.

(** A new array in the store. *)
Definition alloc (arr : array) (ip : Interpreter) : nat * Interpreter :=
  (length (heap ip), set_heap (heap ip ++ [arr]) ip).

(** [GetArrayRef]: an array that is nowhere is created in the local scope. *)
Definition GetArrayRef (name : string) (ip : Interpreter) : nat * Interpreter :=
  match find_array name ip with
  | Some a => (a, ip)
  | None => let '(a, ip) := alloc ∅ ip in (a, with_current (insert_array name a (current ip)) ip)
  end.

Definition SetArray (name index : string) (v : BcVal) (ip : Interpreter) : Interpreter :=
  let '(a, ip) := GetArrayRef name ip in
  set_heap (<[a := <[index := v]> (array_at a ip)]> (heap ip)) ip.

(** * Outcomes *)

Inductive bc_error :=
| DivisionByZero | ModuloByZero | AssignNonNumeric | InvalidLhs | BinaryNonNumeric | UnrecognizedBinary | UnrecognizedUnary
| InvalidIncrement | UnaryNonNumeric | BuiltinArguments (name : string)
| ArgumentCount (name : string) (expected got : Z) | SqrtOfNegative
| UndefinedFunction (name : string) | ReadSyntax (e : bc_syntax).

(** [Panic] is a run-time panic of a nil pointer or of math/big; [TooLong] the one of [strings.Repeat] for a string that
    cannot be allocated; [NoResult] an endless loop, or too little fuel. *)
Inductive outcome (A : Type) := Ret (a : A) | Fails (e : bc_error) | Panic | TooLong | NoResult.
Arguments Ret {A} a.
Arguments Fails {A} e.
Arguments Panic {A}.
Arguments TooLong {A}.
Arguments NoResult {A}.

Definition M (A : Type) : Type := Interpreter -> outcome A * Interpreter.

#[global] Instance M_ret : MRet M := fun A a ip => (Ret a, ip).
#[global] Instance M_bind : MBind M := fun A B f m ip =>
  match m ip with
  | (Ret a, ip) => f a ip
  | (Fails e, ip) => (Fails e, ip)
  | (Panic, ip) => (Panic, ip)
  | (TooLong, ip) => (TooLong, ip)
  | (NoResult, ip) => (NoResult, ip)
  end.

Definition fails {A} (e : bc_error) : M A := fun ip => (Fails e, ip).
Definition panics {A} : M A := fun ip => (Panic, ip).
Definition too_long {A} : M A := fun ip => (TooLong, ip).
Definition no_result {A} : M A := fun ip => (NoResult, ip).
Definition get {A} (f : Interpreter -> A) : M A := fun ip => (Ret (f ip), ip).
Definition change (f : Interpreter -> Interpreter) : M unit := fun ip => (Ret tt, f ip).

(** What math/big and the printing loop may do. *)
Definition lift {A} (r : result num_failure A) : M A :=
  match r with
  | Ok a => mret a
  | Err DivisionPanic => panics
  | Err TooLongString => too_long
  | Err Endless => no_result
  end.

(** [v.Rat] where the source uses it unchecked: nil unless the value is a number. *)
Definition rat_of (v : BcVal) : M Q := match v with ValNum r _ _ => mret r | _ => panics end.

Inductive FlowControl := FlowNormal | FlowReturn (val : BcVal) | FlowBreak | FlowContinue.

(** * Operators *)

Definition truth (b : bool) : Q := if b then 1%Q else 0%Q.

Definition compare_op (op : TokenType) (l r : BcVal) (lr rr : Q) : option bool :=
  match op with
  | TokEq => Some (match ratCmp lr rr with Eq => true | _ => false end)
  | TokNe => Some (match ratCmp lr rr with Eq => false | _ => true end)
  | TokLt => Some (match ratCmp lr rr with Lt => true | _ => false end)
  | TokLe => Some (match ratCmp lr rr with Gt => false | _ => true end)
  | TokGt => Some (match ratCmp lr rr with Gt => true | _ => false end)
  | TokGe => Some (match ratCmp lr rr with Lt => false | _ => true end)
  | TokAnd => Some (IsTrue l && IsTrue r)
  | TokOr => Some (IsTrue l || IsTrue r)
  | _ => None
  end.

(** A result cut at a scale; zero has none. *)
Definition truncated (res : Q) (resScale : Z) : BcVal :=
  let res := RatTruncate res resScale in
  newValNum res (if Sign res =? 0 then 0 else resScale).

Definition mul_scale (scale ls rs : Z) : Z :=
  let maxInherent := if ls <? rs then rs else ls in
  let limit := if scale <? maxInherent then maxInherent else scale in
  let resScale := wrap 64 (ls + rs) in
  if limit <? resScale then limit else resScale.

Definition power_scale (scale ls exponent : Z) : Z :=
  let resScale := wrap 64 (ls * exponent) in
  let limit := if scale <? ls then ls else scale in
  if limit <? resScale then limit else resScale.

(** A binary operator on two numbers, with the value of [scale]. *)
Definition binary_op (op : TokenType) (scale : Z) (l r : BcVal) (lr rr : Q) (ls rs : Z) : result bc_error BcVal :=
  match op with
  | TokPlus => Ok (newValNum (ratAdd lr rr) (if ls <? rs then rs else ls))
  | TokMinus => Ok (newValNum (ratSub lr rr) (if ls <? rs then rs else ls))
  | TokMul => Ok (truncated (ratMul lr rr) (mul_scale scale ls rs))
  | TokDiv => if Sign rr =? 0 then Err DivisionByZero else Ok (truncated (ratQuo lr rr) scale)
  | TokMod =>
      if Sign rr =? 0 then Err ModuloByZero
      else
        let divTruncated := RatTruncate (ratQuo lr rr) scale in
        let resScale := wrap 64 (scale + rs) in
        Ok (truncated (ratSub lr (ratMul rr divTruncated)) (if resScale <? ls then ls else resScale))
  | TokPower =>
      let exponent := RatToInt64 rr in
      let res := ratPower lr exponent in
      let resScale := if Sign res =? 0 then 0 else if exponent <? 0 then scale else power_scale scale ls exponent in
      Ok (truncated res resScale)
  | _ =>
      match compare_op op l r lr rr with
      | Some b => Ok (newValNum (truth b) 0)
      | None => Err UnrecognizedBinary
      end
  end.

Definition unary_op (op : TokenType) (v : BcVal) : result bc_error BcVal :=
  match v with
  | ValNum r s neg =>
      match op with
      | TokMinus => Ok (newValNumNeg (Qopp r) s (negb neg))
      | TokPlus => Ok (newValNumNeg r s neg)
      | TokNot => Ok (newValNumNeg (truth (negb (IsTrue v))) s false)
      | _ => Err UnrecognizedUnary
      end
  | _ => Err UnaryNonNumeric
  end.

Definition from_result {A} (r : result bc_error A) : M A := match r with Ok a => mret a | Err e => fails e end.

(** ** Registers *)

Definition clamp_ibase (v : Z) : Z := let v := if v <? 2 then 2 else v in if 36 <? v then 36 else v.

(** The special variables: their value, and their assignment. *)
Definition get_register (name : string) (ip : Interpreter) : option BcVal :=
  if name =s? "scale" then Some (number_of (Scale ip))
  else if name =s? "ibase" then Some (number_of (Ibase ip))
  else if name =s? "obase" then Some (number_of (Obase ip))
  else if name =s? "last" then Some (Last ip)
  else None.

Definition set_register (name : string) (v : BcVal) (r : Q) (ip : Interpreter) : option Interpreter :=
  let n := RatToInt64 r in
  if name =s? "scale" then Some (set_registers n (Ibase ip) (Obase ip) (Last ip) ip)
  else if name =s? "ibase" then Some (set_registers (Scale ip) (clamp_ibase n) (Obase ip) (Last ip) ip)
  else if name =s? "obase" then Some (set_registers (Scale ip) (Ibase ip) n (Last ip) ip)
  else if name =s? "last" then Some (set_registers (Scale ip) (Ibase ip) (Obase ip) v ip)
  else None.

Definition get_var (name : string) (ip : Interpreter) : BcVal := default (Get name ip) (get_register name ip).

Definition set_var (name : string) (v : BcVal) (r : Q) (ip : Interpreter) : Interpreter :=
  default (Set_ name v ip) (set_register name v r ip).

(** [arrayLength]: the largest index and one. *)
Definition arrayLength (arr : array) : Z :=
  foldr Z.max (-1) (omap Atoi (map fst (map_to_list arr))) + 1.

(** * Evaluation *)

Section Interpreter.
(** The digits of other bases (BcNum.v), and the line length: 70, or what BC_LINE_LENGTH says. *)
Variable places : Z -> Z -> Z.
Variable lineLength : Z.

Definition print_number (r : Q) (scale : Z) (isNeg : bool) : M unit :=
  obase ← get Obase;
  s ← lift (formatRat places r obase scale isNeg);
  change (write (printWrapped lineLength s)).

(** Each argument in order. *)
Fixpoint map_eval (ev : Expr -> M BcVal) (es : list Expr) : M (list BcVal) :=
  match es with
  | [] => mret []
  | e :: es => v ← ev e; vs ← map_eval ev es; mret (v :: vs)
  end.

(** *** Calls *)

(** A parameter and the value of its argument, in the scope of the call. *)
Definition bind_param (p : string * (bool * bool)) (v : BcVal) (sc : Scope) (ip : Interpreter) : Scope * Interpreter :=
  let '(name, (isArray, isRef)) := p in
  if isArray : bool then
    match v with
    | ValArrayRef a =>
        if isRef : bool then (insert_array name a sc, ip)
        else let '(b, ip) := alloc (array_at a ip) ip in (insert_array name b sc, ip)
    | _ => let '(b, ip) := alloc ∅ ip in (insert_array name b sc, ip)
    end
  else (insert_var name v sc, ip).

Fixpoint bind_params (ps : list (string * (bool * bool))) (vs : list BcVal) (sc : Scope) (ip : Interpreter) :
    Scope * Interpreter :=
  match ps, vs with
  | p :: ps, v :: vs => let '(sc, ip) := bind_param p v sc ip in bind_params ps vs sc ip
  | _, _ => (sc, ip)
  end.

Fixpoint auto_arrays (names : list string) (sc : Scope) (ip : Interpreter) : Scope * Interpreter :=
  match names with
  | [] => (sc, ip)
  | name :: names => let '(a, ip) := alloc ∅ ip in auto_arrays names (insert_array name a sc) ip
  end.

(** The parameters, each with whether it is an array and whether a reference. *)
Definition params_of (decl : FuncDecl) : list (string * (bool * bool)) :=
  imap (fun idx name => (name, (nth idx (ParamArrays decl) false, nth idx (ParamRefs decl) false))) (Params decl).

(** The scope of a call. *)
Definition call_scope (decl : FuncDecl) (args : list BcVal) (ip : Interpreter) : Scope * Interpreter :=
  let '(sc, ip) := bind_params (params_of decl) args NewScope ip in
  auto_arrays (AutoArrays decl) (foldl (fun sc name => insert_var name zero_val sc) sc (Autos decl)) ip.

Definition returned (void : bool) (flow : FlowControl) : BcVal :=
  if void then ValVoid
  else match flow with FlowReturn ValVoid => zero_val | FlowReturn v => v | _ => zero_val end.

(** The call once the arguments are evaluated. *)
Definition enter (ex : Stmt -> M FlowControl) (decl : FuncDecl) (args : list BcVal) : M BcVal := fun ip =>
  let prevScope := Locals ip in
  let '(newScope, ip) := call_scope decl args ip in
  let '(res, ip) := ex (Body decl) (set_locals (Some newScope) ip) in
  let ip := set_locals prevScope ip in
  match res with
  | Ret flow => (Ret (returned (Void decl) flow), ip)
  | Fails e => (Fails e, ip)
  | Panic => (Panic, ip)
  | TooLong => (TooLong, ip)
  | NoResult => (NoResult, ip)
  end.

Definition call_user (ev : Expr -> M BcVal) (ex : Stmt -> M FlowControl) (name : string) (args : list Expr) : M BcVal :=
  fs ← get Functions;
  match fs !! name with
  | None => fails (UndefinedFunction name)
  | Some decl =>
      if negb (length args =? length (Params decl))%nat then
        fails (ArgumentCount name (Z.of_nat (length (Params decl))) (Z.of_nat (length args)))
      else argVals ← map_eval ev args; enter ex decl argVals
  end.

(** *** Built-in functions *)

(** The only argument. *)
Definition one_arg (ev : Expr -> M BcVal) (name : string) (args : list Expr) : M BcVal :=
  match args with [e] => ev e | _ => fails (BuiltinArguments name) end.

Definition call_length (v : BcVal) : M BcVal :=
  match v with
  | ValArrayRef a => arr ← get (array_at a); mret (number_of (arrayLength arr))
  | _ => r ← rat_of v; n ← lift (valLength places r (scale_of v)); mret (number_of n)
  end.

Definition call_sqrt (v : BcVal) : M BcVal :=
  r ← rat_of v;
  scale ← get Scale;
  match valSqrt r (scale_of v) scale with
  | Some (root, s) => mret (newValNum root s)
  | None => fails SqrtOfNegative
  end.

(** The line that [ReadString] gives and the rest, and whether the end was reached. *)
Definition read_line (t : string) : string * string * bool :=
  let '(l, rest) := str_span (fun c => negb (code c =? 10)) t in
  match rest with "" => (l, "", true) | String _ rest => (l, rest, false) end.

(** The statements of a line that [read] gets: the value of the last expression. *)
Fixpoint read_stmts (ev : Expr -> M BcVal) (ex : Stmt -> M FlowControl) (stmts : list Stmt) (finalVal : BcVal) : M BcVal :=
  match stmts with
  | [] => mret finalVal
  | ExprStmt e :: stmts => v ← ev e; read_stmts ev ex stmts v
  | st :: stmts => _ ← ex st; read_stmts ev ex stmts finalVal
  end.

Definition call_read (ev : Expr -> M BcVal) (ex : Stmt -> M FlowControl) (args : list Expr) : M BcVal :=
  match args with
  | _ :: _ => fails (BuiltinArguments "read")
  | [] =>
      input ← get stdin;
      match input with
      | None => mret zero_val
      | Some t =>
          let '(l, rest, eof) := read_line t in
          _ ← change (set_stdin (Some rest));
          let l := TrimSpace l in
          if (l =s? "") && eof then mret zero_val
          else
            match parse_text l with
            | Err e => fails (ReadSyntax e)
            | Ok stmts => read_stmts ev ex stmts zero_val
            end
      end
  end.

Definition call (ev : Expr -> M BcVal) (ex : Stmt -> M FlowControl) (name : string) (args : list Expr) : M BcVal :=
  if name =s? "length" then v ← one_arg ev name args; call_length v
  else if name =s? "scale" then v ← one_arg ev name args; mret (number_of (scale_of v))
  else if name =s? "sqrt" then v ← one_arg ev name args; call_sqrt v
  else if name =s? "read" then call_read ev ex args
  else call_user ev ex name args.

(** *** Expressions *)

(** The index of an array element as a key; the evaluation of no expression is void. *)
Definition eval_index (ev : Expr -> M BcVal) (index : option Expr) : M string :=
  v ← match index with Some e => ev e | None => mret ValVoid end;
  r ← rat_of v;
  mret (idxString r).

Definition assign (ev : Expr -> M BcVal) (lhs : Expr) (rhsVal : BcVal) : M BcVal :=
  match rhsVal with
  | ValNum r _ _ =>
      match lhs with
      | VarExpr name => _ ← change (set_var name rhsVal r); mret rhsVal
      | ArrayAccessExpr name index =>
          idx ← eval_index ev index; _ ← change (SetArray name idx rhsVal); mret rhsVal
      | _ => fails InvalidLhs
      end
  | _ => fails AssignNonNumeric
  end.

(** The target of an increment: its name and, for an array element, its index. *)
Definition increment_target (ev : Expr -> M BcVal) (e : Expr) : M (string * option string) :=
  match e with
  | VarExpr name => mret (name, None)
  | ArrayAccessExpr name index => idx ← eval_index ev index; mret (name, Some idx)
  | _ => fails InvalidIncrement
  end.

Definition incremented (op : TokenType) (r : Q) : Q :=
  match op with TokInc => ratAdd r 1%Q | _ => ratSub r 1%Q end.

Definition increment (ev : Expr -> M BcVal) (op : TokenType) (e : Expr) (postIncDec : bool) : M BcVal :=
  '(name, idx) ← increment_target ev e;
  special ← get (get_register name);
  match special with
  | Some curr =>
      r ← rat_of curr;
      let next := incremented op r in
      let nextVal := newValNum next 0 in
      _ ← change (fun ip => default ip (set_register name nextVal next ip));
      mret (if postIncDec then curr else nextVal)
  | None =>
      curr ← get (match idx with Some idx => GetArray name idx | None => Get name end);
      r ← rat_of curr;
      let nextVal := newValNum (incremented op r) (scale_of curr) in
      _ ← change (match idx with Some idx => SetArray name idx nextVal | None => Set_ name nextVal end);
      mret (if postIncDec then curr else nextVal)
  end.

Definition binary (op : TokenType) (l r : BcVal) : M BcVal :=
  match l, r with
  | ValNum lr ls _, ValNum rr rs _ => scale ← get Scale; from_result (binary_op op scale l r lr rr ls rs)
  | _, _ => fails BinaryNonNumeric
  end.

(** [eval], with the evaluation of parts and the execution of statements as arguments. *)
Definition eval_step (ev : Expr -> M BcVal) (ex : Stmt -> M FlowControl) (e : Expr) : M BcVal :=
  match e with
  | ParenExpr e => ev e
  | NumExpr val => ibase ← get Ibase; mret (newValNum (parseNumberInBase val ibase) (literal_scale val))
  | StringExpr val => mret (ValStr val)
  | VarExpr name => get (get_var name)
  | ArrayAccessExpr name None => fun ip => let '(a, ip) := GetArrayRef name ip in (Ret (ValArrayRef a), ip)
  | ArrayAccessExpr name index => idx ← eval_index ev index; get (GetArray name idx)
  | AssignExpr lhs rhs => rhsVal ← ev rhs; assign ev lhs rhsVal
  | BinaryExpr op lhs rhs => l ← ev lhs; r ← ev rhs; binary op l r
  | UnaryExpr op e postIncDec =>
      if is_incdec op then increment ev op e postIncDec
      else v ← ev e; from_result (unary_op op v)
  | CallExpr name args => call ev ex name args
  end.

(** *** Statements *)

Definition isTopLevelPrintable (e : Expr) : bool := match e with AssignExpr _ _ => false | _ => true end.

Definition print_value (e : Expr) (v : BcVal) : M unit :=
  match v with
  | ValNum r s neg =>
      if isTopLevelPrintable e then
        _ ← change (fun ip => set_registers (Scale ip) (Ibase ip) (Obase ip) v ip);
        _ ← print_number r s neg;
        change (write nl)
      else mret tt
  | ValStr s => if isTopLevelPrintable e then change (write s) else mret tt
  | _ => mret tt
  end.

(** The escapes of a string that print writes. *)
Fixpoint unescape (rs : list Z) : list Z :=
  match rs with
  | c :: ((next :: t) as r) =>
      if isc c "\" then
        (if isc next "a" then 7 else if isc next "b" then 8 else if isc next "f" then 12
         else if isc next "n" then 10 else if isc next "r" then 13 else if isc next "t" then 9
         else if next =? 34 then 34 else 92) :: unescape t
      else c :: unescape r
  | _ => rs
  end.

Definition unescapeBcString (s : string) : string := string_of_runes (unescape (runes s)).

Definition print_arg (v : BcVal) : M unit :=
  match v with
  | ValNum r s neg => print_number r s neg
  | ValStr s => change (write (unescapeBcString s))
  | _ => mret tt
  end.

Fixpoint print_each (ev : Expr -> M BcVal) (es : list Expr) : M unit :=
  match es with
  | [] => mret tt
  | e :: es => v ← ev e; _ ← print_arg v; print_each ev es
  end.

Fixpoint exec_block (ex : Stmt -> M FlowControl) (stmts : list Stmt) : M FlowControl :=
  match stmts with
  | [] => mret FlowNormal
  | st :: stmts => res ← ex st; match res with FlowNormal => exec_block ex stmts | _ => mret res end
  end.

(** The execution of a statement that may be nil. *)
Definition exec_opt (ex : Stmt -> M FlowControl) (st : option Stmt) : M FlowControl :=
  match st with Some st => ex st | None => mret FlowNormal end.

Definition eval_opt (ev : Expr -> M BcVal) (e : option Expr) : M unit :=
  match e with Some e => _ ← ev e; mret tt | None => mret tt end.

(** [execStmt]; a turn of a loop executes the loop again. *)
Definition exec_step (ev : Expr -> M BcVal) (ex : Stmt -> M FlowControl) (st : Stmt) : M FlowControl :=
  match st with
  | DefineStmt d => _ ← change (define d); mret FlowNormal
  | ExprStmt e => v ← ev e; _ ← print_value e v; mret FlowNormal
  | BlockStmt stmts => exec_block ex stmts
  | IfStmt cond then_ else_ => condVal ← ev cond; exec_opt ex (if IsTrue condVal then then_ else else_)
  | WhileStmt cond body =>
      condVal ← ev cond;
      if negb (IsTrue condVal) then mret FlowNormal
      else
        res ← exec_opt ex body;
        match res with
        | FlowReturn _ => mret res
        | FlowBreak => mret FlowNormal
        | _ => ex (WhileStmt cond body)
        end
  | ForStmt init cond step body =>
      _ ← eval_opt ev init;
      go ← match cond with Some cond => condVal ← ev cond; mret (IsTrue condVal) | None => mret true end;
      if negb go then mret FlowNormal
      else
        res ← exec_opt ex body;
        match res with
        | FlowReturn _ => mret res
        | FlowBreak => mret FlowNormal
        | _ => _ ← eval_opt ev step; ex (ForStmt None cond step body)
        end
  | ReturnStmt None => mret (FlowReturn ValVoid)
  | ReturnStmt (Some e) => v ← ev e; mret (FlowReturn v)
  | BreakStmt => mret FlowBreak
  | ContinueStmt => mret FlowContinue
  | HaltStmt => _ ← change set_halted; mret FlowNormal
  | PrintStmt args => _ ← print_each ev args; mret FlowNormal
  end.

Fixpoint eval (fuel : nat) (e : Expr) : M BcVal :=
  match fuel with
  | O => no_result
  | S fuel => eval_step (eval fuel) (execStmt fuel) e
  end
with execStmt (fuel : nat) (st : Stmt) : M FlowControl :=
  match fuel with
  | O => no_result
  | S fuel => exec_step (eval fuel) (execStmt fuel) st
  end.

(** [ip.Execute] *)
Fixpoint Execute (fuel : nat) (stmts : list Stmt) : M unit :=
  match stmts with
  | [] => mret tt
  | st :: stmts =>
      halted ← get Halted;
      if halted : bool then mret tt else _ ← execStmt fuel st; Execute fuel stmts
  end.

(** * The utility *)

Definition initial (input : option string) (mathLib : bool) : Interpreter :=
  {| Globals := NewScope; Locals := None; heap := []; Functions := ∅; Scale := if mathLib then 20 else 0;
     Ibase := 10; Obase := 10; stdin := input; Halted := false; Last := zero_val; written := "" |}.

Inductive run_error :=
| ProgramSyntax (e : bc_syntax) | LibrarySyntax (e : bc_syntax) | Library (e : bc_error) | Runtime (e : bc_error).

Section Library.
(** The text of the mathematical library. *)
Variable MathLibSource : string.

(** [NewInterpreter]: the state the program starts in. *)
Definition NewInterpreter (fuel : nat) (input : option string) (mathLib : bool) :
    outcome (option run_error) * Interpreter :=
  let ip := initial input mathLib in
  if mathLib then
    match parse_text MathLibSource with
    | Err e => (Ret (Some (LibrarySyntax e)), ip)
    | Ok stmts =>
        match Execute fuel stmts ip with
        | (Ret _, ip) => (Ret None, ip)
        | (Fails e, ip) => (Ret (Some (Library e)), ip)
        | (Panic, ip) => (Panic, ip)
  | (TooLong, ip) => (TooLong, ip)
        | (NoResult, ip) => (NoResult, ip)
        end
    end
  else (Ret None, ip).

(** [Run]: what it returns, and the state with what it wrote. *)
Definition Run (fuel : nat) (program : string) (input : option string) (mathLib : bool) :
    outcome (option run_error) * Interpreter :=
  match parse_text program with
  | Err e => (Ret (Some (ProgramSyntax e)), initial input mathLib)
  | Ok stmts =>
      match NewInterpreter fuel input mathLib with
      | (Ret None, ip) =>
          match Execute fuel stmts ip with
          | (Ret _, ip) => (Ret None, ip)
          | (Fails e, ip) => (Ret (Some (Runtime e)), ip)
          | (Panic, ip) => (Panic, ip)
  | (TooLong, ip) => (TooLong, ip)
          | (NoResult, ip) => (NoResult, ip)
          end
      | other => other
      end
  end.

(** ** Messages *)

Definition syntax_text (e : bc_syntax) : string :=
  match e with
  | Expected what => "expected " +:+ what
  | Unexpected t => "unexpected token {" +:+ FormatInt (token_code (Type_ t)) +:+ " " +:+ Val t +:+ "}"
  | RefNotArray => "reference operator * only allowed on array parameters"
  | OutOfFuel => ""
  end.

Definition error_text (e : bc_error) : string :=
  match e with
  | DivisionByZero => "division by zero"
  | ModuloByZero => "modulo by zero"
  | AssignNonNumeric => "cannot assign non-numeric value"
  | InvalidLhs => "invalid left-hand side of assignment"
  | BinaryNonNumeric => "binary operations only supported on numbers"
  | UnrecognizedBinary => "unrecognized binary operator"
  | UnrecognizedUnary => "unrecognized unary operator"
  | InvalidIncrement => "invalid increment target"
  | UnaryNonNumeric => "unary operations only supported on numbers"
  | BuiltinArguments name => name +:+ (if name =s? "read" then "() expects no arguments" else "() expects exactly 1 argument")
  | ArgumentCount name expected got =>
      "function " +:+ name +:+ " expects " +:+ FormatInt expected +:+ " arguments, got " +:+ FormatInt got
  | SqrtOfNegative => "square root of negative number"
  | UndefinedFunction name => "undefined function " +:+ name
  | ReadSyntax e => syntax_text e
  end.

Definition run_text (e : run_error) : string :=
  match e with
  | ProgramSyntax e => syntax_text e
  | LibrarySyntax e => "failed to parse math lib: " +:+ syntax_text e
  | Library e => "failed to execute math lib: " +:+ error_text e
  | Runtime e => error_text e
  end.

(** The lines of the JSON result. *)
Definition bc_lines (output : string) : list string :=
  let lines := split_on (String.length output) output nl in
  if bool_decide (last lines = Some "") then removelast lines else lines.

(** [bcRun] after the options: [operand] is the contents of the file, if one is named.  Without one
    the program is the standard input, and nothing of it is left to read. *)
Definition bcRun (fuel : nat) (jsonMode mathLib : bool) (operand : option string) (input : string) :
    outcome (run_io (list string)) :=
  let '(program, rest) := match operand with Some text => (text, input) | None => (input, "") end in
  let '(res, ip) := Run fuel program (Some rest) mathLib in
  match res with
  | Ret None =>
      Ret {| rc := 0;
             out := if jsonMode then Render "bc" (bc_lines (written ip)) true [] else [CText (written ip)];
             errs := [] |}
  | Ret (Some e) =>
      Ret (if jsonMode then {| rc := 1; out := RenderError "bc" 1 "ERR" (run_text e) true; errs := [] |}
           else {| rc := 1; out := [CText (written ip)]; errs := [CText ("bc: " +:+ run_text e +:+ nl)] |})
  | Fails e => Fails e
  | Panic => Panic
  | TooLong => TooLong
  | NoResult => NoResult
  end.
End Library.
End Interpreter.
