(* ===== verification/BcInvariant.v ===== *)
(** An invariant of the interpreter of bc (Bc.v).

    [good] is an invariant of the interpreter.  It is stated for a set of arrays that contains
    every array a scope or a value refers to: the execution changes no other array, which is how
    the arrays that a call gets by value are shown to stay as they are.  With [strict] the
    invariant is about programs that compute with numbers only, which do not panic. *)

From S2P Require Import Prelude GoStd Utf8 Rat BcSyntax BcNum Bc.

Local Open Scope Z_scope.

(** * Programs on numbers

    Strings are printed and nothing else, arrays are used by their elements, functions have
    results, [read] is not called and [obase] is not assigned. *)

Definition names_obase (e : Expr) : bool :=
  match e with VarExpr name | ArrayAccessExpr name _ => name =s? "obase" | _ => false end.

Definition is_string (e : Expr) : bool := match e with StringExpr _ => true | _ => false end.

Fixpoint numeric (e : Expr) : bool :=
  match e with
  | NumExpr _ | VarExpr _ => true
  | StringExpr _ | ArrayAccessExpr _ None => false
  | ArrayAccessExpr _ (Some i) => numeric i
  | BinaryExpr _ l r => numeric l && numeric r
  | UnaryExpr _ e _ => negb (names_obase e) && numeric e
  | CallExpr name args => negb (name =s? "read") && forallb numeric args
  | AssignExpr l r => negb (names_obase l) && numeric l && numeric r
  | ParenExpr e => numeric e
  end.

Definition printable (e : Expr) : bool := is_string e || numeric e.

Definition opt_all {A} (p : A -> bool) (x : option A) : bool := match x with Some x => p x | None => true end.

Fixpoint numeric_stmt (s : Stmt) : bool :=
  match s with
  | ExprStmt e => printable e
  | BlockStmt l => forallb numeric_stmt l
  | IfStmt c t e => numeric c && opt_all numeric_stmt t && opt_all numeric_stmt e
  | WhileStmt c b => numeric c && opt_all numeric_stmt b
  | ForStmt i c s b => opt_all numeric i && opt_all numeric c && opt_all numeric s && opt_all numeric_stmt b
  | ReturnStmt v => opt_all numeric v
  | BreakStmt | ContinueStmt | HaltStmt => true
  | PrintStmt args => forallb printable args
  | DefineStmt d => negb (Void d) && numeric_stmt (Body d)
  end.

Definition numeric_fun (d : FuncDecl) : bool := negb (Void d) && numeric_stmt (Body d).

(** * Programs without loops and calls *)

Definition builtin (name : string) : bool := (name =s? "length") || (name =s? "scale") || (name =s? "sqrt").

Fixpoint straight (e : Expr) : bool :=
  match e with
  | NumExpr _ | VarExpr _ | StringExpr _ | ArrayAccessExpr _ None => true
  | ArrayAccessExpr _ (Some e) | UnaryExpr _ e _ | ParenExpr e => straight e
  | BinaryExpr _ l r | AssignExpr l r => straight l && straight r
  | CallExpr name args => builtin name && forallb straight args
  end.

Fixpoint straight_stmt (s : Stmt) : bool :=
  match s with
  | ExprStmt e => straight e
  | BlockStmt l => forallb straight_stmt l
  | IfStmt c t e => straight c && opt_all straight_stmt t && opt_all straight_stmt e
  | WhileStmt _ _ | ForStmt _ _ _ _ => false
  | ReturnStmt v => opt_all straight v
  | BreakStmt | ContinueStmt | HaltStmt | DefineStmt _ => true
  | PrintStmt args => forallb straight args
  end.

(** The nesting: the fuel that is enough for such a program. *)
Fixpoint height (e : Expr) : nat :=
  S match e with
    | NumExpr _ | VarExpr _ | StringExpr _ | ArrayAccessExpr _ None => 0
    | ArrayAccessExpr _ (Some e) | UnaryExpr _ e _ | ParenExpr e => height e
    | BinaryExpr _ l r | AssignExpr l r => Nat.max (height l) (height r)
    | CallExpr _ args => list_max (map height args)
    end.

Definition opt_max {A} (f : A -> nat) (x : option A) : nat := match x with Some x => f x | None => 0%nat end.

Fixpoint height_stmt (s : Stmt) : nat :=
  S match s with
    | ExprStmt e => height e
    | BlockStmt l => list_max (map height_stmt l)
    | IfStmt c t e => Nat.max (height c) (Nat.max (opt_max height_stmt t) (opt_max height_stmt e))
    | ReturnStmt v => opt_max height v
    | PrintStmt args => list_max (map height args)
    | _ => 0
    end.

(** * Numbers of the interpreter *)

Lemma int_digits_total b : 2 <= b -> forall fuel n, 0 <= n < 2 ^ Z.of_nat fuel -> exists ds, int_digits fuel n b = Ok ds.
Proof.
  intros Hb. induction fuel as [|fuel IH]; intros n Hn; cbn [int_digits].
  { destruct (Z.ltb_spec 0 n); [simpl in Hn; lia|by eexists]. }
  destruct (Z.ltb_spec 0 n); [|by eexists]. rewrite (proj2 (Z.eqb_neq b 0)), DivMod_pos by lia.
  destruct (IH (n / b)) as [ds ->]; [|by eexists].
  split; [apply Z.div_pos; lia|]. apply Z.div_lt_upper_bound; [lia|].
  rewrite Nat2Z.inj_succ, Z.pow_succ_r in Hn by lia. nia.
Qed.

Lemma formatRat_nonzero places r b s neg : 2 <= b -> Sign r <> 0 -> exists t, formatRat places r b s neg = Ok t.
Proof.
  intros Hb Hr. unfold formatRat. rewrite (proj2 (Z.eqb_neq _ _) Hr). cbv zeta.
  set (n := Z.abs (Num r) / Denom r). assert (0 <= n) as Hn by (apply Z.div_pos; unfold Denom; lia).
  destruct (int_digits_total b Hb _ n (conj Hn (enough_bits n Hn))) as [ds ->]. cbn [res_bind].
  case_match; by eexists.
Qed.

Lemma formatRat_total places r b s neg : 2 <= b -> (exists t, formatRat places r b s neg = Ok t) \/ formatRat places r b s neg = Err TooLongString.
Proof.
  intros Hb. destruct (decide (Sign r = 0)) as [E|E]; [|left; by apply formatRat_nonzero].
  unfold formatRat. rewrite E. cbn [Z.eqb]. case_match; [by right|left; by eexists].
Qed.

Lemma valLength_total places r s : exists n, valLength places r s = Ok n.
Proof.
  unfold valLength. destruct (Z.eqb_spec (Sign r) 0) as [E|E]; [by eexists|].
  destruct (formatRat_nonzero places r 10 s (Sign r <? 0) ltac:(lia) E) as [t ->]. by eexists.
Qed.

Lemma frac_value_reduced b s : forall r p, reduced r -> reduced (frac_value b s r p).
Proof.
  induction s as [|c s IH]; intros r p Hr; [done|]. cbn [frac_value]. cbv zeta.
  case_match; apply IH; [done|apply reduced_Qred].
Qed.

Lemma parseNumberInBase_reduced s b : reduced (parseNumberInBase s b).
Proof. unfold parseNumberInBase. repeat case_match; try apply reduced_opp; apply reduced_Qred. Qed.

Lemma valSqrt_reduced r xs gs root s : valSqrt r xs gs = Some (root, s) -> reduced root.
Proof.
  unfold valSqrt. case_match; [done|]. cbv zeta. case_match; intros [= <- _]; [done|apply reduced_Qred].
Qed.

Lemma truth_reduced b : reduced (truth b).
Proof. by destruct b. Qed.

(** * The invariant *)

Definition num_ok (v : BcVal) : Prop :=
  match v with ValNum r _ neg => reduced r /\ (Sign r < 0 -> neg = true) | _ => False end.

Section Invariant.
Variable strict : bool.
(** The arrays that may be reached. *)
Variable A : nat -> Prop.

Definition ref_ok (n a : nat) : Prop := A a /\ (a < n)%nat.

(** A value, with [n] arrays in the store. *)
Definition val_ok (n : nat) (v : BcVal) : Prop :=
  match v with
  | ValNum _ _ _ => num_ok v
  | ValArrayRef a => strict = false /\ ref_ok n a
  | _ => strict = false
  end.

Definition scope_ok (n : nat) (sc : Scope) : Prop :=
  (forall x v, Vars sc !! x = Some v -> val_ok n v) /\ (forall x a, Arrays sc !! x = Some a -> ref_ok n a).

Record good (ip : Interpreter) : Prop := {
  good_ibase : 2 <= Ibase ip <= 36;
  good_obase : strict = true -> 2 <= Obase ip;
  good_last : num_ok (Last ip);
  good_vars : forall x v, Vars (Globals ip) !! x = Some v -> num_ok v;
  good_arrays : forall x a, Arrays (Globals ip) !! x = Some a -> ref_ok (length (heap ip)) a;
  good_locals : forall sc, Locals ip = Some sc -> scope_ok (length (heap ip)) sc;
  good_heap : Forall (fun arr : array => forall i v, arr !! i = Some v -> num_ok v) (heap ip);
  good_new : forall a, (length (heap ip) <= a)%nat -> A a;
  good_functions : strict = true -> forall f d, Functions ip !! f = Some d -> numeric_fun d = true }.

(** What a step may change. *)
Record evolves (ip ip' : Interpreter) : Prop := {
  ev_heap : (length (heap ip) <= length (heap ip'))%nat;
  ev_frame : forall a, ~ A a -> heap ip' !! a = heap ip !! a;
  ev_written : exists w, written ip' = written ip +:+ w;
  ev_locals : Locals ip = None <-> Locals ip' = None;
  ev_halted : Halted ip = true -> Halted ip' = true }.

#[local] Instance evolves_refl : Reflexive evolves.
Proof. intros ip. constructor; try done. exists "". by rewrite sapp_nil_r. Qed.

#[local] Instance evolves_trans : Transitive evolves.
Proof.
  intros a b c [H1 H2 [w H3] H4 H5] [K1 K2 [w' K3] K4 K5]. constructor.
  - lia.
  - intros x Hx. by rewrite K2, H2.
  - exists (w +:+ w'). by rewrite K3, H3, sapp_assoc.
  - by rewrite H4.
  - auto.
Qed.

Lemma ref_mono n n' a : (n <= n')%nat -> ref_ok n a -> ref_ok n' a.
Proof. intros ? [? ?]. split; [done|lia]. Qed.

Lemma val_mono n n' v : (n <= n')%nat -> val_ok n v -> val_ok n' v.
Proof. destruct v; simpl; try done. intros ? [? ?]. split; [done|]. by eapply ref_mono. Qed.

Lemma scope_mono n n' sc : (n <= n')%nat -> scope_ok n sc -> scope_ok n' sc.
Proof. intros Hn [H1 H2]. split; intros; [eapply val_mono|eapply ref_mono]; eauto. Qed.

Lemma num_val n v : num_ok v -> val_ok n v.
Proof. by destruct v. Qed.

Lemma number_num_ok r s neg : reduced r -> num_ok (newValNumNeg r s neg).
Proof. intros Hr. split; [done|]. intros. rewrite orb_true_iff. right. lia. Qed.

Lemma zero_num_ok : num_ok zero_val.
Proof. apply number_num_ok, reduced_int. Qed.

#[local] Hint Resolve num_val zero_num_ok : core.

(** ** The operations on the state *)

Definition moves (ip ip' : Interpreter) : Prop := good ip' /\ evolves ip ip'.

Definition numbers (arr : array) : Prop := forall i v, arr !! i = Some v -> num_ok v.

Lemma numbers_empty : numbers ∅.
Proof. intros i v H. exfalso. exact (lookup_empty_Some (M := gmap string) i v H). Qed.

Lemma moves_refl ip : good ip -> moves ip ip.
Proof. split; [done|reflexivity]. Qed.

Lemma moves_trans a b c : moves a b -> (good b -> moves b c) -> moves a c.
Proof. intros [Hg He] H. destruct (H Hg) as [Hg' He']. split; [done|]. by transitivity b. Qed.

Lemma change_scopes ip g l h : good ip -> (length (heap ip) <= length h)%nat ->
  (forall a, ~ A a -> h !! a = heap ip !! a) -> Forall numbers h ->
  (forall x v, Vars g !! x = Some v -> num_ok v) -> (forall x a, Arrays g !! x = Some a -> ref_ok (length h) a) ->
  (forall sc, l = Some sc -> scope_ok (length h) sc) -> (Locals ip = None <-> l = None) ->
  moves ip (set_scopes g l h ip).
Proof.
  intros Hg Hn Hf Hh Hv Ha Hl Hs. split.
  - destruct Hg. constructor; simpl; try done. intros a Hx. apply good_new0. lia.
  - constructor; simpl; try done. exists "". by rewrite sapp_nil_r.
Qed.

Lemma change_registers ip s i o last : good ip -> 2 <= i <= 36 -> (strict = true -> 2 <= o) -> num_ok last ->
  moves ip (set_registers s i o last ip).
Proof.
  intros Hg Hi Ho Hl. split; [destruct Hg; by constructor|].
  constructor; simpl; try done. exists "". by rewrite sapp_nil_r.
Qed.

Lemma change_written ip w : good ip -> moves ip (write w ip).
Proof. intros Hg. split; [destruct Hg; by constructor|]. constructor; simpl; try done. by exists w. Qed.

Lemma change_stdin ip t : good ip -> moves ip (set_stdin t ip).
Proof. intros Hg. split; [destruct Hg; by constructor|]. constructor; simpl; try done. exists "". by rewrite sapp_nil_r. Qed.

Lemma change_halted ip : good ip -> moves ip (set_halted ip).
Proof. intros Hg. split; [destruct Hg; by constructor|]. constructor; simpl; try done. exists "". by rewrite sapp_nil_r. Qed.

Lemma change_define ip d : good ip -> (strict = true -> numeric_fun d = true) -> moves ip (define d ip).
Proof.
  intros Hg Hd. split.
  - destruct Hg. constructor; simpl; try done. intros Hs f e. rewrite lookup_insert_Some. intros [[_ <-]|[_ H]]; eauto.
  - constructor; simpl; try done. exists "". by rewrite sapp_nil_r.
Qed.

Lemma current_ok ip : good ip -> scope_ok (length (heap ip)) (current ip).
Proof.
  intros Hg. unfold current. destruct (Locals ip) as [sc|] eqn:E; [by apply (good_locals ip)|]. simpl.
  split; [intros; by eapply num_val, (good_vars ip)|apply (good_arrays ip Hg)].
Qed.

(** Another content of the current scope, and of the store. *)
Lemma change_current ip sc h : good ip -> (length (heap ip) <= length h)%nat ->
  (forall a, ~ A a -> h !! a = heap ip !! a) -> Forall numbers h -> scope_ok (length h) sc ->
  (Locals ip = None -> forall x v, Vars sc !! x = Some v -> num_ok v) ->
  moves ip (with_current sc (set_heap h ip)).
Proof.
  intros Hg Hn Hf Hh Hs Hv. unfold with_current. destruct (Locals (set_heap h ip)) as [l|] eqn:E; simpl in E.
  - change (moves ip (set_scopes (Globals ip) (Some sc) h ip)). apply change_scopes; try done.
    + apply (good_vars ip Hg).
    + intros. by eapply ref_mono, (good_arrays ip).
    + by intros ? [= <-].
    + by rewrite E.
  - change (moves ip (set_scopes sc None h ip)). apply change_scopes; try done; [by apply Hv|apply Hs].
Qed.

Lemma insert_var_ok n x v sc : scope_ok n sc -> val_ok n v -> scope_ok n (insert_var x v sc).
Proof. intros [H1 H2] Hv. split; [|done]. intros y w. simpl. rewrite lookup_insert_Some. intros [[_ <-]|[_ H]]; eauto. Qed.

Lemma insert_array_ok n x a sc : scope_ok n sc -> ref_ok n a -> scope_ok n (insert_array x a sc).
Proof. intros [H1 H2] Hv. split; [done|]. intros y w. simpl. rewrite lookup_insert_Some. intros [[_ <-]|[_ H]]; eauto. Qed.

Lemma Get_ok name ip : good ip -> val_ok (length (heap ip)) (Get name ip).
Proof.
  intros Hg. unfold Get. destruct (Vars (current ip) !! name) as [v|] eqn:E; [by eapply (current_ok ip Hg)|].
  destruct (Vars (Globals ip) !! name) as [v|] eqn:E'; simpl; [by eapply num_val, (good_vars ip)|].
  exact zero_num_ok.
Qed.

Lemma array_at_ok a ip : good ip -> numbers (array_at a ip).
Proof.
  intros Hg. unfold array_at. destruct (heap ip !! a) as [arr|] eqn:E; simpl; [|by intros ? ? ?].
  exact (Forall_lookup_1 _ _ _ _ (good_heap ip Hg) E).
Qed.

Lemma GetArray_ok name i ip : good ip -> num_ok (GetArray name i ip).
Proof.
  intros Hg. unfold GetArray. case_match; [|apply zero_num_ok].
  destruct (array_at _ ip !! i) eqn:E; simpl; [by eapply array_at_ok|apply zero_num_ok].
Qed.

Lemma get_register_ok name ip v : good ip -> get_register name ip = Some v -> num_ok v.
Proof.
  intros Hg. unfold get_register. repeat case_match; intros [= <-]; try apply number_num_ok, reduced_int.
  apply (good_last ip Hg).
Qed.

Lemma get_var_ok name ip : good ip -> val_ok (length (heap ip)) (get_var name ip).
Proof.
  intros Hg. unfold get_var. destruct (get_register name ip) as [v|] eqn:E; simpl.
  - by eapply num_val, get_register_ok.
  - by apply Get_ok.
Qed.

Lemma with_current_id sc ip : with_current sc ip = with_current sc (set_heap (heap ip) ip).
Proof. by destruct ip. Qed.

Lemma Set_ok name v ip : good ip -> num_ok v -> moves ip (Set_ name v ip).
Proof.
  intros Hg Hv. assert (moves ip (with_current (insert_var name v (current ip)) ip)) as Hc.
  { rewrite with_current_id. apply change_current; try done; [apply (good_heap ip Hg)|by apply insert_var_ok; [apply current_ok|apply num_val]|].
    intros E x w. unfold current. rewrite E. simpl. rewrite lookup_insert_Some. intros [[_ <-]|[_ H]]; [done|by eapply (good_vars ip)]. }
  unfold Set_. case_match; [done|]. case_match; [|done]. apply change_scopes; try done.
  - apply (good_heap ip Hg).
  - intros x w. simpl. rewrite lookup_insert_Some. intros [[_ <-]|[_ H1]]; [done|by eapply (good_vars ip)].
  - apply (good_arrays ip Hg).
  - apply (good_locals ip Hg).
Qed.

Lemma set_var_ok name v ip : good ip -> num_ok v -> (strict = true -> (name =s? "obase") = false) ->
  forall r, moves ip (set_var name v r ip).
Proof.
  intros Hg Hv Ho r. pose proof (good_ibase ip Hg). pose proof (good_obase ip Hg). pose proof (good_last ip Hg).
  unfold set_var, set_register. repeat case_match; simpl; try (by apply Set_ok); apply change_registers; try done.
  - unfold clamp_ibase. repeat case_match; lia.
  - intros Hs. specialize (Ho Hs). congruence.
Qed.

(** The store with one more array. *)
Lemma alloc_frame ip arr a : good ip -> ~ A a -> (heap ip ++ [arr]) !! a = heap ip !! a.
Proof.
  intros Hg Ha. apply lookup_app_l. destruct (le_lt_dec (length (heap ip)) a) as [Hl|]; [|done].
  destruct Ha. by apply (good_new ip Hg).
Qed.

Lemma alloc_numbers ip arr : good ip -> numbers arr -> Forall numbers (heap ip ++ [arr]).
Proof. intros Hg Ha. apply Forall_app. split; [apply (good_heap ip Hg)|by apply Forall_singleton]. Qed.

Lemma alloc_moves ip arr : good ip -> numbers arr ->
  moves ip (set_heap (heap ip ++ [arr]) ip) /\ ref_ok (length (heap ip ++ [arr])) (length (heap ip)).
Proof.
  intros Hg Ha. rewrite length_app. simpl. split.
  - apply change_scopes; try done; try rewrite length_app; simpl.
    + lia.
    + intros a Hx. by apply alloc_frame.
    + by apply alloc_numbers.
    + apply (good_vars ip Hg).
    + intros. eapply ref_mono; [|by eapply (good_arrays ip)]. lia.
    + intros. eapply scope_mono; [|by eapply (good_locals ip)]. lia.
  - split; [by apply (good_new ip Hg)|lia].
Qed.

Lemma find_array_ok name ip a : good ip -> find_array name ip = Some a -> ref_ok (length (heap ip)) a.
Proof.
  intros Hg. unfold find_array. destruct (Arrays (current ip) !! name) eqn:E.
  - intros [= <-]. by eapply (current_ok ip Hg).
  - apply (good_arrays ip Hg).
Qed.

Lemma GetArrayRef_ok name ip : good ip ->
  let '(a, ip') := GetArrayRef name ip in moves ip ip' /\ ref_ok (length (heap ip')) a.
Proof.
  intros Hg. unfold GetArrayRef. destruct (find_array name ip) as [a|] eqn:E.
  { split; [by apply moves_refl|by eapply find_array_ok]. }
  unfold alloc. destruct (alloc_moves ip ∅ Hg numbers_empty) as [[Hg' He] Hr].
  assert (length (heap (with_current (insert_array name (length (heap ip)) (current (set_heap (heap ip ++ [∅]) ip)))
    (set_heap (heap ip ++ [∅]) ip))) = length (heap ip ++ [∅])) as ->.
  { unfold with_current. by case_match. }
  split; [|done]. apply change_current; try done.
  - rewrite length_app. lia.
  - intros a Ha. by apply alloc_frame.
  - apply alloc_numbers; [done|apply numbers_empty].
  - apply insert_array_ok; [|done]. apply (current_ok _ Hg').
  - intros El x v. simpl. unfold current. simpl. rewrite El. apply (good_vars ip Hg).
Qed.

Lemma SetArray_ok name i v ip : good ip -> num_ok v -> moves ip (SetArray name i v ip).
Proof.
  intros Hg Hv. unfold SetArray. pose proof (GetArrayRef_ok name ip Hg) as H.
  destruct (GetArrayRef name ip) as [a ip']. destruct H as [Hm [Ha Hr]].
  apply (moves_trans _ _ _ Hm). intros Hg'. apply change_scopes; try done; try rewrite length_insert.
  - done.
  - intros b Hb. apply list_lookup_insert_ne. by intros ->.
  - apply Forall_insert; [apply (good_heap ip' Hg')|]. intros j w E.
    apply (lookup_insert_Some (M := gmap string)) in E as [[_ <-]|[_ E]]; [done|by eapply array_at_ok].
  - apply (good_vars ip' Hg').
  - apply (good_arrays ip' Hg').
  - apply (good_locals ip' Hg').
Qed.

(** ** Results of the operators *)

Lemma truncated_num r s : num_ok (truncated r s).
Proof. apply number_num_ok, RatTruncate_reduced. Qed.

Lemma binary_op_num op k l r lr rr ls rs v : binary_op op k l r lr rr ls rs = Ok v -> num_ok v.
Proof.
  assert (forall o, match o with Some b => Ok (newValNum (truth b) 0) | None => Err UnrecognizedBinary end = Ok v ->
    num_ok v) as Hc by (intros [b|]; [|done]; intros [= <-]; apply number_num_ok, truth_reduced).
  unfold binary_op. destruct op; try (apply Hc); repeat case_match; intros [= <-];
    first [apply truncated_num|apply number_num_ok, reduced_Qred].
Qed.

Lemma unary_op_num op v w : num_ok v -> unary_op op v = Ok w -> num_ok w.
Proof.
  destruct v as [r s neg| | |]; try done. intros [Hr _].
  unfold unary_op. destruct op; intros [= <-]; apply number_num_ok; [done|by apply reduced_opp|apply truth_reduced].
Qed.

Lemma incremented_reduced op r : reduced (incremented op r).
Proof. unfold incremented. case_match; apply reduced_Qred. Qed.

(** ** Steps that keep the invariant *)

Section Steps.
(** Whether a step may fail to give a result. *)
Variable nores : Prop.
Hypothesis loose : strict = false -> nores.

Definition fits {T} (R : nat -> T -> Prop) (o : outcome T) (n : nat) : Prop :=
  match o with Ret x => R n x | Fails _ => True | Panic => strict = false | TooLong => True | NoResult => nores end.

Definition ok_at {T} (R : nat -> T -> Prop) (m : M T) (ip : Interpreter) : Prop :=
  moves ip (snd (m ip)) /\ fits R (fst (m ip)) (length (heap (snd (m ip)))).

Definition keeps {T} (R : nat -> T -> Prop) (m : M T) : Prop := forall ip, good ip -> ok_at R m ip.

Lemma ok_bind {T U} (Q : nat -> T -> Prop) (R : nat -> U -> Prop) (m : M T) (f : T -> M U) ip :
  ok_at Q m ip -> (forall x ip', good ip' -> evolves ip ip' -> Q (length (heap ip')) x -> ok_at R (f x) ip') ->
  ok_at R (m ≫= f) ip.
Proof.
  intros [Hm Hf] H. unfold ok_at, mbind, M_bind. destruct (m ip) as [[x|e| | |] ip']; simpl in *; try by split.
  destruct Hm as [Hg He]. destruct (H x ip' Hg He Hf) as [[Hg' He'] Hf']. split; [|done]. split; [done|].
  by transitivity ip'.
Qed.

Lemma ok_ret {T} (R : nat -> T -> Prop) x ip : good ip -> R (length (heap ip)) x -> ok_at R (mret x) ip.
Proof. split; [by apply moves_refl|done]. Qed.

Lemma ok_fails {T} (R : nat -> T -> Prop) e ip : good ip -> ok_at R (fails e) ip.
Proof. split; [by apply moves_refl|done]. Qed.

Lemma ok_get {T} (R : nat -> T -> Prop) f ip : good ip -> R (length (heap ip)) (f ip) -> ok_at R (get f) ip.
Proof. split; [by apply moves_refl|done]. Qed.

Lemma bind_get {T U} (R : nat -> U -> Prop) f (k : T -> M U) ip : ok_at R (k (f ip)) ip -> ok_at R (get f ≫= k) ip.
Proof. done. Qed.

Lemma ok_change (R : nat -> unit -> Prop) f ip : moves ip (f ip) -> R (length (heap (f ip))) tt -> ok_at R (change f) ip.
Proof. done. Qed.

Lemma bind_change {U} (R : nat -> U -> Prop) f (k : unit -> M U) ip : moves ip (f ip) ->
  (good (f ip) -> ok_at R (k tt) (f ip)) -> ok_at R (change f ≫= k) ip.
Proof.
  intros [Hg He] H. destruct (H Hg) as [[Hg' He'] Hf]. split; [|done]. split; [done|]. by transitivity (f ip).
Qed.

Lemma ok_conseq {T} (Q R : nat -> T -> Prop) m ip : (forall n x, Q n x -> R n x) -> ok_at Q m ip -> ok_at R m ip.
Proof. intros H [Hm Hf]. split; [done|]. revert Hf. unfold fits. case_match; auto. Qed.

Lemma ok_lift {T} (R : nat -> T -> Prop) r ip : good ip -> (strict = true -> (exists x, r = Ok x) \/ r = Err TooLongString) ->
  (forall x, r = Ok x -> R (length (heap ip)) x) -> ok_at R (lift r) ip.
Proof.
  intros Hg Ht HR. split; [destruct r as [|[]]; by apply moves_refl|].
  destruct r as [x|[]]; simpl; [by apply HR|..]; destruct strict eqn:E; try done; try (by apply loose);
    by destruct (Ht eq_refl) as [[? [=]]|[=]].
Qed.

Lemma ok_result {T} (R : nat -> T -> Prop) r ip : good ip -> (forall x, r = Ok x -> R (length (heap ip)) x) ->
  ok_at R (from_result r) ip.
Proof. intros Hg HR. destruct r; [by apply ok_ret, HR|by apply ok_fails]. Qed.

Lemma bind_rat_of {U} (R : nat -> U -> Prop) v (k : Q -> M U) ip : good ip -> val_ok (length (heap ip)) v ->
  (forall r s neg, v = ValNum r s neg -> ok_at R (k r) ip) -> ok_at R (rat_of v ≫= k) ip.
Proof.
  intros Hg Hv H. destruct v as [r s neg| | |]; simpl in Hv; [by eapply H| | |]; (split; [by apply moves_refl|]); simpl; try done.
  by destruct Hv.
Qed.

Lemma val_evolves ip ip' v : evolves ip ip' -> val_ok (length (heap ip)) v -> val_ok (length (heap ip')) v.
Proof. intros He. apply val_mono, He. Qed.

Definition any {T} (_ : nat) (_ : T) : Prop := True.

Variable places : Z -> Z -> Z.
Variable lineLength : Z.
Variable ev : Expr -> M BcVal.
Variable ex : Stmt -> M FlowControl.
(** The parts that are evaluated and executed. *)
Variable okE : Expr -> Prop.
Variable okS : Stmt -> Prop.

Definition flow_ok (n : nat) (f : FlowControl) : Prop :=
  match f with FlowReturn v => v = ValVoid \/ val_ok n v | _ => True end.

Definition res_ok (e : Expr) (n : nat) (v : BcVal) : Prop :=
  (is_string e = true /\ exists s, v = ValStr s) \/ val_ok n v.

Hypothesis Hev : forall e, okE e -> keeps (res_ok e) (ev e).
Hypothesis Hex : forall s, okS s -> keeps flow_ok (ex s).

(** An expression whose value is used. *)
Definition operand (e : Expr) : Prop := okE e /\ (strict = true -> is_string e = false).

Definition opt_ok {T} (P : T -> Prop) (x : option T) : Prop := match x with Some x => P x | None => True end.

Lemma operand_ok e : operand e -> keeps val_ok (ev e).
Proof.
  intros [He Hs] ip Hg. eapply ok_conseq; [|by apply Hev]. intros n v [[Hv [s ->]]|]; [|done].
  apply not_true_is_false. intros E. by rewrite Hs in Hv.
Qed.

Lemma map_eval_ok es : Forall operand es -> keeps (fun n vs => Forall (val_ok n) vs /\ length vs = length es) (map_eval ev es).
Proof.
  induction 1 as [|e es He _ IH]; intros ip Hg; cbn [map_eval]; [by apply ok_ret|].
  eapply ok_bind; [by apply operand_ok|]. intros v ip1 Hg1 He1 Hv. eapply ok_bind; [by apply IH|].
  intros vs ip2 Hg2 He2 [Hvs Hl]. apply ok_ret; [done|]. split; [|by simpl; rewrite Hl].
  constructor; [|done]. by eapply val_evolves.
Qed.

(** *** Calls *)

(** An argument for a parameter: an array that is copied need not be one of [A]. *)
Definition arg_ok (n : nat) (p : string * (bool * bool)) (v : BcVal) : Prop :=
  match p, v with
  | (_, (true, false)), ValArrayRef a => True
  | _, _ => val_ok n v
  end.

Lemma val_arg n p v : val_ok n v -> arg_ok n p v.
Proof. destruct p as [? [[] []]]; simpl; try done. by destruct v. Qed.

Definition scope_moves (ip : Interpreter) (r : Scope * Interpreter) : Prop :=
  moves ip (snd r) /\ scope_ok (length (heap (snd r))) (fst r) /\ (length (heap ip) <= length (heap (snd r)))%nat.

Lemma new_array_ok x arr sc ip : good ip -> scope_ok (length (heap ip)) sc -> numbers arr ->
  scope_moves ip (let '(b, ip) := alloc arr ip in (insert_array x b sc, ip)).
Proof.
  intros Hg Hs Ha. unfold alloc. destruct (alloc_moves ip arr Hg Ha) as [Hm Hr].
  split; [done|]. simpl. rewrite length_app in *. split; [|lia].
  apply insert_array_ok; [|done]. eapply scope_mono; [|done]. lia.
Qed.

Lemma bind_param_ok p v sc ip : good ip -> scope_ok (length (heap ip)) sc -> arg_ok (length (heap ip)) p v ->
  scope_moves ip (bind_param p v sc ip).
Proof.
  intros Hg Hs Hv. destruct p as [x [[] isRef]]; simpl.
  - assert (numbers ∅) as He by apply numbers_empty.
    destruct v as [| | |a]; try (by apply new_array_ok). destruct isRef.
    + simpl in Hv. split; [by apply moves_refl|]. split; [|done]. apply insert_array_ok; [done|apply Hv].
    + apply new_array_ok; [done..|by apply array_at_ok].
  - split; [by apply moves_refl|]. split; [|done]. apply insert_var_ok; [done|]. by destruct v.
Qed.

Lemma scope_moves_trans ip r (f : Scope * Interpreter -> Scope * Interpreter) : scope_moves ip r ->
  (good (snd r) -> scope_ok (length (heap (snd r))) (fst r) -> scope_moves (snd r) (f r)) -> scope_moves ip (f r).
Proof.
  intros (Hm & Hs & Hl) H. destruct (H (proj1 Hm) Hs) as (Hm' & Hs' & Hl').
  split; [|split; [done|lia]]. by apply (moves_trans _ _ _ Hm).
Qed.

Lemma arg_mono n n' p v : (n <= n')%nat -> arg_ok n p v -> arg_ok n' p v.
Proof. intros Hn. destruct p as [? [[] []]], v; simpl; try done; (intros [? ?]; split; [done|by eapply ref_mono]). Qed.

Lemma bind_params_ok ps : forall vs sc ip, good ip -> scope_ok (length (heap ip)) sc ->
  Forall2 (arg_ok (length (heap ip))) ps vs -> scope_moves ip (bind_params ps vs sc ip).
Proof.
  induction ps as [|p ps IH]; intros vs sc ip Hg Hs Hv; inversion Hv as [|? v ? vs' Hp Hps]; subst; cbn [bind_params].
  { split; [by apply moves_refl|done]. }
  apply (scope_moves_trans ip (bind_param p v sc ip) (fun r => let '(sc, ip) := r in bind_params ps vs' sc ip)).
  - by apply bind_param_ok.
  - intros Hg' Hs'. pose proof (bind_param_ok p v sc ip Hg Hs Hp) as (_ & _ & Hl).
    destruct (bind_param p v sc ip) as [sc' ip']. apply IH; [done..|].
    eapply Forall2_impl; [exact Hps|]. intros. by eapply arg_mono.
Qed.

Lemma auto_arrays_ok names : forall sc ip, good ip -> scope_ok (length (heap ip)) sc ->
  scope_moves ip (auto_arrays names sc ip).
Proof.
  induction names as [|x names IH]; intros sc ip Hg Hs; cbn [auto_arrays]; [by split; [apply moves_refl|]|].
  apply (scope_moves_trans ip (let '(b, ip) := alloc ∅ ip in (insert_array x b sc, ip))
    (fun r => let '(sc, ip) := r in auto_arrays names sc ip)).
  - apply new_array_ok; [done..|apply numbers_empty].
  - by intros; apply IH.
Qed.

Lemma auto_vars_ok names : forall sc n, scope_ok n sc -> scope_ok n (foldl (fun sc name => insert_var name zero_val sc) sc names).
Proof.
  induction names as [|x names IH]; intros sc n Hs; [done|]. cbn [foldl]. apply IH, insert_var_ok; [done|]. exact zero_num_ok.
Qed.

Lemma call_scope_ok decl args ip : good ip ->
  Forall2 (arg_ok (length (heap ip))) (params_of decl) args ->
  scope_moves ip (call_scope decl args ip).
Proof.
  intros Hg Ha. unfold call_scope.
  apply (scope_moves_trans ip (bind_params _ args NewScope ip)
    (fun r => let '(sc, ip) := r in auto_arrays (AutoArrays decl) (foldl (fun sc name => insert_var name zero_val sc) sc (Autos decl)) ip)).
  - apply bind_params_ok; [done| |done]. split; intros x y H; cbn in H; exfalso; exact (lookup_empty_Some (M := gmap string) x y H).
  - intros Hg' Hs'. destruct (bind_params _ _ _ _) as [sc ip']. apply auto_arrays_ok; [done|]. by apply auto_vars_ok.
Qed.

Lemma enter_ok decl args ip : good ip -> okS (Body decl) -> (strict = true -> Void decl = false) ->
  Forall2 (arg_ok (length (heap ip))) (params_of decl) args ->
  ok_at val_ok (enter ex decl args) ip.
Proof.
  intros Hg Hb Hv Ha. pose proof (call_scope_ok decl args ip Hg Ha) as H. unfold ok_at, enter.
  destruct (call_scope decl args ip) as [sc ip1]. destruct H as ([Hg1 He1] & Hs & Hl). simpl in *.
  set (ip2 := set_locals (Some sc) ip1).
  assert (good ip2) as Hg2.
  { destruct Hg1. constructor; simpl; try done. by intros ? [= <-]. }
  destruct (Hex (Body decl) Hb ip2 Hg2) as [[Hg3 He3] Hf]. destruct (ex (Body decl) ip2) as [res ip3]. simpl in *.
  assert (length (heap ip) <= length (heap ip3))%nat as Hl3 by (pose proof (ev_heap _ _ He3) as H; simpl in H; lia).
  assert (moves ip (set_locals (Locals ip) ip3)) as Hm.
  { split.
    - destruct Hg3. constructor; simpl; try done. intros sc' Hsc. eapply scope_mono; [exact Hl3|]. by apply (good_locals ip Hg).
    - destruct He1, He3. constructor; simpl in *; try done.
      + intros a Hx. by rewrite ev_frame1, ev_frame0.
      + destruct ev_written0 as [w Hw], ev_written1 as [w' Hw']. exists (w +:+ w'). by rewrite Hw', Hw, sapp_assoc.
      + auto. }
  destruct res as [flow|e| | |]; simpl in *; (split; [done|]); try done.
  unfold returned. destruct (Void decl); [apply not_true_is_false; intros E; by specialize (Hv E)|].
  destruct flow as [|v| |]; try exact zero_num_ok. destruct v; try (destruct Hf as [|Hf]; [done|exact Hf]).
  exact zero_num_ok.
Qed.

(** *** Built-in functions *)

Lemma number_of_ok n z : val_ok n (number_of z).
Proof. apply num_val, number_num_ok, reduced_int. Qed.

Lemma one_arg_ok name args : Forall operand args -> keeps val_ok (one_arg ev name args).
Proof.
  intros Ha ip Hg. destruct args as [|e [|]]; try by apply ok_fails. inversion Ha; subst. by apply operand_ok.
Qed.

Lemma call_length_ok v ip : good ip -> val_ok (length (heap ip)) v -> ok_at val_ok (call_length places v) ip.
Proof.
  intros Hg Hv. unfold call_length.
  assert (ok_at val_ok (r ← rat_of v; n ← lift (valLength places r (scale_of v)); mret (number_of n)) ip) as Hn.
  { apply bind_rat_of; [done..|]. intros r s neg ->. eapply (ok_bind any).
    - apply ok_lift; [done| |done]. intros _. left. apply valLength_total.
    - intros n ip' Hg' _ _. apply ok_ret; [done|]. apply number_of_ok. }
  destruct v; try done. apply bind_get, ok_ret; [done|]. apply number_of_ok.
Qed.

Lemma call_sqrt_ok v ip : good ip -> val_ok (length (heap ip)) v -> ok_at val_ok (call_sqrt v) ip.
Proof.
  intros Hg Hv. apply bind_rat_of; [done..|]. intros r s neg ->. apply bind_get.
  destruct (valSqrt _ _ _) as [[root k]|] eqn:E; [|by apply ok_fails].
  apply ok_ret; [done|]. apply num_val, number_num_ok. by eapply valSqrt_reduced.
Qed.

Lemma read_stmts_ok stmts : strict = false -> (forall e, okE e) -> (forall s, okS s) ->
  forall v ip, good ip -> val_ok (length (heap ip)) v -> ok_at val_ok (read_stmts ev ex stmts v) ip.
Proof.
  intros Hs He HS. induction stmts as [|st stmts IH]; intros v ip Hg Hv; cbn [read_stmts]; [by apply ok_ret|].
  assert (ok_at val_ok (_ ← ex st; read_stmts ev ex stmts v) ip) as H.
  { eapply ok_bind; [by apply Hex|]. intros f ip' Hg' He' _. apply IH; [done|]. by eapply val_evolves. }
  destruct st; try exact H. eapply ok_bind; [by apply Hev|]. intros w ip' Hg' He' Hw. apply IH; [done|].
  by destruct Hw as [[_ [s ->]]|].
Qed.

Lemma call_read_ok args : strict = false -> (forall e, okE e) -> (forall s, okS s) -> keeps val_ok (call_read ev ex args).
Proof.
  intros Hs He HS ip Hg. unfold call_read. destruct args; [|by apply ok_fails]. apply bind_get.
  assert (forall n, val_ok n zero_val) as Hz by (intros; exact zero_num_ok).
  destruct (stdin ip) as [t|]; [|by apply ok_ret]. destruct (read_line t) as [[l rest] eof].
  apply bind_change; [by apply change_stdin|]. intros Hg'. case_match; [by apply ok_ret|].
  case_match; [|by apply ok_fails]. by apply read_stmts_ok.
Qed.

Lemma call_user_ok name args : Forall operand args ->
  (forall d, (strict = true -> numeric_fun d = true) -> okS (Body d)) -> keeps val_ok (call_user ev ex name args).
Proof.
  intros Ha Hd ip Hg. unfold call_user. apply bind_get.
  destruct (Functions ip !! name) as [decl|] eqn:E; [|by apply ok_fails].
  assert (strict = true -> numeric_fun decl = true) as Hn by (intros Hs; by eapply (good_functions ip Hg)).
  destruct (length args =? length (Params decl))%nat eqn:El; simpl; [|by apply ok_fails].
  eapply ok_bind; [by apply map_eval_ok|]. intros vs ip1 Hg1 He1 [Hvs Hl]. apply enter_ok; [done|by apply Hd| |].
  - intros Hs. specialize (Hn Hs). unfold numeric_fun in Hn. by destruct (Void decl).
  - apply Nat.eqb_eq in El. assert (length vs = length (params_of decl)) as Hlp by (unfold params_of; rewrite length_imap; lia).
    clear -Hvs Hlp. revert vs Hvs Hlp. generalize (params_of decl). intros ps.
    induction ps as [|p ps IH]; intros [|v vs] Hvs Hlp; try done. inversion Hvs; subst.
    constructor; [by apply val_arg|]. apply IH; [done|]. simpl in Hlp. lia.
Qed.

(** What a call needs. *)
Definition call_parts (name : string) (args : list Expr) : Prop :=
  Forall operand args /\ (builtin name = true \/
    ((name =s? "read") = true -> strict = false /\ (forall e, okE e) /\ (forall s, okS s)) /\
    forall d, (strict = true -> numeric_fun d = true) -> okS (Body d)).

Lemma call_ok name args : call_parts name args -> keeps val_ok (call places ev ex name args).
Proof.
  intros [Ha Hc] ip Hg. unfold call, builtin in *.
  destruct (name =s? "length"). { eapply ok_bind; [by apply one_arg_ok|]. intros. by apply call_length_ok. }
  destruct (name =s? "scale"). { eapply ok_bind; [by apply one_arg_ok|]. intros. apply ok_ret; [done|apply number_of_ok]. }
  destruct (name =s? "sqrt"). { eapply ok_bind; [by apply one_arg_ok|]. intros. by apply call_sqrt_ok. }
  destruct Hc as [|[Hr Hd]]; [done|]. destruct (name =s? "read").
  - destruct (Hr eq_refl) as (Hs & He & HS). by apply call_read_ok.
  - by apply call_user_ok.
Qed.

(** *** Expressions *)

(** What the target of an assignment or an increment needs. *)
Definition target (l : Expr) : Prop :=
  (strict = true -> names_obase l = false) /\
  match l with ArrayAccessExpr _ None => strict = false | ArrayAccessExpr _ (Some i) => operand i | _ => True end.

(** What the parts of an expression need. *)
Definition parts (e : Expr) : Prop :=
  match e with
  | NumExpr _ | VarExpr _ | StringExpr _ => True
  | ArrayAccessExpr _ None => strict = false
  | ArrayAccessExpr _ (Some e) | ParenExpr e => operand e
  | BinaryExpr _ l r => operand l /\ operand r
  | AssignExpr l r => operand r /\ target l
  | UnaryExpr op e _ => if is_incdec op then target e else operand e
  | CallExpr name args => call_parts name args
  end.

Lemma eval_index_ok index : match index with Some i => operand i | None => strict = false end ->
  keeps any (eval_index ev index).
Proof.
  intros Hi ip Hg. unfold eval_index. apply (ok_bind val_ok).
  - destruct index as [i|]; [by apply operand_ok|]. by apply ok_ret.
  - intros v ip' Hg' _ Hv. apply bind_rat_of; [done..|]. intros. by apply ok_ret.
Qed.

Lemma obase_name name i : names_obase (ArrayAccessExpr name i) = (name =s? "obase").
Proof. done. Qed.

Lemma assign_ok l v ip : target l -> good ip -> val_ok (length (heap ip)) v -> ok_at val_ok (assign ev l v) ip.
Proof.
  intros [Ho Ht] Hg Hv. unfold assign. destruct v as [r s neg| | |]; try by apply ok_fails.
  destruct l as [| |name|name i| | | | |]; try by apply ok_fails.
  - apply bind_change; [by apply set_var_ok|]. intros Hg'. by apply ok_ret.
  - eapply ok_bind; [apply eval_index_ok, Hg; by destruct i|]. intros idx ip' Hg' _ _.
    apply bind_change; [by apply SetArray_ok|]. intros Hg2. by apply ok_ret.
Qed.

Lemma increment_target_ok e : target e ->
  keeps (fun _ t => strict = true -> (fst t =s? "obase") = false) (increment_target ev e).
Proof.
  intros [Ho Ht] ip Hg. destruct e as [| |name|name i| | | | |]; try by apply ok_fails; simpl.
  - by apply ok_ret.
  - eapply ok_bind; [apply eval_index_ok, Hg; by destruct i|]. intros idx ip' Hg' _ _. by apply ok_ret.
Qed.

Lemma set_register_ok name v r ip : good ip -> num_ok v -> (strict = true -> (name =s? "obase") = false) ->
  get_register name ip <> None -> moves ip (default ip (set_register name v r ip)).
Proof.
  intros Hg Hv Ho Hr. pose proof (set_var_ok name v ip Hg Hv Ho r) as H. unfold set_var in H. revert H Hr.
  unfold set_register, get_register. by repeat case_match.
Qed.

Lemma increment_ok op e post : target e -> keeps val_ok (increment ev op e post).
Proof.
  intros Ht ip Hg. unfold increment. eapply ok_bind; [by apply increment_target_ok|].
  intros [name idx] ip1 Hg1 _ Ho. apply bind_get. destruct (get_register name ip1) as [curr|] eqn:E.
  - pose proof (get_register_ok _ _ _ Hg1 E) as Hc. apply bind_rat_of; [done|by apply num_val|]. intros r s neg ->.
    assert (num_ok (newValNum (incremented op r) 0)) as Hn by apply number_num_ok, incremented_reduced.
    apply bind_change; [by apply set_register_ok; rewrite ?E|]. intros Hg2. apply ok_ret; [done|]. by destruct post.
  - apply bind_get.
    assert (val_ok (length (heap ip1)) (match idx with Some idx => GetArray name idx ip1 | None => Get name ip1 end)) as Hc.
    { destruct idx; [by apply num_val, GetArray_ok|by apply Get_ok]. }
    replace ((match idx with Some idx => GetArray name idx | None => Get name end) ip1)
      with (match idx with Some idx => GetArray name idx ip1 | None => Get name ip1 end) by (by destruct idx).
    destruct (match idx with Some idx => GetArray name idx ip1 | None => Get name ip1 end) as [r s neg| | |] eqn:Ev;
      try (by apply bind_rat_of).
    apply bind_rat_of; [done|exact Hc|]. intros r' s' neg' [= <- <- <-].
    assert (num_ok (newValNum (incremented op r) s)) as Hn by apply number_num_ok, incremented_reduced.
    apply bind_change; [destruct idx; [by apply SetArray_ok|by apply Set_ok]|].
    intros Hg2. apply ok_ret; [done|]. by destruct post.
Qed.

Lemma binary_ok op l r ip : good ip -> ok_at val_ok (binary op l r) ip.
Proof.
  intros Hg. unfold binary. destruct l as [lr ls ln| | |], r as [rr rs rn| | |]; try by apply ok_fails.
  apply bind_get, ok_result; [done|]. intros v Hv. apply num_val. by eapply binary_op_num.
Qed.

Lemma eval_step_ok e : parts e -> keeps (res_ok e) (eval_step places ev ex e).
Proof.
  intros Hp ip Hg.
  assert (ok_at val_ok (eval_step places ev ex e) ip \/ is_string e = true) as [H|H].
  2:{ eapply ok_conseq; [|exact H]. intros. by right. }
  2:{ destruct e; try done. apply ok_ret; [done|]. left. split; [done|]. by eexists. }
  destruct e as [val|val|name|name i|op l r|op e post|name args|l r|e]; simpl in Hp; [left|by right|left..].
  - apply bind_get, ok_ret; [done|]. apply num_val, number_num_ok, parseNumberInBase_reduced.
  - apply ok_get; [done|]. by apply get_var_ok.
  - destruct i as [i|].
    + eapply ok_bind; [by apply eval_index_ok|]. intros idx ip' Hg' _ _. apply ok_get; [done|]. by apply num_val, GetArray_ok.
    + cbn [eval_step]. pose proof (GetArrayRef_ok name ip Hg) as Hr. unfold ok_at.
      destruct (GetArrayRef name ip) as [a ip']. by destruct Hr.
  - destruct Hp as [Hl Hr]. eapply ok_bind; [by apply operand_ok|]. intros lv ip1 Hg1 _ _.
    eapply ok_bind; [by apply operand_ok|]. intros rv ip2 Hg2 _ _. by apply binary_ok.
  - cbn [eval_step]. destruct (is_incdec op); [by apply increment_ok|].
    eapply ok_bind; [by apply operand_ok|]. intros v ip1 Hg1 _ Hv. apply ok_result; [done|].
    intros w Hw. apply num_val. destruct v; try done. exact (unary_op_num op _ w Hv Hw).
  - by apply call_ok.
  - destruct Hp as [Hr Hl]. eapply ok_bind; [by apply operand_ok|]. intros v ip1 Hg1 _ Hv. by apply assign_ok.
  - by apply operand_ok.
Qed.

(** *** Statements *)

Lemma print_number_ok r s neg : keeps any (print_number places lineLength r s neg).
Proof.
  intros ip Hg. unfold print_number. apply bind_get. eapply (ok_bind any).
  - apply ok_lift; [done| |done]. intros Hs. apply formatRat_total. by apply (good_obase ip).
  - intros t ip' Hg' _ _. apply ok_change; [by apply change_written|done].
Qed.

Lemma print_value_ok e v ip : good ip -> res_ok e (length (heap ip)) v -> ok_at any (print_value places lineLength e v) ip.
Proof.
  intros Hg Hv. unfold print_value.
  assert (ok_at any (mret tt) ip) as Hr by (by apply ok_ret).
  destruct v as [r s neg|s| |]; [|case_match; [|done]; by apply ok_change; [apply change_written|]|done..].
  case_match; [|done]. destruct Hv as [[_ [? [=]]]|Hv].
  apply bind_change; [by apply change_registers; try done; [apply (good_ibase ip Hg)|apply (good_obase ip Hg)]|].
  intros Hg1. eapply ok_bind; [by apply print_number_ok|]. intros [] ip2 Hg2 _ _. by apply ok_change; [apply change_written|].
Qed.

Lemma print_each_ok es : Forall okE es -> keeps any (print_each places lineLength ev es).
Proof.
  induction 1 as [|e es He _ IH]; intros ip Hg; cbn [print_each]; [by apply ok_ret|].
  eapply ok_bind; [by apply Hev|]. intros v ip1 Hg1 _ _. eapply (ok_bind any); [|by intros; apply IH].
  destruct v; simpl; [by apply print_number_ok|by apply ok_change; [apply change_written|]|by apply ok_ret..].
Qed.

Lemma exec_block_ok l : Forall okS l -> keeps flow_ok (exec_block ex l).
Proof.
  induction 1 as [|s l Hs _ IH]; intros ip Hg; cbn [exec_block]; [by apply ok_ret|].
  eapply ok_bind; [by apply Hex|]. intros f ip1 Hg1 _ Hf. destruct f; [by apply IH|by apply ok_ret..].
Qed.

Lemma exec_opt_ok s : opt_ok okS s -> keeps flow_ok (exec_opt ex s).
Proof. intros Hs ip Hg. destruct s; [by apply Hex|by apply ok_ret]. Qed.

Lemma eval_opt_ok e : opt_ok okE e -> keeps any (eval_opt ev e).
Proof.
  intros He ip Hg. destruct e; simpl; [|by apply ok_ret]. eapply ok_bind; [by apply Hev|]. intros. by apply ok_ret.
Qed.

(** What the parts of a statement need. *)
Definition stmt_parts (s : Stmt) : Prop :=
  match s with
  | ExprStmt e => okE e
  | BlockStmt l => Forall okS l
  | IfStmt c t e => okE c /\ opt_ok okS t /\ opt_ok okS e
  | WhileStmt c b => okE c /\ opt_ok okS b /\ okS (WhileStmt c b)
  | ForStmt i c s b => opt_ok okE i /\ opt_ok okE c /\ opt_ok okE s /\ opt_ok okS b /\ okS (ForStmt None c s b)
  | ReturnStmt v => opt_ok operand v
  | BreakStmt | ContinueStmt | HaltStmt => True
  | PrintStmt args => Forall okE args
  | DefineStmt d => strict = true -> numeric_fun d = true
  end.

Lemma exec_step_ok s : stmt_parts s -> keeps flow_ok (exec_step places lineLength ev ex s).
Proof.
  intros Hp ip Hg. destruct s as [e|l|c t e|c b|i c s b|v| | | |args|d]; simpl in Hp; cbn [exec_step].
  - eapply ok_bind; [by apply Hev|]. intros v ip1 Hg1 _ Hv. eapply ok_bind; [by apply print_value_ok|]. intros. by apply ok_ret.
  - by apply exec_block_ok.
  - destruct Hp as (Hc & Ht & He). eapply ok_bind; [by apply Hev|]. intros v ip1 Hg1 _ _. by apply exec_opt_ok; [case_match|].
  - destruct Hp as (Hc & Hb & Hw). eapply ok_bind; [by apply Hev|]. intros v ip1 Hg1 _ _. case_match; [by apply ok_ret|].
    eapply ok_bind; [by apply exec_opt_ok|]. intros f ip2 Hg2 _ Hf. destruct f; first [by apply ok_ret|by apply Hex].
  - destruct Hp as (Hi & Hc & Hs & Hb & Hw). eapply ok_bind; [by apply eval_opt_ok|]. intros [] ip1 Hg1 _ _.
    eapply (ok_bind any).
    { destruct c as [c|]; [|by apply ok_ret]. eapply ok_bind; [by apply Hev|]. intros. by apply ok_ret. }
    intros go ip2 Hg2 _ _. case_match; [by apply ok_ret|].
    eapply ok_bind; [by apply exec_opt_ok|]. intros f ip3 Hg3 _ Hf.
    destruct f; try (by apply ok_ret); (eapply ok_bind; [by apply eval_opt_ok|]; intros [] ip4 Hg4 _ _; by apply Hex).
  - destruct v as [e|]; [|by apply ok_ret; [|left]]. eapply ok_bind; [by apply operand_ok|]. intros v ip1 Hg1 _ Hv.
    apply ok_ret; [done|by right].
  - by apply ok_ret.
  - by apply ok_ret.
  - apply bind_change; [by apply change_halted|]. intros. by apply ok_ret.
  - eapply ok_bind; [by apply print_each_ok|]. intros. by apply ok_ret.
  - apply bind_change; [by apply change_define|]. intros. by apply ok_ret.
Qed.
End Steps.
End Invariant.

(** * All programs *)

Definition ok_expr (strict : bool) (e : Expr) : Prop := strict = true -> printable e = true.
Definition ok_stmt (strict : bool) (s : Stmt) : Prop := strict = true -> numeric_stmt s = true.

Lemma numeric_not_string e : numeric e = true -> is_string e = false.
Proof. by destruct e. Qed.

Lemma numeric_operand strict e : (strict = true -> numeric e = true) -> operand strict (ok_expr strict) e.
Proof.
  intros H. split; intros Hs; specialize (H Hs); [|by apply numeric_not_string].
  unfold printable. by rewrite H, orb_true_r.
Qed.

Lemma forallb_strict {T} (strict : bool) (p : T -> bool) (P : T -> Prop) l :
  (forall x, (strict = true -> p x = true) -> P x) -> (strict = true -> forallb p l = true) -> Forall P l.
Proof.
  intros HP. induction l as [|x l IH]; intros H; constructor.
  - apply HP. intros Hs. specialize (H Hs). simpl in H. apply andb_true_iff in H as [? ?]. done.
  - apply IH. intros Hs. specialize (H Hs). simpl in H. apply andb_true_iff in H as [? ?]. done.
Qed.

Lemma opt_strict {T} (strict : bool) (p : T -> bool) (P : T -> Prop) x :
  (forall x, (strict = true -> p x = true) -> P x) -> (strict = true -> opt_all p x = true) -> opt_ok P x.
Proof. intros HP H. destruct x; simpl; [by apply HP|done]. Qed.

(** The parts of a condition on [strict]. *)
Ltac strict_parts :=
  repeat match goal with
  | H : true = true -> ?P |- _ => specialize (H eq_refl)
  | H : _ && _ = true |- _ => apply andb_true_iff in H; destruct H
  | H : negb _ = true |- _ => apply negb_true_iff in H
  end.

Lemma expr_parts strict e : ok_expr strict e -> parts strict (ok_expr strict) (ok_stmt strict) e.
Proof.
  unfold ok_expr at 1. intros He.
  assert (is_string e = true \/ (strict = true -> numeric e = true)) as [Hs|Hn].
  { destruct (is_string e) eqn:E; [by left|right]. intros Hs. specialize (He Hs). unfold printable in He. by rewrite E in He. }
  { by destruct e. }
  clear He. destruct e as [val|val|name|name [i|]|op l r|op e post|name args|l r|e]; simpl in *; try done.
  - by apply numeric_operand.
  - apply not_true_is_false. intros E. by specialize (Hn E).
  - split; apply numeric_operand; intros ->; by strict_parts.
  - assert (operand strict (ok_expr strict) e) as Ho by (apply numeric_operand; intros ->; by strict_parts).
    assert (strict = true -> names_obase e = false) as Hb by (intros ->; by strict_parts).
    destruct (is_incdec op); [|done]. split; [done|]. destruct e as [| | |n [i|]| | | | |]; try done.
    + apply numeric_operand. intros ->. by strict_parts.
    + apply not_true_is_false. intros ->. by strict_parts.
  - split.
    + apply (forallb_strict strict numeric); [apply numeric_operand|]. intros ->. by strict_parts.
    + right. split.
      * intros Hr. assert (strict = false) as -> by (apply not_true_is_false; intros ->; strict_parts; congruence). by repeat split.
      * intros d Hd ->. specialize (Hd eq_refl). unfold numeric_fun in Hd. by strict_parts.
  - split; [apply numeric_operand; intros ->; by strict_parts|]. split; [intros ->; by strict_parts|].
    destruct l as [| | |n [i|]| | | | |]; try done.
    + apply numeric_operand. intros ->. by strict_parts.
    + apply not_true_is_false. intros ->. by strict_parts.
  - by apply numeric_operand.
Qed.

Lemma numeric_ok strict e : (strict = true -> numeric e = true) -> ok_expr strict e.
Proof. apply numeric_operand. Qed.

Lemma stmt_parts_ok strict s : ok_stmt strict s -> stmt_parts strict (ok_expr strict) (ok_stmt strict) s.
Proof.
  unfold ok_stmt at 1. intros Hs.
  destruct s as [e|l|c t e|c b|i c s b|v| | | |args|d]; simpl in *; try done.
  - by apply (forallb_strict strict numeric_stmt).
  - split; [apply numeric_ok; intros ->; by strict_parts|].
    split; apply (opt_strict strict numeric_stmt); try done; intros ->; by strict_parts.
  - split; [apply numeric_ok; intros ->; by strict_parts|]. split; [|done].
    apply (opt_strict strict numeric_stmt); [done|]. intros ->. by strict_parts.
  - assert (forall x, (strict = true -> opt_all numeric x = true) -> opt_ok (ok_expr strict) x) as Ho.
    { intros x. apply opt_strict, numeric_ok. }
    split; [apply Ho; intros ->; by strict_parts|]. split; [apply Ho; intros ->; by strict_parts|].
    split; [apply Ho; intros ->; by strict_parts|]. split.
    + apply (opt_strict strict numeric_stmt); [done|]. intros ->. by strict_parts.
    + intros ->. simpl. strict_parts. by repeat (apply andb_true_iff; split).
  - apply (opt_strict strict numeric); [apply numeric_operand|done].
  - by apply (forallb_strict strict printable).
Qed.

Section All.
Variable strict : bool.
Variable A : nat -> Prop.
Variable places : Z -> Z -> Z.
Variable lineLength : Z.

Lemma eval_keeps fuel :
  (forall e, ok_expr strict e -> keeps strict A True (res_ok strict A e) (eval places lineLength fuel e)) /\
  (forall s, ok_stmt strict s -> keeps strict A True (flow_ok strict A) (execStmt places lineLength fuel s)).
Proof.
  induction fuel as [|fuel [IHe IHs]]; [split; intros ? _ ip Hg; (split; [by apply moves_refl|done])|].
  split; intros x Hx.
  - eapply eval_step_ok; [done|exact IHe|exact IHs|by apply expr_parts].
  - eapply exec_step_ok; [done|exact IHe|exact IHs|by apply stmt_parts_ok].
Qed.

Lemma Execute_keeps (nores : Prop) (okS : Stmt -> Prop) fuel stmts :
  (forall s, okS s -> keeps strict A nores (flow_ok strict A) (execStmt places lineLength fuel s)) ->
  Forall okS stmts -> keeps strict A nores any (Execute places lineLength fuel stmts).
Proof.
  intros Hex. induction 1 as [|s stmts Hs _ IH]; intros ip Hg; cbn [Execute]; [by apply ok_ret|].
  apply bind_get. case_match; [by apply ok_ret|]. eapply ok_bind; [by apply Hex|]. intros _ ip1 Hg1 _ _. by apply IH.
Qed.
End All.

Lemma initial_good strict input mathLib : good strict (fun _ => True) (initial input mathLib).
Proof.
  by constructor.
Qed.
