(* ===== verification/BcLaws.v ===== *)
(** Laws of bc: what its programs do.

    The invariant of BcInvariant.v on runs from the initial state: every state that is reached is
    well formed, programs on numbers do not panic, programs without loops and calls end, a call
    does not change the arrays it gets by value.  The quotient and the remainder of two numbers
    obey the law of division.  Examples at the end show where the interpreter departs from its
    documentation and from other implementations. *)

From S2P Require Import Prelude GoStd Utf8 Scanner Rat BcSyntax BcNum Bc BcMathLib BcInvariant.

Local Open Scope Z_scope.

(** * States that are reached *)

(** The interpreter's state: [ibase] from 2 to 36, numbers in lowest terms, no array that is not in
    the store, no strings in variables of the global scope or in arrays. *)
Definition well_formed (ip : Interpreter) : Prop := good false (fun _ => True) ip.

(** Loading the library and executing a program. *)
Lemma run_good strict (okS : Stmt -> Prop) (nores : Prop) places lineLength source fuel program input mathLib :
  (forall s, okS s -> keeps strict (fun _ => True) nores (flow_ok strict (fun _ => True)) (execStmt places lineLength fuel s)) ->
  (forall stmts, parse_text source = Ok stmts -> Forall okS stmts) ->
  (forall stmts, parse_text program = Ok stmts -> Forall okS stmts) ->
  let '(o, ip) := Run places lineLength source fuel program input mathLib in
  good strict (fun _ => True) ip /\ fits strict nores any o 0.
Proof.
  intros Hex Hl Hp. unfold Run. pose proof (initial_good strict input mathLib) as Hi.
  destruct (parse_text program) as [stmts|e] eqn:E; [|done].
  assert (forall ip, good strict (fun _ => True) ip ->
    let '(o, ip) := match Execute places lineLength fuel stmts ip with
      | (Ret _, ip) => (Ret None, ip) | (Fails e, ip) => (Ret (Some (Runtime e)), ip)
      | (Panic, ip) => (Panic, ip) | (TooLong, ip) => (TooLong, ip) | (NoResult, ip) => (NoResult, ip) end in
    good strict (fun _ => True) ip /\ fits strict nores any o 0) as H.
  { intros ip Hg. destruct (Execute_keeps strict _ places lineLength nores okS fuel stmts Hex (Hp _ eq_refl) ip Hg) as [[Hg' _] Hf].
    destruct (Execute _ _ _ _ ip) as [[] ip']; done. }
  unfold NewInterpreter. destruct mathLib; [|by apply H].
  destruct (parse_text source) as [lib|e] eqn:El; [|done].
  destruct (Execute_keeps strict _ places lineLength nores okS fuel lib Hex (Hl _ eq_refl) _ Hi) as [[Hg' _] Hf].
  destruct (Execute _ _ _ lib _) as [[] ip'] eqn:Ee; simpl in *; try done. by apply H.
Qed.

(** C28: every program, whatever its text, its input and the outcome, leaves the interpreter in a
    well-formed state: [ibase] is from 2 to 36, every number is in lowest terms, the global
    variables, the array elements and [last] are numbers, and every array that a scope names
    exists. *)
Theorem bc_state_invariant places lineLength source fuel program input mathLib :
  well_formed (snd (Run places lineLength source fuel program input mathLib)).
Proof.
  pose proof (run_good false (ok_stmt false) True places lineLength source fuel program input mathLib
    (proj2 (eval_keeps _ _ _ _ fuel))) as H.
  destruct (Run _ _ _ _ _ _ _) as [o ip]. apply H; intros stmts _; by apply Forall_true.
Qed.

(** * Programs on numbers *)

(** The library of -l is such a program, of definitions only. *)
Lemma library_numeric : match parse_text MathLibSource with
  | Ok stmts => forallb numeric_stmt stmts && forallb straight_stmt stmts && (list_max (map height_stmt stmts) <=? 1)%nat
  | Err _ => false
  end = true.
Proof. vm_compute. reflexivity. Qed.

Lemma library_ok stmts : parse_text MathLibSource = Ok stmts ->
  forallb numeric_stmt stmts = true /\ forallb straight_stmt stmts = true /\ (list_max (map height_stmt stmts) <= 1)%nat.
Proof.
  intros E. pose proof library_numeric as H. rewrite E in H. clear E. apply andb_true_iff in H as [[? ?]%andb_true_iff Hh].
  by apply Nat.leb_le in Hh.
Qed.

Lemma ok_stmts stmts : forallb numeric_stmt stmts = true -> Forall (ok_stmt true) stmts.
Proof. intros H. by apply (forallb_strict true numeric_stmt). Qed.

(** C29: a program in which strings are only printed, arrays are used by their elements, functions
    return results, [read] is not called and [obase] is not assigned never dereferences a nil number and never makes math/big divide by
    zero, with the library of -l or without.  The one other panic, of [strings.Repeat] for a zero printed with more than 2^48 decimals, is the
    outcome [TooLong]: see [long_zero]. *)
Theorem bc_numeric_programs_safe places lineLength fuel program stmts input mathLib :
  parse_text program = Ok stmts -> forallb numeric_stmt stmts = true ->
  fst (Run places lineLength MathLibSource fuel program input mathLib) <> Panic.
Proof.
  intros Ep Hn. pose proof (run_good true (ok_stmt true) True places lineLength MathLibSource fuel program input mathLib
    (proj2 (eval_keeps _ _ _ _ fuel))) as H.
  destruct (Run _ _ _ _ _ _ _) as [o ip]. destruct H as [_ Hf].
  - intros lib El. exact (ok_stmts _ (proj1 (library_ok _ El))).
  - intros ss. rewrite Ep. intros [= <-]. by apply ok_stmts.
  - simpl. by intros ->.
Qed.

(** * Programs without loops and calls *)

Definition short_expr (n : nat) (e : Expr) : Prop := printable e = true /\ straight e = true /\ (height e <= n)%nat.

Definition short_stmt (n : nat) (s : Stmt) : Prop :=
  numeric_stmt s = true /\ straight_stmt s = true /\ (height_stmt s <= n)%nat.

Lemma short_numeric n e : numeric e = true -> straight e = true -> (height e <= n)%nat -> short_expr n e.
Proof. intros Hn Hs Hh. split; [|done]. unfold printable. by rewrite Hn, orb_true_r. Qed.

Lemma short_operand n e : numeric e = true -> straight e = true -> (height e <= n)%nat -> operand true (short_expr n) e.
Proof. intros. split; [by apply short_numeric|]. intros _. by apply numeric_not_string. Qed.

(** A list of parts. *)
Lemma Forall_short {T} (p q : T -> bool) (h : T -> nat) n (P : T -> Prop) l :
  (forall x, p x = true -> q x = true -> (h x <= n)%nat -> P x) ->
  forallb p l = true -> forallb q l = true -> (list_max (map h l) <= n)%nat -> Forall P l.
Proof.
  intros HP. induction l as [|x l IH]; [done|]. simpl. intros [Hp Hps]%andb_true_iff [Hq Hqs]%andb_true_iff Hh.
  constructor; [apply HP; [done..|lia]|apply IH; [done..|lia]].
Qed.

Lemma opt_short {T} (p q : T -> bool) (h : T -> nat) n (P : T -> Prop) x :
  (forall x, p x = true -> q x = true -> (h x <= n)%nat -> P x) ->
  opt_all p x = true -> opt_all q x = true -> (opt_max h x <= n)%nat -> opt_ok P x.
Proof. intros HP. destruct x; simpl; auto. Qed.

Lemma short_parts n e : short_expr (S n) e -> parts true (short_expr n) (short_stmt n) e.
Proof.
  intros (Hp & Hs & Hh). unfold printable in Hp. destruct (is_string e) eqn:Es; [by destruct e|]. simpl in Hp.
  destruct e as [val|val|name|name [i|]|op l r|op e post|name args|l r|e]; simpl in *; try done; strict_parts.
  - apply short_operand; [done..|lia].
  - split; apply short_operand; first [done|lia].
  - assert (operand true (short_expr n) e) as Ho by (apply short_operand; [done..|lia]).
    destruct (is_incdec op); [|done]. split; [done|]. destruct e as [| | |m [i|]| | | | |]; try done.
    apply short_operand; simpl in *; [done..|lia].
  - split; [|by left]. apply (Forall_short numeric straight height n); [|done..|lia]. intros. by apply short_operand.
  - split; [apply short_operand; [done..|lia]|]. split; [done|]. destruct l as [| | |m [i|]| | | | |]; try done.
    apply short_operand; simpl in *; [done..|lia].
  - apply short_operand; [done..|lia].
Qed.

Lemma short_stmt_parts n s : short_stmt (S n) s -> stmt_parts true (short_expr n) (short_stmt n) s.
Proof.
  intros (Hp & Hs & Hh). destruct s as [e|l|c t e|c b|i c s b|v| | | |args|d]; simpl in *; try done; strict_parts.
  - split; [done|]. split; [done|lia].
  - apply (Forall_short numeric_stmt straight_stmt height_stmt n); [by intros; repeat split|done..|lia].
  - split; [apply short_numeric; [done..|lia]|].
    split; apply (opt_short numeric_stmt straight_stmt height_stmt n); first [done|lia|by intros; repeat split].
  - apply (opt_short numeric straight height n); [by intros; apply short_operand|done..|lia].
  - apply (Forall_short printable straight height n); [by intros; repeat split|done..|lia].
Qed.

Lemma straight_keeps A places lineLength n :
  (forall e, short_expr n e -> keeps true A False (res_ok true A e) (eval places lineLength n e)) /\
  (forall s, short_stmt n s -> keeps true A False (flow_ok true A) (execStmt places lineLength n s)).
Proof.
  induction n as [|n [IHe IHs]].
  { split; intros x (_ & _ & Hh); exfalso; destruct x; simpl in Hh; lia. }
  split; intros x Hx.
  - eapply eval_step_ok; [done|exact IHe|exact IHs|by apply short_parts].
  - eapply exec_step_ok; [done|exact IHe|exact IHs|by apply short_stmt_parts].
Qed.

Lemma short_stmts n stmts : forallb numeric_stmt stmts = true -> forallb straight_stmt stmts = true ->
  (list_max (map height_stmt stmts) <= n)%nat -> Forall (short_stmt n) stmts.
Proof. apply Forall_short. by intros. Qed.

(** The errors of a run are results. *)
Lemma run_fails_not places lineLength source fuel program input mathLib e :
  fst (Run places lineLength source fuel program input mathLib) <> Fails e.
Proof.
  unfold Run, NewInterpreter. repeat case_match; simplify_eq; simpl; try done; intros [=].
Qed.

(** A program on numbers without loops and calls of functions ends, with its output or an error
    message, unless it prints a zero with more decimals than a string can have: fuel for the nesting of its statements is enough, with -l or without. *)
Theorem bc_straight_programs_end places lineLength fuel program stmts input mathLib :
  parse_text program = Ok stmts -> forallb numeric_stmt stmts = true -> forallb straight_stmt stmts = true ->
  (1 <= fuel)%nat -> (list_max (map height_stmt stmts) <= fuel)%nat ->
  (exists e, fst (Run places lineLength MathLibSource fuel program input mathLib) = Ret e) \/
  fst (Run places lineLength MathLibSource fuel program input mathLib) = TooLong.
Proof.
  intros Ep Hn Hs H1 Hh. pose proof (run_good true (short_stmt fuel) False places lineLength MathLibSource fuel program
    input mathLib (proj2 (straight_keeps _ _ _ fuel))) as H.
  pose proof (run_fails_not places lineLength MathLibSource fuel program input mathLib) as Hf.
  destruct (Run _ _ _ _ _ _ _) as [o ip]. destruct H as [_ Hr].
  - intros lib El. destruct (library_ok _ El) as (? & ? & ?). apply short_stmts; [done..|lia].
  - intros ss. rewrite Ep. intros [= <-]. by apply short_stmts.
  - destruct o as [x|e| | |]; [left; by eexists|by destruct (Hf e)|done|by right|done].
Qed.

(** * Arithmetic *)

(** A value that is the number [r]. *)
Definition value_is (v : BcVal) (P : Q -> Prop) : Prop := match v with ValNum r _ _ => P r | _ => False end.

Lemma truncated_is r s (P : Q -> Prop) : P (RatTruncate r s) -> value_is (truncated r s) P.
Proof. done. Qed.

Lemma binary_gives op a b ls rs na nb v ip : binary_op op (Scale ip) (ValNum a ls na) (ValNum b rs nb) a b ls rs = Ok v ->
  binary op (ValNum a ls na) (ValNum b rs nb) ip = (Ret v, ip).
Proof. intros H. unfold binary, mbind, M_bind, get. by rewrite H. Qed.

Lemma binary_errs op a b ls rs na nb e ip : binary_op op (Scale ip) (ValNum a ls na) (ValNum b rs nb) a b ls rs = Err e ->
  binary op (ValNum a ls na) (ValNum b rs nb) ip = (Fails e, ip).
Proof. intros H. unfold binary, mbind, M_bind, get. by rewrite H. Qed.

Lemma power_loop_ok fuel : forall r b e, 0 <= e < 2 ^ Z.of_nat fuel -> (power_loop fuel r b e == r * b ^ e)%Q.
Proof.
  induction fuel as [|fuel IH]; intros r b e He.
  - replace e with 0 by (simpl in He; lia). simpl. ring.
  - cbn [power_loop]. destruct (Z.ltb_spec 0 e) as [Hp|]; [|replace e with 0 by lia; simpl; ring].
    rewrite Nat2Z.inj_succ, Z.pow_succ_r in He by lia. rewrite Z.rem_mod_nonneg, Z.quot_div_nonneg by lia.
    rewrite IH by (split; [apply Z.div_pos; lia|apply Z.div_lt_upper_bound; lia]).
    rewrite (power_halves b e) by lia. unfold ratMul. destruct (e mod 2 =? 1); rewrite ?Qred_correct; ring.
Qed.

Lemma ratPower_ok r e : - 2 ^ 63 < e < 2 ^ 63 -> 0 <= e \/ ~ (r == 0)%Q -> (ratPower r e == r ^ e)%Q.
Proof.
  intros He Hr. unfold ratPower. destruct (Z.eqb_spec e 0) as [->|]; [reflexivity|].
  destruct (Z.ltb_spec e 0) as [Hn|Hn]; cbn [andb].
  - assert (Sign r <> 0) as Hs by (rewrite Sign_zero; lia || (destruct Hr; [lia|done])).
    rewrite (proj2 (Z.eqb_neq _ _) Hs), (wrap_small 64), Qred_correct, power_loop_ok by lia.
    rewrite Qmult_1_l, Qpower_opp. apply Qinv_involutive.
  - rewrite power_loop_ok by lia. ring.
Qed.

Lemma mul_scale_eq k ls rs : 0 <= ls -> 0 <= rs -> ls + rs < 2 ^ 63 -> mul_scale k ls rs = Z.min (ls + rs) (Z.max k (Z.max ls rs)).
Proof. intros. unfold mul_scale. rewrite (wrap_small 64) by lia. cbv zeta. repeat case_match; lia. Qed.

Lemma power_scale_eq k ls e : 0 <= ls -> 0 <= e -> ls * e < 2 ^ 63 -> power_scale k ls e = Z.min (ls * e) (Z.max k ls).
Proof.
  intros. assert (0 <= ls * e) by nia. unfold power_scale. rewrite (wrap_small 64) by lia. cbv zeta. repeat case_match; lia.
Qed.

Lemma cut_zero_scale x r d : (r == 0)%Q -> 0 <= d -> (x == 0)%Q -> cut d x r.
Proof.
  intros Hr Hd Hx. exists 0. rewrite Hr, Hx. split; [|split; [|split]]; try reflexivity.
  all: unfold dec, Qlt, Qle; simpl; lia.
Qed.

(** Sums and differences of two numbers are exact, with the larger of their scales; a product is
    cut, toward zero, at the sum of the scales or at the largest of the scales and of [scale], if
    that is smaller; a power with a natural exponent is cut in the same manner, and one with a
    negative exponent at [scale].  The state does not change. *)
Theorem bc_arithmetic ip a b ls rs na nb :
  0 <= ls -> 0 <= rs -> ls + rs < 2 ^ 63 ->
  let x := ValNum a ls na in
  let y := ValNum b rs nb in
  (exists s n, binary TokPlus x y ip = (Ret (ValNum s (Z.max ls rs) n), ip) /\ (s == a + b)%Q) /\
  (exists s n, binary TokMinus x y ip = (Ret (ValNum s (Z.max ls rs) n), ip) /\ (s == a - b)%Q) /\
  (exists v, binary TokMul x y ip = (Ret v, ip) /\ value_is v (cut (Z.min (ls + rs) (Z.max (Scale ip) (Z.max ls rs))) (a * b))) /\
  let e := RatToInt64 b in
  (0 <= e -> ls * e < 2 ^ 63 -> exists v, binary TokPower x y ip = (Ret v, ip) /\
    value_is v (cut (Z.min (ls * e) (Z.max (Scale ip) ls)) (a ^ e))) /\
  (- 2 ^ 63 < e < 0 -> ~ (a == 0)%Q -> exists v, binary TokPower x y ip = (Ret v, ip) /\
    value_is v (cut (Z.max 0 (Scale ip)) (a ^ e))).
Proof.
  intros Hl Hr Ho x y.
  assert ((if ls <? rs then rs else ls) = Z.max ls rs) as Em by (case_match; lia).
  assert (- 2 ^ 63 <= RatToInt64 b < 2 ^ 63) as Hb by (apply (wrap_range 64); lia).
  split; [|split; [|split; [|split]]].
  - eexists _, _. split; [apply binary_gives; simpl; rewrite Em; reflexivity|]. apply Qred_correct.
  - eexists _, _. split; [apply binary_gives; simpl; rewrite Em; reflexivity|]. apply Qred_correct.
  - eexists. split; [by apply binary_gives|]. rewrite mul_scale_eq by done. apply truncated_is, RatTruncate_cut_eq; [lia|].
    apply Qred_correct.
  - intros He Hs. assert (0 <= ls * RatToInt64 b) by (by apply Z.mul_nonneg_nonneg).
    eexists. split; [by apply binary_gives|]. apply truncated_is.
    pose proof (ratPower_ok a (RatToInt64 b) ltac:(lia) (or_introl He)) as E.
    rewrite (proj2 (Z.ltb_ge _ _) He), power_scale_eq by done. destruct (Z.eqb_spec (Sign (ratPower a (RatToInt64 b))) 0) as [Ez|Ez].
    + apply Sign_zero in Ez. apply cut_zero_scale; [|lia|by rewrite <- E].
      unfold RatTruncate. by rewrite (proj2 (Z.eqb_eq _ _) (proj2 (Sign_zero _) Ez)).
    + apply RatTruncate_cut_eq; [lia|done].
  - intros He Ha. eexists. split; [by apply binary_gives|]. apply truncated_is.
    pose proof (ratPower_ok a (RatToInt64 b) ltac:(lia) (or_intror Ha)) as E.
    destruct (Z.eqb_spec (Sign (ratPower a (RatToInt64 b))) 0) as [Ez|Ez].
    + exfalso. apply Sign_zero in Ez. rewrite E in Ez. by apply (Qpower_not_0 a (RatToInt64 b) Ha).
    + rewrite (proj2 (Z.ltb_lt _ 0)) by lia. rewrite <- E. apply RatTruncate_cut.
Qed.

(** A division by zero is an error, for / and for %.  For another divisor the quotient is cut at
    [scale], toward zero, and the remainder makes the division exact: it is smaller than a unit of
    the quotient's last decimal times the divisor, and of the sign of the dividend, provided the
    operands have no digits beyond their scales. *)
Theorem bc_division ip a b ls rs na nb :
  0 <= Scale ip -> 0 <= ls -> 0 <= rs -> Scale ip + rs < 2 ^ 63 -> decimal ls a -> decimal rs b ->
  let x := ValNum a ls na in
  let y := ValNum b rs nb in
  ((b == 0)%Q -> binary TokDiv x y ip = (Fails DivisionByZero, ip) /\ binary TokMod x y ip = (Fails ModuloByZero, ip)) /\
  (~ (b == 0)%Q -> exists q r qs rs' qn rn,
    binary TokDiv x y ip = (Ret (ValNum q qs qn), ip) /\ binary TokMod x y ip = (Ret (ValNum r rs' rn), ip) /\
    cut (Scale ip) (a / b) q /\ (a == q * b + r)%Q /\
    (Qabs r < Qabs b * dec 1 (Scale ip))%Q /\ (0 <= r * a)%Q).
Proof.
  intros Hk Hl Hr Ho Ha Hb x y. split; intros Hz.
  - split; apply binary_errs; simpl; by rewrite (proj2 (Z.eqb_eq _ 0) (proj2 (Sign_zero b) Hz)).
  - assert ((Sign b =? 0) = false) as Es by (apply Z.eqb_neq; by rewrite Sign_zero).
    set (q := RatTruncate (ratQuo a b) (Scale ip)).
    assert (cut (Scale ip) (a / b) q) as Hq by (apply RatTruncate_cut_eq; [done|apply Qred_correct]).
    set (r0 := ratSub a (ratMul b q)). set (s := if Scale ip + rs <? ls then ls else Scale ip + rs).
    assert (Z.max ls (Scale ip + rs) = s) as Emax by (unfold s; case_match; lia).
    assert (r0 == a - b * q)%Q as Er0 by (unfold r0, ratSub, ratMul; by rewrite !Qred_correct).
    assert (RatTruncate r0 s = r0) as Er.
    { apply RatTruncate_id; [apply reduced_Qred|]. rewrite Er0. rewrite Z.max_r by lia. unfold Qminus.
      apply decimal_add; [lia| |apply decimal_opp].
      - eapply decimal_weaken; [|exact Ha]. lia.
      - eapply decimal_weaken; [|apply (decimal_mul rs (Scale ip))]; try lia; [done|].
        pose proof (RatTruncate_decimal (ratQuo a b) (Scale ip)) as H. by rewrite Z.max_r in H by lia. }
    assert (a == q * b + r0)%Q as Ex by (rewrite Er0; ring).
    destruct (cut_remainder _ _ _ _ _ Hz Hq Ex) as [H1 H2].
    eexists q, r0, _, _, _, _. split; [apply binary_gives; simpl; by rewrite Es|]. split; [|done].
    apply binary_gives. simpl. rewrite Es, (wrap_small 64) by lia. fold q r0 s. unfold truncated. by rewrite Er.
Qed.

(** * Calls *)

Lemma bind_param_locals l p v sc ip :
  bind_param p v sc (set_locals l ip) = (fst (bind_param p v sc ip), set_locals l (snd (bind_param p v sc ip))).
Proof. by destruct p as [x [[] []]], v. Qed.

Lemma bind_params_locals l ps : forall vs sc ip,
  bind_params ps vs sc (set_locals l ip) =
  (fst (bind_params ps vs sc ip), set_locals l (snd (bind_params ps vs sc ip))).
Proof.
  induction ps as [|p ps IH]; intros [|v vs] sc ip; cbn [bind_params]; try done.
  rewrite bind_param_locals. destruct (bind_param p v sc ip) as [sc' ip']. apply IH.
Qed.

Lemma auto_arrays_locals l names : forall sc ip,
  auto_arrays names sc (set_locals l ip) = (fst (auto_arrays names sc ip), set_locals l (snd (auto_arrays names sc ip))).
Proof. induction names as [|x names IH]; intros sc ip; [done|]. exact (IH _ (set_heap (heap ip ++ [∅]) ip)). Qed.

Lemma call_scope_locals l decl args ip :
  call_scope decl args (set_locals l ip) = (fst (call_scope decl args ip), set_locals l (snd (call_scope decl args ip))).
Proof.
  unfold call_scope. rewrite bind_params_locals. destruct (bind_params _ _ _ ip) as [sc ip']. cbn [fst snd].
  apply auto_arrays_locals.
Qed.

(** A call does not look at the scope of its caller. *)
Lemma enter_locals l ex decl args ip :
  enter ex decl args (set_locals l ip) = (fst (enter ex decl args ip), set_locals l (snd (enter ex decl args ip))).
Proof.
  unfold enter. rewrite call_scope_locals. destruct (call_scope decl args ip) as [sc ip1]. cbn [fst snd].
  change (set_locals (Some sc) (set_locals l ip1)) with (set_locals (Some sc) ip1).
  destruct (ex (Body decl) (set_locals (Some sc) ip1)) as [[] ip2]; done.
Qed.

(** Calls are by value.  When a function is called with values of a well-formed state, the scope
    of the caller is the same after the call as before, whatever the outcome, and so is every array
    that is not global and is not handed over by reference, even if it is an argument for an
    array parameter. *)
Theorem bc_call_by_value places lineLength fuel decl args ip a :
  well_formed ip -> Forall (val_ok false (fun _ => True) (length (heap ip))) args ->
  length args = length (Params decl) -> (a < length (heap ip))%nat ->
  (forall x, Arrays (Globals ip) !! x <> Some a) ->
  (forall i p, params_of decl !! i = Some p -> args !! i = Some (ValArrayRef a) -> snd p = (true, false)) ->
  let ip' := snd (enter (execStmt places lineLength fuel) decl args ip) in
  heap ip' !! a = heap ip !! a /\ Locals ip' = Locals ip.
Proof.
  intros Hg Hv Hl Ha Hglob Hval. cbv zeta.
  pose proof (enter_locals (Locals ip) (execStmt places lineLength fuel) decl args (set_locals None ip)) as E.
  change (set_locals (Locals ip) (set_locals None ip)) with (set_locals (Locals ip) ip) in E.
  replace (set_locals (Locals ip) ip) with ip in E by (by destruct ip). rewrite E. cbn [snd]. split; [|done].
  change (heap (set_locals (Locals ip) ?s)) with (heap s). change (heap ip) with (heap (set_locals None ip)).
  set (A := fun b : nat => b <> a).
  assert (good false A (set_locals None ip)) as Hg0.
  { destruct Hg. constructor; simpl; try done.
    - intros x b Hb. split; [|by eapply good_arrays]. intros ->. by eapply Hglob.
    - intros b Hb. unfold A. lia. }
  destruct (enter_ok false A True (execStmt places lineLength fuel) (ok_stmt false) (proj2 (eval_keeps false A places lineLength fuel))
    decl args (set_locals None ip)) as [[_ He] _]; [done..| |].
  - simpl. apply Forall2_same_length_lookup. split; [unfold params_of; by rewrite length_imap|].
    intros i p v Hp Hi. pose proof (Forall_lookup_1 _ _ _ _ Hv Hi) as Hok.
    destruct v as [| | |b]; try (by destruct p as [? [[] []]]). destruct (decide (b = a)) as [->|Hb].
    + by destruct p as [x k]; rewrite (Hval i (x, k) Hp Hi : k = _).
    + apply val_arg. by destruct Hok as (_ & _ & ?).
  - apply (ev_frame _ _ _ He). by intros H.
Qed.

(** A function that sets an element of its parameter, called with an array of two. *)
Definition setter (isRef : bool) : FuncDecl :=
  {| Name := "f"; Params := ["a"]; ParamArrays := [true]; ParamRefs := [isRef]; Autos := []; AutoArrays := [];
     Body := ExprStmt (AssignExpr (ArrayAccessExpr "a" (Some (NumExpr "0"))) (NumExpr "7")); Void := false |}.

Definition one_array : Interpreter := set_heap [{["0" := number_of 5]}] (set_locals (Some NewScope) (initial None false)).

Lemma one_array_well_formed : well_formed one_array.
Proof.
  constructor; simpl; try done.
  - intros sc [= <-]. by split.
  - constructor; [|done]. intros i v H. apply lookup_singleton_Some in H as [_ <-]. by apply number_num_ok, reduced_int.
Qed.

Lemma bc_call_by_value_witness :
  let ip' := snd (enter (execStmt (fun _ s => s) 70 5) (setter false) [ValArrayRef 0] one_array) in
  heap ip' !! 0%nat = Some {["0" := number_of 5]} /\ Locals ip' = Some NewScope /\
  heap (snd (enter (execStmt (fun _ s => s) 70 5) (setter true) [ValArrayRef 0] one_array)) !! 0%nat =
    Some {["0" := number_of 7]}.
Proof.
  cbv zeta.
  destruct (bc_call_by_value (fun _ s => s) 70 5 (setter false) [ValArrayRef 0] one_array 0) as [H1 H2].
  - apply one_array_well_formed.
  - constructor; [|done]. repeat split; simpl; lia.
  - done.
  - simpl. lia.
  - intros x H. exact (lookup_empty_Some (M := gmap string) x _ H).
  - intros [|i] p; simpl; [by intros [= <-]|by destruct i].
  - split; [rewrite H1; reflexivity|]. split; [rewrite H2; reflexivity|]. vm_compute. reflexivity.
Defined.

(** * Examples *)

(** The output of a program with or without -l. *)
Definition bc_out (fuel : nat) (program : string) (mathLib : bool) : outcome (option run_error) * string :=
  let '(res, ip) := Run (fun _ scale => scale) 70 MathLibSource fuel program None mathLib in (res, written ip).

Definition lines (l : list string) : string := sconcat (map (fun s => s +:+ nl) l).

Lemma bc_numeric_programs_safe_witness :
  let program := "define f(n){auto i,r;r=1;for(i=2;i<=n;i++)r*=i;return r};f(5);print 1/3;a[2]=7/0" in
  fst (Run (fun _ scale => scale) 70 MathLibSource 50 program None true) <> Panic /\
  fst (bc_out 50 program true) = Ret (Some (Runtime DivisionByZero)) /\
  snd (bc_out 50 program true) = "120" +:+ nl +:+ ".33333333333333333333".
Proof.
  cbv zeta.
  assert (exists stmts, parse_text "define f(n){auto i,r;r=1;for(i=2;i<=n;i++)r*=i;return r};f(5);print 1/3;a[2]=7/0" = Ok stmts /\
    forallb numeric_stmt stmts = true) as (stmts & E & H) by (eexists; split; vm_compute; reflexivity).
  split; [exact (bc_numeric_programs_safe (fun _ scale => scale) 70 50 _ stmts None true E H)|].
  split; vm_compute; reflexivity.
Defined.

Lemma bc_straight_programs_end_witness :
  let program := "x=3;if(x>2){y=sqrt(x*3)};y^2+1" in
  ((exists e, fst (Run (fun _ scale => scale) 70 MathLibSource 7 program None false) = Ret e) \/
   fst (Run (fun _ scale => scale) 70 MathLibSource 7 program None false) = TooLong) /\
  bc_out 7 program false = (Ret None, "10" +:+ nl).
Proof.
  cbv zeta.
  assert (exists stmts, parse_text "x=3;if(x>2){y=sqrt(x*3)};y^2+1" = Ok stmts /\ forallb numeric_stmt stmts = true /\
    forallb straight_stmt stmts = true /\ (list_max (map height_stmt stmts) <=? 7)%nat = true)
    as (stmts & E & H1 & H2 & H3) by (eexists; split; [vm_compute; reflexivity|]; repeat split; vm_compute; reflexivity).
  split; [|vm_compute; reflexivity].
  apply (bc_straight_programs_end (fun _ scale => scale) 70 7 _ stmts None false E H1 H2); [lia|by apply Nat.leb_le].
Defined.

(** A state with a given scale. *)
Definition at_scale (k : Z) : Interpreter := set_registers k 10 10 zero_val (initial None false).

Lemma bc_arithmetic_witness :
  binary TokMul (ValNum (3 # 2) 1 false) (ValNum (5 # 4) 2 false) (at_scale 0) =
    (Ret (ValNum (187 # 100) 2 false), at_scale 0) /\
  exists v, binary TokMul (ValNum (3 # 2) 1 false) (ValNum (5 # 4) 2 false) (at_scale 0) = (Ret v, at_scale 0) /\
    value_is v (cut 2 ((3 # 2) * (5 # 4))).
Proof.
  split; [vm_compute; reflexivity|].
  exact (proj1 (proj2 (proj2 (bc_arithmetic (at_scale 0) (3 # 2) (5 # 4) 1 2 false false ltac:(lia) ltac:(lia) ltac:(lia))))).
Defined.

Lemma bc_division_witness :
  binary TokMod (ValNum (-10) 0 true) (ValNum 3 0 false) (at_scale 3) = (Ret (ValNum (-1 # 1000) 3 true), at_scale 3) /\
  exists q r qs rs qn rn,
    binary TokDiv (ValNum (-10) 0 true) (ValNum 3 0 false) (at_scale 3) = (Ret (ValNum q qs qn), at_scale 3) /\
    binary TokMod (ValNum (-10) 0 true) (ValNum 3 0 false) (at_scale 3) = (Ret (ValNum r rs rn), at_scale 3) /\
    cut 3 (-10 / 3) q /\ ((-10) == q * 3 + r)%Q /\ (Qabs r < Qabs 3 * dec 1 3)%Q /\ (0 <= r * -10)%Q.
Proof.
  split; [vm_compute; reflexivity|].
  destruct (bc_division (at_scale 3) (-10) 3 0 0 true false) as [_ H]; [simpl; lia..|apply (decimal_int 0); lia|apply (decimal_int 0); lia|].
  apply H. done.
Defined.

(** The library: e, the natural logarithm, sine and arctangent. *)
Example library_values : bc_out 5000 "e(1);l(2);s(1);4*a(1)" true = (Ret None, lines
  ["2.71828182845904523536"; ".69314718055994530941"; ".84147098480789650665"; "3.14159265358979323844"]).
Proof. vm_compute. reflexivity. Qed.

(** A variable or an array that is first assigned in a function is a local one of that call. *)
Example assigned_in_function_is_local :
  bc_out 20 "define f(){x=5;a[0]=5;return x+a[0]};f();x;a[0]" false = (Ret None, lines ["10"; "0"; "0"]).
Proof. vm_compute. reflexivity. Qed.

(** [halt] takes effect after the statement of the top level that it is in. *)
Example halt_finishes_block : bc_out 20 "{print 1;halt;print 2};print 3" false = (Ret None, "12").
Proof. vm_compute. reflexivity. Qed.

Lemma halt_does_not_end_loop fuel : forall ip,
  fst (execStmt (fun _ s => s) 70 fuel (WhileStmt (NumExpr "1") (Some HaltStmt)) ip) = NoResult.
Proof.
  induction fuel as [|fuel IH]; intros ip; [done|]. destruct fuel as [|fuel]; [done|]. exact (IH (set_halted ip)).
Qed.

(** What is not a number where the code takes it for one is a nil pointer. *)
Definition quote : string := String "034" "".

(** A negative zero with as many decimals as [scale] allows cannot be printed. *)
Example long_zero : fst (bc_out 20 "scale=9223372036854775807;-sqrt(0)" false) = TooLong.
Proof. vm_compute. reflexivity. Qed.

Example nil_pointers : forallb (fun program => match fst (bc_out 20 program false) with Panic => true | _ => false end)
  ["a[]=5"; "length(" +:+ quote +:+ "a" +:+ quote +:+ ")"; "sqrt(" +:+ quote +:+ "4" +:+ quote +:+ ")";
   "a[" +:+ quote +:+ "x" +:+ quote +:+ "]"; "define f(x){x++};f(" +:+ quote +:+ "s" +:+ quote +:+ ")"] = true.
Proof. vm_compute. reflexivity. Qed.

(** The base of the output is not checked. *)
Example obase_unchecked :
  fst (bc_out 20 "obase=0;5" false) = Panic /\ fst (bc_out 20 "obase=1;5" false) = NoResult /\
  bc_out 20 "obase=-3;5" false = (Ret None, "2" +:+ nl).
Proof. repeat split; vm_compute; reflexivity. Qed.

(** The index of a compound assignment is evaluated twice: the sum is stored in the next element. *)
Example compound_index_twice : bc_out 20 "a[i++]+=1;i;a[0];a[1]" false = (Ret None, lines ["2"; "0"; "1"]).
Proof. vm_compute. reflexivity. Qed.
