(* ===== verification/Regexp.v ===== *)
(** Regular expressions as the utilities use them: the package regexp of Go behind an interface.

    Compilation and matching are operations of the class [Regexp]; the expansion of templates and
    [ReplaceAllString] are defined on the matches.  A match lists the bounds, in bytes, of the text
    it matches and of its groups; a group may be unmatched. *)

From S2P Require Import Prelude GoStd Utf8.

Local Open Scope Z_scope.

Class Regexp := {
  regexp : Type;
  (** [regexp.Compile]: an expression, or the text of the error. *)
  Compile : string -> result string regexp;
  (** [FindAllStringSubmatchIndex(s, -1)] *)
  FindAll : regexp -> string -> list (list (option (nat * nat)));
  SubexpNames : regexp -> list string;
  (** [unicode.IsLetter] and [unicode.IsDigit]. *)
  letter_or_digit : Z -> bool }.

(** The text from one position to another. *)
Definition slice (s : string) (a b : nat) : string := str_take (b - a) (str_drop a s).

Section Matching.
Context `{Regexp}.

Definition bounds (m : list (option (nat * nat))) : option (nat * nat) :=
  match m with Some ab :: _ => Some ab | _ => None end.

(** [FindAllStringIndex(s, -1)] *)
Definition FindAllStringIndex (re : regexp) (s : string) : list (nat * nat) := omap bounds (FindAll re s).
Definition FindStringIndex (re : regexp) (s : string) : option (nat * nat) := head (FindAllStringIndex re s).
Definition MatchString (re : regexp) (s : string) : bool := bool_decide (FindAllStringIndex re s <> []).

(** ** Templates *)

Definition is_word_rune (r : Z) : bool := letter_or_digit r || (r =? 95).

(** The bytes of the letters, digits and underscores that start a string. *)
Fixpoint word_length (fuel : nat) (s : string) : nat :=
  match fuel, s with
  | S fuel, String _ _ =>
      let '(r, n) := DecodeRune s in
      if is_word_rune r then (n + word_length fuel (str_drop n s))%nat else 0%nat
  | _, _ => 0%nat
  end.

(** A reference by number, or -1. *)
Definition group_number (name : string) : Z :=
  if HasPrefix name "0" && (1 <? String.length name)%nat then -1
  else if str_forall is_digit name && (String.length name <=? 8)%nat then default (-1) (parse_digits 10 name 0) else -1.

(** [extract] of the package regexp: the name after a dollar sign, its number, the rest. *)
Definition extract (s : string) : option (string * Z * string) :=
  let brace := HasPrefix s "{" in
  let s := if brace then str_drop 1 s else s in
  let n := word_length (String.length s) s in
  if (n =? 0)%nat then None
  else
    let name := str_take n s in
    let rest := str_drop n s in
    if brace then
      if HasPrefix rest "}" then Some (name, group_number name, str_drop 1 rest) else None
    else Some (name, group_number name, rest).

Definition group_text (src : string) (m : list (option (nat * nat))) (i : nat) : option string :=
  match m !! i with Some (Some (a, b)) => Some (slice src a b) | _ => None end.

(** The first group of a name that took part in the match. *)
Fixpoint named_group (name src : string) (m : list (option (nat * nat))) (names : list string) (i : nat) : string :=
  match names with
  | [] => ""
  | n :: names =>
      match (if n =s? name then group_text src m i else None) with
      | Some t => t
      | None => named_group name src m names (S i)
      end
  end.

(** [expand] of the package regexp. *)
Fixpoint expand (fuel : nat) (re : regexp) (template src : string) (m : list (option (nat * nat))) : string :=
  match fuel, template with
  | S fuel, String c t =>
      if c =c? "$" then
        if HasPrefix t "$" then String "$" (expand fuel re (str_drop 1 t) src m)
        else
          match extract t with
          | None => String "$" (expand fuel re t src m)
          | Some (name, num, rest) =>
              (if 0 <=? num then default "" (group_text src m (Z.to_nat num))
               else named_group name src m (SubexpNames re) 0) +:+ expand fuel re rest src m
          end
      else String c (expand fuel re t src m)
  | _, _ => ""
  end.

(** [ReplaceAllString(src, template)]; [last] is the end of the match before. *)
Fixpoint replace_from (re : regexp) (src template : string) (last : nat) (ms : list (list (option (nat * nat)))) : string :=
  match ms with
  | [] => str_drop last src
  | m :: ms =>
      match bounds m with
      | Some (a, b) =>
          slice src last a +:+ expand (String.length template) re template src m +:+ replace_from re src template b ms
      | None => replace_from re src template last ms
      end
  end.

Definition ReplaceAllString (re : regexp) (src template : string) : string :=
  replace_from re src template 0 (FindAll re src).
End Matching.

(** * A concrete instance: texts that stand for themselves *)

Fixpoint literal_matches (fuel : nat) (lit s : string) (pos : nat) : list (list (option (nat * nat))) :=
  match fuel with
  | O => []
  | S fuel =>
      match Index s lit with
      | None => []
      | Some i =>
          let a := (pos + i)%nat in
          let b := (a + String.length lit)%nat in
          [Some (a, b)] :: literal_matches fuel lit (str_drop (i + String.length lit) s) b
      end
  end.

Definition literal_regexp : Regexp := {|
  regexp := string;
  Compile := fun s => if s =s? "" then Err "empty" else Ok s;
  FindAll := fun lit s => literal_matches (String.length s) lit s 0;
  SubexpNames := fun _ => [""];
  letter_or_digit := fun r => ((48 <=? r) && (r <=? 57)) || ((65 <=? r) && (r <=? 90)) || ((97 <=? r) && (r <=? 122)) |}.
