(* ===== verification/SedSyntax.v ===== *)
(** Scripts of sed: the parser of pkg/sed/parser.go.

    The parser is the text that is still to be read.  [regexp] is the interface of Regexp.v.  The
    blocks of a script nest; their parser carries fuel, and the length of the script is enough. *)

From S2P Require Import Prelude GoStd Utf8 Regexp.

Local Open Scope Z_scope.

(** [p.peek()]: -1 at the end. *)
Definition speek (s : string) : Z := match s with "" => -1 | String c _ => code c end.

Definition at_char (s : string) (c : ascii) : bool := speek s =? code c.

Section Syntax.
Context `{Regexp}.

Inductive Address :=
| AddrLine (line step : Z)
| AddrLast
| AddrRegexp (re : option regexp).

Inductive Instruction := MkInstruction {
  Addr1 : option Address;
  Addr2 : option Address;
  AddressInvert : bool;
  Cmd : ascii;
  Re : option regexp;
  Repl : string;
  Global_ : bool;
  Print_ : bool;
  SubNum : Z;
  WFile : string;
  Text : string;
  Label : string;
  File : string;
  Block : list Instruction;
  JumpTarget : Z }.

(** [&Instruction{}] with addresses and a command. *)
Definition instruction (a1 a2 : option Address) (invert : bool) (cmd : ascii) : Instruction :=
  {| Addr1 := a1; Addr2 := a2; AddressInvert := invert; Cmd := cmd; Re := None; Repl := ""; Global_ := false;
     Print_ := false; SubNum := 0; WFile := ""; Text := ""; Label := ""; File := ""; Block := []; JumpTarget := 0 |}.

Definition with_block (block : list Instruction) (i : Instruction) : Instruction :=
  {| Addr1 := Addr1 i; Addr2 := Addr2 i; AddressInvert := AddressInvert i; Cmd := Cmd i; Re := Re i; Repl := Repl i;
     Global_ := Global_ i; Print_ := Print_ i; SubNum := SubNum i; WFile := WFile i; Text := Text i; Label := Label i;
     File := File i; Block := block; JumpTarget := JumpTarget i |}.

Definition with_jump (target : Z) (i : Instruction) : Instruction :=
  {| Addr1 := Addr1 i; Addr2 := Addr2 i; AddressInvert := AddressInvert i; Cmd := Cmd i; Re := Re i; Repl := Repl i;
     Global_ := Global_ i; Print_ := Print_ i; SubNum := SubNum i; WFile := WFile i; Text := Text i; Label := Label i;
     File := File i; Block := Block i; JumpTarget := target |}.

(** The argument of a command: the text of a, i and c; a label; a file. *)
Definition with_arguments (text label file : string) (i : Instruction) : Instruction :=
  {| Addr1 := Addr1 i; Addr2 := Addr2 i; AddressInvert := AddressInvert i; Cmd := Cmd i; Re := Re i; Repl := Repl i;
     Global_ := Global_ i; Print_ := Print_ i; SubNum := SubNum i; WFile := WFile i; Text := text; Label := label;
     File := file; Block := Block i; JumpTarget := JumpTarget i |}.

(** The flags of s. *)
Record s_flags := { sf_global : bool; sf_print : bool; sf_num : Z; sf_file : string; sf_pat : string }.

Definition with_substitution (re : option regexp) (repl : string) (f : s_flags) (i : Instruction) : Instruction :=
  {| Addr1 := Addr1 i; Addr2 := Addr2 i; AddressInvert := AddressInvert i; Cmd := Cmd i; Re := re; Repl := repl;
     Global_ := sf_global f; Print_ := sf_print f; SubNum := sf_num f; WFile := sf_file f; Text := Text i;
     Label := Label i; File := File i; Block := Block i; JumpTarget := JumpTarget i |}.

Inductive sed_error :=
| UnclosedBrace | UnexpectedBrace | UnterminatedRegex | InvalidS | UnterminatedPattern | UnterminatedReplacement
| UnknownCommand (cmd : ascii) | BadRegexp (msg : string) | NoLabel (label : string) | SedFuel.

(** ** Basic regular expressions *)

(** What changes meaning with a backslash. *)
Definition bre_special (c : ascii) : bool :=
  (c =c? "|") || (c =c? "+") || (c =c? "?") || (c =c? "(") || (c =c? ")") || (c =c? "{") || (c =c? "}").

Definition ere_special (c : ascii) : bool :=
  bre_special c || (c =c? ".") || (c =c? "*") || (c =c? "[") || (c =c? "]") || (c =c? "^") || (c =c? "$") || (c =c? "\").

Fixpoint ere_of (expr : string) (delim : ascii) (escaped : bool) : string :=
  match expr with
  | "" => if escaped then "\" else ""
  | String c expr =>
      if escaped then
        if c =c? delim then
          if ere_special c then String "\" (String c (ere_of expr delim false)) else String c (ere_of expr delim false)
        else if bre_special c then String c (ere_of expr delim false)
        else String "\" (String c (ere_of expr delim false))
      else if c =c? "\" then ere_of expr delim true
      else if bre_special c then String "\" (String c (ere_of expr delim false))
      else String c (ere_of expr delim false)
  end.

Definition compileBRE (expr : string) (delim : ascii) : result sed_error regexp :=
  match Compile (ere_of expr delim false) with Ok re => Ok re | Err msg => Err (BadRegexp msg) end.

(** ** Pieces of text *)

Definition is_sed_blank (c : ascii) : bool := (c =c? " ") || (code c =? 9).
Definition is_sed_space (c : ascii) : bool := is_sed_blank c || (code c =? 10) || (code c =? 13) || (c =c? ";").

Definition skipWhitespace (s : string) : string := TrimLeft is_sed_space s.

(** A pattern up to its delimiter, which is -1 where the text ended, and the rest from there. *)
Fixpoint scan_pattern (delim : Z) (inBracket : bool) (s : string) : option (string * string) :=
  match s with
  | "" => None
  | String c r =>
      if code c =? 10 then None
      else if c =c? "\" then
        match r with
        | "" => None
        | String d r => '(w, rest) ← scan_pattern delim inBracket r; Some (String c (String d w), rest)
        end
      else if (c =c? "[") && negb inBracket then '(w, rest) ← scan_pattern delim true r; Some (String c w, rest)
      else if (c =c? "]") && inBracket then '(w, rest) ← scan_pattern delim false r; Some (String c w, rest)
      else if (code c =? delim) && negb inBracket then Some ("", s)
      else '(w, rest) ← scan_pattern delim inBracket r; Some (String c w, rest)
  end.

Fixpoint scan_replacement (delim : Z) (s : string) : option (string * string) :=
  match s with
  | "" => None
  | String c r =>
      if code c =? 10 then None
      else if c =c? "\" then
        match r with
        | "" => None
        | String d r => '(w, rest) ← scan_replacement delim r; Some (String c (String d w), rest)
        end
      else if code c =? delim then Some ("", s)
      else '(w, rest) ← scan_replacement delim r; Some (String c w, rest)
  end.

(** [string(b)] for a byte: the UTF-8 encoding of the rune of that number. *)
Definition of_byte (c : ascii) : string := EncodeRune (code c).

Definition newline : string := String "010" "".

(** The replacement as a template of the package regexp. *)
Fixpoint repl_template (delim : Z) (raw : string) : string :=
  match raw with
  | "" => ""
  | String c r =>
      if c =c? "\" then
        match r with
        | "" => of_byte c
        | String next t =>
            (if code next =? delim then of_byte next
             else if is_digit next then "$" +:+ of_byte next
             else if next =c? "&" then "&"
             else if next =c? "\" then "\"
             else if next =c? "n" then newline
             else if next =c? "t" then String "009" ""
             else if next =c? "r" then String "013" ""
             else of_byte next) +:+ repl_template delim t
        end
      else (if c =c? "&" then "$0" else of_byte c) +:+ repl_template delim r
  end.

(** A label or a file name ends at a blank, a newline or a semicolon. *)
Definition is_word_end (c : ascii) : bool := is_sed_blank c || (code c =? 10) || (c =c? ";").
Definition scan_word (s : string) : string * string := str_span (fun c => negb (is_word_end c)) s.

Fixpoint s_flags_loop (fuel : nat) (f : s_flags) (s : string) : s_flags * string :=
  match fuel with
  | O => (f, s)
  | S fuel =>
      match s with
      | "" => (f, s)
      | String c r =>
          let next f := s_flags_loop fuel f r in
          if c =c? "g" then
            next {| sf_global := true; sf_print := sf_print f; sf_num := sf_num f; sf_file := sf_file f; sf_pat := sf_pat f |}
          else if c =c? "p" then
            next {| sf_global := sf_global f; sf_print := true; sf_num := sf_num f; sf_file := sf_file f; sf_pat := sf_pat f |}
          else if (c =c? "I") || (c =c? "i") then
            next {| sf_global := sf_global f; sf_print := sf_print f; sf_num := sf_num f; sf_file := sf_file f;
                    sf_pat := "(?i)" +:+ sf_pat f |}
          else if (49 <=? code c) && (code c <=? 57) then
            next {| sf_global := sf_global f; sf_print := sf_print f; sf_num := code c - 48; sf_file := sf_file f;
                    sf_pat := sf_pat f |}
          else if c =c? "w" then
            let '(w, rest) := scan_word (TrimLeft is_sed_blank r) in
            s_flags_loop fuel {| sf_global := sf_global f; sf_print := sf_print f; sf_num := sf_num f; sf_file := w;
                                 sf_pat := sf_pat f |} rest
          else (f, s)
      end
  end.

(** The text of a, i and c with its newline, and the rest. *)
Fixpoint scan_text (s : string) : string * string :=
  match s with
  | "" => ("", "")
  | String c r =>
      if c =c? "\" then
        match r with
        | "" => (String c "", "")
        | String d r => let '(w, rest) := scan_text r in (String c (String d w), rest)
        end
      else if code c =? 10 then (String c "", r)
      else let '(w, rest) := scan_text r in (String c w, rest)
  end.

Fixpoint unescape_text (raw : string) : string :=
  match raw with
  | "" => ""
  | String c r =>
      if c =c? "\" then
        match r with
        | "" => of_byte c
        | String d t =>
            (if d =c? "n" then newline
             else if d =c? "t" then String "009" ""
             else if d =c? "r" then String "013" ""
             else if code d =? 10 then ""
             else of_byte d) +:+ unescape_text t
        end
      else of_byte c +:+ unescape_text r
  end.

(** ** Addresses and instructions *)

Definition parse_regexp_address (s : string) : result sed_error (option Address * string) :=
  let '(delim, r) :=
    if at_char s "\" then (speek (str_drop 1 s), str_drop 2 s) else (speek s, str_drop 1 s) in
  match scan_pattern delim false r with
  | None => Err UnterminatedRegex
  | Some (expr, rest) =>
      let rest := str_drop 1 rest in
      if expr =s? "" then Ok (Some (AddrRegexp None), rest)
      else let? re := compileBRE expr (chr delim) in Ok (Some (AddrRegexp (Some re)), rest)
  end.

Definition parseAddress (s : string) : result sed_error (option Address * string) :=
  match s with
  | "" => Ok (None, s)
  | String c r =>
      if is_digit c then let '(w, rest) := str_span is_digit s in Ok (Some (AddrLine (AtoiVal w) 0), rest)
      else if c =c? "$" then Ok (Some AddrLast, r)
      else if (c =c? "/") || (c =c? "\") then parse_regexp_address s
      else Ok (None, s)
  end.

(** The address after a comma. *)
Definition parse_second (s : string) : result sed_error (option Address * string) :=
  if at_char s "+" then
    let '(w, rest) := str_span is_digit (str_drop 1 s) in Ok (Some (AddrLine 0 (AtoiVal w)), rest)
  else parseAddress s.

Definition parse_addresses (s : string) : result sed_error (option Address * option Address * bool * string) :=
  let? '(a1, s) := parseAddress s in
  let? '(a2, s) := if at_char s "," then parse_second (str_drop 1 s) else Ok (None, s) in
  let s := skipWhitespace s in
  if at_char s "!" then Ok (a1, a2, true, skipWhitespace (str_drop 1 s)) else Ok (a1, a2, false, s).

Definition parse_s (i : Instruction) (s : string) : result sed_error (Instruction * string) :=
  let delim := speek s in
  if (delim =? -1) || (delim =? 10) then Err InvalidS
  else
    match scan_pattern delim false (str_drop 1 s) with
    | None => Err UnterminatedPattern
    | Some (pat, rest) =>
        match scan_replacement delim (str_drop 1 rest) with
        | None => Err UnterminatedReplacement
        | Some (replRaw, rest) =>
            let rest := str_drop 1 rest in
            let '(f, rest) := s_flags_loop (S (String.length rest))
              {| sf_global := false; sf_print := false; sf_num := 0; sf_file := ""; sf_pat := pat |} rest in
            let repl := repl_template delim replRaw in
            if sf_pat f =s? "" then Ok (with_substitution None repl f i, rest)
            else let? re := compileBRE (sf_pat f) (chr delim) in Ok (with_substitution (Some re) repl f i, rest)
        end
    end.

Definition parse_text_command (i : Instruction) (s : string) : Instruction * string :=
  let s := TrimLeft is_sed_blank s in
  let s := if at_char s "\" then str_drop 1 s else s in
  let s := if speek s =? 10 then str_drop 1 s else s in
  let '(raw, rest) := scan_text s in
  (with_arguments (TrimSuffix (unescape_text raw) newline) "" "" i, rest).

Definition no_arguments (c : ascii) : bool :=
  (c =c? "d") || (c =c? "D") || (c =c? "p") || (c =c? "P") || (c =c? "n") || (c =c? "N") || (c =c? "g") || (c =c? "G") ||
  (c =c? "h") || (c =c? "H") || (c =c? "x") || (c =c? "q") || (c =c? "=") || (c =c? "l").

Section Blocks.
Variable parseBlock : string -> result sed_error (list Instruction * string).

(** The command and what follows; no instruction at the end of the script. *)
Definition parseInstruction (s : string) : result sed_error (option Instruction * string) :=
  let? '(a1, a2, invert, s) := parse_addresses s in
  match s with
  | "" => Ok (None, "")
  | String c r =>
      let i := instruction a1 a2 invert c in
      if c =c? "{" then let? '(block, rest) := parseBlock r in Ok (Some (with_block block i), rest)
      else if c =c? "s" then let? '(i, rest) := parse_s i r in Ok (Some i, rest)
      else if (c =c? "a") || (c =c? "i") || (c =c? "c") then
        let '(i, rest) := parse_text_command i r in Ok (Some i, rest)
      else if (c =c? "b") || (c =c? "t") || (c =c? "T") || (c =c? ":") || (c =c? "r") || (c =c? "w") then
        let '(w, rest) := scan_word (TrimLeft is_sed_blank r) in
        Ok (Some (if (c =c? "r") || (c =c? "w") then with_arguments "" "" w i else with_arguments "" w "" i), rest)
      else if no_arguments c then Ok (Some i, r)
      else Err (UnknownCommand c)
  end.
End Blocks.

Fixpoint parse_block (fuel : nat) (inBlock : bool) (s : string) : result sed_error (list Instruction * string) :=
  match fuel with
  | O => Err SedFuel
  | S fuel =>
      let s := skipWhitespace s in
      if s =s? "" then if inBlock then Err UnclosedBrace else Ok ([], "")
      else if at_char s "}" then if inBlock then Ok ([], str_drop 1 s) else Err UnexpectedBrace
      else if at_char s "#" then parse_block fuel inBlock (TrimLeft (fun c => negb (code c =? 10)) s)
      else
        let? '(i, s) := parseInstruction (parse_block fuel true) s in
        let? '(insts, s) := parse_block fuel inBlock s in
        Ok (match i with Some i => i :: insts | None => insts end, s)
  end.

Definition Parse (script : string) : result sed_error (list Instruction) :=
  let? '(insts, _) := parse_block (S (String.length script)) false script in Ok insts.

(** ** Flattening *)

(** The instructions in one list: a block between a brace, which knows the position of the
    closing one, and that brace; [pos] is the number of instructions before. *)
Fixpoint flatten_one (pos : Z) (i : Instruction) : list Instruction :=
  if Cmd i =c? "{" then
    let body :=
      (fix flatten (pos : Z) (l : list Instruction) : list Instruction :=
         match l with
         | [] => []
         | i :: l => let f := flatten_one pos i in f ++ flatten (pos + Z.of_nat (length f)) l
         end) (pos + 1) (Block i) in
    with_jump (pos + 1 + Z.of_nat (length body)) (instruction (Addr1 i) (Addr2 i) (AddressInvert i) "{") ::
    body ++ [instruction None None false "}"]
  else [i].

Fixpoint flatten (pos : Z) (l : list Instruction) : list Instruction :=
  match l with
  | [] => []
  | i :: l => let f := flatten_one pos i in f ++ flatten (pos + Z.of_nat (length f)) l
  end.

(** The positions of the labels; of two with a name, the later one. *)
Fixpoint labels_from (pos : Z) (flat : list Instruction) (labels : gmap string Z) : gmap string Z :=
  match flat with
  | [] => labels
  | i :: flat => labels_from (pos + 1) flat (if Cmd i =c? ":" then <[Label i := pos]> labels else labels)
  end.

Definition is_jump (c : ascii) : bool := (c =c? "b") || (c =c? "t") || (c =c? "T").

Fixpoint resolve (labels : gmap string Z) (end_ : Z) (flat : list Instruction) : result sed_error (list Instruction) :=
  match flat with
  | [] => Ok []
  | i :: flat =>
      let? i :=
        if is_jump (Cmd i) then
          if Label i =s? "" then Ok (with_jump end_ i)
          else match labels !! Label i with Some target => Ok (with_jump target i) | None => Err (NoLabel (Label i)) end
        else Ok i in
      let? flat := resolve labels end_ flat in Ok (i :: flat)
  end.

Definition compileAst (insts : list Instruction) : result sed_error (list Instruction) :=
  let flat := flatten 0 insts in
  resolve (labels_from 0 flat ∅) (Z.of_nat (length flat)) flat.
End Syntax.
