(* ===== verification/Sed.v ===== *)
(** The stream editor: the engine of pkg/sed/engine.go and the command of pkg/sed/sed.go.

    The state has the parts of [engineState]: the spaces, the reader, the address ranges and the
    output.  Maps keyed by the pointer of an instruction or of its address are keyed by the position
    of the instruction.  The files are a map from paths to contents; a file is read as it is when
    it is opened, and creating a file succeeds.  [execFlat] carries fuel, a unit for each
    instruction; a script may loop for ever. *)

From S2P Require Import Prelude GoStd Utf8 Output Regexp SedSyntax.

Local Open Scope Z_scope.

Section Engine.
Context `{Regexp}.

(** * State *)

Record reader := {
  unread : string;
  nextLine : string;
  nextHasTrailingNewline : bool;
  hasNext : bool }.

Record spaces := {
  patSpace : string;
  holdSpace : string;
  hasTrailingNewline : bool;
  substituted : bool;
  skipRead : bool;
  lineNum : Z;
  isEOF : bool }.

Record ranges := {
  addrState : gset nat;
  matchedLineAddrs : gset nat;
  (** The lines of the addresses with a step. *)
  stepLines : gmap nat Z;
  lastRegex : option regexp }.

(** Where [e.out] goes: the standard output, or a temporary file that is open or closed. *)
Inductive destination := ToStdout | ToTemp (path : string) (opened : bool).

Record sink := {
  stdout : string;
  disk : gmap string string;
  lastLacked : gset string;
  dest : destination }.

Record engineState := {
  sp : spaces;
  rd : reader;
  rg : ranges;
  sk : sink;
  pendingAppend : list string }.

Definition on_spaces (f : spaces -> spaces) (e : engineState) : engineState :=
  {| sp := f (sp e); rd := rd e; rg := rg e; sk := sk e; pendingAppend := pendingAppend e |}.
Definition on_ranges (f : ranges -> ranges) (e : engineState) : engineState :=
  {| sp := sp e; rd := rd e; rg := f (rg e); sk := sk e; pendingAppend := pendingAppend e |}.
Definition on_sink (f : sink -> sink) (e : engineState) : engineState :=
  {| sp := sp e; rd := rd e; rg := rg e; sk := f (sk e); pendingAppend := pendingAppend e |}.
Definition set_reader (r : reader) (e : engineState) : engineState :=
  {| sp := sp e; rd := r; rg := rg e; sk := sk e; pendingAppend := pendingAppend e |}.
Definition set_appends (l : list string) (e : engineState) : engineState :=
  {| sp := sp e; rd := rd e; rg := rg e; sk := sk e; pendingAppend := l |}.

Definition set_pat (p : string) (s : spaces) : spaces :=
  {| patSpace := p; holdSpace := holdSpace s; hasTrailingNewline := hasTrailingNewline s;
     substituted := substituted s; skipRead := skipRead s; lineNum := lineNum s; isEOF := isEOF s |}.
Definition set_hold (h : string) (s : spaces) : spaces :=
  {| patSpace := patSpace s; holdSpace := h; hasTrailingNewline := hasTrailingNewline s;
     substituted := substituted s; skipRead := skipRead s; lineNum := lineNum s; isEOF := isEOF s |}.
Definition set_substituted (b : bool) (s : spaces) : spaces :=
  {| patSpace := patSpace s; holdSpace := holdSpace s; hasTrailingNewline := hasTrailingNewline s;
     substituted := b; skipRead := skipRead s; lineNum := lineNum s; isEOF := isEOF s |}.
Definition set_skipRead (b : bool) (s : spaces) : spaces :=
  {| patSpace := patSpace s; holdSpace := holdSpace s; hasTrailingNewline := hasTrailingNewline s;
     substituted := substituted s; skipRead := b; lineNum := lineNum s; isEOF := isEOF s |}.
Definition set_eof (b : bool) (s : spaces) : spaces :=
  {| patSpace := patSpace s; holdSpace := holdSpace s; hasTrailingNewline := hasTrailingNewline s;
     substituted := substituted s; skipRead := skipRead s; lineNum := lineNum s; isEOF := b |}.
(** The next line read becomes part of the pattern space [p]. *)
Definition take_line (p : string) (newline_ : bool) (s : spaces) : spaces :=
  {| patSpace := p; holdSpace := holdSpace s; hasTrailingNewline := newline_;
     substituted := substituted s; skipRead := skipRead s; lineNum := lineNum s + 1; isEOF := isEOF s |}.

Definition set_sink (o : string) (d : gmap string string) (l : gset string) (s : sink) : sink :=
  {| stdout := o; disk := d; lastLacked := l; dest := dest s |}.
Definition set_dest (d : destination) (s : sink) : sink :=
  {| stdout := stdout s; disk := disk s; lastLacked := lastLacked s; dest := d |}.

(** * Output *)

Definition append_to (path text : string) (d : gmap string string) : gmap string string :=
  <[path := default "" (d !! path) +:+ text]> d.

(** [fmt.Fprint(e.out, text)]; what is written to a closed file is lost. *)
Definition write_out (text : string) (s : sink) : sink :=
  match dest s with
  | ToStdout => set_sink (stdout s +:+ text) (disk s) (lastLacked s) s
  | ToTemp path true => set_sink (stdout s) (append_to path text (disk s)) (lastLacked s) s
  | ToTemp _ false => s
  end.

Definition write_file (path text : string) (s : sink) : sink :=
  set_sink (stdout s) (append_to path text (disk s)) (lastLacked s) s.

Definition set_lacked (streamID : string) (lacks : bool) (s : sink) : sink :=
  set_sink (stdout s) (disk s) (if lacks then {[streamID]} ∪ lastLacked s else lastLacked s ∖ {[streamID]}) s.

Definition lacked (streamID : string) (s : sink) : bool := bool_decide (streamID ∈ lastLacked s).

(** [printStream], with the writing to the stream as a function. *)
Definition printStream (w : string -> sink -> sink) (newline_ : bool) (text streamID : string) (s : sink) : sink :=
  let s := if lacked streamID s then w newline s else s in
  let s := w text s in
  if newline_ then set_lacked streamID false (w newline s) else set_lacked streamID true s.

(** * Instructions *)

Section Run.
Variable suppress : bool.
Variable inPlace : bool.
(** The file that is read, and whether it is the last one. *)
Variable currentFile : string.
Variable lastFile : bool.

Definition streamID : string := if inPlace then currentFile else "stdout".

Definition printLine (text : string) (e : engineState) : engineState :=
  on_sink (printStream write_out (hasTrailingNewline (sp e)) text streamID) e.

Definition printText (text : string) : engineState -> engineState := on_sink (fun s =>
  let s := if lacked streamID s then write_out newline s else s in
  set_lacked streamID false (write_out newline (write_out text s))).

Definition printLineRaw (text : string) : engineState -> engineState := on_sink (write_out text).

(** [e.reader.ReadString('\n')]: the line with its newline, and the rest. *)
Definition ReadString (s : string) : string * string :=
  let '(l, r) := str_span (fun c => negb (code c =? 10)) s in (l +:+ str_take 1 r, str_drop 1 r).

(** Reading a line ahead; [first] for the first line of a file. *)
Definition fetch (first : bool) (e : engineState) : engineState :=
  let r := rd e in
  let '(lineStr, rest) := ReadString (unread r) in
  let r :=
    if lineStr =s? "" then
      {| unread := rest; nextLine := if first then nextLine r else "";
         nextHasTrailingNewline := nextHasTrailingNewline r; hasNext := false |}
    else if HasSuffix lineStr newline then
      {| unread := rest; nextLine := TrimSuffix (TrimSuffix lineStr newline) (String "013" "");
         nextHasTrailingNewline := true; hasNext := true |}
    else {| unread := rest; nextLine := lineStr; nextHasTrailingNewline := false; hasNext := true |} in
  on_spaces (set_eof (negb (hasNext r) && (inPlace || lastFile))) (set_reader r e).

(** The line read ahead becomes the pattern space, after [prefix]. *)
Definition take_next (prefix : string) (e : engineState) : engineState :=
  on_spaces (take_line (prefix +:+ nextLine (rd e)) (nextHasTrailingNewline (rd e))) e.

(** ** Addresses *)

Definition set_lastRegex (re : option regexp) (r : ranges) : ranges :=
  {| addrState := addrState r; matchedLineAddrs := matchedLineAddrs r; stepLines := stepLines r; lastRegex := re |}.
Definition set_addrState (s : gset nat) (r : ranges) : ranges :=
  {| addrState := s; matchedLineAddrs := matchedLineAddrs r; stepLines := stepLines r; lastRegex := lastRegex r |}.
Definition set_matched (s : gset nat) (r : ranges) : ranges :=
  {| addrState := addrState r; matchedLineAddrs := s; stepLines := stepLines r; lastRegex := lastRegex r |}.
Definition set_stepLine (idx : nat) (l : Z) (r : ranges) : ranges :=
  {| addrState := addrState r; matchedLineAddrs := matchedLineAddrs r; stepLines := <[idx := l]> (stepLines r);
     lastRegex := lastRegex r |}.

(** The expression of an address or a command: the last one used if it is empty. *)
Definition effective_regexp (re : option regexp) (e : engineState) : option regexp :=
  match re with Some re => Some re | None => lastRegex (rg e) end.

Definition matchAddress (addr : Address) (e : engineState) : bool * engineState :=
  match addr with
  | AddrLine line _ => (lineNum (sp e) =? line, e)
  | AddrLast => (isEOF (sp e), e)
  | AddrRegexp re =>
      match effective_regexp re e with
      | Some re => (MatchString re (patSpace (sp e)), on_ranges (set_lastRegex (Some re)) e)
      | None => (false, e)
      end
  end.

(** Whether a range that is not active starts at the current line. *)
Definition range_starts (idx : nat) (a1 : Address) (e : engineState) : bool * engineState :=
  match a1 with
  | AddrLine line _ =>
      if (line <=? lineNum (sp e)) && negb (bool_decide (idx ∈ matchedLineAddrs (rg e))) then
        (true, on_ranges (fun r => set_matched ({[idx]} ∪ matchedLineAddrs r) r) e)
      else (false, e)
  | _ => matchAddress a1 e
  end.

(** Starting the range fixes the last line of an address [+N]. *)
Definition range_start (idx : nat) (a2 : Address) (e : engineState) : engineState :=
  let e := on_ranges (fun r => set_addrState ({[idx]} ∪ addrState r) r) e in
  match a2 with
  | AddrLine _ step => if 0 <? step then on_ranges (set_stepLine idx (wrap 64 (lineNum (sp e) + step))) e else e
  | _ => e
  end.

(** Whether an active range ends at the current line. *)
Definition range_ends (idx : nat) (a2 : Address) (e : engineState) : bool * engineState :=
  match a2 with
  | AddrLine line _ => (default line (stepLines (rg e) !! idx) <=? lineNum (sp e), e)
  | _ => matchAddress a2 e
  end.

Definition in_range (idx : nat) (a1 a2 : Address) (e : engineState) : bool * engineState :=
  let '(active, e) :=
    if bool_decide (idx ∈ addrState (rg e)) then (true, e)
    else let '(b, e) := range_starts idx a1 e in (b, if b : bool then range_start idx a2 e else e) in
  if active : bool then
    let '(ends, e) := range_ends idx a2 e in
    (true, if ends : bool then on_ranges (fun r => set_addrState (addrState r ∖ {[idx]}) r) e else e)
  else (false, e).

Definition shouldRun (idx : nat) (inst : Instruction) (e : engineState) : bool * engineState :=
  match Addr1 inst with
  | None => (negb (AddressInvert inst), e)
  | Some a1 =>
      let '(b, e) := match Addr2 inst with None => matchAddress a1 e | Some a2 => in_range idx a1 a2 e end in
      (xorb b (AddressInvert inst), e)
  end.

(** ** Commands *)

Inductive stop := Quit | NextCycle | QuitNoPrint.
Inductive control := Fall | Jump (ip : Z) | Stop (r : stop).

(** The pattern space with the occurrence at [loc] replaced. *)
Definition replace_at (re : regexp) (repl s : string) (loc : nat * nat) : string :=
  let '(a, b) := loc in str_take a s +:+ ReplaceAllString re (slice s a b) repl +:+ str_drop b s.

Definition replaced (inst : Instruction) (re : regexp) (s : string) : string :=
  if Global_ inst then ReplaceAllString re s (Repl inst)
  else if 0 <? SubNum inst then
    match FindAllStringIndex re s !! Z.to_nat (SubNum inst - 1) with
    | Some loc => replace_at re (Repl inst) s loc
    | None => s
    end
  else match FindStringIndex re s with Some loc => replace_at re (Repl inst) s loc | None => s end.

(** A line for the file of w. *)
Definition print_file (path : string) (e : engineState) : engineState :=
  if path =s? "" then e
  else on_sink (printStream (write_file path) (hasTrailingNewline (sp e)) (patSpace (sp e)) path) e.

Definition substitute (inst : Instruction) (e : engineState) : engineState :=
  match effective_regexp (Re inst) e with
  | None => e
  | Some re =>
      let e := on_ranges (set_lastRegex (Some re)) e in
      if MatchString re (patSpace (sp e)) then
        let e := on_spaces (fun s => set_pat (replaced inst re (patSpace s)) (set_substituted true s)) e in
        let e := if Print_ inst then printLine (patSpace (sp e)) e else e in
        print_file (WFile inst) e
      else e
  end.

(** The commands that change the state and fall through. *)
Definition simple_command (inst : Instruction) (e : engineState) : engineState :=
  let c := Cmd inst in
  let pat := patSpace (sp e) in
  if c =c? "s" then substitute inst e
  else if c =c? "p" then printLine pat e
  else if c =c? "P" then
    match Index pat newline with
    | Some idx => printLineRaw (str_take (S idx) pat) e
    | None => printLine pat e
    end
  else if c =c? "a" then set_appends (pendingAppend e ++ [Text inst]) e
  else if c =c? "i" then printText (Text inst) e
  else if c =c? "=" then on_sink (write_out (FormatInt (lineNum (sp e)) +:+ newline)) e
  else if c =c? "h" then on_spaces (set_hold pat) e
  else if c =c? "H" then on_spaces (fun s => set_hold (holdSpace s +:+ newline +:+ pat) s) e
  else if c =c? "g" then on_spaces (fun s => set_pat (holdSpace s) s) e
  else if c =c? "G" then on_spaces (fun s => set_pat (pat +:+ newline +:+ holdSpace s) s) e
  else if c =c? "x" then on_spaces (fun s => set_pat (holdSpace s) (set_hold pat s)) e
  else if c =c? "w" then print_file (File inst) e
  else e.

Definition exec_command (inst : Instruction) (e : engineState) : control * engineState :=
  let c := Cmd inst in
  let pat := patSpace (sp e) in
  if c =c? "d" then (Stop NextCycle, e)
  else if c =c? "D" then
    match Index pat newline with
    | Some idx => (Jump 0, on_spaces (fun s => set_skipRead true (set_pat (str_drop (S idx) pat) s)) e)
    | None => (Stop NextCycle, e)
    end
  else if c =c? "n" then
    let e := if suppress then e else printLine pat e in
    if isEOF (sp e) then (Stop QuitNoPrint, e) else (Fall, fetch false (take_next "" e))
  else if c =c? "N" then
    if isEOF (sp e) then (Stop Quit, e) else (Fall, fetch false (take_next (pat +:+ newline) e))
  else if c =c? "c" then (Stop NextCycle, printText (Text inst) e)
  else if c =c? "q" then (Stop Quit, e)
  else if c =c? "b" then (Jump (JumpTarget inst), e)
  else if c =c? "t" then
    (if substituted (sp e) then Jump (JumpTarget inst) else Fall, on_spaces (set_substituted false) e)
  else if c =c? "T" then
    (if substituted (sp e) then Fall else Jump (JumpTarget inst), on_spaces (set_substituted false) e)
  else (Fall, simple_command inst e).

(** The error that [execFlat] returns, if any, and the state; [None] for too little fuel. *)
Fixpoint execFlat (fuel : nat) (insts : list Instruction) (ip : Z) (e : engineState) : option (option stop * engineState) :=
  match insts !! Z.to_nat ip with
  | None => Some (None, e)
  | Some inst =>
      match fuel with
      | O => None
      | S fuel =>
          let '(run, e) := shouldRun (Z.to_nat ip) inst e in
          if run : bool then
            match exec_command inst e with
            | (Fall, e) => execFlat fuel insts (ip + 1) e
            | (Jump target, e) => execFlat fuel insts target e
            | (Stop r, e) => Some (Some r, e)
            end
          else execFlat fuel insts ((if Cmd inst =c? "{" then JumpTarget inst else ip) + 1) e
      end
  end.

(** * Cycles *)

Definition flush_appends (e : engineState) : engineState :=
  set_appends [] (foldl (fun e text => printText text e) e (pendingAppend e)).

(** The start of a cycle. *)
Definition start_cycle (e : engineState) : engineState :=
  let e := if skipRead (sp e) then e else on_spaces (set_substituted false) (take_next "" e) in
  fetch false (on_spaces (set_skipRead false) e).

(** The cycles of a file, each of which reads a line; whether [run] returns in them. *)
Fixpoint cycles (lines fuel : nat) (insts : list Instruction) (e : engineState) : option (bool * engineState) :=
  match lines with
  | O => None
  | S lines =>
      if negb (hasNext (rd e)) then Some (false, e)
      else
        '(r, e) ← execFlat fuel insts 0 (start_cycle e);
        match r with
        | Some Quit =>
            Some (true, if negb suppress && negb (skipRead (sp e)) then printLine (patSpace (sp e)) e else e)
        | Some QuitNoPrint => Some (true, e)
        | Some NextCycle => cycles lines fuel insts (flush_appends e)
        | None => cycles lines fuel insts (flush_appends (if suppress then e else printLine (patSpace (sp e)) e))
        end
  end.
End Run.

(** * Files *)

(** The text of the error of [os.Open]. *)
Variable open_error : string -> string.

Record run_state := { engine : engineState; input : string; exitCode : Z; messages : string }.

Definition with_engine (e : engineState) (r : run_state) : run_state :=
  {| engine := e; input := input r; exitCode := exitCode r; messages := messages r |}.

(** The contents of an operand, and the state after it is opened. *)
Definition open_operand (path : string) (r : run_state) : option string * run_state :=
  if path =s? "-" then
    (Some (input r), {| engine := engine r; input := ""; exitCode := exitCode r; messages := messages r |})
  else
    match disk (sk (engine r)) !! path with
    | Some text => (Some text, r)
    | None =>
        (None, {| engine := engine r; input := input r; exitCode := 1;
                  messages := messages r +:+ "sed: " +:+ path +:+ ": " +:+ open_error path +:+ newline |})
    end.

Definition reset_ranges (e : engineState) : engineState :=
  on_spaces (fun s => {| patSpace := patSpace s; holdSpace := holdSpace s; hasTrailingNewline := hasTrailingNewline s;
                         substituted := substituted s; skipRead := skipRead s; lineNum := 0; isEOF := isEOF s |})
    (on_ranges (fun r => set_addrState ∅ (set_matched ∅ r)) e).

Definition temp_path (path : string) : string := path +:+ ".tmp".

(** [os.Create(path + ".tmp")] *)
Definition create_temp (path : string) (e : engineState) : engineState :=
  on_sink (fun s => set_dest (ToTemp (temp_path path) true)
    (set_sink (stdout s) (<[temp_path path := ""]> (disk s)) (lastLacked s) s)) e.

(** [e.tmpFile.Close(); os.Rename(e.tmpFile.Name(), path)] *)
Definition rename_temp (path : string) (e : engineState) : engineState :=
  on_sink (fun s =>
    match dest s with
    | ToTemp tmp _ =>
        let disk_ := match disk s !! tmp with Some text => <[path := text]> (delete tmp (disk s)) | None => disk s end in
        set_dest (ToTemp tmp false) (set_sink (stdout s) disk_ (lastLacked s) s)
    | ToStdout => s
    end) e.

Section Files.
Variable suppress : bool.
Variable inPlace : bool.

(** One operand; whether the run ends in it. *)
Definition run_file (fuel : nat) (insts : list Instruction) (path : string) (lastFile : bool) (r : run_state) :
    option (bool * run_state) :=
  let r := if inPlace then with_engine (reset_ranges (engine r)) r else r in
  let '(text, r) := open_operand path r in
  match text with
  | None => Some (false, r)
  | Some text =>
      let e := if inPlace && negb (path =s? "-") then create_temp path (engine r) else engine r in
      let e := fetch inPlace lastFile true
        (set_reader {| unread := text; nextLine := nextLine (rd e);
                       nextHasTrailingNewline := nextHasTrailingNewline (rd e); hasNext := hasNext (rd e) |} e) in
      if negb (hasNext (rd e)) then Some (false, with_engine (if inPlace then rename_temp path e else e) r)
      else
        '(quit, e) ← cycles suppress inPlace path lastFile (S (S (String.length text))) fuel insts e;
        if quit : bool then Some (true, with_engine e r)
        else Some (false, with_engine (if inPlace && negb (path =s? "-") then rename_temp path e else e) r)
  end.

Fixpoint run_files (fuel : nat) (insts : list Instruction) (paths : list string) (r : run_state) : option run_state :=
  match paths with
  | [] => Some r
  | path :: paths =>
      '(quit, r) ← run_file fuel insts path (bool_decide (paths = [])) r;
      if quit : bool then Some r else run_files fuel insts paths r
  end.

(** [truncateWFiles] *)
Definition truncateWFiles (insts : list Instruction) (d : gmap string string) : gmap string string :=
  foldl (fun d i =>
    let file := if Cmd i =c? "w" then File i else if Cmd i =c? "s" then WFile i else "" in
    if file =s? "" then d else <[file := ""]> d) d insts.

Definition initial_engine (d : gmap string string) : engineState :=
  {| sp := {| patSpace := ""; holdSpace := ""; hasTrailingNewline := false; substituted := false;
              skipRead := false; lineNum := 0; isEOF := false |};
     rd := {| unread := ""; nextLine := ""; nextHasTrailingNewline := false; hasNext := false |};
     rg := {| addrState := ∅; matchedLineAddrs := ∅; stepLines := ∅; lastRegex := None |};
     sk := {| stdout := ""; disk := d; lastLacked := ∅; dest := ToStdout |};
     pendingAppend := [] |}.

Definition sed_message (e : sed_error) : string :=
  match e with
  | UnclosedBrace => "unclosed {"
  | UnexpectedBrace => "unexpected }"
  | UnterminatedRegex => "unterminated regex"
  | InvalidS => "invalid s command"
  | UnterminatedPattern => "unterminated s command pattern"
  | UnterminatedReplacement => "unterminated s command replacement"
  | UnknownCommand c => "unknown command '" +:+ EncodeRune (code c) +:+ "'"
  | BadRegexp msg => msg
  | NoLabel label => "can't find label for jump to '" +:+ label +:+ "'"
  | SedFuel => ""
  end.

Definition runEngineInternal (fuel : nat) (insts : list Instruction) (readers : list string) (stdin : string)
    (d : gmap string string) : option run_state :=
  match compileAst insts with
  | Err err =>
      Some {| engine := initial_engine d; input := stdin; exitCode := 1; messages := "sed: " +:+ sed_message err +:+ newline |}
  | Ok insts =>
      run_files fuel insts (match readers with [] => ["-"] | _ => readers end)
        {| engine := initial_engine (truncateWFiles insts d); input := stdin; exitCode := 0; messages := "" |}
  end.
End Files.

(** * The command *)

Record SedResult := { Lines : list string; LineCount : Z; Changed : bool; Scripts : list string }.

(** The script: the -e expressions and the contents of the -f files, or the first operand. *)
Definition sed_script (es : list string) (fs : list string) (positional : list string) : string * list string :=
  let expr := foldl (fun expr b => (if expr =s? "" then expr else expr +:+ newline) +:+ b) (join_with newline es) fs in
  if expr =s? "" then match positional with p :: rest => (p, rest) | [] => ("", []) end else (expr, positional).

(** [sedRun] after the options: what it returns and writes, and the files. *)
Definition sedRun (fuel : nat) (version jsonMode suppress inPlace : bool) (es fs positional : list string)
    (stdin : string) (d : gmap string string) : option (run_io SedResult * gmap string string) :=
  if version then Some ({| rc := 0; out := [CText ("GNU sed version 4.0 (GoPOSIX)" +:+ newline)]; errs := [] |}, d)
  else if jsonMode && inPlace then
    Some ({| rc := 2; out := []; errs := [CText ("sed: --json and --in-place are mutually exclusive" +:+ newline)] |}, d)
  else
    let '(expr, files) := sed_script es fs positional in
    if (expr =s? "") && bool_decide (positional = []) then
      Some ({| rc := 1; out := RenderError "sed" 1 "MISSING" "missing command" jsonMode;
               errs := if jsonMode then [] else [CText ("sed: missing command" +:+ newline)] |}, d)
    else
      match Parse expr with
      | Err err =>
          Some ({| rc := 1; out := RenderError "sed" 1 "SYNTAX" (sed_message err) jsonMode;
                   errs := if jsonMode then [] else [CText ("sed: " +:+ sed_message err +:+ newline)] |}, d)
      | Ok insts =>
          r ← runEngineInternal suppress inPlace fuel insts files stdin d;
          let text := stdout (sk (engine r)) in
          let lines := let l := split_nl text in if bool_decide (last l = Some "") then removelast l else l in
          Some ({| rc := exitCode r;
                   out := if jsonMode then
                            Render "sed" {| Lines := lines; LineCount := Z.of_nat (length lines); Changed := exitCode r =? 0;
                                            Scripts := [expr] |} true []
                          else [CText text];
                   errs := [CText (messages r)] |}, disk (sk (engine r)))
      end.
End Engine.
