(* ===== verification/SedLaws.v ===== *)
(** Laws of sed: structured scripts and streams of lines.

    The engine of Sed.v runs a flat list of instructions with jumps over a reader that is one line
    ahead.  For scripts that branch to their end only this is shown to be the execution of the
    nested script, and for those that read no further lines the whole run is a fold over the lines
    of the operands.  Two programs are computed from that: the empty script copies its input, and a
    range of line numbers prints the lines of the range. *)

From S2P Require Import Prelude GoStd Utf8 Output Regexp SedSyntax Sed.

Local Open Scope Z_scope.

Section Laws.
Context `{Regexp}.

(** * Nested scripts *)

(** How an instruction or a block ends: by falling through, by a jump to the end of the script, or
    with a result. *)
Inductive ending := Through | ToEnd | Stopped (r : stop).

Definition ending_of (c : control) : ending := match c with Fall => Through | Jump _ => ToEnd | Stop r => Stopped r end.

(** The number of instructions of the flat list. *)
Fixpoint size (i : Instruction) : nat :=
  if Cmd i =c? "{" then S (S (list_sum (map size (Block i)))) else 1%nat.

Definition sizes (l : list Instruction) : nat := list_sum (map size l).

(** No D, and no jumps but to the end. *)
Fixpoint nested (i : Instruction) : bool :=
  if Cmd i =c? "{" then forallb nested (Block i)
  else negb (Cmd i =c? "D") && (negb (is_jump (Cmd i)) || (Label i =s? "")).

Section Nested.
Variable suppress inPlace : bool.
Variable currentFile : string.
Variable lastFile : bool.

Local Notation command := (exec_command suppress inPlace currentFile lastFile).

(** The execution of a nested script; [pos] is the number of instructions before, by which the
    state knows its address ranges. *)
Fixpoint exec_one (pos : nat) (i : Instruction) (e : engineState) : ending * engineState :=
  let '(run, e) := shouldRun pos i e in
  if run : bool then
    if Cmd i =c? "{" then
      (fix exec_list (pos : nat) (l : list Instruction) (e : engineState) : ending * engineState :=
         match l with
         | [] => (Through, e)
         | i :: l =>
             match exec_one pos i e with
             | (Through, e) => exec_list (pos + size i)%nat l e
             | r => r
             end
         end) (S pos) (Block i) e
    else let '(c, e) := command i e in (ending_of c, e)
  else (Through, e).

Fixpoint exec_list (pos : nat) (l : list Instruction) (e : engineState) : ending * engineState :=
  match l with
  | [] => (Through, e)
  | i :: l =>
      match exec_one pos i e with
      | (Through, e) => exec_list (pos + size i)%nat l e
      | r => r
      end
  end.

Lemma exec_one_eq pos i e : exec_one pos i e =
  let '(run, e) := shouldRun pos i e in
  if run : bool then
    if Cmd i =c? "{" then exec_list (S pos) (Block i) e
    else let '(c, e) := command i e in (ending_of c, e)
  else (Through, e).
Proof. destruct i. reflexivity. Qed.

Lemma flatten_one_eq (pos : Z) (i : Instruction) : flatten_one pos i =
  if Cmd i =c? "{" then
    let body := flatten (pos + 1) (Block i) in
    with_jump (pos + 1 + Z.of_nat (length body)) (instruction (Addr1 i) (Addr2 i) (AddressInvert i) "{") ::
    body ++ [instruction None None false "}"]
  else [i].
Proof. destruct i. reflexivity. Qed.

(** ** Induction on scripts *)

Lemma Instruction_blocks (P : Instruction -> Prop) :
  (forall i, (Cmd i =c? "{") = false -> P i) ->
  (forall i, (Cmd i =c? "{") = true -> Forall P (Block i) -> P i) -> forall i, P i.
Proof.
  intros H1 H2. fix IH 1. intros i. destruct (Cmd i =c? "{") eqn:E; [|by apply H1].
  apply H2; [done|]. clear E. destruct i as [a1 a2 inv c re rp g p n wf t l f block j]. simpl.
  induction block as [|i block IHb]; constructor; [apply IH|apply IHb].
Qed.

Lemma flatten_length_all l : Forall (fun i => forall pos, length (flatten_one pos i) = size i) l ->
  forall pos, length (flatten pos l) = sizes l.
Proof.
  induction 1 as [|i l Hi _ IH]; intros pos; [done|]. cbn [flatten]. cbv zeta. rewrite length_app, Hi, IH. done.
Qed.

Lemma size_eq i : size i = if Cmd i =c? "{" then S (S (sizes (Block i))) else 1%nat.
Proof. by destruct i. Qed.

Lemma nested_eq i : nested i =
  if Cmd i =c? "{" then forallb nested (Block i)
  else negb (Cmd i =c? "D") && (negb (is_jump (Cmd i)) || (Label i =s? "")).
Proof. by destruct i. Qed.

Lemma flatten_length_one i : forall pos, length (flatten_one pos i) = size i.
Proof.
  induction i as [i Hc|i Hc IH] using Instruction_blocks; intros pos; rewrite flatten_one_eq, size_eq, Hc; [done|].
  cbv zeta. cbn [length]. rewrite length_app, flatten_length_all by done. simpl. lia.
Qed.

Lemma flatten_length l pos : length (flatten pos l) = sizes l.
Proof. apply flatten_length_all, Forall_forall. intros i _. apply flatten_length_one. Qed.

(** ** Resolved jumps *)

Definition resolved (end_ : Z) (i : Instruction) : Instruction := if is_jump (Cmd i) then with_jump end_ i else i.

Definition jumps_end (i : Instruction) : Prop := is_jump (Cmd i) = true -> Label i = "".

Lemma resolve_end labels end_ flat : Forall jumps_end flat -> resolve labels end_ flat = Ok (resolved end_ <$> flat).
Proof.
  induction 1 as [|i flat Hi _ IH]; [done|]. cbn [resolve]. rewrite IH, fmap_cons. unfold resolved at 2.
  destruct (is_jump (Cmd i)) eqn:E; [|done]. by rewrite (Hi E), seqb_refl.
Qed.

Lemma nested_jumps_all l : Forall (fun i => nested i = true -> forall pos, Forall jumps_end (flatten_one pos i)) l ->
  forallb nested l = true -> forall pos, Forall jumps_end (flatten pos l).
Proof.
  induction 1 as [|i l Hi _ IH]; intros Hn pos; [constructor|]. cbn [forallb] in Hn. apply andb_true_iff in Hn as [Hn1 Hn2].
  cbn [flatten]. apply Forall_app. split; [by apply Hi|by apply IH].
Qed.

Lemma nested_jumps_one i : nested i = true -> forall pos, Forall jumps_end (flatten_one pos i).
Proof.
  induction i as [i Hc|i Hc IH] using Instruction_blocks; intros Hn pos; rewrite flatten_one_eq, Hc; rewrite nested_eq, Hc in Hn.
  - constructor; [|done]. intros E. rewrite E in Hn. apply andb_true_iff in Hn as [_ Hn]. by apply String.eqb_eq.
  - cbv zeta. constructor; [done|]. apply Forall_app. split; [by apply nested_jumps_all|by repeat constructor].
Qed.

Lemma nested_jumps l pos : forallb nested l = true -> Forall jumps_end (flatten pos l).
Proof. intros Hn. apply nested_jumps_all; [|done]. apply Forall_forall. intros i _. apply nested_jumps_one. Qed.

Lemma compile_nested l : forallb nested l = true ->
  compileAst l = Ok (resolved (Z.of_nat (sizes l)) <$> flatten 0 l).
Proof. intros Hn. unfold compileAst. rewrite flatten_length. by apply resolve_end, nested_jumps. Qed.

(** ** The flat list executes the nested script *)

Lemma command_resolved t i e : (Cmd i =c? "D") = false ->
  let '(c, e') := command i e in
  command (resolved t i) e = (match c with Jump _ => Jump t | c => c end, e').
Proof.
  intros HD. unfold resolved, is_jump, exec_command.
  destruct (Cmd i =c? "b") eqn:Eb, (Cmd i =c? "t") eqn:Et, (Cmd i =c? "T") eqn:ET; cbn [orb]; cbv zeta;
    repeat (change (Cmd (with_jump t i)) with (Cmd i)); rewrite ?HD, ?Eb, ?Et, ?ET;
    repeat (case_match; simplify_eq; simpl; try done).
Qed.

Lemma resolved_shouldRun t i pos e : shouldRun pos (resolved t i) e = shouldRun pos i e.
Proof. unfold resolved. by destruct (is_jump (Cmd i)). Qed.

Lemma resolved_Cmd t i : Cmd (resolved t i) = Cmd i.
Proof. unfold resolved. by destruct (is_jump (Cmd i)). Qed.

(** The part of [F] at [pos]. *)
Definition code_at (F : list Instruction) (pos : nat) (C : list Instruction) : Prop :=
  exists C1 C2, F = C1 ++ C ++ C2 /\ length C1 = pos.

Lemma code_at_app F pos C D : code_at F pos (C ++ D) -> code_at F pos C /\ code_at F (pos + length C) D.
Proof.
  intros (C1 & C2 & -> & <-). split.
  - exists C1, (D ++ C2). by rewrite <- app_assoc.
  - exists (C1 ++ C), C2. by rewrite length_app, <- !app_assoc.
Qed.

Lemma code_at_head F pos i C : code_at F pos (i :: C) -> F !! pos = Some i /\ code_at F (S pos) C.
Proof.
  intros (C1 & C2 & -> & <-). split; [simpl; by rewrite list_lookup_middle|].
  exists (C1 ++ [i]), C2. rewrite length_app, <- app_assoc. simpl. split; [done|lia].
Qed.

Section Flat.
Variable F : list Instruction.

Local Notation flat fuel pos e := (execFlat suppress inPlace currentFile lastFile fuel F pos e).

(** What the flat list does from [pos] on when the script that is there ends in [r]; [next] is the
    position after it. *)
Definition continues (k next : nat) (r : ending * engineState) : option (option stop * engineState) :=
  match r with
  | (Through, e) => flat k (Z.of_nat next) e
  | (ToEnd, e) => Some (None, e)
  | (Stopped s, e) => Some (Some s, e)
  end.

Lemma flat_end k e : flat k (Z.of_nat (length F)) e = Some (None, e).
Proof. destruct k; cbn [execFlat]; by rewrite Nat2Z.id, lookup_ge_None_2 by lia. Qed.

Definition runs (pos : nat) (n : nat) (r : engineState -> ending * engineState) : Prop :=
  forall e, exists used, (used <= n)%nat /\ forall k, flat (used + k) (Z.of_nat pos) e = continues k (pos + n) (r e).

Lemma runs_list l : Forall (fun i => forall pos, nested i = true ->
    code_at F pos (resolved (Z.of_nat (length F)) <$> flatten_one (Z.of_nat pos) i) -> runs pos (size i) (exec_one pos i)) l ->
  forall pos, forallb nested l = true -> code_at F pos (resolved (Z.of_nat (length F)) <$> flatten (Z.of_nat pos) l) ->
  runs pos (sizes l) (exec_list pos l).
Proof.
  induction 1 as [|i l Hi _ IH]; intros pos Hn Hc e.
  - exists 0%nat. split; [lia|]. intros k. simpl. by rewrite Nat.add_0_r.
  - cbn [forallb] in Hn. apply andb_true_iff in Hn as [Hn1 Hn2]. cbn [flatten] in Hc. cbv zeta in Hc.
    rewrite flatten_length_one, fmap_app in Hc. apply code_at_app in Hc as [Hc1 Hc2].
    rewrite length_fmap, flatten_length_one in Hc2. rewrite <- Nat2Z.inj_add in Hc2.
    destruct (Hi pos Hn1 Hc1 e) as (u1 & Hu1 & H1). cbn [exec_list].
    destruct (exec_one pos i e) as [[| |r] e1]; cbn [continues] in H1.
    + destruct (IH _ Hn2 Hc2 e1) as (u2 & Hu2 & H2). exists (u1 + u2)%nat. split; [unfold sizes in *; simpl; lia|].
      intros k. rewrite <- Nat.add_assoc, H1, H2. unfold sizes. simpl. by rewrite Nat.add_assoc.
    + exists u1. split; [unfold sizes; simpl; lia|]. intros k. by rewrite H1.
    + exists u1. split; [unfold sizes; simpl; lia|]. intros k. by rewrite H1.
Qed.

Lemma brace_steps i e : Cmd i = "{"%char \/ Cmd i = "}"%char -> command i e = (Fall, e).
Proof. unfold exec_command, simple_command. by intros [-> | ->]. Qed.

Lemma runs_one i : forall pos, nested i = true ->
  code_at F pos (resolved (Z.of_nat (length F)) <$> flatten_one (Z.of_nat pos) i) -> runs pos (size i) (exec_one pos i).
Proof.
  induction i as [i Hb|i Hb IH] using Instruction_blocks; intros pos Hn Hc e.
  - rewrite flatten_one_eq, Hb in Hc. rewrite nested_eq, Hb in Hn. apply andb_true_iff in Hn as [HD _].
    apply negb_true_iff in HD. apply code_at_head in Hc as [Hl _]. rewrite size_eq, exec_one_eq, Hb.
    exists 1%nat. split; [lia|]. intros k. cbn [execFlat Nat.add]. rewrite Nat2Z.id, Hl, resolved_shouldRun, resolved_Cmd, Hb.
    destruct (shouldRun pos i e) as [run e1]. destruct run; cbn [continues].
    + pose proof (command_resolved (Z.of_nat (length F)) i e1 HD) as Hcmd.
      destruct (command i e1) as [c e2]. rewrite Hcmd. destruct c; cbn [ending_of continues].
      * f_equal. lia.
      * by rewrite flat_end.
      * done.
    + f_equal. lia.
  - assert (HT : exists T, T = Z.of_nat (length F)) by eauto. destruct HT as [T HT]. rewrite <- HT in Hc.
    rewrite flatten_one_eq, Hb in Hc. cbv zeta in Hc. rewrite flatten_length, fmap_cons, fmap_app in Hc. rewrite nested_eq, Hb in Hn.
    apply code_at_head in Hc as [Hl Hc]. apply code_at_app in Hc as [Hc1 Hc2].
    rewrite length_fmap, flatten_length in Hc2. apply code_at_head in Hc2 as [Hl2 _].
    rewrite size_eq, exec_one_eq, Hb.
    assert (Hrun : runs (S pos) (sizes (Block i)) (exec_list (S pos) (Block i))).
    { apply runs_list; [done|done|]. by rewrite <- HT, Nat2Z.inj_succ. }
    destruct (shouldRun pos i e) as [run e1] eqn:Hs.
    assert (Hs' : forall j, shouldRun pos (with_jump j (instruction (Addr1 i) (Addr2 i) (AddressInvert i) "{")) e = (run, e1))
      by (intros j; rewrite <- Hs; reflexivity).
    destruct run.
    + destruct (Hrun e1) as (u & Hu & H1).
      exists (S (u + match exec_list (S pos) (Block i) e1 with (Through, _) => 1 | _ => 0 end))%nat.
      split; [repeat case_match; lia|]. intros k. cbn [Nat.add execFlat].
      rewrite Nat2Z.id, Hl, resolved_shouldRun, Hs', brace_steps by (left; reflexivity).
      rewrite <- Nat.add_assoc. replace (Z.of_nat pos + 1) with (Z.of_nat (S pos)) by lia. rewrite H1.
      destruct (exec_list (S pos) (Block i) e1) as [[| |r] e2]; cbn [continues]; [|done|done].
      change (1 + k)%nat with (S k). cbn [execFlat]. rewrite Nat2Z.id, Hl2. cbn. f_equal. lia.
    + exists 1%nat. split; [lia|]. intros k. cbn [Nat.add execFlat continues]. rewrite Nat2Z.id, Hl,
      resolved_shouldRun, Hs'. cbn. f_equal. lia.
Qed.
End Flat.

Lemma flat_list l : forallb nested l = true -> forall flat_, compileAst l = Ok flat_ ->
  length flat_ = sizes l /\
  forall e fuel, (sizes l <= fuel)%nat ->
    execFlat suppress inPlace currentFile lastFile fuel flat_ 0 e =
    let '(r, e) := exec_list 0 l e in Some (match r with Stopped s => Some s | _ => None end, e).
Proof.
  intros Hn flat_ HF. rewrite compile_nested in HF by done. injection HF as <-.
  assert (Hlen : length (resolved (Z.of_nat (sizes l)) <$> flatten 0 l) = sizes l) by (by rewrite length_fmap, flatten_length).
  split; [done|]. set (F := resolved _ <$> _) in *. intros e fuel Hf.
  assert (Hc : code_at F 0 (resolved (Z.of_nat (length F)) <$> flatten (Z.of_nat 0) l)).
  { exists [], []. rewrite Hlen. by rewrite app_nil_r. }
  assert (Hall : Forall (fun i => forall pos, nested i = true ->
    code_at F pos (resolved (Z.of_nat (length F)) <$> flatten_one (Z.of_nat pos) i) -> runs F pos (size i) (exec_one pos i)) l)
    by (apply Forall_forall; intros; by apply runs_one).
  destruct (runs_list F l Hall 0 Hn Hc e) as (u & Hu & H1).
  specialize (H1 (fuel - u)%nat). replace (u + (fuel - u))%nat with fuel in H1 by lia. change (Z.of_nat 0) with 0 in H1. rewrite H1.
  destruct (exec_list 0 l e) as [[| |r] e']; cbn [continues]; [|done|done].
  replace (0 + sizes l)%nat with (length F) by lia. apply flat_end.
Qed.
End Nested.
End Laws.
