(* ===== verification/SedParse.v ===== *)
(** The parser of sed ends on every script.

    Every piece of a script that is read leaves no more than there was, and an instruction leaves
    less: the length of the script is enough fuel for its blocks. *)

From S2P Require Import Prelude GoStd Utf8 Regexp SedSyntax.

Local Open Scope nat_scope.

Local Notation len := String.length (only parsing).

Lemma str_span_length P s w r : str_span P s = (w, r) -> len s = len w + len r.
Proof.
  revert w r. induction s as [|c s IH]; intros w r E; cbn [str_span] in E; [by injection E as <- <-|].
  destruct (P c); [|by injection E as <- <-]. destruct (str_span P s) as [w' r']. injection E as <- <-.
  simpl. by rewrite (IH _ _ eq_refl).
Qed.

Lemma TrimLeft_length P s : len (TrimLeft P s) <= len s.
Proof. unfold TrimLeft. destruct (str_span P s) eqn:E. apply str_span_length in E. simpl. lia. Qed.

Lemma TrimLeft_shorter P c s : P c = true -> len (TrimLeft P (String c s)) < len (String c s).
Proof.
  intros Hc. unfold TrimLeft. destruct (str_span P (String c s)) as [w r] eqn:E.
  assert (w <> "") by (cbn [str_span] in E; rewrite Hc in E; destruct (str_span P s); injection E as <- <-; done).
  apply str_span_length in E. destruct w; [done|]. simpl in *. lia.
Qed.

Lemma skipWhitespace_length s : len (skipWhitespace s) <= len s.
Proof. apply TrimLeft_length. Qed.

Lemma scan_pattern_length delim s : forall inb w r, scan_pattern delim inb s = Some (w, r) -> len r <= len s.
Proof.
  enough (forall n s inb w r, len s <= n -> scan_pattern delim inb s = Some (w, r) -> len r <= len s) by eauto.
  clear s. induction n as [|n IH]; intros [|c s] inb w r Hn E; simpl in Hn; try lia; try discriminate.
  cbn [scan_pattern] in E.
  repeat (case_match; try discriminate); simplify_option_eq; repeat (case_match; simplify_eq); simpl in *;
    try match goal with H : scan_pattern _ _ _ = Some _ |- _ => apply IH in H end; simpl in *; lia.
Qed.

Lemma scan_replacement_length delim s : forall w r, scan_replacement delim s = Some (w, r) -> len r <= len s.
Proof.
  enough (forall n s w r, len s <= n -> scan_replacement delim s = Some (w, r) -> len r <= len s) by eauto.
  clear s. induction n as [|n IH]; intros [|c s] w r Hn E; simpl in Hn; try lia; try discriminate.
  cbn [scan_replacement] in E.
  repeat (case_match; try discriminate); simplify_option_eq; repeat (case_match; simplify_eq); simpl in *;
    try match goal with H : scan_replacement _ _ = Some _ |- _ => apply IH in H end; simpl in *; lia.
Qed.

Lemma scan_word_length s w r : scan_word s = (w, r) -> len r <= len s.
Proof. intros E. apply str_span_length in E. lia. Qed.

Lemma scan_text_length s : forall w r, scan_text s = (w, r) -> len r <= len s.
Proof.
  enough (forall n s w r, len s <= n -> scan_text s = (w, r) -> len r <= len s) by eauto.
  clear s. induction n as [|n IH]; intros [|c s] w r Hn E; simpl in Hn; try lia; [by injection E as <- <-..|].
  cbn [scan_text] in E. repeat (case_match; simplify_eq); simpl in *;
    try match goal with H : scan_text _ = _ |- _ => apply IH in H end; simpl in *; lia.
Qed.

Section Parsing.
Context `{Regexp}.

(** A parser leaves no more than [n] and needs no more fuel. *)
Definition fine {A} (n : nat) (r : result sed_error (A * string)) : Prop :=
  match r with Ok (_, rest) => len rest <= n | Err e => e <> SedFuel end.

Lemma fine_bind {A B} n m (r : result sed_error (A * string)) (f : A -> string -> result sed_error (B * string)) :
  fine n r -> (forall a rest, len rest <= n -> fine m (f a rest)) -> fine m (let? '(a, rest) := r in f a rest).
Proof. destruct r as [[a rest]|e]; simpl; intros Hr Hf; [by apply Hf|done]. Qed.

Lemma fine_mono {A} n m (r : result sed_error (A * string)) : n <= m -> fine n r -> fine m r.
Proof. destruct r as [[a rest]|e]; simpl; [lia|done]. Qed.

Lemma s_flags_length fuel : forall f s, len (snd (s_flags_loop fuel f s)) <= len s.
Proof.
  induction fuel as [|fuel IH]; intros f s; [done|]. cbn [s_flags_loop]. destruct s as [|c s]; [done|]. cbv zeta.
  repeat case_match; try (etransitivity; [apply IH|]; simpl; lia); [|done].
  etransitivity; [apply IH|]. destruct (scan_word (TrimLeft is_sed_blank s)) eqn:Ew. simplify_eq. apply scan_word_length in Ew.
  pose proof (TrimLeft_length is_sed_blank s). simpl. lia.
Qed.

Lemma compileBRE_fuel expr delim : compileBRE expr delim <> Err SedFuel.
Proof. unfold compileBRE. by case_match. Qed.

Lemma compile_fine {A} n expr delim (f : regexp -> A) rest : len rest <= n ->
  fine n (let? re := compileBRE expr delim in Ok (f re, rest)).
Proof. intros Hn. pose proof (compileBRE_fuel expr delim). destruct (compileBRE expr delim); simpl in *; [done|congruence]. Qed.

Lemma drop_length n k s : len s <= n -> len (str_drop k s) <= n.
Proof. rewrite slength_drop. lia. Qed.

Lemma parse_regexp_fine s : fine (len s) (parse_regexp_address s).
Proof.
  unfold parse_regexp_address.
  assert (forall delim r, len r <= len s -> fine (len s)
    match scan_pattern delim false r with
    | None => Err UnterminatedRegex
    | Some (expr, rest) =>
        let rest := str_drop 1 rest in
        if expr =s? "" then Ok (Some (AddrRegexp None), rest)
        else let? re := compileBRE expr (chr delim) in Ok (Some (AddrRegexp (Some re)), rest)
    end) as Hd.
  { intros delim r Hr. destruct (scan_pattern delim false r) as [[e rest]|] eqn:E; [|done]. apply scan_pattern_length in E.
    cbv zeta. destruct (e =s? ""); [cbn [fine]|apply compile_fine]; apply drop_length; lia. }
  destruct (at_char s "\"); apply Hd; by apply drop_length.
Qed.

Lemma parseAddress_fine s : fine (len s) (parseAddress s).
Proof.
  unfold parseAddress. destruct s as [|c s]; [simpl; lia|]. destruct (is_digit c).
  { destruct (str_span is_digit (String c s)) eqn:E. apply str_span_length in E. simpl in *. lia. }
  destruct (c =c? "$"); [simpl; lia|]. destruct ((c =c? "/") || (c =c? "\")); [apply parse_regexp_fine|simpl; lia].
Qed.

Lemma parse_second_fine s : fine (len s) (parse_second s).
Proof.
  unfold parse_second. destruct (at_char s "+"); [|apply parseAddress_fine].
  destruct (str_span is_digit (str_drop 1 s)) eqn:E. apply str_span_length in E. rewrite slength_drop in E. simpl. lia.
Qed.

Lemma parse_addresses_fine s : fine (len s) (parse_addresses s).
Proof.
  unfold parse_addresses. apply (fine_bind (len s)); [apply parseAddress_fine|]. intros a1 r1 H1.
  apply (fine_bind (len s)).
  { destruct (at_char r1 ","); [|done]. eapply fine_mono; [|apply parse_second_fine]. by apply drop_length. }
  intros a2 r2 H2. cbv zeta. pose proof (skipWhitespace_length r2).
  destruct (at_char _ "!"); cbn [fine]; [|lia]. pose proof (skipWhitespace_length (str_drop 1 (skipWhitespace r2))).
  rewrite slength_drop in *. lia.
Qed.

Lemma parse_s_fine i s : fine (len s) (parse_s i s).
Proof.
  unfold parse_s. cbv zeta. destruct (_ || _); [done|].
  destruct (scan_pattern _ _ _) as [[pat r1]|] eqn:E1; [|done]. apply scan_pattern_length in E1.
  destruct (scan_replacement _ _) as [[repl r2]|] eqn:E2; [|done]. apply scan_replacement_length in E2.
  set (f0 := {| sf_global := _ |}). pose proof (s_flags_length (S (len (str_drop 1 r2))) f0 (str_drop 1 r2)) as E3.
  destruct (s_flags_loop _ _ _) as [f r3]. cbn [snd] in E3. rewrite !slength_drop in *.
  destruct (sf_pat f =s? ""); [cbn [fine]|apply compile_fine]; lia.
Qed.

Lemma parse_text_fine i s : len (snd (parse_text_command i s)) <= len s.
Proof.
  unfold parse_text_command. cbv zeta. destruct (scan_text _) as [raw rest] eqn:E. apply scan_text_length in E. simpl.
  pose proof (TrimLeft_length is_sed_blank s). repeat case_match; rewrite ?slength_drop in *; lia.
Qed.

(** ** Blocks *)

Section Block.
Variable parseBlock : string -> result sed_error (list Instruction * string).
Variable bound : nat.
Hypothesis Hblock : forall s, len s < bound -> fine (len s) (parseBlock s).

(** An instruction leaves less than there was. *)
Lemma parseInstruction_fine s : s <> "" -> len s <= bound -> fine (pred (len s)) (parseInstruction parseBlock s).
Proof.
  intros Hne Hb. assert (0 < len s) by (destruct s; simpl; [done|lia]). unfold parseInstruction.
  pose proof (parse_addresses_fine s) as Ha. destruct (parse_addresses s) as [[[[a1 a2] inv] r1]|e]; [|done]. simpl in Ha |- *.
  destruct r1 as [|c r]; [simpl; lia|]. simpl in Ha. cbv zeta.
  destruct (c =c? "{").
  { apply (fine_bind (len r)); [apply Hblock; lia|]. intros b rest Hr. simpl. lia. }
  destruct (c =c? "s").
  { apply (fine_bind (len r)); [apply parse_s_fine|]. intros j rest Hr. simpl. lia. }
  destruct ((c =c? "a") || (c =c? "i") || (c =c? "c")).
  { pose proof (parse_text_fine (instruction a1 a2 inv c) r). destruct (parse_text_command _ r). simpl in *. lia. }
  destruct (_ || _).
  { destruct (scan_word _) as [w rest] eqn:E. apply scan_word_length in E. pose proof (TrimLeft_length is_sed_blank r). simpl. lia. }
  destruct (no_arguments c); [simpl; lia|done].
Qed.
End Block.

Lemma parse_block_fine fuel : forall inBlock s, len s < fuel -> fine (len s) (parse_block fuel inBlock s).
Proof.
  induction fuel as [|fuel IH]; intros inBlock s Hf; [lia|]. cbn [parse_block]. cbv zeta.
  pose proof (skipWhitespace_length s) as Hw. destruct (seqb_spec (skipWhitespace s) "") as [Hs|Hs]; [destruct inBlock; cbn [fine]; [done|simpl; lia]|].
  destruct (at_char (skipWhitespace s) "}") eqn:E1.
  { destruct inBlock; cbn [fine]; [by apply drop_length|done]. }
  destruct (at_char (skipWhitespace s) "#") eqn:E2.
  { destruct (skipWhitespace s) as [|c t]; [done|]. unfold at_char in E2. cbn [speek] in E2. apply Z.eqb_eq in E2.
    assert (Hc : negb (code c =? 10)%Z = true) by (rewrite E2; reflexivity).
    pose proof (TrimLeft_shorter (fun c => negb (code c =? 10)%Z) c t Hc).
    eapply fine_mono; [|apply IH]; lia. }
  pose proof (parseInstruction_fine (parse_block fuel true) fuel (IH true) (skipWhitespace s) Hs ltac:(lia)) as Hi.
  destruct (parseInstruction _ _) as [[i r]|e]; [|done]. simpl in Hi |- *.
  assert (0 < len (skipWhitespace s)) by (destruct (skipWhitespace s); simpl; [done|lia]).
  apply (fine_bind (len r)); [apply IH; lia|]. intros l rest Hr. simpl. lia.
Qed.

(** The parser of sed ends on every script: it gives instructions or an error of the script,
    and never needs more fuel than the length of the script. *)
Theorem sed_parser_ends script :
  (exists l, Parse script = Ok l) \/ (exists e, Parse script = Err e /\ e <> SedFuel).
Proof.
  unfold Parse. pose proof (parse_block_fine (S (len script)) false script ltac:(lia)) as Hp.
  destruct (parse_block _ _ _) as [[l rest]|e]; simpl in *; eauto.
Qed.
End Parsing.
