(* ===== verification/SedPrograms.v ===== *)
(** What some sed programs do: scripts that end, scripts that work line by line, copying, selecting
    the lines that match, selecting a range of lines. *)

From Stdlib Require Import ZifyBool.
From S2P Require Import Prelude GoStd Utf8 Output Regexp SedSyntax Sed SedLaws SedStream.

Local Open Scope Z_scope.

Section Programs.
Context `{Regexp}.
Variable open_error : string -> string.

Definition operands (readers : list string) : list string := match readers with [] => ["-"] | _ => readers end.

Definition initial_run (d : gmap string string) (stdin : string) : run_state :=
  {| engine := initial_engine d; input := stdin; exitCode := 0; messages := "" |}.

(** C30: the flat list of instructions with jumps that the engine runs does what the nested script
    says, for scripts without D whose branches go to the end: compilation succeeds with one
    instruction for each command and two for the braces of a block, and running the list, with a
    step for each of its instructions, gives the state and the ending of [exec_list]. *)
Theorem sed_blocks suppress inPlace currentFile lastFile l e fuel :
  forallb nested l = true -> (sizes l <= fuel)%nat ->
  exists flat_, compileAst l = Ok flat_ /\ length flat_ = sizes l /\
    execFlat suppress inPlace currentFile lastFile fuel flat_ 0 e =
    let '(r, e) := exec_list suppress inPlace currentFile lastFile 0 l e in
    Some (match r with Stopped s => Some s | _ => None end, e).
Proof.
  intros Hn Hf. eexists. split; [by apply compile_nested|].
  destruct (flat_list suppress inPlace currentFile lastFile l Hn _ (compile_nested l Hn)) as [Hl Hrun]. eauto.
Qed.

(** A nested script without D and without backward jumps ends on every input, in place or not,
    whatever files exist: with a step for each instruction of the list in a cycle, the engine
    returns. *)
Theorem sed_nested_scripts_end suppress inPlace l fuel readers stdin d :
  forallb nested l = true -> (sizes l <= fuel)%nat ->
  exists r, runEngineInternal open_error suppress inPlace fuel l readers stdin d = Some r.
Proof.
  intros Hn Hf. unfold runEngineInternal. rewrite compile_nested by done.
  by apply (run_files_end open_error suppress inPlace l); [|apply compile_nested|].
Qed.

(** A script that reads no further lines (no D, n, N and q, jumps only to the end) works
    line by line: the run of the engine, which is one line ahead and has flat instructions, is the
    fold of [line_step] over the lines of the operands, up to the state of the reader. *)
Theorem sed_line_by_line suppress l fuel readers stdin d :
  forallb plain l = true -> (sizes l <= fuel)%nat ->
  exists flat_ rd, compileAst l = Ok flat_ /\
    runEngineInternal open_error suppress false fuel l readers stdin d =
    Some (with_reader rd (stream_files open_error suppress l (operands readers) (initial_run (truncateWFiles flat_ d) stdin))).
Proof.
  intros Hp Hf. pose proof (compile_nested l (plain_nested_list l Hp)) as Hc. unfold runEngineInternal. rewrite Hc.
  edestruct (run_files_stream open_error suppress l _ fuel (operands readers) Hp Hc Hf) as [rd Hr];
    [|eexists _, rd; split; [done|exact Hr]]. done.
Qed.

(** ** Programs that edit each line *)

Lemma editing_run suppress l (Inv : nat -> engineState -> Prop) (edit : nat -> string -> option string) fuel readers stdin d texts :
  (forall n e b, Inv n e -> Inv n (on_spaces (set_eof b) e)) ->
  (forall n e path last last' ln, Inv n e ->
    let e' := line_step suppress false path last l last' ln e in
    Inv (S n) e' /\ sk e' = match edit (S n) (fst ln) with Some t => print_to (sk e) (t, snd ln) | None => sk e end) ->
  forallb plain l = true -> (sizes l <= fuel)%nat ->
  (forall flat_, compileAst l = Ok flat_ -> truncateWFiles flat_ d = d) ->
  Inv 0%nat (initial_engine d) -> reads d stdin (operands readers) texts ->
  exists r, runEngineInternal open_error suppress false fuel l readers stdin d = Some r /\
    stdout (sk (engine r)) = unlines (edited edit 0 (all_lines texts)) /\ disk (sk (engine r)) = d /\
    exitCode r = 0 /\ messages r = "".
Proof.
  intros He Hstep Hp Hf Ht Hi Hr. destruct (sed_line_by_line suppress l fuel readers stdin d Hp Hf) as (flat_ & rd & Hc & Hrun).
  rewrite (Ht flat_ Hc) in Hrun. eexists. split; [exact Hrun|].
  destruct (editing_stream open_error suppress l Inv edit He Hstep (operands readers) texts 0%nat (initial_run d stdin) Hr eq_refl Hi)
    as (H1 & H2 & H3).
  cbn [with_reader with_engine engine sk set_reader exitCode messages]. rewrite H1, H2, H3.
  destruct (prints_to_standard (edited edit 0 (all_lines texts)) (sk (engine (initial_run d stdin))) eq_refl) as (_ & H4 & H5).
  rewrite H4, H5. done.
Qed.

Definition no_appends (n : nat) (e : engineState) : Prop := pendingAppend e = [].

Lemma edited_filter (f : string -> bool) lns : forall n,
  edited (fun _ t => if f t then Some t else None) n lns = filter (fun ln => f (fst ln) = true) lns.
Proof.
  induction lns as [|[t nl] lns IH]; intros n; [done|]. cbn [edited fst snd]. rewrite IH. destruct (f t) eqn:E.
  - by rewrite filter_cons_True.
  - rewrite filter_cons_False; [done|]. simpl. by rewrite E.
Qed.

Lemma edited_map (f : string -> string) lns : forall n,
  edited (fun _ t => Some (f t)) n lns = (fun ln => (f (fst ln), snd ln)) <$> lns.
Proof. induction lns as [|[t nl] lns IH]; intros n; [done|]. cbn [edited]. by rewrite IH. Qed.

Lemma edited_all lns n : edited (fun _ t => Some t) n lns = lns.
Proof. rewrite (edited_map id). induction lns as [|[t nl] lns IH]; [done|]. rewrite fmap_cons. by rewrite IH. Qed.

(** The empty script writes the lines of the operands one after the other: the text is
    that of the files, with a newline between two files if the first lacks it, and without the
    return of lines that end in return and newline. *)
Theorem sed_copies fuel readers stdin d texts : reads d stdin (operands readers) texts ->
  exists r, runEngineInternal open_error false false fuel [] readers stdin d = Some r /\
    stdout (sk (engine r)) = unlines (all_lines texts) /\ disk (sk (engine r)) = d /\ exitCode r = 0 /\ messages r = "".
Proof.
  intros Hr. destruct (editing_run false [] no_appends (fun _ t => Some t) fuel readers stdin d texts) as (r & H1 & H2 & H3);
    [done| |done|apply Nat.le_0_l|by injection 1 as <-|done|done|].
  - intros n e path last last' ln Hi. unfold line_step. cbn [exec_list]. unfold end_cycle, flush_appends. destruct e as [sp_ rd_ rg_ sk_ pa].
    unfold no_appends in *. cbn in *. subst. done.
  - exists r. split; [done|]. split; [|done]. by rewrite H2, edited_all.
Qed.

(** [p] with an address. *)
Definition print_matching (re : regexp) : Instruction := instruction (Some (AddrRegexp (Some re))) None false "p".

(** [m,np] *)
Definition print_range (m n : Z) : Instruction := instruction (Some (AddrLine m 0)) (Some (AddrLine n 0)) false "p".

Lemma single_run i flat_ d : compileAst [i] = Ok flat_ -> (Cmd i =c? "{") = false -> is_jump (Cmd i) = false ->
  (Cmd i =c? "w") = false -> WFile i = "" -> truncateWFiles flat_ d = d.
Proof.
  intros Hc Hb Hj Hw Hs. unfold compileAst in Hc. cbn [flatten] in Hc. rewrite flatten_one_eq, Hb in Hc. cbn in Hc.
  rewrite Hj in Hc. injection Hc as <-. unfold truncateWFiles. cbn. rewrite Hw, Hs. by destruct (Cmd i =c? "s").
Qed.

(** An address and p, with -n: exactly the lines that the expression matches are
    printed, in order, over all operands. *)
Theorem sed_prints_matching re fuel readers stdin d texts : (1 <= fuel)%nat -> reads d stdin (operands readers) texts ->
  exists r, runEngineInternal open_error true false fuel [print_matching re] readers stdin d = Some r /\
    stdout (sk (engine r)) = unlines (filter (fun ln => MatchString re (fst ln) = true) (all_lines texts)) /\
    disk (sk (engine r)) = d /\ exitCode r = 0 /\ messages r = "".
Proof.
  intros Hf Hr. destruct (editing_run true [print_matching re] no_appends
    (fun _ t => if MatchString re t then Some t else None) fuel readers stdin d texts)
    as (r & H1 & H2 & H3); [done| |done|done|intros; by eapply single_run|done|done|].
  - intros n e path last last' ln Hi. unfold line_step. cbn [exec_list exec_one]. rewrite exec_one_eq. cbn.
    destruct e as [sp_ rd_ rg_ sk_ pa]. unfold no_appends in *. cbn in Hi. subst. cbn.
    destruct (MatchString re (fst ln)); done.
  - exists r. split; [done|]. split; [|done]. by rewrite H2, edited_filter.
Qed.

Section Range.
Variables m n : Z.
Hypothesis Hm : 1 <= m.

(** The line [k] is in the range that was active before it, and stays active after it. *)
Definition range_state (k : nat) (e : engineState) : Prop :=
  pendingAppend e = [] /\ lineNum (sp e) = Z.of_nat k /\ stepLines (rg e) = ∅ /\
  bool_decide (0%nat ∈ addrState (rg e)) = (m <=? Z.of_nat k) && (Z.of_nat k <? n) /\
  bool_decide (0%nat ∈ matchedLineAddrs (rg e)) = (m <=? Z.of_nat k).

Definition in_lines (k : nat) : bool := (m <=? Z.of_nat k) && (Z.of_nat k <=? Z.max m n).

Lemma in_range_lines k e : range_state k e -> forall e1,
  pendingAppend e1 = pendingAppend e -> rg e1 = rg e -> lineNum (sp e1) = Z.of_nat (S k) ->
  exists r, in_range 0 (AddrLine m 0) (AddrLine n 0) e1 = (in_lines (S k), on_ranges (fun _ => r) e1) /\
    range_state (S k) (on_ranges (fun _ => r) e1).
Proof.
  intros (Ha & Hl & Hs & Hact & Hmat) e1 Ha1 Hr1 Hl1. rewrite <- Hr1 in Hs, Hact, Hmat. rewrite <- Ha1 in Ha. clear Ha1 Hr1.
  destruct e1 as [s rd_ [ad ma st lr] sk_ pa]. cbn in *. subst st pa.
  unfold in_range, range_starts, in_lines, range_state. cbn. rewrite Hact, Hmat, Hl1.
  destruct (Z.leb_spec m (Z.of_nat k)) as [H1|H1]; cbn [andb negb].
  - replace (m <=? Z.of_nat (S k)) with true by lia. cbn [andb].
    destruct (Z.ltb_spec (Z.of_nat k) n) as [H2|H2].
    + replace (Z.of_nat (S k) <=? Z.max m n) with true by lia. cbn. rewrite Hl1, lookup_empty. cbn.
      destruct (Z.leb_spec n (Z.of_nat (S k))) as [H3|H3]; eexists; (split; [reflexivity|]); cbn; repeat split; try done.
      * replace (Z.of_nat (S k) <? n) with false by lia. apply bool_decide_eq_false_2. set_solver.
      * by replace (Z.of_nat (S k) <? n) with true by lia.
    + replace (Z.of_nat (S k) <=? Z.max m n) with false by lia. eexists; (split; [reflexivity|]); cbn; repeat split; try done.
      by replace (Z.of_nat (S k) <? n) with false by lia.
  - destruct (Z.leb_spec m (Z.of_nat (S k))) as [H2|H2]; cbn [andb negb].
    + replace (Z.of_nat (S k) <=? Z.max m n) with true by lia. cbn. rewrite Hl1, lookup_empty. cbn.
      destruct (Z.leb_spec n (Z.of_nat (S k))) as [H3|H3]; eexists; (split; [reflexivity|]); cbn; repeat split; try done;
        try (apply bool_decide_eq_true_2; set_solver).
      * replace (Z.of_nat (S k) <? n) with false by lia. apply bool_decide_eq_false_2. set_solver.
      * replace (Z.of_nat (S k) <? n) with true by lia. apply bool_decide_eq_true_2. set_solver.
    + eexists; (split; [reflexivity|]); cbn; repeat split; try done.
Qed.

Lemma edited_range lns : forall k,
  edited (fun k t => if in_lines k then Some t else None) k lns =
  take (Z.to_nat (Z.max m n) - Nat.max (Z.to_nat m - 1) k) (drop (Z.to_nat m - 1 - k) lns).
Proof.
  induction lns as [|[t nl] lns IH]; intros k; [by rewrite drop_nil, take_nil|]. cbn [edited fst snd]. rewrite IH. unfold in_lines.
  destruct (decide (m <= Z.of_nat (S k))) as [H1|H1].
  - replace (Z.to_nat m - 1 - k)%nat with 0%nat by lia. replace (Z.to_nat m - 1 - S k)%nat with 0%nat by lia.
    replace (m <=? Z.of_nat (S k)) with true by lia. cbn [andb]. rewrite !drop_0.
    destruct (Z.leb_spec (Z.of_nat (S k)) (Z.max m n)) as [H2|H2].
    + by replace (Z.to_nat (Z.max m n) - Nat.max (Z.to_nat m - 1) k)%nat
        with (S (Z.to_nat (Z.max m n) - Nat.max (Z.to_nat m - 1) (S k)))%nat by lia.
    + replace (Z.to_nat (Z.max m n) - Nat.max (Z.to_nat m - 1) k)%nat with 0%nat by lia.
      by replace (Z.to_nat (Z.max m n) - Nat.max (Z.to_nat m - 1) (S k))%nat with 0%nat by lia.
  - replace (m <=? Z.of_nat (S k)) with false by lia. cbn [andb].
    replace (Z.to_nat m - 1 - k)%nat with (S (Z.to_nat m - 1 - S k))%nat by lia. cbn [drop]. f_equal. lia.
Qed.

Lemma range_step k e path last last' ln : range_state k e ->
  let e' := line_step true false path last [print_range m n] last' ln e in
  range_state (S k) e' /\
  sk e' = match (if in_lines (S k) then Some (fst ln) else None) with Some t => print_to (sk e) (t, snd ln) | None => sk e end.
Proof.
  intros Hr. unfold line_step. cbn [exec_list]. rewrite exec_one_eq. cbv zeta.
  set (e1 := on_spaces _ e). destruct (in_range_lines k e Hr e1) as (r & Hin & Hr'); [done|done| |].
  - destruct Hr as (_ & Hl & _). cbn. lia.
  - unfold shouldRun. cbn [Addr1 Addr2 AddressInvert print_range instruction]. rewrite Hin, xorb_false_r.
    destruct Hr' as (Ha & Hrest). cbn in Ha. destruct (in_lines (S k)); cbn; unfold end_cycle, flush_appends; cbn; rewrite Ha; cbn; 
      (split; [split; [done|exact Hrest]|by destruct ln]).
Qed.
End Range.

(** The command m,np with -n prints the lines from m to n, numbered through all
    operands, or the line m alone if n is not greater. *)
Theorem sed_prints_range m n fuel readers stdin d texts : 1 <= m -> (1 <= fuel)%nat -> reads d stdin (operands readers) texts ->
  exists r, runEngineInternal open_error true false fuel [print_range m n] readers stdin d = Some r /\
    stdout (sk (engine r)) =
      unlines (take (Z.to_nat (Z.max m n - m + 1)) (drop (Z.to_nat (m - 1)) (all_lines texts))) /\
    disk (sk (engine r)) = d /\ exitCode r = 0 /\ messages r = "".
Proof.
  intros Hm Hf Hr. destruct (editing_run true [print_range m n] (range_state m n) (fun k t => if in_lines m n k then Some t else None)
    fuel readers stdin d texts) as (r & H1 & H2 & H3);
    [done|intros; by apply range_step|done|done|intros; by eapply single_run| |done|].
  - unfold range_state. cbn. change (Z.of_nat 0) with 0. by replace (m <=? 0) with false by lia.
  - exists r. split; [done|]. split; [|done]. rewrite H2, edited_range by done. do 3 f_equal; lia.
Qed.

(** An instruction s without the flags p and w, for every line. *)
Definition substitutes (i : Instruction) (re : regexp) : Prop :=
  Addr1 i = None /\ AddressInvert i = false /\ Cmd i = "s"%char /\ Re i = Some re /\ Print_ i = false /\ WFile i = "".

(** S without the flags p and w rewrites every line that the expression matches and
    prints the others as they are. *)
Theorem sed_substitutes i re fuel readers stdin d texts : substitutes i re -> (1 <= fuel)%nat ->
  reads d stdin (operands readers) texts ->
  exists r, runEngineInternal open_error false false fuel [i] readers stdin d = Some r /\
    stdout (sk (engine r)) =
      unlines ((fun ln => (if MatchString re (fst ln) then replaced i re (fst ln) else fst ln, snd ln)) <$> all_lines texts) /\
    disk (sk (engine r)) = d /\ exitCode r = 0 /\ messages r = "".
Proof.
  intros (Ha & Hi & Hc & Hre & Hp & Hw) Hf Hr.
  destruct (editing_run false [i] no_appends (fun _ t => Some (if MatchString re t then replaced i re t else t))
    fuel readers stdin d texts) as (r & H1 & H2 & H3); [done| | | | |done|done|].
  - intros n e path last last' ln Hn. unfold line_step. cbn [exec_list]. rewrite exec_one_eq. unfold shouldRun. rewrite Ha, Hi. cbn [negb].
    rewrite Hc. cbn [Ascii.eqb eqb]. unfold exec_command, simple_command. rewrite Hc. cbv zeta. cbn [Ascii.eqb eqb orb].
    unfold substitute, effective_regexp, print_file. rewrite Hre, Hp, Hw. destruct e as [sp_ rd_ rg_ sk_ pa]. unfold no_appends in *. cbn in Hn. subst pa.
    cbn. destruct (MatchString re (fst ln)); done.
  - cbn [forallb]. by rewrite plain_eq, Hc.
  - unfold sizes. simpl. by rewrite size_eq, Hc.
  - intros flat_ Hfl. apply (single_run i); by rewrite ?Hc.
  - exists r. split; [done|]. split; [|done]. rewrite H2.
    by rewrite (edited_map (fun t => if MatchString re t then replaced i re t else t)).
Qed.
End Programs.

(** * Concrete scripts, with expressions that stand for themselves *)

#[local] Existing Instance literal_regexp.

Definition parsed (script : string) : list Instruction := match Parse script with Ok l => l | Err _ => [] end.

(** What a script writes, and the files. *)
Definition sed_run (suppress inPlace : bool) (script : string) (readers : list string) (stdin : string) (d : gmap string string) :
    option (string * gmap string string) :=
  match Parse script with
  | Ok l =>
      r ← runEngineInternal (fun _ => "no such file") suppress inPlace 1000 l readers stdin d;
      Some (stdout (sk (engine r)), disk (sk (engine r)))
  | Err _ => None
  end.

(** What a script makes of its input. *)
Definition sed_text (script stdin : string) : option string := fst <$> sed_run false false script [] stdin ∅.

Definition lines_text (ls : list string) : string := sconcat ((fun t => t +:+ newline) <$> ls).

Definition nested_script : string := "/a/{s/a/b/;/c/!{s/b/d/;b" +:+ newline +:+ "};p};G;s/d/e/".

Lemma sed_blocks_witness :
  let e := initial_engine ∅ in
  exists flat_, compileAst (parsed nested_script) = Ok flat_ /\ length flat_ = 10%nat /\
    execFlat false false "-" true 10 flat_ 0 e =
    let '(r, e) := exec_list false false "-" true 0 (parsed nested_script) e in
    Some (match r with Stopped s => Some s | _ => None end, e).
Proof.
  assert (Hs : sizes (parsed nested_script) = 10%nat) by (vm_compute; reflexivity). rewrite <- Hs.
  apply (sed_blocks false false "-" true (parsed nested_script)); [vm_compute; reflexivity|done].
Defined.

Lemma sed_nested_scripts_end_witness :
  exists r, runEngineInternal (fun _ => "") true true 12 (parsed "$!N;P;/x/q;n;i\new") ["f"] "" {["f" := lines_text ["a"; "b"; "c"]]} = Some r.
Proof. apply sed_nested_scripts_end; [vm_compute; reflexivity|apply Nat.leb_le; vm_compute; reflexivity]. Defined.

Lemma sed_line_by_line_witness : exists flat_ rd, compileAst (parsed nested_script) = Ok flat_ /\
  runEngineInternal (fun _ => "") false false 11 (parsed nested_script) [] (lines_text ["abc"; "ad"; "x"]) ∅ =
  Some (with_reader rd (stream_files (fun _ => "") false (parsed nested_script) (operands [])
    (initial_run (truncateWFiles flat_ ∅) (lines_text ["abc"; "ad"; "x"])))).
Proof. apply sed_line_by_line; [vm_compute; reflexivity|apply Nat.leb_le; vm_compute; reflexivity]. Defined.

Definition two_files : gmap string string := {["f" := "a" +:+ newline +:+ "b"; "g" := lines_text ["c"; "bd"]]}.

Lemma two_files_read stdin : reads two_files stdin (operands ["f"; "g"]) ["a" +:+ newline +:+ "b"; lines_text ["c"; "bd"]].
Proof. repeat constructor; discriminate. Qed.

Lemma sed_copies_witness : exists r, runEngineInternal (fun _ => "") false false 0 [] ["f"; "g"] "" two_files = Some r /\
  stdout (sk (engine r)) = lines_text ["a"; "b"; "c"; "bd"] /\ disk (sk (engine r)) = two_files /\ exitCode r = 0 /\ messages r = "".
Proof. exact (sed_copies (fun _ => "") 0 ["f"; "g"] "" two_files _ (two_files_read "")). Defined.

Lemma sed_prints_matching_witness : exists r,
  runEngineInternal (fun _ => "") true false 1 (parsed "/b/p") ["f"; "g"] "" two_files = Some r /\
  stdout (sk (engine r)) = lines_text ["b"; "bd"] /\ disk (sk (engine r)) = two_files /\ exitCode r = 0 /\ messages r = "".
Proof. exact (sed_prints_matching (fun _ => "") "b" 1 ["f"; "g"] "" two_files _ (Nat.le_refl 1) (two_files_read "")). Defined.

Lemma sed_prints_range_witness : exists r,
  runEngineInternal (fun _ => "") true false 1 (parsed "2,3p") ["f"; "g"] "" two_files = Some r /\
  stdout (sk (engine r)) = lines_text ["b"; "c"] /\ disk (sk (engine r)) = two_files /\ exitCode r = 0 /\ messages r = "".
Proof. exact (sed_prints_range (fun _ => "") 2 3 1 ["f"; "g"] "" two_files _ ltac:(lia) (Nat.le_refl 1) (two_files_read "")). Defined.

Lemma sed_substitutes_witness : exists r,
  runEngineInternal (fun _ => "") false false 1 (parsed "s/b/xy/") ["f"; "g"] "" two_files = Some r /\
  stdout (sk (engine r)) = lines_text ["a"; "xy"; "c"; "xyd"] /\ disk (sk (engine r)) = two_files /\ exitCode r = 0 /\ messages r = "".
Proof.
  refine (sed_substitutes (fun _ => "") (hd (instruction None None false "s") (parsed "s/b/xy/")) "b" 1 ["f"; "g"] "" two_files _ _
    (Nat.le_refl 1) (two_files_read "")).
  repeat split.
Defined.

(** ** What the engine does where sed is expected to do otherwise *)

(** The text of the match, or of a group, is lost when a letter or digit follows it: the template
    is [$0X], a reference to a group of that name. *)
Example ampersand_before_letter : sed_text "s/b/&X/" (lines_text ["abc"]) = Some (lines_text ["ac"]).
Proof. vm_compute. reflexivity. Qed.

(** A dollar sign of the replacement is taken as a reference. *)
Example dollar_in_replacement : sed_text "s/b/$x/" (lines_text ["abc"]) = Some (lines_text ["ac"]).
Proof. vm_compute. reflexivity. Qed.

(** The flag I puts [(?i)] before the basic expression, whose parentheses and question mark are
    then quoted: the expression asks for these characters. *)
Example ignore_case_is_literal : ere_of "(?i)b" "/" false = "\(\?i\)b".
Proof. vm_compute. reflexivity. Qed.

(** The last line is lost: N at the end quits, and after D that does not print. *)
Example last_line_lost : sed_text "N;P;D" (lines_text ["a"; "b"; "c"]) = Some (lines_text ["a"; "b"]).
Proof. vm_compute. reflexivity. Qed.

(** A range whose second address matches the first line ends there. *)
Example range_ends_where_it_starts : sed_text "/a/,/a/d" (lines_text ["a"; "b"; "a"; "c"]) = Some (lines_text ["b"; "c"]).
Proof. vm_compute. reflexivity. Qed.

(** Text to append is not written when q ends the run. *)
Example append_lost_by_quit : sed_text ("a\" +:+ newline +:+ "new" +:+ newline +:+ "q") (lines_text ["a"; "b"]) = Some (lines_text ["a"]).
Proof. vm_compute. reflexivity. Qed.

(** q with -i leaves the file as it was, and the temporary file. *)
Example quit_in_place : snd <$> sed_run false true "s/a/b/;1q" ["f"] "" {["f" := lines_text ["a"; "c"]]} =
  Some {["f" := lines_text ["a"; "c"]; "f.tmp" := lines_text ["b"]]}.
Proof. vm_compute. reflexivity. Qed.

(** The return before a newline is removed. *)
Example returns_removed : sed_text "p" ("a" +:+ String "013" newline) = Some (lines_text ["a"; "a"]).
Proof. vm_compute. reflexivity. Qed.

(** A label takes what follows up to a blank or a semicolon, a closing brace included. *)
Example label_with_brace : Parse "/a/{b};p" = Err UnclosedBrace.
Proof. vm_compute. reflexivity. Qed.

(** c on a range prints its text for every line. *)
Example change_range : sed_text ("1,2c\" +:+ newline +:+ "new") (lines_text ["a"; "b"; "c"]) = Some (lines_text ["new"; "new"; "c"]).
Proof. vm_compute. reflexivity. Qed.
