(* ===== verification/Order.v ===== *)
(** Comparisons as orders, and stable sorting.

    A comparison that is an order of its keys ([TotalOrder]) stays one when it is reversed, taken of
    a part of the elements, or refined by another; [SortStableFunc] of the package slices, on such a
    comparison, gives the one sorted permutation that keeps equal elements in their order. *)

From Stdlib Require Import Sorting.Sorted Sorting.Permutation QArith.
From S2P Require Import Prelude GoStd Merge.

Local Open Scope nat_scope.

Class TotalOrder {A} (cmp : A -> A -> comparison) := {
  cmp_flip : forall x y, cmp y x = CompOpp (cmp x y);
  cmp_trans : forall x y z, cmp x y <> Gt -> cmp y z <> Gt -> cmp x z <> Gt }.
Arguments cmp_flip {A} cmp {_} x y.
Arguments cmp_trans {A} cmp {_} x y z.

(** [a] decides, then [b]. *)
Definition then_by (a b : comparison) : comparison := match a with Eq => b | _ => a end.

Definition lex_by {A} (f g : A -> A -> comparison) (x y : A) : comparison := then_by (f x y) (g x y).
Definition on {A B} (f : A -> B) (cmp : B -> B -> comparison) (x y : A) : comparison := cmp (f x) (f y).
Definition reversed {A} (b : bool) (cmp : A -> A -> comparison) (x y : A) : comparison :=
  if b then CompOpp (cmp x y) else cmp x y.

Section Orders.
Context {A : Type}.

Lemma cmp_refl (cmp : A -> A -> comparison) `{!TotalOrder cmp} x : cmp x x = Eq.
Proof. pose proof (cmp_flip cmp x x) as H. by destruct (cmp x x). Qed.

(** Equal elements compare alike. *)
Lemma cmp_eq_l (cmp : A -> A -> comparison) `{!TotalOrder cmp} x y z : cmp x y = Eq -> cmp x z = cmp y z.
Proof.
  intros E. assert (Hyx : cmp y x = Eq) by (by rewrite (cmp_flip cmp), E).
  pose proof (cmp_trans cmp x y z) as H1. pose proof (cmp_trans cmp y x z) as H2.
  pose proof (cmp_trans cmp z y x) as H3. pose proof (cmp_trans cmp z x y) as H4.
  rewrite (cmp_flip cmp y z), (cmp_flip cmp x z) in H3, H4.
  destruct (cmp x z), (cmp y z); try done; exfalso; simpl in *;
    first [by apply H1; congruence|by apply H2; congruence|by apply H3; congruence|by apply H4; congruence].
Qed.

Lemma cmp_eq_r (cmp : A -> A -> comparison) `{!TotalOrder cmp} x y z : cmp x y = Eq -> cmp z x = cmp z y.
Proof. intros E. rewrite (cmp_flip cmp x z), (cmp_flip cmp y z). by rewrite (cmp_eq_l cmp x y z E). Qed.

#[export] Instance lex_order (f g : A -> A -> comparison) `{!TotalOrder f, !TotalOrder g} : TotalOrder (lex_by f g).
Proof.
  split.
  - intros x y. unfold lex_by. rewrite (cmp_flip f x y), (cmp_flip g x y). by destruct (f x y).
  - intros x y z. unfold lex_by, then_by. pose proof (cmp_trans f x y z) as Hf. pose proof (cmp_trans g x y z) as Hg.
    pose proof (cmp_eq_l f x y z) as El. pose proof (cmp_eq_r f y z x) as Er.
    destruct (f x y) eqn:E1, (f y z) eqn:E2; try (intros; congruence).
    + by rewrite El.
    + by rewrite El.
    + by rewrite <- Er.
    + intros _ _. destruct (f x z) eqn:E3; [|done|by exfalso; apply Hf].
      exfalso. rewrite (cmp_eq_l f x z y E3), (cmp_flip f y z), E2 in E1. done.
Qed.

#[export] Instance on_order {B} (f : A -> B) (cmp : B -> B -> comparison) `{!TotalOrder cmp} : TotalOrder (on f cmp).
Proof. split; unfold on; [intros; apply (cmp_flip cmp)|intros x y z; apply (cmp_trans cmp)]. Qed.

#[export] Instance reversed_order b (cmp : A -> A -> comparison) `{!TotalOrder cmp} : TotalOrder (reversed b cmp).
Proof.
  destruct b; split; unfold reversed; [|..]; try (intros; apply (cmp_flip cmp)); try (intros x y z; apply (cmp_trans cmp)).
  - intros x y. by rewrite (cmp_flip cmp).
  - intros x y z. rewrite <- !(cmp_flip cmp). intros H1 H2. by apply (cmp_trans cmp z y x).
Qed.
End Orders.

#[export] Instance Compare_order : TotalOrder Compare.
Proof. split; [intros x y; apply Compare_antisym|]. intros x y z H1 H2. exact (sle_trans x y z H1 H2). Qed.

#[export] Instance Z_order : TotalOrder Z.compare.
Proof. split; [intros x y; apply Z.compare_antisym|]. intros x y z. rewrite !Z.compare_le_iff. lia. Qed.

#[export] Instance Q_order : TotalOrder Qcompare.
Proof. split; [intros x y; symmetry; apply Qcompare_antisym|]. intros x y z. rewrite <- !Qle_alt. apply Qle_trans. Qed.

(** * Stable sorting *)

Section Sorting.
Context {A : Type}.
Variable cmp : A -> A -> comparison.

(** An element moves to the left past those it is less than; [l] is the sorted part, last element
    first. *)
Fixpoint insert_back (x : A) (l : list A) : list A :=
  match l with
  | [] => [x]
  | y :: l => match cmp x y with Lt => y :: insert_back x l | _ => x :: y :: l end
  end.

(** [slices.SortStableFunc], as it works on up to 20 elements; beyond, on an order, any stable sort
    has the same result ([stable_sort_unique]). *)
Definition SortStableFunc (l : list A) : list A := rev (foldl (fun sorted x => insert_back x sorted) [] l).

Definition le_of (x y : A) : Prop := cmp x y <> Gt.

(** The elements equal to [x], in order. *)
Definition equals (x : A) (l : list A) : list A := base.filter (fun y => cmp x y = Eq) l.

(** A sorted permutation that keeps equal elements in order. *)
Definition stably_sorted (l l' : list A) : Prop :=
  Permutation l l' /\ StronglySorted le_of l' /\ forall x, x ∈ l -> equals x l' = equals x l.

Lemma insert_back_perm x l : Permutation (insert_back x l) (x :: l).
Proof.
  induction l as [|y l IH]; [done|]. cbn [insert_back]. destruct (cmp x y); try done.
  rewrite IH. apply perm_swap.
Qed.

Context `{!TotalOrder cmp}.

Lemma le_flip x y : cmp x y <> Lt -> le_of y x.
Proof. unfold le_of. rewrite (cmp_flip cmp x y). by destruct (cmp x y). Qed.

Lemma insert_back_sorted x l : StronglySorted (flip le_of) l -> StronglySorted (flip le_of) (insert_back x l).
Proof.
  induction 1 as [|y l Hs IH Hy]; [by repeat constructor|]. cbn [insert_back]. destruct (cmp x y) eqn:E.
  1, 3: constructor; [by constructor|]; assert (Hyx : le_of y x) by (apply le_flip; congruence);
    constructor; [exact Hyx|]; eapply Forall_impl; [exact Hy|]; intros z Hz; exact (cmp_trans cmp z y x Hz Hyx).
  constructor; [done|]. rewrite insert_back_perm. constructor; [|done]. unfold flip, le_of. congruence.
Qed.

(** The new element comes after its equals. *)
Lemma insert_back_equals x l z : StronglySorted (flip le_of) l -> equals z (insert_back x l) = equals z (x :: l).
Proof.
  induction 1 as [|y l Hs IH Hy]; [done|]. cbn [insert_back]. destruct (cmp x y) eqn:E; [done| |done].
  unfold equals in *. rewrite !filter_cons, IH, filter_cons. destruct (decide (cmp z y = Eq)) as [E1|E1]; [|done].
  destruct (decide (cmp z x = Eq)) as [E2|E2]; [|done].
  rewrite (cmp_eq_l cmp z x y E2) in E1. congruence.
Qed.

Lemma sort_prefix l : forall sorted, StronglySorted (flip le_of) sorted ->
  let r := foldl (fun sorted x => insert_back x sorted) sorted l in
  StronglySorted (flip le_of) r /\ Permutation r (rev l ++ sorted) /\ forall z, equals z r = equals z (rev l ++ sorted).
Proof.
  induction l as [|x l IH]; intros sorted Hs; [done|]. cbn [foldl rev].
  destruct (IH (insert_back x sorted) (insert_back_sorted x sorted Hs)) as (H1 & H2 & H3).
  rewrite <- app_assoc. cbn [app]. split; [done|]. split.
  - by rewrite H2, insert_back_perm.
  - intros z. rewrite H3. unfold equals. rewrite !filter_app. f_equal. by apply insert_back_equals.
Qed.

Lemma sorted_app (R : A -> A -> Prop) l1 l2 : StronglySorted R l1 -> StronglySorted R l2 ->
  (forall x y, x ∈ l1 -> y ∈ l2 -> R x y) -> StronglySorted R (l1 ++ l2).
Proof.
  intros H1 H2 H. induction H1 as [|x l1 _ IH Hx]; [done|]. simpl. constructor.
  - apply IH. intros. apply H; [by right|done].
  - apply Forall_app. split; [done|]. apply Forall_forall. intros. apply H; [by left|done].
Qed.

Lemma sorted_rev l : StronglySorted (flip le_of) l -> StronglySorted le_of (rev l).
Proof.
  induction 1 as [|x l Hs IH Hx]; [constructor|]. cbn [rev]. apply sorted_app; [done|by repeat constructor|].
  intros y z Hy Hz. apply list_elem_of_singleton in Hz as ->.
  apply list_elem_of_In, in_rev, list_elem_of_In in Hy. rewrite Forall_forall in Hx. by apply Hx.
Qed.

Lemma equals_rev z l : equals z (rev l) = rev (equals z l).
Proof.
  unfold equals. induction l as [|x l IH]; [done|]. cbn [rev]. rewrite filter_app, IH, !filter_cons.
  destruct (decide (cmp z x = Eq)); [done|]. by rewrite filter_nil, app_nil_r.
Qed.

Lemma SortStableFunc_spec l : stably_sorted l (SortStableFunc l).
Proof.
  unfold SortStableFunc, stably_sorted. destruct (sort_prefix l [] ltac:(constructor)) as (H1 & H2 & H3).
  rewrite app_nil_r in H2. split; [|split].
  - rewrite <- Permutation_rev, H2. apply Permutation_rev.
  - by apply sorted_rev.
  - intros x _. rewrite equals_rev, H3, app_nil_r, <- equals_rev. by rewrite rev_involutive.
Qed.

Lemma sorted_first x l : StronglySorted le_of (x :: l) -> forall y, y ∈ l -> le_of x y.
Proof. intros Hs y Hy. apply StronglySorted_inv in Hs as [_ Hf]. rewrite Forall_forall in Hf. by apply Hf. Qed.

(** There is one such list. *)
Lemma stable_sort_unique l l1 l2 : stably_sorted l l1 -> stably_sorted l l2 -> l1 = l2.
Proof.
  intros (P1 & S1 & E1) (P2 & S2 & E2).
  assert (Hp : Permutation l1 l2) by (by rewrite <- P1).
  assert (He : forall x, x ∈ l1 -> equals x l1 = equals x l2)
    by (intros x Hx; rewrite <- P1 in Hx; by rewrite E1, E2).
  clear -S1 S2 Hp He TotalOrder0.
  revert l2 S2 Hp He. induction l1 as [|x l1 IH]; intros l2 S2 Hp He; [by apply Permutation_nil_l in Hp|].
  destruct l2 as [|y l2]; [by apply Permutation_nil_r in Hp|].
  assert (Hxy : cmp x y = Eq).
  { assert (H1 : le_of x y).
    { assert (Hy : y ∈ x :: l1) by (rewrite Hp; by left). apply elem_of_cons in Hy as [-> | Hy].
      - apply le_flip. by rewrite (cmp_refl cmp).
      - by apply (sorted_first x l1). }
    assert (H2 : le_of y x).
    { assert (Hx : x ∈ y :: l2) by (rewrite <- Hp; by left). apply elem_of_cons in Hx as [-> | Hx].
      - apply le_flip. by rewrite (cmp_refl cmp).
      - by apply (sorted_first y l2). }
    unfold le_of in *. rewrite (cmp_flip cmp x y) in H2. by destruct (cmp x y). }
  pose proof (He x ltac:(by left)) as Hx. unfold equals in Hx. rewrite !filter_cons_True in Hx by (try apply (cmp_refl cmp); done).
  injection Hx as <- _. f_equal. apply IH.
  - by apply StronglySorted_inv in S1 as [? _].
  - by apply StronglySorted_inv in S2 as [? _].
  - by apply Permutation_cons_inv in Hp.
  - intros z Hz. specialize (He z ltac:(by right)). unfold equals in *. rewrite !filter_cons in He. destruct (decide (cmp z x = Eq)); [|done].
    by injection He.
Qed.

Lemma sort_unique l l' : stably_sorted l l' -> l' = SortStableFunc l.
Proof. intros H. exact (stable_sort_unique l l' _ H (SortStableFunc_spec l)). Qed.

(** Of lists that are permutations of each other the results are the same if equal elements are. *)
Lemma sort_permutation l1 l2 : (forall x y, x ∈ l1 -> y ∈ l1 -> cmp x y = Eq -> x = y) -> Permutation l1 l2 ->
  SortStableFunc l1 = SortStableFunc l2.
Proof.
  intros Hc Hp. destruct (SortStableFunc_spec l1) as (P1 & S1 & E1). apply sort_unique. split; [by rewrite <- Hp|]. split; [done|].
  intros x Hx. rewrite <- Hp in Hx. rewrite E1 by done.
  assert (He : forall l, (forall y, y ∈ l -> y ∈ l1) -> equals x l = replicate (length (equals x l)) x).
  { intros l Hl. induction l as [|y l IH]; [done|]. unfold equals in *. rewrite filter_cons.
    assert (IH' := IH (fun z Hz => Hl z (list_elem_of_further _ _ _ Hz))).
    destruct (decide (cmp x y = Eq)) as [E|E]; [|done]. simpl. rewrite <- (Hc x y Hx (Hl y (list_elem_of_here _ _)) E). by f_equal. }
  rewrite (He l1), (He l2); [|intros y; by rewrite Hp|done]. f_equal. unfold equals. by rewrite Hp.
Qed.
End Sorting.

(** Only the comparisons of elements of the list matter. *)
Section Extensionality.
Context {A : Type}.
Variables f g : A -> A -> comparison.

Lemma insert_back_ext x l : (forall y, y ∈ l -> f x y = g x y) -> insert_back f x l = insert_back g x l.
Proof.
  induction l as [|y l IH]; intros Hl; [done|]. cbn [insert_back]. rewrite (Hl y) by (by left). rewrite IH; [done|].
  intros z Hz. apply Hl. by right.
Qed.

Lemma sort_ext l : (forall x y, x ∈ l -> y ∈ l -> f x y = g x y) -> SortStableFunc f l = SortStableFunc g l.
Proof.
  intros Hl. unfold SortStableFunc. f_equal.
  enough (forall k sorted, (forall x, x ∈ sorted -> x ∈ l) -> (forall x, x ∈ k -> x ∈ l) ->
    foldl (fun sorted x => insert_back f x sorted) sorted k = foldl (fun sorted x => insert_back g x sorted) sorted k) as H.
  { apply H; [|done]. intros x Hx. by apply elem_of_nil in Hx. }
  induction k as [|x k IH]; intros sorted Hs Hk; [done|]. cbn [foldl].
  rewrite insert_back_ext by (intros y Hy; apply Hl; [apply Hk; by left|by apply Hs]). apply IH.
  - intros y. rewrite insert_back_perm, elem_of_cons. intros [-> | Hy]; [apply Hk; by left|by apply Hs].
  - intros y Hy. apply Hk. by right.
Qed.

Lemma stably_sorted_ext l l' : (forall x y, x ∈ l -> y ∈ l -> f x y = g x y) -> stably_sorted f l l' -> stably_sorted g l l'.
Proof.
  intros Hl (Hp & Hs & He). split; [done|]. split.
  - assert (Hl' : forall x y, x ∈ l' -> y ∈ l' -> f x y = g x y) by (intros x y; rewrite <- !Hp; apply Hl). clear -Hs Hl'.
    induction Hs as [|x l' Hs IH Hx]; [constructor|]. constructor.
    + apply IH. intros y z Hy Hz. apply Hl'; by right.
    + rewrite Forall_forall in *. intros y Hy. unfold le_of in *. rewrite <- Hl'; [by apply Hx|by left|by right].
  - intros x Hx. specialize (He x Hx).
    assert (Hf : forall k, (forall y, y ∈ k -> y ∈ l) -> equals g x k = equals f x k).
    { induction k as [|y k IH]; intros Hk; [done|]. unfold equals in *. rewrite !filter_cons, IH by (intros z Hz; apply Hk; by right).
      rewrite (Hl x y) by (done || (apply Hk; by left)). done. }
    rewrite !Hf; [done|done|]. intros y. by rewrite Hp.
Qed.
End Extensionality.

(** Sorting by a part of the elements. *)
Lemma sort_map {A B} (f : A -> B) (cmp : B -> B -> comparison) l :
  f <$> SortStableFunc (on f cmp) l = SortStableFunc cmp (f <$> l).
Proof.
  assert (Hi : forall x k, f <$> insert_back (on f cmp) x k = insert_back cmp (f x) (f <$> k)).
  { intros x k. induction k as [|y k IH]; [done|]. cbn [insert_back fmap list_fmap]. unfold on in *.
    destruct (cmp (f x) (f y)); [done| |done]. rewrite fmap_cons. by rewrite IH. }
  unfold SortStableFunc. change (f <$> rev ?k) with (map f (rev k)). rewrite map_rev. f_equal.
  change (@nil B) with (f <$> []) at 1. generalize (@nil A).
  induction l as [|x l IH]; intros k; [done|]. cbn [foldl]. rewrite fmap_cons. cbn [foldl]. change (map f) with (fmap (M:=list) f) in *. by rewrite IH, Hi.
Qed.
