(* ===== verification/Sort.v ===== *)
(** sort: pkg/sort/sort.go.

    Keys, comparisons and the whole command.  The lines of an input are those of [bufio.Scanner] with
    a buffer of 10 MiB, or of [scanNUL].  A [float64] is its rational value; [strconv.ParseFloat]
    rounds to the nearest one.  An index out of range, which the source can run into in
    [extractKey] and [Run], is [None]. *)

From Stdlib Require Import QArith.
From S2P Require Import Prelude GoStd Utf8 Scanner Output Order.

Local Open Scope Z_scope.

(** * Numbers *)

(** [m / d] rounded to the nearest integer, ties to even. *)
Definition round_even (m d : Z) : Z :=
  let q := m / d in
  match Z.compare (2 * (m mod d)) d with
  | Lt => q
  | Gt => q + 1
  | Eq => if Z.even q then q else q + 1
  end.

Definition pow2 (e : Z) : Z := 2 ^ e.

(** The exponent of the last of the 53 bits of [n / d]. *)
Definition float_exponent (n d : Z) : Z :=
  let e := Z.log2 n - Z.log2 d in
  let e := if n * pow2 (- Z.min e 0) <? d * pow2 (Z.max e 0) then e - 1 else e in
  Z.max (e - 52) (-1074).

(** The [float64] nearest to [n / d], which are not negative; [None] beyond the largest. *)
Definition nearest_float (n d : Z) : option Q :=
  if n =? 0 then Some 0%Q
  else
    let e := float_exponent n d in
    let m := round_even (n * pow2 (- Z.min e 0)) (d * pow2 (Z.max e 0)) in
    if (971 <? e) || ((e =? 971) && (pow2 53 <=? m)) then None
    else Some (Qred (if e <? 0 then m # Z.to_pos (pow2 (- e)) else inject_Z (m * pow2 e))).

Definition is_sign (c : ascii) : bool := (c =c? "+") || (c =c? "-").

(** A decimal number: sign, digits, and digits after a point. *)
Definition decimal_parts (s : string) : bool * string * string * string :=
  let '(neg, s) := match s with String c t => if is_sign c then (c =c? "-", t) else (false, s) | "" => (false, s) end in
  let '(int_, rest) := str_span is_digit s in
  match rest with
  | String c t => if c =c? "." then let '(frac, rest) := str_span is_digit t in (neg, int_, frac, rest) else (neg, int_, "", rest)
  | "" => (neg, int_, "", rest)
  end.

(** [strconv.ParseFloat(s, 64)] for a string of signs, digits and points. *)
Definition ParseFloat (s : string) : option Q :=
  let '(neg, int_, frac, rest) := decimal_parts s in
  if negb (rest =s? "") || (int_ +:+ frac =s? "") then None
  else
    n ← parse_digits 10 (int_ +:+ frac) 0;
    q ← nearest_float n (10 ^ Z.of_nat (String.length frac));
    Some (if neg : bool then Qopp q else q).

(** * Values of keys *)

Record humanVal := { num : Q; hasSuffix : bool; suffix : Z; orig : string }.

Definition no_human (s : string) : humanVal := {| num := 0; hasSuffix := false; suffix := 0; orig := s |}.

Definition suffixRank (c : ascii) : option Z :=
  if c =c? "K" then Some 1 else if c =c? "k" then Some 2 else if c =c? "M" then Some 3
  else if c =c? "G" then Some 4 else if c =c? "T" then Some 5 else if c =c? "P" then Some 6
  else if c =c? "E" then Some 7 else if c =c? "Z" then Some 8 else if c =c? "Y" then Some 9 else None.

(** The longest prefix of digits with at most one point. *)
Fixpoint number_prefix (dotSeen : bool) (s : string) : string * string :=
  match s with
  | "" => ("", "")
  | String c t =>
      if is_digit c then let '(w, r) := number_prefix dotSeen t in (String c w, r)
      else if (c =c? ".") && negb dotSeen then let '(w, r) := number_prefix true t in (String c w, r)
      else ("", s)
  end.

Definition parseHumanVal (s : string) : humanVal :=
  let s := TrimSpace s in
  if s =s? "" then no_human ""
  else
    let '(numStr, rest) := number_prefix false s in
    match ParseFloat numStr with
    | None => no_human s
    | Some v =>
        match (match rest with String c _ => suffixRank c | "" => None end) with
        | Some rank => {| num := v; hasSuffix := true; suffix := rank; orig := s |}
        | None => {| num := v; hasSuffix := false; suffix := 0; orig := s |}
        end
    end.

(** The numeric prefix of a string: sign, digits, point, digits. *)
Definition numeric_prefix (s : string) : string :=
  let '(_, _, _, rest) := decimal_parts s in str_take (String.length s - String.length rest) s.

Definition parseNumericPrefix (s : string) : option Q :=
  let s := TrimLeft (fun c => (c =c? " ") || (code c =? 9)) s in
  let '(_, int_, frac, _) := decimal_parts s in
  if int_ +:+ frac =s? "" then None else ParseFloat (numeric_prefix s).

Definition monthOrder (s : string) : option Z :=
  if (s =s? "jan") || (s =s? "january") then Some 1 else if (s =s? "feb") || (s =s? "february") then Some 2
  else if (s =s? "mar") || (s =s? "march") then Some 3 else if (s =s? "apr") || (s =s? "april") then Some 4
  else if s =s? "may" then Some 5 else if (s =s? "jun") || (s =s? "june") then Some 6
  else if (s =s? "jul") || (s =s? "july") then Some 7 else if (s =s? "aug") || (s =s? "august") then Some 8
  else if (s =s? "sep") || (s =s? "september") then Some 9 else if (s =s? "oct") || (s =s? "october") then Some 10
  else if (s =s? "nov") || (s =s? "november") then Some 11 else if (s =s? "dec") || (s =s? "december") then Some 12 else None.

Section Sort.
(** [strings.ToLower] *)
Variable ToLower : string -> string.

Definition parseMonth (s : string) : option Z :=
  let s := TrimSpace s in
  if s =s? "" then None
  else
    let lower := ToLower s in
    match monthOrder lower with
    | Some m => Some m
    | None => if (3 <=? String.length lower)%nat then monthOrder (str_take 3 lower) else None
    end.

(** * Keys *)

Record keySpec := {
  startField : Z; startChar : Z; endField : Z; endChar : Z;
  numeric : bool; reverse : bool; month : bool; human : bool }.

Definition global_key (numeric_ reverse_ month_ human_ : bool) : keySpec :=
  {| startField := 0; startChar := 0; endField := 0; endChar := 0;
     numeric := numeric_; reverse := reverse_; month := month_; human := human_ |}.

(** [string(runes[start:end])] *)
Definition slice_runes (key : string) (start : Z) (ks : keySpec) : option string :=
  let rs := runes key in
  if Z.of_nat (length rs) <=? start then Some ""
  else
    let end_ := if (0 <? endChar ks) && (endChar ks <=? Z.of_nat (length rs)) then endChar ks else Z.of_nat (length rs) in
    if end_ <? start then None
    else Some (string_of_runes (take (Z.to_nat (end_ - start)) (drop (Z.to_nat start) rs))).

Definition extractKey (line : string) (ks : keySpec) (delimiter : string) : option string :=
  let parts := if delimiter =s? "" then Fields line else split_on (String.length line) line delimiter in
  if startField ks <=? 0 then Some line
  else
    let end_ := if (endField ks <=? 0) || (endField ks <? startField ks) then startField ks else endField ks in
    let keyParts := take (Z.to_nat (end_ - startField ks + 1)) (drop (Z.to_nat (startField ks - 1)) parts) in
    let key := join_with (if delimiter =s? "" then " " else delimiter) keyParts in
    let start := if (startChar ks <=? 0) && (0 <? endChar ks) then 1 else startChar ks in
    if (0 <? start) && negb (key =s? "") then slice_runes key (start - 1) ks else Some key.

Definition parseFieldChar (s : string) : Z * Z :=
  if s =s? "" then (1, 0)
  else
    match Index s "." with
    | Some dot => (default 1 (Atoi (str_take dot s)), default 0 (Atoi (str_drop (S dot) s)))
    | None => (default 1 (Atoi s), 0)
    end.

Definition is_key_flag (c : ascii) : bool :=
  (c =c? "n") || (c =c? "r") || (c =c? "M") || (c =c? "h") || (c =c? "b").

Definition with_flag (ks : keySpec) (r : Z) : keySpec :=
  {| startField := startField ks; startChar := startChar ks; endField := endField ks; endChar := endChar ks;
     numeric := numeric ks || (r =? 110); reverse := reverse ks || (r =? 114);
     month := month ks || (r =? 77); human := human ks || (r =? 104) |}.

(** [rest[:IndexAny(rest, "nrMhb")]] and the rest. *)
Definition before_flags (s : string) : string * string := str_span (fun c => negb (is_key_flag c)) s.

Definition parseKeySpec (kStr : string) (globalNumeric globalMonth globalHuman : bool) : keySpec :=
  let '(head_, after) := str_span (fun c => negb (c =c? ",")) kStr in
  let '(first, flags1) := before_flags head_ in
  let '(sf, sc) := parseFieldChar first in
  let rest := flags1 +:+ after in
  let '(ef, ec, rest) :=
    if after =s? "" then (0, 0, rest)
    else
      let '(second, flags2) := before_flags (str_drop 1 rest) in
      let '(ef, ec) := parseFieldChar second in (ef, ec, flags2) in
  let ks := foldl with_flag {| startField := sf; startChar := sc; endField := ef; endChar := ec;
                               numeric := false; reverse := false; month := false; human := false |} (runes rest) in
  {| startField := startField ks; startChar := startChar ks; endField := endField ks; endChar := endChar ks;
     numeric := numeric ks || (globalNumeric && negb (month ks) && negb (human ks));
     reverse := reverse ks; month := month ks || globalMonth; human := human ks || globalHuman |}.

(** * Lines *)

Record lineItem := {
  original : string;
  keys : list string;
  numVals : list Q;
  validNum : list bool;
  humanVals : list humanVal }.

(** The values of a key: number, whether it is valid, human-readable number. *)
Definition key_values (ks : keySpec) (key : string) : Q * bool * humanVal :=
  if human ks then (0%Q, false, parseHumanVal key)
  else
    let v := if numeric ks then parseNumericPrefix key
             else if month ks then inject_Z <$> parseMonth key else None in
    (default 0%Q v, bool_decide (v <> None), no_human "").

Definition parse_item (keySpecs : list keySpec) (delimiter text : string) : option lineItem :=
  match keySpecs with
  | [] => Some {| original := text; keys := [text]; numVals := [0%Q]; validNum := [false]; humanVals := [] |}
  | _ =>
      keys_ ← mapM (fun ks => extractKey text ks delimiter) keySpecs;
      let vs := zip_with key_values keySpecs keys_ in
      Some {| original := text; keys := keys_; numVals := (fun v => fst (fst v)) <$> vs;
              validNum := (fun v => snd (fst v)) <$> vs; humanVals := snd <$> vs |}
  end.

(** The input is cut at 256 MiB. *)
Definition limit : Z := 268435456.
Definition LimitReader (text : string) : string * string :=
  if Z.of_nat (String.length text) <=? limit then (text, "")
  else (str_take (Z.to_nat limit) text, str_drop (Z.to_nat limit) text).

(** The tokens that fit the buffer of 10 MiB, and whether one does not. *)
Fixpoint fitting_tokens (ls : list string) : list string * bool :=
  match ls with
  | [] => ([], false)
  | l :: ls =>
      if Z.of_nat (String.length l) <? 10485760 then let '(r, e) := fitting_tokens ls in (l :: r, e) else ([], true)
  end.

(** [scanNUL]: the texts between NUL bytes; no empty last one. *)
Fixpoint nul_tokens (cur s : string) : list string :=
  match s with
  | "" => if cur =s? "" then [] else [cur]
  | String c s => if code c =? 0 then cur :: nul_tokens "" s else nul_tokens (cur +:+ String c "") s
  end.

Definition scan_lines (zeroTerminated : bool) (text : string) : list string * bool :=
  if zeroTerminated then fitting_tokens (nul_tokens "" text)
  else let '(ls, e) := fitting_tokens (raw_lines "" text) in (drop_cr <$> ls, e).

(** * Comparison *)

Definition cmpFloat (a b : Q) : comparison := Qcompare a b.

Definition compareHuman (a b : humanVal) : comparison :=
  if negb (hasSuffix a) && hasSuffix b then Lt
  else if hasSuffix a && negb (hasSuffix b) then Gt
  else if negb (hasSuffix a) && negb (hasSuffix b) then
    match cmpFloat (num a) (num b) with Eq => Compare (orig a) (orig b) | c => c end
  else
    match Z.compare (suffix a) (suffix b) with
    | Eq => match cmpFloat (num a) (num b) with Eq => Compare (orig a) (orig b) | c => c end
    | c => c
    end.

(** The comparison at the key [ki]; [Eq] for a tie. *)
Definition compare_key (ks : keySpec) (ki : nat) (a b : lineItem) : comparison :=
  let opp c := if reverse ks then CompOpp c else c in
  match (if human ks then match humanVals a !! ki, humanVals b !! ki with Some ha, Some hb => Some (compareHuman ha hb) | _, _ => None end
         else None) with
  | Some c => opp c
  | None =>
      let ak := default "" (keys a !! ki) in
      let bk := default "" (keys b !! ki) in
      let va := default false (validNum a !! ki) in
      let vb := default false (validNum b !! ki) in
      opp (if (month ks || numeric ks) && va && vb then cmpFloat (default 0%Q (numVals a !! ki)) (default 0%Q (numVals b !! ki))
           else if numeric ks then
             if va && negb vb then Gt else if negb va && vb then Lt else Compare ak bk
           else Compare ak bk)
  end.

Fixpoint compare_keys (ksList : list keySpec) (ki : nat) (a b : lineItem) : comparison :=
  match ksList with
  | [] => Eq
  | ks :: ksList =>
      if (length (keys a) <=? ki)%nat || (length (keys b) <=? ki)%nat then Eq
      else match compare_key ks ki a b with Eq => compare_keys ksList (S ki) a b | c => c end
  end.

Definition compare_items (ksList : list keySpec) (stable tieReverse : bool) (a b : lineItem) : comparison :=
  match compare_keys ksList 0 a b with
  | Eq => if stable then Eq else let c := Compare (original a) (original b) in if tieReverse then CompOpp c else c
  | c => c
  end.

(** * Running *)

Definition default_head {A} (d : A) (l : list A) : list A := match l with [] => [d] | _ => l end.

(** The values of the whole line for global options, set in the first place of each list. *)
Definition fill_item (numeric_ month_ human_ : bool) (i : lineItem) : option lineItem :=
  let empty := match numVals i with [] => true | _ => false end in
  let hv := if empty then [no_human ""] else humanVals i in
  let key := match keys i with k :: _ => k | [] => original i end in
  if human_ && bool_decide (hv = []) then None
  else
    let n := if numeric_ then parseNumericPrefix key else None in
    let m := if month_ then inject_Z <$> parseMonth key else None in
    let v := match m with Some m => Some m | None => n end in
    let nums := if empty then [0%Q] else numVals i in
    let valid := if empty then [false] else validNum i in
    if bool_decide (v <> None) && bool_decide (valid = []) then None
    else
      Some {| original := original i; keys := keys i;
              numVals := match v with Some v => <[0%nat := v]> nums | None => nums end;
              validNum := match v with Some _ => <[0%nat := true]> valid | None => valid end;
              humanVals := if human_ then <[0%nat := parseHumanVal key]> hv else hv |}.

(** The first of the items with the same keys as their neighbours. *)
Fixpoint unique_items (lastKeys : option (list string)) (items : list lineItem) : list string :=
  match items with
  | [] => []
  | i :: items =>
      let ks := match keys i with [] => [original i] | ks => ks end in
      if bool_decide (lastKeys = Some ks) then unique_items lastKeys items
      else original i :: unique_items (Some ks) items
  end.

Definition Run (items : list lineItem) (keySpecs : list keySpec)
    (reverse_ numeric_ unique month_ human_ stable tieReverse : bool) : option (list string) :=
  let global := [global_key numeric_ reverse_ month_ human_] in
  items ← (match keySpecs with
           | [] => if numeric_ || month_ || human_ then mapM (fill_item numeric_ month_ human_) items else Some items
           | _ => Some items
           end);
  let sorted := SortStableFunc (compare_items (match keySpecs with [] => global | _ => keySpecs end) stable tieReverse) items in
  Some (if unique then unique_items None sorted else original <$> sorted).

(** * The command *)

Record sort_options := {
  opt_r : bool; opt_n : bool; opt_u : bool; opt_s : bool; opt_z : bool; opt_h : bool; opt_M : bool; opt_json : bool;
  opt_k : list string; opt_t : string; opt_o : string }.

Definition flip_reverse (ks : keySpec) : keySpec :=
  {| startField := startField ks; startChar := startChar ks; endField := endField ks; endChar := endChar ks;
     numeric := numeric ks; reverse := negb (reverse ks); month := month ks; human := human ks |}.

(** The keys, and whether -r turns the last-resort comparison around. *)
Definition sort_keys (o : sort_options) : list keySpec * bool :=
  let specs := (fun k => parseKeySpec k (opt_n o) (opt_M o) (opt_h o)) <$> opt_k o in
  let hasNumericKey := existsb (fun ks => numeric ks || month ks || human ks) specs in
  match specs with
  | [] =>
      if opt_r o || opt_n o || opt_M o || opt_h o then ([global_key (opt_n o) (opt_r o) (opt_M o) (opt_h o)], false)
      else ([], false)
  | _ => (if opt_r o && negb hasNumericKey then flip_reverse <$> specs else specs, opt_r o && hasNumericKey)
  end.

(** The text of the error of [os.Open]. *)
Variable open_error : string -> string.

(** The first operand that does not exist. *)
Fixpoint missing (files : gmap string string) (paths : list string) : option string :=
  match paths with
  | [] => None
  | path :: paths =>
      if (path =s? "-") || bool_decide (files !! path <> None) then missing files paths else Some path
  end.

(** What reading an operand gives, and the input that is left. *)
Definition read_operand (files : gmap string string) (path stdin : string) : string * string :=
  if path =s? "-" then LimitReader stdin else (fst (LimitReader (default "" (files !! path))), stdin).

(** The items of the operands; [Err] when a line is too long. *)
Fixpoint read_items (specs : list keySpec) (delimiter : string) (zeroTerm : bool) (files : gmap string string)
    (paths : list string) (stdin : string) : option (result string (list lineItem)) :=
  match paths with
  | [] => Some (Ok [])
  | path :: paths =>
      let '(text, stdin) := read_operand files path stdin in
      let '(lines, tooLong) := scan_lines zeroTerm text in
      items ← mapM (parse_item specs delimiter) lines;
      if tooLong : bool then Some (Err "bufio.Scanner: token too long")
      else
        rest ← read_items specs delimiter zeroTerm files paths stdin;
        Some (let? rest := rest in Ok (items ++ rest))
  end.

Record SortResult := { Lines : list string; Count : Z }.

Definition terminator (zeroTerm : bool) : string := if zeroTerm then String "000" "" else String "010" "".

Definition sort_output (zeroTerm : bool) (lines : list string) : string :=
  match lines with [] => "" | _ => join_with (terminator zeroTerm) lines +:+ terminator zeroTerm end.

(** [sortRun] after the options, and the files; [None] where the source panics. *)
Definition sortRun (o : sort_options) (positional : list string) (stdin : string) (files : gmap string string) :
    option (run_io SortResult * gmap string string) :=
  let fail msg := Some ({| rc := 1; out := []; errs := [line ("sort: " +:+ msg)] |}, files) in
  let '(specs, tieReverse) := sort_keys o in
  let paths := match positional with [] => ["-"] | _ => positional end in
  match missing files paths with
  | Some path => fail (path +:+ ": " +:+ open_error path)
  | None =>
      items ← read_items specs (opt_t o) (opt_z o) files paths stdin;
      match items with
      | Err msg => fail msg
      | Ok items =>
          sortedLines ← Run items specs (opt_r o) (opt_n o) (opt_u o) (opt_M o) (opt_h o) (opt_s o) tieReverse;
          let text := if opt_json o then "" else sort_output (opt_z o) sortedLines in
          let toFile := negb (opt_o o =s? "") in
          Some ({| rc := 0;
                   out := if opt_json o then Render "sort" {| Lines := sortedLines; Count := Z.of_nat (length sortedLines) |} true []
                          else if toFile then [] else [CText text];
                   errs := [] |},
                if toFile then <[opt_o o := text]> files else files)
      end
  end.
End Sort.
