(* ===== verification/SortLaws.v ===== *)
(** Laws of sort.

    The comparison is an order of the lines, except with -M on texts that are not months; so the
    output is the one stably sorted permutation of the lines.  sort -u is sort and uniq, sort -r
    the reverse of sort, and comm counts the common lines of what sort prints. *)

From Stdlib Require Import Sorting.Sorted Sorting.Permutation QArith.
From S2P Require Import Prelude GoStd Utf8 Scanner Output Merge Order Sort.

Local Open Scope Z_scope.

Section Laws.
Variable ToLower : string -> string.

(** * The comparison is an order *)

#[local] Instance trivial_order {A} : TotalOrder (fun _ _ : A => Eq).
Proof. by split. Qed.

Definition the_key (ki : nat) (i : lineItem) : string := default "" (keys i !! ki).
Definition the_valid (ki : nat) (i : lineItem) : bool := default false (validNum i !! ki).
Definition the_num (ki : nat) (i : lineItem) : Q := default 0%Q (numVals i !! ki).
Definition the_human (ki : nat) (i : lineItem) : humanVal := default (no_human "") (humanVals i !! ki).

Definition human_order : humanVal -> humanVal -> comparison :=
  lex_by (on (fun h => if hasSuffix h then 1 else 0) Z.compare)
    (lex_by (on (fun h => if hasSuffix h then suffix h else 0) Z.compare) (lex_by (on num Qcompare) (on orig Compare))).

(** Numbers after the texts that are not numbers. *)
Definition numeric_order (ki : nat) : lineItem -> lineItem -> comparison :=
  lex_by (on (fun i => if the_valid ki i then 1 else 0) Z.compare)
    (lex_by (on (fun i => if the_valid ki i then the_num ki i else 0%Q) Qcompare)
       (on (fun i => if the_valid ki i then "" else the_key ki i) Compare)).

Definition key_order (ks : keySpec) (ki : nat) : lineItem -> lineItem -> comparison :=
  if human ks then reversed (reverse ks) (on (the_human ki) human_order)
  else if numeric ks then reversed (reverse ks) (numeric_order ki)
  else reversed (reverse ks) (on (the_key ki) Compare).

Fixpoint keys_order (ksList : list keySpec) (ki : nat) : lineItem -> lineItem -> comparison :=
  match ksList with
  | [] => fun _ _ => Eq
  | ks :: ksList => lex_by (key_order ks ki) (keys_order ksList (S ki))
  end.

Definition items_order (ksList : list keySpec) (stable tieReverse : bool) : lineItem -> lineItem -> comparison :=
  if stable then keys_order ksList 0 else lex_by (keys_order ksList 0) (reversed tieReverse (on original Compare)).

#[local] Instance human_total : TotalOrder human_order.
Proof. unfold human_order. apply _. Qed.

#[local] Instance key_total ks ki : TotalOrder (key_order ks ki).
Proof. unfold key_order, numeric_order. destruct (human ks), (numeric ks); apply _. Qed.

#[local] Instance keys_total ksList : forall ki, TotalOrder (keys_order ksList ki).
Proof. induction ksList as [|ks l IH]; intros ki; [apply _|]. cbn [keys_order]. pose proof (IH (S ki)). apply _. Qed.

#[local] Instance items_total ksList stable tieReverse : TotalOrder (items_order ksList stable tieReverse).
Proof. unfold items_order. destruct stable; apply _. Qed.

Lemma compareHuman_order a b : compareHuman a b = human_order a b.
Proof.
  unfold compareHuman, human_order, lex_by, on, then_by, cmpFloat.
  by destruct (hasSuffix a), (hasSuffix b); simpl; destruct (num a ?= num b)%Q, (suffix a ?= suffix b).
Qed.

(** Keys of months only, which are not an order where months and other texts meet. *)
Definition months_only (ks : keySpec) : bool := month ks && negb (numeric ks) && negb (human ks).

Definition shaped (n : nat) (specs : list keySpec) (i : lineItem) : Prop :=
  length (keys i) = n /\ (existsb human specs = true -> length (humanVals i) = n).

Lemma compare_key_order ks ki a b : months_only ks = false ->
  (human ks = true -> is_Some (humanVals a !! ki) /\ is_Some (humanVals b !! ki)) ->
  compare_key ks ki a b = key_order ks ki a b.
Proof.
  intros Hm Hh. unfold months_only in Hm. unfold compare_key, key_order.
  destruct (human ks).
  - destruct (Hh eq_refl) as [[ha Ha] [hb Hb]]. rewrite Ha, Hb, compareHuman_order. unfold reversed, on, the_human.
    by rewrite Ha, Hb.
  - fold (the_valid ki a) (the_valid ki b) (the_num ki a) (the_num ki b) (the_key ki a) (the_key ki b).
    destruct (numeric ks) eqn:Hn.
    + rewrite orb_true_r. unfold numeric_order, reversed, lex_by, on, then_by.
      destruct (the_valid ki a), (the_valid ki b); simpl; try done.
      unfold cmpFloat. by destruct (the_num ki a ?= the_num ki b)%Q.
    + destruct (month ks); [done|]. done.
Qed.

Lemma compare_keys_order n specs a b : shaped n specs a -> shaped n specs b -> forallb (fun ks => negb (months_only ks)) specs = true ->
  forall ki, (ki + length specs <= n)%nat -> compare_keys specs ki a b = keys_order specs ki a b.
Proof.
  intros [Ha1 Ha2] [Hb1 Hb2] Hm ki. revert ki Ha2 Hb2 Hm. induction specs as [|ks specs IH]; intros ki Ha2 Hb2 Hm Hn; [done|].
  cbn [compare_keys keys_order length forallb existsb] in *. apply andb_true_iff in Hm as [Hm1 Hm2]. apply negb_true_iff in Hm1.
  rewrite Ha1, Hb1, (proj2 (Nat.leb_gt n ki)) by lia. cbn [orb]. rewrite compare_key_order; [|done|].
  - unfold lex_by, then_by. destruct (key_order ks ki a b); [|done|done]. apply IH; [| |done|lia].
    + intros H. apply Ha2. by rewrite H, orb_true_r.
    + intros H. apply Hb2. by rewrite H, orb_true_r.
  - intros Hh. rewrite Hh in Ha2, Hb2. split; apply lookup_lt_is_Some; [rewrite Ha2|rewrite Hb2]; simpl; lia.
Qed.

Lemma compare_items_order n specs stable tieReverse a b : shaped n specs a -> shaped n specs b ->
  forallb (fun ks => negb (months_only ks)) specs = true -> (length specs <= n)%nat ->
  compare_items specs stable tieReverse a b = items_order specs stable tieReverse a b.
Proof.
  intros Ha Hb Hm Hn. unfold compare_items, items_order. rewrite (compare_keys_order n) by done.
  destruct stable; [by destruct (keys_order specs 0 a b)|]. unfold lex_by, then_by, reversed, on.
  destruct (keys_order specs 0 a b); try done. 
Qed.

(** * The lines of a run *)

(** What the command makes of the lines of its operands. *)
Definition sort_lines (o : sort_options) (lines : list string) : option (list string) :=
  let '(specs, tieReverse) := sort_keys o in
  items ← mapM (parse_item ToLower specs (opt_t o)) lines;
  Run ToLower items specs (opt_r o) (opt_n o) (opt_u o) (opt_M o) (opt_h o) (opt_s o) tieReverse.

Definition effective (specs : list keySpec) : list keySpec :=
  match specs with [] => [global_key false false false false] | _ => specs end.

(** The comparison of a run. *)
Definition compare_of (o : sort_options) : lineItem -> lineItem -> comparison :=
  compare_items (effective (fst (sort_keys o))) (opt_s o) (snd (sort_keys o)).

Definition item_of (o : sort_options) (text : string) : option lineItem := parse_item ToLower (fst (sort_keys o)) (opt_t o) text.

Definition no_months (o : sort_options) : Prop := forallb (fun ks => negb (months_only ks)) (fst (sort_keys o)) = true.

Lemma sort_keys_nil o : fst (sort_keys o) = [] -> opt_r o = false /\ opt_n o = false /\ opt_M o = false /\ opt_h o = false /\ opt_k o = [].
Proof.
  unfold sort_keys. destruct (opt_k o) as [|k ks]; cbn [fmap list_fmap].
  - destruct (opt_r o), (opt_n o), (opt_M o), (opt_h o); simpl; try done.
  - destruct (_ && negb _); done.
Qed.

Lemma sort_lines_eq o lines : sort_lines o lines =
  items ← mapM (item_of o) lines;
  let sorted := SortStableFunc (compare_of o) items in
  Some (if opt_u o then unique_items None sorted else original <$> sorted).
Proof.
  unfold sort_lines, item_of, compare_of. pose proof (sort_keys_nil o) as Hn.
  destruct (sort_keys o) as [specs tie]. cbn [fst snd] in *.
  destruct (mapM (parse_item ToLower specs (opt_t o)) lines) as [items|]; [|done]. simpl. unfold Run.
  destruct specs as [|ks specs]; [|done]. destruct (Hn eq_refl) as (-> & -> & -> & -> & _). done.
Qed.

Lemma parse_item_shape o text i : item_of o text = Some i ->
  original i = text /\ shaped (length (effective (fst (sort_keys o)))) (effective (fst (sort_keys o))) i.
Proof.
  unfold item_of. destruct (fst (sort_keys o)) as [|ks specs].
  - cbn. intros [= <-]. by repeat split.
  - unfold parse_item. destruct (mapM _ _) as [ks'|] eqn:E; [|done]. intros [= <-]. split; [done|].
    apply length_mapM in E. split; [done|]. intros _. cbn [humanVals].
    destruct ks' as [|k' ks']; [done|]. simpl in *. injection E as E. rewrite length_fmap, length_zip_with_l; [done|]. by rewrite E.
Qed.

Lemma items_shape o lines items : mapM (item_of o) lines = Some items ->
  original <$> items = lines /\
  Forall (fun i => item_of o (original i) = Some i /\ shaped (length (effective (fst (sort_keys o)))) (effective (fst (sort_keys o))) i) items.
Proof.
  intros Hm. apply mapM_Some_1 in Hm. induction Hm as [|text i lines items Hi _ [IH1 IH2]]; [done|].
  destruct (parse_item_shape o text i Hi) as [<- Hs]. split; [rewrite fmap_cons; by rewrite IH1|by constructor].
Qed.

Lemma effective_months o : no_months o -> forallb (fun ks => negb (months_only ks)) (effective (fst (sort_keys o))) = true.
Proof. unfold no_months, effective. by destruct (fst (sort_keys o)). Qed.

(** The order of a run, from its keys and whether they are reversed. *)
Definition order_of (o : sort_options) : lineItem -> lineItem -> comparison :=
  items_order (effective (fst (sort_keys o))) (opt_s o) (snd (sort_keys o)).

#[local] Instance order_of_total o : TotalOrder (order_of o).
Proof. apply items_total. Qed.

Lemma compare_agrees o lines items x y : no_months o -> mapM (item_of o) lines = Some items -> x ∈ items -> y ∈ items ->
  compare_of o x y = order_of o x y.
Proof.
  intros Hm Hi Hx Hy. destruct (items_shape o lines items Hi) as [_ Hs]. rewrite Forall_forall in Hs.
  eapply compare_items_order; [by apply Hs|by apply Hs|by apply effective_months|done].
Qed.

Lemma run_sorted o lines items : no_months o -> mapM (item_of o) lines = Some items ->
  stably_sorted (compare_of o) items (SortStableFunc (compare_of o) items) /\
  forall l, stably_sorted (compare_of o) items l -> l = SortStableFunc (compare_of o) items.
Proof.
  intros Hm Hi. set (order := order_of o).
  assert (Ha : forall x y, x ∈ items -> y ∈ items -> compare_of o x y = order x y) by (intros; by apply (compare_agrees o lines items)).
  assert (Ha' : forall x y, x ∈ items -> y ∈ items -> order x y = compare_of o x y) by (intros; symmetry; by apply Ha).
  rewrite (sort_ext _ order items Ha). split.
  - apply (stably_sorted_ext order); [done|]. apply SortStableFunc_spec, _.
  - intros l Hl. apply (sort_unique order). by apply (stably_sorted_ext (compare_of o)).
Qed.

Lemma item_determined o lines items x y : mapM (item_of o) lines = Some items -> x ∈ items -> y ∈ items ->
  original x = original y -> x = y.
Proof.
  intros Hi Hx Hy E. destruct (items_shape o lines items Hi) as [_ Hs]. rewrite Forall_forall in Hs.
  destruct (Hs x Hx) as [H1 _]. destruct (Hs y Hy) as [H2 _]. congruence.
Qed.

Lemma last_resort o x y : opt_s o = false -> compare_of o x y = Eq -> original x = original y.
Proof.
  unfold compare_of, compare_items. intros ->. destruct (compare_keys _ 0 x y); try done.
  intros E. apply Compare_eq. destruct (snd (sort_keys o)); [|done]. by destruct (Compare _ _).
Qed.

Lemma mapM_permutation {A B} (f : A -> option B) l1 l2 k1 : Permutation l1 l2 -> mapM f l1 = Some k1 ->
  exists k2, mapM f l2 = Some k2 /\ Permutation k1 k2.
Proof.
  intros Hp. revert k1. induction Hp as [|x l1 l2 _ IH|x y l|l1 l2 l3 _ IH1 _ IH2]; intros k1 Hk.
  - by exists k1.
  - simpl in *. destruct (f x) as [b|]; [|done]. simpl in *. destruct (mapM f l1) as [k|]; [|done]. injection Hk as <-.
    destruct (IH k eq_refl) as (k2 & -> & Hp2). eexists. split; [done|]. by constructor.
  - simpl in *. destruct (f y) as [b|]; [|done]. simpl in *. destruct (f x) as [c|]; [|done]. simpl in *.
    destruct (mapM f l) as [k|]; [|done]. injection Hk as <-. eexists. split; [done|]. constructor.
  - destruct (IH1 k1 Hk) as (k2 & H2 & P2). destruct (IH2 k2 H2) as (k3 & H3 & P3). exists k3. split; [done|]. by etransitivity.
Qed.

(** * What sort prints *)

(** Without -s the output does not depend on the order of the lines of the input. *)
Theorem sort_canonical o lines1 lines2 : no_months o -> opt_s o = false -> Permutation lines1 lines2 ->
  sort_lines o lines1 = sort_lines o lines2.
Proof.
  intros Hm Hs Hp. rewrite !sort_lines_eq.
  destruct (mapM (item_of o) lines1) as [items1|] eqn:E1.
  - destruct (mapM_permutation _ _ _ _ Hp E1) as (items2 & E2 & Hp2). rewrite E2. simpl.
    assert (SortStableFunc (compare_of o) items1 = SortStableFunc (compare_of o) items2) as ->; [|done].
    set (order := order_of o).
    assert (Ha : forall x y, x ∈ items1 -> y ∈ items1 -> compare_of o x y = order x y) by (intros; by apply (compare_agrees o lines1 items1)).
    rewrite (sort_ext _ order items1 Ha), (sort_ext _ order items2) by (intros x y; rewrite <- !Hp2; apply Ha).
    apply sort_permutation; [apply _| |done]. intros x y Hx Hy E. rewrite <- Ha in E by done.
    apply (item_determined o lines1 items1 x y E1 Hx Hy). by apply (last_resort o).
  - destruct (mapM (item_of o) lines2) as [items2|] eqn:E2; [|done].
    symmetry in Hp. destruct (mapM_permutation _ _ _ _ Hp E2) as (items & E & _). congruence.
Qed.

Definition with_u (u : bool) (o : sort_options) : sort_options :=
  {| opt_r := opt_r o; opt_n := opt_n o; opt_u := u; opt_s := opt_s o; opt_z := opt_z o; opt_h := opt_h o; opt_M := opt_M o;
     opt_json := opt_json o; opt_k := opt_k o; opt_t := opt_t o; opt_o := opt_o o |}.

(** [uniq] without options. *)
Definition uniq_lines (lines : list string) : list string := Line <$> uniq_run ToLower false false false 0 0 0 lines.

Lemma whole_line_key o text i : opt_k o = [] -> item_of o text = Some i -> keys i = [original i].
Proof.
  unfold item_of, sort_keys. intros ->. cbn [fmap list_fmap]. destruct (_ || _); cbn; by intros [= <-].
Qed.

Lemma unique_items_uniq items : Forall (fun i => keys i = [original i]) items -> forall prev prevOrig count,
  prevOrig :: unique_items (Some [prev]) items =
  Line <$> uniq_loop ToLower false false false 0 0 0 prev prevOrig count (original <$> items).
Proof.
  induction 1 as [|i items Hi _ IH]; intros prev prevOrig count; [done|].
  rewrite fmap_cons. cbn [unique_items uniq_loop]. rewrite Hi. cbv zeta.
  change (key_of ToLower false 0 0 0 (original i)) with (original i). destruct (seqb_spec (original i) prev) as [E|E].
  - rewrite E, bool_decide_eq_true_2 by done. apply IH.
  - rewrite bool_decide_eq_false_2 by congruence. unfold emit at 1. cbn [wanted negb andb orb app fmap list_fmap Line].
    f_equal. apply IH.
Qed.

Lemma unique_items_lines items : Forall (fun i => keys i = [original i]) items ->
  unique_items None items = uniq_lines (original <$> items).
Proof.
  intros Hk. destruct items as [|i items]; [done|]. apply Forall_cons in Hk as [Hi Hk]. cbn [unique_items]. rewrite Hi. cbv zeta.
  rewrite bool_decide_eq_false_2 by done. apply (unique_items_uniq items Hk (original i) (original i) 1).
Qed.

(** C33: without -k, [sort -u] prints what [sort | uniq] prints, whatever the other options. *)
Theorem sort_u_is_uniq o lines : opt_k o = [] ->
  sort_lines (with_u true o) lines = uniq_lines <$> sort_lines (with_u false o) lines.
Proof.
  intros Hk. rewrite !sort_lines_eq. change (item_of (with_u true o)) with (item_of o). change (item_of (with_u false o)) with (item_of o).
  change (compare_of (with_u true o)) with (compare_of o). change (compare_of (with_u false o)) with (compare_of o).
  destruct (mapM (item_of o) lines) as [items|] eqn:E; [|done]. simpl. f_equal.
  apply unique_items_lines. destruct (items_shape o lines items E) as [_ Hs].
  assert (Hp : forall x, x ∈ SortStableFunc (compare_of o) items -> x ∈ items).
  { intros x. unfold SortStableFunc. rewrite <- Permutation_rev.
    enough (forall k sorted, x ∈ foldl (fun s y => insert_back (compare_of o) y s) sorted k -> x ∈ sorted \/ x ∈ k) as H.
    { intros Hx. destruct (H _ _ Hx) as [Hx' | Hx']; [by apply elem_of_nil in Hx'|done]. }
    induction k as [|y k IH]; intros sorted Hx; [by left|]. cbn [foldl] in Hx. destruct (IH _ Hx) as [Hx' | Hx'].
    - rewrite insert_back_perm in Hx'. apply elem_of_cons in Hx' as [-> | Hx']; [right; by left|by left].
    - right. by right. }
  rewrite Forall_forall in *. intros x Hx. destruct (Hs x (Hp x Hx)) as [Hi _]. by eapply whole_line_key.
Qed.

(** ** Lines as texts *)

(** No options but -r, -s, -z and the like: bytes are compared. *)
Definition plain_options (o : sort_options) : Prop :=
  opt_k o = [] /\ opt_n o = false /\ opt_M o = false /\ opt_h o = false /\ opt_u o = false.

Lemma plain_order o : plain_options o -> forall x y, keys x = [original x] -> keys y = [original y] ->
  compare_of o x y = reversed (opt_r o) (on original Compare) x y.
Proof.
  intros (Hk & Hn & HM & Hh & _) x y Hx Hy. unfold compare_of, sort_keys. rewrite Hk, Hn, HM, Hh. cbn [fmap list_fmap].
  destruct (opt_r o); cbn; unfold compare_items; cbn [compare_keys]; rewrite Hx, Hy; cbn;
    unfold compare_key; cbn; rewrite Hx, Hy; unfold reversed, on; cbn;
    destruct (Compare (original x) (original y)) eqn:E; cbn; try done; rewrite ?E; by destruct (opt_s o).
Qed.

Lemma plain_sort o lines : plain_options o ->
  sort_lines o lines = Some (SortStableFunc (reversed (opt_r o) Compare) lines).
Proof.
  intros Hp. pose proof Hp as (Hk & Hn & HM & Hh & Hu). rewrite sort_lines_eq, Hu.
  assert (Hi : exists items, mapM (item_of o) lines = Some items).
  { apply mapM_is_Some_2, Forall_forall. intros x _. unfold item_of, sort_keys. rewrite Hk. cbn [fmap list_fmap].
    destruct (_ || _); by eexists. }
  destruct Hi as [items Hi]. rewrite Hi. simpl. f_equal. destruct (items_shape o lines items Hi) as [<- Hs].
  rewrite (sort_ext _ (on original (reversed (opt_r o) Compare))).
  - apply sort_map.
  - rewrite Forall_forall in Hs. intros x y Hx Hy. rewrite (plain_order o Hp); [done| |]; eapply whole_line_key; [done|by apply Hs|done|by apply Hs].
Qed.


Lemma sorted_lines lines : StronglySorted sle (SortStableFunc Compare lines) /\ Permutation lines (SortStableFunc Compare lines).
Proof. destruct (SortStableFunc_spec Compare lines) as (Hp & Hs & _). by split. Qed.

Definition with_r (r : bool) (o : sort_options) : sort_options :=
  {| opt_r := r; opt_n := opt_n o; opt_u := opt_u o; opt_s := opt_s o; opt_z := opt_z o; opt_h := opt_h o; opt_M := opt_M o;
     opt_json := opt_json o; opt_k := opt_k o; opt_t := opt_t o; opt_o := opt_o o |}.

Lemma rev_replicate {A} n (x : A) : rev (replicate n x) = replicate n x.
Proof. induction n as [|n IH]; [done|]. cbn [replicate rev]. rewrite IH. symmetry. apply replicate_cons_app. Qed.

Lemma reversed_sort lines : SortStableFunc (reversed true Compare) lines = rev (SortStableFunc Compare lines).
Proof.
  symmetry. apply (sort_unique (reversed true Compare)). destruct (SortStableFunc_spec Compare lines) as (Hp & Hs & He).
  split; [|split].
  - rewrite <- Permutation_rev. done.
  - apply sorted_rev. clear Hp He. revert Hs. unfold flip, le_of, reversed.
    induction 1 as [|x l Hs IH Hx]; [constructor|]. constructor; [done|]. eapply Forall_impl; [exact Hx|]. intros y Hy.
    by rewrite <- (Compare_antisym y x).
  - intros x Hx. rewrite equals_rev.
    assert (Heq : forall l, equals (reversed true Compare) x l = equals Compare x l).
    { intros l. unfold equals. apply list_filter_iff. intros y. unfold reversed. by destruct (Compare x y). }
    rewrite !Heq, (He x Hx).
    assert (Hr : equals Compare x lines = replicate (length (equals Compare x lines)) x).
    { clear. unfold equals. induction lines as [|y l IH]; [done|]. rewrite filter_cons. case_decide as E; [|done].
      apply Compare_eq in E as <-. simpl. by f_equal. }
    rewrite Hr. apply rev_replicate.
Qed.

(** Without -k, -n, -M, -h and -u, [sort -r] prints the lines of sort in the opposite order. *)
Theorem sort_reverse o lines : plain_options o ->
  sort_lines (with_r true o) lines = (@rev string) <$> sort_lines (with_r false o) lines.
Proof.
  intros Hp. rewrite !plain_sort by exact Hp. simpl. f_equal. apply reversed_sort.
Qed.

(** C34: for a sort without -k, -n, -M, -h, -u and -r, comm on what sort prints of two files counts their
    common lines: a line is in column 3 as often as in the file that has fewer of it, and in the column of a
    file as often as that file has more of it than the other (one entry for each occurrence, where the comment on
    [Compare] of comm says one per unique line); the output of sort is in the order that comm and join need. *)
Theorem sort_then_comm o file1 file2 : plain_options o -> opt_r o = false ->
  exists sorted1 sorted2, sort_lines o file1 = Some sorted1 /\ sort_lines o file2 = Some sorted2 /\
    StronglySorted sle sorted1 /\ StronglySorted sle sorted2 /\
    let entries := comm_compare false false false sorted1 sorted2 in
    forall x, occ x (texts 1 entries) = (occ x file1 - occ x file2)%nat /\
      occ x (texts 2 entries) = (occ x file2 - occ x file1)%nat /\
      occ x (texts 3 entries) = Nat.min (occ x file1) (occ x file2).
Proof.
  intros Hp Hr. exists (SortStableFunc Compare file1), (SortStableFunc Compare file2). rewrite !plain_sort, Hr by done.
  destruct (sorted_lines file1) as [S1 P1]. destruct (sorted_lines file2) as [S2 P2].
  split; [done|]. split; [done|]. split; [done|]. split; [done|]. intros entries x.
  assert (Ho : forall l l', Permutation l l' -> occ x l = occ x l') by (intros l l'; unfold occ; by rewrite (Permutation_count_occ String.string_dec)).
  rewrite (Ho _ _ P1), (Ho _ _ P2). destruct (comm_sides (SortStableFunc Compare file1) (SortStableFunc Compare file2)) as [H1 H2].
  fold entries in H1, H2. pose proof (comm_both x _ _ S1 S2) as H3. fold entries in H3.
  assert (Hside : forall col es, col <> 3 -> occ x (side col es) = (occ x (texts col es) + occ x (texts 3 es))%nat).
  { intros col es Hc. induction es as [|[t c] es IH]; [done|]. rewrite side_cons, !texts_cons. unfold occ in *. rewrite !count_occ_app, IH.
    repeat case_decide; simpl; try lia; naive_solver lia. }
  pose proof (Hside 1 entries ltac:(done)) as E1. pose proof (Hside 2 entries ltac:(done)) as E2. rewrite H1 in E1. rewrite H2 in E2. lia.
Qed.
End Laws.

(** * Numbers *)

Lemma round_even_exact m d : 0 < d -> round_even (m * d) d = m.
Proof.
  intros Hd. unfold round_even. rewrite Z.mod_mul, Z.div_mul by lia.
  by replace (Z.compare (2 * 0) d) with Lt by (symmetry; apply Z.compare_lt_iff; lia).
Qed.

Lemma Qred_inject n : Qred (inject_Z n) = inject_Z n.
Proof. unfold inject_Z, Qred. pose proof (Z.ggcd_gcd n 1) as H1. pose proof (Z.ggcd_correct_divisors n 1) as H2.
  destruct (Z.ggcd n 1) as [g [a b]]. simpl in *. rewrite Z.gcd_1_r in H1. subst g. destruct H2 as [H2 H3]. rewrite Z.mul_1_l in *. by subst. Qed.

Lemma float_integer n : 0 <= n < 2 ^ 53 -> nearest_float n 1 = Some (inject_Z n).
Proof.
  intros Hn. unfold nearest_float. destruct (Z.eqb_spec n 0) as [->|Hn0]; [done|].
  assert (Hlog : Z.log2 n < 53) by (apply Z.log2_lt_pow2; lia). pose proof (Z.log2_nonneg n).
  assert (He : float_exponent n 1 = Z.log2 n - 52).
  { unfold float_exponent. change (Z.log2 1) with 0. rewrite Z.sub_0_r, (Z.min_r (Z.log2 n) 0), (Z.max_l (Z.log2 n) 0) by lia. unfold pow2.
    change (2 ^ (-0)) with 1. rewrite Z.mul_1_r.
    pose proof (Z.log2_spec n ltac:(lia)) as [Hl _]. rewrite (proj2 (Z.ltb_ge _ _)) by lia. lia. }
  rewrite He. set (e := Z.log2 n - 52). assert (e <= 0) by lia. cbv zeta. unfold pow2.
  rewrite Z.min_l, Z.max_r by lia. change (2 ^ 0) with 1. change (1 * 1) with 1.
  rewrite <- (Z.mul_1_r (n * _)), round_even_exact by lia.
  rewrite (proj2 (Z.ltb_ge 971 e)), (proj2 (Z.eqb_neq e 971)) by lia. cbn [orb andb]. f_equal.
  destruct (Z.ltb_spec e 0) as [Hneg|Hpos].
  - rewrite <- (Qred_inject n). apply Qred_complete. unfold Qeq, inject_Z. cbn [Qnum Qden].
    rewrite Z2Pos.id by (apply Z.pow_pos_nonneg; lia). lia.
  - replace e with 0 by lia. change (2 ^ (-0)) with 1. change (2 ^ 0) with 1. rewrite !Z.mul_1_r. apply Qred_inject.
Qed.

Lemma digits_span s : str_forall is_digit s = true -> str_span is_digit s = (s, "").
Proof. induction s as [|c s IH]; [done|]. simpl. intros H. apply andb_true_iff in H as [Hc Hs]. by rewrite Hc, IH. Qed.

(** Integers as sort reads them. *)
Lemma parse_integer z : - 2 ^ 53 < z < 2 ^ 53 -> parseNumericPrefix (FormatInt z) = Some (inject_Z z).
Proof.
  intros Hz.
  assert (Hn : forall n, 0 <= n < 2 ^ 53 -> exists c t, FormatInt n = String c t /\ is_digit c = true /\
    str_span is_digit (FormatInt n) = (FormatInt n, "") /\ parse_digits 10 (FormatInt n) 0 = Some n).
  { intros n Hn. destruct (FormatInt_digits n ltac:(lia)) as [H1 H2]. destruct (FormatInt n) as [|c t] eqn:E; [done|].
    exists c, t. split; [done|]. split; [simpl in H1; by apply andb_true_iff in H1 as [? _]|]. split; [by apply digits_span|].
    rewrite <- E. apply parse_digits_FormatInt. lia. }
  assert (Hsign : forall c, is_digit c = true -> is_sign c = false /\ ((c =c? " ") || (code c =? 9)) = false).
  { intros c Hc. pose proof (is_digit_val c Hc) as (d & _ & Hd & Hr). unfold is_sign.
    split; repeat (apply orb_false_iff; split); try (apply Ascii.eqb_neq; intros ->; vm_compute in Hd; subst d; lia); apply Z.eqb_neq; lia. }
  unfold parseNumericPrefix, ParseFloat, numeric_prefix.
  destruct (Z.leb_spec 0 z) as [Hp|Hp].
  - destruct (Hn z ltac:(lia)) as (c & t & E & Hc & Hs & Hd). destruct (Hsign c Hc) as [H1 H2].
    assert (Hdec : decimal_parts (FormatInt z) = (false, FormatInt z, "", "")).
    { unfold decimal_parts. rewrite E, H1, <- E, Hs. done. }
    assert (TrimLeft (fun c => (c =c? " ") || (code c =? 9)) (FormatInt z) = FormatInt z) as ->.
    { rewrite E. unfold TrimLeft. cbn [str_span]. by rewrite H2. }
    rewrite Hdec. cbn [String.length]. rewrite Nat.sub_0_r, str_take_length, Hdec, sapp_nil_r. 
    rewrite seqb_ne by (by rewrite E). cbn. rewrite Hd. simpl. by rewrite float_integer by lia.
  - assert (Hneg : FormatInt z = String "-" (FormatInt (- z))).
    { destruct z as [|p|p]; [lia|lia|]. change (- Z.neg p) with (Z.pos p). unfold FormatInt. done. }
    destruct (Hn (- z) ltac:(lia)) as (c & t & E & Hc & Hs & Hd).
    assert (Hdec : decimal_parts (FormatInt z) = (true, FormatInt (- z), "", "")).
    { unfold decimal_parts. rewrite Hneg. cbn. by rewrite Hs. }
    assert (TrimLeft (fun c => (c =c? " ") || (code c =? 9)) (FormatInt z) = FormatInt z) as -> by (by rewrite Hneg).
    rewrite Hdec. cbn [String.length]. rewrite Nat.sub_0_r, str_take_length, Hdec, sapp_nil_r. 
    rewrite seqb_ne by (by rewrite E). cbn. rewrite Hd. simpl. rewrite float_integer by lia. simpl. f_equal.
    unfold inject_Z, Qopp. simpl. by rewrite Z.opp_involutive.
Qed.

Definition integer_options (o : sort_options) : Prop :=
  opt_k o = [] /\ opt_n o = true /\ opt_M o = false /\ opt_h o = false /\ opt_u o = false /\ opt_r o = false.

Definition integer_item (z : Z) : lineItem :=
  {| original := FormatInt z; keys := [FormatInt z]; numVals := [inject_Z z]; validNum := [true]; humanVals := [no_human ""] |}.

Lemma integer_items ToLower o zs : integer_options o -> Forall (fun z => - 2 ^ 53 < z < 2 ^ 53) zs ->
  mapM (item_of ToLower o) (FormatInt <$> zs) = Some (integer_item <$> zs).
Proof.
  intros (Hk & Hn & HM & Hh & _ & Hr) Hz. induction Hz as [|z zs Hz _ IH]; [done|]. rewrite fmap_cons. cbn [mapM]. rewrite IH.
  assert (item_of ToLower o (FormatInt z) = Some (integer_item z)) as ->; [|done].
  unfold item_of, sort_keys. rewrite Hk, Hn, HM, Hh, Hr. cbn. unfold key_values. cbn. by rewrite parse_integer.
Qed.

Lemma integer_compare o x y : integer_options o -> compare_of o (integer_item x) (integer_item y) <> Gt -> x <= y.
Proof.
  intros (Hk & Hn & HM & Hh & _ & Hr). unfold compare_of, sort_keys. rewrite Hk, Hn, HM, Hh, Hr. cbn. unfold compare_items. cbn.
  unfold compare_key, cmpFloat, inject_Z, Qcompare. cbn. rewrite !Z.mul_1_r. destruct (Z.compare_spec x y); [lia|lia|done].
Qed.

(** [sort -n] prints the integers of its lines, which are below 2^53 in absolute value, in
    ascending order. *)
Theorem sort_n_integers ToLower o zs : integer_options o -> Forall (fun z => - 2 ^ 53 < z < 2 ^ 53) zs ->
  exists sorted, sort_lines ToLower o (FormatInt <$> zs) = Some (FormatInt <$> sorted) /\
    Permutation zs sorted /\ StronglySorted Z.le sorted.
Proof.
  intros Ho Hz. pose proof (integer_items ToLower o zs Ho Hz) as Hi.
  assert (Hm : no_months o).
  { destruct Ho as (Hk & Hn & HM & Hh & _ & Hr). unfold no_months, sort_keys. rewrite Hk, Hn, HM, Hh, Hr. done. }
  destruct (run_sorted ToLower o _ _ Hm Hi) as [(Hp & Hs & _) _].
  destruct (Permutation_map_inv integer_item _ (Permutation_sym Hp)) as (sorted & Hsort & Hps). exists sorted.
  rewrite sort_lines_eq, Hi. destruct Ho as (Hk & Hn & HM & Hh & Hu & Hr). rewrite Hu. simpl.
  change (map integer_item sorted) with (integer_item <$> sorted) in Hsort. rewrite Hsort in *.
  split; [|split; [done|]].
  - f_equal. rewrite <- list_fmap_compose. done.
  - clear -Hs Hk Hn HM Hh Hu Hr. induction sorted as [|z l IH]; [constructor|]. rewrite fmap_cons in Hs. apply StronglySorted_inv in Hs as [Hs Hf].
    constructor; [by apply IH|]. rewrite Forall_fmap in Hf. eapply Forall_impl; [exact Hf|]. intros w Hw.
    eapply (integer_compare o); [|exact Hw]. by repeat split.
Qed.

(** * The command *)

Section Command.
Variable ToLower : string -> string.
Variable open_error : string -> string.

(** What is read of the operands. *)
Fixpoint operand_texts (files : gmap string string) (paths : list string) (stdin : string) : list string :=
  match paths with
  | [] => []
  | path :: paths => let '(text, stdin) := read_operand files path stdin in text :: operand_texts files paths stdin
  end.

Definition all_lines (o : sort_options) (texts : list string) : list string := concat ((fun t => fst (scan_lines (opt_z o) t)) <$> texts).

Lemma mapM_app {A B} (f : A -> option B) l1 l2 : mapM f (l1 ++ l2) = (k1 ← mapM f l1; k2 ← mapM f l2; Some (k1 ++ k2)).
Proof.
  induction l1 as [|x l1 IH]; simpl; [by destruct (mapM f l2)|]. destruct (f x); [|done]. simpl. rewrite IH.
  destruct (mapM f l1); [|done]. simpl. by destruct (mapM f l2).
Qed.

Lemma read_items_lines o files paths : forall stdin specs,
  Forall (fun t => snd (scan_lines (opt_z o) t) = false) (operand_texts files paths stdin) ->
  read_items ToLower specs (opt_t o) (opt_z o) files paths stdin =
  Ok <$> mapM (parse_item ToLower specs (opt_t o)) (all_lines o (operand_texts files paths stdin)).
Proof.
  induction paths as [|path paths IH]; intros stdin specs Hf; [done|]. cbn [read_items operand_texts] in *.
  destruct (read_operand files path stdin) as [text stdin']. apply Forall_cons in Hf as [Ht Hf].
  unfold all_lines. rewrite fmap_cons. cbn [concat]. fold (all_lines o (operand_texts files paths stdin')).
  destruct (scan_lines (opt_z o) text) as [lines e]. cbn [fst snd] in *. subst e. rewrite mapM_app.
  destruct (mapM _ lines) as [items|]; [|done]. simpl. rewrite IH by done. by destruct (mapM _ (all_lines _ _)).
Qed.

(** The command prints the sorted lines of all its operands, with terminators, or writes them to
    the file of -o, which may be one of the operands. *)
Theorem sort_command o positional stdin files sorted :
  let paths := match positional with [] => ["-"] | _ => positional end in
  let texts := operand_texts files paths stdin in
  missing files paths = None -> Forall (fun t => snd (scan_lines (opt_z o) t) = false) texts -> opt_json o = false ->
  sort_lines ToLower o (all_lines o texts) = Some sorted ->
  sortRun ToLower open_error o positional stdin files =
  Some (if opt_o o =s? "" then ({| rc := 0; out := [CText (sort_output (opt_z o) sorted)]; errs := [] |}, files)
        else ({| rc := 0; out := []; errs := [] |}, <[opt_o o := sort_output (opt_z o) sorted]> files)).
Proof.
  intros paths texts Hm Hf Hj Hs. unfold sortRun, sort_lines in *. fold paths. destruct (sort_keys o) as [specs tie].
  rewrite Hm, (read_items_lines o files paths stdin specs Hf), Hj. fold texts.
  destruct (mapM _ (all_lines o texts)) as [items|]; [|done]. simpl in *. rewrite Hs. simpl. by destruct (opt_o o =s? "").
Qed.
End Command.

(** * Concrete runs *)

Definition no_options : sort_options :=
  {| opt_r := false; opt_n := false; opt_u := false; opt_s := false; opt_z := false; opt_h := false; opt_M := false;
     opt_json := false; opt_k := []; opt_t := ""; opt_o := "" |}.

Definition with_n (o : sort_options) : sort_options :=
  {| opt_r := opt_r o; opt_n := true; opt_u := opt_u o; opt_s := opt_s o; opt_z := opt_z o; opt_h := opt_h o; opt_M := opt_M o;
     opt_json := opt_json o; opt_k := opt_k o; opt_t := opt_t o; opt_o := opt_o o |}.
Definition with_s (o : sort_options) : sort_options :=
  {| opt_r := opt_r o; opt_n := opt_n o; opt_u := opt_u o; opt_s := true; opt_z := opt_z o; opt_h := opt_h o; opt_M := opt_M o;
     opt_json := opt_json o; opt_k := opt_k o; opt_t := opt_t o; opt_o := opt_o o |}.
Definition with_M (o : sort_options) : sort_options :=
  {| opt_r := opt_r o; opt_n := opt_n o; opt_u := opt_u o; opt_s := opt_s o; opt_z := opt_z o; opt_h := opt_h o; opt_M := true;
     opt_json := opt_json o; opt_k := opt_k o; opt_t := opt_t o; opt_o := opt_o o |}.
Definition with_k (k : string) (o : sort_options) : sort_options :=
  {| opt_r := opt_r o; opt_n := opt_n o; opt_u := opt_u o; opt_s := opt_s o; opt_z := opt_z o; opt_h := opt_h o; opt_M := opt_M o;
     opt_json := opt_json o; opt_k := opt_k o ++ [k]; opt_t := opt_t o; opt_o := opt_o o |}.
Definition with_o (f : string) (o : sort_options) : sort_options :=
  {| opt_r := opt_r o; opt_n := opt_n o; opt_u := opt_u o; opt_s := opt_s o; opt_z := opt_z o; opt_h := opt_h o; opt_M := opt_M o;
     opt_json := opt_json o; opt_k := opt_k o; opt_t := opt_t o; opt_o := f |}.

(** sort with the lower case of ASCII letters. *)
Definition sorts : sort_options -> list string -> option (list string) := sort_lines id.


Lemma sort_canonical_witness : sorts (with_k "2" no_options) ["a x"; "b x"; "c w"] = sorts (with_k "2" no_options) ["c w"; "b x"; "a x"].
Proof.
  apply sort_canonical; [vm_compute; reflexivity|reflexivity|].
  apply (Permutation_trans (l' := ["a x"; "c w"; "b x"])); [constructor; constructor|].
  apply (Permutation_trans (l' := ["c w"; "a x"; "b x"])); repeat constructor.
Defined.

Lemma sort_u_is_uniq_witness :
  sorts (with_u true (with_n no_options)) ["2"; "1"; "2"; "01"] = Some ["01"; "1"; "2"] /\
  sorts (with_u true (with_n no_options)) ["2"; "1"; "2"; "01"] = uniq_lines id <$> sorts (with_u false (with_n no_options)) ["2"; "1"; "2"; "01"].
Proof. split; [vm_compute; reflexivity|by apply sort_u_is_uniq]. Defined.

Lemma sort_reverse_witness :
  sorts (with_r true no_options) ["b"; "a"; "c"] = Some ["c"; "b"; "a"] /\
  sorts (with_r true no_options) ["b"; "a"; "c"] = (@rev string) <$> sorts (with_r false no_options) ["b"; "a"; "c"].
Proof. split; [vm_compute; reflexivity|by apply sort_reverse]. Defined.

Lemma sort_then_comm_witness : exists sorted1 sorted2,
  sorts no_options ["b"; "a"; "b"] = Some sorted1 /\ sorts no_options ["c"; "b"] = Some sorted2 /\
  StronglySorted sle sorted1 /\ StronglySorted sle sorted2 /\
  let entries := comm_compare false false false sorted1 sorted2 in
  forall x, occ x (texts 1 entries) = (occ x ["b"; "a"; "b"] - occ x ["c"; "b"])%nat /\
    occ x (texts 2 entries) = (occ x ["c"; "b"] - occ x ["b"; "a"; "b"])%nat /\
    occ x (texts 3 entries) = Nat.min (occ x ["b"; "a"; "b"]) (occ x ["c"; "b"]).
Proof. by apply sort_then_comm. Defined.

Lemma sort_n_integers_witness : exists sorted, sorts (with_n no_options) (FormatInt <$> [10; 9; -3; 100]) = Some (FormatInt <$> sorted) /\
  Permutation [10; 9; -3; 100] sorted /\ StronglySorted Z.le sorted.
Proof. apply sort_n_integers; [by repeat split|repeat constructor; lia]. Defined.

Lemma sort_command_witness :
  let files := {["f" := "b" +:+ nl +:+ "a" +:+ nl; "g" := "c"]} in
  sortRun id (fun _ => "") (with_o "f" no_options) ["f"; "g"] "" files =
  Some ({| rc := 0; out := []; errs := [] |}, <["f" := text_of_lines ["a"; "b"; "c"]]> files).
Proof.
  intros files. refine (sort_command id (fun _ => "") (with_o "f" no_options) ["f"; "g"] "" files ["a"; "b"; "c"] _ _ _ _);
    [vm_compute; reflexivity|repeat constructor|reflexivity|vm_compute; reflexivity].
Defined.

(** ** What the code does where sort is expected to do otherwise *)

(** The global -r does not reverse a key that is compared as a number, even if it has no options of
    its own. *)
Example global_reverse_ignored : sorts (with_k "2,2" (with_r true (with_n no_options))) ["a 1"; "b 3"; "c 2"] = Some ["a 1"; "c 2"; "b 3"].
Proof. vm_compute. reflexivity. Qed.

(** The r of a key and the global -r cancel out. *)
Example reverse_twice : sorts (with_k "1r" (with_r true no_options)) ["1"; "3"; "2"] = Some ["1"; "2"; "3"].
Proof. vm_compute. reflexivity. Qed.

(** A flag before the comma of a key is taken for the comma: the flag and the end of the key are
    lost. *)
Example flag_before_comma : sorts (with_k "2n,2" no_options) ["a 10"; "b 9"; "c 2"] = Some ["a 10"; "c 2"; "b 9"].
Proof. vm_compute. reflexivity. Qed.

(** A key without end is its first field, not the rest of the line. *)
Example key_without_end : sorts (with_s (with_k "1" no_options)) ["a z"; "a b"] = Some ["a z"; "a b"].
Proof. vm_compute. reflexivity. Qed.

(** An end character before the start character is a slice out of range. *)
Example key_ends_before_start : sorts (with_k "1.5,1.2" no_options) ["abcdefg"] = None.
Proof. vm_compute. reflexivity. Qed.

(** -u compares the texts of the keys: lines with equal numbers are kept. *)
Example unique_by_text : sorts (with_u true (with_n no_options)) ["1"; "01"; "1.0"] = Some ["01"; "1"; "1.0"].
Proof. vm_compute. reflexivity. Qed.

(** With -M a line that is no month is compared as text with the months, which is no order: the
    output depends on the order of the input. *)
Example months_not_ordered :
  sorts (with_M no_options) ["feb"; "jan"; "g"] = Some ["jan"; "feb"; "g"] /\
  sorts (with_M no_options) ["g"; "feb"; "jan"] = Some ["feb"; "g"; "jan"].
Proof. vm_compute. split; reflexivity. Qed.
