(* ===== verification/Lines.v ===== *)
(** Texts as lines: the laws of splitting at newlines and joining. *)

From S2P Require Import Prelude GoStd Scanner.

Local Open Scope Z_scope.

Lemma str_forall_take P n s : str_forall P s = true -> str_forall P (str_take n s) = true.
Proof.
  revert s. induction n as [|n IH]; intros [|c s]; cbn [str_take str_forall]; try done.
  intros H. apply andb_true_iff in H as [-> H]. cbn [andb]. by apply IH.
Qed.

Lemma str_forall_drop P n s : str_forall P s = true -> str_forall P (str_drop n s) = true.
Proof.
  revert s. induction n as [|n IH]; intros [|c s]; cbn [str_drop str_forall]; try done.
  intros H. apply andb_true_iff in H as [_ H]. by apply IH.
Qed.

Lemma split_nl_no_nl s : Forall (fun l => no_nl l = true) (split_nl s).
Proof.
  unfold no_nl. induction s as [|c s IH]; cbn [split_nl]; [by repeat constructor|]. destruct (code c =? 10) eqn:E; [by constructor|].
  destruct (split_nl s) as [|l ls]; constructor; inversion IH; subst; simpl; rewrite ?E; done.
Qed.

Lemma split_nl_cons s : split_nl s <> [].
Proof. destruct s as [|c s]; cbn [split_nl]; [done|]. destruct (code c =? 10); [done|]. by destruct (split_nl s). Qed.

Lemma split_nl_line l s : no_nl l = true -> split_nl (l +:+ nl +:+ s) = l :: split_nl s.
Proof.
  unfold no_nl. induction l as [|c l IH]; intros H; [done|]. simpl in H. apply andb_true_iff in H as [Hc H]. apply negb_true_iff in Hc.
  rewrite sapp_cons. cbn [split_nl]. rewrite Hc. by rewrite IH.
Qed.

Lemma split_nl_one l : no_nl l = true -> split_nl l = [l].
Proof.
  unfold no_nl. induction l as [|c l IH]; intros H; [done|]. simpl in H. apply andb_true_iff in H as [Hc H]. apply negb_true_iff in Hc.
  cbn [split_nl]. rewrite Hc. by rewrite IH.
Qed.

Lemma split_nl_join ls : ls <> [] -> Forall (fun l => no_nl l = true) ls -> split_nl (join_with nl ls) = ls.
Proof.
  induction ls as [|l ls IH]; [done|]. intros _ H. inversion_clear H as [|? ? Hl Hls]. destruct ls as [|l' ls]; [by apply split_nl_one|].
  change (join_with nl (l :: l' :: ls)) with (l +:+ nl +:+ join_with nl (l' :: ls)).
  rewrite split_nl_line by done. by rewrite IH.
Qed.

Lemma join_snoc ls : ls <> [] -> join_with nl (ls ++ [""]) = join_with nl ls +:+ nl.
Proof.
  induction ls as [|l ls IH]; [done|]. intros _. destruct ls as [|l' ls]; [done|].
  change (join_with nl ((l :: l' :: ls) ++ [""])) with (l +:+ nl +:+ join_with nl ((l' :: ls) ++ [""])).
  rewrite IH by done. change (join_with nl (l :: l' :: ls)) with (l +:+ nl +:+ join_with nl (l' :: ls)). by rewrite !sapp_assoc.
Qed.

Lemma split_nl_snoc s : split_nl (s +:+ nl) = split_nl s ++ [""].
Proof.
  induction s as [|c s IH]; [done|]. rewrite sapp_cons. cbn [split_nl]. rewrite IH. destruct (code c =? 10); [done|].
  pose proof (split_nl_cons s). by destruct (split_nl s).
Qed.

Lemma join_split s : join_with nl (split_nl s) = s.
Proof.
  induction s as [|c s IH]; [done|]. cbn [split_nl]. pose proof (split_nl_cons s) as Hn. destruct (Z.eqb_spec (code c) 10) as [E|E].
  - destruct (split_nl s) as [|l ls]; [done|]. change (join_with nl ("" :: l :: ls)) with (nl +:+ join_with nl (l :: ls)).
    rewrite IH. assert (c = "010"%char) as -> by (rewrite <- (chr_code c), E; reflexivity). done.
  - destruct (split_nl s) as [|l [|l' ls]]; [done| |]; cbn [join_with] in *; rewrite ?sapp_cons; by f_equal.
Qed.

Lemma remove_app c s t : remove_char c (s +:+ t) = remove_char c s +:+ remove_char c t.
Proof. induction s as [|d s IH]; [done|]. rewrite sapp_cons. cbn [remove_char]. destruct (d =c? c); [done|]. by rewrite IH, sapp_cons. Qed.

Lemma remove_join ls : remove_char "010" (join_with nl ls) = sconcat (remove_char "010" <$> ls).
Proof.
  induction ls as [|l [|l' ls] IH]; [done|by simpl; rewrite sapp_nil_r|].
  change (join_with nl (l :: l' :: ls)) with (l +:+ nl +:+ join_with nl (l' :: ls)).
  rewrite !remove_app, IH. done.
Qed.

Lemma sconcat_cons s ls : sconcat (s :: ls) = s +:+ sconcat ls.
Proof. done. Qed.

Lemma remove_sconcat c ls : remove_char c (sconcat ls) = sconcat (remove_char c <$> ls).
Proof. induction ls as [|l ls IH]; [done|]. by rewrite fmap_cons, !sconcat_cons, remove_app, IH. Qed.

Lemma str_take_ge n s : (String.length s <= n)%nat -> str_take n s = s.
Proof.
  revert s. induction n as [|n IH]; intros [|c s] Hn; simpl in Hn; try done; try lia.
  cbn [str_take]. f_equal. apply IH. lia.
Qed.

Lemma str_drop_ge n s : (String.length s <= n)%nat -> str_drop n s = "".
Proof. revert s. induction n as [|n IH]; intros [|c s] Hn; simpl in Hn; try done; try lia. apply IH. lia. Qed.

Lemma str_drop_take m n s : str_drop m (str_take n s) = str_take (n - m) (str_drop m s).
Proof.
  revert n s. induction m as [|m IH]; intros n s; [cbn [str_drop]; by rewrite Nat.sub_0_r|].
  destruct n as [|n], s as [|c s]; cbn [str_take str_drop Nat.sub]; try done; try apply IH. all: by destruct (n - m)%nat.
Qed.

Lemma str_drop_drop m n s : str_drop m (str_drop n s) = str_drop (n + m) s.
Proof.
  revert s. induction n as [|n IH]; intros s; [done|]. destruct s as [|c s]; cbn [str_drop Nat.add]; [by destruct m|apply IH].
Qed.
