(* ===== verification/Utf8Laws.v ===== *)
(** Laws of UTF-8: decoding depends on the bytes from 0x80 on that follow, and undoes encoding. *)

From S2P Require Import Prelude GoStd Scanner Lines Utf8.

Local Open Scope Z_scope.

(** * The bytes that a rune depends on *)

Definition high (c : ascii) : bool := negb (code c <? 0x80).

(** The bytes from 0x80 on at the start of a string. *)
Definition high_span (s : string) : string := fst (str_span high s).

Lemma high_span_cons c s : high_span (String c s) = if high c then String c (high_span s) else "".
Proof. unfold high_span. cbn [str_span]. destruct (high c); [|done]. by destruct (str_span high s). Qed.

Lemma high_span_low c s : high c = false -> high_span (String c s) = "".
Proof. intros Hc. by rewrite high_span_cons, Hc. Qed.

(** The first bytes of a string as far as they continue a rune. *)
Lemma cont_high lo hi c : 0x80 <= lo -> is_cont lo hi c = true -> high c = true.
Proof. unfold is_cont, high. intros Hl Hc. apply andb_true_iff in Hc as [Hc _]. apply Z.leb_le in Hc. apply negb_true_iff, Z.ltb_ge. lia. Qed.

Lemma first_byte_low c n lo hi : first_byte (code c) = Some (n, lo, hi) -> 0x80 <= lo.
Proof. unfold first_byte. intros E. repeat case_match; simplify_eq; lia. Qed.

Lemma cont_low lo hi c : 0x80 <= lo -> high c = false -> is_cont lo hi c = false.
Proof. intros Hl Hc. destruct (is_cont lo hi c) eqn:E; [|done]. by rewrite (cont_high lo hi c Hl E) in Hc. Qed.

(** No byte that continues a rune comes next. *)
Definition stops (s : string) : Prop := s = "" \/ exists c t, s = String c t /\ high c = false.

Lemma high_span_cases s t : high_span s = high_span t ->
  (exists c s' t', s = String c s' /\ t = String c t' /\ high_span s' = high_span t') \/ (stops s /\ stops t).
Proof.
  intros E. destruct s as [|c s], t as [|d t]; rewrite ?high_span_cons in E.
  - right. by split; left.
  - destruct (high d) eqn:Hd; [done|]. right. split; [by left|right; eauto].
  - destruct (high c) eqn:Hc; [done|]. right. split; [right; eauto|by left].
  - destruct (high c) eqn:Hc, (high d) eqn:Hd; [|done|done|right; split; right; eauto].
    injection E as <- E. left. eauto 10.
Qed.

Lemma stops_cont lo hi c s : 0x80 <= lo -> stops (String c s) -> is_cont lo hi c = false.
Proof. intros Hl [|(d & t & [= -> ->] & Hd)]; [done|]. by apply cont_low. Qed.

Ltac stop_facts :=
  repeat match goal with
  | H : stops (String ?c ?s), Hl : 0x80 <= ?lo |- context [is_cont ?lo ?hi ?c] => rewrite (stops_cont lo hi c s Hl H)
  end.

Lemma DecodeRune_high c s t : high_span s = high_span t -> DecodeRune (String c s) = DecodeRune (String c t).
Proof.
  intros Hst. unfold DecodeRune. destruct (code c <? 0x80); [done|]. destruct (first_byte (code c)) as [[[n lo] hi]|] eqn:Ef; [|done].
  pose proof (first_byte_low c n lo hi Ef) as Hlo. clear Ef. assert (H80 : 0x80 <= 0x80) by lia.
  destruct (high_span_cases s t Hst) as [(c1 & s1 & t1 & -> & -> & H1)|[Hs Ht]].
  - destruct (high_span_cases s1 t1 H1) as [(c2 & s2 & t2 & -> & -> & H2)|[Hs Ht]].
    + destruct (high_span_cases s2 t2 H2) as [(c3 & s3 & t3 & -> & -> & H3)|[Hs Ht]].
      * by destruct n as [|[|[|[|[]]]]].
      * destruct n as [|[|[|[|[]]]]]; try done. destruct s2, t2; stop_facts; rewrite ?andb_false_r; done.
    + destruct n as [|[|[|[|[]]]]]; try done.
      * destruct s1, t1; stop_facts; rewrite ?andb_false_r; done.
      * destruct s1 as [|? [|? ?]], t1 as [|? [|? ?]]; stop_facts; rewrite ?andb_false_r; done.
  - destruct n as [|[|[|[|[]]]]]; try done.
    + destruct s, t; stop_facts; done.
    + destruct s as [|? [|? ?]], t as [|? [|? ?]]; stop_facts; done.
    + destruct s as [|? [|? [|? ?]]], t as [|? [|? [|? ?]]]; stop_facts; done.
Qed.

(** * Encoding and decoding *)

(** The code points that have an encoding. *)
Definition valid_rune (r : Z) : bool := (0 <=? r) && (r <=? 0x10FFFF) && negb ((0xD800 <=? r) && (r <=? 0xDFFF)).

Lemma low6_chr x : 0 <= x < 64 -> low6 (chr (0x80 + x)) = x.
Proof.
  intros Hx. unfold low6. rewrite code_chr by lia. change 0x3F with (Z.ones 6). rewrite Z.land_ones by lia.
  change (2 ^ 6) with 64. replace (0x80 + x) with (x + 2 * 64) by lia. rewrite Z.mod_add by lia. apply Z.mod_small. lia.
Qed.

Lemma cont_chr lo hi x : lo <= 0x80 + x <= hi -> 0 <= x < 64 -> is_cont lo hi (chr (0x80 + x)) = true.
Proof. intros H Hx. unfold is_cont. rewrite code_chr by lia. apply andb_true_iff. split; apply Z.leb_le; lia. Qed.

Lemma lead_bits b x n : 0 <= n -> 0 <= x < 2 ^ n -> b mod 2 ^ n = 0 -> 0 <= b + x < 256 -> Z.land (code (chr (b + x))) (Z.ones n) = x.
Proof.
  intros Hn Hx Hb Hr. rewrite code_chr, Z.land_ones by lia. rewrite Z.add_mod, Hb, Z.add_0_l, Z.mod_mod by lia. apply Z.mod_small. lia.
Qed.

(** A character of two, three and four bytes. *)
Lemma decode2 x y s : 2 <= x < 32 -> 0 <= y < 64 ->
  DecodeRune (String (chr (0xC0 + x)) (String (chr (0x80 + y)) s)) = (x * 64 + y, 2%nat).
Proof.
  intros Hx Hy. unfold DecodeRune. rewrite code_chr by lia. rewrite (proj2 (Z.ltb_ge (0xC0 + x) 0x80)) by lia.
  unfold first_byte. rewrite (proj2 (Z.leb_le 0xC2 (0xC0 + x))), (proj2 (Z.leb_le (0xC0 + x) 0xDF)) by lia. cbn [andb].
  rewrite cont_chr, low6_chr by lia. pose proof (lead_bits 0xC0 x 5 ltac:(lia) ltac:(lia) eq_refl ltac:(lia)) as H.
  rewrite code_chr in H by lia. change (Z.ones 5) with 0x1F in H. by rewrite H.
Qed.

Lemma decode3 x y z s : 0 <= x < 16 -> 0 <= y < 64 -> 0 <= z < 64 -> (x = 0 -> 32 <= y) -> (x = 13 -> y < 32) ->
  DecodeRune (String (chr (0xE0 + x)) (String (chr (0x80 + y)) (String (chr (0x80 + z)) s))) = (x * 4096 + y * 64 + z, 3%nat).
Proof.
  intros Hx Hy Hz H0 H13. unfold DecodeRune. rewrite (code_chr (0xE0 + x)) by lia. rewrite (proj2 (Z.ltb_ge (0xE0 + x) 0x80)) by lia.
  assert (Hf : exists lo hi, first_byte (0xE0 + x) = Some (3%nat, lo, hi) /\ lo <= 0x80 + y <= hi).
  { unfold first_byte. rewrite (proj2 (Z.leb_gt (0xE0 + x) 0xDF)), andb_false_r by lia.
    destruct (Z.eqb_spec (0xE0 + x) 0xE0); [eexists _, _; split; [done|lia]|].
    destruct (Z.eqb_spec (0xE0 + x) 0xED); [eexists _, _; split; [done|lia]|].
    rewrite (proj2 (Z.leb_le 0xE1 (0xE0 + x))), (proj2 (Z.leb_le (0xE0 + x) 0xEF)) by lia. eexists _, _; split; [done|lia]. }
  destruct Hf as (lo & hi & -> & Hy'). rewrite !cont_chr, !low6_chr by lia. cbn [andb].
  pose proof (lead_bits 0xE0 x 4 ltac:(lia) ltac:(lia) eq_refl ltac:(lia)) as H.
  rewrite code_chr in H by lia. change (Z.ones 4) with 0x0F in H. by rewrite H.
Qed.

Lemma decode4 x y z w s : 0 <= x <= 4 -> 0 <= y < 64 -> 0 <= z < 64 -> 0 <= w < 64 -> (x = 0 -> 16 <= y) -> (x = 4 -> y < 16) ->
  DecodeRune (String (chr (0xF0 + x)) (String (chr (0x80 + y)) (String (chr (0x80 + z)) (String (chr (0x80 + w)) s)))) =
  (x * 262144 + y * 4096 + z * 64 + w, 4%nat).
Proof.
  intros Hx Hy Hz Hw H0 H4. unfold DecodeRune. rewrite (code_chr (0xF0 + x)) by lia. rewrite (proj2 (Z.ltb_ge (0xF0 + x) 0x80)) by lia.
  assert (Hf : exists lo hi, first_byte (0xF0 + x) = Some (4%nat, lo, hi) /\ lo <= 0x80 + y <= hi).
  { unfold first_byte. rewrite (proj2 (Z.leb_gt (0xF0 + x) 0xDF)), (proj2 (Z.leb_gt (0xF0 + x) 0xEF)), !andb_false_r by lia.
    rewrite (proj2 (Z.eqb_neq (0xF0 + x) 0xE0)), (proj2 (Z.eqb_neq (0xF0 + x) 0xED)) by lia.
    destruct (Z.eqb_spec (0xF0 + x) 0xF0); [eexists _, _; split; [done|lia]|].
    destruct (Z.eqb_spec (0xF0 + x) 0xF4); [eexists _, _; split; [done|lia]|].
    rewrite (proj2 (Z.leb_le 0xF1 (0xF0 + x))), (proj2 (Z.leb_le (0xF0 + x) 0xF3)) by lia. eexists _, _; split; [done|lia]. }
  destruct Hf as (lo & hi & -> & Hy'). rewrite !cont_chr, !low6_chr by lia. cbn [andb].
  pose proof (lead_bits 0xF0 x 3 ltac:(lia) ltac:(lia) eq_refl ltac:(lia)) as H.
  rewrite code_chr in H by lia. change (Z.ones 3) with 0x07 in H. by rewrite H.
Qed.

Lemma DecodeRune_encode r s : valid_rune r = true -> DecodeRune (EncodeRune r +:+ s) = (r, String.length (EncodeRune r)).
Proof.
  unfold valid_rune, EncodeRune. intros Hr. apply andb_true_iff in Hr as [Hr Hsur]. apply andb_true_iff in Hr as [H0 Hmax].
  apply Z.leb_le in H0, Hmax. apply negb_true_iff in Hsur. rewrite Hsur.
  rewrite (proj2 (Z.ltb_ge r 0)), (proj2 (Z.ltb_ge 0x10FFFF r)) by lia. cbn [orb].
  assert (Hs : r < 0xD800 \/ 0xDFFF < r).
  { apply andb_false_iff in Hsur as [Hsur|Hsur]; apply Z.leb_gt in Hsur; lia. }
  destruct (Z.ltb_spec r 0x80) as [H1|H1]; [|destruct (Z.ltb_spec r 0x800) as [H2|H2]; [|destruct (Z.ltb_spec r 0x10000) as [H3|H3]]].
  - rewrite sapp_cons. rewrite DecodeRune_ascii; unfold ascii_char; rewrite code_chr by lia; [done|]. by apply Z.ltb_lt.
  - rewrite !sapp_cons. rewrite decode2; [f_equal; Z.to_euclidean_division_equations; lia|..]; Z.to_euclidean_division_equations; lia.
  - rewrite !sapp_cons. rewrite decode3; [f_equal|..]; Z.to_euclidean_division_equations; lia.
  - rewrite !sapp_cons. rewrite decode4; [f_equal|..]; Z.to_euclidean_division_equations; lia.
Qed.

Lemma EncodeRune_length r : (1 <= String.length (EncodeRune r))%nat.
Proof. unfold EncodeRune. repeat case_match; simpl; lia. Qed.

(** * The runes of a string *)

Lemma range_from_shift fuel1 : forall fuel2 i j s, (String.length s <= fuel1)%nat -> (String.length s <= fuel2)%nat ->
  snd <$> range_from fuel1 i s = snd <$> range_from fuel2 j s.
Proof.
  induction fuel1 as [|fuel1 IH]; intros [|fuel2] i j [|c s] H1 H2; simpl in H1, H2; try lia; try done.
  cbn [range_from]. pose proof (DecodeRune_width c s) as Hw. destruct (DecodeRune (String c s)) as [r n]. cbn [snd] in Hw.
  rewrite !fmap_cons. f_equal. apply IH; rewrite slength_drop; simpl in *; lia.
Qed.

Lemma runes_step c s : runes (String c s) =
  fst (DecodeRune (String c s)) :: runes (str_drop (snd (DecodeRune (String c s))) (String c s)).
Proof.
  unfold runes, range. cbn [String.length range_from]. pose proof (DecodeRune_width c s) as Hw.
  destruct (DecodeRune (String c s)) as [r n]. cbn [fst snd] in *. rewrite fmap_cons. f_equal.
  apply range_from_shift; rewrite slength_drop; simpl in *; lia.
Qed.

(** Induction over the runes of a string. *)
Lemma rune_ind (P : string -> Prop) : P "" ->
  (forall c s r n, DecodeRune (String c s) = (r, n) -> P (str_drop n (String c s)) -> P (String c s)) -> forall s, P s.
Proof.
  intros H0 H1 s. remember (String.length s) as k eqn:Hk. revert s Hk. induction k as [k IH] using lt_wf_ind. intros [|c s] Hk; [done|].
  pose proof (DecodeRune_width c s) as Hw. destruct (DecodeRune (String c s)) as [r n] eqn:E. cbn [snd] in Hw.
  apply (H1 c s r n E). eapply IH; [|done]. rewrite slength_drop. simpl in *. lia.
Qed.

Lemma runes_encode r s : valid_rune r = true -> runes (EncodeRune r +:+ s) = r :: runes s.
Proof.
  intros Hr. pose proof (DecodeRune_encode r s Hr) as Hd. pose proof (EncodeRune_length r) as Hl.
  destruct (EncodeRune r) as [|c t] eqn:E; [simpl in Hl; lia|]. rewrite sapp_cons in *. rewrite runes_step, Hd. cbn [fst snd].
  f_equal. f_equal. rewrite <- sapp_cons. apply str_drop_exact.
Qed.

Lemma string_of_runes_cons r rs : string_of_runes (r :: rs) = EncodeRune r +:+ string_of_runes rs.
Proof. done. Qed.

Lemma runes_string_of_runes rs : Forall (fun r => valid_rune r = true) rs -> runes (string_of_runes rs) = rs.
Proof.
  induction 1 as [|r rs Hr _ IH]; [done|]. rewrite string_of_runes_cons, runes_encode by done. by rewrite IH.
Qed.

Lemma cont_range lo hi c : is_cont lo hi c = true -> lo <= code c <= hi.
Proof. unfold is_cont. intros H. apply andb_true_iff in H as [H1 H2]. by apply Z.leb_le in H1, H2. Qed.

Lemma low6_range c : 0 <= low6 c < 64.
Proof. unfold low6. change 0x3F with (Z.ones 6). rewrite Z.land_ones by lia. apply Z.mod_pos_bound. lia. Qed.

Lemma low6_cont c : 0x80 <= code c <= 0xBF -> code c = 0x80 + low6 c.
Proof.
  intros Hc. unfold low6. change 0x3F with (Z.ones 6). rewrite Z.land_ones by lia. change (2 ^ 6) with 64. Z.to_euclidean_division_equations. lia.
Qed.

Lemma encode2 x y : 2 <= x < 32 -> 0 <= y < 64 ->
  EncodeRune (x * 64 + y) = String (chr (0xC0 + x)) (String (chr (0x80 + y)) "") /\ valid_rune (x * 64 + y) = true.
Proof.
  intros Hx Hy. assert (Hd : (x * 64 + y) / 64 = x /\ (x * 64 + y) mod 64 = y) by (Z.to_euclidean_division_equations; lia).
  destruct Hd as [Hd Hm]. unfold EncodeRune, valid_rune.
  rewrite (proj2 (Z.ltb_ge (x * 64 + y) 0)), (proj2 (Z.ltb_ge 0x10FFFF (x * 64 + y))), (proj2 (Z.leb_gt 0xD800 (x * 64 + y))) by lia.
  cbn [orb andb]. rewrite (proj2 (Z.ltb_ge (x * 64 + y) 0x80)), (proj2 (Z.ltb_lt (x * 64 + y) 0x800)) by lia. rewrite Hd, Hm.
  split; [done|]. rewrite (proj2 (Z.leb_le 0 (x * 64 + y))), (proj2 (Z.leb_le (x * 64 + y) 0x10FFFF)) by lia. done.
Qed.

Lemma encode3 x y z : 0 <= x < 16 -> 0 <= y < 64 -> 0 <= z < 64 -> (x = 0 -> 32 <= y) -> (x = 13 -> y < 32) ->
  EncodeRune (x * 4096 + y * 64 + z) = String (chr (0xE0 + x)) (String (chr (0x80 + y)) (String (chr (0x80 + z)) "")) /\
  valid_rune (x * 4096 + y * 64 + z) = true.
Proof.
  intros Hx Hy Hz H0 H13. set (r := x * 4096 + y * 64 + z).
  assert (Hd : r / 4096 = x /\ r / 64 mod 64 = y /\ r mod 64 = z) by (unfold r; Z.to_euclidean_division_equations; lia).
  destruct Hd as (Hd1 & Hd2 & Hd3). assert (Hr : 0x800 <= r < 0x10000 /\ (r < 0xD800 \/ 0xDFFF < r)) by (unfold r; lia). clearbody r.
  unfold EncodeRune, valid_rune. rewrite (proj2 (Z.ltb_ge r 0)), (proj2 (Z.ltb_ge 0x10FFFF r)) by lia. cbn [orb].
  assert ((0xD800 <=? r) && (r <=? 0xDFFF) = false) as ->.
  { apply andb_false_iff. destruct Hr as [_ [Hr|Hr]]; [left|right]; apply Z.leb_gt; lia. }
  rewrite (proj2 (Z.ltb_ge r 0x80)), (proj2 (Z.ltb_ge r 0x800)), (proj2 (Z.ltb_lt r 0x10000)) by lia. rewrite Hd1, Hd2, Hd3.
  split; [done|]. rewrite (proj2 (Z.leb_le 0 r)), (proj2 (Z.leb_le r 0x10FFFF)) by lia. done.
Qed.

Lemma encode4 x y z w : 0 <= x <= 4 -> 0 <= y < 64 -> 0 <= z < 64 -> 0 <= w < 64 -> (x = 0 -> 16 <= y) -> (x = 4 -> y < 16) ->
  EncodeRune (x * 262144 + y * 4096 + z * 64 + w) =
    String (chr (0xF0 + x)) (String (chr (0x80 + y)) (String (chr (0x80 + z)) (String (chr (0x80 + w)) ""))) /\
  valid_rune (x * 262144 + y * 4096 + z * 64 + w) = true.
Proof.
  intros Hx Hy Hz Hw H0 H4. set (r := x * 262144 + y * 4096 + z * 64 + w).
  assert (Hd : r / 262144 = x /\ r / 4096 mod 64 = y /\ r / 64 mod 64 = z /\ r mod 64 = w)
    by (unfold r; Z.to_euclidean_division_equations; lia).
  destruct Hd as (Hd1 & Hd2 & Hd3 & Hd4). assert (Hr : 0x10000 <= r <= 0x10FFFF) by (unfold r; lia). clearbody r.
  unfold EncodeRune, valid_rune. rewrite (proj2 (Z.ltb_ge r 0)), (proj2 (Z.ltb_ge 0x10FFFF r)) by lia. cbn [orb].
  rewrite (proj2 (Z.leb_gt r 0xDFFF)), andb_false_r by lia.
  rewrite (proj2 (Z.ltb_ge r 0x80)), (proj2 (Z.ltb_ge r 0x800)), (proj2 (Z.ltb_ge r 0x10000)) by lia. rewrite Hd1, Hd2, Hd3, Hd4.
  split; [done|]. rewrite (proj2 (Z.leb_le 0 r)), (proj2 (Z.leb_le r 0x10FFFF)) by lia. done.
Qed.

Lemma code_eq c z : code c = z -> c = chr z.
Proof. intros <-. by rewrite chr_code. Qed.

Lemma land_mod b n : 0 <= n -> Z.land b (Z.ones n) = b mod 2 ^ n.
Proof. intros Hn. by apply Z.land_ones. Qed.

(** What the ranges of the second byte are for. *)
Lemma first_byte_cases b n lo hi : first_byte b = Some (n, lo, hi) ->
  (n = 2%nat /\ 0xC2 <= b <= 0xDF /\ lo = 0x80 /\ hi = 0xBF) \/
  (n = 3%nat /\ 0xE0 <= b <= 0xEF /\ 0x80 <= lo /\ hi <= 0xBF /\ (b = 0xE0 -> lo = 0xA0) /\ (b = 0xED -> hi = 0x9F)) \/
  (n = 4%nat /\ 0xF0 <= b <= 0xF4 /\ 0x80 <= lo /\ hi <= 0xBF /\ (b = 0xF0 -> lo = 0x90) /\ (b = 0xF4 -> hi = 0x8F)).
Proof.
  unfold first_byte. intros E.
  repeat match type of E with
  | (if ?c then _ else _) = _ => destruct c eqn:?
  end; try done; injection E as <- <- <-;
  repeat match goal with
  | H : (_ && _) = true |- _ => apply andb_true_iff in H as [? ?]
  | H : (_ <=? _) = true |- _ => apply Z.leb_le in H
  | H : (_ =? _) = true |- _ => apply Z.eqb_eq in H
  | H : (_ =? _) = false |- _ => apply Z.eqb_neq in H
  end; first [left; repeat split; lia|right; left; repeat split; lia|right; right; repeat split; lia].
Qed.

(** What decoding finds: an error, or the encoding of a code point. *)
Lemma DecodeRune_cases c s : DecodeRune (String c s) = (RuneError, 1%nat) \/
  (let '(r, n) := DecodeRune (String c s) in valid_rune r = true /\ str_take n (String c s) = EncodeRune r).
Proof.
  unfold DecodeRune. pose proof (code_bound c) as Hc. destruct (Z.ltb_spec (code c) 0x80) as [H|H].
  { right. unfold EncodeRune, valid_rune. rewrite (proj2 (Z.ltb_ge (code c) 0)), (proj2 (Z.ltb_ge 0x10FFFF (code c))), (proj2 (Z.leb_gt 0xD800 (code c))) by lia.
    cbn [orb andb]. rewrite (proj2 (Z.ltb_lt (code c) 0x80)), (proj2 (Z.leb_le 0 (code c))), (proj2 (Z.leb_le (code c) 0x10FFFF)) by lia.
    split; [done|]. by rewrite chr_code. }
  destruct (first_byte (code c)) as [[[n lo] hi]|] eqn:Ef; [|by left].
  destruct (first_byte_cases _ _ _ _ Ef) as [(-> & Hb & -> & ->)|[(-> & Hb & Hlo & Hhi & H1 & H2)|(-> & Hb & Hlo & Hhi & H1 & H2)]]; clear Ef.
  - destruct s as [|c1 s]; [by left|]. destruct (is_cont 0x80 0xBF c1) eqn:E1; [|by left]. right. apply cont_range in E1.
    pose proof (low6_cont c1 ltac:(lia)) as Ec1. pose proof (low6_range c1). change 0x1F with (Z.ones 5). rewrite land_mod by lia.
    set (x := code c mod 2 ^ 5). assert (Hx : code c = 0xC0 + x /\ 2 <= x < 32) by (unfold x; change (2 ^ 5) with 32; Z.to_euclidean_division_equations; lia).
    destruct (encode2 x (low6 c1) ltac:(lia) ltac:(lia)) as [He Hv]. split; [done|]. rewrite He. destruct Hx as [Hx _].
    apply code_eq in Hx, Ec1. simpl. by rewrite <- Hx, <- Ec1.
  - destruct s as [|c1 [|c2 s]]; [by left|by left|]. destruct (is_cont lo hi c1) eqn:E1; [|by left]. destruct (is_cont 0x80 0xBF c2) eqn:E2; [|by left].
    right. cbn [andb]. apply cont_range in E1, E2. pose proof (low6_cont c1 ltac:(lia)) as Ec1. pose proof (low6_cont c2 ltac:(lia)) as Ec2.
    pose proof (low6_range c1). pose proof (low6_range c2). change 0x0F with (Z.ones 4). rewrite land_mod by lia.
    set (x := code c mod 2 ^ 4). assert (Hx : code c = 0xE0 + x /\ 0 <= x < 16) by (unfold x; change (2 ^ 4) with 16; Z.to_euclidean_division_equations; lia).
    destruct (encode3 x (low6 c1) (low6 c2)) as [He Hv]; try lia. split; [done|]. rewrite He. destruct Hx as [Hx _].
    apply code_eq in Hx, Ec1, Ec2. simpl. by rewrite <- Hx, <- Ec1, <- Ec2.
  - destruct s as [|c1 [|c2 [|c3 s]]]; [by left|by left|by left|]. destruct (is_cont lo hi c1) eqn:E1; [|by left].
    destruct (is_cont 0x80 0xBF c2) eqn:E2; [|by left]. destruct (is_cont 0x80 0xBF c3) eqn:E3; [|by left]. right. cbn [andb].
    apply cont_range in E1, E2, E3. pose proof (low6_cont c1 ltac:(lia)) as Ec1. pose proof (low6_cont c2 ltac:(lia)) as Ec2. pose proof (low6_cont c3 ltac:(lia)) as Ec3.
    pose proof (low6_range c1). pose proof (low6_range c2). pose proof (low6_range c3). change 0x07 with (Z.ones 3). rewrite land_mod by lia.
    set (x := code c mod 2 ^ 3). assert (Hx : code c = 0xF0 + x /\ 0 <= x <= 4) by (unfold x; change (2 ^ 3) with 8; Z.to_euclidean_division_equations; lia).
    destruct (encode4 x (low6 c1) (low6 c2) (low6 c3)) as [He Hv]; try lia. split; [done|]. rewrite He. destruct Hx as [Hx _].
    apply code_eq in Hx, Ec1, Ec2, Ec3. simpl. by rewrite <- Hx, <- Ec1, <- Ec2, <- Ec3.
Qed.

Lemma runes_valid s : Forall (fun r => valid_rune r = true) (runes s).
Proof.
  induction s as [|c s r n E IH] using rune_ind; [constructor|]. rewrite runes_step, E. cbn [fst snd]. constructor; [|done].
  pose proof (DecodeRune_cases c s) as [H|H]; rewrite E in H; [by injection H as -> _|by destruct H].
Qed.

(** A string without bytes that start no rune. *)
Fixpoint well_formed (fuel : nat) (s : string) : bool :=
  match fuel, s with
  | S fuel, String _ _ =>
      let '(r, n) := DecodeRune s in negb ((r =? RuneError) && (n =? 1)%nat) && well_formed fuel (str_drop n s)
  | _, _ => true
  end.

Definition utf8_text (s : string) : bool := well_formed (String.length s) s.

Lemma well_formed_runes fuel : forall s, (String.length s <= fuel)%nat -> well_formed fuel s = true -> string_of_runes (runes s) = s.
Proof.
  induction fuel as [|fuel IH]; intros [|c s] Hf Hw; [done|simpl in Hf; lia|done|]. cbn [well_formed] in Hw.
  pose proof (DecodeRune_width c s) as Hwd. rewrite runes_step. pose proof (DecodeRune_cases c s) as Hc.
  destruct (DecodeRune (String c s)) as [r n]. cbn [fst snd] in *. apply andb_true_iff in Hw as [Hn Hw].
  destruct Hc as [[= -> ->] | [_ Ht]]; [done|]. rewrite string_of_runes_cons, <- Ht, IH; [apply str_take_drop| |done].
  rewrite slength_drop. simpl in *. lia.
Qed.

Lemma utf8_runes s : utf8_text s = true -> string_of_runes (runes s) = s.
Proof. by apply well_formed_runes. Qed.

(** ** Runes before changed text *)

Lemma high_span_app t x : str_forall high t = true -> high_span (t +:+ x) = t +:+ high_span x.
Proof.
  induction t as [|c t IH]; [done|]. simpl. intros Ht. apply andb_true_iff in Ht as [Hc Ht].
  rewrite sapp_cons, high_span_cons, Hc, sapp_cons. by rewrite IH.
Qed.

(** The bytes of a rune that is no ASCII character. *)
Lemma DecodeRune_bytes c s : high c = true -> str_forall high (str_take (snd (DecodeRune (String c s))) (String c s)) = true.
Proof.
  intros Hc. unfold DecodeRune. assert (code c <? 0x80 = false) as -> by (unfold high in Hc; by apply negb_true_iff in Hc).
  assert (H1 : forall s, str_forall high (str_take 1 (String c s)) = true) by (intros; simpl; by rewrite Hc).
  destruct (first_byte (code c)) as [[[n lo] hi]|] eqn:Ef; [|apply H1]. pose proof (first_byte_low c n lo hi Ef) as Hlo. clear Ef.
  destruct n as [|[|[|[|[|n]]]]]; try apply H1; destruct s as [|c1 s]; try apply H1.
  - destruct (is_cont lo hi c1) eqn:E1; [|apply H1]. simpl. by rewrite Hc, (cont_high _ _ _ Hlo E1).
  - destruct s as [|c2 s]; [apply H1|]. destruct (is_cont lo hi c1) eqn:E1, (is_cont 0x80 0xBF c2) eqn:E2; try apply H1.
    simpl. by rewrite Hc, (cont_high _ _ _ Hlo E1), (cont_high 0x80 0xBF c2).
  - destruct s as [|c2 [|c3 s]]; [apply H1|apply H1|].
    destruct (is_cont lo hi c1) eqn:E1, (is_cont 0x80 0xBF c2) eqn:E2, (is_cont 0x80 0xBF c3) eqn:E3; try apply H1.
    simpl. by rewrite Hc, (cont_high _ _ _ Hlo E1), (cont_high 0x80 0xBF c2), (cont_high 0x80 0xBF c3).
Qed.

Lemma DecodeRune_low c s : high c = false -> DecodeRune (String c s) = (code c, 1%nat).
Proof. unfold high. intros Hc. apply negb_false_iff in Hc. by apply DecodeRune_ascii. Qed.

(** A rune decodes alike before texts with the same bytes from 0x80 on. *)
Lemma decode_before c s x : let '(r, n) := DecodeRune (String c s) in
  high_span x = high_span (str_drop n (String c s)) ->
  DecodeRune (str_take n (String c s) +:+ x) = (r, n) /\
  exists t, str_take n (String c s) = String c t /\
    high_span (str_take n (String c s) +:+ x) = high_span (String c s).
Proof.
  pose proof (DecodeRune_width c s) as Hwd. destruct (high c) eqn:Hc.
  - pose proof (DecodeRune_bytes c s Hc) as Hb. destruct (DecodeRune (String c s)) as [r n] eqn:E. cbn [snd] in *.
    intros Hx. assert (Hs : high_span (str_take n (String c s) +:+ x) = high_span (String c s)).
    { rewrite high_span_app, Hx by done. rewrite <- high_span_app by done. by rewrite str_take_drop. }
    destruct n as [|n]; [lia|]. cbn [str_take] in *. split; [|by exists (str_take n s)]. rewrite <- E. rewrite sapp_cons in *.
    apply DecodeRune_high. rewrite !high_span_cons, Hc in Hs. by injection Hs.
  - rewrite DecodeRune_low by done. intros _. cbn [str_take str_drop]. rewrite sapp_cons, sapp_nil_l, DecodeRune_low by done.
    split; [done|]. exists "". split; [done|]. by rewrite !high_span_low.
Qed.

Lemma take_app_take n s x : (n <= String.length s)%nat ->
  str_take n (str_take n s +:+ x) = str_take n s /\ str_drop n (str_take n s +:+ x) = x.
Proof.
  revert s. induction n as [|n IH]; intros [|c s] Hn; simpl in Hn; try lia; try done.
  cbn [str_take]. rewrite sapp_cons. cbn [str_take str_drop]. destruct (IH s ltac:(lia)) as [-> ->]. done.
Qed.

(** A decoded newline is that byte. *)
Lemma decoded_nl c s n : DecodeRune (String c s) = (10, n) -> code c = 10.
Proof.
  intros E. destruct (high c) eqn:Hc; [|rewrite DecodeRune_low in E by done; by injection E as ->].
  exfalso. pose proof (DecodeRune_cases c s) as [Hd|Hd]; rewrite E in Hd; [done|].
  destruct Hd as [_ Ht]. pose proof (DecodeRune_bytes c s Hc) as Hh. rewrite E in Hh. cbn [snd] in Hh. by rewrite Ht in Hh.
Qed.

Lemma runes_no_nl s : no_nl s = true -> Forall (fun r => r <> 10) (runes s).
Proof.
  induction s as [|c s r n E IH] using rune_ind; intros H; [constructor|]. rewrite runes_step, E. cbn [fst snd]. constructor.
  - intros ->. apply decoded_nl in E. unfold no_nl in H. cbn [str_forall] in H. by rewrite E in H.
  - apply IH. by apply str_forall_drop.
Qed.

(** Other runes are written without newlines. *)
Lemma EncodeRune_no_nl r : valid_rune r = true -> r <> 10 -> no_nl (EncodeRune r) = true.
Proof.
  intros Hv Hr. pose proof (DecodeRune_encode r "" Hv) as E. rewrite sapp_nil_r in E.
  destruct (EncodeRune r) as [|c s] eqn:Es; [done|]. destruct (high c) eqn:Hc.
  - pose proof (DecodeRune_bytes c s Hc) as Hh. rewrite E in Hh. cbn [snd] in Hh. rewrite str_take_length in Hh.
    unfold no_nl. eapply str_forall_impl; [|exact Hh]. intros d Hd. unfold high in Hd.
    destruct (Z.eqb_spec (code d) 10) as [Ed|]; [by rewrite Ed in Hd|done].
  - rewrite DecodeRune_low in E by done. injection E as <- Hl. unfold no_nl. destruct s; [|done]. simpl.
    destruct (Z.eqb_spec (code c) 10); done.
Qed.

Lemma string_of_runes_no_nl rs : Forall (fun r => valid_rune r = true /\ r <> 10) rs -> no_nl (string_of_runes rs) = true.
Proof.
  induction 1 as [|r rs [Hv Hr] _ IH]; [done|]. rewrite string_of_runes_cons. unfold no_nl. rewrite str_forall_app.
  by rewrite (EncodeRune_no_nl r Hv Hr : str_forall _ _ = true).
Qed.

Lemma string_of_runes_app rs rs' : string_of_runes (rs ++ rs') = string_of_runes rs +:+ string_of_runes rs'.
Proof. induction rs as [|r rs IH]; [done|]. cbn [app]. by rewrite !string_of_runes_cons, IH, sapp_assoc. Qed.
