(* ===== verification/Columns.v ===== *)
(** Columns of text: pkg/expand/expand.go, pkg/unexpand/unexpand.go and pkg/fold/fold.go.

    A line is a sequence of runes, each of which takes a column; a tab goes on to the next multiple of
    the tab width.  A byte that starts no rune takes a column and stands for itself. *)

From S2P Require Import Prelude GoStd Utf8 Scanner Output.

Local Open Scope Z_scope.

Definition tab : string := String "009" "".
Definition spaces_of (n : Z) : string := repeat_char " " (Z.to_nat n).

(** [col + tabWidth - (col % tabWidth)] *)
Definition next_stop (col tabWidth : Z) : Z := col + (tabWidth - Z.rem col tabWidth).

(** * expand *)

(** [expandLine]; the fuel is the number of bytes. *)
Fixpoint expand_from (fuel : nat) (col : Z) (line : string) (tabWidth : Z) (initialOnly : bool) : string :=
  match fuel, line with
  | S fuel, String c _ =>
      let '(r, size) := DecodeRune line in
      let rest := str_drop size line in
      if (r =? RuneError) && (size =? 1)%nat then String c (expand_from fuel (col + 1) rest tabWidth initialOnly)
      else if r =? 9 then
        spaces_of (tabWidth - Z.rem col tabWidth) +:+ expand_from fuel (next_stop col tabWidth) rest tabWidth initialOnly
      else
        str_take size line +:+
        (if initialOnly && negb (r =? 32) then rest else expand_from fuel (col + 1) rest tabWidth initialOnly)
  | _, _ => ""
  end.

Definition expandLine (line : string) (tabWidth : Z) (initialOnly : bool) : string :=
  expand_from (String.length line) 0 line tabWidth initialOnly.

(** [expand]'s [Transform]. *)
Definition expand_text (input : string) (tabWidth : Z) (initialOnly : bool) : string :=
  if input =s? "" then ""
  else join_with nl ((fun l => expandLine l tabWidth initialOnly) <$> split_nl input).

(** The tab width of the option -t: a number that is not positive is ignored. *)
Definition tab_width (t : string) : Z := match Atoi t with Some v => if 0 <? v then v else 8 | None => 8 end.

Definition ends_with_newline (s : string) : bool :=
  match String.length s with O => false | S k => str_drop k s =s? nl end.

Definition without_newline (s : string) : string := if ends_with_newline s then str_take (String.length s - 1) s else s.

(** The operands' contents one after the other; one that cannot be read is left out. *)
Definition read_all (files : gmap string string) (paths : list string) (stdin : string) : string :=
  match paths with [] => stdin | _ => sconcat ((fun p => default "" (files !! p)) <$> paths) end.

Record LinesResult := { Lines : list string }.

(** [expandRun] after the options. *)
Definition expandRun (t : string) (initialOnly jsonMode : bool) (paths : list string) (stdin : string)
    (files : gmap string string) : run_io LinesResult :=
  let input := read_all files paths stdin in
  let outLines := (fun l => expandLine l (tab_width t) initialOnly) <$> split_nl (without_newline input) in
  {| rc := 0;
     out := if jsonMode then Render "expand" {| Lines := outLines |} true []
            else CText (join_with nl outLines) :: (if ends_with_newline input then [CText nl] else []);
     errs := [] |}.

(** * unexpand *)

Definition is_blank_rune (r : Z) : bool := (r =? 32) || (r =? 9).

Definition advanceCol (col r tabWidth : Z) : Z := if r =? 9 then next_stop col tabWidth else col + 1.

(** The blanks at the start, the column after them, and the rest. *)
Fixpoint blank_run (col : Z) (line : string) (tabWidth : Z) : Z * string :=
  match line with
  | String c rest => if is_blank_rune (code c) then blank_run (advanceCol col (code c) tabWidth) rest tabWidth else (col, line)
  | "" => (col, "")
  end.

Fixpoint blankRunContainsTab (s : string) : bool :=
  match s with
  | String c rest => if code c =? 9 then true else if code c =? 32 then blankRunContainsTab rest else false
  | "" => false
  end.

(** [blanksToTabs]; the fuel is the number of columns. *)
Fixpoint blanks_from (fuel : nat) (col endCol tabWidth : Z) : string :=
  match fuel with
  | O => ""
  | S fuel =>
      if col <? endCol then
        let nextTabStop := next_stop col tabWidth in
        if nextTabStop <=? endCol then tab +:+ blanks_from fuel nextTabStop endCol tabWidth
        else " " +:+ blanks_from fuel (col + 1) endCol tabWidth
      else ""
  end.

Definition blanksToTabs (startCol endCol tabWidth : Z) : string :=
  blanks_from (Z.to_nat (endCol - startCol)) startCol endCol tabWidth.

Fixpoint unexpand_from (fuel : nat) (col : Z) (line : string) (tabWidth : Z) (allBlanks : bool) : string :=
  match fuel, line with
  | S fuel, String c _ =>
      let '(r, size) := DecodeRune line in
      let rest := str_drop size line in
      if (r =? RuneError) && (size =? 1)%nat then String c (unexpand_from fuel (col + 1) rest tabWidth allBlanks)
      else if is_blank_rune r && (allBlanks || (col =? 0) || blankRunContainsTab line) then
        let '(endCol, rest) := blank_run col line tabWidth in
        blanksToTabs col endCol tabWidth +:+ unexpand_from fuel endCol rest tabWidth allBlanks
      else str_take size line +:+ unexpand_from fuel (advanceCol col r tabWidth) rest tabWidth allBlanks
  | _, _ => ""
  end.

(** A line with a byte from 0x80 on is treated as with -a. *)
Definition unexpandLine (line : string) (tabWidth : Z) (allBlanks : bool) : string :=
  unexpand_from (String.length line) 0 line tabWidth (allBlanks || negb (str_forall (fun c => code c <? 0x80) line)).

(** [splitLines]: a newline at the end makes no empty last line. *)
Definition splitLines (s : string) : list string := split_nl (without_newline s).

(** [unexpand]'s [Transform]. *)
Definition unexpand_text (input : string) (tabWidth : Z) (allBlanks : bool) : string :=
  if input =s? "" then ""
  else
    join_with nl ((fun l => unexpandLine l tabWidth allBlanks) <$> splitLines input) +:+
    (if ends_with_newline input then nl else "").

(** The text of the error of [os.ReadFile]. *)
Variant read_result := ReadOk (text : string) | ReadErr (path : string).

Fixpoint read_files (files : gmap string string) (paths : list string) : read_result :=
  match paths with
  | [] => ReadOk ""
  | path :: paths =>
      match files !! path with
      | None => ReadErr path
      | Some text => match read_files files paths with ReadOk rest => ReadOk (text +:+ rest) | e => e end
      end
  end.

Definition is_some_positive (t : string) : bool := match Atoi t with Some v => 0 <? v | None => false end.

(** [unexpandRun] after the options; -t without -f is -a. *)
Definition unexpandRun (open_error : string -> string) (t : string) (all firstOnly jsonMode : bool) (paths : list string)
    (stdin : string) (files : gmap string string) : run_io LinesResult :=
  let allBlanks := all || (is_some_positive t && negb firstOnly) in
  match (match paths with [] => ReadOk stdin | _ => read_files files paths end) with
  | ReadErr path =>
      {| rc := 1; out := []; errs := [line ("unexpand: " +:+ path +:+ ": " +:+ open_error path)] |}
  | ReadOk input =>
      let result := unexpand_text input (tab_width t) allBlanks in
      {| rc := 0; out := if jsonMode then Render "unexpand" {| Lines := splitLines result |} true [] else [CText result];
         errs := [] |}
  end.

(** * fold *)

Section Fold.
Context {A : Type}.
(** The width of an element in a column, whether it is a space, and the width of a line. *)
Variable advance : Z -> A -> Z.
Variable is_space : A -> bool.
Variable width : Z.
Variable spaceBreak : bool.

(** The number of elements, from [start] on, before the line is too wide; [None] if it never is. *)
Fixpoint overflow_at (pos : Z) (l : list A) : option nat :=
  match l with
  | [] => None
  | x :: l =>
      if (width <? pos + advance pos x) && (0 <? pos) then Some 0%nat
      else S <$> overflow_at (pos + advance pos x) l
  end.

(** The position after the last space of a list; its length if there is none. *)
Definition break_after_space (l : list A) : nat :=
  match list_find (fun x => is_space x = true) (reverse l) with
  | Some (j, _) => length l - j
  | None => length l
  end.

(** What is written of a list, and what is left: the space at a break is dropped with -s. *)
Definition break_line (l : list A) : option (list A * list A) :=
  i ← overflow_at 0 l;
  let breakAt := if spaceBreak then break_after_space (take i l) else i in
  let rest := drop breakAt l in
  Some (take breakAt l,
        match rest with x :: rest' => if spaceBreak && is_space x then rest' else rest | [] => [] end).

(** The pieces of a line; the fuel is its length. *)
Fixpoint fold_pieces (fuel : nat) (l : list A) : list (list A) :=
  match fuel with
  | O => [l]
  | S fuel =>
      match break_line l with
      | Some (piece, rest) => piece :: fold_pieces fuel rest
      | None => [l]
      end
  end.
End Fold.

(** The column after a rune. *)
Definition rune_advance (pos r : Z) : Z := if r =? 9 then 8 - Z.rem pos 8 else 1.

Definition foldLineBytes (line : string) (width : Z) (spaceBreak : bool) : string :=
  let l := String.list_ascii_of_string line in
  join_with nl (String.string_of_list_ascii <$>
    fold_pieces (fun _ _ => 1) (fun c => c =c? " ") width spaceBreak (length l) l).

Definition foldLineRunes (line : string) (width : Z) (spaceBreak : bool) : string :=
  let l := runes line in
  join_with nl (string_of_runes <$> fold_pieces rune_advance (fun r => r =? 32) width spaceBreak (length l) l).

Definition foldLine (line : string) (width : Z) (byteMode spaceBreak : bool) : string :=
  if line =s? "" then ""
  else if width <=? 0 then line
  else if byteMode then foldLineBytes line width spaceBreak
  else foldLineRunes line width spaceBreak.

Definition Fold (data : string) (width : Z) (byteMode spaceBreak : bool) : string :=
  if data =s? "" then ""
  else
    join_with nl ((fun l => foldLine l width byteMode spaceBreak) <$> split_nl (without_newline data)) +:+
    (if ends_with_newline data then nl else "").

(** The first operand that cannot be opened. *)
Fixpoint unopened (files : gmap string string) (paths : list string) : option string :=
  match paths with
  | [] => None
  | path :: paths =>
      if (path =s? "-") || bool_decide (files !! path <> None) then unopened files paths else Some path
  end.

(** [io.MultiReader]: the standard input is read once. *)
Fixpoint multi_reader (files : gmap string string) (paths : list string) (stdin : string) : string :=
  match paths with
  | [] => ""
  | path :: paths =>
      if path =s? "-" then stdin +:+ multi_reader files paths ""
      else default "" (files !! path) +:+ multi_reader files paths stdin
  end.

Definition fold_width (w : string) : Z := match Atoi w with Some v => if 0 <? v then v else 80 | None => 80 end.

Definition chomp_newline (s : string) : string := without_newline s.

(** [foldRun] after the options. *)
Definition foldRun (open_error : string -> string) (w : string) (byteMode spaceBreak jsonMode : bool) (paths : list string)
    (stdin : string) (files : gmap string string) : run_io LinesResult :=
  match unopened files paths with
  | Some path => {| rc := 1; out := []; errs := [line ("fold: " +:+ path +:+ ": " +:+ open_error path)] |}
  | None =>
      let output := Fold (match paths with [] => stdin | _ => multi_reader files paths stdin end) (fold_width w) byteMode spaceBreak in
      {| rc := 0;
         out := if jsonMode then Render "fold" {| Lines := split_nl (chomp_newline output) |} true [] else [CText output];
         errs := [] |}
  end.
