(* ===== verification/ColumnsLaws.v ===== *)
(** Laws of expand, unexpand and fold.

    unexpand keeps the columns of every character: expand makes the same of a line before and after
    it, in all modes; and no shorter run of blanks covers the columns of a run it converted.  fold
    only inserts newlines (without -s), and its lines are not wider than asked. *)

From S2P Require Import Prelude GoStd Lines Utf8 Utf8Laws Output Scanner Columns.

Local Open Scope Z_scope.

Section Tabs.
Variable w : Z.
Hypothesis Hw : 0 < w.

Lemma expand_fuel f1 : forall f2 col s, (String.length s <= f1)%nat -> (String.length s <= f2)%nat ->
  expand_from f1 col s w false = expand_from f2 col s w false.
Proof.
  clear Hw. induction f1 as [|f1 IH]; intros [|f2] col [|c s] H1 H2; simpl in H1, H2; try lia; try done.
  cbn [expand_from]. pose proof (DecodeRune_width c s) as Hwd. destruct (DecodeRune (String c s)) as [r n]. cbn [snd] in Hwd.
  cbn [andb]. simpl in Hwd. repeat case_match; f_equal; apply IH; rewrite slength_drop; simpl; lia.
Qed.

(** The line from a column on, with its tabs expanded. *)
Definition expanded (col : Z) (s : string) : string := expand_from (String.length s) col s w false.

Lemma expand_step col c s : expanded col (String c s) =
  let '(r, n) := DecodeRune (String c s) in
  let rest := str_drop n (String c s) in
  if (r =? RuneError) && (n =? 1)%nat then String c (expanded (col + 1) rest)
  else if r =? 9 then spaces_of (w - Z.rem col w) +:+ expanded (next_stop col w) rest
  else str_take n (String c s) +:+ expanded (col + 1) rest.
Proof.
  clear Hw. unfold expanded. cbn [String.length expand_from]. pose proof (DecodeRune_width c s) as Hwd.
  destruct (DecodeRune (String c s)) as [r n]. cbn [snd andb] in *. cbv zeta. simpl in Hwd.
  repeat case_match; f_equal; apply expand_fuel; rewrite ?slength_drop; simpl; lia.
Qed.

(** ** Blanks *)

Definition blank (c : ascii) : bool := is_blank_rune (code c).

(** The column after blanks. *)
Fixpoint after_blanks (col : Z) (b : string) : Z :=
  match b with "" => col | String c b => after_blanks (advanceCol col (code c) w) b end.

Lemma next_stop_gt col : 0 <= col -> col < next_stop col w <= col + w.
Proof. intros Hc. unfold next_stop. pose proof (Z.rem_bound_pos col w Hc Hw). lia. Qed.

Lemma advance_gt col r : 0 <= col -> col < advanceCol col r w.
Proof. intros Hc. unfold advanceCol. pose proof (next_stop_gt col Hc). destruct (r =? 9); lia. Qed.

Lemma after_blanks_ge b : forall col, 0 <= col -> col + Z.of_nat (String.length b) <= after_blanks col b.
Proof.
  induction b as [|c b IH]; intros col Hc; [simpl; lia|]. cbn [after_blanks String.length].
  pose proof (advance_gt col (code c) Hc). specialize (IH (advanceCol col (code c) w) ltac:(lia)). lia.
Qed.

Lemma spaces_app m n : 0 <= m -> 0 <= n -> spaces_of m +:+ spaces_of n = spaces_of (m + n).
Proof.
  intros Hm Hn. unfold spaces_of. rewrite Z2Nat.inj_add by lia. induction (Z.to_nat m) as [|k IH]; [done|].
  cbn [repeat_char Nat.add]. rewrite sapp_cons. by rewrite IH.
Qed.

Lemma blank_low c : blank c = true -> code c <? 0x80 = true /\ (code c = 32 \/ code c = 9).
Proof.
  unfold blank, is_blank_rune. intros H. apply orb_true_iff in H as [H|H]; apply Z.eqb_eq in H; rewrite H; auto.
Qed.

(** Blanks expand to the spaces of their columns. *)
Lemma expanded_blanks b : forall col s, 0 <= col -> str_forall blank b = true ->
  expanded col (b +:+ s) = spaces_of (after_blanks col b - col) +:+ expanded (after_blanks col b) s.
Proof.
  induction b as [|c b IH]; intros col s Hc Hb; [by rewrite Z.sub_diag|]. simpl in Hb. apply andb_true_iff in Hb as [Hc' Hb].
  destruct (blank_low c Hc') as [Hl Hcc]. rewrite sapp_cons, expand_step, DecodeRune_ascii by done.
  pose proof (advance_gt col (code c) Hc) as Ha. pose proof (after_blanks_ge b (advanceCol col (code c) w) ltac:(lia)) as Hge.
  assert (Hne : (code c =? RuneError) = false) by (apply Z.eqb_neq; unfold RuneError; lia). rewrite Hne. cbn [andb str_drop str_take].
  cbn [after_blanks]. unfold advanceCol in *. destruct Hcc as [Hcc|Hcc]; rewrite Hcc in *; cbn [Z.eqb Pos.eqb] in *.
  - rewrite IH by (done || lia). assert (c = " "%char) as -> by (rewrite <- (chr_code c), Hcc; reflexivity).
    change (String " " "") with (spaces_of 1). rewrite <- sapp_assoc, spaces_app by lia. f_equal. f_equal. lia.
  - rewrite IH by (done || lia). rewrite <- sapp_assoc. unfold next_stop in *. rewrite spaces_app by lia. f_equal. f_equal. lia.
Qed.

Lemma blank_run_spec s : forall col, exists b rest, s = b +:+ rest /\ str_forall blank b = true /\
  blank_run col s w = (after_blanks col b, rest) /\ (rest = "" \/ exists c t, rest = String c t /\ blank c = false).
Proof.
  clear Hw. induction s as [|c s IH]; intros col; [exists "", ""; repeat split; by left|]. cbn [blank_run]. fold (blank c).
  destruct (blank c) eqn:Hc.
  - destruct (IH (advanceCol col (code c) w)) as (b & rest & -> & Hb & Hr & Hrest). exists (String c b), rest.
    rewrite sapp_cons. simpl. rewrite Hc. by repeat split.
  - exists "", (String c s). split; [done|]. split; [done|]. split; [done|]. right. eauto.
Qed.

(** The blanks that are written for a run end at the same column. *)
Lemma blanks_from_spec fuel : forall col endCol, 0 <= col <= endCol -> (Z.to_nat (endCol - col) <= fuel)%nat ->
  str_forall blank (blanks_from fuel col endCol w) = true /\ after_blanks col (blanks_from fuel col endCol w) = endCol.
Proof.
  induction fuel as [|fuel IH]; intros col endCol Hc Hf; [split; [done|simpl; lia]|]. cbn [blanks_from].
  destruct (Z.ltb_spec col endCol) as [H|H]; [|split; [done|simpl; lia]].
  pose proof (next_stop_gt col ltac:(lia)) as Hn. cbv zeta. destruct (Z.leb_spec (next_stop col w) endCol) as [H1|H1].
  - destruct (IH (next_stop col w) endCol ltac:(lia) ltac:(lia)) as [H2 H3]. simpl. by split.
  - destruct (IH (col + 1) endCol ltac:(lia) ltac:(lia)) as [H2 H3]. simpl. by split.
Qed.

Lemma blanksToTabs_spec col endCol : 0 <= col <= endCol ->
  str_forall blank (blanksToTabs col endCol w) = true /\ after_blanks col (blanksToTabs col endCol w) = endCol.
Proof. intros Hc. by apply blanks_from_spec. Qed.

(** No fewer blanks cover the columns. *)
Lemma next_stop_between col col' : 0 <= col -> col < col' < next_stop col w -> next_stop col' w = next_stop col w.
Proof.
  intros Hc H. unfold next_stop in *. rewrite Z.rem_mod_nonneg in * by lia. rewrite (Z.rem_mod_nonneg col) by lia.
  pose proof (Z.div_mod col w ltac:(lia)) as E. pose proof (Z.mod_pos_bound col w Hw) as B.
  rewrite <- (Z.mod_unique col' w (col / w) (col mod w + (col' - col))) by lia. lia.
Qed.

Lemma next_stop_mono col col' : 0 <= col < col' -> col' <= next_stop col w -> next_stop col w <= next_stop col' w.
Proof.
  intros Hc H. destruct (decide (col' = next_stop col w)) as [E|E]; [pose proof (next_stop_gt col'); lia|].
  rewrite (next_stop_between col col'); lia.
Qed.

Definition blanks_cost (col endCol : Z) : nat := String.length (blanksToTabs col endCol w).

Lemma blanks_fuel f1 : forall f2 col endCol, 0 <= col -> (Z.to_nat (endCol - col) <= f1)%nat -> (Z.to_nat (endCol - col) <= f2)%nat ->
  blanks_from f1 col endCol w = blanks_from f2 col endCol w.
Proof.
  induction f1 as [|f1 IH]; intros [|f2] col endCol Hc H1 H2; cbn [blanks_from]; try done.
  - destruct (Z.ltb_spec col endCol); [lia|done].
  - destruct (Z.ltb_spec col endCol); [lia|done].
  - destruct (Z.ltb_spec col endCol); [|done]. pose proof (next_stop_gt col Hc). cbv zeta.
    destruct (Z.leb_spec (next_stop col w) endCol); f_equal; apply IH; lia.
Qed.

Lemma blanks_cost_step col endCol : 0 <= col < endCol ->
  blanks_cost col endCol = S (if next_stop col w <=? endCol then blanks_cost (next_stop col w) endCol else blanks_cost (col + 1) endCol).
Proof.
  intros Hc. unfold blanks_cost, blanksToTabs. pose proof (next_stop_gt col ltac:(lia)) as Hn.
  destruct (Z.to_nat (endCol - col)) as [|f] eqn:Ef; [lia|]. cbn [blanks_from]. destruct (Z.ltb_spec col endCol); [|lia].
  cbv zeta. destruct (Z.leb_spec (next_stop col w) endCol); cbn [String.length]; f_equal; rewrite slength_app; cbn [String.length tab];
    rewrite ?Nat.add_1_l; f_equal; f_equal; apply blanks_fuel; lia.
Qed.

(** A blank saves at most one blank. *)
Lemma blanks_cost_blank col col' endCol : 0 <= col < col' -> (col' = col + 1 \/ col' = next_stop col w) -> col' <= endCol ->
  (blanks_cost col endCol <= S (blanks_cost col' endCol))%nat.
Proof.
  intros Hc Hcol He. pose proof (next_stop_gt col ltac:(lia)) as Hn. rewrite blanks_cost_step by lia. apply le_n_S.
  destruct (Z.leb_spec (next_stop col w) endCol) as [H|H]; [|destruct Hcol as [->| ->]; [done|lia]].
  destruct Hcol as [->| ->]; [|done]. destruct (decide (next_stop col w = col + 1)) as [->|Hne]; [done|].
  rewrite (blanks_cost_step (col + 1)) by lia. rewrite (next_stop_between col (col + 1)) by lia.
  destruct (Z.leb_spec (next_stop col w) endCol); lia.
Qed.

Lemma blanks_shortest b : forall col, 0 <= col -> str_forall blank b = true ->
  (String.length (blanksToTabs col (after_blanks col b) w) <= String.length b)%nat.
Proof.
  induction b as [|c b IH]; intros col Hc Hb.
  - cbn [after_blanks]. unfold blanksToTabs. by rewrite Z.sub_diag.
  - simpl in Hb. apply andb_true_iff in Hb as [Hcb Hb]. cbn [after_blanks String.length].
    pose proof (advance_gt col (code c) Hc) as Ha. pose proof (after_blanks_ge b (advanceCol col (code c) w) ltac:(lia)) as Hge.
    specialize (IH (advanceCol col (code c) w) ltac:(lia) Hb). fold (blanks_cost (advanceCol col (code c) w) (after_blanks (advanceCol col (code c) w) b)) in IH.
    fold (blanks_cost col (after_blanks (advanceCol col (code c) w) b)). etransitivity; [|apply le_n_S, IH].
    apply blanks_cost_blank; [lia| |lia]. unfold advanceCol. destruct (code c =? 9); auto.
Qed.

(** A decoded blank is that byte. *)
Lemma decoded_blank c s r n : DecodeRune (String c s) = (r, n) -> is_blank_rune r = true -> blank c = true.
Proof.
  clear Hw. intros E Hr. destruct (high c) eqn:Hc; [|rewrite DecodeRune_low in E by done; by injection E as <- _].
  exfalso. pose proof (DecodeRune_cases c s) as [Hd|Hd]; rewrite E in Hd; [by injection Hd as -> ->|].
  destruct Hd as [_ Ht]. pose proof (DecodeRune_bytes c s Hc) as Hh. rewrite E in Hh. cbn [snd] in Hh. rewrite Ht in Hh.
  unfold is_blank_rune in Hr. apply orb_true_iff in Hr as [Hr|Hr]; apply Z.eqb_eq in Hr as ->; done.
Qed.

Lemma blank_span c s : blank c = true -> high_span (String c s) = "".
Proof. clear Hw. intros Hc. apply high_span_low. destruct (blank_low c Hc) as [Hl _]. unfold high. by rewrite Hl. Qed.

Variable all : bool.

Lemma unexpand_fuel f1 : forall f2 col s, (String.length s <= f1)%nat -> (String.length s <= f2)%nat ->
  unexpand_from f1 col s w all = unexpand_from f2 col s w all.
Proof.
  clear Hw. induction f1 as [|f1 IH]; intros [|f2] col [|c s] H1 H2; simpl in H1, H2; try lia; try done.
  cbn [unexpand_from]. pose proof (DecodeRune_width c s) as Hwd. destruct (DecodeRune (String c s)) as [r n] eqn:E. cbn [snd] in Hwd.
  simpl in Hwd. destruct (blank_run_spec (String c s) col) as (b & rest & Hs & Hb & -> & Hr).
  case_match; [f_equal; apply IH; rewrite slength_drop; simpl; lia|].
  case_match; [|f_equal; apply IH; rewrite slength_drop; simpl; lia].
  f_equal. assert (b <> "").
  { intros ->. rewrite sapp_nil_l in Hs. destruct Hr as [->|(d & t & -> & Hd)]; [done|]. injection Hs as <- <-.
    match goal with H : is_blank_rune r && _ = true |- _ => apply andb_true_iff in H as [H _] end.
    rewrite (decoded_blank _ _ _ _ E) in Hd; done. }
  apply IH; apply (f_equal String.length) in Hs; rewrite slength_app in Hs; destruct b; try done; simpl in *; lia.
Qed.

(** The line from a column on, with its blanks converted. *)
Definition unexpanded (col : Z) (s : string) : string := unexpand_from (String.length s) col s w all.

Definition converts (col r : Z) (s : string) : bool :=
  is_blank_rune r && (all || (col =? 0) || blankRunContainsTab s).

(** The bytes that give RuneError are written like any character. *)
Lemma unexpanded_step col c s : unexpanded col (String c s) =
  let '(r, n) := DecodeRune (String c s) in
  if converts col r (String c s) then
    let '(endCol, rest) := blank_run col (String c s) w in blanksToTabs col endCol w +:+ unexpanded endCol rest
  else str_take n (String c s) +:+ unexpanded (advanceCol col r w) (str_drop n (String c s)).
Proof.
  clear Hw. unfold unexpanded at 1, converts. cbn [String.length unexpand_from]. pose proof (DecodeRune_width c s) as Hwd.
  destruct (DecodeRune (String c s)) as [r n] eqn:E. cbn [snd] in Hwd. cbv zeta.
  destruct ((r =? RuneError) && (n =? 1)%nat) eqn:He.
  - apply andb_true_iff in He as [He Hn]. apply Z.eqb_eq in He as ->. apply Nat.eqb_eq in Hn as ->.
    cbn [andb]. change (is_blank_rune RuneError) with false. cbn [andb]. cbn [str_take str_drop]. by rewrite sapp_cons.
  - case_match; [|f_equal; apply unexpand_fuel; rewrite ?slength_drop; simpl; lia].
    destruct (blank_run_spec (String c s) col) as (b & rest & Hs & Hb & -> & Hr). f_equal.
    apply unexpand_fuel; [|done]. destruct b as [|d b].
    + exfalso. destruct Hr as [->|(d & t & -> & Hd)]; [done|]. rewrite sapp_nil_l in Hs. injection Hs as <- <-.
      match goal with H : _ && _ = true |- _ => apply andb_true_iff in H as [H _] end.
      rewrite (decoded_blank _ _ _ _ E) in Hd by done. done.
    + apply (f_equal String.length) in Hs. rewrite slength_app in Hs. simpl in *. lia.
Qed.

Lemma expand_rune_step col c s : expanded col (String c s) =
  let '(r, n) := DecodeRune (String c s) in
  (if r =? 9 then spaces_of (w - Z.rem col w) else str_take n (String c s)) +:+
  expanded (advanceCol col r w) (str_drop n (String c s)).
Proof.
  clear Hw. rewrite expand_step. destruct (DecodeRune (String c s)) as [r n] eqn:E. cbv zeta.
  destruct ((r =? RuneError) && (n =? 1)%nat) eqn:He.
  - apply andb_true_iff in He as [He Hn]. apply Z.eqb_eq in He as ->. apply Nat.eqb_eq in Hn as ->. done.
  - unfold advanceCol. by destruct (r =? 9).
Qed.

(** unexpand changes the columns of no character, and no byte from 0x80 on. *)
Lemma unexpanded_columns n : forall s col, (String.length s <= n)%nat -> 0 <= col ->
  high_span (unexpanded col s) = high_span s /\ expanded col (unexpanded col s) = expanded col s.
Proof.
  induction n as [|n IH]; intros [|c s] col Hn Hc; try done; [simpl in Hn; lia|]. rewrite unexpanded_step.
  pose proof (decode_before c s) as Hd. pose proof (DecodeRune_width c s) as Hwd.
  destruct (DecodeRune (String c s)) as [r m] eqn:E. cbn [snd] in Hwd. destruct (converts col r (String c s)) eqn:Hcv.
  - apply andb_true_iff in Hcv as [Hbl _]. pose proof (decoded_blank _ _ _ _ E Hbl) as Hcb.
    destruct (blank_run_spec (String c s) col) as (b & rest & Hs & Hb & -> & Hr).
    destruct b as [|d b]; [destruct Hr as [->|(e & t & -> & He)]; [done|]; injection Hs as -> ->; congruence|].
    pose proof (after_blanks_ge (String d b) col Hc) as Hge. simpl String.length in Hge.
    destruct (blanksToTabs_spec col (after_blanks col (String d b)) ltac:(lia)) as [Hb1 Hb2].
    assert (Hlen : (String.length rest <= n)%nat).
    { apply (f_equal String.length) in Hs. rewrite slength_app in Hs. simpl in *. lia. }
    destruct (IH rest (after_blanks col (String d b)) Hlen ltac:(lia)) as [_ IHe]. split.
    + rewrite (blank_span c s Hcb). destruct (blanksToTabs _ _ _) as [|e t]; [cbn [after_blanks] in Hb2, Hge; lia|].
      simpl in Hb1. apply andb_true_iff in Hb1 as [He _]. by rewrite sapp_cons, blank_span.
    + rewrite expanded_blanks by done. rewrite Hb2, IHe, Hs. by rewrite expanded_blanks.
  - assert (Hlen : (String.length (str_drop m (String c s)) <= n)%nat) by (rewrite slength_drop; simpl in *; lia).
    pose proof (advance_gt col r Hc) as Ha.
    destruct (IH (str_drop m (String c s)) (advanceCol col r w) Hlen ltac:(lia)) as [IHs IHe].
    destruct (Hd _ IHs) as [Hd1 (t & Ht & Hd2)]. split; [done|]. rewrite expand_rune_step, E. rewrite Ht in Hd1 |- *.
    rewrite sapp_cons in *. rewrite expand_rune_step, Hd1. rewrite <- sapp_cons, <- Ht.
    destruct (take_app_take m (String c s) (unexpanded (advanceCol col r w) (str_drop m (String c s)))) as [H1 H2]; [simpl in *; lia|].
    rewrite H1, H2. by rewrite IHe.
Qed.
End Tabs.

(** ** The shortest line *)

Section Shortest.
Variable w : Z.
Hypothesis Hw : 0 < w.

Notation expanded := (expanded w).
Notation unexpanded := (unexpanded w true).

Definition no_blank_first (s : string) : Prop := s = "" \/ exists c t, s = String c t /\ blank c = false.

Lemma blank_prefix s : forall col, exists b rest, s = b +:+ rest /\ str_forall blank b = true /\ no_blank_first rest /\
  blank_run col s w = (after_blanks w col b, rest).
Proof. clear Hw. intros col. destruct (blank_run_spec w s col) as (b & rest & H1 & H2 & H3 & H4). by exists b, rest. Qed.

(** A line that begins with no blank keeps its first rune. *)
Lemma expanded_rune col c s : blank c = false ->
  let '(r, n) := DecodeRune (String c s) in
  expanded col (String c s) = str_take n (String c s) +:+ expanded (col + 1) (str_drop n (String c s)).
Proof.
  clear Hw. intros Hc. rewrite expand_rune_step. destruct (DecodeRune (String c s)) as [r n] eqn:E. unfold advanceCol.
  destruct (Z.eqb_spec r 9) as [->|]; [|done]. rewrite (decoded_blank c s 9 n E) in Hc; done.
Qed.

Lemma spaces_span n s : 0 < n -> high_span (spaces_of n +:+ s) = "".
Proof. clear Hw. intros Hn. unfold spaces_of. destruct (Z.to_nat n) as [|k] eqn:Ek; [lia|]. cbn [repeat_char]. rewrite sapp_cons. done. Qed.

Lemma expanded_span n : forall s col, (String.length s <= n)%nat -> 0 <= col -> high_span (expanded col s) = high_span s.
Proof.
  induction n as [|n IH]; intros [|c s] col Hn Hc; try done; [simpl in Hn; lia|]. destruct (blank c) eqn:Hb.
  - rewrite (blank_span c s Hb). change (String c s) with (String c "" +:+ s). rewrite expanded_blanks by (simpl; rewrite ?Hb; done).
    apply spaces_span. pose proof (after_blanks_ge w Hw (String c "") col Hc). simpl in *. lia.
  - pose proof (expanded_rune col c s Hb) as He. pose proof (decode_before c s) as Hd. pose proof (DecodeRune_width c s) as Hwd.
    destruct (DecodeRune (String c s)) as [r m]. cbn [snd] in Hwd. rewrite He.
    destruct (Hd (expanded (col + 1) (str_drop m (String c s)))) as [_ (t & _ & H)]; [|done].
    apply IH; [|lia]. rewrite slength_drop. simpl in *. lia.
Qed.

Lemma expanded_decode col c s : 0 <= col -> blank c = false ->
  DecodeRune (expanded col (String c s)) = DecodeRune (String c s) /\ exists t, expanded col (String c s) = String c t.
Proof.
  intros Hc Hb. pose proof (expanded_rune col c s Hb) as He. pose proof (decode_before c s) as Hd. pose proof (DecodeRune_width c s) as Hwd.
  destruct (DecodeRune (String c s)) as [r m] eqn:E. cbn [snd] in Hwd. rewrite He.
  destruct (Hd (expanded (col + 1) (str_drop m (String c s)))) as [H (t & Ht & _)]; [eapply expanded_span; [done|lia]|].
  split; [done|]. destruct m as [|m]; [lia|]. cbn [str_take]. rewrite sapp_cons. eauto.
Qed.

Lemma expanded_no_blank col s : 0 <= col -> no_blank_first s -> no_blank_first (expanded col s).
Proof.
  intros Hc [->|(c & t & -> & Hb)]; [by left|]. destruct (expanded_decode col c t Hc Hb) as [_ [u ->]]. right. eauto.
Qed.

Lemma spaces_prefix m n s t : no_blank_first s -> no_blank_first t ->
  repeat_char " " m +:+ s = repeat_char " " n +:+ t -> m = n /\ s = t.
Proof.
  clear Hw. intros Hs Ht. revert n. induction m as [|m IH]; intros [|n]; cbn [repeat_char]; rewrite ?sapp_nil_l, ?sapp_cons; intros H.
  - done.
  - subst s. destruct Hs as [|(c & u & Hs & Hc)]; [done|]. by injection Hs as <- _.
  - subst t. destruct Ht as [|(c & u & Ht & Hc)]; [done|]. by injection Ht as <- _.
  - injection H as H. destruct (IH n H) as [-> ->]. done.
Qed.

Lemma blanks_prefix b b' s s' : str_forall blank b = true -> str_forall blank b' = true -> no_blank_first s -> no_blank_first s' ->
  b +:+ s = b' +:+ s' -> b = b' /\ s = s'.
Proof.
  clear Hw. intros Hb Hb' Hs Hs'. revert b' Hb'. induction b as [|c b IH]; intros [|c' b'] Hb'; rewrite ?sapp_nil_l, ?sapp_cons; intros H.
  - done.
  - subst s. destruct Hs as [|(d & u & Hs & Hd)]; [done|]. injection Hs as <- _. simpl in Hb'. by rewrite Hd in Hb'.
  - subst s'. destruct Hs' as [|(d & u & Hs' & Hd)]; [done|]. injection Hs' as <- _. simpl in Hb. by rewrite Hd in Hb.
  - injection H as <- H. simpl in Hb, Hb'. apply andb_true_iff in Hb as [_ Hb], Hb' as [_ Hb'].
    destruct (IH Hb b' Hb' H) as [-> ->]. done.
Qed.

Lemma unexpanded_blanks col b s : 0 <= col -> str_forall blank b = true -> no_blank_first s ->
  unexpanded col (b +:+ s) = blanksToTabs col (after_blanks w col b) w +:+ unexpanded (after_blanks w col b) s.
Proof.
  intros Hc Hb Hs. destruct b as [|c b].
  - cbn [after_blanks]. unfold blanksToTabs. rewrite Z.sub_diag. done.
  - rewrite sapp_cons, unexpanded_step. destruct (blank_prefix (String c (b +:+ s)) col) as (b' & s' & E & Hb' & Hs' & ->).
    assert (Hbc : blank c = true) by (simpl in Hb; by apply andb_true_iff in Hb as [H _]).
    destruct (blank_low c Hbc) as [Hl _]. rewrite DecodeRune_ascii by done. unfold converts. fold (blank c). rewrite Hbc. cbn [andb orb].
    rewrite <- sapp_cons in E. destruct (blanks_prefix (String c b) b' s s' Hb Hb' Hs Hs' E) as [<- <-]. done.
Qed.

Lemma unexpanded_rune col c s : blank c = false ->
  let '(r, n) := DecodeRune (String c s) in
  unexpanded col (String c s) = str_take n (String c s) +:+ unexpanded (col + 1) (str_drop n (String c s)).
Proof.
  clear Hw. intros Hc. rewrite unexpanded_step. destruct (DecodeRune (String c s)) as [r n] eqn:E. unfold converts, advanceCol.
  destruct (is_blank_rune r) eqn:Hr; [rewrite (decoded_blank c s r n E Hr) in Hc; done|]. cbn [andb].
  destruct (Z.eqb_spec r 9) as [->|]; done.
Qed.

(** A line with the columns of another is not shorter than what unexpand -a makes of it. *)
Lemma unexpanded_shortest k : forall s t col, (String.length s <= k)%nat -> 0 <= col -> expanded col t = expanded col s ->
  (String.length (unexpanded col s) <= String.length t)%nat.
Proof.
  induction k as [|k IH]; intros s t col Hk Hc He; [destruct s; [simpl; lia|simpl in Hk; lia]|].
  destruct (blank_prefix s col) as (b & rest & -> & Hb & Hrest & _), (blank_prefix t col) as (b' & rest' & -> & Hb' & Hrest' & _).
  pose proof (after_blanks_ge w Hw b col Hc) as Hge. pose proof (after_blanks_ge w Hw b' col Hc) as Hge'.
  rewrite !expanded_blanks in He by done. unfold spaces_of in He.
  apply spaces_prefix in He as [Hn He]; [|apply expanded_no_blank; [lia|done]|apply expanded_no_blank; [lia|done]].
  assert (Hend : after_blanks w col b' = after_blanks w col b) by lia. rewrite Hend in He. clear Hn.
  rewrite unexpanded_blanks, !slength_app by done. rewrite <- Hend at 1. pose proof (blanks_shortest w Hw b' col Hc Hb') as Hmin.
  cut (String.length (unexpanded (after_blanks w col b) rest) <= String.length rest')%nat; [lia|]. clear Hmin.
  set (col' := after_blanks w col b) in *. destruct Hrest as [->|(c & u & -> & Hbc)]; [simpl; lia|].
  pose proof (expanded_decode col' c u ltac:(lia) Hbc) as [Hd [x Hx]].
  destruct Hrest' as [->|(c' & u' & -> & Hbc')]; [by rewrite Hx in He|].
  pose proof (expanded_decode col' c' u' ltac:(lia) Hbc') as [Hd' _].
  assert (Hdd : DecodeRune (String c' u') = DecodeRune (String c u)) by congruence. clear Hd Hd'.
  pose proof (expanded_rune col' c u Hbc) as E1. pose proof (expanded_rune col' c' u' Hbc') as E2. pose proof (unexpanded_rune col' c u Hbc) as E3.
  pose proof (DecodeRune_width c u) as Hwd. pose proof (DecodeRune_width c' u') as Hwd'. rewrite Hdd in E2, Hwd'.
  destruct (DecodeRune (String c u)) as [r n]. cbn [snd] in *. rewrite E1, E2 in He. rewrite E3, slength_app.
  destruct (take_app_take n (String c u) (expanded (col' + 1) (str_drop n (String c u)))) as [_ D1]; [lia|].
  destruct (take_app_take n (String c' u') (expanded (col' + 1) (str_drop n (String c' u')))) as [_ D2]; [lia|].
  apply (f_equal (str_drop n)) in He as Hr. rewrite D1, D2 in Hr.
  rewrite slength_app in Hk. specialize (IH (str_drop n (String c u)) (str_drop n (String c' u')) (col' + 1)
    ltac:(rewrite slength_drop; lia) ltac:(lia) Hr).
  rewrite slength_take_min. rewrite slength_drop in IH. lia.
Qed.
End Shortest.

(** ** Texts *)

Lemma blank_no_nl b : str_forall blank b = true -> no_nl b = true.
Proof.
  unfold no_nl. apply str_forall_impl. intros c Hc. destruct (blank_low c Hc) as [_ [-> | ->]]; done.
Qed.

Lemma unexpanded_no_nl w all n : 0 < w -> forall s col, (String.length s <= n)%nat -> 0 <= col -> no_nl s = true ->
  no_nl (unexpanded w all col s) = true.
Proof.
  intros Hw. induction n as [|n IH]; intros [|c s] col Hn Hc Hs; try done; [simpl in Hn; lia|]. rewrite unexpanded_step.
  pose proof (DecodeRune_width c s) as Hwd. destruct (DecodeRune (String c s)) as [r m] eqn:E. cbn [snd] in Hwd.
  unfold no_nl in *. destruct (converts all col r (String c s)) eqn:Hcv.
  - apply andb_true_iff in Hcv as [Hbl _]. pose proof (decoded_blank _ _ _ _ E Hbl) as Hcb.
    destruct (blank_run_spec w (String c s) col) as (b & rest & Hb & Hbb & -> & Hr). rewrite Hb, str_forall_app in Hs.
    apply andb_true_iff in Hs as [_ Hs]. pose proof (after_blanks_ge w Hw b col Hc) as Hge. rewrite str_forall_app.
    destruct (blanksToTabs_spec w Hw col (after_blanks w col b) ltac:(lia)) as [H1 _]. rewrite (blank_no_nl _ H1 : str_forall _ _ = true).
    apply IH; [|lia|done]. destruct b as [|d b].
    + rewrite sapp_nil_l in Hb. subst rest. destruct Hr as [|(d & t & Ht & Hd)]; [done|]. injection Ht as <- _. congruence.
    + apply (f_equal String.length) in Hb. rewrite slength_app in Hb. simpl in *. lia.
  - rewrite str_forall_app, str_forall_take by done. apply IH; [rewrite slength_drop; simpl in *; lia| |by apply str_forall_drop].
    pose proof (advance_gt w Hw col r Hc). lia.
Qed.

Lemma newline_end s : s = without_newline s +:+ (if ends_with_newline s then nl else "").
Proof.
  unfold without_newline. destruct (ends_with_newline s) eqn:E; [|by rewrite sapp_nil_r]. unfold ends_with_newline in E.
  destruct (String.length s) as [|k] eqn:Ek; [done|]. rewrite Nat.sub_succ, Nat.sub_0_r. apply String.eqb_eq in E.
  rewrite <- E. by rewrite str_take_drop.
Qed.

(** A function of the lines applied to a text that may end in a newline. *)
Lemma map_text_lines (f : string -> string) s : f "" = "" ->
  join_with nl (f <$> split_nl (without_newline s)) +:+ (if ends_with_newline s then nl else "") =
  join_with nl (f <$> split_nl s).
Proof.
  intros Hf. pose proof (newline_end s) as Hs. destruct (ends_with_newline s); [|by rewrite sapp_nil_r in *; rewrite <- Hs].
  rewrite Hs at 2. rewrite split_nl_snoc, fmap_app, fmap_cons, fmap_nil, Hf. rewrite join_snoc; [done|].
  pose proof (split_nl_cons (without_newline s)). by destruct (split_nl (without_newline s)).
Qed.

Lemma unexpand_text_lines s w all : unexpand_text s w all = join_with nl ((fun l => unexpandLine l w all) <$> split_nl s).
Proof.
  unfold unexpand_text, splitLines. destruct (s =s? "") eqn:E; [apply String.eqb_eq in E as ->; done|].
  by apply (map_text_lines (fun l => unexpandLine l w all)).
Qed.

Lemma expand_text_lines s w : expand_text s w false = join_with nl ((fun l => expandLine l w false) <$> split_nl s).
Proof. unfold expand_text. destruct (s =s? "") eqn:E; [apply String.eqb_eq in E as ->; done|done]. Qed.

(** Expand makes the same of a text before and after unexpand, in every mode: unexpand keeps the
    column of every character, of every line. *)
Theorem expand_unexpand s w all : 0 < w -> expand_text (unexpand_text s w all) w false = expand_text s w false.
Proof.
  intros Hw. rewrite unexpand_text_lines, !expand_text_lines, split_nl_join.
  - f_equal. rewrite <- list_fmap_compose. apply list_fmap_ext. intros i l Hl. unfold compose.
    apply (unexpanded_columns w Hw _ (String.length l) l 0); lia.
  - pose proof (split_nl_cons s). by destruct (split_nl s).
  - apply Forall_fmap. eapply Forall_impl; [apply split_nl_no_nl|]. intros l Hl. unfold compose.
    apply (unexpanded_no_nl w _ (String.length l)); done || lia.
Qed.

(** Unexpand -a writes the shortest line there is with these columns: no line that expand turns
    into the same is shorter. *)
Theorem unexpand_shortest s t w : 0 < w -> expandLine t w false = expandLine s w false ->
  (String.length (unexpandLine s w true) <= String.length t)%nat.
Proof. intros Hw He. apply (unexpanded_shortest w Hw (String.length s) s t 0); done || lia. Qed.

(** ** Folded lines *)

Section Folds.
Context {A : Type}.
Variable advance : Z -> A -> Z.
Variable is_space : A -> bool.
Variable width : Z.
Hypothesis advance_pos : forall pos x, 0 <= pos -> 0 < advance pos x.

Notation break_line := (break_line advance is_space width).
Notation fold_pieces := (fold_pieces advance is_space width).

(** The columns of a piece. *)
Fixpoint columns (pos : Z) (l : list A) : Z := match l with [] => pos | x :: l => columns (pos + advance pos x) l end.

Lemma columns_ge l : forall pos, 0 <= pos -> pos <= columns pos l.
Proof.
  induction l as [|x l IH]; intros pos Hp; cbn [columns]; [lia|]. pose proof (advance_pos pos x Hp).
  specialize (IH (pos + advance pos x) ltac:(lia)). lia.
Qed.

Lemma columns_app l l' : forall pos, columns pos (l ++ l') = columns (columns pos l) l'.
Proof. clear advance_pos. induction l as [|x l IH]; intros pos; cbn [app columns]; [done|]. apply IH. Qed.

(** Where a line is too wide. *)
Lemma overflow_some l : forall pos i, 0 <= pos -> overflow_at advance width pos l = Some i ->
  exists p x q, l = p ++ x :: q /\ length p = i /\ width < columns pos (p ++ [x]) /\ (pos = 0 -> p <> []) /\
    (columns pos p <= Z.max pos width \/ exists y, p = [y] /\ pos = 0).
Proof.
  induction l as [|x l IH]; intros pos i Hp; cbn [overflow_at]; [done|]. pose proof (advance_pos pos x Hp) as Ha.
  destruct ((width <? pos + advance pos x) && (0 <? pos)) eqn:E.
  - intros H. injection H as <-. apply andb_true_iff in E as [E1 E2]. exists [], x, l. cbn [app columns length].
    repeat split; [lia|lia|left; lia].
  - intros H. apply fmap_Some in H as (j & H & ->). destruct (IH (pos + advance pos x) j ltac:(lia) H) as (p & y & q & -> & Hj & Hw & _ & Hn).
    exists (x :: p), y, q. cbn [app columns length]. split; [done|]. split; [by rewrite Hj|]. split; [done|]. split; [done|].
    destruct Hn as [Hn|(z & _ & Hz)]; [|lia]. apply andb_false_iff in E as [E|E].
    + left. apply Z.ltb_ge in E. lia.
    + apply Z.ltb_ge in E. assert (pos = 0) as -> by lia. destruct p as [|z p]; [by right; exists x|]. left.
      cbn [columns] in *. pose proof (advance_pos (0 + advance 0 x) z ltac:(lia)).
      pose proof (columns_ge p (0 + advance 0 x + advance (0 + advance 0 x) z) ltac:(lia)). lia.
Qed.

Lemma overflow_none l : forall pos, 0 <= pos -> overflow_at advance width pos l = None ->
  columns pos l <= Z.max pos width \/ exists y, l = [y] /\ pos = 0.
Proof.
  induction l as [|x l IH]; intros pos Hp; cbn [overflow_at columns]; [lia|]. pose proof (advance_pos pos x Hp) as Ha.
  destruct ((width <? pos + advance pos x) && (0 <? pos)) eqn:E; [done|]. intros H. apply fmap_None in H.
  destruct (IH (pos + advance pos x) ltac:(lia) H) as [Hn|(z & _ & Hz)]; [|lia]. apply andb_false_iff in E as [E|E].
  - left. apply Z.ltb_ge in E. lia.
  - apply Z.ltb_ge in E. assert (pos = 0) as -> by lia. destruct l as [|z l]; [by right; exists x|]. left.
    cbn [columns] in *. pose proof (advance_pos (0 + advance 0 x) z ltac:(lia)).
    pose proof (columns_ge l (0 + advance 0 x + advance (0 + advance 0 x) z) ltac:(lia)). lia.
Qed.

(** A piece that fits, or one character that is wider than the line. *)
Definition fits (p : list A) : Prop := columns 0 p <= Z.max 0 width \/ exists y, p = [y].

(** The piece before a break at the last space. *)
Lemma break_after_space_spec p : p <> [] -> let k := break_after_space is_space p in
  (0 < k <= length p)%nat /\
  ((k = length p /\ Forall (fun x => is_space x = false) p) \/
   exists u x v, p = u ++ x :: v /\ is_space x = true /\ Forall (fun x => is_space x = false) v /\ k = S (length u)).
Proof.
  clear advance_pos. intros Hp. unfold break_after_space. destruct (list_find _ (reverse p)) as [[j x]|] eqn:E.
  - apply list_find_Some in E as (Hj & Hx & Hlast). apply reverse_lookup_Some in Hj as [Hj Hlt]. split; [lia|]. right.
    exists (take (length p - S j) p), x, (drop (S (length p - S j)) p). rewrite take_drop_middle by done.
    split; [done|]. split; [done|]. rewrite length_take. split; [|lia]. apply Forall_lookup_2. intros m y Hy.
    rewrite lookup_drop in Hy. apply lookup_lt_Some in Hy as Hm. apply not_true_is_false.
    apply (Hlast (length p - S (S (length p - S j) + m))%nat); [|lia]. apply reverse_lookup_Some. split; [|lia].
    rewrite <- Hy. f_equal. lia.
  - split; [destruct p; [done|simpl; lia]|]. left. split; [done|]. apply list_find_None in E.
    rewrite <- (reverse_involutive p). apply Forall_reverse. eapply Forall_impl; [exact E|]. intros x Hx. by apply not_true_is_false.
Qed.

Lemma fits_prefix u v : fits (u ++ v) -> fits u.
Proof.
  intros [H|[y H]].
  - left. rewrite columns_app in H. pose proof (columns_ge u 0 ltac:(lia)). pose proof (columns_ge v (columns 0 u) ltac:(lia)). lia.
  - destruct u as [|x u]; [left; simpl; lia|]. right. injection H as -> H. apply app_eq_nil in H as [-> _]. by exists y.
Qed.

(** Lines folded as they should be: a piece is what fits; with -s, of what fits all up to the last space
    if there is one, and a space at the start of the rest is dropped. *)
Definition ends_in_space (p : list A) : Prop := exists u x, p = u ++ [x] /\ is_space x = true.

Definition cut_at (sb : bool) (p q : list A) : Prop :=
  if sb then Forall (fun x => is_space x = false) q /\ (ends_in_space p \/ (q = [] /\ Forall (fun x => is_space x = false) p))
  else q = [].

Definition drop_space (sb : bool) (l : list A) : list A :=
  match l with x :: l' => if sb && is_space x then l' else l | [] => [] end.

Inductive folded (sb : bool) : list A -> list (list A) -> Prop :=
| folded_last l : fits l -> folded sb l [l]
| folded_cut p q x l ps : p <> [] -> fits (p ++ q) -> width < columns 0 (p ++ q ++ [x]) -> cut_at sb p q ->
    folded sb (drop_space sb (q ++ x :: l)) ps -> folded sb (p ++ q ++ x :: l) (p :: ps).

Lemma break_line_spec sb l : match break_line sb l with
  | None => fits l
  | Some (p, rest) => exists q x l', l = p ++ q ++ x :: l' /\ rest = drop_space sb (q ++ x :: l') /\
      p <> [] /\ fits (p ++ q) /\ width < columns 0 (p ++ q ++ [x]) /\ cut_at sb p q
  end.
Proof.
  unfold Columns.break_line. destruct (overflow_at advance width 0 l) as [i|] eqn:E; cbn [mbind option_bind].
  2:{ destruct (overflow_none l 0 ltac:(lia) E) as [H|(y & H & _)]; [by left|right; eauto]. }
  destruct (overflow_some l 0 i ltac:(lia) E) as (p & x & l' & -> & <- & Hw & Hp & Hf). specialize (Hp eq_refl).
  assert (Hfit : fits p) by (destruct Hf as [H|(y & H & _)]; [by left|right; eauto]).
  rewrite take_app_length. destruct sb.
  - destruct (break_after_space_spec p Hp) as [Hk Hcase]. set (k := break_after_space is_space p) in *.
    exists (drop k p), x, l'. rewrite take_app_le, drop_app_le by lia. rewrite app_assoc, (app_assoc _ _ [x]), take_drop.
    split; [done|]. split; [done|]. split; [intros H; apply (f_equal length) in H; rewrite length_take in H; simpl in H; lia|].
    split; [done|]. split; [done|]. destruct Hcase as [[Hk' Hn]|(u & y & v & Hu & Hy & Hv & Hk')]; rewrite Hk'.
    + rewrite drop_all, take_ge by lia. split; [constructor|]. by right.
    + assert (Hs : S (length u) = length (u ++ [y])) by (rewrite length_app; simpl; lia).
      assert (Hp' : p = (u ++ [y]) ++ v) by (rewrite Hu, <- app_assoc; done).
      rewrite Hp', Hs, drop_app_length, take_app_length. split; [done|]. left. by exists u, y.
  - exists [], x, l'. rewrite take_app_length, drop_app_length, app_nil_l, app_nil_r.
    by repeat split.
Qed.

(** The fuel is enough. *)
Lemma fold_pieces_folded sb n : forall l, (length l <= n)%nat -> folded sb l (fold_pieces sb n l).
Proof.
  induction n as [|n IH]; intros l Hn; cbn [Columns.fold_pieces].
  - destruct l; [|simpl in Hn; lia]. constructor. left. simpl. lia.
  - pose proof (break_line_spec sb l) as H. destruct (break_line sb l) as [[p rest]|]; [|by constructor].
    destruct H as (q & x & l' & -> & -> & Hp & Hf & Hw & Hc). constructor; try done. apply IH.
    assert (H : (length (drop_space sb (q ++ x :: l')) <= length (q ++ x :: l'))%nat).
    { unfold drop_space. destruct (q ++ x :: l') as [|y t]; [done|]. destruct (sb && is_space y); simpl; lia. }
    rewrite length_app in Hn. destruct p; [done|]. simpl in Hn. lia.
Qed.

Lemma folded_fits sb l ps : folded sb l ps -> Forall fits ps.
Proof. induction 1; constructor; try done. by eapply fits_prefix. Qed.

Lemma folded_concat l ps : folded false l ps -> concat ps = l.
Proof.
  induction 1 as [l H|p q x l ps Hp Hf Hw Hc _ IH]; [apply app_nil_r|]. cbn [concat]. rewrite IH. cbn in Hc. subst q. done.
Qed.
End Folds.

Lemma rune_advance_pos pos r : 0 <= pos -> 0 < rune_advance pos r.
Proof. intros Hp. unfold rune_advance. pose proof (Z.rem_bound_pos pos 8 Hp ltac:(lia)). destruct (r =? 9); lia. Qed.

(** What is true of the elements of a line is true of those of its pieces. *)
Lemma folded_Forall {A} (adv : Z -> A -> Z) sp w (P : A -> Prop) sb l ps :
  folded adv sp w sb l ps -> Forall P l -> Forall (Forall P) ps.
Proof.
  induction 1 as [l H|p q x l ps Hp Hf Hw Hc _ IH]; intros Hl; [by constructor|].
  apply Forall_app in Hl as [Hl1 Hl2]. constructor; [done|]. apply IH. unfold drop_space.
  destruct (q ++ x :: l) as [|y t]; [done|]. destruct (sb && sp y); [by inversion_clear Hl2|done].
Qed.

Lemma folded_cons {A} (adv : Z -> A -> Z) sp w sb l ps : folded adv sp w sb l ps -> ps <> [].
Proof. by destruct 1. Qed.

(** ** The lines that fold writes *)

Lemma fold_runes_pieces line width sb : no_nl line = true -> 0 < width -> exists ps,
  folded rune_advance (fun r => r =? 32) width sb (runes line) ps /\
  foldLineRunes line width sb = join_with nl (string_of_runes <$> ps) /\
  split_nl (foldLineRunes line width sb) = string_of_runes <$> ps /\ Forall (Forall (fun r => valid_rune r = true)) ps.
Proof.
  intros Hl Hw. eexists. unfold foldLineRunes.
  pose proof (fold_pieces_folded rune_advance (fun r => r =? 32) width rune_advance_pos sb (length (runes line)) (runes line) ltac:(lia)) as Hf.
  split; [exact Hf|]. split; [done|].
  assert (Hr : Forall (fun r => valid_rune r = true /\ r <> 10) (runes line)) by (apply Forall_and; split; [apply runes_valid|by apply runes_no_nl]).
  pose proof (folded_Forall _ _ _ _ _ _ _ Hf Hr) as Hps. split.
  - apply split_nl_join; [apply folded_cons in Hf; by destruct (fold_pieces _ _ _ _ _ _)|]. apply Forall_fmap.
    eapply Forall_impl; [exact Hps|]. intros p Hp. by apply string_of_runes_no_nl.
  - eapply Forall_impl; [exact Hps|]. intros p Hp. eapply Forall_impl; [exact Hp|]. by intros r [? _].
Qed.

(** C35: a line is folded as it should be, counting columns: every line that is written is as much of the
    line as fits - with -s, of that all up to the last space if there is one, and a space at the start
    of what is left is dropped - until the rest fits. *)
Theorem fold_line_spec line width sb : line <> "" -> no_nl line = true -> 0 < width ->
  folded rune_advance (fun r => r =? 32) width sb (runes line) (runes <$> split_nl (foldLine line width false sb)).
Proof.
  intros Hne Hl Hw. destruct (fold_runes_pieces line width sb Hl Hw) as (ps & Hf & _ & Hs & Hv). unfold foldLine.
  destruct (line =s? "") eqn:E; [by apply String.eqb_eq in E|]. destruct (Z.leb_spec width 0); [lia|]. rewrite Hs.
  rewrite <- list_fmap_compose. enough (runes ∘ string_of_runes <$> ps = ps) as -> by done.
  clear Hf Hs. induction Hv as [|p ps Hp Hv IH]; [done|]. cbn [fmap list_fmap compose]. f_equal; [by apply runes_string_of_runes|exact IH].
Qed.

Lemma fold_bytes_pieces line width sb : no_nl line = true -> 0 < width -> exists ps,
  folded (fun _ _ => 1) (fun c => c =c? " ") width sb (String.list_ascii_of_string line) ps /\
  foldLineBytes line width sb = join_with nl (String.string_of_list_ascii <$> ps).
Proof.
  intros Hl Hw. eexists. split; [|reflexivity]. apply fold_pieces_folded; [lia|done].
Qed.

Lemma sconcat_runes ps : sconcat (string_of_runes <$> ps) = string_of_runes (concat ps).
Proof. induction ps as [|p ps IH]; [done|]. rewrite fmap_cons, sconcat_cons. cbn [concat]. by rewrite string_of_runes_app, <- IH. Qed.

Lemma sconcat_bytes ps : sconcat (String.string_of_list_ascii <$> ps) = String.string_of_list_ascii (concat ps).
Proof.
  induction ps as [|p ps IH]; [done|]. rewrite fmap_cons, sconcat_cons. cbn [concat]. rewrite IH. clear IH.
  induction p as [|c p IH]; [done|]. cbn [app String.string_of_list_ascii]. by rewrite sapp_cons, IH.
Qed.

(** Without -s the newlines are all that is added to a line. *)
Lemma fold_line_text line width b : no_nl line = true -> (b = true \/ utf8_text line = true) ->
  remove_char "010" (foldLine line width b false) = remove_char "010" line.
Proof.
  intros Hl Hb. unfold foldLine. destruct (line =s? "") eqn:E; [apply String.eqb_eq in E as ->; done|].
  destruct (Z.leb_spec width 0); [done|]. destruct b.
  - destruct (fold_bytes_pieces line width false Hl ltac:(lia)) as (ps & Hf & ->). apply folded_concat in Hf.
    rewrite remove_join, <- remove_sconcat, sconcat_bytes, Hf. by rewrite String.string_of_list_ascii_of_string.
  - destruct Hb as [|Hb]; [done|]. destruct (fold_runes_pieces line width false Hl ltac:(lia)) as (ps & Hf & -> & _). apply folded_concat in Hf.
    rewrite remove_join, <- remove_sconcat, sconcat_runes, Hf. by rewrite utf8_runes.
Qed.

Lemma Fold_lines data width b sb : Fold data width b sb = join_with nl ((fun l => foldLine l width b sb) <$> split_nl data).
Proof.
  unfold Fold. destruct (data =s? "") eqn:E; [apply String.eqb_eq in E as ->; done|].
  by apply (map_text_lines (fun l => foldLine l width b sb)).
Qed.

(** Without -s fold changes nothing but newlines, whatever the width: of bytes with -b, of UTF-8
    text without. *)
Theorem fold_inserts_newlines data width b : b = true \/ Forall (fun l => utf8_text l = true) (split_nl data) ->
  remove_char "010" (Fold data width b false) = remove_char "010" data.
Proof.
  intros Hb. rewrite Fold_lines, remove_join. rewrite <- (join_split data) at 2. rewrite remove_join, <- list_fmap_compose. f_equal.
  apply list_fmap_ext. intros i l Hl. apply list_elem_of_lookup_2 in Hl. apply fold_line_text.
  - pose proof (split_nl_no_nl data) as H. rewrite Forall_forall in H. by apply H.
  - destruct Hb as [Hb|Hb]; [by left|]. right. rewrite Forall_forall in Hb. by apply Hb.
Qed.

(** ** Examples *)

Lemma expand_unexpand_witness :
  let s := "a       b" +:+ tab +:+ " c" +:+ nl +:+ "        d" +:+ nl in
  0 < 4 /\ unexpand_text s 4 true = "a" +:+ tab +:+ tab +:+ "b" +:+ tab +:+ " c" +:+ nl +:+ tab +:+ tab +:+ "d" +:+ nl /\
  expand_text (unexpand_text s 4 true) 4 false = expand_text s 4 false.
Proof. cbv zeta. split; [lia|]. split; [by vm_compute|]. apply (expand_unexpand _ 4 true). lia. Defined.

Lemma unexpand_shortest_witness :
  let s := "a       b  c" in let t := "a" +:+ tab +:+ "    b  c" in
  0 < 4 /\ expandLine t 4 false = expandLine s 4 false /\ (String.length (unexpandLine s 4 true) <= String.length t)%nat.
Proof.
  cbv zeta. assert (H : expandLine ("a" +:+ tab +:+ "    b  c") 4 false = expandLine "a       b  c" 4 false) by (by vm_compute).
  split; [lia|]. split; [exact H|]. apply (unexpand_shortest _ _ 4); [lia|exact H].
Defined.

Lemma fold_line_spec_witness :
  let s := "to be or not to be" in
  split_nl (foldLine s 6 false true) = ["to be "; "or "; "not "; "to be"] /\
  folded rune_advance (fun r => r =? 32) 6 true (runes s) (runes <$> split_nl (foldLine s 6 false true)).
Proof. cbv zeta. split; [by vm_compute|]. apply fold_line_spec; [done|done|lia]. Defined.

Lemma fold_inserts_newlines_witness :
  let s := "one two" +:+ nl +:+ "three" +:+ nl in
  Fold s 4 true false = "one " +:+ nl +:+ "two" +:+ nl +:+ "thre" +:+ nl +:+ "e" +:+ nl /\
  remove_char "010" (Fold s 4 true false) = remove_char "010" s.
Proof. cbv zeta. split; [by vm_compute|]. apply fold_inserts_newlines. by left. Defined.

(** fold -s deletes the space at a break that falls on it. *)
Example fold_deletes_a_space : Fold ("ab cd" +:+ nl) 2 false true = "ab" +:+ nl +:+ "cd" +:+ nl.
Proof. vm_compute. reflexivity. Qed.

(** Without -b a byte that starts no rune becomes the three bytes of U+FFFD, even in a line that fits. *)
Example fold_replaces_bytes :
  Fold (String "233" nl) 80 false false = String "239" (String "191" (String "189" nl)).
Proof. vm_compute. reflexivity. Qed.

(** A tab in the middle of a line is converted only together with the blanks around it; a byte from 0x80
    on makes unexpand convert all blanks of its line. *)
Example unexpand_without_a :
  unexpandLine ("a       b") 8 false = "a       b" /\
  unexpandLine ("a  " +:+ tab +:+ "b") 8 false = "a" +:+ tab +:+ "b" /\
  unexpandLine ("a       " +:+ String "195" (String "169" "")) 8 false = "a" +:+ tab +:+ String "195" (String "169" "").
Proof. vm_compute. repeat split; reflexivity. Qed.

(** expand leaves out an operand that does not exist, without a message, and reads "-" as a file name. *)
Example expand_ignores_operands :
  expandRun "" false false ["nofile"; "-"] "text" empty = {| rc := 0; out := [CText ""]; errs := [] |}.
Proof. vm_compute. reflexivity. Qed.
