(* ===== verification/Count.v ===== *)
(** wc: pkg/wc/wc.go.

    The input is read through a buffer: a rune that could go on after the end of the buffer is left for
    the next round, unless the buffer ends with the input. *)

From S2P Require Import Prelude GoStd Utf8 Output.

Local Open Scope Z_scope.

Record WcResult := { Lines : Z; Words : Z; Bytes : Z; Chars : Z; MaxLineLength : Z }.

(** The variables of [CountProper]. *)
Record wc_state := { res : WcResult; inWord : bool; curLineLen : Z }.

Definition wc_zero : WcResult := {| Lines := 0; Words := 0; Bytes := 0; Chars := 0; MaxLineLength := 0 |}.
Definition wc_start : wc_state := {| res := wc_zero; inWord := false; curLineLen := 0 |}.

(** A newline of [size] bytes. *)
Definition count_newline (size : nat) (st : wc_state) : wc_state :=
  let r := res st in
  {| res := {| Lines := Lines r + 1; Words := Words r; Bytes := Bytes r + Z.of_nat size; Chars := Chars r + 1;
               MaxLineLength := if MaxLineLength r <? curLineLen st then curLineLen st else MaxLineLength r |};
     inWord := false; curLineLen := 0 |}.

(** Another character of [size] bytes. *)
Definition count_char (size : nat) (isSpace : bool) (st : wc_state) : wc_state :=
  let r := res st in
  {| res := {| Lines := Lines r; Words := if negb isSpace && negb (inWord st) then Words r + 1 else Words r;
               Bytes := Bytes r + Z.of_nat size; Chars := Chars r + 1; MaxLineLength := MaxLineLength r |};
     inWord := negb isSpace; curLineLen := curLineLen st + 1 |}.

(** The white space of the fast path. *)
Definition ascii_space (c : ascii) : bool :=
  (c =c? " "%char) || (code c =? 9) || (code c =? 13) || (code c =? 12) || (code c =? 11).

(** The loop over a buffer: the state, and the bytes that are not discarded.  [eof]: the buffer ends with
    the input.  The fuel is the length of the buffer. *)
Fixpoint count_buffer (fuel : nat) (eof : bool) (buf : string) (st : wc_state) : wc_state * string :=
  match fuel, buf with
  | S fuel, String c rest =>
      if code c <? 0x80 then
        if code c =? 10 then count_buffer fuel eof rest (count_newline 1 st)
        else count_buffer fuel eof rest (count_char 1 (ascii_space c) st)
      else if (String.length buf <? 4)%nat && negb eof then (st, buf)
      else
        let '(rn, size) := DecodeRune buf in
        if rn =? 10 then count_buffer fuel eof (str_drop size buf) (count_newline size st)
        else count_buffer fuel eof (str_drop size buf) (count_char size (IsSpace rn) st)
  | _, _ => (st, buf)
  end.

(** What is read: a text, and the error that reading on gives if it is not the end. *)
Record source := { text : string; failure : option string }.

(** What [Peek] tells beside the bytes. *)
Inductive peek_error := PNone | PEOF | PFull | PFailed (msg : string).

(** [bufio.Reader.Peek(want)] of a reader with a buffer of [buffer] bytes: it never gives more than the buffer holds, and reports a
    buffer that is too small also at the end of the input. *)
Definition Peek (want buffer : nat) (r : source) : string * peek_error :=
  if (buffer <? want)%nat then (str_take buffer (text r), PFull)
  else
    (str_take want (text r),
     if (String.length (text r) <? want)%nat then match failure r with None => PEOF | Some m => PFailed m end else PNone).

Definition discard (n : nat) (r : source) : source := {| text := str_drop n (text r); failure := failure r |}.

Definition is_eof (e : peek_error) : bool := match e with PEOF => true | _ => false end.

Definition buffer_full : string := "bufio: buffer full".

(** The loop over the input; [None] is running out of fuel, [Err] an error of the reader. *)
Fixpoint count_input (fuel want buffer : nat) (r : source) (st : wc_state) : option (result string wc_state) :=
  match fuel with
  | O => None
  | S fuel =>
      let '(buf, err) := Peek want buffer r in
      if buf =s? "" then
        match err with
        | PEOF => Some (Ok st)
        | PFull => Some (Err buffer_full)
        | PFailed m => Some (Err m)
        | PNone => count_input fuel want buffer r st
        end
      else
        let '(st, rest) := count_buffer (String.length buf) (is_eof err) buf st in
        count_input fuel want buffer (discard (String.length buf - String.length rest) r) st
  end.

(** The longest line, the last one included. *)
Definition count_end (st : wc_state) : WcResult :=
  let r := res st in
  {| Lines := Lines r; Words := Words r; Bytes := Bytes r; Chars := Chars r;
     MaxLineLength := if MaxLineLength r <? curLineLen st then curLineLen st else MaxLineLength r |}.

Definition count_with (want buffer : nat) (r : source) : option (result string WcResult) :=
  (fun o => match o with Ok st => Ok (count_end st) | Err e => Err e end) <$> count_input (S (String.length (text r))) want buffer r wc_start.

Definition buffer_size : nat := Z.to_nat (64 * 1024).

(** [bufio]: the size of the buffer of a reader that is a [bufio.Reader] already; another one gets a buffer of 64 KiB. *)
Definition CountProper (bufio : option nat) (r : source) : option (result string WcResult) :=
  count_with buffer_size (default buffer_size bufio) r.

(** The columns that are shown. *)
Record wc_columns := { showLines : bool; showWords : bool; showBytes : bool; showChars : bool; showMaxLine : bool }.

Definition default_columns (c : wc_columns) : wc_columns :=
  if negb (showLines c) && negb (showWords c) && negb (showBytes c) && negb (showChars c) && negb (showMaxLine c) then
    {| showLines := true; showWords := true; showBytes := true; showChars := false; showMaxLine := false |}
  else c.

Definition column (n : Z) : string := " " +:+ FormatInt n.

Definition count_line (r : WcResult) (name : string) (c : wc_columns) : string :=
  (if showMaxLine c then column (MaxLineLength r) else "") +:+
  (if showLines c then column (Lines r) else "") +:+
  (if showWords c then column (Words r) else "") +:+
  (if showChars c then column (Chars r) else if showBytes c then column (Bytes r) else "") +:+
  (if name =s? "-" then "" else " " +:+ name).

(** What a run reports as data: one result, or one for each operand. *)
Inductive wc_data := WcOne (r : WcResult) | WcMany (m : gmap string WcResult).

Definition printCount (r : WcResult) (name : string) (c : wc_columns) : list (chunk wc_data) :=
  let l := count_line r name c in if l =s? "" then [] else [line (str_drop 1 l)].

Definition add_counts (t r : WcResult) : WcResult :=
  {| Lines := Lines t + Lines r; Words := Words t + Words r; Bytes := Bytes t + Bytes r; Chars := Chars t + Chars r;
     MaxLineLength := MaxLineLength t |}.

(** The variables of [run]. *)
Record wc_run := {
  total : WcResult; jsonResults : gmap string WcResult; exitCode : Z; printed : list (chunk wc_data);
  complaints : list (chunk wc_data); stdin_left : source
}.

Section Run.
Variable open_error : string -> string.
Variable files : gmap string source.
Variable jsonMode : bool.
Variable columns : wc_columns.

Definition complain (p msg : string) (st : wc_run) : wc_run :=
  {| total := total st; jsonResults := jsonResults st; exitCode := 1; printed := printed st;
     complaints := complaints st ++ [line ("wc: " +:+ p +:+ ": " +:+ msg)]; stdin_left := stdin_left st |}.

Definition read_stdin (p : string) (st : wc_run) : wc_run :=
  if p =s? "-" then
    {| total := total st; jsonResults := jsonResults st; exitCode := exitCode st; printed := printed st; complaints := complaints st;
       stdin_left := {| text := ""; failure := failure (stdin_left st) |} |}
  else st.

(** An operand. *)
Definition count_operand (st : wc_run) (p : string) : option wc_run :=
  match (if p =s? "-" then Some (stdin_left st) else files !! p) with
  | None => Some (complain p (open_error p) st)
  | Some input =>
      r ← CountProper None input;
      let st := read_stdin p st in
      match r with
      | Err e => Some (complain p e st)
      | Ok r =>
          Some {| total := add_counts (total st) r;
                  jsonResults := if jsonMode then <[p := r]> (jsonResults st) else jsonResults st;
                  exitCode := exitCode st;
                  printed := if jsonMode then printed st else printed st ++ printCount r p columns;
                  complaints := complaints st; stdin_left := stdin_left st |}
      end
  end.

Fixpoint count_operands (st : wc_run) (paths : list string) : option wc_run :=
  match paths with [] => Some st | p :: paths => st ← count_operand st p; count_operands st paths end.

(** [run] after the options. *)
Definition wcRun (paths : list string) (stdin : source) : option (run_io wc_data) :=
  let paths := match paths with [] => ["-"] | _ => paths end in
  st ← count_operands {| total := wc_zero; jsonResults := empty; exitCode := 0; printed := []; complaints := []; stdin_left := stdin |} paths;
  let several := (1 <? length paths)%nat in
  let results := if several && jsonMode then <["total" := total st]> (jsonResults st) else jsonResults st in
  Some {| rc := exitCode st;
          out :=
            printed st ++ (if several && negb jsonMode then printCount (total st) "total" columns else []) ++
            (if jsonMode then
               if negb (exitCode st =? 0) then RenderError "wc" (exitCode st) "IO" "one or more files could not be read" true
               else if (length paths =? 1)%nat then Render "wc" (WcOne (default wc_zero (results !! hd "" paths))) true []
               else Render "wc" (WcMany results) true []
             else []);
          errs := complaints st |}.
End Run.
