(* ===== verification/CountLaws.v ===== *)
(** Laws of wc: its counts are those of the whole input, whatever the buffer. *)

From S2P Require Import Prelude GoStd Scanner Lines Utf8 Utf8Laws Output Count.

Local Open Scope Z_scope.

(** ** The loop without a buffer *)

Definition count_rune (r : Z) (size : nat) (st : wc_state) : wc_state :=
  if r =? 10 then count_newline size st else count_char size (IsSpace r) st.

Definition walk (s : string) (st : wc_state) : wc_state := fst (count_buffer (String.length s) true s st).

Lemma ascii_space_spec c : code c <? 0x80 = true -> code c =? 10 = false -> ascii_space c = IsSpace (code c).
Proof. destruct c as [[][][][][][][][]]; vm_compute; congruence. Qed.

Lemma DecodeRune_take p s : (4 <= p)%nat \/ (String.length s <= p)%nat -> DecodeRune (str_take p s) = DecodeRune s.
Proof.
  intros Hp. destruct (decide (String.length s <= p)%nat) as [Hl|Hl]; [by rewrite str_take_ge|].
  destruct p as [|[|[|[|p]]]]; try lia. destruct s as [|c [|c1 [|c2 [|c3 s]]]]; simpl in Hl; try lia.
  cbn [str_take]. unfold DecodeRune. destruct (code c <? 0x80); [done|]. destruct (first_byte (code c)) as [[[n lo] hi]|]; [|done].
  destruct n as [|[|[|[|[|n]]]]]; done.
Qed.

(** One round of the loop over a buffer. *)
Lemma count_buffer_step f eof c s st : count_buffer (S f) eof (String c s) st =
  if negb (code c <? 0x80) && (String.length (String c s) <? 4)%nat && negb eof then (st, String c s)
  else let '(r, n) := DecodeRune (String c s) in count_buffer f eof (str_drop n (String c s)) (count_rune r n st).
Proof.
  cbn [count_buffer]. unfold count_rune. destruct (code c <? 0x80) eqn:E; cbn [negb andb].
  - rewrite DecodeRune_ascii by done. cbn [str_drop]. destruct (code c =? 10) eqn:E'; [done|]. by rewrite ascii_space_spec.
  - destruct (_ && _); [done|]. destruct (DecodeRune (String c s)) as [r n]. by destruct (r =? 10).
Qed.

Lemma count_buffer_fuel eof f1 : forall f2 s st, (String.length s <= f1)%nat -> (String.length s <= f2)%nat ->
  count_buffer f1 eof s st = count_buffer f2 eof s st.
Proof.
  induction f1 as [|f1 IH]; intros [|f2] [|c s] st H1 H2; try (simpl in H1, H2; lia); try done.
  rewrite !count_buffer_step. destruct (_ && _); [done|]. pose proof (DecodeRune_width c s) as Hw.
  destruct (DecodeRune (String c s)) as [r n]. cbn [snd] in Hw. simpl in Hw, H1, H2. apply IH; rewrite slength_drop; simpl; lia.
Qed.

Lemma walk_step c s st : walk (String c s) st =
  let '(r, n) := DecodeRune (String c s) in walk (str_drop n (String c s)) (count_rune r n st).
Proof.
  unfold walk. cbn [String.length]. rewrite count_buffer_step, andb_false_r. pose proof (DecodeRune_width c s) as Hw.
  destruct (DecodeRune (String c s)) as [r n]. cbn [snd] in Hw. simpl in Hw. f_equal. apply count_buffer_fuel; rewrite slength_drop; simpl; lia.
Qed.

(** A buffer is walked up to less than four bytes of its end; the rest of the input is walked from there. *)
Lemma count_buffer_walk f : forall input p st (eof := (String.length input <? p)%nat),
  (String.length (str_take p input) <= f)%nat ->
  let '(st', rest) := count_buffer f eof (str_take p input) st in
  exists k, (k + String.length rest = String.length (str_take p input))%nat /\ walk input st = walk (str_drop k input) st' /\
    ((eof = true /\ rest = "") \/ (eof = false /\ String.length rest < 4)%nat).
Proof.
  induction f as [|f IH]; intros input p st eof Hf.
  { destruct (str_take p input) as [|c s] eqn:E; [|simpl in Hf; lia]. exists 0%nat. split; [done|]. split; [done|]. destruct eof; [by left|right]. split; [done|simpl; lia]. }
  destruct (str_take p input) as [|c s] eqn:E.
  { exists 0%nat. split; [done|]. split; [done|]. destruct eof; [by left|right]. split; [done|simpl; lia]. }
  rewrite count_buffer_step. destruct (negb (code c <? 0x80) && _ && _) eqn:Hstop.
  - apply andb_true_iff in Hstop as [Hstop He]. apply andb_true_iff in Hstop as [_ Hl]. apply Nat.ltb_lt in Hl. apply negb_true_iff in He.
    exists 0%nat. split; [done|]. split; [done|]. by right.
  - assert (Hd : DecodeRune (String c s) = DecodeRune input).
    { destruct (code c <? 0x80) eqn:Hc.
      - destruct p as [|p]; [done|]. destruct input as [|d input]; [done|]. cbn [str_take] in E. injection E as <- _. by rewrite !DecodeRune_ascii.
      - rewrite <- E. apply DecodeRune_take. unfold eof in *. cbn [negb andb] in Hstop.
        apply (f_equal String.length) in E. rewrite slength_take_min in E. apply andb_false_iff in Hstop as [H|H].
        + apply Nat.ltb_ge in H. lia.
        + apply negb_false_iff, Nat.ltb_lt in H. lia. }
    pose proof (DecodeRune_width c s) as Hw. destruct input as [|d input]; [by destruct p|]. rewrite walk_step, <- Hd.
    destruct (DecodeRune (String c s)) as [r n]. cbn [snd] in Hw. rewrite <- E in *. rewrite str_drop_take. clear Hd Hstop.
    rewrite slength_take_min in Hw, Hf.
    assert (Heof : eof = (String.length (str_drop n (String d input)) <? p - n)%nat).
    { unfold eof. rewrite slength_drop. apply eq_true_iff_eq. rewrite !Nat.ltb_lt. lia. }
    specialize (IH (str_drop n (String d input)) (p - n)%nat (count_rune r n st)). cbv zeta in IH. rewrite <- Heof in IH.
    rewrite slength_take_min, slength_drop in IH. specialize (IH ltac:(lia)).
    destruct (count_buffer f eof _ _) as [st' rest]. destruct IH as (k & Hk & -> & Hr). exists (n + k)%nat.
    rewrite slength_take_min. split; [lia|]. by rewrite str_drop_drop.
Qed.

(** A source without an error. *)
Definition whole (s : string) : source := {| text := s; failure := None |}.

(** The buffered loop ends, and does what the loop without a buffer does. *)
Lemma count_input_walk want buffer : (4 <= want <= buffer)%nat -> forall f input st, (String.length input < f)%nat ->
  count_input f want buffer (whole input) st = Some (Ok (walk input st)).
Proof.
  intros [Hp Hb] f. induction f as [|f IH]; intros input st Hf; [lia|]. cbn [count_input]. unfold Peek. cbn [text whole failure].
  rewrite (proj2 (Nat.ltb_ge _ _) Hb).
  destruct (String.eqb_spec (str_take want input) "") as [E|E].
  - apply (f_equal String.length) in E. rewrite slength_take_min in E. destruct input as [|c input]; [|simpl in E; lia]. simpl.
    destruct want; [lia|done].
  - pose proof (count_buffer_walk (String.length (str_take want input)) input want st) as H. cbv zeta in H. specialize (H ltac:(lia)).
    assert (Heof : is_eof (if (String.length input <? want)%nat then PEOF else PNone) = (String.length input <? want)%nat) by (by destruct (_ <? _)%nat).
    rewrite Heof. clear Heof.
    destruct (count_buffer _ _ _ _) as [st' rest]. destruct H as (k & Hk & -> & Hr). replace (String.length (str_take want input) - String.length rest)%nat with k by lia.
    assert (0 < String.length (str_take want input))%nat by (destruct (str_take want input); [done|simpl; lia]).
    rewrite slength_take_min in *. apply (IH (str_drop k input)). rewrite slength_drop. destruct Hr as [[He ->]|[He Hr]]; [simpl in Hk; lia|].
    apply Nat.ltb_ge in He. lia.
Qed.

(** A buffer that is too small never gets to the end. *)
Lemma count_input_small want buffer f : (buffer < want)%nat -> forall r st, match count_input f want buffer r st with Some (Ok _) => False | _ => True end.
Proof.
  intros Hb. induction f as [|f IH]; intros r st; [done|]. cbn [count_input]. unfold Peek. rewrite (proj2 (Nat.ltb_lt _ _) Hb).
  destruct (_ =s? ""); [done|]. destruct (count_buffer _ _ _ _). apply IH.
Qed.

(** ** The counts of a text *)

Definition newlines (s : string) : nat := length (filter (fun c => code c = 10) (String.list_ascii_of_string s)).

Definition line_lengths (s : string) : list nat := (fun l => length (runes l)) <$> split_nl s.

Definition longest (l : list nat) : Z := foldr (fun n m => Z.max (Z.of_nat n) m) 0 l.

(** What wc promises: newlines, words, bytes, characters, and the characters of the longest line. *)
Definition counts_of (s : string) : WcResult :=
  {| Lines := Z.of_nat (newlines s); Words := Z.of_nat (length (Fields s)); Bytes := Z.of_nat (String.length s);
     Chars := Z.of_nat (length (runes s)); MaxLineLength := longest (line_lengths s) |}.

Lemma newlines_app s t : newlines (s +:+ t) = (newlines s + newlines t)%nat.
Proof.
  unfold newlines. induction s as [|c s IH]; [done|]. rewrite sapp_cons. cbn [String.list_ascii_of_string].
  rewrite !filter_cons. destruct (decide _); simpl; by rewrite IH.
Qed.

Lemma newlines_none s : no_nl s = true -> newlines s = 0%nat.
Proof.
  unfold no_nl, newlines. induction s as [|c s IH]; [done|]. cbn [str_forall String.list_ascii_of_string]. intros H.
  apply andb_true_iff in H as [Hc H]. apply negb_true_iff, Z.eqb_neq in Hc. rewrite filter_cons_False by done. by apply IH.
Qed.

(** A rune is a newline byte, or bytes without one. *)
Lemma decode_nl c s : let '(r, n) := DecodeRune (String c s) in
  (r = 10 /\ code c = 10 /\ n = 1%nat) \/ (r <> 10 /\ no_nl (str_take n (String c s)) = true).
Proof.
  destruct (high c) eqn:Hc.
  - pose proof (DecodeRune_bytes c s Hc) as Hb. destruct (DecodeRune (String c s)) as [r n] eqn:E. right. split.
    + intros ->. apply decoded_nl in E. unfold high in Hc. by rewrite E in Hc.
    + cbn [snd] in Hb. unfold no_nl. eapply str_forall_impl; [|exact Hb]. intros d Hd. unfold high in Hd.
      destruct (Z.eqb_spec (code d) 10) as [Ed|]; [by rewrite Ed in Hd|done].
  - rewrite DecodeRune_low by done. destruct (Z.eqb_spec (code c) 10) as [E|E]; [by left|]. right. split; [done|].
    unfold no_nl. simpl. destruct (Z.eqb_spec (code c) 10); done.
Qed.

Lemma split_nl_app l s : no_nl l = true -> split_nl (l +:+ s) = match split_nl s with h :: t => (l +:+ h) :: t | [] => [] end.
Proof.
  unfold no_nl. induction l as [|c l IH]; intros H; [rewrite sapp_nil_l; by destruct (split_nl s)|]. cbn [str_forall] in H.
  apply andb_true_iff in H as [Hc H]. apply negb_true_iff in Hc. rewrite sapp_cons. cbn [split_nl]. rewrite Hc, IH by done.
  pose proof (split_nl_cons s). by destruct (split_nl s).
Qed.

Lemma split_nl_span s : exists h t, split_nl s = h :: t /\ high_span h = high_span s.
Proof.
  induction s as [|c s (h & t & Hs & Hh)]; [by exists "", []|]. cbn [split_nl]. rewrite Hs. destruct (Z.eqb_spec (code c) 10) as [E|E].
  - exists "", (h :: t). split; [done|]. rewrite high_span_low; [done|]. unfold high. by rewrite E.
  - exists (String c h), t. split; [done|]. rewrite !high_span_cons. by rewrite Hh.
Qed.

Lemma line_lengths_step c s : let '(r, n) := DecodeRune (String c s) in
  line_lengths (String c s) =
    if r =? 10 then 0%nat :: line_lengths (str_drop n (String c s))
    else match line_lengths (str_drop n (String c s)) with h :: t => S h :: t | [] => [] end.
Proof.
  pose proof (decode_nl c s) as Hn. pose proof (decode_before c s) as Hd. pose proof (DecodeRune_width c s) as Hw.
  destruct (DecodeRune (String c s)) as [r n] eqn:E. cbn [snd] in Hw. unfold line_lengths. destruct Hn as [(-> & Hc & ->)|[Hr Hn]].
  - cbn [split_nl]. by rewrite Hc.
  - destruct (Z.eqb_spec r 10) as [|_]; [done|]. rewrite <- (str_take_drop n (String c s)) at 1. rewrite split_nl_app by done.
    destruct (split_nl_span (str_drop n (String c s))) as (h & t & Hs & Hh). rewrite Hs. cbn [fmap list_fmap]. f_equal.
    destruct (Hd h Hh) as [H1 (u & Hu & _)]. rewrite Hu in *. rewrite sapp_cons in *. rewrite runes_step, H1. cbn [fst snd length]. f_equal. f_equal. f_equal.
    rewrite <- sapp_cons, <- Hu. apply take_app_take. lia.
Qed.

Lemma fields_fuel f1 : forall f2 cur s, (String.length s <= f1)%nat -> (String.length s <= f2)%nat ->
  fields_from f1 cur s = fields_from f2 cur s.
Proof.
  induction f1 as [|f1 IH]; intros [|f2] cur [|c s] H1 H2; try (simpl in H1, H2; lia); try done.
  cbn [fields_from]. pose proof (DecodeRune_width c s) as Hw. destruct (DecodeRune (String c s)) as [r n]. cbn [snd] in Hw.
  simpl in Hw, H1, H2. destruct (IsSpace r); [f_equal|]; apply IH; rewrite slength_drop; simpl; lia.
Qed.

(** The words of a text after the part of a word. *)
Definition words_after (cur s : string) : Z := Z.of_nat (length (fields_from (String.length s) cur s)).

Lemma words_step cur c s : words_after cur (String c s) =
  let '(r, n) := DecodeRune (String c s) in
  if IsSpace r then (if cur =s? "" then 0 else 1) + words_after "" (str_drop n (String c s))
  else words_after (cur +:+ str_take n (String c s)) (str_drop n (String c s)).
Proof.
  unfold words_after. cbn [String.length fields_from]. pose proof (DecodeRune_width c s) as Hw.
  destruct (DecodeRune (String c s)) as [r n]. cbn [snd] in Hw. simpl in Hw.
  rewrite (fields_fuel (String.length s) (String.length (str_drop n (String c s)))) by (rewrite ?slength_drop; simpl; lia).
  rewrite (fields_fuel (String.length s) (String.length (str_drop n (String c s))) (_ +:+ _)) by (rewrite ?slength_drop; simpl; lia).
  destruct (IsSpace r); [|done]. rewrite length_app. destruct (cur =s? ""); simpl length; lia.
Qed.

Definition longest_after (len : Z) (l : list nat) : Z := match l with h :: t => Z.max (len + Z.of_nat h) (longest t) | [] => len end.

Lemma longest_cons n l : longest (n :: l) = Z.max (Z.of_nat n) (longest l).
Proof. done. Qed.

Lemma longest_nonneg l : 0 <= longest l.
Proof. induction l as [|n l IH]; simpl; lia. Qed.

(** What a walk adds to the counts. *)
Lemma walk_counts s : forall st cur, 0 <= curLineLen st -> 0 <= MaxLineLength (res st) -> inWord st = negb (cur =s? "") ->
  count_end (walk s st) =
  {| Lines := Lines (res st) + Z.of_nat (newlines s);
     Words := Words (res st) + words_after cur s - (if inWord st then 1 else 0);
     Bytes := Bytes (res st) + Z.of_nat (String.length s);
     Chars := Chars (res st) + Z.of_nat (length (runes s));
     MaxLineLength := Z.max (MaxLineLength (res st)) (longest_after (curLineLen st) (line_lengths s)) |}.
Proof.
  induction s as [|c s r n E IH] using rune_ind; intros st cur Hl Hm Hi.
  - unfold count_end, walk. cbn [count_buffer String.length fst]. unfold words_after. cbn [String.length fields_from line_lengths split_nl].
    change (newlines "") with 0%nat. change (length (runes "")) with 0%nat. change (line_lengths "") with [0%nat]. cbn [longest_after longest foldr].
    rewrite Hi. f_equal; [lia| |lia|lia|destruct (Z.ltb_spec (MaxLineLength (res st)) (curLineLen st)); lia].
    destruct (cur =s? ""); simpl; lia.
  - rewrite walk_step, words_step, E. pose proof (DecodeRune_width c s) as Hw. pose proof (decode_nl c s) as Hn.
    pose proof (line_lengths_step c s) as HL. rewrite E in *. cbn [snd] in Hw. rewrite runes_step, E. cbn [fst snd length].
    replace (newlines (String c s)) with (newlines (str_take n (String c s)) + newlines (str_drop n (String c s)))%nat
      by (rewrite <- newlines_app; by rewrite str_take_drop).
    assert (Hlen : Z.of_nat (String.length (String c s)) = Z.of_nat n + Z.of_nat (String.length (str_drop n (String c s)))) by (rewrite slength_drop; lia).
    rewrite Hlen, HL. clear Hlen HL. pose proof (split_nl_cons (str_drop n (String c s))) as Hne.
    destruct (line_lengths (str_drop n (String c s))) as [|h t] eqn:EL; [unfold line_lengths in EL; by destruct (split_nl _)|].
    unfold count_rune. destruct Hn as [(-> & Hc & ->)|[Hr Hn]].
    + cbn [Z.eqb Pos.eqb]. change (IsSpace 10) with true. cbv iota. rewrite (IH _ "") by (cbn [count_newline curLineLen inWord res MaxLineLength]; destruct (MaxLineLength (res st) <? curLineLen st); done || lia).
      cbn [count_newline res inWord curLineLen Lines Words Bytes Chars MaxLineLength]. unfold newlines at 2. cbn [str_take String.list_ascii_of_string].
      rewrite filter_cons_True by done. rewrite Hi. cbn [longest_after filter list_filter length]. rewrite longest_cons.
      f_equal; [lia|destruct (cur =s? ""); simpl; lia|lia|lia|destruct (Z.ltb_spec (MaxLineLength (res st)) (curLineLen st)); lia].
    + destruct (Z.eqb_spec r 10); [done|]. rewrite newlines_none by done. destruct (IsSpace r).
      * rewrite (IH _ "") by (simpl; done || lia).
        cbn [count_char res inWord curLineLen Lines Words Bytes Chars MaxLineLength negb andb longest_after]. rewrite Hi.
        f_equal; [destruct (cur =s? ""); simpl; lia|lia|lia|lia].
      * rewrite (IH _ (cur +:+ str_take n (String c s))); [|simpl; lia|simpl; lia|].
        2:{ destruct n as [|n]; [lia|]. cbn [str_take count_char inWord]. destruct cur; by rewrite ?sapp_cons. }
        cbn [count_char res inWord curLineLen Lines Words Bytes Chars MaxLineLength negb andb longest_after]. rewrite Hi.
        f_equal; [destruct (cur =s? ""); simpl; lia|lia|lia|lia].
Qed.

Lemma wc_counts_buffer want buffer s : (4 <= want <= buffer)%nat -> count_with want buffer (whole s) = Some (Ok (counts_of s)).
Proof.
  intros Hp. unfold count_with. cbn [text whole]. rewrite (count_input_walk want buffer Hp) by lia. cbn [fmap option_fmap option_map]. do 2 f_equal.
  rewrite (walk_counts s wc_start "") by done. unfold counts_of. cbn [wc_start res inWord curLineLen wc_zero Lines Words Bytes Chars MaxLineLength].
  f_equal; try lia; [unfold words_after, Fields; lia|]. pose proof (longest_nonneg (line_lengths s)).
  destruct (line_lengths s) as [|h t]; [done|]. rewrite longest_cons in *. cbn [longest_after]. lia.
Qed.

Lemma CountProper_counts s : CountProper None (whole s) = Some (Ok (counts_of s)).
Proof. apply (wc_counts_buffer buffer_size buffer_size). unfold buffer_size. lia. Qed.

(** C36: wc ends on every input that can be read to its end, and its counts are those of
    the whole text, wherever the ends of its 64 KiB of look-ahead fall: a character is not counted twice or as two.  So they are for a reader that
    has a buffer already if that is at least as large; with a smaller one there never is a result. *)
Theorem wc_counts bufio r : failure r = None ->
  match bufio with
  | Some n => (buffer_size <= n)%nat -> CountProper bufio r = Some (Ok (counts_of (text r)))
  | None => CountProper bufio r = Some (Ok (counts_of (text r)))
  end /\
  forall n, (n < buffer_size)%nat -> match CountProper (Some n) r with Some (Ok _) => False | _ => True end.
Proof.
  destruct r as [s fl]. intros Hf. cbn [failure] in Hf. subst fl. split.
  - destruct bufio as [n|]; [|apply CountProper_counts]. intros Hn. apply (wc_counts_buffer buffer_size n). unfold buffer_size in *. lia.
  - intros n Hn. unfold CountProper, count_with. cbn [default].
    pose proof (count_input_small buffer_size n (S (String.length s)) Hn {| text := s; failure := None |} wc_start) as H.
    cbn [text]. destruct (count_input _ _ _ _ _) as [[]|]; done.
Qed.

(** An e with an acute accent, of two bytes. *)
Definition acute : string := String "195" (String "169" "").

(** With a smaller buffer the end of the input is an error; a character of several bytes at the end is waited for for ever.  So it is before an error
    of the reader. *)
Theorem wc_small_buffer :
  CountProper (Some 16%nat) (whole "some words") = Some (Err buffer_full) /\
  (forall fuel st, count_input fuel buffer_size 16%nat (whole acute) st = None) /\
  CountProper None {| text := "some words"; failure := Some "input/output error" |} = Some (Err "input/output error") /\
  (forall fuel st, count_input fuel buffer_size buffer_size {| text := acute; failure := Some "input/output error" |} st = None).
Proof.
  split; [vm_compute; done|]. split; [|split; [vm_compute; done|]].
  - induction fuel as [|fuel IH]; intros st; [done|]. cbn [count_input].
    replace (Peek buffer_size 16%nat _) with (acute, PFull) by (vm_compute; done). apply IH.
  - induction fuel as [|fuel IH]; intros st; [done|]. cbn [count_input].
    replace (Peek buffer_size buffer_size _) with (acute, PFailed "input/output error") by (vm_compute; done). apply IH.
Qed.

(** ** The command *)

Section Command.
Variable open_error : string -> string.
Variable contents : gmap string string.
Variable columns : wc_columns.

Definition operand_line (p : string) : list (chunk wc_data) :=
  match contents !! p with Some s => printCount (counts_of s) p columns | None => [] end.

Definition operand_error (p : string) : list (chunk wc_data) :=
  match contents !! p with Some _ => [] | None => [line ("wc: " +:+ p +:+ ": " +:+ open_error p)] end.

Definition totals (paths : list string) : WcResult :=
  foldl (fun t p => match contents !! p with Some s => add_counts t (counts_of s) | None => t end) wc_zero paths.

Definition files : gmap string source := whole <$> contents.

Lemma count_operands_text paths : Forall (fun p => p <> "-") paths -> forall st,
  count_operands open_error files false columns st paths =
  Some {| total := foldl (fun t p => match contents !! p with Some s => add_counts t (counts_of s) | None => t end) (total st) paths;
          jsonResults := jsonResults st;
          exitCode := if bool_decide (Forall (fun p => is_Some (contents !! p)) paths) then exitCode st else 1;
          printed := printed st ++ concat (operand_line <$> paths);
          complaints := complaints st ++ concat (operand_error <$> paths); stdin_left := stdin_left st |}.
Proof.
  induction 1 as [|p paths Hp _ IH]; intros st; cbn [count_operands].
  - cbn [fmap list_fmap concat foldl]. rewrite !app_nil_r, bool_decide_true by constructor. by destruct st.
  - unfold count_operand. destruct (String.eqb_spec p "-") as [|_]; [done|]. cbn [fmap list_fmap concat foldl].
    unfold operand_line at 1, operand_error at 1. replace (files !! p) with (whole <$> contents !! p) by (unfold files; by rewrite lookup_fmap). destruct (contents !! p) as [s|] eqn:E.
    + cbn [fmap option_fmap option_map]. rewrite CountProper_counts. cbn [mbind option_bind]. unfold read_stdin. rewrite (proj2 (String.eqb_neq p "-") Hp). cbn [negb]. rewrite IH. f_equal. f_equal; [|cbn [printed]; by rewrite app_assoc_reverse].
      cbn [exitCode]. rewrite (bool_decide_ext (Forall _ (p :: paths)) (Forall (fun p => is_Some (contents !! p)) paths)); [done|].
      rewrite Forall_cons, E. split; [by intros [_ ?]|by split].
    + cbn [fmap option_fmap option_map mbind option_bind complain]. rewrite IH. f_equal. f_equal; [|unfold complain; cbn [complaints]; by rewrite app_assoc_reverse]. unfold complain; cbn [exitCode].
      rewrite (bool_decide_false (Forall _ (p :: paths))); [by destruct (bool_decide _)|]. rewrite Forall_cons, E. by intros [[] _].
Qed.

(** wc prints a line of counts for each operand that can be read, a message for each that cannot, and
    the sums if there are several operands; it fails exactly if an operand could not be read. *)
Theorem wc_command paths stdin : paths <> [] -> Forall (fun p => p <> "-") paths ->
  wcRun open_error files false columns paths stdin =
  Some {| rc := if bool_decide (Forall (fun p => is_Some (contents !! p)) paths) then 0 else 1;
          out := concat (operand_line <$> paths) ++
                 (if (1 <? length paths)%nat then printCount (totals paths) "total" columns else []);
          errs := concat (operand_error <$> paths) |}.
Proof.
  intros Hne Hp. unfold wcRun. destruct paths as [|p paths]; [done|]. rewrite count_operands_text by done. cbn [mbind option_bind].
  cbn [negb printed complaints exitCode total]. by destruct (1 <? length (p :: paths))%nat; rewrite ?app_nil_r.
Qed.
End Command.

(** ** Examples *)

Definition accents : string := "na" +:+ String "195" (String "175" "ve ") +:+ String "226" (String "128" (String "148" "")) +:+ " x" +:+ nl +:+ "ab".

Lemma wc_counts_witness :
  failure (whole accents) = None /\ counts_of accents = {| Lines := 1; Words := 4; Bytes := 15; Chars := 12; MaxLineLength := 9 |} /\
  CountProper None (whole accents) = Some (Ok (counts_of accents)) /\
  match CountProper (Some 16%nat) (whole accents) with Some (Ok _) => False | _ => True end.
Proof.
  split; [reflexivity|]. split; [by vm_compute|]. destruct (wc_counts None (whole accents) eq_refl) as [H1 H2].
  split; [exact H1|]. apply H2. apply Nat.ltb_lt. vm_compute. reflexivity.
Defined.

Lemma wc_command_witness :
  let contents := <["a" := "one two" +:+ nl]> (<["b" := "three" +:+ nl]> (empty : gmap string string)) in
  let columns := default_columns {| showLines := false; showWords := false; showBytes := false; showChars := false; showMaxLine := false |} in
  ["a"; "c"; "b"] <> [] /\ Forall (fun p => p <> "-") ["a"; "c"; "b"] /\
  wcRun (fun _ => "no such file") (whole <$> contents) false columns ["a"; "c"; "b"] (whole "") =
  Some {| rc := 1; out := [line "1 2 8 a"; line "1 1 6 b"; line "2 3 14 total"]; errs := [line "wc: c: no such file"] |}.
Proof.
  cbv zeta. assert (H : Forall (fun p => p <> "-") ["a"; "c"; "b"]) by (repeat constructor; discriminate).
  split; [discriminate|]. split; [exact H|]. rewrite (wc_command _ _ _ ["a"; "c"; "b"] (whole "") ltac:(discriminate) H). vm_compute. reflexivity.
Defined.

(** The total of -L is 0, not the longest line of all operands. *)
Example total_of_longest_lines :
  let contents := <["a" := "one two" +:+ nl]> (<["b" := "three" +:+ nl]> (empty : gmap string string)) in
  wcRun (fun _ => "") (whole <$> contents) false {| showLines := false; showWords := false; showBytes := false; showChars := false; showMaxLine := true |} ["a"; "b"] (whole "") =
  Some {| rc := 0; out := [line "7 a"; line "5 b"; line "0 total"]; errs := [] |}.
Proof. vm_compute. reflexivity. Qed.

(** With --json the entry of a file named total is the one of the sums. *)
Example total_replaces_a_file :
  let contents := <["total" := "one two" +:+ nl]> (empty : gmap string string) in
  let r := wcRun (fun _ => "") (whole <$> contents) true (default_columns {| showLines := false; showWords := false; showBytes := false; showChars := false; showMaxLine := false |}) ["total"; "total"] (whole "") in
  (fun r => out r) <$> r =
  Some (Render "wc" (WcMany {["total" := {| Lines := 2; Words := 4; Bytes := 16; Chars := 16; MaxLineLength := 0 |}]}) true []).
Proof. vm_compute. reflexivity. Qed.
