(* ===== verification/Select.v ===== *)
(** Parts of files: pkg/head/head.go and pkg/tail/tail.go. *)

From S2P Require Import Prelude GoStd Scanner Output.
From S2P Require Sort.

Local Open Scope Z_scope.

(** Both read lines with a [bufio.Scanner] of 10 MiB: the lines, and whether one is too long. *)
Definition scan_big (data : string) : list string * bool := Sort.scan_lines false data.

Definition too_long : string := "bufio.Scanner: token too long".

(** The first [n] bytes, and the others. *)
Definition take_bytes (n : Z) (s : string) : string := if Z.of_nat (String.length s) <=? n then s else str_take (Z.to_nat n) s.
Definition drop_bytes (n : Z) (s : string) : string := if Z.of_nat (String.length s) <=? n then "" else str_drop (Z.to_nat n) s.

(** What is selected of an input: the text that is written, the lines of the JSON result, and whether
    reading failed. *)
Record selection := { written : string; chosen : list string; failed : bool }.

Definition of_lines (ls : list string) (e : bool) : selection := {| written := text_of_lines ls; chosen := ls; failed := e |}.

(** * head *)

(** The loop of [Run]: it stops at the line after the last one that is wanted, or at the end. *)
Fixpoint head_loop (tokens : list string) (err : bool) (count linesCount : Z) : list string * bool :=
  match tokens with
  | [] => ([], err)
  | l :: tokens =>
      if linesCount <=? count then ([], false)
      else let '(ls, e) := head_loop tokens err (count + 1) linesCount in (l :: ls, e)
  end.

Definition head_Run (data : string) (linesCount : Z) : selection :=
  let '(tokens, err) := scan_big data in let '(ls, e) := head_loop tokens err 0 linesCount in of_lines ls e.

(** [runNegative]; [None] is an index out of range. *)
Definition runNegative (data : string) (skipLast : Z) : option selection :=
  let '(all, err) := scan_big data in
  if err then Some {| written := ""; chosen := all; failed := true |}
  else
    let limit := let l := wrap 64 (Z.of_nat (length all) - skipLast) in if l <? 0 then 0 else l in
    if Z.of_nat (length all) <? limit then None else Some (of_lines (take (Z.to_nat limit) all) false).

(** The largest size that [make] accepts. *)
Definition maxAlloc : Z := 2 ^ 48.

(** [runBytes]; [None] is the panic of [make]. *)
Definition runBytes (data : string) (n : Z) : option selection :=
  if maxAlloc <? n then None else Some {| written := take_bytes n data; chosen := []; failed := false |}.

(** What the options -c and -n ask for. *)
Inductive head_mode := HeadLines (n : Z) | HeadNegative (skipLast : Z) | HeadBytes (n : Z).

Definition parse_head (cStr nStr : string) : head_mode + string :=
  if negb (cStr =s? "") then
    match Atoi cStr with
    | Some n => if n <? 0 then inr ("head: illegal byte count -- " +:+ cStr) else inl (HeadBytes n)
    | None => inr ("head: illegal byte count -- " +:+ cStr)
    end
  else if negb (nStr =s? "") then
    if HasPrefix nStr "-" then
      match Atoi (str_drop 1 nStr) with Some n => inl (HeadNegative n) | None => inr ("head: illegal line count -- " +:+ nStr) end
    else
      match Atoi nStr with
      | Some n => if n <? 0 then inr ("head: illegal line count -- " +:+ nStr) else inl (HeadLines n)
      | None => inr ("head: illegal line count -- " +:+ nStr)
      end
  else inl (HeadLines 10).

Definition head_input (mode : head_mode) (data : string) : option selection :=
  match mode with
  | HeadLines n => Some (head_Run data n)
  | HeadNegative n => runNegative data n
  | HeadBytes n => runBytes data n
  end.

Record LinesCount := { SelLines : list string; LineCount : Z }.

Definition header (name : string) : string := "==> " +:+ name +:+ " <==".

Section Head.
Variable open_error : string -> string.
Variable files : gmap string string.
(** What a buffered reader leaves of the standard input. *)
Variable stdin_rest : string -> string.
Variable jsonMode : bool.

(** The inputs that can be opened, with their names, and the messages for the others. *)
Fixpoint head_inputs (paths : list string) : list (option string * string) * list (chunk LinesCount) :=
  match paths with
  | [] => ([], [])
  | path :: paths =>
      let '(inputs, errs) := head_inputs paths in
      if path =s? "-" then ((None, "standard input") :: inputs, errs)
      else
        match files !! path with
        | Some text => ((Some text, path) :: inputs, errs)
        | None => (inputs, line ("head: " +:+ path +:+ ": " +:+ open_error path) :: errs)
        end
  end.

(** The loop over the inputs: output, messages, and the lines of the JSON result. *)
Fixpoint head_loop_inputs (mode : head_mode) (several : bool) (i : nat) (stdin : string) (inputs : list (option string * string))
    : option (list (chunk LinesCount) * list (chunk LinesCount) * list string) :=
  match inputs with
  | [] => Some ([], [], [])
  | (text, name) :: inputs =>
      s ← head_input mode (default stdin text);
      let stdin := match text with
                   | Some _ => stdin
                   | None => match mode with HeadBytes n => drop_bytes n stdin | _ => stdin_rest stdin end
                   end in
      '(out, errs, ls) ← head_loop_inputs mode several (S i) stdin inputs;
      Some ((if several && negb jsonMode then (if (0 <? i)%nat then [CText nl] else []) ++ [line (header name)] else []) ++
            (if jsonMode then [] else [CText (written s)]) ++ out,
            (if failed s then [line ("head: " +:+ too_long)] else []) ++ errs,
            (if jsonMode then chosen s else []) ++ ls)
  end.

(** [headRun] after the options; [None] is a panic. *)
Definition headRun (cStr nStr : string) (paths : list string) (stdin : string) : option (run_io LinesCount) :=
  match parse_head cStr nStr with
  | inr msg => Some {| rc := 2; out := []; errs := [line msg] |}
  | inl mode =>
      let '(inputs, errs) := head_inputs (match paths with [] => ["-"] | _ => paths end) in
      '(out, errs', ls) ← head_loop_inputs mode (1 <? length inputs)%nat 0 stdin inputs;
      Some {| rc := if bool_decide (errs = []) && bool_decide (errs' = []) then 0 else 1;
              out := out ++ (if jsonMode then Render "head" {| SelLines := ls; LineCount := Z.of_nat (length ls) |} true [] else []);
              errs := errs ++ errs' |}
  end.
End Head.

(** * tail *)

(** The lines from a number on. *)
Fixpoint from_line (lineNum skip : Z) (tokens : list string) : list string :=
  match tokens with
  | [] => []
  | l :: tokens => if skip <=? lineNum then l :: from_line (lineNum + 1) skip tokens else from_line (lineNum + 1) skip tokens
  end.

(** The window of the last lines. *)
Definition slide (linesCount : Z) (window : list string) (l : string) : list string :=
  let window := window ++ [l] in if linesCount <? Z.of_nat (length window) then tl window else window.

Definition tail_Run (data : string) (linesCount bytesCount : Z) (fromStart : bool) : selection :=
  if 0 <? bytesCount then
    let data :=
      if fromStart then drop_bytes (let skip := bytesCount - 1 in if skip <? 0 then 0 else skip) data
      else
        let len := Z.of_nat (String.length data) in
        let bytesCount := if len <? bytesCount then len else bytesCount in drop_bytes (len - bytesCount) data in
    {| written := data; chosen := [data]; failed := false |}
  else
    let '(tokens, err) := scan_big data in
    if fromStart then of_lines (from_line 0 (let skip := linesCount - 1 in if skip <? 0 then 0 else skip) tokens) err
    else of_lines (foldl (slide linesCount) [] tokens) err.

(** The arguments, with -N turned into -n N wherever it stands. *)
Definition is_count (a : string) : bool :=
  match a with String c (String d _) => (c =c? "-"%char) && (48 <=? code d) && (code d <=? 57) | _ => false end.

Definition tail_args (args : list string) : list string :=
  a ← args; if is_count a then ["-n"; str_drop 1 a] else [a].

(** Lines, bytes, and whether they are counted from the start. *)
Definition parse_tail (cStr nStr : string) : (Z * Z * bool) + string :=
  if negb (cStr =s? "") then
    let '(fromStart, s) := if HasPrefix cStr "+" then (true, str_drop 1 cStr) else (false, cStr) in
    match Atoi s with
    | Some n => if n <? 0 then inr ("tail: illegal byte count -- " +:+ s) else inl (10, n, fromStart)
    | None => inr ("tail: illegal byte count -- " +:+ s)
    end
  else if negb (nStr =s? "") then
    let '(fromStart, s) := if HasPrefix nStr "+" then (true, str_drop 1 nStr) else (false, nStr) in
    match Atoi s with
    | Some n => if n <? 0 then inr ("tail: illegal line count -- " +:+ s) else inl (n, 0, fromStart)
    | None => inr ("tail: illegal line count -- " +:+ s)
    end
  else inl (10, 0, false).

(** A run that ends, or one that goes on waiting for more of a file. *)
Inductive tail_outcome := TailDone (io : run_io LinesCount) | TailFollows (path : string) (io : run_io LinesCount).

Section Tail.
Variable open_error : string -> string.
Variable files : gmap string string.
(** The standard input is the process's own. *)
Variable stdin_rest : string -> string.
Variables jsonMode follow : bool.
Variables (linesCount bytesCount : Z) (fromStart : bool).

Fixpoint tail_loop (several : bool) (i : nat) (stdin : string) (paths : list string) (io : run_io LinesCount) (allLines : list string)
    : tail_outcome * list string :=
  match paths with
  | [] => (TailDone io, allLines)
  | path :: paths =>
      let name := if path =s? "-" then "standard input" else path in
      let out1 := out io ++ (if several && negb jsonMode then (if (0 <? i)%nat then [CText nl] else []) ++ [line (header name)] else []) in
      match (if path =s? "-" then Some stdin else files !! path) with
      | None =>
          tail_loop several (S i) stdin paths
            {| rc := 1; out := out1; errs := errs io ++ [line ("tail: " +:+ path +:+ ": " +:+ open_error path)] |} allLines
      | Some data =>
          let s := tail_Run data linesCount bytesCount fromStart in
          let io := {| rc := if failed s then 1 else rc io; out := out1 ++ (if jsonMode then [] else [CText (written s)]);
                       errs := errs io ++ (if failed s then [line ("tail: " +:+ too_long)] else []) |} in
          let allLines := allLines ++ (if jsonMode then chosen s else []) in
          if follow && negb (path =s? "-") then (TailFollows path io, allLines)
          else
            tail_loop several (S i)
              (if path =s? "-" then (if 0 <? bytesCount then "" else stdin_rest stdin) else stdin) paths io allLines
      end
  end.
End Tail.

(** [run] after the options. *)
Definition tailRun (open_error : string -> string) (files : gmap string string) (stdin_rest : string -> string)
    (jsonMode follow : bool) (cStr nStr : string) (positional : list string) (os_stdin : string) : tail_outcome :=
  let '(nStr, positional) :=
    match positional with p :: ps => if HasPrefix p "+" then (p, ps) else (nStr, positional) | [] => (nStr, positional) end in
  match parse_tail cStr nStr with
  | inr msg => TailDone {| rc := 2; out := []; errs := [line msg] |}
  | inl (linesCount, bytesCount, fromStart) =>
      let readers := match positional with [] => ["-"] | _ => positional end in
      match tail_loop open_error files stdin_rest jsonMode follow linesCount bytesCount fromStart (1 <? length readers)%nat 0 os_stdin readers
              {| rc := 0; out := []; errs := [] |} [] with
      | (TailDone io, ls) =>
          TailDone {| rc := rc io;
                      out := out io ++ (if jsonMode then Render "tail" {| SelLines := ls; LineCount := Z.of_nat (length ls) |} true [] else []);
                      errs := errs io |}
      | (o, _) => o
      end
  end.
