(* ===== verification/SelectLaws.v ===== *)
(** Laws of head and tail: what one takes is what the other leaves. *)

From S2P Require Import Prelude GoStd Scanner Lines Output Select.
From Stdlib Require Import ZifyBool.

Local Open Scope Z_scope.

Lemma head_loop_spec tokens err k : forall count, 0 <= count <= k ->
  head_loop tokens err count k =
  (take (Z.to_nat (k - count)) tokens, if Z.of_nat (length tokens) <=? k - count then err else false).
Proof.
  induction tokens as [|l tokens IH]; intros count Hc; cbn [head_loop length].
  - rewrite take_nil. destruct (Z.leb_spec (Z.of_nat 0) (k - count)); [done|lia].
  - destruct (Z.leb_spec k count).
    + replace (k - count) with 0 by lia. cbn [Z.to_nat take]. destruct (Z.leb_spec (Z.of_nat (S (length tokens))) 0); [lia|done].
    + rewrite IH by lia. replace (Z.to_nat (k - count)) with (S (Z.to_nat (k - (count + 1)))) by lia. cbn [take]. do 2 f_equal.
      destruct (Z.leb_spec (Z.of_nat (length tokens)) (k - (count + 1))), (Z.leb_spec (Z.of_nat (S (length tokens))) (k - count)); lia || done.
Qed.

Lemma from_line_spec tokens skip : forall n, 0 <= n -> from_line n skip tokens = drop (Z.to_nat (skip - n)) tokens.
Proof.
  induction tokens as [|l tokens IH]; intros n Hn; cbn [from_line]; [by rewrite drop_nil|].
  rewrite IH by lia. destruct (Z.leb_spec skip n).
  - replace (Z.to_nat (skip - n)) with 0%nat by lia. replace (Z.to_nat (skip - (n + 1))) with 0%nat by lia. done.
  - replace (Z.to_nat (skip - n)) with (S (Z.to_nat (skip - (n + 1)))) by lia. done.
Qed.

(** The last [n] elements of a list. *)
Definition last_lines (n : Z) (ls : list string) : list string := drop (length ls - Z.to_nat n) ls.

(** The window holds the last lines read so far. *)
Lemma slide_last n ls l : 0 <= n -> slide n (last_lines n ls) l = last_lines n (ls ++ [l]).
Proof.
  intros Hn. unfold slide, last_lines. cbv zeta. rewrite !length_app, length_drop. cbn [length].
  destruct (Z.ltb_spec n (Z.of_nat (length ls - (length ls - Z.to_nat n) + 1))) as [H|H].
  - rewrite <- drop_app_le by lia. assert (Htl : forall x : list string, tl x = drop 1 x) by (by intros []). rewrite Htl, drop_drop. f_equal. lia.
  - rewrite <- drop_app_le by lia. f_equal. lia.
Qed.

Lemma window_last n ls : 0 <= n -> foldl (slide n) [] ls = last_lines n ls.
Proof.
  intros Hn. induction ls as [|l ls IH] using rev_ind; [done|]. rewrite foldl_app. cbn [foldl]. rewrite IH. by apply slide_last.
Qed.

Lemma text_app l1 l2 : text_of_lines l1 +:+ text_of_lines l2 = text_of_lines (l1 ++ l2).
Proof. unfold text_of_lines. by rewrite fmap_app, sconcat_app. Qed.

Lemma take_drop_bytes n s : take_bytes n s +:+ drop_bytes n s = s.
Proof. unfold take_bytes, drop_bytes. case_match; [by rewrite sapp_nil_r|apply str_take_drop]. Qed.

(** Head and tail divide the lines of an input: head -n k and tail -n +(k+1), and head -n -k and
    tail -n k, write every line once, in order; tail never keeps more than the lines it needs. *)
Theorem head_tail_lines data ls k : scan_big data = (ls, false) -> 0 <= k < 2 ^ 62 -> Z.of_nat (length ls) < 2 ^ 62 ->
  written (head_Run data k) +:+ written (tail_Run data (k + 1) 0 true) = text_of_lines ls /\
  (exists s, runNegative data k = Some s /\ written s +:+ written (tail_Run data k 0 false) = text_of_lines ls) /\
  (forall n, 0 <= n -> length (foldl (slide k) [] (take n ls)) <= Z.to_nat k)%nat.
Proof.
  intros Hs Hk Hl. unfold head_Run, tail_Run, runNegative. rewrite Hs. cbn [Z.ltb Z.compare]. split; [|split].
  - rewrite head_loop_spec, from_line_spec by lia. cbn [of_lines written]. destruct (Z.ltb_spec (k + 1 - 1) 0); [lia|].
    replace (k + 1 - 1 - 0) with (k - 0) by lia. by rewrite text_app, take_drop.
  - cbv zeta. rewrite window_last by lia. assert (Hw : wrap 64 (Z.of_nat (length ls) - k) = Z.of_nat (length ls) - k) by (apply wrap_small; simpl; lia).
    rewrite Hw. destruct (Z.ltb_spec (Z.of_nat (length ls) - k) 0) as [H|H].
    + destruct (Z.ltb_spec (Z.of_nat (length ls)) 0); [lia|]. eexists. split; [done|]. cbn [of_lines written Z.to_nat take].
      unfold last_lines. by replace (length ls - Z.to_nat k)%nat with 0%nat by lia.
    + destruct (Z.ltb_spec (Z.of_nat (length ls)) (Z.of_nat (length ls) - k)); [lia|]. eexists. split; [done|]. cbn [of_lines written].
      unfold last_lines. replace (length ls - Z.to_nat k)%nat with (Z.to_nat (Z.of_nat (length ls) - k)) by lia. by rewrite text_app, take_drop.
  - intros n _. rewrite window_last by lia. unfold last_lines. rewrite length_drop. lia.
Qed.

(** The same for bytes: head -c k and tail -c +(k+1) write every byte once, and tail -c k writes the
    last k bytes, or all if there are fewer. *)
Theorem head_tail_bytes data k : 0 < k <= maxAlloc ->
  (exists s, runBytes data k = Some s /\ written s +:+ written (tail_Run data 10 (k + 1) true) = data) /\
  (exists before, data = before +:+ written (tail_Run data 10 k false) /\
     Z.of_nat (String.length (written (tail_Run data 10 k false))) = Z.min k (Z.of_nat (String.length data))).
Proof.
  intros Hk. unfold tail_Run, runBytes. destruct (Z.ltb_spec 0 (k + 1)); [|lia]. destruct (Z.ltb_spec 0 k); [|lia].
  destruct (Z.ltb_spec maxAlloc k); [lia|]. cbn [written]. cbv zeta. split.
  - eexists. split; [done|]. cbn [written]. destruct (Z.ltb_spec (k + 1 - 1) 0); [lia|]. replace (k + 1 - 1) with k by lia. apply take_drop_bytes.
  - set (b := if _ <? k then _ else _). exists (take_bytes (Z.of_nat (String.length data) - b) data). split; [by rewrite take_drop_bytes|].
    assert (Hb : b = Z.min k (Z.of_nat (String.length data))) by (unfold b; destruct (Z.ltb_spec (Z.of_nat (String.length data)) k); lia).
    unfold drop_bytes. destruct (Z.leb_spec (Z.of_nat (String.length data)) (Z.of_nat (String.length data) - b)); [simpl; lia|].
    rewrite slength_drop. lia.
Qed.

(** ** Examples *)

Definition three : string := "one" +:+ nl +:+ "two" +:+ nl +:+ "three" +:+ nl.

Lemma head_tail_lines_witness :
  scan_big three = (["one"; "two"; "three"], false) /\
  written (head_Run three 2) = "one" +:+ nl +:+ "two" +:+ nl /\ written (tail_Run three 2 0 false) = "two" +:+ nl +:+ "three" +:+ nl /\
  written (head_Run three 2) +:+ written (tail_Run three 3 0 true) = text_of_lines ["one"; "two"; "three"].
Proof.
  assert (H : scan_big three = (["one"; "two"; "three"], false)) by (by vm_compute).
  split; [exact H|]. split; [by vm_compute|]. split; [by vm_compute|]. apply (head_tail_lines three _ 2 H); [lia|simpl; lia].
Defined.

Lemma head_tail_bytes_witness :
  0 < 5 <= maxAlloc /\ exists s, runBytes three 5 = Some s /\ written s +:+ written (tail_Run three 10 6 true) = three.
Proof. assert (H : 0 < 5 <= maxAlloc) by (unfold maxAlloc; lia). split; [exact H|]. apply (head_tail_bytes three 5 H). Defined.

(** head -n --1 reads past the last line and panics. *)
Example head_negative_twice : parse_head "" "--1" = inl (HeadNegative (-1)) /\ runNegative three (-1) = None.
Proof. vm_compute. split; reflexivity. Qed.

(** head -c allocates what it is asked for before it reads: a large count is a panic. *)
Example head_allocates : runBytes three (2 ^ 62) = None.
Proof. vm_compute. reflexivity. Qed.

(** tail -c 0 writes the last ten lines; tail -c +0 writes from line ten on. *)
Example tail_no_bytes :
  parse_tail "0" "" = inl (10, 0, false) /\ written (tail_Run three 10 0 false) = three /\
  parse_tail "+0" "" = inl (10, 0, true) /\ written (tail_Run three 10 0 true) = "".
Proof. vm_compute. repeat split; reflexivity. Qed.

(** -N is rewritten also where it is the value of an option, or a name after --. *)
Example tail_rewrites_values :
  tail_args ["-n"; "-5"; "f"] = ["-n"; "-n"; "5"; "f"] /\ tail_args ["-c"; "-5"] = ["-c"; "-n"; "5"] /\ tail_args ["--"; "-5.log"] = ["--"; "-n"; "5.log"].
Proof. vm_compute. repeat split; reflexivity. Qed.

(** The JSON result of head -c has no content. *)
Example head_bytes_json :
  headRun (fun _ => "") empty (fun _ => "") true "3" "" [] "text" =
  Some {| rc := 0; out := Render "head" {| SelLines := []; LineCount := 0 |} true []; errs := [] |}.
Proof. vm_compute. reflexivity. Qed.
