(* ===== verification/CutPaste.v ===== *)
(** Columns of lines: pkg/cut/cut.go and pkg/paste/paste.go. *)

From S2P Require Import Prelude GoStd Scanner Utf8 Output.

Local Open Scope Z_scope.

(** * cut *)

Record rangeSpec := { start : Z; end_ : Z }.

Definition MaxInt : Z := 2 ^ 63 - 1.

Definition bad_list : string := "invalid byte, character or field list".

Definition list_number (s : string) : option Z := match Atoi s with Some v => if v <? 1 then None else Some v | None => None end.

(** An element of a list: a number or a range, whose ends may be left out. *)
Definition parse_range (p : string) : option rangeSpec :=
  match Index p "-" with
  | Some i =>
      let lo := str_take i p in let hi := str_drop (i + 1) p in
      s ← (if lo =s? "" then Some 1 else list_number lo);
      e ← (if hi =s? "" then Some MaxInt else list_number hi);
      Some {| start := s; end_ := e |}
  | None => v ← list_number p; Some {| start := v; end_ := v |}
  end.

Definition Split (s delim : string) : list string := split_on (String.length s) s delim.

Definition parseList (s : string) : option (list rangeSpec) := mapM parse_range (Split s ",").

Definition inRange (idx : Z) (specs : list rangeSpec) : bool := existsb (fun s => (start s <=? idx) && (idx <=? end_ s)) specs.

(** The parts in a range; the first is number [i]. *)
Fixpoint parts_in {A} (i : Z) (parts : list A) (s : rangeSpec) : list A :=
  match parts with
  | [] => []
  | p :: parts => if (start s <=? i) && (i <=? end_ s) then p :: parts_in (i + 1) parts s else parts_in (i + 1) parts s
  end.

(** The elements whose number is in a list. *)
Fixpoint selected_from {A} (i : Z) (specs : list rangeSpec) (l : list A) : list A :=
  match l with [] => [] | x :: l => (if inRange i specs then [x] else []) ++ selected_from (i + 1) specs l end.

Record cut_options := {
  fields : string; delimiter : string; chars : string; bytesList : string;
  onlyDelimited : bool; noSuppress : bool; whitespaceFields : bool
}.

Definition delim_of (o : cut_options) : string := if delimiter o =s? "" then String "009" "" else delimiter o.

(** The fields of a line; [None] if the line is suppressed. *)
Definition cut_fields (o : cut_options) (sel : list rangeSpec) (text : string) : option string :=
  let parts := if whitespaceFields o then Fields text else Split text (delim_of o) in
  let hasDelim := whitespaceFields o || bool_decide (Index text (delim_of o) <> None) in
  if negb hasDelim then
    if negb (onlyDelimited o) && negb (noSuppress o) then Some text else if noSuppress o then Some "" else None
  else
    Some (join_with (if whitespaceFields o then " " else delim_of o) (s ← sel; parts_in 1 parts s)).

Record cut_lists := { fieldSel : list rangeSpec; charSel : list rangeSpec; byteSel : list rangeSpec }.

Definition parse_lists (o : cut_options) : option cut_lists :=
  let sel s := if s =s? "" then Some [] else parseList s in
  f ← sel (fields o); c ← sel (chars o); b ← sel (bytesList o);
  Some {| fieldSel := f; charSel := c; byteSel := b |}.

(** A line: what is extracted, if it is not suppressed. *)
Definition cut_line (o : cut_options) (l : cut_lists) (text : string) : option string :=
  if negb (fields o =s? "") then cut_fields o (fieldSel l) text
  else if negb (chars o =s? "") then Some (string_of_runes (selected_from 1 (charSel l) (runes text)))
  else Some (String.string_of_list_ascii (selected_from 1 (byteSel l) (String.list_ascii_of_string text))).

(** [Run]: the lines, or the text of the error. *)
Definition cut_Run (o : cut_options) (data : string) : list string + string :=
  match parse_lists o with
  | None => inr bad_list
  | Some l => let '(lines, e) := scan data in if e then inr "bufio.Scanner: token too long" else inl (omap (cut_line o l) lines)
  end.

Record CutResult := { CutLines : list string }.

(** The first positional is the list of -F if there is no -f. *)
Definition take_fields (o : cut_options) (positional : list string) : cut_options * list string :=
  match positional with
  | p :: ps =>
      if whitespaceFields o && (fields o =s? "") then
        ({| fields := p; delimiter := delimiter o; chars := chars o; bytesList := bytesList o; onlyDelimited := onlyDelimited o;
            noSuppress := noSuppress o; whitespaceFields := whitespaceFields o |}, ps)
      else (o, positional)
  | [] => (o, [])
  end.

Section Operands.
Variable open_error : string -> string.
Variable files : gmap string string.

(** The texts of the operands, or the first that cannot be opened; the standard input is read once. *)
Fixpoint open_all (paths : list string) (stdin : string) : list string + string :=
  match paths with
  | [] => inl []
  | p :: paths =>
      if p =s? "-" then match open_all paths "" with inl ts => inl (stdin :: ts) | inr e => inr e end
      else
        match files !! p with
        | None => inr p
        | Some t => match open_all paths stdin with inl ts => inl (t :: ts) | inr e => inr e end
        end
  end.

Fixpoint cut_all (o : cut_options) (texts : list string) : list string + string :=
  match texts with
  | [] => inl []
  | t :: texts =>
      match cut_Run o t with
      | inr e => inr e
      | inl ls => match cut_all o texts with inl ls' => inl (ls ++ ls') | inr e => inr e end
      end
  end.

(** [cutRun] after the options. *)
Definition cutRun (o : cut_options) (jsonMode : bool) (positional : list string) (stdin : string) : run_io CutResult :=
  let '(o, positional) := take_fields o positional in
  if (fields o =s? "") && (chars o =s? "") && (bytesList o =s? "") then
    {| rc := 1; out := []; errs := [line "cut: you must specify a list of bytes, characters, or fields"] |}
  else
    match open_all (match positional with [] => ["-"] | _ => positional end) stdin with
    | inr p => {| rc := 1; out := []; errs := [line ("cut: " +:+ p +:+ ": " +:+ open_error p)] |}
    | inl texts =>
        match cut_all o texts with
        | inr e => {| rc := 1; out := []; errs := [line ("cut: " +:+ e)] |}
        | inl ls =>
            {| rc := 0; out := if jsonMode then Render "cut" {| CutLines := ls |} true [] else [CText (text_of_lines ls)]; errs := [] |}
        end
    end.

(** * paste *)

(** The record without its empty fields at the end. *)
Definition is_empty (s : string) : bool := s =s? "".

Fixpoint trim_record (record : list string) : list string :=
  match record with
  | [] => []
  | f :: record => match trim_record record with [] => if is_empty f then [] else [f] | r => f :: r end
  end.

(** A line of each input, until all are at their end; the fuel is the number of lines. *)
Fixpoint merge_rounds (fuel : nat) (inputs : list (list string)) : list (list string) :=
  match fuel with
  | O => []
  | S fuel =>
      if existsb (fun ls => negb (bool_decide (ls = []))) inputs then
        trim_record (hd "" <$> inputs) :: merge_rounds fuel (tl <$> inputs)
      else []
  end.

(** [Merge] of the lines that the scanners deliver. *)
Definition Merge (inputs : list (list string)) (serial : bool) : list (list string) :=
  match inputs with
  | [] => []
  | _ => if serial then inputs else merge_rounds (length (concat inputs)) inputs
  end.

(** The fields of a record; the delimiter before the next one is number [i]. *)
Fixpoint format_rest (i : nat) (delimiters : list string) (record : list string) : string :=
  match record with
  | [] => ""
  | f :: record => nth (i mod length delimiters) delimiters "" +:+ f +:+ format_rest (S i) delimiters record
  end.

Definition format_record (delimiters record : list string) : string :=
  match record with [] => "" | f :: record => f +:+ format_rest 0 delimiters record end.

Definition Format (records : list (list string)) (delimiters : list string) : string :=
  let delimiters := match delimiters with [] => [String "009" ""] | _ => delimiters end in
  text_of_lines (format_record delimiters <$> records).

(** [string(s[i])]: the byte as a rune. *)
Definition rune_string (c : ascii) : string := EncodeRune (code c).

Fixpoint delimiters_from (escape : bool) (s : string) : list string :=
  match s with
  | "" => if escape then ["\"] else []
  | String c s =>
      if escape then
        (if c =c? "t"%char then String "009" "" else if c =c? "n"%char then nl else if c =c? "0"%char then ""
         else if c =c? "\"%char then "\" else rune_string c) :: delimiters_from false s
      else if c =c? "\"%char then delimiters_from true s
      else rune_string c :: delimiters_from false s
  end.

Definition parseDelimiters (s : string) : list string := delimiters_from false s.

(** Every [k]th line from number [i] on; the fuel is the number of lines. *)
Fixpoint every (fuel k i : nat) (lines : list string) : list string :=
  match fuel with
  | O => []
  | S fuel => match lines !! i with Some l => l :: every fuel k (i + k) lines | None => [] end
  end.

(** The lines of the operands; of several - each gets every [k]th line of the standard input. *)
Fixpoint paste_inputs (shared : option (list string)) (stdinCount stdinIdx : nat) (stdin : string) (paths : list string)
    : list (list string) + string :=
  match paths with
  | [] => inl []
  | p :: paths =>
      if p =s? "-" then
        let ls := match shared with
                  | Some lines => fst (scan (text_of_lines (every (length lines) stdinCount stdinIdx lines)))
                  | None => fst (scan stdin)
                  end in
        match paste_inputs shared stdinCount (S stdinIdx) stdin paths with inl r => inl (ls :: r) | e => e end
      else
        match files !! p with
        | None => inr p
        | Some t => match paste_inputs shared stdinCount stdinIdx stdin paths with inl r => inl (fst (scan t) :: r) | e => e end
        end
  end.

Record PasteResult := { Records : list (list string) }.

(** [pasteRun] after the options. *)
Definition pasteRun (delimStr : string) (serial jsonMode : bool) (positional : list string) (stdin : string) : run_io PasteResult :=
  let delimiters := parseDelimiters delimStr in
  let paths := match positional with [] => ["-"] | _ => positional end in
  let stdinCount := length (filter (fun p => p = "-") paths) in
  let shared := if (1 <? stdinCount)%nat then Some (fst (scan stdin)) else None in
  match paste_inputs shared stdinCount 0 stdin paths with
  | inr p => {| rc := 1; out := []; errs := [line ("paste: " +:+ p +:+ ": " +:+ open_error p)] |}
  | inl inputs =>
      let records := Merge inputs serial in
      {| rc := 0; out := if jsonMode then Render "paste" {| Records := records |} true [] else [CText (Format records delimiters)]; errs := [] |}
  end.
End Operands.
