(* ===== verification/CutPasteLaws.v ===== *)
(** Laws of cut and paste: cut takes apart what paste puts together, and paste with several - groups
    the lines of its input. *)

From S2P Require Import Prelude GoStd Scanner Lines Utf8 Output CutPaste.
From Stdlib Require Import ZifyBool.

Local Open Scope Z_scope.

Definition tab : string := String "009" "".

(** ** Splitting a joined line *)

Definition without (c : ascii) (s : string) : bool := str_forall (fun d => negb (d =c? c)) s.

Lemma split_on_join c ls : ls <> [] -> Forall (fun l => without c l = true) ls -> forall fuel,
  (String.length (join_with (String c "") ls) <= fuel)%nat -> split_on fuel (join_with (String c "") ls) (String c "") = ls.
Proof.
  induction ls as [|l [|l' ls] IH]; [done| |]; intros _ Hls fuel Hf; inversion_clear Hls as [|? ? Hl Hls'].
  - cbn [join_with] in *. destruct fuel; cbn [split_on]; [done|]. by rewrite Index_none.
  - change (join_with (String c "") (l :: l' :: ls)) with (l +:+ String c (join_with (String c "") (l' :: ls))) in *.
    rewrite slength_app in Hf. cbn [String.length] in Hf. destruct fuel as [|fuel]; [lia|]. cbn [split_on].
    rewrite Index_char by done. rewrite str_take_exact. cbn [String.length].
    rewrite <- str_drop_drop, str_drop_exact. cbn [str_drop]. f_equal. apply IH; [done|done|lia].
Qed.

Lemma Split_join c ls : ls <> [] -> Forall (fun l => without c l = true) ls ->
  Split (join_with (String c "") ls) (String c "") = ls.
Proof. intros H1 H2. by apply split_on_join. Qed.

Lemma join_has c l l' ls : without c l = true -> Index (join_with (String c "") (l :: l' :: ls)) (String c "") <> None.
Proof. intros Hl. change (join_with (String c "") (l :: l' :: ls)) with (l +:+ String c (join_with (String c "") (l' :: ls))). by rewrite Index_char. Qed.

(** The part with a number. *)
Lemma parts_after {A} (parts : list A) : forall i n, n < i -> parts_in i parts {| start := n; end_ := n |} = [].
Proof.
  induction parts as [|p parts IH]; intros i n Hn; [done|]. cbn [parts_in start end_]. destruct (Z.leb_spec n i), (Z.leb_spec i n); try lia; cbn [andb]; apply IH; lia.
Qed.

Lemma parts_one {A} (parts : list A) k p : parts !! k = Some p ->
  forall i, parts_in i parts {| start := i + Z.of_nat k; end_ := i + Z.of_nat k |} = [p].
Proof.
  revert k. induction parts as [|q parts IH]; intros [|k] Hk i; try done; cbn [parts_in start end_].
  - injection Hk as ->. rewrite Z.add_0_r, Z.leb_refl. cbn [andb]. f_equal. apply parts_after. lia.
  - destruct (Z.leb_spec (i + Z.of_nat (S k)) i); [lia|]. cbn [andb]. specialize (IH k Hk (i + 1)).
    by replace (i + Z.of_nat (S k)) with (i + 1 + Z.of_nat k) by lia.
Qed.

(** ** Records *)

Lemma trim_nonempty record : Forall (fun f => f <> "") record -> trim_record record = record.
Proof.
  induction 1 as [|f record Hf _ IH]; [done|]. cbn [trim_record]. rewrite IH. destruct record; [|done]. unfold is_empty.
  destruct (String.eqb_spec f ""); done.
Qed.

Lemma trim_empties record n : trim_record (record ++ replicate n "") = trim_record record.
Proof.
  induction record as [|f record IH]; [|by cbn [app trim_record]; rewrite IH]. cbn [app]. induction n as [|n IH]; [done|]. cbn [replicate trim_record]. by rewrite IH.
Qed.

Lemma format_tab record : format_record [tab] record = join_with tab record.
Proof.
  destruct record as [|f record]; [done|]. cbn [format_record].
  assert (H : forall i f, f +:+ format_rest i [tab] record = join_with tab (f :: record)).
  { clear f. induction record as [|g record IH]; intros i f; [by cbn; rewrite sapp_nil_r|].
    cbn [format_rest length]. rewrite Nat.mod_1_r. cbn [nth]. by rewrite IH. }
  apply H.
Qed.

(** More rounds than lines make no difference. *)
Lemma merge_fuel f1 : forall f2 inputs, Forall (fun ls => (length ls <= f1)%nat /\ (length ls <= f2)%nat) inputs ->
  merge_rounds f1 inputs = merge_rounds f2 inputs.
Proof.
  assert (H0 : forall inputs : list (list string), Forall (fun ls => (length ls <= 0)%nat) inputs -> existsb (fun ls => negb (bool_decide (ls = []))) inputs = false).
  { induction 1 as [|ls inputs Hl _ IH]; [done|]. cbn [existsb]. rewrite IH. destruct ls; [done|simpl in Hl; lia]. }
  induction f1 as [|f1 IH]; intros [|f2] inputs H; cbn [merge_rounds]; try done.
  - rewrite H0; [done|]. eapply Forall_impl; [exact H|]. by intros ls [? _].
  - rewrite H0; [done|]. eapply Forall_impl; [exact H|]. by intros ls [_ ?].
  - destruct (existsb _ inputs); [|done]. f_equal. apply IH. apply Forall_fmap. eapply Forall_impl; [exact H|].
    intros ls [H1 H2]. destruct ls; simpl in *; lia.
Qed.

Lemma Merge_rounds n inputs : Forall (fun ls => (length ls <= n)%nat) inputs -> Merge inputs false = merge_rounds n inputs.
Proof.
  intros H. destruct inputs as [|ls inputs]; [by destruct n|]. cbn [Merge]. apply merge_fuel. apply Forall_and. split; [|done].
  clear H. generalize (ls :: inputs) as l. induction l as [|x l IH]; [done|]. cbn [concat]. rewrite length_app. constructor; [lia|].
  eapply Forall_impl; [exact IH|]. intros y Hy. simpl in *. lia.
Qed.

(** ** paste, then cut *)

(** The lines at a position of all columns. *)
Fixpoint rows (n : nat) (columns : list (list string)) : list (list string) :=
  match n with O => [] | S n => (hd "" <$> columns) :: rows n (tl <$> columns) end.

Definition plain_field (f : string) : Prop :=
  f <> "" /\ str_forall (fun c => negb (c =c? "009"%char) && negb (c =c? "010"%char) && negb (c =c? "013"%char)) f = true.

Definition columns_ok (n : nat) (columns : list (list string)) : Prop :=
  Forall (fun col => length col = n /\ Forall plain_field col) columns.

Lemma columns_tl n columns : columns_ok (S n) columns -> columns_ok n (tl <$> columns).
Proof.
  intros H. apply Forall_fmap. eapply Forall_impl; [exact H|]. intros col [Hl Hf]. destruct col as [|f col]; [done|].
  inversion_clear Hf. simpl in *. by split; [lia|].
Qed.

Lemma columns_hd n columns : columns_ok (S n) columns -> Forall plain_field (hd "" <$> columns).
Proof. intros H. apply Forall_fmap. eapply Forall_impl; [exact H|]. intros col [Hl Hf]. destruct col as [|f col]; [done|]. by inversion_clear Hf. Qed.

Lemma merge_columns n : forall columns, columns <> [] -> columns_ok n columns -> merge_rounds n columns = rows n columns.
Proof.
  induction n as [|n IH]; intros columns Hne Hc; [done|]. cbn [merge_rounds rows].
  assert (Hex : existsb (fun ls => negb (bool_decide (ls = []))) columns = true).
  { destruct columns as [|col columns]; [done|]. inversion_clear Hc as [|? ? [Hl _] _]. cbn [existsb]. by destruct col. }
  rewrite Hex, trim_nonempty, IH; [done|by destruct columns|by apply columns_tl|].
  eapply Forall_impl; [by eapply columns_hd|]. by intros f [? _].
Qed.

Lemma rows_plain n : forall columns, columns_ok n columns -> Forall (fun r => length r = length columns /\ Forall plain_field r) (rows n columns).
Proof.
  induction n as [|n IH]; intros columns Hc; cbn [rows]; constructor.
  - split; [apply length_fmap|by eapply columns_hd].
  - specialize (IH (tl <$> columns) (columns_tl _ _ Hc)). by rewrite length_fmap in IH.
Qed.

Lemma rows_column n : forall columns k col, columns_ok n columns -> columns !! k = Some col ->
  Forall2 (fun r f => r !! k = Some f) (rows n columns) col.
Proof.
  induction n as [|n IH]; intros columns k col Hc Hk; cbn [rows].
  - unfold columns_ok in Hc. rewrite Forall_lookup in Hc. destruct (Hc _ _ Hk) as [Hl _]. by destruct col.
  - unfold columns_ok in Hc. pose proof Hc as Hc'. rewrite Forall_lookup in Hc. destruct (Hc _ _ Hk) as [Hl _]. destruct col as [|f col]; [done|]. constructor.
    + rewrite list_lookup_fmap, Hk. done.
    + apply IH; [by apply columns_tl|]. rewrite list_lookup_fmap, Hk. done.
Qed.

Lemma plain_without f : plain_field f -> without "009" f = true.
Proof. intros [_ H]. unfold without. eapply str_forall_impl; [|exact H]. intros c Hc. by apply andb_true_iff in Hc as [[? _]%andb_true_iff _]. Qed.

Definition no_nl_cr (c : ascii) : bool := negb (c =c? "010"%char) && negb (c =c? "013"%char).

Lemma join_plain r : Forall plain_field r -> str_forall no_nl_cr (join_with tab r) = true.
Proof.
  induction 1 as [|f [|g r] [_ Hf] _ IH]; [done| |]; unfold no_nl_cr in *.
  - cbn [join_with]. eapply str_forall_impl; [|exact Hf]. intros c Hc. apply andb_true_iff in Hc as [[_ ?]%andb_true_iff ?]. by apply andb_true_iff.
  - change (join_with tab (f :: g :: r)) with (f +:+ tab +:+ join_with tab (g :: r)). rewrite !str_forall_app, IH. cbn. rewrite andb_true_r.
    eapply str_forall_impl; [|exact Hf]. intros c Hc. apply andb_true_iff in Hc as [[_ ?]%andb_true_iff ?]. by apply andb_true_iff.
Qed.

Lemma no_nl_cr_safe l : str_forall no_nl_cr l = true -> Z.of_nat (String.length l) < 65536 -> safe_line l.
Proof.
  intros H Hl. split; [|split; [|done]].
  - unfold no_nl. eapply str_forall_impl; [|exact H]. intros c Hc. apply andb_true_iff in Hc as [Hc _].
    destruct (Ascii.eqb_spec c "010"); [done|]. destruct (Z.eqb_spec (code c) 10) as [E|]; [|done].
    exfalso. match goal with Hn : c <> _ |- _ => apply Hn end. by rewrite <- (chr_code c), E.
  - unfold drop_cr. destruct (String.length l) as [|k] eqn:E; [done|].
    destruct (seqb_spec (str_drop k l) (String "013" "")) as [E'|]; [|done].
    apply (str_forall_drop _ k) in H. rewrite E' in H. done.
Qed.

Definition cut_field (n : nat) : cut_options :=
  {| fields := FormatInt (Z.of_nat n); delimiter := ""; chars := ""; bytesList := ""; onlyDelimited := false; noSuppress := false; whitespaceFields := false |}.

Lemma digits_range n : 0 < n < 2 ^ 63 -> parseList (FormatInt n) = Some [{| start := n; end_ := n |}].
Proof.
  intros Hn. assert (Hd : str_forall is_digit (FormatInt n) = true) by (apply FormatInt_digits; lia).
  unfold parseList, Split.
  assert (Hs : split_on (String.length (FormatInt n)) (FormatInt n) "," = [FormatInt n]).
  { apply (split_on_join "," [FormatInt n]); [done| |done]. constructor; [|done]. by apply digits_without. }
  rewrite Hs. cbn [mapM]. unfold parse_range. rewrite Index_none by (by apply digits_without). unfold list_number.
  unfold Atoi. rewrite ParseInt_FormatInt by (apply in_int64_iff; lia). destruct (Z.ltb_spec n 1); [lia|]. done.
Qed.

Lemma field_lists k : Z.of_nat (S k) < 2 ^ 63 ->
  parse_lists (cut_field (S k)) =
  Some {| fieldSel := [{| start := 1 + Z.of_nat k; end_ := 1 + Z.of_nat k |}]; charSel := []; byteSel := [] |} /\
  fields (cut_field (S k)) <> "".
Proof.
  intros Hk. destruct (FormatInt_digits (Z.of_nat (S k)) ltac:(lia)) as [_ Hne]. split; [|done]. unfold parse_lists.
  cbn [cut_field fields chars bytesList]. destruct (String.eqb_spec (FormatInt (Z.of_nat (S k))) "") as [|_]; [done|].
  rewrite digits_range by lia. cbn [mbind option_bind]. replace (Z.of_nat (S k)) with (1 + Z.of_nat k) by lia. done.
Qed.

(** A field of a record of at least two. *)
Lemma cut_record k l r f : fieldSel l = [{| start := 1 + Z.of_nat k; end_ := 1 + Z.of_nat k |}] -> Forall plain_field r ->
  (2 <= length r)%nat -> r !! k = Some f -> cut_fields (cut_field (S k)) (fieldSel l) (join_with tab r) = Some f.
Proof.
  intros -> Hr Hlen Hk. unfold cut_fields, delim_of. cbn [cut_field whitespaceFields delimiter onlyDelimited noSuppress orb].
  change ("" =s? "") with true. cbv iota.
  assert (Hw : Forall (fun f => without "009" f = true) r) by (eapply Forall_impl; [exact Hr|]; apply plain_without).
  assert (Hi : Index (join_with tab r) tab <> None).
  { destruct r as [|a [|b r]]; [simpl in Hlen; lia..|]. apply join_has. by inversion_clear Hw. }
  change (String "009" "") with tab. rewrite bool_decide_true by done. cbn [negb]. unfold tab. rewrite Split_join; [|by destruct r|done].
  cbn [mbind list_bind]. rewrite app_nil_r. by rewrite (parts_one r k f Hk 1).
Qed.

(** C37: cut -f k of what paste writes is the k-th file, for two or more files of equally many lines whose lines
    are not empty and have no tab or carriage return, when every pasted line is shorter than 64 KiB.  (An empty field
    at the end of a line is trimmed by paste: see [paste_trims_empty_field].) *)
Theorem paste_then_cut n columns k col : (2 <= length columns)%nat -> columns_ok n columns -> columns !! k = Some col ->
  Forall (fun r => Z.of_nat (String.length (join_with tab r)) < 65536) (rows n columns) -> Z.of_nat (length columns) < 2 ^ 63 ->
  cut_Run (cut_field (S k)) (Format (Merge columns false) []) = inl col.
Proof.
  intros Hlen Hc Hk Hlong Hmax. assert (Hne : columns <> []) by (by destruct columns; [simpl in Hlen; lia|]).
  pose proof (lookup_lt_Some _ _ _ Hk) as Hkl. rewrite (Merge_rounds n), merge_columns; [|done|done|].
  2:{ eapply Forall_impl; [exact Hc|]. intros c [H _]. lia. }
  destruct (field_lists k ltac:(lia)) as [Hl Hf]. unfold cut_Run. rewrite Hl. unfold Format. change [String "009" ""] with [tab].
  pose proof (rows_plain n columns Hc) as Hr. rewrite scan_text.
  2:{ apply Forall_fmap. rewrite Forall_forall in Hr, Hlong |- *. intros r Hin. unfold compose. rewrite format_tab.
      apply no_nl_cr_safe; [apply join_plain, (Hr r Hin)|by apply Hlong]. }
  f_equal. pose proof (rows_column n columns k col Hc Hk) as Hcol. clear Hlong Hc Hl. set (l := {| fieldSel := _ |}).
  assert (Hstep : forall r f, length r = length columns -> Forall plain_field r -> r !! k = Some f ->
    cut_line (cut_field (S k)) l (format_record [tab] r) = Some f).
  { intros r f Hrl Hrp Hrk. unfold cut_line. destruct (String.eqb_spec (fields (cut_field (S k))) ""); [done|]. cbn [negb].
    rewrite format_tab. apply cut_record; [done|done|lia|done]. }
  clearbody l. clear Hk. induction Hcol as [|r f rs col Hrk Hcol IH]; [done|]. inversion_clear Hr as [|? ? [Hrl Hrp] Hr'].
  rewrite fmap_cons. cbn [omap list_omap]. rewrite (Hstep r f) by done. f_equal. by apply IH.
Qed.

(** ** paste with several - *)

(** The lines in groups; the fuel is their number. *)
Fixpoint groups (fuel k : nat) (lines : list string) : list (list string) :=
  match fuel with O => [] | S fuel => match lines with [] => [] | _ => take k lines :: groups fuel k (drop k lines) end end.

Lemma every_nil k f i : every f k i [] = [].
Proof. by destruct f. Qed.

Lemma every_shift k f : forall i lines, every f k (i + k) lines = every f k i (drop k lines).
Proof.
  induction f as [|f IH]; intros i lines; cbn [every]; [done|]. rewrite lookup_drop, (Nat.add_comm k i).
  destruct (lines !! (i + k)%nat); [|done]. by rewrite IH.
Qed.

Definition dealt (f k : nat) (lines : list string) : list (list string) := (fun i => every f k i lines) <$> seq 0 k.

Lemma dealt_hd f k lines : hd "" <$> dealt (S f) k lines = take k lines ++ replicate (k - length lines) "".
Proof.
  unfold dealt. rewrite <- list_fmap_compose. apply list_eq. intros i. rewrite list_lookup_fmap.
  destruct (decide (i < k)%nat) as [Hi|Hi].
  - rewrite lookup_seq_lt by done. cbn [fmap option_fmap option_map compose every Nat.add].
    destruct (decide (i < length lines)%nat) as [Hl|Hl].
    + rewrite lookup_app_l by (rewrite length_take; lia). rewrite lookup_take_lt by done.
      destruct (lookup_lt_is_Some_2 lines i Hl) as [l ->]. done.
    + rewrite lookup_app_r by (rewrite length_take; lia). rewrite (lookup_ge_None_2 lines i) by lia.
      rewrite length_take. symmetry. apply lookup_replicate_2. lia.
  - rewrite lookup_seq_ge by lia. symmetry. apply lookup_ge_None_2. rewrite length_app, length_take, length_replicate. lia.
Qed.

Lemma dealt_tl f k lines : tl <$> dealt (S f) k lines = dealt f k (drop k lines).
Proof.
  unfold dealt. rewrite <- list_fmap_compose. apply list_fmap_ext. intros i x _. cbn [compose every].
  rewrite <- every_shift. destruct (lines !! x) eqn:E; [done|]. cbn [tl]. destruct f; cbn [every]; [done|].
  apply lookup_ge_None_1 in E. by rewrite lookup_ge_None_2 by lia.
Qed.

Lemma dealt_rounds k f : (0 < k)%nat -> forall lines, (length lines <= f)%nat ->
  merge_rounds f (dealt f k lines) = trim_record <$> groups f k lines.
Proof.
  intros Hk. induction f as [|f IH]; intros lines Hf; [done|]. cbn [merge_rounds groups]. destruct lines as [|l lines].
  - assert (Hex : existsb (fun ls => negb (bool_decide (ls = []))) (dealt (S f) k []) = false); [|by rewrite Hex].
    unfold dealt. generalize (seq 0 k) as is_. induction is_ as [|i is_ IHi]; [done|]. cbn [fmap list_fmap existsb]. by rewrite IHi.
  - assert (Hex : existsb (fun ls => negb (bool_decide (ls = []))) (dealt (S f) k (l :: lines)) = true).
    { unfold dealt. destruct k as [|k]; [lia|]. cbn [seq fmap list_fmap existsb every lookup list_lookup]. done. }
    rewrite Hex, dealt_hd, trim_empties, dealt_tl. rewrite IH; [done|]. rewrite length_drop. simpl in *. lia.
Qed.

Lemma every_length f k : forall i lines, (length (every f k i lines) <= f)%nat.
Proof. induction f as [|f IH]; intros i lines; cbn [every]; [simpl; lia|]. destruct (lines !! i); simpl; [specialize (IH (i + k)%nat lines)|]; lia. Qed.

Lemma every_safe f k : forall i lines, Forall safe_line lines -> Forall safe_line (every f k i lines).
Proof.
  induction f as [|f IH]; intros i lines H; cbn [every]; [constructor|]. destruct (lines !! i) as [l|] eqn:E; [|constructor].
  constructor; [|by apply IH]. rewrite Forall_lookup in H. by apply (H i).
Qed.

Lemma dashes_inputs files lines k stdin m : Forall safe_line lines -> forall j,
  paste_inputs files (Some lines) k j stdin (replicate m "-") = inl ((fun i => every (length lines) k i lines) <$> seq j m).
Proof.
  intros H. induction m as [|m IH]; intros j; [done|]. cbn [replicate paste_inputs seq fmap list_fmap]. change ("-" =s? "-") with true. cbv iota.
  rewrite IH, scan_text by (by apply every_safe). done.
Qed.

(** Paste with k operands - writes the lines of the standard input k to a line, in order, the last
    ones that are left too; empty fields at the end of a line are left out. *)
Theorem paste_groups open_error files delimStr k stdin lines e :
  (2 <= k)%nat -> scan stdin = (lines, e) -> Forall safe_line lines ->
  pasteRun open_error files delimStr false false (replicate k "-") stdin =
  {| rc := 0; out := [CText (Format (trim_record <$> groups (length lines) k lines) (parseDelimiters delimStr))]; errs := [] |}.
Proof.
  intros Hk Hs Hl. unfold pasteRun. assert (Hf : forall m, length (filter (fun p => p = "-") (replicate m "-")) = m).
  { induction m as [|m IH]; [done|]. cbn [replicate]. rewrite filter_cons_True by done. simpl. by rewrite IH. }
  assert (Hp : match replicate k "-" with [] => ["-"] | _ => replicate k "-" end = replicate k "-") by (by destruct k; [lia|]).
  rewrite Hp, Hf, Hs, (proj2 (Nat.ltb_lt 1 k)) by lia. cbn [fst]. rewrite dashes_inputs by done. cbv zeta. fold (dealt (length lines) k lines).
  rewrite (Merge_rounds (length lines)), dealt_rounds; [done|lia|done|].
  unfold dealt. apply Forall_fmap, Forall_forall. intros i _. apply every_length.
Qed.

(** ** Examples *)

Lemma paste_then_cut_witness :
  let columns := [["one"; "two"]; ["un"; "deux"]; ["ein"; "zwei"]] in
  columns_ok 2 columns /\ Format (Merge columns false) [] = "one" +:+ tab +:+ "un" +:+ tab +:+ "ein" +:+ nl +:+ "two" +:+ tab +:+ "deux" +:+ tab +:+ "zwei" +:+ nl /\
  cut_Run (cut_field 2) (Format (Merge columns false) []) = inl ["un"; "deux"].
Proof.
  cbv zeta. assert (H : columns_ok 2 [["one"; "two"]; ["un"; "deux"]; ["ein"; "zwei"]]).
  { repeat constructor; discriminate. }
  split; [exact H|]. split; [by vm_compute|]. apply (paste_then_cut 2 _ 1 _).
  - simpl. lia.
  - exact H.
  - reflexivity.
  - repeat constructor.
  - simpl. lia.
Defined.

Lemma paste_groups_witness :
  let stdin := text_of_lines ["a"; "b"; "c"; "d"; "e"] in
  scan stdin = (["a"; "b"; "c"; "d"; "e"], false) /\
  pasteRun (fun _ => "") empty ":" false false ["-"; "-"] stdin =
  {| rc := 0; out := [CText ("a:b" +:+ nl +:+ "c:d" +:+ nl +:+ "e" +:+ nl)]; errs := [] |}.
Proof.
  cbv zeta. assert (H : scan (text_of_lines ["a"; "b"; "c"; "d"; "e"]) = (["a"; "b"; "c"; "d"; "e"], false)) by (by vm_compute).
  split; [exact H|]. change ["-"; "-"] with (replicate 2 "-"). rewrite (paste_groups (fun _ => "") empty ":" 2 _ _ false ltac:(lia) H); [|by repeat constructor]. vm_compute. reflexivity.
Defined.

(** cut -f writes the fields in the order of the list, and a field again that is listed again; a range
    that goes down selects nothing, and - alone is everything. *)
Definition cut_demo (ranges : string) : list string + string :=
  cut_Run {| fields := ranges; delimiter := ":"; chars := ""; bytesList := ""; onlyDelimited := false; noSuppress := false; whitespaceFields := false |} "a:b:c".
Example cut_list_order : cut_demo "3,1,1" = inl ["c:a:a"] /\ cut_demo "3-2" = inl [""] /\ cut_demo "-" = inl ["a:b:c"].
Proof. vm_compute. repeat split; reflexivity. Qed.

(** cut -c writes U+FFFD for a byte that starts no rune. *)
Example cut_replaces_bytes :
  cut_Run {| fields := ""; delimiter := ""; chars := "1-"; bytesList := ""; onlyDelimited := false; noSuppress := false; whitespaceFields := false |}
    (String "233" "") = inl [String "239" (String "191" (String "189" ""))].
Proof. vm_compute. reflexivity. Qed.

(** A delimiter of two bytes becomes two delimiters, of two other characters. *)
Example paste_delimiter_bytes :
  parseDelimiters (String "195" (String "169" "")) = [String "195" (String "131" ""); String "194" (String "169" "")].
Proof. vm_compute. reflexivity. Qed.

(** A file that ends early leaves no delimiters. *)
Example paste_short_file : Format (Merge [["a"; "b"]; ["1"]] false) [] = "a" +:+ tab +:+ "1" +:+ nl +:+ "b" +:+ nl.
Proof. vm_compute. reflexivity. Qed.

(** An empty field at the end is trimmed with its delimiter, so that cut finds no delimiter and prints the line. *)
Example paste_trims_empty_field :
  cut_Run (cut_field 2) (Format (Merge [["a"]; [""]] false) []) = inl ["a"].
Proof. vm_compute. reflexivity. Qed.

(** With -s the operands - share the lines, where the first should get them all. *)
Example paste_serial_dashes :
  pasteRun (fun _ => "") empty "" true false ["-"; "-"] (text_of_lines ["a"; "b"; "c"]) =
  {| rc := 0; out := [CText ("a" +:+ tab +:+ "c" +:+ nl +:+ "b" +:+ nl)]; errs := [] |}.
Proof. vm_compute. reflexivity. Qed.
