(* ===== verification/Tr.v ===== *)
(** tr: pkg/tr/tr.go.

    The sets are lists of runes; translation is the last pair of a rune.  The classes are replaced in
    the order of a map, which is any order: [order] is that order. *)

From S2P Require Import Prelude GoStd Scanner Lines Utf8 Utf8Laws Output.

Local Open Scope Z_scope.

(** * Sets *)

Definition ascii_range (lo hi : Z) : string :=
  String.string_of_list_ascii ((fun i => chr (lo + Z.of_nat i)) <$> seq 0 (Z.to_nat (hi - lo + 1))).

Definition digits_ : string := ascii_range 48 57.
Definition upper_ : string := ascii_range 65 90.
Definition lower_ : string := ascii_range 97 122.

Definition buildCntrl : string := ascii_range 0 31 +:+ ascii_range 127 127.

Definition charClasses : list (string * string) :=
  [ ("[:digit:]", digits_); ("[:xdigit:]", digits_ +:+ ascii_range 65 70 +:+ ascii_range 97 102);
    ("[:alpha:]", upper_ +:+ lower_); ("[:alnum:]", digits_ +:+ upper_ +:+ lower_); ("[:lower:]", lower_); ("[:upper:]", upper_);
    ("[:space:]", " " +:+ ascii_range 9 10 +:+ ascii_range 13 13 +:+ ascii_range 12 12 +:+ ascii_range 11 11); ("[:blank:]", " " +:+ ascii_range 9 9);
    ("[:punct:]", ascii_range 33 47 +:+ ascii_range 58 64 +:+ ascii_range 91 96 +:+ ascii_range 123 126);
    ("[:print:]", ascii_range 32 126); ("[:graph:]", ascii_range 33 126); ("[:cntrl:]", buildCntrl) ].

(** [strings.ReplaceAll] of a text that is not empty; the fuel is the length. *)
Fixpoint replace_all (fuel : nat) (s old new : string) : string :=
  match fuel with
  | O => s
  | S fuel =>
      match Index s old with
      | None => s
      | Some i => str_take i s +:+ new +:+ replace_all fuel (str_drop (i + String.length old) s) old new
      end
  end.

Definition ReplaceAll (s old new : string) : string := replace_all (String.length s) s old new.

Definition expand_classes (order : list (string * string)) (s : string) : string :=
  foldl (fun s '(name, runes) => ReplaceAll s name runes) s order.

(** The runes from one to another. *)
Definition rune_range (lo hi : Z) : list Z := (fun i => lo + Z.of_nat i) <$> seq 0 (Z.to_nat (hi - lo + 1)).

(** The loop over the runes of a set: a rune, - and a rune are a range. *)
Fixpoint expand_runes (rs : list Z) : list Z :=
  match rs with
  | [] => []
  | a :: t =>
      match t with
      | m :: b :: rest => if m =? 45 then rune_range a b ++ expand_runes rest else a :: expand_runes t
      | _ => a :: expand_runes t
      end
  end.

Definition expandSetList (order : list (string * string)) (s : string) : list Z := expand_runes (runes (expand_classes order s)).

Definition expandSet (order : list (string * string)) (s : string) : gset Z := list_to_set (expandSetList order s).

(** * The loop *)

Record tr_flags := { deleteFlag : bool; squeezeFlag : bool; complementFlag : bool }.

(** The translation map; the last pair of a rune counts. *)
Fixpoint build_trans (s1 s2 : list Z) (last : Z) (m : gmap Z Z) : gmap Z Z :=
  match s1 with
  | [] => m
  | r1 :: s1 => build_trans s1 (tl s2) last (<[r1 := hd last s2]> m)
  end.

Record tr_sets := { s1Map : gset Z; s2List : list Z; trans : gmap Z Z; squeezeSet : gset Z }.

Definition make_sets (order order' : list (string * string)) (set1 set2 : string) (f : tr_flags) : tr_sets :=
  let s1 := expandSetList order set1 in
  let s2 := if set2 =s? "" then [] else expandSetList order set2 in
  {| s1Map := expandSet order' set1; s2List := s2;
     trans := if negb (deleteFlag f) && negb (squeezeFlag f) && negb (bool_decide (s2 = [])) then build_trans s1 s2 (List.last s2 0) ∅ else ∅;
     squeezeSet := if squeezeFlag f && negb (bool_decide (s2 = [])) then expandSet order' set2 else ∅ |}.

Definition in_set1 (f : tr_flags) (s : tr_sets) (rn : Z) : bool := xorb (bool_decide (rn ∈ s1Map s)) (complementFlag f).

(** The rune that is written for a rune that is not deleted. *)
Definition out_rune (f : tr_flags) (s : tr_sets) (rn : Z) : Z :=
  if in_set1 f s rn && negb (deleteFlag f) && negb (bool_decide (s2List s = [])) then
    match trans s !! rn with
    | Some mapped => mapped
    | None => if complementFlag f then List.last (s2List s) 0 else rn
    end
  else rn.

Definition in_squeeze_set (f : tr_flags) (s : tr_sets) (rn outRune : Z) : bool :=
  if negb (bool_decide (s2List s = [])) then bool_decide (outRune ∈ squeezeSet s) else in_set1 f s rn.

(** The runes written, after [lastWrite]. *)
Fixpoint tr_runes (f : tr_flags) (s : tr_sets) (lastWrite : Z) (rs : list Z) : list Z :=
  match rs with
  | [] => []
  | rn :: rs =>
      if deleteFlag f && in_set1 f s rn then tr_runes f s lastWrite rs
      else
        let o := out_rune f s rn in
        if squeezeFlag f && in_squeeze_set f s rn o && (o =? lastWrite) then tr_runes f s lastWrite rs
        else o :: tr_runes f s o rs
  end.

Definition tr_Run (order order' : list (string * string)) (input set1 set2 : string) (f : tr_flags) : string :=
  string_of_runes (tr_runes f (make_sets order order' set1 set2 f) RuneError (runes input)).

(** The escapes \n and \t of a set. *)
Definition unescape (s : string) : string := ReplaceAll (ReplaceAll s "\n" nl) "\t" (String "009" "").

Record TrResult := { TrLines : list string; TrLineCount : Z; BytesIn : Z; BytesOut : Z }.

(** The lines of a text; an empty last one is left out. *)
Definition text_lines (s : string) : list string :=
  let l := split_nl s in if bool_decide (last l = Some "") then removelast l else l.

(** [trRun] after the options. *)
Definition trRun (order order' : list (string * string)) (f : tr_flags) (jsonMode : bool) (positional : list string) (stdin : string) : run_io TrResult :=
  match positional with
  | [] =>
      {| rc := 1; out := RenderError "tr" 1 "MISSING" "missing operand" jsonMode; errs := [line "tr: missing operand"] |}
  | set1 :: rest =>
      let result := tr_Run order order' stdin (unescape set1) (unescape (hd "" rest)) f in
      {| rc := 0;
         out := if jsonMode then
                  Render "tr" {| TrLines := text_lines result; TrLineCount := Z.of_nat (length (text_lines result));
                                 BytesIn := Z.of_nat (String.length stdin); BytesOut := Z.of_nat (String.length result) |} true []
                else [CText result];
         errs := [] |}
  end.
