(* ===== verification/TrLaws.v ===== *)
(** Laws of tr: translating back gives the text back, and squeezing a text twice is squeezing it once. *)

From S2P Require Import Prelude GoStd Scanner Lines Utf8 Utf8Laws Output Tr.

Local Open Scope Z_scope.

Lemma build_trans_other s1 : forall s2 last m r, r ∉ s1 -> build_trans s1 s2 last m !! r = m !! r.
Proof.
  induction s1 as [|a s1 IH]; intros s2 last m r Hr; [done|]. cbn [build_trans]. apply not_elem_of_cons in Hr as [Hra Hr].
  rewrite IH by done. by rewrite lookup_insert_ne.
Qed.

(** A rune of the first set goes to the rune at its position in the second. *)
Lemma build_trans_at s1 : forall s2 last m i a b, NoDup s1 -> s1 !! i = Some a -> s2 !! i = Some b ->
  build_trans s1 s2 last m !! a = Some b.
Proof.
  induction s1 as [|x s1 IH]; intros s2 last m [|i] a b Hn Ha Hb; try done; apply NoDup_cons in Hn as [Hx Hn]; cbn [build_trans].
  - injection Ha as ->. rewrite build_trans_other by done. rewrite lookup_insert_eq. destruct s2; [done|]. by injection Hb as ->.
  - destruct s2 as [|y s2]; [done|]. by apply (IH s2 last _ i).
Qed.

Definition translate : tr_flags := {| deleteFlag := false; squeezeFlag := false; complementFlag := false |}.

Section Sets.
Variables order order' : list (string * string).

(** A set that stands for a list of runes, whatever the order of the classes. *)
Definition stands_for (set : string) (l : list Z) : Prop := expandSetList order set = l /\ expandSetList order' set = l.

Lemma tr_translate set1 set2 l1 l2 rs : stands_for set1 l1 -> stands_for set2 l2 -> set2 <> "" -> l2 <> [] -> forall last,
  tr_runes translate (make_sets order order' set1 set2 translate) last rs =
  (fun r => default r (build_trans l1 l2 (List.last l2 0) ∅ !! r)) <$> rs.
Proof.
  intros [H1 H1'] [H2 H2'] Hne Hl. unfold make_sets. rewrite H1, H2. destruct (String.eqb_spec set2 "") as [|_]; [done|].
  cbn [translate deleteFlag squeezeFlag negb andb]. rewrite bool_decide_false by done. cbn [negb].
  unfold expandSet. rewrite H1'. induction rs as [|r rs IH]; intros last; [done|].
  cbn [tr_runes translate deleteFlag squeezeFlag andb fmap list_fmap]. cbv zeta. rewrite IH. f_equal.
  unfold out_rune, in_set1. cbn [translate complementFlag deleteFlag s1Map s2List trans negb]. rewrite xorb_false_r, andb_true_r.
  rewrite (bool_decide_false (l2 = [])) by done. cbn [negb]. rewrite andb_true_r.
  destruct (decide (r ∈ l1)) as [Hr|Hr].
  - rewrite bool_decide_true by (by apply elem_of_list_to_set). by destruct (_ !! r).
  - rewrite bool_decide_false by (by rewrite elem_of_list_to_set). rewrite build_trans_other by done. by rewrite lookup_empty.
Qed.

Lemma translated_back l1 l2 r : NoDup l1 -> NoDup l2 -> length l1 = length l2 -> (r ∈ l2 -> r ∈ l1) -> forall last last',
  let r' := default r (build_trans l1 l2 last ∅ !! r) in default r' (build_trans l2 l1 last' ∅ !! r') = r.
Proof.
  intros Hn1 Hn2 Hlen Hr last last'. cbv zeta. destruct (decide (r ∈ l1)) as [Hin|Hin].
  - apply list_elem_of_lookup in Hin as [i Hi]. pose proof (lookup_lt_Some _ _ _ Hi) as Hlt.
    destruct (lookup_lt_is_Some_2 l2 i) as [b Hb]; [lia|]. rewrite (build_trans_at l1 l2 last ∅ i r b) by done. cbn [default].
    by rewrite (build_trans_at l2 l1 last' ∅ i b r).
  - rewrite build_trans_other by done. rewrite lookup_empty. cbn [default]. rewrite build_trans_other by auto. by rewrite lookup_empty.
Qed.

(** Translating with two sets of different characters and then with the sets exchanged gives the
    text back, if it has no characters that are only in the second set: tr a-z b-za and back, for UTF-8. *)
Theorem tr_inverse set1 set2 l1 l2 text : stands_for set1 l1 -> stands_for set2 l2 -> set1 <> "" -> set2 <> "" -> l1 <> [] ->
  NoDup l1 -> NoDup l2 -> length l1 = length l2 -> Forall (fun r => valid_rune r = true) l2 ->
  utf8_text text = true -> Forall (fun r => r ∈ l2 -> r ∈ l1) (runes text) ->
  tr_Run order order' (tr_Run order order' text set1 set2 translate) set2 set1 translate = text.
Proof.
  intros H1 H2 Hs1 Hs2 Hl1 Hn1 Hn2 Hlen Hv Ht Hr. assert (Hl2 : l2 <> []) by (intros ->; by destruct l1).
  unfold tr_Run. rewrite (tr_translate set1 set2 l1 l2) by done. rewrite (tr_translate set2 set1 l2 l1) by done.
  set (g r := default r (build_trans l1 l2 (List.last l2 0) ∅ !! r)). rewrite runes_string_of_runes.
  - rewrite <- list_fmap_compose. transitivity (string_of_runes (runes text)); [|by apply utf8_runes]. f_equal. rewrite <- (list_fmap_id (runes text)) at 2.
    apply list_fmap_ext. intros i r Hi. rewrite Forall_lookup in Hr. by apply (translated_back l1 l2 r Hn1 Hn2 Hlen (Hr _ _ Hi)).
  - apply Forall_fmap, Forall_forall. intros r Hin. unfold compose, g. pose proof (runes_valid text) as Hvt. rewrite Forall_forall in Hvt.
    destruct (decide (r ∈ l1)) as [Hr1|Hr1]; [|rewrite build_trans_other by done; rewrite lookup_empty; by apply Hvt].
    apply list_elem_of_lookup in Hr1 as [i Hi]. pose proof (lookup_lt_Some _ _ _ Hi) as Hlt. destruct (lookup_lt_is_Some_2 l2 i) as [b Hb]; [lia|].
    rewrite (build_trans_at l1 l2 _ ∅ i r b) by done. rewrite Forall_lookup in Hv. by apply (Hv i).
Qed.

(** ** Squeezing *)

Definition squeezing : tr_flags := {| deleteFlag := false; squeezeFlag := true; complementFlag := false |}.

Lemma squeeze_step s last r rs : s2List s = [] -> tr_runes squeezing s last (r :: rs) =
  if bool_decide (r ∈ s1Map s) && (r =? last) then tr_runes squeezing s last rs else r :: tr_runes squeezing s r rs.
Proof.
  intros Hs. cbn [tr_runes squeezing deleteFlag squeezeFlag andb]. cbv zeta. unfold out_rune, in_squeeze_set. rewrite Hs.
  rewrite (bool_decide_true ([] = [])) by done. cbn [negb]. rewrite andb_false_r. unfold in_set1. cbn [squeezing complementFlag]. by rewrite xorb_false_r.
Qed.

Lemma squeeze_twice s : s2List s = [] -> forall rs last, tr_runes squeezing s last (tr_runes squeezing s last rs) = tr_runes squeezing s last rs.
Proof.
  intros Hs. induction rs as [|r rs IH]; intros last; [done|]. rewrite squeeze_step by done.
  destruct (bool_decide (r ∈ s1Map s) && (r =? last)) eqn:E; [apply IH|]. rewrite squeeze_step by done. rewrite E. by rewrite IH.
Qed.

Lemma tr_runes_valid s rs : s2List s = [] -> Forall (fun r => valid_rune r = true) rs -> forall last,
  Forall (fun r => valid_rune r = true) (tr_runes squeezing s last rs).
Proof.
  intros Hs. induction 1 as [|r rs Hr _ IH]; intros last; [constructor|]. rewrite squeeze_step by done. destruct (_ && _); [done|]. by constructor.
Qed.

(** tr -s with one set is idempotent. *)
Theorem tr_squeeze_idempotent set text : tr_Run order order' (tr_Run order order' text set "" squeezing) set "" squeezing =
  tr_Run order order' text set "" squeezing.
Proof.
  unfold tr_Run. assert (Hs : s2List (make_sets order order' set "" squeezing) = []) by done.
  rewrite runes_string_of_runes by (apply tr_runes_valid; [done|apply runes_valid]). by rewrite squeeze_twice.
Qed.
End Sets.

(** ** Examples *)

Definition rot1 : list Z := rune_range 98 122 ++ [97].

Lemma tr_inverse_witness :
  stands_for charClasses charClasses "a-z" (rune_range 97 122) /\ stands_for charClasses charClasses "b-za" rot1 /\
  tr_Run charClasses charClasses ("vice " +:+ String "195" (String "169" "")) "a-z" "b-za" translate = "wjdf " +:+ String "195" (String "169" "") /\
  tr_Run charClasses charClasses (tr_Run charClasses charClasses ("vice " +:+ String "195" (String "169" "")) "a-z" "b-za" translate) "b-za" "a-z" translate =
  "vice " +:+ String "195" (String "169" "").
Proof.
  assert (H1 : stands_for charClasses charClasses "a-z" (rune_range 97 122)) by (split; vm_compute; reflexivity).
  assert (H2 : stands_for charClasses charClasses "b-za" rot1) by (split; vm_compute; reflexivity).
  split; [exact H1|]. split; [exact H2|]. split; [vm_compute; reflexivity|].
  apply (tr_inverse charClasses charClasses "a-z" "b-za" (rune_range 97 122) rot1); [exact H1|exact H2|discriminate|discriminate|discriminate| | |reflexivity| |reflexivity|].
  - apply (bool_decide_unpack _). vm_compute. exact I.
  - apply (bool_decide_unpack _). vm_compute. exact I.
  - apply (bool_decide_unpack _). vm_compute. exact I.
  - apply (bool_decide_unpack _). vm_compute. exact I.
Defined.

Definition run_tr (f : tr_flags) (set1 set2 text : string) : string := tr_Run charClasses charClasses text set1 set2 f.

(** -s with two sets only squeezes: nothing is translated. *)
Example tr_squeeze_does_not_translate : run_tr squeezing "a" "b" "aabb" = "aab".
Proof. vm_compute. reflexivity. Qed.

(** A byte that starts no rune becomes U+FFFD, whatever the sets. *)
Example tr_replaces_bytes : run_tr translate "a" "b" (String "233" "") = String "239" (String "191" (String "189" "")).
Proof. vm_compute. reflexivity. Qed.

(** A range that goes down is empty, not an error. *)
Example tr_reversed_range : run_tr translate "z-a" "x" "az" = "az".
Proof. vm_compute. reflexivity. Qed.

(** The escape \\ is not known: a backslash before an n stays an escape. *)
Example tr_escaped_backslash : unescape "\\n" = String "092" nl.
Proof. vm_compute. reflexivity. Qed.

Example tr_classes : run_tr translate "[:lower:]" "[:upper:]" "Hello" = "HELLO".
Proof. vm_compute. reflexivity. Qed.
