(* ===== verification/Escape.v ===== *)
(** Backslash escapes and echo: pkg/common/escape.go and pkg/echo/echo.go. *)

From S2P Require Import Prelude GoStd Scanner Output.

Local Open Scope Z_scope.

Inductive EscapeMode := EscapeFormat | EscapeArg.

Definition isOctalDigit (b : ascii) : bool := (48 <=? code b) && (code b <=? 55).
Definition isHexDigit (b : ascii) : bool :=
  ((48 <=? code b) && (code b <=? 57)) || ((97 <=? code b) && (code b <=? 102)) || ((65 <=? code b) && (code b <=? 70)).

(** At most [n] bytes that satisfy [P], and the rest. *)
Fixpoint span_at_most (n : nat) (P : ascii -> bool) (s : string) : string * string :=
  match n, s with
  | S n, String c t => if P c then let '(w, r) := span_at_most n P t in (String c w, r) else ("", s)
  | _, _ => ("", s)
  end.

(** The byte of octal digits after \0, if it is one; otherwise a NUL byte, and the digits stay. *)
Definition octal_byte (digits rest after : string) : ascii * string :=
  match ParseUint digits 8 8 with Some v => (chr v, rest) | None => (chr 0, after) end.

Definition byte_of (z : Z) : ascii := chr (z mod 256).

(** The escapes of one letter. *)
Definition letter_escape (c : ascii) : option ascii :=
  if c =c? "n"%char then Some (chr 10) else if c =c? "t"%char then Some (chr 9) else if c =c? "r"%char then Some (chr 13)
  else if c =c? "\"%char then Some "\"%char else if c =c? "a"%char then Some (chr 7) else if c =c? "b"%char then Some (chr 8)
  else if c =c? "f"%char then Some (chr 12) else if c =c? "v"%char then Some (chr 11) else None.

(** [ExpandEscapes]; the fuel is the length. *)
Fixpoint expand_escapes (fuel : nat) (mode : EscapeMode) (s : string) : string :=
  match fuel with
  | O => ""
  | S fuel =>
      match s with
      | "" => ""
      | String b "" => String b ""
      | String b (String c t) =>
          if negb (b =c? "\"%char) then String b (expand_escapes fuel mode (String c t))
          else
            match letter_escape c with
            | Some x => String x (expand_escapes fuel mode t)
            | None =>
                if c =c? "x"%char then
                  let '(digits, rest) := span_at_most 2 isHexDigit t in
                  match ParseUint digits 16 8 with
                  | Some v => String (chr v) (expand_escapes fuel mode rest)
                  | None => "\x" +:+ expand_escapes fuel mode t
                  end
                else if c =c? "0"%char then
                  let '(digits, rest) := span_at_most 3 isOctalDigit t in
                  let '(x, rest) := octal_byte digits rest t in String x (expand_escapes fuel mode rest)
                else
                  match mode with
                  | EscapeArg =>
                      if isOctalDigit c then
                        let '(digits, rest) := span_at_most 2 isOctalDigit t in
                        String (byte_of (default 0 (parse_digits 8 (String c digits) 0))) (expand_escapes fuel mode rest)
                      else String b (String c (expand_escapes fuel mode t))
                  | EscapeFormat => String b (String c (expand_escapes fuel mode t))
                  end
            end
      end
  end.

Definition ExpandEscapes (s : string) (mode : EscapeMode) : string := expand_escapes (String.length s) mode s.

(** * echo *)

Record EchoResult := { Text : string }.

Definition echo_Run (escape : bool) (words : list string) : EchoResult :=
  let text := join_with " " words in {| Text := if escape then ExpandEscapes text EscapeArg else text |}.

Record echo_flags := { noNewline : bool; escape : bool; echo_json : bool; words : list string }.

(** A group of the flags n, e and E: -n, -e, and whether there is an E; [None] for other letters. *)
Fixpoint flag_group (chars : string) (nnl esc hasE : bool) : option (bool * bool * bool) :=
  match chars with
  | "" => Some (nnl, esc, hasE)
  | String c chars =>
      if c =c? "n"%char then flag_group chars true esc hasE
      else if c =c? "e"%char then flag_group chars nnl true hasE
      else if c =c? "E"%char then flag_group chars nnl false true
      else None
  end.

Fixpoint parse_echo (args : list string) (noNewline escape jsonMode : bool) : echo_flags :=
  match args with
  | [] => {| noNewline := noNewline; escape := escape; echo_json := jsonMode; words := [] |}
  | a :: rest =>
      if a =s? "--json" then parse_echo rest noNewline escape true
      else
        match a with
        | String d (String c _ as chars) =>
            if (d =c? "-"%char) && negb (c =c? "-"%char) then
              match flag_group chars false false false with
              | Some (nnl, esc, hasE) => parse_echo rest nnl (if esc || hasE then esc else escape) jsonMode
              | None => {| noNewline := noNewline; escape := escape; echo_json := jsonMode; words := args |}
              end
            else {| noNewline := noNewline; escape := escape; echo_json := jsonMode; words := args |}
        | _ => {| noNewline := noNewline; escape := escape; echo_json := jsonMode; words := args |}
        end
  end.

Definition parseEchoFlags (args : list string) : echo_flags := parse_echo args false false false.

Definition echoRun (args : list string) : run_io EchoResult :=
  let f := parseEchoFlags args in
  let r := echo_Run (escape f) (words f) in
  {| rc := 0; out := Render "echo" r (echo_json f) [CText (if noNewline f then Text r else Text r +:+ nl)]; errs := [] |}.
