(* ===== verification/Printf.v ===== *)
(** printf: pkg/printf/printf.go, with the verbs of [fmt.Sprintf] for integers that it uses.

    The format is read again as long as arguments are left.  Floating-point numbers are parameters. *)

From S2P Require Import Prelude GoStd Scanner Utf8 Output Escape.

Local Open Scope Z_scope.

(** * Integers as strconv reads them with base 0 *)

Definition lower_byte (c : ascii) : Z := Z.lor (code c) 32.

(** [underscoreOK] after the sign: digits around every underscore.  [i] is the kind of the byte before:
    0 for a digit, 1 for an underscore, 2 for another. *)
Fixpoint underscores_ok (hex : bool) (i : Z) (s : string) : bool :=
  match s with
  | "" => negb (i =? 1)
  | String c s =>
      if ((48 <=? code c) && (code c <=? 57)) || (hex && (97 <=? lower_byte c) && (lower_byte c <=? 102)) then underscores_ok hex 0 s
      else if code c =? 95 then if i =? 0 then underscores_ok hex 1 s else false
      else if i =? 1 then false else underscores_ok hex 2 s
  end.

Definition underscoreOK (s : string) : bool :=
  match s with
  | String c (String d t) =>
      if (c =c? "0"%char) && ((lower_byte d =? 98) || (lower_byte d =? 111) || (lower_byte d =? 120)) then underscores_ok (lower_byte d =? 120) 0 t
      else underscores_ok false 2 s
  | _ => underscores_ok false 2 s
  end.

(** The base that a prefix stands for, and the rest. *)
Definition base_prefix (s : string) : Z * string :=
  match s with
  | String c t =>
      if c =c? "0"%char then
        match t with
        | String d (String _ _ as u) =>
            if lower_byte d =? 98 then (2, u) else if lower_byte d =? 111 then (8, u) else if lower_byte d =? 120 then (16, u) else (8, t)
        | _ => (8, t)
        end
      else (10, s)
  | "" => (10, s)
  end.

(** [strconv.ParseUint(s, 0, 64)] *)
Definition ParseUint0 (s : string) : option Z :=
  if s =s? "" then None
  else
    let '(base, body) := base_prefix s in
    v ← parse_digits base (remove_char "_" body) 0;
    if (v <? 2 ^ 64) && (bool_decide (Index body "_" = None) || underscoreOK s) then Some v else None.

(** [strconv.ParseInt(s, 0, 64)] *)
Definition ParseInt0 (s : string) : option Z :=
  match s with
  | "" => None
  | String c t =>
      let neg := c =c? "-"%char in
      let body := if neg || (c =c? "+"%char) then t else s in
      un ← ParseUint0 body;
      if neg then if un <=? 2 ^ 63 then Some (- un) else None else if un <? 2 ^ 63 then Some un else None
  end.

(** [parseInt], [parseUint] and [parseFloat]: the value, and the text that is not a number. *)
Definition parse_number {A} (zero : A) (parse : string -> option A) (s : string) : A * string :=
  let s := TrimLeft (fun c => c =c? " "%char) s in
  match s with
  | "" => (zero, "")
  | String c t => let s := if c =c? "+"%char then t else s in match parse s with Some v => (v, "") | None => (zero, s) end
  end.

(** * fmt.Sprintf of an integer *)

Record fmt_flags := { f_minus : bool; f_plus : bool; f_space : bool; f_zero : bool; f_sharp : bool }.

Definition has (c : ascii) (flags : string) : bool := negb (str_forall (fun d => negb (d =c? c)) flags).

Definition flags_of (flags : string) : fmt_flags :=
  {| f_minus := has "-" flags; f_plus := has "+" flags; f_space := has " " flags; f_zero := has "0" flags; f_sharp := has "#" flags |}.

Definition digit_char (upper : bool) (d : Z) : ascii := chr (if d <? 10 then 48 + d else (if upper then 55 else 87) + d).

(** The digits of a number; the fuel bounds their count. *)
Fixpoint digits_of (fuel : nat) (base : Z) (upper : bool) (n : Z) (acc : string) : string :=
  match fuel with
  | O => acc
  | S fuel =>
      let acc := String (digit_char upper (n mod base)) acc in
      if n <? base then acc else digits_of fuel base upper (n / base) acc
  end.

Definition pad (f : fmt_flags) (width : Z) (s : string) : string :=
  let n := Z.to_nat (width - Z.of_nat (String.length s)) in
  if f_minus f then s +:+ repeat_char " " n else repeat_char " " n +:+ s.

(** [fmtInteger]: the magnitude, the base, and the sign. *)
Definition fmtInteger (f : fmt_flags) (width prec : option Z) (u base : Z) (negative upper : bool) : string :=
  let wid := default 0 width in
  let no_digits := match prec with Some p => (p =? 0) && (u =? 0) | None => false end in
  if no_digits then repeat_char " " (Z.to_nat wid)
  else
    let least := match prec with
                 | Some p => p
                 | None => if f_zero f && negb (f_minus f) && bool_decide (width <> None)
                           then wid - (if negative || f_plus f || f_space f then 1 else 0) else 0
                 end in
    let ds := digits_of 64 base upper u "" in
    let ds := repeat_char "0" (Z.to_nat (least - Z.of_nat (String.length ds))) +:+ ds in
    let ds := if f_sharp f then
                if base =? 8 then if HasPrefix ds "0" then ds else "0" +:+ ds
                else if base =? 16 then (if upper then "0X" else "0x") +:+ ds else ds
              else ds in
    let sign := if negative then "-" else if f_plus f then "+" else if f_space f then " " else "" in
    pad f wid (sign +:+ ds).

(** A width or precision above a million is not a number to fmt. *)
Definition too_large (n : option Z) : bool := match n with Some v => 1000000 <? v | None => false end.

(** [Sprintf] of a format with these flags, width, precision and verb, and one integer. *)
Definition Sprintf_integer (flags : string) (width prec : option Z) (conv : ascii) (val : Z) (unsigned : bool) : string :=
  if too_large width || too_large prec then
    "%!(NOVERB)%!(EXTRA " +:+ (if unsigned then "uint64=" else "int64=") +:+ FormatInt val +:+ ")"
  else
    let f := flags_of flags in
    let integer base upper := fmtInteger f width prec (Z.abs val) base (val <? 0) upper in
    if conv =c? "d"%char then integer 10 false
    else if conv =c? "o"%char then integer 8 false
    else if conv =c? "x"%char then integer 16 false
    else if conv =c? "X"%char then integer 16 true
    else "%!" +:+ String conv "" +:+ "(" +:+ (if unsigned then "uint64=" else "int64=") +:+ integer 10 false +:+ ")".

(** * The formatter *)

Section Printf.
(** Floating-point numbers: reading them, and [Sprintf] of one. *)
Context {F : Type}.
Variable float_zero : F.
Variable ParseFloat : string -> option F.
Variable Sprintf_float : string -> F -> string.
Variable args : list string.

Record runState := { stdout : string; argIdx : nat; hadErr : bool }.

Definition write (s : string) (st : runState) : runState := {| stdout := stdout st +:+ s; argIdx := argIdx st; hadErr := hadErr st |}.

(** [nextArg]: the arguments over and over again. *)
Definition nextArg (st : runState) : string * runState :=
  match args with
  | [] => ("", st)
  | _ => (nth (argIdx st mod length args) args "", {| stdout := stdout st; argIdx := S (argIdx st); hadErr := hadErr st |})
  end.

Definition ends_line (s : string) : bool :=
  match String.length s with O => true | S k => str_drop k s =s? nl end.

Definition formatError (msg detail : string) (st : runState) : runState :=
  {| stdout := stdout st +:+ (if ends_line (stdout st) then "" else nl) +:+ "printf: " +:+
               (if msg =s? "invalid format" then detail +:+ ": " +:+ msg else msg +:+ " '" +:+ detail +:+ "'") +:+ nl;
     argIdx := argIdx st; hadErr := true |}.

(** The conversion of a specification: its flags, width (-1 for none) and precision. *)
Record conversion := { flags : string; width : Z; precision : option Z }.

(** A negative width, the one of a specification without width too, is a flag -. *)
Definition left_justified (c : conversion) : string * Z :=
  if width c <? 0 then ("-" +:+ flags c, wrap 64 (- width c)) else (flags c, width c).

Definition clamp_precision (c : conversion) : option Z := (fun p => if p <? 0 then 0 else p) <$> precision c.

Definition formatInt (val : Z) (conv : ascii) (c : conversion) (st : runState) : runState :=
  let conv := if conv =c? "i"%char then "d"%char else conv in
  let '(fl, w) := left_justified c in
  let prec := clamp_precision c in
  let wid := if 0 <? w then Some w else None in
  write (Sprintf_integer fl wid prec conv val false) st.

Definition formatUint (val : Z) (conv : ascii) (c : conversion) (st : runState) : runState :=
  let '(fl, w) := left_justified c in
  let wid := if 0 <? w then Some w else None in
  write (Sprintf_integer fl wid (clamp_precision c) conv val true) st.

Definition formatFloat (val : F) (conv : ascii) (c : conversion) (st : runState) : runState :=
  let '(fl, w) := left_justified c in
  let prec := match precision c with Some p => if p <? 0 then None else Some p | None => None end in
  write (Sprintf_float ("%" +:+ fl +:+ (if 0 <? w then FormatInt w else "") +:+
                        (match prec with Some p => "." +:+ FormatInt p | None => "" end) +:+ String conv "") val) st.

Definition formatString (arg : string) (c : conversion) (st : runState) : runState :=
  let len := Z.of_nat (String.length arg) in
  let arg := match precision c with Some p => if (0 <=? p) && (p <? len) then str_take (Z.to_nat p) arg else arg | None => arg end in
  let len := Z.of_nat (String.length arg) in
  if (0 <=? width c) && (len <? width c) then
    let blanks := repeat_char " " (Z.to_nat (width c - len)) in
    write (if has "-" (flags c) then arg +:+ blanks else blanks +:+ arg) st
  else write arg st.

(** [unescapeChar] *)
Definition unescapeChar (s : string) : ascii :=
  match s with
  | "" => chr 0
  | String c _ =>
      match letter_escape c with
      | Some x => x
      | None =>
          if c =c? "0"%char then chr 0
          else if (3 <=? String.length s)%nat && isOctalDigit c then
            byte_of (default 0 (parse_digits 8 (fst (span_at_most 3 isOctalDigit s)) 0))
          else c
      end
  end.

(** The argument between single quotes: the character it is, if it is one, and the argument that is left. *)
Definition quoted (arg : string) : option ascii * string :=
  if (2 <=? String.length arg)%nat && HasPrefix arg "'" && (str_drop (String.length arg - 1) arg =s? "'") then
    let arg := str_take (String.length arg - 2) (str_drop 1 arg) in
    let arg := if (2 <=? String.length arg)%nat && HasPrefix arg "\" then EncodeRune (code (unescapeChar (str_drop 1 arg))) else arg in
    match arg with String c _ => (Some c, arg) | "" => (None, arg) end
  else (None, arg).

Definition dquote : ascii := chr 34.

(** [doIntConv]; [None] is an index out of range. *)
Definition doIntConv (conv : ascii) (c : conversion) (st : runState) : option runState :=
  let '(arg, st) := nextArg st in
  match quoted arg with
  | (Some ch, _) => Some (formatInt (code ch) conv c st)
  | (None, arg) =>
      if HasPrefix arg (String dquote "") then
        match arg with
        | String _ (String x t) =>
            let val := if (2 <? String.length arg)%nat && (x =c? "\"%char) then code (unescapeChar t) else code x in
            Some (formatInt val conv c st)
        | _ => None
        end
      else
        let '(val, remaining) := parse_number 0 ParseInt0 arg in
        match arg with
        | String q (String x _) =>
            if negb (remaining =s? "") && (q =c? "'"%char) then Some (formatInt (code x) conv c st)
            else if remaining =s? arg then Some (formatInt 0 conv c (formatError "invalid number" arg st))
            else Some (formatInt val conv c (if remaining =s? "" then st else formatError "invalid number" arg st))
        | _ =>
            if remaining =s? arg then Some (formatInt 0 conv c (formatError "invalid number" arg st))
            else Some (formatInt val conv c (if remaining =s? "" then st else formatError "invalid number" arg st))
        end
  end.

(** A number that is read by [parse] and written by [format]. *)
Definition doNumConv {A} (zero : A) (parse : string -> option A) (format : A -> runState -> runState) (st : runState) : runState :=
  let '(arg, st) := nextArg st in
  let '(val, remaining) := parse_number zero parse arg in
  if remaining =s? arg then format zero (formatError "invalid number" arg st)
  else format val (if remaining =s? "" then st else formatError "invalid number" arg st).

Definition doUintConv (conv : ascii) (c : conversion) : runState -> runState := doNumConv 0 ParseUint0 (fun v => formatUint v conv c).
Definition doFloatConv (conv : ascii) (c : conversion) : runState -> runState := doNumConv float_zero ParseFloat (fun v => formatFloat v conv c).

Definition doStringConv (c : conversion) (st : runState) : runState := let '(arg, st) := nextArg st in formatString arg c st.

Definition doCharConv (st : runState) : runState :=
  let '(arg, st) := nextArg st in match arg with String x _ => write (String x "") st | "" => st end.

Definition doBConv (st : runState) : runState := let '(arg, st) := nextArg st in write (ExpandEscapes arg EscapeArg) st.

Definition is_flag (c : ascii) : bool :=
  (c =c? "-"%char) || (c =c? "+"%char) || (c =c? " "%char) || (c =c? "0"%char) || (c =c? "#"%char).

(** Digits as a number; it wraps around. *)
Fixpoint digits_value (s : string) (acc : Z) : Z :=
  match s with "" => acc | String c s => digits_value s (wrap 64 (acc * 10 + (code c - 48))) end.

(** A number of a specification: * is the next argument, 0 if it is none; otherwise digits, if there are. *)
Definition spec_number (f : string) (st : runState) : option Z * string * runState :=
  match f with
  | String c t =>
      if c =c? "*"%char then let '(arg, st) := nextArg st in (Some (default 0 (Atoi arg)), t, st)
      else let '(ds, rest) := str_span is_digit f in (if ds =s? "" then None else Some (digits_value ds 0), rest, st)
  | "" => (None, "", st)
  end.

(** The length modifier is dropped. *)
Definition skip_length (f : string) : string :=
  match f with
  | String c t =>
      if (c =c? "h"%char) || (c =c? "l"%char) then match t with String d u => if d =c? c then u else t | "" => t end
      else if (c =c? "j"%char) || (c =c? "z"%char) || (c =c? "t"%char) || (c =c? "L"%char) then t else f
  | "" => ""
  end.

(** What follows the percent sign: flags, width, precision, and the rest. *)
Definition parse_spec (f : string) (st : runState) : conversion * string * runState :=
  let '(fl, f) := str_span is_flag f in
  let '(w, f, st) := spec_number f st in
  match f with
  | String "." t =>
      let '(p, f, st) := spec_number t st in
      ({| flags := fl; width := default (-1) w; precision := Some (default 0 p) |}, skip_length f, st)
  | _ => ({| flags := fl; width := default (-1) w; precision := None |}, skip_length f, st)
  end.

(** A conversion: [inl] a state, or [inr] the error of a letter that is none; [None] is a panic. *)
Definition convert (conv : ascii) (c : conversion) (st : runState) : option (runState + runState) :=
  let among l := bool_decide (conv ∈ String.list_ascii_of_string l) in
  if among "di" then inl <$> doIntConv conv c st
  else if among "ouxX" then Some (inl (doUintConv conv c st))
  else if among "fFeEgG" then Some (inl (doFloatConv conv c st))
  else if among "s" then Some (inl (doStringConv c st))
  else if among "c" then Some (inl (doCharConv st))
  else if among "%" then Some (inl (write "%" st))
  else if among "b" then Some (inl (doBConv st))
  else Some (inr (formatError "invalid format" (String "%" (EncodeRune (code conv))) st)).

(** A pass over the format: to its end, stopped, or a panic. *)
Inductive pass := Passed (st : runState) | Stopped (st : runState) | Panicked.

(** [processOnePass]; the fuel is the length of the format. *)
Fixpoint processOnePass (fuel : nat) (f : string) (st : runState) : pass :=
  match fuel with
  | O => Passed st
  | S fuel =>
      match f with
      | "" => Passed st
      | String c t =>
          if HasPrefix f "\c" then Stopped st
          else if negb (c =c? "%"%char) then processOnePass fuel t (write (String c "") st)
          else
            match t with
            | "" => Stopped (formatError "invalid format" "%" st)
            | String d u =>
                if d =c? "%"%char then processOnePass fuel u (write "%" st)
                else
                  let '(cv, rest, st) := parse_spec t st in
                  match rest with
                  | "" => Stopped (formatError "invalid format" ("%" +:+ flags cv) st)
                  | String conv rest =>
                      match convert conv cv st with
                      | None => Panicked
                      | Some (inr st) => Stopped st
                      | Some (inl st) => processOnePass fuel rest st
                      end
                  end
            end
      end
  end.

Inductive printf_result := Printed (output : string) (hadErr : bool) | Panics.

(** [Format]: passes while arguments are left; [None] is running out of fuel. *)
Fixpoint format_loop (fuel : nat) (format : string) (st : runState) : option printf_result :=
  match fuel with
  | O => None
  | S fuel =>
      if format =s? "" then Some (Printed (stdout st) (hadErr st))
      else
        match processOnePass (String.length format) format st with
        | Panicked => Some Panics
        | Stopped st => Some (Printed (stdout st) (hadErr st))
        | Passed st => if (length args <=? argIdx st)%nat then Some (Printed (stdout st) (hadErr st)) else format_loop fuel format st
        end
  end.

Definition start_state : runState := {| stdout := ""; argIdx := 0; hadErr := false |}.

Definition Format (fuel : nat) (format : string) : option printf_result :=
  format_loop fuel (ExpandEscapes format EscapeFormat) start_state.
End Printf.

Record PrintfResult := { Output : string }.

(** [run]: --json may stand anywhere; [None] is running out of fuel, [Some None] a panic. *)
Definition printfRun {F} (float_zero : F) ParseFloat Sprintf_float (fuel : nat) (args : list string) : option (option (run_io PrintfResult)) :=
  let jsonMode := existsb (fun a => a =s? "--json") args in
  match filter (fun a => a <> "--json") args with
  | [] =>
      Some (Some {| rc := 1; out := RenderError "printf" 1 "MISSING_OPERAND" "missing operand" jsonMode;
                    errs := if jsonMode then [] else [line "printf: missing operand"] |})
  | format :: fmtArgs =>
      r ← Format float_zero ParseFloat Sprintf_float fmtArgs fuel format;
      Some (match r with
            | Panics => None
            | Printed output hadErr =>
                Some {| rc := if hadErr then 1 else 0; out := Render "printf" {| Output := output |} jsonMode [CText output]; errs := [] |}
            end)
  end.
