(* ===== verification/PrintfLaws.v ===== *)
(** Laws of printf and echo: when printf ends, and what it prints of strings and numbers. *)

From S2P Require Import Prelude GoStd Scanner Utf8 Output Escape Printf.
From Stdlib Require Import ZifyBool.

Local Open Scope Z_scope.

(** ** The arguments that a format uses *)

Definition number_uses (f : string) : string * nat :=
  match f with
  | String c t => if c =c? "*"%char then (t, 1%nat) else (snd (str_span is_digit f), 0%nat)
  | "" => ("", 0%nat)
  end.

Definition spec_uses (f : string) : string * nat :=
  let f := snd (str_span is_flag f) in
  let '(f, n) := number_uses f in
  match f with
  | String "." t => let '(f, m) := number_uses t in (skip_length f, (n + m)%nat)
  | _ => (skip_length f, n)
  end.

(** The arguments of a conversion letter; [None] if it is none. *)
Definition conv_uses (conv : ascii) : option nat :=
  let among l := bool_decide (conv ∈ String.list_ascii_of_string l) in
  if among "di" || among "ouxX" || among "fFeEgG" || among "s" || among "c" then Some 1%nat
  else if among "%" then Some 0%nat else if among "b" then Some 1%nat else None.

(** The arguments that a pass over a format uses; [None] if the pass stops. *)
Fixpoint pass_uses (fuel : nat) (f : string) : option nat :=
  match fuel with
  | O => Some 0%nat
  | S fuel =>
      match f with
      | "" => Some 0%nat
      | String c t =>
          if HasPrefix f "\c" then None
          else if negb (c =c? "%"%char) then pass_uses fuel t
          else
            match t with
            | "" => None
            | String d u =>
                if d =c? "%"%char then pass_uses fuel u
                else
                  let '(rest, n) := spec_uses t in
                  match rest with
                  | "" => None
                  | String conv rest => m ← conv_uses conv; k ← pass_uses fuel rest; Some (n + m + k)%nat
                  end
            end
      end
  end.

Definition arguments_used (format : string) : option nat :=
  let f := ExpandEscapes format EscapeFormat in pass_uses (String.length f) f.

Section Laws.
Context {F : Type}.
Variable float_zero : F.
Variable ParseFloat : string -> option F.
Variable Sprintf_float : string -> F -> string.
Variable args : list string.

Notation convert := (convert float_zero ParseFloat Sprintf_float args).
Notation processOnePass := (processOnePass float_zero ParseFloat Sprintf_float args).
Notation format_loop := (format_loop float_zero ParseFloat Sprintf_float args).

(** The next argument is taken, if there are any. *)
Definition taken : nat := match args with [] => 0 | _ => 1 end.

Lemma nextArg_idx st : argIdx (snd (nextArg args st)) = (argIdx st + taken)%nat.
Proof. unfold nextArg, taken. destruct args; simpl; lia. Qed.

Lemma formatInt_idx v conv c st : argIdx (formatInt v conv c st) = argIdx st.
Proof. unfold formatInt. by destruct (left_justified c). Qed.

Lemma formatUint_idx v conv c st : argIdx (formatUint v conv c st) = argIdx st.
Proof. unfold formatUint. by destruct (left_justified c). Qed.

Lemma formatFloat_idx v conv c st : argIdx (formatFloat Sprintf_float v conv c st) = argIdx st.
Proof. unfold formatFloat. by destruct (left_justified c). Qed.

Lemma formatString_idx a c st : argIdx (formatString a c st) = argIdx st.
Proof. unfold formatString. by destruct (_ && _). Qed.

Lemma doNumConv_idx {A} (zero : A) parse format st : (forall v st, argIdx (format v st) = argIdx st) ->
  argIdx (doNumConv args zero parse format st) = (argIdx st + taken)%nat.
Proof.
  intros Hf. unfold doNumConv. pose proof (nextArg_idx st) as Hn. destruct (nextArg args st) as [arg st1]. cbn [snd] in Hn.
  destruct (parse_number zero parse arg) as [v r]. destruct (r =s? arg); rewrite Hf; [exact Hn|]. by destruct (r =s? "").
Qed.

Lemma doIntConv_idx conv c st : doIntConv args conv c st = None \/
  exists st', doIntConv args conv c st = Some st' /\ argIdx st' = (argIdx st + taken)%nat.
Proof.
  unfold doIntConv. pose proof (nextArg_idx st) as Hn. destruct (nextArg args st) as [arg st1]. cbn [snd] in Hn.
  destruct (quoted arg) as [[ch|] arg']; [right; eexists; split; [done|by rewrite formatInt_idx]|].
  destruct (HasPrefix arg' _).
  - destruct arg' as [|q [|x t]]; [by left|by left|]. right. eexists. split; [done|by rewrite formatInt_idx].
  - right. destruct (parse_number 0 ParseInt0 arg') as [v r].
    destruct arg' as [|q [|x t]]; repeat case_match; eexists; (split; [done|]); rewrite formatInt_idx; done.
Qed.

(** A conversion panics, or takes the arguments of its letter, or is none. *)
Lemma convert_uses conv c st : args <> [] -> convert conv c st = None \/
  match conv_uses conv with
  | Some n => exists st', convert conv c st = Some (inl st') /\ argIdx st' = (argIdx st + n)%nat
  | None => exists st', convert conv c st = Some (inr st')
  end.
Proof.
  intros Ha. assert (Ht : taken = 1%nat) by (unfold taken; by destruct args).
  unfold Printf.convert, conv_uses. cbv zeta.
  destruct (bool_decide (conv ∈ _ "di")); cbn [orb].
  { destruct (doIntConv_idx conv c st) as [->|(st' & -> & H)]; [by left|]. right. exists st'. by rewrite <- Ht. }
  right. destruct (bool_decide (conv ∈ _ "ouxX")); cbn [orb].
  { eexists. split; [done|]. rewrite <- Ht. apply doNumConv_idx. intros. apply formatUint_idx. }
  destruct (bool_decide (conv ∈ _ "fFeEgG")); cbn [orb].
  { eexists. split; [done|]. rewrite <- Ht. apply doNumConv_idx. intros. apply formatFloat_idx. }
  destruct (bool_decide (conv ∈ _ "s")); cbn [orb].
  { eexists. split; [done|]. unfold doStringConv. rewrite <- Ht, <- nextArg_idx. destruct (nextArg args st). apply formatString_idx. }
  destruct (bool_decide (conv ∈ _ "c")); cbn [orb].
  { eexists. split; [done|]. unfold doCharConv. rewrite <- Ht, <- nextArg_idx. by destruct (nextArg args st) as [[|x t] st1]. }
  destruct (bool_decide (conv ∈ _ "%")); [eexists; split; [done|simpl; lia]|].
  destruct (bool_decide (conv ∈ _ "b")); [|by eexists].
  eexists. split; [done|]. unfold doBConv. rewrite <- Ht, <- nextArg_idx. by destruct (nextArg args st).
Qed.

Lemma spec_number_uses f st : args <> [] -> exists n st', spec_number args f st = (n, fst (number_uses f), st') /\
  argIdx st' = (argIdx st + snd (number_uses f))%nat.
Proof.
  intros Ha. assert (Ht : taken = 1%nat) by (unfold taken; by destruct args). unfold spec_number, number_uses.
  destruct f as [|c t]; [exists None, st; split; [done|simpl; lia]|]. destruct (c =c? "*"%char).
  - pose proof (nextArg_idx st) as Hn. rewrite Ht in Hn. destruct (nextArg args st) as [a st']. by eexists _, st'.
  - destruct (str_span is_digit (String c t)) as [ds rest]. eexists _, st. split; [done|simpl; lia].
Qed.

Lemma parse_spec_uses f st : args <> [] -> exists cv st', parse_spec args f st = (cv, fst (spec_uses f), st') /\
  argIdx st' = (argIdx st + snd (spec_uses f))%nat.
Proof.
  intros Ha. unfold parse_spec, spec_uses. destruct (str_span is_flag f) as [fl f1]. cbn [snd].
  destruct (spec_number_uses f1 st Ha) as (w & st1 & -> & H1). destruct (number_uses f1) as [f2 n]. cbn [fst snd] in *.
  assert (Hplain : forall cv : conversion, exists cv' st', (cv, skip_length f2, st1) = (cv', fst (skip_length f2, n), st') /\ argIdx st' = (argIdx st + snd (skip_length f2, n))%nat)
    by (intros cv; by exists cv, st1).
  destruct f2 as [|c t]; [apply Hplain|]. destruct (ceqb_spec c "."%char) as [->|Hc].
  - destruct (spec_number_uses t st1 Ha) as (p & st2 & -> & H2). destruct (number_uses t) as [f3 m]. cbn [fst snd] in *.
    eexists _, st2. split; [done|]. lia.
  - clear -Hplain Hc. destruct c as [[][][][][][][][]]; try apply Hplain. done.
Qed.

(** A pass over a format panics, or uses the arguments that the format shows. *)
Lemma pass_uses_spec fuel : args <> [] -> forall f st, processOnePass fuel f st = Panicked \/
  match pass_uses fuel f with
  | Some n => exists st', processOnePass fuel f st = Passed st' /\ argIdx st' = (argIdx st + n)%nat
  | None => exists st', processOnePass fuel f st = Stopped st'
  end.
Proof.
  intros Ha. induction fuel as [|fuel IH]; intros f st; cbn [Printf.processOnePass pass_uses].
  { right. exists st. split; [done|lia]. }
  destruct f as [|c t]; [right; exists st; split; [done|lia]|]. destruct (HasPrefix (String c t) "\c"); [right; by eexists|].
  destruct (negb (c =c? "%"%char)).
  { destruct (IH t (write (String c "") st)) as [->|H]; [by left|]. right. exact H. }
  destruct t as [|d u]; [right; by eexists|]. destruct (d =c? "%"%char).
  { destruct (IH u (write "%" st)) as [->|H]; [by left|]. right. exact H. }
  destruct (parse_spec_uses (String d u) st Ha) as (cv & st1 & -> & H1). destruct (spec_uses (String d u)) as [rest n]. cbn [fst snd] in *.
  destruct rest as [|conv rest]; [right; by eexists|].
  destruct (convert_uses conv cv st1 Ha) as [->|Hcv]; [by left|]. destruct (conv_uses conv) as [m|]; cbn [mbind option_bind].
  - destruct Hcv as (st2 & -> & H2). destruct (IH rest st2) as [->|H]; [by left|]. right. destruct (pass_uses fuel rest) as [k|]; cbn [mbind option_bind].
    + destruct H as (st3 & -> & H3). exists st3. split; [done|lia].
    + exact H.
  - destruct Hcv as (st2 & ->). right. by exists st2.
Qed.

(** A conversion that uses no argument does not panic. *)
Lemma convert_zero conv c st : conv_uses conv = Some 0%nat -> exists st', convert conv c st = Some (inl st').
Proof.
  unfold Printf.convert, conv_uses. cbv zeta.
  destruct (bool_decide (conv ∈ _ "di")), (bool_decide (conv ∈ _ "ouxX")), (bool_decide (conv ∈ _ "fFeEgG")), (bool_decide (conv ∈ _ "s")),
    (bool_decide (conv ∈ _ "c")); cbn [orb]; try done.
  destruct (bool_decide (conv ∈ _ "%")); [by eexists|]. by destruct (bool_decide (conv ∈ _ "b")).
Qed.

Lemma pass_no_panic fuel : args <> [] -> forall f st, pass_uses fuel f = Some 0%nat -> processOnePass fuel f st <> Panicked.
Proof.
  intros Ha. induction fuel as [|fuel IH]; intros f st; cbn [Printf.processOnePass pass_uses]; [done|].
  destruct f as [|c t]; [done|]. destruct (HasPrefix (String c t) "\c"); [done|].
  destruct (negb (c =c? "%"%char)); [apply IH|]. destruct t as [|d u]; [done|]. destruct (d =c? "%"%char); [apply IH|].
  destruct (parse_spec_uses (String d u) st Ha) as (cv & st1 & -> & H1). destruct (spec_uses (String d u)) as [rest n]. cbn [fst snd] in *.
  destruct rest as [|conv rest]; [done|]. destruct (conv_uses conv) as [m|] eqn:Em; [|done]. cbn [mbind option_bind].
  destruct (pass_uses fuel rest) as [k|] eqn:Ek; [|done]. cbn [mbind option_bind]. intros H. injection H as H.
  assert (m = 0%nat) as -> by lia. assert (k = 0%nat) as -> by lia. destruct (convert_zero conv cv st1 Em) as [st' ->]. by apply IH.
Qed.

Lemma format_loop_step fuel f st : format_loop (S fuel) f st =
  if f =s? "" then Some (Printed (stdout st) (hadErr st))
  else match processOnePass (String.length f) f st with
       | Panicked => Some Panics
       | Stopped st => Some (Printed (stdout st) (hadErr st))
       | Passed st => if (length args <=? argIdx st)%nat then Some (Printed (stdout st) (hadErr st)) else format_loop fuel f st
       end.
Proof. done. Qed.

(** A format that uses no arguments is read again and again. *)
Lemma format_endless f : args <> [] -> f <> "" -> pass_uses (String.length f) f = Some 0%nat ->
  forall fuel st, argIdx st = 0%nat -> format_loop fuel f st = None.
Proof.
  intros Ha Hf Hu. induction fuel as [|fuel IH]; intros st Hst; [done|]. rewrite format_loop_step.
  destruct (String.eqb_spec f "") as [|_]; [done|].
  destruct (pass_uses_spec (String.length f) Ha f st) as [H|H]; [by destruct (pass_no_panic _ Ha f st Hu)|].
  rewrite Hu in H. destruct H as (st' & -> & H'). destruct (Nat.leb_spec (length args) (argIdx st')); [|apply IH; lia].
  destruct args; [done|simpl in *; lia].
Qed.

Lemma format_ends f n : args <> [] -> pass_uses (String.length f) f <> Some 0%nat \/ f = "" -> forall st, (length args <= argIdx st + n)%nat ->
  exists r, format_loop (S n) f st = Some r.
Proof.
  intros Ha Hu. induction n as [|n IH]; intros st Hst; rewrite format_loop_step; (destruct (String.eqb_spec f "") as [|Hf]; [by eexists|]);
    (destruct Hu as [Hu|]; [|done]); destruct (pass_uses_spec (String.length f) Ha f st) as [->|H]; try by eexists.
  all: destruct (pass_uses (String.length f) f) as [k|]; destruct H as (st' & H); [destruct H as [-> Hk]|rewrite H; by eexists].
  all: assert (k <> 0%nat) by congruence; destruct (Nat.leb_spec (length args) (argIdx st')); [by eexists|].
  - lia.
  - apply IH; lia.
Qed.

Notation Format := (Format float_zero ParseFloat Sprintf_float args).

(** C38: printf ends exactly if it has no arguments, or a pass over its format uses one, or stops; if it
    ends, one pass more than there are arguments is enough.  Otherwise it prints its format for ever. *)
Theorem printf_ends_iff format : (exists fuel r, Format fuel format = Some r) <->
  args = [] \/ ExpandEscapes format EscapeFormat = "" \/ arguments_used format <> Some 0%nat.
Proof.
  unfold Printf.Format, arguments_used. set (f := ExpandEscapes format EscapeFormat). split.
  - intros (fuel & r & H). destruct (decide (args = [])) as [|Ha]; [by left|]. right. destruct (decide (f = "")) as [|Hf]; [by left|]. right.
    intros Hu. by rewrite (format_endless f Ha Hf Hu) in H.
  - intros H. destruct (decide (args = [])) as [Ha|Ha].
    + exists 1%nat. rewrite format_loop_step. destruct (f =s? ""); [by eexists|]. destruct (Printf.processOnePass _ _ _ _ _ _ _); try by eexists.
      rewrite Ha. by eexists.
    + destruct H as [|H]; [done|]. exists (S (length args)). apply (format_ends f (length args) Ha); [tauto|simpl; lia].
Qed.
End Laws.

(** ** Texts and numbers *)

Lemma strings_pass {F} z p s args st : args <> [] -> processOnePass (F := F) z p s args 3 (String "%" (String "s" nl)) st =
  Passed {| stdout := stdout st +:+ nth (argIdx st mod length args) args "" +:+ nl; argIdx := S (argIdx st); hadErr := hadErr st |}.
Proof.
  intros Ha. cbn [processOnePass]. change (HasPrefix (String "%" (String "s" nl)) "\c") with false. change (negb ("%" =c? "%")%char) with false.
  change ("s" =c? "%")%char with false. cbv iota.
  assert (E : parse_spec args (String "s" nl) st = ({| flags := ""; width := -1; precision := None |}, String "s" nl, st)) by reflexivity.
  rewrite E. change (convert z p s args "s" {| flags := ""; width := -1; precision := None |} st) with
    (Some (inl (B := runState) (doStringConv args {| flags := ""; width := -1; precision := None |} st))).
  unfold doStringConv, nextArg. destruct args as [|a args]; [done|]. unfold formatString. cbn [precision width Z.leb Z.compare andb].
  cbv iota. unfold nl at 1. change (HasPrefix (String "010" "") "\c") with false. change (negb ("010" =c? "%")%char) with true. cbv iota.
  unfold write. cbn [stdout argIdx hadErr]. by rewrite sapp_assoc.
Qed.

(** Printf with the format %s\n prints its arguments, each on a line. *)
Theorem printf_lines {F} z p s args : args <> [] -> Format (F := F) z p s args (length args) "%s\n" = Some (Printed (text_of_lines args) false).
Proof.
  intros Ha. unfold Format, start_state. change (ExpandEscapes "%s\n" EscapeFormat) with (String "%" (String "s" nl)).
  assert (H : forall n i out, (i + n = length args)%nat -> (0 < n)%nat ->
    format_loop z p s args n (String "%" (String "s" nl)) {| stdout := out; argIdx := i; hadErr := false |} =
    Some (Printed (out +:+ text_of_lines (drop i args)) false)); [|rewrite (H (length args) 0%nat ""); [done|lia|destruct args; simpl; [done|lia]]].
  induction n as [|n IH]; intros i out Hi Hn; [lia|]. rewrite format_loop_step. cbn [String.eqb Ascii.eqb Bool.eqb String.length].
  change (String.length nl) with 1%nat. rewrite strings_pass by done. cbn [stdout argIdx hadErr]. rewrite Nat.mod_small by lia.
  assert (Hd : drop i args = nth i args "" :: drop (S i) args).
  { destruct (lookup_lt_is_Some_2 args i ltac:(lia)) as [a E]. rewrite (drop_S _ a) by done. f_equal. symmetry. by apply nth_lookup_Some. }
  rewrite Hd, text_cons. destruct (Nat.leb_spec (length args) (S i)).
  - rewrite drop_ge by lia. change (text_of_lines []) with "". by rewrite sapp_nil_r.
  - rewrite IH by lia. by rewrite !sapp_assoc.
Qed.

(** ** Numbers *)

Lemma digit_char_pretty d : 0 <= d < 10 -> digit_char false d = pretty_N_char (Z.to_N d).
Proof.
  intros Hd. assert (d = 0 \/ d = 1 \/ d = 2 \/ d = 3 \/ d = 4 \/ d = 5 \/ d = 6 \/ d = 7 \/ d = 8 \/ d = 9) as H by lia.
  repeat destruct H as [->|H]; try reflexivity. by subst.
Qed.

Lemma digits_of_pretty fuel : forall u acc, 0 < u < 10 ^ Z.of_nat fuel -> digits_of fuel 10 false u acc = pretty_N_go (Z.to_N u) acc.
Proof.
  induction fuel as [|fuel IH]; intros u acc Hu; [simpl in Hu; lia|]. cbn [digits_of]. cbv zeta.
  pose proof (Z.div_mod u 10 ltac:(lia)) as E. pose proof (Z.mod_pos_bound u 10 ltac:(lia)) as B.
  rewrite pretty_N_go_step by lia. rewrite digit_char_pretty by lia.
  replace (Z.to_N u `div` 10)%N with (Z.to_N (u / 10)) by (rewrite Z2N.inj_div by lia; done).
  replace (Z.to_N u `mod` 10)%N with (Z.to_N (u mod 10)) by (rewrite Z2N.inj_mod by lia; done).
  destruct (Z.ltb_spec u 10) as [H|H].
  - replace (u / 10) with 0 by lia. done.
  - apply IH. rewrite Nat2Z.inj_succ, Z.pow_succ_r in Hu by lia. lia.
Qed.

Lemma digits_of_FormatInt u : 0 <= u < 2 ^ 64 -> digits_of 64 10 false u "" = FormatInt u.
Proof.
  intros Hu. unfold FormatInt. replace (pretty u) with (pretty (Z.to_N u)) by (destruct u; done || lia).
  destruct (decide (u = 0)) as [->|Hne]; [done|]. rewrite digits_of_pretty.
  - unfold pretty, pretty_N. by rewrite decide_False by lia.
  - split; [lia|]. change (10 ^ Z.of_nat 64) with (10 ^ 64). lia.
Qed.

Lemma FormatInt_neg z : z < 0 -> FormatInt z = String "-" (FormatInt (- z)).
Proof. intros Hz. unfold FormatInt. destruct z; try lia. done. Qed.

(** Without flags and width a number is printed as strconv prints it. *)
Lemma Sprintf_d z : in_int64 z = true -> Sprintf_integer "-" (Some 1) None "d" z false = FormatInt z.
Proof.
  intros Hz. apply in_int64_iff in Hz. unfold Sprintf_integer. cbn [too_large Z.ltb Z.compare orb]. cbv iota zeta.
  unfold fmtInteger. change (flags_of "-") with {| f_minus := true; f_plus := false; f_space := false; f_zero := false; f_sharp := false |}.
  cbn [f_zero f_minus f_plus f_space f_sharp andb orb default]. cbv zeta. rewrite digits_of_FormatInt by lia.
  assert (Hpos : (0 < String.length (FormatInt (Z.abs z)))%nat).
  { destruct (FormatInt_digits (Z.abs z) ltac:(lia)) as [_ Hne]. destruct (FormatInt (Z.abs z)); [done|simpl; lia]. }
  replace (Z.to_nat (0 - Z.of_nat (String.length (FormatInt (Z.abs z))))) with 0%nat by lia. cbn [repeat_char]. rewrite sapp_nil_l.
  unfold pad. cbn [f_minus]. rewrite slength_app. replace (Z.to_nat (1 - _)) with 0%nat by lia. cbn [repeat_char]. rewrite sapp_nil_r.
  destruct (Z.ltb_spec z 0).
  - rewrite (FormatInt_neg z) by lia. rewrite Z.abs_neq by lia. done.
  - rewrite Z.abs_eq by lia. done.
Qed.

Lemma pretty_head x : forall s, (0 < x)%N -> exists c t, pretty_N_go x s = String c t /\ c <> "0"%char.
Proof.
  induction (N.lt_wf_0 x) as [x _ IH]; intros s Hx. rewrite pretty_N_go_step by lia. destruct (decide (x < 10)%N) as [H|H].
  - rewrite N.div_small, N.mod_small by lia. eexists _, s. split; [done|]. clear -Hx H.
    assert (x = 1 \/ x = 2 \/ x = 3 \/ x = 4 \/ x = 5 \/ x = 6 \/ x = 7 \/ x = 8 \/ x = 9)%N as Hc by lia. by repeat destruct Hc as [->|Hc]; [..|subst].
  - apply IH; [apply N.div_lt; lia|]. apply N.div_str_pos. lia.
Qed.

Lemma FormatInt_head n : 0 < n -> exists c t, FormatInt n = String c t /\ c <> "0"%char.
Proof.
  intros Hn. unfold FormatInt. replace (pretty n) with (pretty (Z.to_N n)) by (destruct n; done || lia).
  unfold pretty, pretty_N. rewrite decide_False by lia. apply pretty_head. lia.
Qed.

Lemma ParseUint0_FormatInt n : 0 <= n < 2 ^ 64 -> ParseUint0 (FormatInt n) = Some n.
Proof.
  intros Hn. destruct (FormatInt_digits n ltac:(lia)) as [Hd Hne]. unfold ParseUint0. destruct (String.eqb_spec (FormatInt n) "") as [|_]; [done|].
  assert (Hu : str_forall (fun d => negb (d =c? "_"%char)) (FormatInt n) = true) by (by apply digits_without).
  destruct (decide (n = 0)) as [->|Hz]; [done|].
  assert (Hb : base_prefix (FormatInt n) = (10, FormatInt n)).
  { pose proof (FormatInt_head n ltac:(lia)) as (c & t & E & Hc). rewrite E. unfold base_prefix. destruct (ceqb_spec c "0"%char) as [->|_]; done. }
  rewrite Hb. assert (Hr : remove_char "_" (FormatInt n) = FormatInt n).
  { clear -Hu. induction (FormatInt n) as [|c s IH]; [done|]. cbn [str_forall] in Hu. apply andb_true_iff in Hu as [Hc Hu].
    apply negb_true_iff in Hc. cbn [remove_char]. by rewrite Hc, IH. }
  rewrite Hr, parse_digits_FormatInt by lia. cbn [mbind option_bind]. rewrite Index_none by done.
  rewrite bool_decide_true by done. destruct (Z.ltb_spec n (2 ^ 64)); [done|lia].
Qed.

Lemma ParseInt0_FormatInt z : in_int64 z = true -> ParseInt0 (FormatInt z) = Some z.
Proof.
  intros Hz. apply in_int64_iff in Hz. destruct (Z.ltb_spec z 0) as [H|H].
  - rewrite FormatInt_neg by done. unfold ParseInt0. cbn [Ascii.eqb Bool.eqb orb]. cbv zeta iota. rewrite ParseUint0_FormatInt by lia. cbn [mbind option_bind].
    destruct (Z.leb_spec (- z) (2 ^ 63)); [f_equal; lia|lia].
  - destruct (FormatInt_digits z H) as [Hd Hne]. pose proof (ParseUint0_FormatInt z ltac:(lia)) as E. destruct (FormatInt z) as [|c t]; [done|].
    unfold ParseInt0. cbn [str_forall] in Hd. apply andb_true_iff in Hd as [Hc _]. destruct (ceqb_spec c "-"%char) as [->|_]; [done|].
    destruct (ceqb_spec c "+"%char) as [->|_]; [done|]. cbn [orb]. cbv zeta iota. rewrite E. cbn [mbind option_bind].
    destruct (Z.ltb_spec z (2 ^ 63)); [done|lia].
Qed.

(** Printf %d prints a 64-bit integer as it is written. *)
Theorem printf_number {F} z p s n : in_int64 n = true -> Format (F := F) z p s [FormatInt n] 1 "%d" = Some (Printed (FormatInt n) false).
Proof.
  intros Hn. unfold Format. change (ExpandEscapes "%d" EscapeFormat) with "%d". rewrite format_loop_step. cbn [String.eqb Ascii.eqb Bool.eqb String.length].
  cbn [processOnePass]. change (HasPrefix "%d" "\c") with false. change (negb ("%" =c? "%")%char) with false. change ("d" =c? "%")%char with false. cbv iota.
  set (cv := {| flags := ""; width := -1; precision := None |}).
  assert (E : forall args st, parse_spec args "d" st = (cv, "d", st)) by reflexivity. rewrite E.
  change (convert z p s [FormatInt n] "d" cv start_state) with (inl (B := runState) <$> doIntConv [FormatInt n] "d" cv start_state).
  unfold doIntConv, nextArg. change (nth (argIdx start_state mod length [FormatInt n]) [FormatInt n] "") with (FormatInt n).
  assert (Hh : exists c t, FormatInt n = String c t /\ c <> "'"%char /\ c <> " "%char /\ c <> "+"%char /\ c <> dquote).
  { apply in_int64_iff in Hn. destruct (Z.ltb_spec n 0); [rewrite FormatInt_neg by done; eexists _, _; by repeat split|].
    destruct (FormatInt_digits n ltac:(lia)) as [Hd Hne]. destruct (FormatInt n) as [|c t]; [done|]. exists c, t. cbn [str_forall] in Hd.
    apply andb_true_iff in Hd as [Hc _]. repeat split; intros ->; done. }
  destruct Hh as (c & t & Ec & H1 & H2 & H3 & H4). assert (Hq : quoted (FormatInt n) = (None, FormatInt n)).
  { unfold quoted. rewrite Ec. cbn [HasPrefix]. destruct (ceqb_spec "'"%char c) as [|_]; [by subst|]. by rewrite andb_false_r. }
  rewrite Hq. assert (Hd : HasPrefix (FormatInt n) (String dquote "") = false).
  { rewrite Ec. cbn [HasPrefix]. destruct (ceqb_spec dquote c) as [|_]; [by subst|done]. }
  rewrite Hd. assert (Hp : parse_number 0 ParseInt0 (FormatInt n) = (n, "")).
  { pose proof (ParseInt0_FormatInt n Hn) as Hi. unfold parse_number, TrimLeft. rewrite Ec in *. cbn [str_span].
    destruct (ceqb_spec c " "%char) as [|_]; [done|]. cbn [snd]. destruct (ceqb_spec c "+"%char) as [|_]; [done|]. by rewrite Hi. }
  rewrite Hp. assert (Hfin : forall st, formatInt n "d" cv st = write (FormatInt n) st).
  { intros st. unfold formatInt. cbn. by rewrite Sprintf_d. }
  rewrite Ec. destruct t as [|x t]; cbn [String.eqb negb andb fmap option_fmap option_map]; rewrite Hfin; cbn; rewrite ?Ec; done.
Qed.

(** ** Escapes *)

(** A text with its backslashes doubled. *)
Fixpoint quote (s : string) : string :=
  match s with "" => "" | String c s => if c =c? "\"%char then String c (String c (quote s)) else String c (quote s) end.

(** A text with doubled backslashes stands for itself, in a format and in an argument. *)
Theorem escapes_quoted s mode : ExpandEscapes (quote s) mode = s.
Proof.
  unfold ExpandEscapes. enough (H : forall fuel s, (String.length (quote s) <= fuel)%nat -> expand_escapes fuel mode (quote s) = s) by (by apply H).
  clear s. induction fuel as [|fuel IH]; intros [|c s] Hf; try done; cbn [quote] in *; destruct (ceqb_spec c "\"%char) as [->|Hc]; try (simpl in Hf; lia).
  - cbn [expand_escapes]. change (negb ("\" =c? "\")%char) with false. change (letter_escape "\") with (Some "\"%char). cbv iota.
    rewrite IH; [done|simpl in Hf; lia].
  - cbn [expand_escapes]. destruct (quote s) as [|d u] eqn:E.
    + destruct s as [|e s]; [done|]. cbn [quote] in E. by destruct (e =c? "\"%char).
    + destruct (ceqb_spec c "\"%char) as [|_]; [done|]. cbn [negb]. rewrite <- E, IH; [done|]. rewrite E. simpl in *. lia.
Qed.

(** ** Examples *)

Definition no_float : string -> option unit := fun _ => None.
Definition print (format : string) (args : list string) : option printf_result := Format tt no_float (fun _ _ => "") args 10 format.

Lemma printf_lines_witness : ["a"; "b"] <> [] /\ print "%s\n" ["a"; "b"] = Some (Printed ("a" +:+ nl +:+ "b" +:+ nl) false) /\
  Format tt no_float (fun _ _ => "") ["a"; "b"] 2 "%s\n" = Some (Printed (text_of_lines ["a"; "b"]) false).
Proof. split; [discriminate|]. split; [vm_compute; reflexivity|]. apply (printf_lines tt no_float (fun _ _ => "") ["a"; "b"]). discriminate. Defined.

Lemma printf_number_witness : in_int64 (-42) = true /\ Format tt no_float (fun _ _ => "") [FormatInt (-42)] 1 "%d" = Some (Printed (FormatInt (-42)) false).
Proof. split; [reflexivity|]. apply (printf_number tt no_float (fun _ _ => "") (-42)). reflexivity. Defined.

(** printf hello x prints hello for ever. *)
Example printf_endless fuel : Format tt no_float (fun _ _ => "") ["x"] fuel "hello" = None.
Proof. apply format_endless; [discriminate|discriminate|reflexivity|reflexivity]. Qed.

(** The argument that is a double quote alone is an index out of range. *)
Example printf_quote_alone : print "%d" [String dquote ""] = Some Panics.
Proof. vm_compute. reflexivity. Qed.

(** In the last pass the arguments begin again; missing ones should be empty. *)
Example printf_arguments_again : print "%s-%s " ["a"; "b"; "c"] = Some (Printed "a-b c-a " false).
Proof. vm_compute. reflexivity. Qed.

(** %u is not known to fmt. *)
Example printf_unsigned : print "%u" ["5"] = Some (Printed "%!u(uint64=5)" false).
Proof. vm_compute. reflexivity. Qed.

(** No argument, and an empty one, are errors for %d; a number with a tail prints 0 instead of the number. *)
Example printf_bad_numbers :
  print "%d" [] = Some (Printed ("printf: invalid number ''" +:+ nl +:+ "0") true) /\
  print "%d" ["12x"] = Some (Printed ("printf: invalid number '12x'" +:+ nl +:+ "0") true).
Proof. vm_compute. split; reflexivity. Qed.

(** The octal escapes of a format need a leading zero, and an escape may make a percent sign of a
    conversion or a stop of an escaped backslash. *)
Example printf_escapes :
  print "\101" [] = Some (Printed "\101" false) /\ print "\045s" ["x"] = Some (Printed "x" false) /\
  print "a\\cb" [] = Some (Printed "a" false) /\ print "%b" ["x\cy"] = Some (Printed "x\cy" false).
Proof. vm_compute. repeat split; reflexivity. Qed.

(** The width of %c and %b, and a negative width of %s, are ignored; a precision of zero writes a zero as a space. *)
Example printf_widths :
  print "%3c" ["a"] = Some (Printed "a" false) /\ print "%*s|" ["-3"; "a"] = Some (Printed "a|" false) /\ print "%.0d" ["0"] = Some (Printed " " false).
Proof. vm_compute. repeat split; reflexivity. Qed.

(** echo: a later group of flags takes back an earlier -n, and \c does not stop. *)
Example echo_flags_forgotten :
  echoRun ["-n"; "-e"; "a\cb"] = {| rc := 0; out := [CText ("a\cb" +:+ nl)]; errs := [] |}.
Proof. vm_compute. reflexivity. Qed.
