(* ===== verification/Grep.v ===== *)
(** grep: pkg/grep/grep.go, with regexp behind the interface of Regexp.v. *)

From S2P Require Import Prelude GoStd Scanner Output Regexp Select.
From S2P Require Sort.

Local Open Scope Z_scope.

Record GrepMatch := { File : string; Line : Z; MatchText : string; Matches : list string }.

Record grep_flags := {
  quiet : bool; suppressErrors : bool; jsonMode : bool; invert : bool; ignoreCase : bool; countMode : bool; lineNum : bool;
  filesWithMatches : bool; filesWithoutMatch : bool; fixed : bool; wordRegexp : bool; lineRegexp : bool; onlyMatching : bool;
  recursive : bool; with_filename : bool; no_filename : bool; as_text : bool;
  after_arg : string; before_arg : string; context_arg : string
}.

(** The lines of context after and before a match: -C sets both; a number that is none is 0. *)
Definition context_count (s : string) : Z := let n := AtoiVal s in if n <? 0 then 0 else n.
Definition afterCtx (f : grep_flags) : Z :=
  if negb (context_arg f =s? "") then context_count (context_arg f) else if negb (after_arg f =s? "") then context_count (after_arg f) else 0.
Definition beforeCtx (f : grep_flags) : Z :=
  if negb (context_arg f =s? "") then context_count (context_arg f) else if negb (before_arg f =s? "") then context_count (before_arg f) else 0.

(** [strings.Contains] *)
Definition Contains (s sub : string) : bool := bool_decide (Index s sub <> None).

(** [regexp.QuoteMeta] *)
Definition is_meta (c : ascii) : bool := Contains "\.+*?()|[]{}^$" (String c "").
Fixpoint QuoteMeta (s : string) : string :=
  match s with "" => "" | String c s => if is_meta c then String "\" (String c (QuoteMeta s)) else String c (QuoteMeta s) end.

(** The patterns of the arguments: a line is a pattern, an empty one is left out. *)
Definition pattern_lines (p : string) : list string := filter (fun s => s <> "") (split_nl p).
Definition without_final_nl (s : string) : string := TrimSuffix s nl.

(** The expression for the patterns, if they are not taken as fixed strings. *)
Definition word_pattern (p : string) : string := "\b" +:+ p +:+ "\b".

Definition pattern_of (f : grep_flags) (patterns : list string) : string :=
  let pattern :=
    if fixed f then
      (if ignoreCase f then "(?i)" else "") +:+
      join_with "|" ((fun p => if wordRegexp f then word_pattern (QuoteMeta p) else QuoteMeta p) <$> patterns)
    else join_with "|" patterns in
  let pattern :=
    if wordRegexp f && negb (Contains pattern "\b") then
      if (pattern =s? "^") || (pattern =s? "$") then "a^" else word_pattern ("(" +:+ pattern +:+ ")")
    else pattern in
  let pattern := if lineRegexp f then "^(" +:+ pattern +:+ ")$" else pattern in
  if ignoreCase f && negb (HasPrefix pattern "(?i)") then "(?i)" +:+ pattern else pattern.

Section Grep.
Context `{Regexp}.

(** What lines are matched against. *)
Inductive matcher := MNone | MFixed (patterns : list string) | MRe (re : regexp).

Definition make_matcher (f : grep_flags) (patterns : list string) : result string matcher :=
  match patterns with
  | [] => Ok MNone
  | _ =>
      if fixed f && negb (ignoreCase f || wordRegexp f) then Ok (MFixed patterns)
      else match Compile (pattern_of f patterns) with Ok re => Ok (MRe re) | Err e => Err e end
  end.

(** [FindAllString(s, -1)] *)
Definition FindAllString (re : regexp) (s : string) : list string := (fun '(a, b) => slice s a b) <$> FindAllStringIndex re s.

(** Whether a line matches, and the matched texts. *)
Definition match_line (m : matcher) (lineRegexp : bool) (text : string) : bool * list string :=
  match m with
  | MNone => (false, [])
  | MFixed patterns =>
      let found := filter (fun pat => (if lineRegexp then text =s? pat else Contains text pat) = true) patterns in
      (negb (bool_decide (found = [])), found)
  | MRe re =>
      if lineRegexp then (MatchString re text, [])
      else let locs := FindAllString re text in (negb (bool_decide (locs = [])), filter (fun loc => loc <> "") locs)
  end.

(** The loop of [Run] over the lines. *)
Fixpoint run_lines (m : matcher) (filename : string) (invert lineRegexp : bool) (lineNum : Z) (lines : list string) : list GrepMatch :=
  match lines with
  | [] => []
  | text :: lines =>
      let '(found, substrings) := match_line m lineRegexp text in
      (if xorb found invert then [{| File := filename; Line := lineNum; MatchText := text; Matches := if invert then [] else substrings |}] else []) ++
      run_lines m filename invert lineRegexp (lineNum + 1) lines
  end.

(** [Run]: the matches, and whether a line is too long. *)
Definition grep_Run (m : matcher) (filename : string) (invert lineRegexp : bool) (data : string) : list GrepMatch * bool :=
  let '(lines, e) := scan_big data in (run_lines m filename invert lineRegexp 1 lines, e).

(** ** Context *)

(** The marks of the lines before a match, and after it up to the next match. *)
Definition mark_before (flags : list bool) (i : nat) (before : Z) : list bool :=
  foldl (fun flags j => <[(i - j)%nat := true]> flags) flags (seq 1 (if Z.of_nat i <=? before then i else Z.to_nat before)).

Fixpoint mark_after (fuel : nat) (flags matched : list bool) (i j : nat) (after : Z) : list bool :=
  match fuel with
  | O => flags
  | S fuel =>
      if (Z.of_nat j <=? after) && (match matched !! (i + j)%nat with Some b => negb b | None => false end)
      then mark_after fuel (<[(i + j)%nat := true]> flags) matched i (S j) after
      else flags
  end.

Definition mark_line (matched : list bool) (before after : Z) (flags : list bool) (i : nat) : list bool :=
  match matched !! i with
  | Some true => mark_after (length matched) (mark_before (<[i := true]> flags) i before) matched i 1 after
  | _ => flags
  end.

Definition printLine (matched : list bool) (before after : Z) : list bool :=
  foldl (mark_line matched before after) (replicate (length matched) false) (seq 0 (length matched)).

Record ctxLine := { ctx_line : Z; ctx_text : string; matchMarker : string; separator : bool }.

Definition separator_line : ctxLine := {| ctx_line := 0; ctx_text := ""; matchMarker := ""; separator := true |}.

(** The lines that are printed, from number [i] on; [last] is the one printed before. *)
Fixpoint context_lines (lines : list string) (matched print : list bool) (i : Z) (last : option Z) : list ctxLine :=
  match lines, matched, print with
  | text :: lines, m :: matched, p :: print =>
      if negb p then context_lines lines matched print (i + 1) last
      else
        (match last with Some l => if 1 <? i - l then [separator_line] else [] | None => [] end) ++
        {| ctx_line := i + 1; ctx_text := text; matchMarker := if m then ":" else "-"; separator := false |} ::
        context_lines lines matched print (i + 1) (Some i)
  | _, _, _ => []
  end.

(** Whether a line matches for [scanWithContext]. *)
Definition context_match (m : matcher) (lineRegexp : bool) (text : string) : bool :=
  match m with MRe re => MatchString re text | _ => fst (match_line m lineRegexp text) end.

(** [scanWithContext]; a line that is too long ends the input. *)
Definition scanWithContext (m : matcher) (invert lineRegexp : bool) (before after : Z) (data : string) : list ctxLine :=
  let lines := fst (scan_big data) in
  let matched := (fun text => xorb (context_match m lineRegexp text) invert) <$> lines in
  context_lines lines matched (printLine matched before after) 0 None.

(** ** The command *)

Record grep_state := {
  exitCode : Z; printed : list (chunk (list GrepMatch)); complaints : list (chunk (list GrepMatch)); allMatches : list GrepMatch; stdin_left : string
}.

Definition put (ls : list string) (st : grep_state) : grep_state :=
  {| exitCode := exitCode st; printed := printed st ++ (line <$> ls); complaints := complaints st; allMatches := allMatches st; stdin_left := stdin_left st |}.

(** Selected lines make the exit code 0, unless there was an error. *)
Definition selected (any : bool) (st : grep_state) : grep_state :=
  {| exitCode := if any && negb (exitCode st =? 2) then 0 else exitCode st; printed := printed st; complaints := complaints st;
     allMatches := allMatches st; stdin_left := stdin_left st |}.

Definition complain (f : grep_flags) (msg : string) (st : grep_state) : grep_state :=
  {| exitCode := 2; printed := printed st; complaints := complaints st ++ (if suppressErrors f then [] else [line msg]);
     allMatches := allMatches st; stdin_left := stdin_left st |}.

Definition collect (ms : list GrepMatch) (st : grep_state) : grep_state :=
  {| exitCode := exitCode st; printed := printed st; complaints := complaints st; allMatches := allMatches st ++ ms; stdin_left := stdin_left st |}.

(** A NUL byte among the first 8192 bytes. *)
Definition is_binary (data : string) : bool := negb (str_forall (fun c => negb (code c =? 0)) (str_take (Z.to_nat 8192) data)).

(** The texts of the errors of [os.Open] and [os.Stat]. *)
Variable open_error stat_error : string -> string.
Variable files : gmap string string.
(** The files below a directory, or the file itself; [None] if there is none. *)
Variable walk : string -> option (list string).

Section File.
Variable f : grep_flags.
Variable m : matcher.
Variable printPrefix : bool.

Definition prefix_of (fname : string) (n : Z) : string :=
  (if printPrefix then fname +:+ ":" else "") +:+ (if lineNum f then FormatInt n +:+ ":" else "").

Definition scan_failed (e : bool) (st : grep_state) : grep_state := if e then complain f ("grep: " +:+ too_long) st else st.

Definition some {A} (l : list A) : bool := match l with [] => false | _ => true end.

(** A file with NUL bytes: the state, and whether the run ends. *)
Definition grep_binary (fname data : string) (st : grep_state) : grep_state * bool :=
  let '(ms, e) := grep_Run m fname (invert f) (lineRegexp f) data in
  let st := scan_failed e st in
  let message := "Binary file " +:+ fname +:+ " matches" in
  if some ms then
    let st := selected true st in
    if quiet f then (st, true)
    else if jsonMode f then (collect [{| File := fname; Line := 0; MatchText := message; Matches := [] |}] st, false)
    else (put (if filesWithMatches f then [fname] else if filesWithoutMatch f then [] else [message]) st, false)
  else (if filesWithoutMatch f && negb (jsonMode f) then put [fname] st else st, false).

Definition has_context : bool :=
  ((0 <? afterCtx f) || (0 <? beforeCtx f)) && negb (countMode f) && negb (filesWithMatches f) && negb (filesWithoutMatch f) && negb (onlyMatching f).

Definition grep_context (fname data : string) (st : grep_state) : grep_state * bool :=
  let ctx := scanWithContext m (invert f) (lineRegexp f) (beforeCtx f) (afterCtx f) data in
  if jsonMode f then
    let st := collect ((fun c => {| File := fname; Line := ctx_line c; MatchText := ctx_text c; Matches := [] |}) <$> ctx) st in
    (selected (some ctx) st, some ctx && quiet f)
  else
    let st := selected (some ctx) st in
    if some ctx && quiet f then (st, true)
    else (put (c ← ctx; (if separator c then ["--"] else []) ++ [prefix_of fname (ctx_line c) +:+ matchMarker c +:+ ctx_text c]) st, false).

(** What is printed of the matches of a file. *)
Definition match_lines (fname : string) (ms : list GrepMatch) : list string :=
  g ← ms; if onlyMatching f then (fun sub => prefix_of fname (Line g) +:+ sub) <$> Matches g else [prefix_of fname (Line g) +:+ MatchText g].

Definition grep_text (fname data : string) (st : grep_state) : grep_state * bool :=
  let '(ms, e) := grep_Run m fname (invert f) (lineRegexp f) data in
  let st := scan_failed e st in
  if jsonMode f then (selected (some ms) (collect ms st), some ms && quiet f)
  else if filesWithMatches f then
    if some ms then (selected true (put [fname] st), quiet f) else (st, false)
  else if filesWithoutMatch f then
    if some ms then (st, false) else (selected true (put [fname] st), quiet f)
  else
    let st := selected (some ms) st in
    if some ms && quiet f then (st, true)
    else if countMode f then (put [(if printPrefix then fname +:+ ":" else "") +:+ FormatInt (Z.of_nat (length ms))] st, false)
    else (put (match_lines fname ms) st, false).

(** The function of the loop over the operands, which are files that can be read or cannot be opened; of the
    standard input it reads all up to the limit. *)
Definition grep_file (path : string) (st : grep_state) : grep_state * bool :=
  match (if path =s? "-" then Some (stdin_left st) else files !! path) with
  | None => (complain f ("grep: " +:+ path +:+ ": " +:+ open_error path) st, false)
  | Some data =>
      let fname := if path =s? "-" then "(standard input)" else path in
      let st := if path =s? "-" then
                  {| exitCode := exitCode st; printed := printed st; complaints := complaints st; allMatches := allMatches st;
                     stdin_left := snd (Sort.LimitReader data) |}
                else st in
      let data := fst (Sort.LimitReader data) in
      if negb (as_text f) && is_binary data then grep_binary fname data st
      else if has_context then grep_context fname data st
      else grep_text fname data st
  end.

Fixpoint grep_files (paths : list string) (st : grep_state) : grep_state * bool :=
  match paths with
  | [] => (st, false)
  | p :: paths => let '(st, stop) := grep_file p st in if stop then (st, true) else grep_files paths st
  end.
End File.

(** The operands: with -r the files below them. *)
Fixpoint expand_roots (f : grep_flags) (roots : list string) : list string * list (chunk (list GrepMatch)) * bool :=
  match roots with
  | [] => ([], [], false)
  | root :: roots =>
      let '(rs, errs, bad) := expand_roots f roots in
      match walk root with
      | None => (rs, (if suppressErrors f then [] else [line ("grep: " +:+ root +:+ ": " +:+ stat_error root)]) ++ errs, true)
      | Some fs => (fs ++ rs, errs, bad)
      end
  end.

(** The patterns of the files of -f; [inr] is the file that cannot be read, without -s. *)
Fixpoint file_patterns (f : grep_flags) (fPats : list string) (stdin : string) : (list string * string) + string :=
  match fPats with
  | [] => inl ([], stdin)
  | p :: fPats =>
      match (if p =s? "-" then Some stdin else files !! p) with
      | Some b =>
          match file_patterns f fPats (if p =s? "-" then "" else stdin) with
          | inl (ps, stdin) => inl (pattern_lines (without_final_nl b) ++ ps, stdin)
          | inr e => inr e
          end
      | None => if suppressErrors f then file_patterns f fPats stdin else inr p
      end
  end.

Definition failed_run (f : grep_flags) (msg : string) : run_io (list GrepMatch) :=
  {| rc := 2; out := []; errs := if suppressErrors f then [] else [line msg] |}.

(** [grepRun] after the options. *)
Definition grepRun (f : grep_flags) (ePats fPats positional : list string) (stdin : string) : run_io (list GrepMatch) :=
  let '(ePats, paths) := match ePats, fPats, positional with
                         | [], [], p :: ps => ([p], ps)
                         | _, _, _ => (ePats, positional)
                         end in
  match ePats, fPats with
  | [], [] => failed_run f "grep: missing pattern"
  | _, _ =>
      match file_patterns f fPats stdin with
      | inr p => failed_run f ("grep: " +:+ open_error p)
      | inl (fps, stdin) =>
          match make_matcher f ((p ← ePats; pattern_lines p) ++ fps) with
          | Err e => failed_run f ("grep: invalid regex: " +:+ e)
          | Ok m =>
              let '(readers, errs0, bad) :=
                match paths with
                | [] => (["-"], [], false)
                | _ => if recursive f then expand_roots f paths else (paths, [], false)
                end in
              let printPrefix := if negb (no_filename f) && negb (with_filename f) then (1 <? length paths)%nat || recursive f else with_filename f in
              let '(st, stop) := grep_files f m printPrefix readers
                {| exitCode := if bad then 2 else 1; printed := []; complaints := errs0; allMatches := []; stdin_left := stdin |} in
              if stop then {| rc := 0; out := printed st; errs := complaints st |}
              else {| rc := exitCode st; out := printed st ++ (if jsonMode f then Render "grep" (allMatches st) true [] else []); errs := complaints st |}
          end
      end
  end.
End Grep.
