(* ===== verification/GrepLaws.v ===== *)
(** Laws of grep: the lines of context, -v, and the exit code. *)

From S2P Require Import Prelude GoStd Scanner Output Regexp Select Grep.
From S2P Require Sort.

Local Open Scope Z_scope.

(** ** The marks *)

Definition marked (flags : list bool) (k : nat) : Prop := flags !! k = Some true.

Lemma marked_insert (flags : list bool) i k : marked (<[i := true]> flags) k <-> marked flags k \/ (k = i /\ i < length flags)%nat.
Proof.
  unfold marked. destruct (decide (k = i)) as [->|Hne].
  - destruct (decide (i < length flags)%nat) as [Hi|Hi].
    + rewrite list_lookup_insert_eq by done. split; [by right|done].
    + rewrite list_insert_ge by lia. split; [by left|]. intros [H|[_ H]]; [done|lia].
  - rewrite list_lookup_insert_ne by done. split; [by left|]. intros [H|[H _]]; [done|lia].
Qed.

Lemma mark_before_fold l i : forall flags, length (foldl (fun flags j => <[(i - j)%nat := true]> flags) flags l) = length flags /\
  forall k, marked (foldl (fun flags j => <[(i - j)%nat := true]> flags) flags l) k <->
    marked flags k \/ (exists j, j ∈ l /\ k = (i - j)%nat /\ (i - j < length flags)%nat).
Proof.
  induction l as [|j l IH]; intros flags; cbn [foldl].
  - split; [done|]. intros k. split; [by left|]. intros [H|(j & Hj & _)]; [done|by apply elem_of_nil in Hj].
  - destruct (IH (<[(i - j)%nat := true]> flags)) as [IHl IHk]. rewrite length_insert in IHl, IHk. split; [done|]. intros k.
    rewrite IHk, marked_insert. split.
    + intros [[H|[H1 H2]]|(x & Hx & H1 & H2)]; [by left| |].
      * right. exists j. split; [by left|lia].
      * right. exists x. split; [by right|lia].
    + intros [H|(x & Hx & H1 & H2)]; [by left; left|]. apply elem_of_cons in Hx as [->|Hx]; [left; right; lia|]. right. exists x. auto.
Qed.

Lemma mark_before_spec flags i before : (i < length flags)%nat -> 0 <= before ->
  length (mark_before flags i before) = length flags /\
  forall k, marked (mark_before flags i before) k <-> marked flags k \/ (k < i)%nat /\ Z.of_nat i - before <= Z.of_nat k.
Proof.
  intros Hi Hb. unfold mark_before. set (l := seq 1 _). destruct (mark_before_fold l i flags) as [Hl Hk]. split; [done|]. intros k. rewrite Hk.
  split; (intros [H|H]; [by left|right]).
  - destruct H as (j & Hj & -> & H). unfold l in Hj. apply elem_of_seq in Hj. destruct (Z.leb_spec (Z.of_nat i) before); lia.
  - exists (i - k)%nat. split; [|lia]. unfold l. apply elem_of_seq. destruct (Z.leb_spec (Z.of_nat i) before); lia.
Qed.

Lemma mark_after_spec matched i after fuel : forall flags j, length flags = length matched -> (length matched <= i + j + fuel)%nat ->
  length (mark_after fuel flags matched i j after) = length flags /\
  forall k, marked (mark_after fuel flags matched i j after) k <->
    marked flags k \/ (i + j <= k < length matched)%nat /\ Z.of_nat k <= Z.of_nat i + after /\
      (forall x, (i + j <= x <= k)%nat -> matched !! x = Some false).
Proof.
  induction fuel as [|fuel IH]; intros flags j Hl Hf; cbn [mark_after].
  { split; [done|]. intros k. split; [by left|]. intros [H|(H & _)]; [done|lia]. }
  destruct (Z.leb_spec (Z.of_nat j) after) as [Hj|Hj]; cbn [andb].
  2:{ split; [done|]. intros k. split; [by left|]. intros [H|(H & H1 & _)]; [done|lia]. }
  destruct (matched !! (i + j)%nat) as [[]|] eqn:E; cbn [negb].
  - split; [done|]. intros k. split; [by left|]. intros [H|(H & _ & H1)]; [done|]. rewrite (H1 (i + j)%nat ltac:(lia)) in E. done.
  - destruct (IH (<[(i + j)%nat := true]> flags) (S j)) as [IHl IHk]; [by rewrite length_insert|lia|]. rewrite length_insert in IHl. split; [done|].
    apply lookup_lt_Some in E as Hlt. intros k. rewrite IHk, marked_insert. split.
    + intros [[H|[-> H]]|(H & H1 & H2)]; [by left| |].
      * right. split; [lia|]. split; [lia|]. intros x Hx. by replace x with (i + j)%nat by lia.
      * right. split; [lia|]. split; [done|]. intros x Hx. destruct (decide (x = (i + j)%nat)) as [->|]; [done|apply H2; lia].
    + intros [H|(H & H1 & H2)]; [by left; left|]. destruct (decide (k = (i + j)%nat)) as [->|Hne]; [left; right; lia|]. right.
      split; [lia|]. split; [done|]. intros x Hx. apply H2. lia.
  - apply lookup_ge_None_1 in E. split; [done|]. intros k. split; [by left|]. intros [H|(H & _)]; [done|lia].
Qed.

(** A match covers the lines around it, after it up to the next match. *)
Definition covers (matched : list bool) (before after : Z) (i k : nat) : Prop :=
  matched !! i = Some true /\ (k < length matched)%nat /\
  (k = i \/ (k < i)%nat /\ Z.of_nat i - before <= Z.of_nat k \/
   (i < k)%nat /\ Z.of_nat k <= Z.of_nat i + after /\ forall x, (i < x <= k)%nat -> matched !! x = Some false).

Lemma mark_line_spec matched before after flags i : 0 <= before -> 0 <= after -> length flags = length matched ->
  length (mark_line matched before after flags i) = length matched /\
  forall k, marked (mark_line matched before after flags i) k <-> marked flags k \/ covers matched before after i k.
Proof.
  intros Hb Ha Hl. unfold mark_line. destruct (matched !! i) as [[]|] eqn:E;
    [|split; [done|]; intros k; (split; [by left|]); intros [H|(H & _)]; [done|congruence]..].
  apply lookup_lt_Some in E as Hi. destruct (mark_before_spec (<[i := true]> flags) i before) as [Hbl Hbk]; [rewrite length_insert; lia|done|].
  rewrite length_insert in Hbl. destruct (mark_after_spec matched i after (length matched) (mark_before (<[i := true]> flags) i before) 1) as [Hal Hak]; [lia|lia|].
  split; [lia|]. intros k. rewrite Hak, Hbk, marked_insert. unfold covers. split.
  - intros [[[H|[-> H]]|[H1 H2]]|(H1 & H2 & H3)]; [by left|right..]; (split; [done|]); (split; [lia|]); [by left| |].
    + right. left. split; [lia|done].
    + right. right. split; [lia|]. split; [done|]. intros x Hx. apply H3. lia.
  - intros [H|(_ & Hk & [->|[[H1 H2]|(H1 & H2 & H3)]])]; [by left; left; left|left; left; right; lia|left; right; lia|].
    right. split; [lia|]. split; [done|]. intros x Hx. apply H3. lia.
Qed.

Lemma mark_fold matched before after is_ : 0 <= before -> 0 <= after -> forall flags, length flags = length matched ->
  length (foldl (mark_line matched before after) flags is_) = length matched /\
  forall k, marked (foldl (mark_line matched before after) flags is_) k <->
    marked flags k \/ exists i, i ∈ is_ /\ covers matched before after i k.
Proof.
  intros Hb Ha. induction is_ as [|i is_ IH]; intros flags Hl; cbn [foldl].
  - split; [done|]. intros k. split; [by left|]. intros [H|(i & Hi & _)]; [done|by apply elem_of_nil in Hi].
  - destruct (mark_line_spec matched before after flags i Hb Ha Hl) as [Hml Hmk]. destruct (IH _ Hml) as [IHl IHk]. split; [done|]. intros k.
    rewrite IHk, Hmk. split.
    + intros [[H|H]|(x & Hx & H)]; [by left|right; exists i; split; [by left|done]|right; exists x; split; [by right|done]].
    + intros [H|(x & Hx & H)]; [by left; left|]. apply elem_of_cons in Hx as [->|Hx]; [by left; right|]. right. eauto.
Qed.

(** The last match up to a line. *)
Lemma last_match matched : forall k i, matched !! i = Some true -> (i <= k < length matched)%nat ->
  exists j, (i <= j <= k)%nat /\ matched !! j = Some true /\ forall x, (j < x <= k)%nat -> matched !! x = Some false.
Proof.
  induction k as [|k IH]; intros i Hi Hk.
  - exists i. split; [lia|]. split; [done|]. intros x Hx. lia.
  - destruct (matched !! S k) as [[]|] eqn:E; [|destruct (decide (i = S k)) as [->|]; [congruence|]|apply lookup_ge_None_1 in E; lia].
    + exists (S k). split; [lia|]. split; [done|]. intros x Hx. lia.
    + destruct (IH i Hi ltac:(lia)) as (j & Hj & Hm & Hx). exists j. split; [lia|]. split; [done|]. intros x Hx'.
      destruct (decide (x = S k)) as [->|]; [done|apply Hx; lia].
Qed.

(** A line is marked exactly if a match is at most [before] lines after it or [after] lines before it. *)
Lemma printLine_spec matched before after : 0 <= before -> 0 <= after ->
  length (printLine matched before after) = length matched /\
  forall k, marked (printLine matched before after) k <->
    (k < length matched)%nat /\ exists i, matched !! i = Some true /\ Z.of_nat i - before <= Z.of_nat k <= Z.of_nat i + after.
Proof.
  intros Hb Ha. unfold printLine. destruct (mark_fold matched before after (seq 0 (length matched)) Hb Ha (replicate (length matched) false)) as [Hl Hk];
    [apply length_replicate|]. split; [done|]. intros k. rewrite Hk. split.
  - intros [H|(i & _ & H1 & H2 & H3)].
    + unfold marked in H. apply lookup_replicate in H as [H _]. done.
    + split; [done|]. exists i. split; [done|]. destruct H3 as [->|[[H3 H4]|(H3 & H4 & _)]]; lia.
  - intros (Hlt & i & Hi & H). right. destruct (decide (k < i)%nat) as [Hki|Hki].
    + exists i. apply lookup_lt_Some in Hi as Hil. split; [apply elem_of_seq; lia|]. split; [done|]. split; [done|]. right. left. lia.
    + destruct (last_match matched k i Hi ltac:(lia)) as (j & Hj & Hm & Hx). apply lookup_lt_Some in Hm as Hjl. exists j.
      split; [apply elem_of_seq; lia|]. split; [done|]. split; [done|]. destruct (decide (k = j)) as [->|]; [by left|]. right. right. split; [lia|]. split; [lia|done].
Qed.

(** ** Context *)

(** Whether line [k] is in the window of a match. *)
Definition in_window (matched : list bool) (before after : Z) (k : nat) : bool :=
  existsb (fun i => (match matched !! i with Some b => b | None => false end) && (Z.of_nat i - before <=? Z.of_nat k) && (Z.of_nat k <=? Z.of_nat i + after))
    (seq 0 (length matched)).

Definition numbered_line (matched : list bool) (lines : list string) (k : nat) : option ctxLine :=
  text ← lines !! k; m ← matched !! k;
  Some {| ctx_line := Z.of_nat k + 1; ctx_text := text; matchMarker := if (m : bool) then ":" else "-"; separator := false |}.

(** The lines in the windows, with their numbers. *)
Definition context_window (matched : list bool) (before after : Z) (lines : list string) : list ctxLine :=
  omap (fun k => if in_window matched before after k then numbered_line matched lines k else None) (seq 0 (length lines)).

(** A separator between two lines that do not follow each other. *)
Fixpoint separated (last : option Z) (l : list ctxLine) : list ctxLine :=
  match l with
  | [] => []
  | c :: l => (match last with Some n => if 1 <? ctx_line c - n then [separator_line] else [] | None => [] end) ++ c :: separated (Some (ctx_line c)) l
  end.

Lemma in_window_true matched before after k : in_window matched before after k = true <->
  exists i, matched !! i = Some true /\ Z.of_nat i - before <= Z.of_nat k <= Z.of_nat i + after.
Proof.
  unfold in_window. rewrite existsb_exists. split.
  - intros (i & _ & H). apply andb_true_iff in H as [H H2]. apply andb_true_iff in H as [H H1]. exists i.
    destruct (matched !! i) as [[]|]; [|done..]. split; [done|]. apply Z.leb_le in H1, H2. lia.
  - intros (i & Hi & H1). exists i. rewrite Hi. apply lookup_lt_Some in Hi. split; [apply in_seq; lia|]. apply andb_true_iff. split; [|apply Z.leb_le; lia].
    apply Z.leb_le. lia.
Qed.

Lemma printLine_window matched before after : 0 <= before -> 0 <= after ->
  printLine matched before after = in_window matched before after <$> seq 0 (length matched).
Proof.
  intros Hb Ha. destruct (printLine_spec matched before after Hb Ha) as [Hl Hk]. apply list_eq. intros k. rewrite list_lookup_fmap.
  destruct (decide (k < length matched)%nat) as [Hlt|Hge].
  - rewrite lookup_seq_lt by done. cbn. specialize (Hk k). unfold marked in Hk. rewrite <- in_window_true in Hk.
    destruct (lookup_lt_is_Some_2 (printLine matched before after) k ltac:(lia)) as [b E]. rewrite E in *. f_equal.
    destruct b, (in_window matched before after k); try done.
    + symmetry. by apply Hk.
    + destruct Hk as [_ Hk]. by specialize (Hk (conj Hlt eq_refl)).
  - rewrite lookup_seq_ge by lia. apply lookup_ge_None_2. lia.
Qed.

Lemma context_lines_separated matched lines (p : nat -> bool) : length matched = length lines ->
  forall n k last, (n + k = length lines)%nat ->
  context_lines (drop n lines) (drop n matched) (p <$> seq n k) (Z.of_nat n) last =
  separated ((fun z => z + 1) <$> last) (omap (fun k => if p k then numbered_line matched lines k else None) (seq n k)).
Proof.
  intros Hl n k. revert n. induction k as [|k IH]; intros n last Hn; cbn [seq].
  { rewrite !drop_ge by lia. done. }
  destruct (lookup_lt_is_Some_2 lines n ltac:(lia)) as [text Et]. destruct (lookup_lt_is_Some_2 matched n ltac:(lia)) as [m Em].
  rewrite (drop_S _ _ _ Et), (drop_S _ _ _ Em). cbn [fmap list_fmap context_lines omap list_omap].
  replace (Z.of_nat n + 1) with (Z.of_nat (S n)) by lia. destruct (p n); cbn [negb].
  - unfold numbered_line at 1. rewrite Et. cbn. rewrite Em. cbn. rewrite IH by lia. cbn [fmap option_fmap option_map].
    replace (Z.of_nat (S n)) with (Z.of_nat n + 1) by lia. f_equal. destruct last as [z|]; [|done]. cbn. by replace (Z.of_nat n + 1 - (z + 1)) with (Z.of_nat n - z) by lia.
  - rewrite IH by lia. done.
Qed.

Section Laws.
Context `{Regexp}.

Definition selects (m : matcher) (invert lineRegexp : bool) (text : string) : bool := xorb (fst (match_line m lineRegexp text)) invert.

Lemma context_match_line m lr text : context_match m lr text = fst (match_line m lr text).
Proof.
  destruct m as [|ps|re]; [done..|]. cbn. destruct lr; [done|]. cbn. unfold FindAllString, MatchString. by destruct (FindAllStringIndex re text).
Qed.

(** C39: with -A, -B and -C grep prints exactly the lines that are at most [before] lines before a selected line
    or at most [after] lines after one, each once, in the order of the input and with its number, a selected line
    marked with a colon and another with a dash, and puts a separator between two printed lines that do not follow each other. *)
Theorem grep_context_windows (m : matcher) (inv lr : bool) (before after : Z) (data : string) : 0 <= before -> 0 <= after ->
  let lines := fst (scan_big data) in
  let matched := selects m inv lr <$> lines in
  scanWithContext m inv lr before after data = separated None (context_window matched before after lines).
Proof.
  intros Hb Ha lines matched. unfold scanWithContext. fold lines.
  replace ((fun text => xorb (context_match m lr text) inv) <$> lines) with matched by (apply list_fmap_ext; intros; by rewrite context_match_line).
  assert (Hl : length matched = length lines) by (unfold matched; by rewrite length_fmap).
  rewrite (printLine_window matched before after Hb Ha), Hl. rewrite <- (drop_0 lines) at 1. rewrite <- (drop_0 matched) at 1.
  exact (context_lines_separated matched lines _ Hl 0 (length lines) None eq_refl).
Qed.

(** ** The selected lines *)

(** The selected lines, from number [n] on. *)
Fixpoint selected_lines (sel : string -> bool) (n : Z) (lines : list string) : list (Z * string) :=
  match lines with [] => [] | text :: lines => (if sel text then [(n, text)] else []) ++ selected_lines sel (n + 1) lines end.

Lemma run_lines_selected m fname inv lr : forall lines n,
  (fun g => (Line g, MatchText g)) <$> run_lines m fname inv lr n lines = selected_lines (selects m inv lr) n lines.
Proof.
  induction lines as [|text lines IH]; intros n; [done|]. cbn [run_lines selected_lines]. unfold selects at 1.
  destruct (match_line m lr text) as [found subs]. cbn [fst]. rewrite fmap_app, IH. by destruct (xorb found inv).
Qed.

Variable open_error stat_error : string -> string.
Variable files : gmap string string.
Variable walk : string -> option (list string).

Section Plain.
Variable f : grep_flags.

(** The options select lines and print them whole. *)
Definition plain : Prop :=
  quiet f = false /\ jsonMode f = false /\ countMode f = false /\ filesWithMatches f = false /\ filesWithoutMatch f = false /\
  onlyMatching f = false /\ recursive f = false /\ has_context f = false.

(** The operand is text, and no line of it is too long. *)
Definition is_text (data : string) : Prop :=
  snd (scan_big (fst (Sort.LimitReader data))) = false /\ (as_text f = true \/ is_binary (fst (Sort.LimitReader data)) = false).

Definition operand_lines (data : string) : list string := fst (scan_big (fst (Sort.LimitReader data))).

Definition operand_selected (m : matcher) (path : string) : list (Z * string) :=
  match files !! path with Some data => selected_lines (selects m (invert f) (lineRegexp f)) 1 (operand_lines data) | None => [] end.

Definition missing_paths (paths : list string) : list string := filter (fun p => files !! p = None) paths.

Definition printed_lines (m : matcher) (pp : bool) (paths : list string) : list string :=
  p ← paths; (fun '(n, text) => prefix_of f pp p n +:+ text) <$> operand_selected m p.

Definition any_selected (m : matcher) (paths : list string) : bool := existsb (fun p => some (operand_selected m p)) paths.

Definition exit_from (code : Z) (missing any : bool) : Z := if missing || (code =? 2) then 2 else if any then 0 else code.

Lemma grep_file_plain m pp path st : plain -> path <> "-" -> (forall data, files !! path = Some data -> is_text data) ->
  grep_file open_error files f m pp path st =
  ({| exitCode := exit_from (exitCode st) (bool_decide (files !! path = None)) (some (operand_selected m path));
      printed := printed st ++ (line <$> printed_lines m pp [path]);
      complaints := complaints st ++ (if suppressErrors f then [] else (fun p => line ("grep: " +:+ p +:+ ": " +:+ open_error p)) <$> missing_paths [path]);
      allMatches := allMatches st; stdin_left := stdin_left st |}, false).
Proof.
  intros (Hq & Hj & Hc & Hl & HL & Ho & Hr & Hctx) Hp Ht. unfold grep_file. replace (path =s? "-") with false by (symmetry; by apply String.eqb_neq).
  unfold printed_lines, missing_paths, operand_selected. cbn [mbind list_bind]. rewrite app_nil_r, filter_cons.
  destruct (files !! path) as [data|] eqn:E.
  - rewrite (bool_decide_false (Some data = None)) by done. destruct (Ht data eq_refl) as [He Hb]. replace (negb (as_text f) && is_binary (fst (Sort.LimitReader data))) with false
      by (destruct Hb as [-> | ->]; [done|by rewrite andb_false_r]). rewrite Hctx. unfold grep_text, grep_Run, operand_lines, is_text in *.
    revert He. destruct (scan_big (fst (Sort.LimitReader data))) as [lines e]. intros He. cbn [fst snd] in *. subst e. rewrite Hj, Hl, HL, Hq, Hc. rewrite andb_false_r.
    rewrite decide_False by done. cbn [filter list_filter fmap list_fmap]. unfold match_lines. rewrite Ho.
    rewrite <- (run_lines_selected m path (invert f) (lineRegexp f)). set (ms := run_lines _ _ _ _ _ _). unfold put, selected, scan_failed. cbn.
    f_equal. f_equal.
    + unfold exit_from. cbn. destruct ms; cbn; [by destruct (Z.eqb_spec (exitCode st) 2)|]. by destruct (Z.eqb_spec (exitCode st) 2) as [->|].
    + f_equal. f_equal. induction ms as [|g ms IH]; [done|]. cbn. by rewrite IH.
    + destruct (suppressErrors f); by rewrite app_nil_r.
  - rewrite decide_True by done. cbn. unfold complain, exit_from. by rewrite app_nil_r.
Qed.

Lemma exit_from_trans code m1 a1 m2 a2 : code = 0 \/ code = 1 \/ code = 2 ->
  exit_from (exit_from code m1 a1) m2 a2 = exit_from code (m1 || m2) (a1 || a2).
Proof. intros [->|[->| ->]]; unfold exit_from; by destruct m1, a1, m2, a2. Qed.

Lemma exit_from_range code m a : code = 0 \/ code = 1 \/ code = 2 -> exit_from code m a = 0 \/ exit_from code m a = 1 \/ exit_from code m a = 2.
Proof. intros [->|[->| ->]]; unfold exit_from; destruct m, a; auto. Qed.

Lemma grep_files_plain m pp : plain -> forall paths st, "-" ∉ paths -> (forall p data, p ∈ paths -> files !! p = Some data -> is_text data) ->
  exitCode st = 0 \/ exitCode st = 1 \/ exitCode st = 2 ->
  grep_files open_error files f m pp paths st =
  ({| exitCode := exit_from (exitCode st) (bool_decide (missing_paths paths <> [])) (any_selected m paths);
      printed := printed st ++ (line <$> printed_lines m pp paths);
      complaints := complaints st ++ (if suppressErrors f then [] else (fun p => line ("grep: " +:+ p +:+ ": " +:+ open_error p)) <$> missing_paths paths);
      allMatches := allMatches st; stdin_left := stdin_left st |}, false).
Proof.
  intros Hf. induction paths as [|p paths IH]; intros st Hd Ht Hc; cbn [grep_files].
  - cbn. rewrite app_nil_r. destruct (suppressErrors f); rewrite app_nil_r; unfold exit_from; destruct st, Hc as [Hc|[Hc|Hc]]; cbn in *; by subst.
  - apply not_elem_of_cons in Hd as [Hp Hd]. rewrite grep_file_plain; [|done|done|intros data; apply Ht; by left]. rewrite IH; [|done|intros q data Hq; apply Ht; by right|by apply exit_from_range].
    cbn [exitCode printed complaints allMatches stdin_left]. rewrite exit_from_trans by done. unfold printed_lines. cbn [mbind list_bind]. rewrite app_nil_r, fmap_app, !(assoc (++)).
    f_equal. f_equal.
    + f_equal. unfold missing_paths. rewrite filter_cons. destruct (decide (files !! p = None)) as [E|E]; [|by rewrite (bool_decide_false _ E)].
      rewrite (bool_decide_true _ E). by rewrite (bool_decide_true (p :: _ <> [])) by done.
    + rewrite <- (assoc (++)). f_equal. destruct (suppressErrors f); [done|]. rewrite <- fmap_app. f_equal. unfold missing_paths. rewrite !filter_cons.
      by destruct (decide (files !! p = None)).
Qed.
End Plain.

(** C32: grep with a pattern and operands, and no option that changes what is printed: of every operand that can be read, in their order, it prints
    exactly the lines that match the pattern - with -v exactly those that do not -, in their order, whole, after the name
    if there are several operands and the number if asked for; it complains about every other operand; and it exits with 2 if there is one,
    else with 0 if a line was printed and with 1 if none was. *)
Theorem grep_prints_selected (f : grep_flags) (pattern : string) (m : matcher) (paths : list string) (stdin : string) :
  plain f -> paths <> [] -> "-" ∉ paths -> (forall p data, p ∈ paths -> files !! p = Some data -> is_text f data) ->
  make_matcher f (pattern_lines pattern) = Ok m ->
  let pp := if negb (no_filename f) && negb (with_filename f) then (1 <? length paths)%nat else with_filename f in
  grepRun open_error stat_error files walk f [] [] (pattern :: paths) stdin =
  {| rc := if bool_decide (missing_paths paths <> []) then 2 else if any_selected f m paths then 0 else 1;
     out := line <$> printed_lines f m pp paths;
     errs := if suppressErrors f then [] else (fun p => line ("grep: " +:+ p +:+ ": " +:+ open_error p)) <$> missing_paths paths |}.
Proof.
  intros Hf Hne Hd Ht Hm pp. unfold grepRun. cbn [file_patterns]. cbn [mbind list_bind]. rewrite !app_nil_r, Hm.
  assert (Hf' := Hf). destruct Hf' as (_ & Hj & _ & _ & _ & _ & Hr & _). rewrite Hr, Hj. destruct paths as [|p paths]; [done|].
  rewrite orb_false_r. rewrite (grep_files_plain f m _ Hf) by auto. cbn [exitCode printed complaints]. rewrite app_nil_r. cbn [app]. f_equal.
  unfold exit_from. cbn. by rewrite orb_false_r.
Qed.
End Laws.

Definition sample_flags (inv : bool) : grep_flags := {|
  quiet := false; suppressErrors := false; jsonMode := false; invert := inv; ignoreCase := false; countMode := false; lineNum := true;
  filesWithMatches := false; filesWithoutMatch := false; fixed := false; wordRegexp := false; lineRegexp := false; onlyMatching := false;
  recursive := false; with_filename := false; no_filename := false; as_text := false;
  after_arg := ""; before_arg := ""; context_arg := "" |}.

Definition sample_files : gmap string string := {[ "a" := "one" +:+ nl +:+ "two" +:+ nl +:+ "three" +:+ nl; "b" := "none" +:+ nl ]}.

Lemma grep_context_windows_witness :
  let data := "a" +:+ nl +:+ "b" +:+ nl +:+ "X" +:+ nl +:+ "c" +:+ nl +:+ "d" +:+ nl +:+ "X" +:+ nl in
  let lines := fst (scan_big data) in
  (ctx_line <$> separated None (context_window (@selects literal_regexp (@MFixed literal_regexp ["X"]) false false <$> lines) 1 0 lines)) = [2; 3; 0; 5; 6] /\
  @scanWithContext literal_regexp (@MFixed literal_regexp ["X"]) false false 1 0 data =
  separated None (context_window (@selects literal_regexp (@MFixed literal_regexp ["X"]) false false <$> lines) 1 0 lines).
Proof. split; [vm_compute; reflexivity|]. apply (@grep_context_windows literal_regexp (@MFixed literal_regexp ["X"]) false false 1 0); lia. Defined.

Lemma grep_prints_selected_witness :
  let files := sample_files in
  @grepRun literal_regexp (fun _ => "no such file") (fun _ => "") files (fun _ => None) (sample_flags true) [] [] ["two"; "a"; "c"; "b"] "" =
  {| rc := 2; out := line <$> ["a:1:one"; "a:3:three"; "b:1:none"]; errs := [line "grep: c: no such file"] |} /\
  @printed_lines literal_regexp files (sample_flags true) (@MRe literal_regexp "two") true ["a"; "c"; "b"] = ["a:1:one"; "a:3:three"; "b:1:none"] /\
  @grepRun literal_regexp (fun _ => "no such file") (fun _ => "") files (fun _ => None) (sample_flags true) [] [] ["two"; "a"; "c"; "b"] "" =
  {| rc := if bool_decide (missing_paths files ["a"; "c"; "b"] <> []) then 2
           else if @any_selected literal_regexp files (sample_flags true) (@MRe literal_regexp "two") ["a"; "c"; "b"] then 0 else 1;
     out := line <$> @printed_lines literal_regexp files (sample_flags true) (@MRe literal_regexp "two") true ["a"; "c"; "b"];
     errs := (fun p => line ("grep: " +:+ p +:+ ": " +:+ "no such file")) <$> missing_paths files ["a"; "c"; "b"] |}.
Proof.
  intros files. split; [vm_compute; reflexivity|]. split; [vm_compute; reflexivity|].
  apply (@grep_prints_selected literal_regexp (fun _ => "no such file") (fun _ => "") files (fun _ => None) (sample_flags true) "two" (@MRe literal_regexp "two") ["a"; "c"; "b"] "").
  - repeat split.
  - discriminate.
  - rewrite !not_elem_of_cons. repeat split; try discriminate. apply not_elem_of_nil.
  - intros p data Hp Hd. rewrite !elem_of_cons, elem_of_nil in Hp. destruct Hp as [->|[->|[->|[]]]]; vm_compute in Hd; try discriminate Hd;
      injection Hd as <-; (split; [vm_compute; reflexivity|right; vm_compute; reflexivity]).
  - vm_compute. reflexivity.
Defined.
