(* ===== verification/Fs.v ===== *)
(** The file system as the archivers use it: the calls of the package os on a tree with inodes and symbolic links.

    Nodes are keyed by the components of their absolute path; the root is always a directory, and so is the
    working directory.  A path is resolved the way the kernel does: one component at a time, a link is replaced
    by its target, at most 40 links are followed.  Permissions, owners and times are not modelled. *)

From S2P Require Import Prelude GoStd Paths.

Inductive ent := EDir | EFile (inode : nat) | ELink (target : string).

Inductive errno := ENOENT | ENOTDIR | ELOOP | EEXIST | EISDIR | ENOTEMPTY | EPERM | EINVAL.

Record fs := { tree : gmap (list string) ent; content : gmap nat string }.

#[export] Instance ent_eq_dec : EqDecision ent.
Proof. solve_decision. Defined.

(** The components of a path that are looked up. *)
Definition components (p : string) : list string := filter (fun c => c <> "" /\ c <> ".") (split_slash p).

(** Where a path starts from. *)
Definition start_of (cwd : list string) (p : string) : list string := if IsAbs p then [] else cwd.

Definition max_links : nat := 40.

(** The location of a path, and what is there; the last component may be missing. *)
Fixpoint namei (t : gmap (list string) ent) (follow : bool) (links : nat) : list string -> list string -> result errno (list string * option ent) :=
  fix go (dest todo : list string) {struct todo} :=
    match todo with
    | [] => Ok (dest, Some EDir)
    | c :: todo =>
        if c =s? ".." then go (removelast dest) todo
        else
          let loc := dest ++ [c] in
          match t !! loc with
          | None => match todo with [] => Ok (loc, None) | _ => Err ENOENT end
          | Some EDir => go loc todo
          | Some (EFile i) => match todo with [] => Ok (loc, Some (EFile i)) | _ => Err ENOTDIR end
          | Some (ELink target) =>
              if negb follow && (match todo with [] => true | _ => false end) then Ok (loc, Some (ELink target))
              else
                match links with
                | O => Err ELOOP
                | S links => namei t follow links (if IsAbs target then [] else dest) (components target ++ todo)
                end
          end
    end.

(** [os.Lstat] and [os.Stat] of the path from [start] with components [cs]. *)
Definition Lstat (s : fs) (start cs : list string) : result errno ent :=
  match namei (tree s) false max_links start cs with Ok (_, Some e) => Ok e | Ok (_, None) => Err ENOENT | Err e => Err e end.

Definition Stat (s : fs) (start cs : list string) : result errno ent :=
  match namei (tree s) true max_links start cs with Ok (_, Some e) => Ok e | Ok (_, None) => Err ENOENT | Err e => Err e end.

Definition set_node (loc : list string) (e : ent) (s : fs) : fs := {| tree := <[loc := e]> (tree s); content := content s |}.
Definition set_content (i : nat) (body : string) (s : fs) : fs := {| tree := tree s; content := <[i := body]> (content s) |}.

(** [os.Mkdir] *)
Definition Mkdir (s : fs) (start cs : list string) : result errno fs :=
  match namei (tree s) false max_links start cs with
  | Ok (loc, None) => Ok (set_node loc EDir s)
  | Ok (_, Some _) => Err EEXIST
  | Err e => Err e
  end.

(** [os.MkdirAll]; the components are in reverse order. *)
Fixpoint MkdirAll_rev (s : fs) (start rcs : list string) : result errno fs :=
  match Stat s start (rev rcs) with
  | Ok EDir => Ok s
  | Ok _ => Err ENOTDIR
  | Err e =>
      match rcs with
      | [] => Err e
      | _ :: parent =>
          let? s := match parent with [] => Ok s | _ => MkdirAll_rev s start parent end in
          match Mkdir s start (rev rcs) with
          | Ok s => Ok s
          | Err e => match Lstat s start (rev rcs) with Ok EDir => Ok s | _ => Err e end
          end
      end
  end.
Definition MkdirAll (s : fs) (start cs : list string) : result errno fs := MkdirAll_rev s start (rev cs).

(** [os.OpenFile] with O_WRONLY and O_TRUNC, and O_CREATE if [create], and the copy of [body] to the file. *)
Definition WriteFile (s : fs) (start cs : list string) (create : bool) (body : string) : result errno fs :=
  match namei (tree s) true max_links start cs with
  | Ok (_, Some (EFile i)) => Ok (set_content i body s)
  | Ok (_, Some EDir) => Err EISDIR
  | Ok (_, Some (ELink _)) => Err ELOOP
  | Ok (loc, None) =>
      if create then let i := fresh (dom (content s)) in Ok (set_content i body (set_node loc (EFile i) s)) else Err ENOENT
  | Err e => Err e
  end.

(** What is read from a file that can be opened. *)
Definition ReadFile (s : fs) (start cs : list string) : result errno string :=
  match Stat s start cs with
  | Ok (EFile i) => Ok (default "" (content s !! i))
  | Ok EDir => Err EISDIR
  | Ok (ELink _) => Err ELOOP
  | Err e => Err e
  end.

Definition strictly_below (p q : list string) : bool := (length p <? length q)%nat && bool_decide (p `prefix_of` q).

(** [os.Remove]: a file, a link or an empty directory. *)
Definition Remove (s : fs) (start cs : list string) : result errno fs :=
  match namei (tree s) false max_links start cs with
  | Ok (_, None) => Err ENOENT
  | Ok (loc, Some EDir) =>
      if bool_decide (cs = []) then Err EINVAL
      else if bool_decide (map_Forall (fun q _ => strictly_below loc q = false) (tree s)) then Ok {| tree := delete loc (tree s); content := content s |}
      else Err ENOTEMPTY
  | Ok (loc, Some _) => Ok {| tree := delete loc (tree s); content := content s |}
  | Err e => Err e
  end.

(** [os.Symlink] *)
Definition Symlink (s : fs) (target : string) (start cs : list string) : result errno fs :=
  if target =s? "" then Err ENOENT
  else
    match namei (tree s) false max_links start cs with
    | Ok (loc, None) => Ok (set_node loc (ELink target) s)
    | Ok (_, Some _) => Err EEXIST
    | Err e => Err e
    end.

(** [os.Link]: a link that is named is not followed. *)
Definition Link (s : fs) (start_old old start new : list string) : result errno fs :=
  match Lstat s start_old old with
  | Err e => Err e
  | Ok EDir => Err EPERM
  | Ok e =>
      match namei (tree s) false max_links start new with
      | Ok (loc, None) => Ok (set_node loc e s)
      | Ok (_, Some _) => Err EEXIST
      | Err e => Err e
      end
  end.

(** [os.Rename] of a file; a link that is named is not followed. *)
Definition Rename (s : fs) (start_old old start new : list string) : result errno fs :=
  match namei (tree s) false max_links start_old old, namei (tree s) false max_links start new with
  | Ok (_, None), Ok _ => Err ENOENT
  | Ok (_, Some EDir), Ok _ => Err EISDIR
  | Ok _, Ok (_, Some EDir) => Err EEXIST
  | Ok (from, Some e), Ok (to, _) => Ok {| tree := <[to := e]> (delete from (tree s)); content := content s |}
  | Err e, _ => Err e
  | _, Err e => Err e
  end.

(** The place whose permissions [os.Chmod] changes: links are followed.  The permissions themselves are not part of the state. *)
Definition Chmod_place (s : fs) (start cs : list string) : option (list string) :=
  match namei (tree s) true max_links start cs with Ok (loc, Some _) => Some loc | _ => None end.

(** A call whose error is not looked at. *)
Definition ignore_error (r : result errno fs) (s : fs) : fs := match r with Ok s => s | Err _ => s end.

(** ** What is seen of the file system *)

Inductive view := VDir | VFile (body : option string) | VLink (target : string).

Definition view_at (s : fs) (p : list string) : option view :=
  (fun e => match e with EDir => VDir | EFile i => VFile (content s !! i) | ELink t => VLink t end) <$> (tree s !! p).

(** ** Changes below a directory

    [inside root links s]: the files of [s] below [root] are not shared with those elsewhere, and the links below
    it are at the places [links], which are relative to [root]. *)

Definition below (root p : list string) : Prop := exists c cs, p = root ++ c :: cs.

Record separate (root : list string) (s : fs) : Prop := {
  has_content : forall p i, tree s !! p = Some (EFile i) -> i ∈ dom (content s);
  not_shared : forall p q i, below root p -> ~ below root q -> tree s !! p = Some (EFile i) -> tree s !! q = Some (EFile i) -> False }.

(** Nothing that is not below [root] is changed. *)
Definition same_outside (root : list string) (s s' : fs) : Prop := forall p, ~ below root p -> view_at s' p = view_at s p.

(** The nodes on the way from [root] to its descendant [cs] are directories. *)
Definition reached (t : gmap (list string) ent) (root cs : list string) : Prop :=
  forall x y, cs = x ++ y -> x <> [] -> y <> [] -> t !! (root ++ x) = Some EDir.

Definition links_at (root : list string) (ls : list (list string)) (s : fs) : Prop :=
  forall cs t, cs <> [] -> tree s !! (root ++ cs) = Some (ELink t) -> cs ∈ ls /\ reached (tree s) root cs.

(** No path of [ls] is a proper prefix of [cs]. *)
Definition not_through (ls : list (list string)) (cs : list string) : Prop := forall l k ks, l ∈ ls -> cs <> l ++ k :: ks.

Lemma same_outside_refl root s : same_outside root s s.
Proof. done. Qed.

Lemma same_outside_trans root s1 s2 s3 : same_outside root s1 s2 -> same_outside root s2 s3 -> same_outside root s1 s3.
Proof. intros H1 H2 p Hp. by rewrite H2, H1. Qed.

Lemma below_dec root p : {below root p} + {~ below root p}.
Proof.
  destruct (decide (root `prefix_of` p)) as [H|H].
  - destruct (decide (p = root)) as [->|Hne].
    + right. intros (c & cs & E). apply (f_equal length) in E. rewrite length_app in E. cbn in E. lia.
    + left. destruct H as [[|c cs] ->]; [by rewrite app_nil_r in Hne|]. by exists c, cs.
  - right. intros (c & cs & ->). apply H. by apply prefix_app_r.
Qed.

Lemma below_app root cs : cs <> [] -> below root (root ++ cs).
Proof. destruct cs as [|c cs]; [done|]. intros _. by exists c, cs. Qed.

(** One step of [namei]. *)
Lemma namei_cons t follow links dest c todo : c <> ".." ->
  namei t follow links dest (c :: todo) =
  match t !! (dest ++ [c]) with
  | None => match todo with [] => Ok (dest ++ [c], None) | _ => Err ENOENT end
  | Some EDir => namei t follow links (dest ++ [c]) todo
  | Some (EFile i) => match todo with [] => Ok (dest ++ [c], Some (EFile i)) | _ => Err ENOTDIR end
  | Some (ELink target) =>
      if negb follow && (match todo with [] => true | _ => false end) then Ok (dest ++ [c], Some (ELink target))
      else match links with O => Err ELOOP | S links => namei t follow links (if IsAbs target then [] else dest) (components target ++ todo) end
  end.
Proof. intros Hc. destruct links; cbn [namei]; by rewrite seqb_ne. Qed.

Lemma namei_nil t follow links dest : namei t follow links dest [] = Ok (dest, Some EDir).
Proof. by destruct links. Qed.

Lemma reached_cons t root c cs : t !! (root ++ [c]) = Some EDir -> reached t (root ++ [c]) cs -> reached t root (c :: cs).
Proof.
  intros Hc Hr x y E Hx Hy. destruct x as [|d x]; [done|]. injection E as <- E. destruct x as [|d x]; [done|].
  replace (root ++ c :: d :: x) with ((root ++ [c]) ++ d :: x) by (by rewrite <- app_assoc). by apply (Hr (d :: x) y).
Qed.

Lemma reached_tail t root c cs : cs <> [] -> reached t root (c :: cs) -> t !! (root ++ [c]) = Some EDir /\ reached t (root ++ [c]) cs.
Proof.
  intros Hcs Hr. split; [by apply (Hr [c] cs)|]. intros x y -> Hx Hy. rewrite <- app_assoc. by apply (Hr (c :: x) y).
Qed.

(** A path whose parents are directories is what it says. *)
Lemma namei_reached t follow links cs : forall root, Forall (fun c => clean_comp c) cs -> reached t root cs ->
  (follow = true -> forall x, t !! (root ++ cs) <> Some (ELink x)) ->
  namei t follow links root cs = Ok (root ++ cs, match cs with [] => Some EDir | _ => t !! (root ++ cs) end).
Proof.
  induction cs as [|c cs IH]; intros root Hc Hr Hf; [by rewrite namei_nil, app_nil_r|]. apply Forall_cons in Hc as [Hcc Hc].
  rewrite namei_cons by (by apply clean_comp_spec in Hcc as (_ & _ & _ & ?)). destruct cs as [|d cs].
  - destruct (t !! (root ++ [c])) as [[|i|x]|] eqn:E; [by rewrite namei_nil|done| |done]. destruct follow; [|done]. by destruct (Hf eq_refl x).
  - apply reached_tail in Hr as [Hd Hr]; [|done]. rewrite Hd. rewrite IH; [by rewrite <- app_assoc|done|done|]. by rewrite <- app_assoc.
Qed.

(** A path of proper names that does not pass a link is what it says. *)
Lemma namei_inside root ls s follow links all : links_at root ls s -> Forall (fun c => clean_comp c) all -> not_through ls all ->
  (follow = true -> forall t, tree s !! (root ++ all) <> Some (ELink t)) ->
  forall cs done dest, all = done ++ cs -> dest = root ++ done ->
  match namei (tree s) follow links dest cs with
  | Ok (loc, e) => loc = root ++ all /\ e = (match cs with [] => Some EDir | _ => tree s !! loc end) /\ reached (tree s) dest cs
  | Err _ => True
  end.
Proof.
  intros Hl Hc Ht Hf. induction cs as [|c cs IH]; intros done dest Ha ->.
  { rewrite namei_nil, Ha, app_nil_r. split; [done|]. split; [done|]. intros [] [] ?; done. }
  assert (Hcc : c <> "..").
  { rewrite Ha in Hc. apply Forall_app in Hc as [_ Hc]. apply Forall_cons in Hc as [Hc _]. by apply clean_comp_spec in Hc as (_ & _ & _ & ?). }
  assert (H1 : reached (tree s) (root ++ done) [c]) by (intros [|? [|??]] [|??] ? ??; done).
  rewrite namei_cons by done. specialize (IH (done ++ [c]) ((root ++ done) ++ [c])).
  rewrite <- (app_assoc done [c] cs), <- (app_assoc root done [c]) in IH. specialize (IH Ha eq_refl). rewrite <- (app_assoc root done [c]).
  destruct (tree s !! (root ++ done ++ [c])) as [[|i|t]|] eqn:E.
  - destruct (namei _ _ _ _ cs) as [[loc e]|]; [|trivial]. destruct IH as (-> & -> & Hr). split; [done|]. split; [destruct cs; [|done]; by rewrite Ha, E|].
    apply reached_cons; by rewrite <- app_assoc.
  - destruct cs; [|trivial]. by rewrite Ha, E.
  - assert (Hlast : cs = [] /\ follow = false).
    { destruct (Hl (done ++ [c]) t) as [Hin _]; [by destruct done|done|]. destruct cs as [|k ks].
      - split; [done|]. destruct follow; [|done]. rewrite Ha in Hf. by destruct (Hf eq_refl t).
      - exfalso. apply (Ht _ k ks Hin). by rewrite Ha, <- app_assoc. }
    destruct Hlast as [-> ->]. cbn. by rewrite Ha, E.
  - destruct cs; [|trivial]. by rewrite Ha, E.
Qed.

(** Calls on such a path change nothing outside, and keep what the next call needs. *)
Record confined (root : list string) (ls : list (list string)) (s s' : fs) : Prop := {
  c_same : same_outside root s s';
  c_separate : separate root s';
  c_links : links_at root ls s' }.

Section Inside.
Variable root : list string.
Variable ls : list (list string).
Variable s : fs.
Hypothesis Hsep : separate root s.
Hypothesis Hlinks : links_at root ls s.

Lemma confined_refl : confined root ls s s.
Proof. by constructor. Qed.

(** What is seen outside depends on the nodes there and their contents. *)
Lemma set_node_outside cs e : cs <> [] -> same_outside root s (set_node (root ++ cs) e s).
Proof.
  intros Hcs p Hp. unfold view_at, set_node. cbn. rewrite lookup_insert_ne; [done|]. intros <-. by apply Hp, below_app.
Qed.

Lemma reached_insert cs ds e : reached (tree s) root ds -> tree s !! (root ++ cs) = None -> reached (<[root ++ cs := e]> (tree s)) root ds.
Proof. intros Hr Hn x y E Hx Hy. rewrite lookup_insert_ne; [by eapply Hr|]. intros E1. specialize (Hr x y E Hx Hy). by rewrite <- E1, Hn in Hr. Qed.

Lemma set_node_confined cs e : cs <> [] -> tree s !! (root ++ cs) = None ->
  (forall i, e = EFile i -> exists q, below root q /\ tree s !! q = Some (EFile i)) ->
  (forall t, e = ELink t -> cs ∈ ls /\ reached (tree s) root cs) -> confined root ls s (set_node (root ++ cs) e s).
Proof.
  intros Hcs Hn He Ht. constructor; [by apply set_node_outside| |].
  - constructor.
    + intros p i. cbn. rewrite lookup_insert_Some. intros [[<- ->]|[_ H]]; [|by eapply has_content].
      destruct (He i eq_refl) as (q & _ & Hq). by eapply has_content.
    + intros p q i Hp Hq. cbn. rewrite !lookup_insert_Some. intros [[<- ->]|[_ H1]] [[<- E]|[_ H2]].
      * by apply Hq, below_app.
      * destruct (He i eq_refl) as (q' & Hq' & E). by eapply (not_shared _ _ Hsep q' q i).
      * by apply Hq, below_app.
      * by eapply (not_shared _ _ Hsep p q i).
  - intros cs' t Hne. cbn. rewrite lookup_insert_Some. intros [[E1 ->]|[_ H]].
    + apply app_inv_head in E1 as <-. destruct (Ht t eq_refl). split; [done|]. by apply reached_insert.
    + destruct (Hlinks cs' t Hne H). split; [done|]. by apply reached_insert.
Qed.

Lemma delete_confined cs : cs <> [] -> (tree s !! (root ++ cs) = Some EDir -> forall k ks, tree s !! (root ++ cs ++ k :: ks) = None) -> confined root ls s {| tree := delete (root ++ cs) (tree s); content := content s |}.
Proof.
  intros Hcs Hd. constructor.
  - intros p Hp. unfold view_at. cbn. rewrite lookup_delete_ne; [done|]. intros <-. by apply Hp, below_app.
  - constructor.
    + intros p i. cbn. rewrite lookup_delete_Some. intros [_ H]. by eapply has_content.
    + intros p q i Hp Hq. cbn. rewrite !lookup_delete_Some. intros [_ H1] [_ H2]. by eapply (not_shared _ _ Hsep p q i).
  - intros cs' t Hne. cbn. rewrite lookup_delete_Some. intros [_ H]. destruct (Hlinks cs' t Hne H) as [Hin Hr]. split; [done|].
    intros x y E Hx Hy. specialize (Hr x y E Hx Hy). rewrite lookup_delete_ne; [done|]. intros E1. apply app_inv_head in E1 as ->.
    destruct y as [|k ks]; [done|]. specialize (Hd Hr k ks). by rewrite <- E, H in Hd.
Qed.

Lemma set_content_confined cs i body : cs <> [] -> tree s !! (root ++ cs) = Some (EFile i) -> confined root ls s (set_content i body s).
Proof.
  intros Hcs E. constructor; [|constructor|done].
  - intros p Hp. unfold view_at, set_content. cbn. destruct (tree s !! p) as [[| j |]|] eqn:Ep; [done| |done..]. cbn. rewrite lookup_insert_ne; [done|].
    intros <-. by eapply (not_shared _ _ Hsep (root ++ cs) p i); [apply below_app|..].
  - intros p j H. cbn. rewrite dom_insert. apply elem_of_union_r. by eapply has_content.
  - cbn. apply (not_shared _ _ Hsep).
Qed.

Lemma new_file_confined cs body : cs <> [] -> tree s !! (root ++ cs) = None -> confined root ls s (let i := fresh (dom (content s)) in set_content i body (set_node (root ++ cs) (EFile i) s)).
Proof.
  intros Hcs Hn. set (i := fresh (dom (content s))). assert (Hi : i ∉ dom (content s)) by apply is_fresh. cbn.
  assert (Hno : forall p, tree s !! p <> Some (EFile i)) by (intros p H; by apply Hi; eapply has_content). constructor.
  - intros p Hp. unfold view_at, set_content, set_node. cbn. rewrite lookup_insert_ne; [|intros <-; by apply Hp, below_app].
    destruct (tree s !! p) as [[|j|]|] eqn:Ep; [done| |done..]. cbn. rewrite lookup_insert_ne; [done|]. intros <-. by apply (Hno p).
  - constructor.
    + intros p j. cbn. rewrite dom_insert, lookup_insert_Some. intros [[_ [= <-]]|[_ H]]; [apply elem_of_union_l; by apply elem_of_singleton|].
      apply elem_of_union_r. by eapply has_content.
    + intros p q j Hp Hq. cbn. rewrite !lookup_insert_Some. intros [[<- E]|[_ H1]] [[<- E']|[_ H2]]; [by apply Hq, below_app| |by apply Hq, below_app|].
      * injection E as <-. by apply (Hno q).
      * by eapply (not_shared _ _ Hsep p q j).
  - intros cs' t Hne. cbn. rewrite lookup_insert_Some. intros [[_ [=]]|[_ H]]. destruct (Hlinks cs' t Hne H). split; [done|]. by apply reached_insert.
Qed.

Variable cs : list string.
Hypothesis Hclean : Forall (fun c => clean_comp c) cs.
Hypothesis Hthrough : not_through ls cs.

Lemma namei_here follow : (follow = true -> forall t, tree s !! (root ++ cs) <> Some (ELink t)) ->
  match namei (tree s) follow max_links root cs with
  | Ok (loc, e) => loc = root ++ cs /\ e = (match cs with [] => Some EDir | _ => tree s !! loc end) /\ reached (tree s) root cs
  | Err _ => True
  end.
Proof. intros Hf. apply (namei_inside root ls s follow max_links cs Hlinks Hclean Hthrough Hf cs []); [done|by rewrite app_nil_r]. Qed.

Lemma Lstat_link t : cs <> [] -> tree s !! (root ++ cs) = Some (ELink t) -> Lstat s root cs = Ok (ELink t).
Proof. intros Hcs E. destruct (Hlinks cs t Hcs E) as [_ Hr]. unfold Lstat. rewrite namei_reached by done. by destruct cs; [|rewrite E]. Qed.

Lemma Mkdir_confined s' : Mkdir s root cs = Ok s' -> confined root ls s s'.
Proof.
  unfold Mkdir. pose proof (namei_here false ltac:(done)) as H. destruct (namei _ _ _ _ _) as [[loc [e|]]|]; [done| |done].
  destruct H as (-> & H & _). intros [= <-]. apply set_node_confined; [by destruct cs|by destruct cs|done..].
Qed.

Lemma Remove_confined s' : Remove s root cs = Ok s' -> confined root ls s s'.
Proof.
  unfold Remove. pose proof (namei_here false ltac:(done)) as H. destruct (namei _ _ _ _ _) as [[loc [[]|]]|]; [| | |done..]; destruct H as (-> & H & _).
  - case_bool_decide as Hne; [done|]. case_bool_decide as He; [|done]. intros [= <-]. apply delete_confined; [done|]. intros _ k ks.
    destruct (tree s !! (root ++ cs ++ k :: ks)) as [e|] eqn:E; [|done]. specialize (He _ _ E). cbn in He. exfalso. unfold strictly_below in He.
    rewrite bool_decide_true in He by (rewrite app_assoc; by apply prefix_app_r). rewrite andb_true_r in He. apply Nat.ltb_ge in He. rewrite !length_app in He. cbn in He. lia.
  - intros [= <-]. apply delete_confined; [by intros ->|]. intros E. destruct cs; [done|congruence].
  - intros [= <-]. apply delete_confined; [by intros ->|]. intros E. destruct cs; [done|congruence].
Qed.

Lemma Symlink_confined t s' : (cs <> [] -> cs ∈ ls) -> Symlink s t root cs = Ok s' -> confined root ls s s'.
Proof.
  intros Hin. unfold Symlink. destruct (t =s? ""); [done|]. pose proof (namei_here false ltac:(done)) as H. destruct (namei _ _ _ _ _) as [[loc [e|]]|]; [done| |done].
  destruct H as (-> & H & Hr). assert (Hcs : cs <> []) by (by destruct cs). intros [= <-]. apply set_node_confined; [done|by destruct cs|done|]. intros x _. auto.
Qed.

Lemma WriteFile_confined create body s' : (forall t, tree s !! (root ++ cs) <> Some (ELink t)) -> WriteFile s root cs create body = Ok s' -> confined root ls s s'.
Proof.
  intros Hn. unfold WriteFile. pose proof (namei_here true ltac:(done)) as H. destruct (namei _ _ _ _ _) as [[loc [[]|]]|]; [done| |done| |done]; destruct H as (-> & H & _).
  - intros [= <-]. destruct cs as [|c cs'] eqn:E; [done|]. by apply (set_content_confined (c :: cs')).
  - destruct create; [|done]. intros [= <-]. apply new_file_confined; by destruct cs.
Qed.
End Inside.

Lemma confined_trans root ls s1 s2 s3 : confined root ls s1 s2 -> confined root ls s2 s3 -> confined root ls s1 s3.
Proof. intros [H1 _ _] [H2 H3 H4]. constructor; [by eapply same_outside_trans|done..]. Qed.

Lemma not_through_prefix ls cs ds : not_through ls (cs ++ ds) -> not_through ls cs.
Proof. intros H l k ks Hl ->. apply (H l k (ks ++ ds) Hl). by rewrite <- app_assoc. Qed.

Lemma MkdirAll_rev_confined root ls rcs : forall s s', separate root s -> links_at root ls s -> Forall (fun c => clean_comp c) (rev rcs) ->
  not_through ls (rev rcs) -> MkdirAll_rev s root rcs = Ok s' -> confined root ls s s'.
Proof.
  induction rcs as [|c rcs IH]; intros s s' Hs Hl Hc Ht; cbn [MkdirAll_rev].
  - destruct (Stat s root (rev [])) as [[]|]; try done. intros [= <-]. by apply confined_refl.
  - destruct (Stat s root (rev (c :: rcs))) as [[]|]; try done; [intros [= <-]; by apply confined_refl|].
    destruct (match rcs with [] => Ok s | _ => MkdirAll_rev s root rcs end) as [s1|] eqn:E1; [|done]. cbn [res_bind].
    assert (H1 : confined root ls s s1).
    { cbn in Hc, Ht. destruct rcs as [|x rcs]; [injection E1 as <-; by apply confined_refl|]. apply Forall_app in Hc as [Hc _]. apply not_through_prefix in Ht. by apply IH. }
    destruct (Mkdir s1 root (rev (c :: rcs))) as [s2|] eqn:E2.
    + intros [= <-]. eapply confined_trans; [exact H1|]. destruct H1. by eapply Mkdir_confined.
    + destruct (Lstat s1 root (rev (c :: rcs))) as [[]|]; try done. by intros [= <-].
Qed.

Lemma MkdirAll_confined root ls cs s s' : separate root s -> links_at root ls s -> Forall (fun c => clean_comp c) cs ->
  not_through ls cs -> MkdirAll s root cs = Ok s' -> confined root ls s s'.
Proof. intros Hs Hl Hc Ht. apply MkdirAll_rev_confined; by rewrite ?rev_involutive. Qed.

(** Directories that are made do not make links. *)
Lemma Mkdir_no_links s root cs s' p t : Mkdir s root cs = Ok s' -> tree s' !! p = Some (ELink t) -> tree s !! p = Some (ELink t).
Proof. unfold Mkdir. destruct (namei _ _ _ _ _) as [[loc [e|]]|]; [done| |done]. intros [= <-]. cbn. rewrite lookup_insert_Some. by intros [[_ [=]]|[_ H]]. Qed.

Lemma MkdirAll_rev_no_links root rcs p t : forall s s', MkdirAll_rev s root rcs = Ok s' -> tree s' !! p = Some (ELink t) -> tree s !! p = Some (ELink t).
Proof.
  induction rcs as [|c rcs IH]; intros s s'; cbn [MkdirAll_rev].
  - destruct (Stat s root (rev [])) as [[]|]; try done. by intros [= <-].
  - destruct (Stat s root (rev (c :: rcs))) as [[]|]; try done; [by intros [= <-]|].
    destruct (match rcs with [] => Ok s | _ => MkdirAll_rev s root rcs end) as [s1|] eqn:E1; [|done]. cbn [res_bind].
    assert (H1 : tree s1 !! p = Some (ELink t) -> tree s !! p = Some (ELink t)) by (destruct rcs; [by injection E1 as <-|by apply IH]).
    destruct (Mkdir s1 root (rev (c :: rcs))) as [s2|] eqn:E2.
    + intros [= <-] H. eapply H1, Mkdir_no_links; done.
    + destruct (Lstat s1 root (rev (c :: rcs))) as [[]|]; try done. by intros [= <-].
Qed.
