(* ===== verification/Tar.v ===== *)
(** tar: pkg/tar/tar.go, on the file system of Fs.v.

    The entries of an archive are the headers and bodies that archive/tar reads and writes; the decompressors, the
    clock and the permissions are parameters. *)

From S2P Require Import Prelude GoStd Paths Utf8 Scanner Output Fs.
From S2P Require Select.

Local Open Scope Z_scope.

Inductive typeflag := TypeReg | TypeDir | TypeSymlink | TypeLink | TypeChar | TypeBlock | TypeFifo | TypeOther.

#[export] Instance typeflag_eq_dec : EqDecision typeflag.
Proof. solve_decision. Defined.

Record Header := { Name : string; Linkname : string; Typeflag : typeflag; Size : Z; Mode : Z; ModTime : Z; Uname : string; Gname : string }.

Record tarEntry := { header : Header; body : string }.

Record TarFileStat := { stat_Name : string; stat_Size : Z; stat_Mode : string }.

(** ** Options *)

Definition byte_in (s : string) (c : ascii) : bool := bool_decide (Index s (String c "") <> None).
Definition validChars : string := "cxtruzvOjJfCX".

Fixpoint expand_bundle (bundle : string) (rest : list string) : list string :=
  match bundle with
  | "" => rest
  | String ch bundle =>
      ("-" +:+ String ch "") ::
      (if byte_in "fCX" ch then match rest with r :: rest => r :: expand_bundle bundle rest | [] => expand_bundle bundle [] end
       else expand_bundle bundle rest)
  end.

(** The flags come out before the arguments they do not take. *)
Definition preprocessOldStyleFlags (args : list string) : list string :=
  match args with
  | [] => []
  | first :: rest =>
      if (first =s? "") || HasPrefix first "-" then args
      else if str_forall (byte_in validChars) first && negb (str_forall (fun c => negb (byte_in "cxtru" c)) first) then expand_bundle first rest
      else args
  end.

Record tar_flags := {
  create : bool; extract : bool; list_ : bool; useGzip : bool; useBzip2 : bool; keepOld : bool; verbose : bool; toStdout : bool;
  overwrite : bool; isJSON : bool; file : string; dir : string; excludeFiles : list string; Positional : list string }.

(** ** Patterns *)

Definition isExcluded (name : string) (excludePatterns : list string) : bool :=
  existsb (fun p => (p =s? name) || HasPrefix name (p +:+ "/")) excludePatterns.

Definition buildIncludeSet (positional : list string) : option (list string) :=
  match positional with [] => None | _ => Some ((fun p => TrimSuffix (TrimPrefix p "./") "/") <$> positional) end.

Definition included (includeSet : option (list string)) (name : string) : bool :=
  match includeSet with None => true | Some set => bool_decide (name ∈ set) end.

(** [readExcludeFile]: the patterns, or that a line is too long. *)
Definition exclude_lines (text : string) : option (list string) :=
  let '(lines, too_long) := scan text in if too_long then None else Some (filter (fun l => l <> "") (TrimSpace <$> lines)).

(** ** Names *)

(** [resolveTarPath]: the stack, the parts that are stripped. *)
Fixpoint resolve_parts (parts stack stripParts : list string) (firstEmptyPop skipNext : bool) : list string * list string :=
  match parts with
  | [] => (rev stack, rev stripParts)
  | p :: parts =>
      if (p =s? "") || (p =s? ".") then resolve_parts parts stack (p :: stripParts) firstEmptyPop skipNext
      else if p =s? ".." then
        match stack with
        | popped :: stack => resolve_parts parts stack (p :: popped :: stripParts) firstEmptyPop skipNext
        | [] => if firstEmptyPop then resolve_parts parts [] (p :: stripParts) false true else resolve_parts parts [] (p :: stripParts) false skipNext
        end
      else if skipNext then resolve_parts parts stack (p :: stripParts) firstEmptyPop false
      else resolve_parts parts (p :: stack) stripParts firstEmptyPop skipNext
  end.

Definition TrimRight_slash (s : string) : string := TrimRightSet (fun c => c =c? slash) s.

Definition resolveTarPath (target : string) : string * string :=
  let '(stack, stripParts) := resolve_parts (split_slash target) [] [] true false in
  let strippedPrefix := sconcat ((fun s => s +:+ "/") <$> stripParts) in
  let strippedPrefix :=
    if negb (HasSuffix target "/") && negb (target =s? "") then
      let t := TrimRight_slash strippedPrefix in if t =s? "" then "" else t +:+ "/"
    else strippedPrefix in
  (join_slash stack, match stripParts with [] => "" | _ => strippedPrefix end).

(** A name that is not extracted: it leads out of the directory. *)
Definition leads_out (target : string) : bool := HasPrefix target ".." || HasPrefix target "/".

Definition isSymlinkSafe (rootDir symlinkTarget linkTarget : string) : bool :=
  if IsAbs linkTarget then false
  else
    let resolved := Clean (Join [Dir symlinkTarget; linkTarget]) in
    let absTarget := Clean (Join [rootDir; resolved]) in
    let cleanRoot := Clean rootDir in
    (absTarget =s? cleanRoot) || HasPrefix absTarget (cleanRoot +:+ "/").

(** The loop over the parents. *)
Fixpoint dangerous_from (fuel : nat) (parent : string) (dangerous : list string) : bool :=
  match fuel with
  | O => false
  | S fuel =>
      if (parent =s? ".") || (parent =s? "/") || (parent =s? "") then false
      else if bool_decide (parent ∈ dangerous) then true else dangerous_from fuel (Dir parent) dangerous
  end.
Definition hasDangerousParent (target : string) (dangerous : list string) : bool := dangerous_from (S (String.length target)) (Dir target) dangerous.

(** [allTargets] lists every target as often as it is counted. *)
Definition count_of (target : string) (allTargets : list string) : nat := length (filter (fun n => n = target) allTargets).
Definition hasConflict (target : string) (allTargets : list string) : bool :=
  (1 <? count_of target allTargets)%nat || existsb (fun name => HasPrefix name (target +:+ "/")) allTargets.

Definition all_targets (entries : list tarEntry) : list string :=
  filter (fun t => leads_out t = false) ((fun e => Clean (Name (header e))) <$> entries).

(** ** Extraction *)

Fixpoint octal (fuel : nat) (n : Z) : string :=
  match fuel with
  | O => ""
  | S fuel => (if n <? 8 then "" else octal fuel (n / 8)) +:+ String (chr (48 + n mod 8)) ""
  end.
(** [%04o] of a number that is not negative *)
Definition format_04o (n : Z) : string := let s := octal 22 n in repeat_char "0" (4 - String.length s) +:+ s.

Definition stat_of (h : Header) : TarFileStat := {| stat_Name := Name h; stat_Size := Size h; stat_Mode := format_04o (Mode h) |}.

Notation text := (chunk (list TarFileStat)) (only parsing).

Record xoptions := { x_verbose : bool; x_toStdout : bool; x_overwrite : bool; x_keepOld : bool; excludePatterns : list string; includeSet : option (list string) }.

Record xstate := {
  disk : fs; stats : list TarFileStat; dangerousSymlinks : list string; hadSymlinkDependents : bool; matchedAny : bool;
  printed : list text; complaints : list text; deferred : list (list string * Z) }.

Definition with_disk (s : fs) (x : xstate) : xstate :=
  {| disk := s; stats := stats x; dangerousSymlinks := dangerousSymlinks x; hadSymlinkDependents := hadSymlinkDependents x; matchedAny := matchedAny x;
     printed := printed x; complaints := complaints x; deferred := deferred x |}.
Definition with_match (x : xstate) : xstate :=
  {| disk := disk x; stats := stats x; dangerousSymlinks := dangerousSymlinks x; hadSymlinkDependents := hadSymlinkDependents x; matchedAny := true;
     printed := printed x; complaints := complaints x; deferred := deferred x |}.
Definition with_stat (st : TarFileStat) (x : xstate) : xstate :=
  {| disk := disk x; stats := stats x ++ [st]; dangerousSymlinks := dangerousSymlinks x; hadSymlinkDependents := hadSymlinkDependents x; matchedAny := matchedAny x;
     printed := printed x; complaints := complaints x; deferred := deferred x |}.
Definition with_dependent (x : xstate) : xstate :=
  {| disk := disk x; stats := stats x; dangerousSymlinks := dangerousSymlinks x; hadSymlinkDependents := true; matchedAny := matchedAny x;
     printed := printed x; complaints := complaints x; deferred := deferred x |}.
Definition with_printed (t : list text) (x : xstate) : xstate :=
  {| disk := disk x; stats := stats x; dangerousSymlinks := dangerousSymlinks x; hadSymlinkDependents := hadSymlinkDependents x; matchedAny := matchedAny x;
     printed := printed x ++ t; complaints := complaints x; deferred := deferred x |}.
Definition refuse (target : string) (msg : text) (x : xstate) : xstate :=
  {| disk := disk x; stats := stats x; dangerousSymlinks := target :: dangerousSymlinks x; hadSymlinkDependents := hadSymlinkDependents x; matchedAny := matchedAny x;
     printed := printed x; complaints := complaints x ++ [msg]; deferred := deferred x |}.

(** A call of [os.Chmod] that is put off until the extraction returns; the last one is done first. *)
Definition with_deferred (cs : list string) (mode : Z) (x : xstate) : xstate :=
  {| disk := disk x; stats := stats x; dangerousSymlinks := dangerousSymlinks x; hadSymlinkDependents := hadSymlinkDependents x; matchedAny := matchedAny x;
     printed := printed x; complaints := complaints x; deferred := (cs, mode) :: deferred x |}.

(** A name as it is listed. *)
Definition listed_name (h : Header) : string :=
  if bool_decide (Typeflag h = TypeDir) && negb (HasSuffix (Name h) "/") then Name h +:+ "/" else Name h.

Definition selected_entry (o : xoptions) (e : tarEntry) : bool :=
  negb (isExcluded (Name (header e)) (excludePatterns o)) && included (includeSet o) (Name (header e)).

(** The names that -v prints before the extraction. *)
Definition verbose_lines (o : xoptions) (entries : list tarEntry) : list text :=
  if x_verbose o then
    e ← entries; if selected_entry o e && negb (leads_out (Clean (Name (header e)))) then [line (listed_name (header e))] else []
  else [].

Definition failed (x : xstate) (r : result errno fs) : result (xstate * errno) xstate :=
  match r with Ok s => Ok (with_disk s x) | Err e => Err (x, e) end.

(** What is there is removed; the error of [os.Remove] is not looked at. *)
Definition remove_quietly (wd : list string) (cs : list string) (s : fs) : fs := ignore_error (Remove s wd cs) s.

Definition extract_dir (o : xoptions) (wd : list string) (target : string) (mode : Z) (x : xstate) : result (xstate * errno) xstate :=
  if x_toStdout o then Ok x
  else let? x := failed x (MkdirAll (disk x) wd (components target)) in Ok (with_deferred (components target) mode x).

Definition extract_reg (o : xoptions) (wd : list string) (target body : string) (x : xstate) : result (xstate * errno) xstate :=
  if x_toStdout o then Ok (with_printed [CText body] x)
  else
    let x := if hasDangerousParent target (dangerousSymlinks x) then with_dependent x else x in
    let old := Lstat (disk x) wd (components target) in
    if (match old with Ok _ => true | Err _ => false end) && x_keepOld o then Ok x
    else
      let x := match old with Ok (ELink _) => with_disk (remove_quietly wd (components target) (disk x)) x | _ => x end in
      match MkdirAll (disk x) wd (components (Dir target)) with
      | Err e => Err (x, e)
      | Ok s => failed (with_disk s x) (WriteFile s wd (components target) (negb (x_overwrite o)) body)
      end.

(** The place of a link: an old entry there is removed, unless it is kept, and the parents are made. *)
Definition make_room (o : xoptions) (wd : list string) (target : string) (s : fs) : option fs :=
  match Lstat s wd (components target) with
  | Ok _ => if x_keepOld o then None else Some (let s := remove_quietly wd (components target) s in ignore_error (MkdirAll s wd (components (Dir target))) s)
  | Err _ => Some (ignore_error (MkdirAll s wd (components (Dir target))) s)
  end.

Definition extract_symlink (o : xoptions) (wd : list string) (allTargets : list string) (target : string) (h : Header) (x : xstate) : xstate :=
  if x_toStdout o then x
  else if negb (isSymlinkSafe (abs_path wd) target (Linkname h)) && hasConflict target allTargets then
    refuse target (line ("tar: can't create symlink '" +:+ Name h +:+ "' to '" +:+ Linkname h +:+ "'")) x
  else
    match make_room o wd target (disk x) with
    | None => x
    | Some s => with_disk (ignore_error (Symlink s (Linkname h) wd (components target)) s) x
    end.

Definition extract_link (o : xoptions) (wd : list string) (target : string) (h : Header) (x : xstate) : xstate :=
  let linkTarget := Clean (Linkname h) in
  if x_toStdout o then x
  else if linkTarget =s? target then x
  else if HasPrefix linkTarget ".." then x
  else
    match make_room o wd target (disk x) with
    | None => x
    | Some s => with_disk (ignore_error (Link s (start_of wd linkTarget) (components linkTarget) wd (components target)) s) x
    end.

(** The body of the loop over the entries. *)
Definition extract_entry (o : xoptions) (wd : list string) (allTargets : list string) (e : tarEntry) (x : xstate) : result (xstate * errno) xstate :=
  let h := header e in
  if negb (selected_entry o e) then Ok x
  else
    let x := with_match x in
    let target := Clean (Name h) in
    if leads_out target then Ok x
    else
      let x := with_stat (stat_of h) x in
      match Typeflag h with
      | TypeDir => extract_dir o wd target (Mode h) x
      | TypeReg => extract_reg o wd target (body e) x
      | TypeSymlink => Ok (extract_symlink o wd allTargets target h x)
      | TypeLink => Ok (extract_link o wd target h x)
      | _ => Ok x
      end.

Fixpoint extract_entries (o : xoptions) (wd : list string) (allTargets : list string) (entries : list tarEntry) (x : xstate) : result (xstate * errno) xstate :=
  match entries with
  | [] => Ok x
  | e :: entries => let? x := extract_entry o wd allTargets e x in extract_entries o wd allTargets entries x
  end.

(** The deferred calls: the places whose permissions change, and the mode they get. *)
Definition run_deferred (wd : list string) (x : xstate) : list (list string * Z) :=
  omap (fun '(cs, mode) => (fun loc => (loc, mode)) <$> Chmod_place (disk x) wd cs) (deferred x).

(** ** Listing *)

Definition rwx (mode : Z) : string :=
  (fix go (names : string) (bit : Z) : string :=
     match names with
     | "" => ""
     | String c names => String (if Z.testbit mode bit then c else "-"%char) (go names (bit - 1))
     end) "rwxrwxrwx" 8.

Definition formatTarMode (h : Header) : string :=
  String (match Typeflag h with
          | TypeDir => "d" | TypeSymlink => "l" | TypeLink => "h" | TypeChar => "c" | TypeBlock => "b" | TypeFifo => "p" | _ => "-" end)%char
    (rwx (Mode h)).

(** [localTime]: the seconds east of UTC that the variable TZ asks for; [None] leaves the time as it is. *)
Definition localTime (tz : string) : option Z :=
  if HasPrefix tz "UTC" then
    match str_drop 3 tz with
    | "" => None
    | String c t =>
        let sign := if c =c? "+" then -1 else 1 in
        match Atoi (if (c =c? "-") || (c =c? "+") then t else String c t) with
        | Some hours => Some (Z.quot (wrap 64 (wrap 64 (sign * hours) * 3600000000000)) 1000000000)
        | None => None
        end
    end
  else None.

(** [%10d] *)
Definition pad_left (n : nat) (s : string) : string := repeat_char " " (n - String.length s) +:+ s.

(** ** The environment *)

(** What is read from a source: data, then an error or the end. *)
Definition stream : Type := string * option string.

Section Tar.
(** archive/tar: the entries of an archive before an error, and the error; and the archive of entries. *)
Variable tar_Reader : stream -> list tarEntry * option string.
Variable tar_Writer : list tarEntry -> string.
(** The decompressors: the data, or the text of the error that opening them gives. *)
Variable gunzip unxz : stream -> result string stream.
Variable bunzip2 : stream -> stream.
Variable gzip : string -> string.
(** The texts of the errors of the calls, without the paths they name. *)
Variable errno_text : errno -> string.
(** The time of an entry as -tv prints it, in the zone that is so many seconds east of UTC or in the local one. *)
Variable time_text : option Z -> Z -> string.
(** The permission bits and the time of a file, and the mode as text. *)
Variable perm : list string -> Z.
Variable mtime : list string -> Z.
(** The names of the owner and of the group of a file, as os/user looks them up. *)
Variable owner : list string -> string * string.
Variable mode_text : ent -> Z -> string.
Variable TZ : string.

(** What the command returns: also the places whose permissions it changed. *)
Record tar_result := { io : run_io (list TarFileStat); after : fs; chmods : list (list string * Z) }.

(** [RenderError] and the line for the user. *)
Definition failure (isJSON : bool) (code msg user : string) : run_io (list TarFileStat) :=
  {| rc := 1; out := RenderError "tar" 1 code msg isJSON; errs := if isJSON then [] else [line user] |}.

Definition before (ls es : list text) (r : run_io (list TarFileStat)) : run_io (list TarFileStat) := {| rc := rc r; out := ls ++ out r; errs := es ++ errs r |}.

(** The archive: the standard input or a file. *)
Definition open_archive (s : fs) (wd : list string) (archive stdin : string) : result string stream :=
  if archive =s? "-" then Ok (stdin, None)
  else match Stat s (start_of wd archive) (components archive) with
       | Ok (EFile i) => Ok (default "" (content s !! i), None)
       | Ok _ => Ok ("", Some (errno_text EISDIR))
       | Err e => Err (errno_text e)
       end.

(** The first bytes tell the compression, unless an option does: -z, -j, xz. *)
Definition magic (data : string) : bool * bool * bool :=
  if (String.length data <? 6)%nat then (false, false, false)
  else if HasPrefix data (String "031" (String "139" "")) then (true, false, false)
  else if HasPrefix data "BZh" then (false, true, false)
  else (false, false, HasPrefix data (String "253" ("7zXZ" +:+ String "000" ""))).

(** The decompressed stream, or the code and the text of an error. *)
Definition decompress (f : tar_flags) (r : stream) : result (string * string) stream :=
  let '(z, j, x) := if negb (useGzip f) && negb (useBzip2 f) then magic (fst r) else (useGzip f, useBzip2 f, false) in
  let? r := if (z : bool) then match gunzip r with Ok r => Ok r | Err m => Err ("GZIP", m) end else Ok r in
  let r := if (j : bool) then bunzip2 r else r in
  if (x : bool) then match unxz r with Ok r => Ok r | Err m => Err ("XZ", m) end else Ok r.

Definition is_empty (r : stream) : bool := match r with ("", None) => true | _ => false end.

(** [extractArchiveStream]: the state, and the text of an error. *)
Definition extractArchiveStream (o : xoptions) (wd : list string) (r : stream) (x : xstate) : xstate * option string :=
  if is_empty r then (x, Some "short read")
  else
    let '(entries, err) := tar_Reader r in
    match err with
    | Some m => (x, Some m)
    | None =>
        let x := with_printed (verbose_lines o entries) x in
        match extract_entries o wd (all_targets entries) entries x with
        | Err (x, e) => (x, Some (errno_text e))
        | Ok x =>
            match includeSet o with
            | Some _ => if matchedAny x then (x, None) else (x, Some "file not found in archive")
            | None => (x, None)
            end
        end
    end.

Definition start_state (s : fs) : xstate :=
  {| disk := s; stats := []; dangerousSymlinks := []; hadSymlinkDependents := false; matchedAny := false; printed := []; complaints := []; deferred := [] |}.

Definition xoptions_of (f : tar_flags) (excludes : list string) : xoptions :=
  {| x_verbose := verbose f && negb (isJSON f); x_toStdout := toStdout f; x_overwrite := overwrite f; x_keepOld := keepOld f;
     excludePatterns := excludes; includeSet := buildIncludeSet (Positional f) |}.

Definition open_failure (f : tar_flags) (code msg : string) (short : bool) : run_io (list TarFileStat) :=
  failure (isJSON f) code msg ("tar: " +:+ if short && (code =s? "GZIP") then "short read" else msg).

Definition doExtract (f : tar_flags) (excludes : list string) (wd : list string) (archive stdin : string) (s : fs) : tar_result :=
  match open_archive s wd archive stdin with
  | Err m => {| io := failure (isJSON f) "IO" m ("tar: " +:+ m); after := s; chmods := [] |}
  | Ok r =>
      match decompress f r with
      | Err (code, m) => {| io := open_failure f code m true; after := s; chmods := [] |}
      | Ok r =>
          let '(x, err) := extractArchiveStream (xoptions_of f excludes) wd r (start_state s) in
          let io := match err with
                    | Some m => failure (isJSON f) "IO" m ("tar: " +:+ m)
                    | None =>
                        {| rc := if hadSymlinkDependents x then 1 else 0; out := Render "tar" (stats x) (isJSON f) []; errs := [] |}
                    end in
          {| io := before (printed x) (complaints x) io; after := disk x; chmods := run_deferred wd x |}
      end
  end.

(** [listArchiveStream] *)
Definition list_entry (verbose : bool) (h : Header) : text :=
  let name := listed_name h in
  if verbose then
    let is_link := bool_decide (Typeflag h = TypeSymlink \/ Typeflag h = TypeLink) in
    line (formatTarMode h +:+ " " +:+ Uname h +:+ "/" +:+ Gname h +:+ pad_left 10 (FormatInt (if is_link then 0 else Size h)) +:+ " " +:+
          time_text (localTime TZ) (ModTime h) +:+ " " +:+ name +:+ (if is_link then " -> " +:+ Linkname h else ""))
  else line name.

Definition listArchiveStream (verbose : bool) (excludes : list string) (r : stream) : list TarFileStat * list text * option string :=
  if is_empty r then ([], [], Some "short read")
  else
    let '(entries, err) := tar_Reader r in
    let hs := filter (fun h => isExcluded (Name h) excludes = false) (header <$> entries) in
    (stat_of <$> hs, list_entry verbose <$> hs, err).

Definition doList (f : tar_flags) (excludes : list string) (wd : list string) (archive stdin : string) (s : fs) : run_io (list TarFileStat) :=
  match open_archive s wd archive stdin with
  | Err m => failure (isJSON f) "IO" m ("tar: " +:+ m)
  | Ok r =>
      match decompress f r with
      | Err (code, m) => open_failure f code m false
      | Ok r =>
          let '(stats, lines, err) := listArchiveStream (verbose f) excludes r in
          let lines := if isJSON f then [] else lines in
          match err with
          | Some m => before lines [] (failure (isJSON f) "IO" m ("tar: " +:+ m))
          | None => {| rc := 0; out := lines ++ Render "tar" stats (isJSON f) []; errs := [] |}
          end
      end
  end.

(** ** Creation *)

Fixpoint insert_name (c : string) (l : list string) : list string :=
  match l with [] => [c] | d :: l' => match Compare c d with Gt => d :: insert_name c l' | _ => c :: l end end.

(** [readDirNames]: the names in a directory, sorted. *)
Definition readDirNames (t : gmap (list string) ent) (loc : list string) : list string :=
  foldr insert_name [] (omap (fun '(p, _) => if bool_decide (removelast p = loc) then last p else None) (map_to_list t)).

(** [filepath.Walk]: the paths, their places and what is there, in the order of the visits. *)
Fixpoint walk (fuel : nat) (t : gmap (list string) ent) (path : string) (loc : list string) (e : ent) : list (string * list string * ent) :=
  (path, loc, e) ::
  match fuel, e with
  | S fuel, EDir =>
      c ← readDirNames t loc;
      match t !! (loc ++ [c]) with Some e => walk fuel t (Join [path; c]) (loc ++ [c]) e | None => [] end
  | _, _ => []
  end.

Definition Walk (s : fs) (wd : list string) (root : string) : result errno (list (string * list string * ent)) :=
  match namei (tree s) false max_links (start_of wd root) (components root) with
  | Ok (loc, Some e) => Ok (walk (size (tree s)) (tree s) root loc e)
  | Ok (_, None) => Err ENOENT
  | Err e => Err e
  end.

(** The number of names of a file. *)
Definition Nlink (t : gmap (list string) ent) (i : nat) : nat := length (filter (fun '(_, e) => e = EFile i) (map_to_list t)).

Record cstate := { entries : list tarEntry; seenInodes : list (nat * string); c_stats : list TarFileStat; c_printed : list text; c_errs : list text }.

Definition add_entry (v : bool) (h : Header) (b : string) (mode : string) (shown : string) (c : cstate) : cstate :=
  {| entries := entries c ++ [{| header := h; body := b |}]; seenInodes := seenInodes c;
     c_stats := c_stats c ++ [{| stat_Name := Name h; stat_Size := Size h; stat_Mode := mode |}];
     c_printed := c_printed c ++ (if v then [line shown] else []); c_errs := c_errs c |}.

Definition see_inode (i : nat) (name : string) (c : cstate) : cstate :=
  {| entries := entries c; seenInodes := (i, name) :: seenInodes c; c_stats := c_stats c; c_printed := c_printed c; c_errs := c_errs c |}.

Definition first_name (i : nat) (seen : list (nat * string)) : option string := snd <$> List.find (fun '(j, _) => (i =? j)%nat) seen.

Definition file_header (s : fs) (memberName : string) (loc : list string) (e : ent) : Header :=
  {| Name := memberName; Linkname := ""; Typeflag := match e with EDir => TypeDir | _ => TypeReg end;
     Size := match e with EFile i => Z.of_nat (String.length (default "" (content s !! i))) | _ => 0 end;
     Mode := perm loc; ModTime := mtime loc; Uname := fst (owner loc); Gname := snd (owner loc) |}.

Definition link_header (memberName target : string) (t : typeflag) (loc : list string) : Header :=
  {| Name := memberName; Linkname := target; Typeflag := t; Size := 0; Mode := perm loc; ModTime := mtime loc; Uname := ""; Gname := "" |}.

(** The function that is called for every file. *)
Definition visit (s : fs) (wd : list string) (archiveAbsPath : string) (v : bool) (c : cstate) (x : string * list string * ent) : cstate :=
  let '(file, loc, e) := x in
  let mode := mode_text e (perm loc) in
  if negb (archiveAbsPath =s? "") && (Abs (abs_path wd) file =s? archiveAbsPath) then c
  else
    match e with
    | ELink target => add_entry v (link_header file target TypeSymlink loc) "" mode file c
    | EFile i =>
        let data := default "" (content s !! i) in
        if (1 <? Nlink (tree s) i)%nat then
          match first_name i (seenInodes c) with
          | Some first => add_entry v (link_header file first TypeLink loc) "" mode file c
          | None => add_entry v (file_header s file loc e) data mode file (see_inode i file c)
          end
        else add_entry v (file_header s file loc e) data mode file c
    | EDir => add_entry v (file_header s file loc e) "" mode (if HasSuffix file "/" then file else file +:+ "/") c
    end.

(** [createArchiveStream]; the error names the target. *)
Fixpoint createArchiveStream (s : fs) (wd : list string) (archiveAbsPath : string) (v : bool) (targets : list string) (c : cstate) : cstate * option string :=
  match targets with
  | [] => (c, None)
  | target :: targets =>
      let '(resolved, strippedPrefix) := resolveTarPath target in
      let resolved := if resolved =s? "" then "." else resolved in
      match Walk s wd resolved with
      | Err e => (c, Some (target +:+ ": " +:+ errno_text e))
      | Ok files =>
          let c := foldl (visit s wd archiveAbsPath v) c files in
          let c := if strippedPrefix =s? "" then c
                   else {| entries := entries c; seenInodes := seenInodes c; c_stats := c_stats c; c_printed := c_printed c;
                           c_errs := c_errs c ++ [line ("tar: removing leading '" +:+ strippedPrefix +:+ "' from member names")] |} in
          createArchiveStream s wd archiveAbsPath v targets c
      end
  end.

Definition start_creation : cstate := {| entries := []; seenInodes := []; c_stats := []; c_printed := []; c_errs := [] |}.

(** [doCreate]: the file of the archive is made first, and is written also after an error.  On the standard output
    the names that -v prints are shown before the archive, though they are written between its entries. *)
Definition doCreate (f : tar_flags) (wd : list string) (archive : string) (s : fs) : tar_result :=
  let create_file := if archive =s? "-" then Ok s else if archive =s? "" then Err ENOENT else WriteFile s (start_of wd archive) (components archive) true "" in
  match create_file with
  | Err e => {| io := failure (isJSON f) "IO" (errno_text e) ("tar: " +:+ errno_text e); after := s; chmods := [] |}
  | Ok s =>
      let v := verbose f && negb (isJSON f) in
      let '(c, err) := createArchiveStream s wd (if archive =s? "-" then "" else Abs (abs_path wd) archive) v (Positional f) start_creation in
      let data := (if useGzip f then gzip else id) (tar_Writer (entries c)) in
      let s := if archive =s? "-" then s else ignore_error (WriteFile s (start_of wd archive) (components archive) true data) s in
      let archived := if archive =s? "-" then [CText data] else [] in
      let io := match err with
                | Some m => failure (isJSON f) "IO" m ("tar: " +:+ m)
                | None => {| rc := 0; out := Render "tar" (c_stats c) (isJSON f) []; errs := [] |}
                end in
      {| io := {| rc := rc io; out := c_printed c ++ (if useGzip f then out io ++ archived else archived ++ out io); errs := c_errs c ++ errs io |}; after := s; chmods := [] |}
  end.

(** ** The command *)

(** The patterns of the files of -X, or the text of an error. *)
Fixpoint exclude_patterns (s : fs) (wd : list string) (xfs : list string) : result string (list string) :=
  match xfs with
  | [] => Ok []
  | xf :: xfs =>
      if xf =s? "" then exclude_patterns s wd xfs
      else
        match ReadFile s (start_of wd xf) (components xf) with
        | Err e => Err (xf +:+ ": " +:+ errno_text e)
        | Ok text =>
            match exclude_lines text with
            | None => Err (xf +:+ ": " +:+ Select.too_long)
            | Some ps => let? rest := exclude_patterns s wd xfs in Ok (ps ++ rest)
            end
        end
  end.

(** [tarRun] after the options; [wd] is the directory of the process. *)
Definition tarRun (f : tar_flags) (wd : list string) (stdin : string) (s : fs) : tar_result :=
  let fail code m := {| io := failure (isJSON f) code m ("tar: " +:+ m); after := s; chmods := [] |} in
  match exclude_patterns s wd (excludeFiles f) with
  | Err m => fail "IO" m
  | Ok excludes =>
      let archive := if (file f =s? "") && negb (create f) then "-" else file f in
      if negb ((if create f then 1 else 0) + (if extract f then 1 else 0) + (if list_ f then 1 else 0) =? 1)
      then fail "USAGE" "must specify exactly one of -c, -x, or -t"
      else
        let archive := if (archive =s? "") || (archive =s? "-") then archive else Abs (abs_path wd) archive in
        let dir_of := if dir f =s? "" then Ok wd
                      else match namei (tree s) true max_links (start_of wd (dir f)) (components (dir f)) with
                           | Ok (loc, Some EDir) => Ok loc
                           | Ok (_, Some _) => Err ENOTDIR
                           | Ok (_, None) => Err ENOENT
                           | Err e => Err e
                           end in
        match dir_of with
        | Err e => fail "DIR" (errno_text e)
        | Ok wd =>
            if create f then doCreate f wd archive s
            else if extract f then doExtract f excludes wd archive stdin s
            else {| io := doList f excludes wd archive stdin s; after := s; chmods := [] |}
        end
  end.
End Tar.
