(* ===== verification/TarLaws.v ===== *)
(** Laws of tar: what an extraction can change. *)

From S2P Require Import Prelude GoStd Paths Scanner Output Fs Tar.

(** ** The names that are extracted *)

Definition clean_path (cs : list string) : string := match cs with [] => "." | _ => join_slash cs end.

Lemma clean_comps_rel cs : forall stack n, Forall (fun c => clean_comp c) stack -> Forall (fun c => no_slash c) cs ->
  exists n' out, clean_comps false (stack ++ replicate n "..") cs = replicate n' ".." ++ out /\ Forall (fun c => clean_comp c) out.
Proof.
  induction cs as [|c cs IH]; intros stack n Hs Hc; cbn [clean_comps].
  - exists n, (rev stack). rewrite rev_app_distr. split; [|by apply Forall_rev]. f_equal. 
    clear. induction n as [|n IH]; [done|]. cbn. rewrite IH. clear. induction n as [|n IH]; [done|]. cbn. by f_equal.
  - apply Forall_cons in Hc as [Hc Hcs]. destruct (seqb_spec c ""); [by apply IH|]. destruct (seqb_spec c "."); [by apply IH|]. cbn [orb].
    destruct (seqb_spec c "..") as [->|Hdd].
    + destruct stack as [|top stack].
      * destruct n as [|n]; cbn [replicate app]; [by apply (IH [] 1)|]. cbn. by apply (IH [] (S (S n))).
      * apply Forall_cons in Hs as [Ht Hs]. apply clean_comp_spec in Ht as (_ & _ & _ & Ht). cbn [app]. rewrite seqb_ne by done. by apply IH.
    + apply (IH (c :: stack)); [|done]. constructor; [|done]. by apply clean_comp_spec.
Qed.

Lemma leads_out_clean name : leads_out (Clean name) = false -> exists cs, Forall (fun c => clean_comp c) cs /\ Clean name = clean_path cs.
Proof.
  unfold leads_out, Clean. destruct (IsAbs name).
  { unfold abs_path. rewrite orb_false_iff. intros [_ H]. done. }
  destruct (clean_comps_rel (split_slash name) [] 0) as (n & out & E & Ho); [done|apply split_slash_no_slash|]. cbn [app replicate] in E. rewrite E.
  destruct n as [|n]; cbn [replicate app].
  - intros _. exists out. by destruct out.
  - rewrite orb_false_iff. intros [H _]. exfalso. destruct (replicate n ".." ++ out); cbn in H; [done|]. done.
Qed.

Lemma components_clean cs : Forall (fun c => clean_comp c) cs -> components (clean_path cs) = cs.
Proof.
  intros Hc. destruct cs as [|c cs]; [done|]. unfold components, clean_path. rewrite split_join; [|done|by apply clean_no_slash].
  induction Hc as [|x l Hx Hl IH]; [done|]. rewrite filter_cons, decide_True, IH; [done|]. apply clean_comp_spec in Hx. naive_solver.
Qed.

Lemma join_slash_snoc cs c : cs <> [] -> join_slash (cs ++ [c]) = join_slash cs +:+ "/" +:+ c.
Proof.
  induction cs as [|d cs IH]; [done|]. intros _. destruct cs as [|d' cs]; [done|].
  change ((d :: d' :: cs) ++ [c]) with (d :: ((d' :: cs) ++ [c])).
  transitivity (d +:+ "/" +:+ join_slash ((d' :: cs) ++ [c])); [by destruct ((d' :: cs) ++ [c]) eqn:E; [by destruct cs|]|].
  rewrite IH by done. change (join_slash (d :: d' :: cs)) with (d +:+ "/" +:+ join_slash (d' :: cs)). by rewrite !sapp_assoc.
Qed.

Lemma join_slash_app cs ds : cs <> [] -> ds <> [] -> join_slash (cs ++ ds) = join_slash cs +:+ "/" +:+ join_slash ds.
Proof.
  induction cs as [|d cs IH]; [done|]. intros _ Hd. destruct cs as [|d' cs].
  - by destruct ds.
  - change ((d :: d' :: cs) ++ ds) with (d :: ((d' :: cs) ++ ds)).
    transitivity (d +:+ "/" +:+ join_slash ((d' :: cs) ++ ds)); [by destruct ((d' :: cs) ++ ds) eqn:E|].
    rewrite IH by done. change (join_slash (d :: d' :: cs)) with (d +:+ "/" +:+ join_slash (d' :: cs)). by rewrite !sapp_assoc.
Qed.

Lemma Dir_components cs : Forall (fun c => clean_comp c) cs -> components (Dir (clean_path cs)) = removelast cs.
Proof.
  intros Hc. destruct cs as [|c cs _] using rev_ind; [done|]. rewrite removelast_last. apply Forall_app in Hc as [Hcs Hc]. apply Forall_cons in Hc as [Hc _].
  unfold Dir. replace (clean_path (cs ++ [c])) with (join_slash (cs ++ [c])) by (by destruct cs).
  rewrite split_join; [|by destruct cs|apply Forall_app; split; [by apply clean_no_slash|]; constructor; [|done]; by apply clean_comp_spec in Hc as (? & _)].
  rewrite rev_app_distr. cbn [rev app]. destruct cs as [|d cs _] using rev_ind; [done|]. rewrite rev_app_distr. cbn [rev app]. rewrite rev_involutive.
  set (ds := cs ++ [d]) in *. assert (Hne : ds <> []) by (subst ds; by destruct cs). unfold Clean.
  change ("/") with (String slash ""). rewrite split_slash_app, split_join by (done || by apply clean_no_slash).
  assert (Ha : IsAbs (join_slash ds +:+ String slash "") = false).
  { destruct ds as [|x ds]; [done|]. apply Forall_cons in Hcs as [Hx _]. apply clean_comp_spec in Hx as (Hx & Hx' & _).
    destruct x as [|a x]; [done|]. unfold no_slash in Hx. cbn in Hx. destruct (a =c? slash) eqn:E; [done|]. destruct ds; exact E. }
  rewrite Ha. change (split_slash "") with [""].
  assert (E : clean_comps false [] (ds ++ [""]) = ds).
  { assert (G : forall st, Forall (fun c => clean_comp c) ds -> clean_comps false st (ds ++ [""]) = rev st ++ ds).
    { clear. induction ds as [|c ds IH]; intros st Hl; cbn [app clean_comps]; [by rewrite app_nil_r|].
      apply Forall_cons in Hl as [Hc Hl]. apply clean_comp_spec in Hc as (_ & H1 & H2 & H3). rewrite !seqb_ne by done. cbn [orb]. rewrite IH by done. cbn. by rewrite <- app_assoc. }
    by rewrite G. }
  rewrite E. clearbody ds. destruct ds as [|x l]; [done|]. exact (components_clean (x :: l) Hcs).
Qed.

(** An entry below another conflicts with it. *)
Lemma HasPrefix_join cs ds : cs <> [] -> ds <> [] -> HasPrefix (join_slash (cs ++ ds)) (join_slash cs +:+ "/") = true.
Proof. intros H1 H2. rewrite join_slash_app by done. apply HasPrefix_iff. exists (join_slash ds). by rewrite sapp_assoc. Qed.

Lemma below_conflicts cs k ks allTargets : cs <> [] -> clean_path (cs ++ k :: ks) ∈ allTargets -> hasConflict (clean_path cs) allTargets = true.
Proof.
  intros Hcs Hin. unfold hasConflict. apply orb_true_iff. right. apply existsb_exists. exists (clean_path (cs ++ k :: ks)).
  split; [by apply list_elem_of_In|]. replace (clean_path (cs ++ k :: ks)) with (join_slash (cs ++ k :: ks)) by (by destruct cs).
  replace (clean_path cs) with (join_slash cs) by (by destruct cs). by apply HasPrefix_join.
Qed.

(** ** What an extraction changes *)

Definition target_of (e : tarEntry) : string := Clean (Name (header e)).
Definition place_of (e : tarEntry) : list string := components (target_of e).

Lemma place_clean e : leads_out (target_of e) = false -> Forall (fun c => clean_comp c) (place_of e) /\ target_of e = clean_path (place_of e).
Proof.
  intros H. destruct (leads_out_clean _ H) as (cs & Hc & E). unfold place_of, target_of in *. rewrite E, components_clean by done. done.
Qed.

Lemma all_targets_in e entries : e ∈ entries -> leads_out (target_of e) = false -> target_of e ∈ all_targets entries.
Proof. intros Hin Hl. unfold all_targets. apply list_elem_of_filter. split; [done|]. apply list_elem_of_fmap. by exists e. Qed.

(** A link that is not refused. *)
Definition link_made (wd : list string) (entries : list tarEntry) (e : tarEntry) : Prop :=
  Typeflag (header e) = TypeSymlink /\ leads_out (target_of e) = false /\
  (isSymlinkSafe (abs_path wd) (target_of e) (Linkname (header e)) = true \/ hasConflict (target_of e) (all_targets entries) = false).

Section Confinement.
Variable o : xoptions.
Variable wd : list string.
Variable ls : list (list string).

(** An entry that cannot lead out: no hard link, and no path through a link. *)
Definition harmless (allTargets : list string) (e : tarEntry) : Prop :=
  leads_out (target_of e) = false ->
  Typeflag (header e) <> TypeLink /\ not_through ls (place_of e) /\
  (Typeflag (header e) = TypeSymlink -> place_of e <> [] ->
   isSymlinkSafe (abs_path wd) (target_of e) (Linkname (header e)) = true \/ hasConflict (target_of e) allTargets = false -> place_of e ∈ ls).

Lemma ignore_confined s s1 r : confined wd ls s s1 -> (forall s', r = Ok s' -> confined wd ls s1 s') -> confined wd ls s (ignore_error r s1).
Proof. intros H1 H2. destruct r as [s'|]; cbn; [|done]. eapply confined_trans; [done|by apply H2]. Qed.

Section Entry.
Variable e : tarEntry.
Hypothesis Hout : leads_out (target_of e) = false.
Hypothesis Hthrough : not_through ls (place_of e).

Let Hc : Forall (fun c => clean_comp c) (place_of e).
Proof. by apply place_clean. Qed.

Lemma parent_place : components (Dir (target_of e)) = removelast (place_of e).
Proof. destruct (place_clean e Hout) as [H E]. rewrite E at 1. by apply Dir_components. Qed.

Lemma parent_clean : Forall (fun c => clean_comp c) (removelast (place_of e)) /\ not_through ls (removelast (place_of e)).
Proof.
  revert Hthrough. pose proof Hc as Hc'. revert Hc'. generalize (place_of e). intros l Hl Ht. destruct l as [|c cs _] using rev_ind; [done|]. rewrite removelast_last.
  apply Forall_app in Hl as [H _]. split; [done|]. by eapply not_through_prefix.
Qed.

Lemma remove_confined s : separate wd s -> links_at wd ls s -> confined wd ls s (remove_quietly wd (place_of e) s).
Proof.
  intros H1 H2. unfold remove_quietly. apply ignore_confined; [by apply confined_refl|]. intros s' E. by apply (Remove_confined wd ls s H1 H2 (place_of e)).
Qed.

Lemma parents_confined s s' : separate wd s -> links_at wd ls s -> MkdirAll s wd (components (Dir (target_of e))) = Ok s' -> confined wd ls s s'.
Proof. intros H1 H2. rewrite parent_place. destruct parent_clean. by apply MkdirAll_confined. Qed.

Lemma make_room_confined s s' : separate wd s -> links_at wd ls s -> make_room o wd (target_of e) s = Some s' -> confined wd ls s s'.
Proof.
  intros H1 H2. unfold make_room. fold (place_of e). destruct (Lstat s wd (place_of e)); [destruct (x_keepOld o); [done|]|]; intros [= <-].
  - pose proof (remove_confined s H1 H2) as Hr. apply ignore_confined; [done|]. intros s' E. destruct Hr. by apply parents_confined.
  - apply ignore_confined; [by apply confined_refl|]. intros s' E. by apply parents_confined.
Qed.

Lemma write_confined s s' body : separate wd s -> links_at wd ls s -> (forall t, place_of e <> [] -> tree s !! (wd ++ place_of e) <> Some (ELink t)) ->
  (let? s := MkdirAll s wd (components (Dir (target_of e))) in WriteFile s wd (place_of e) (negb (x_overwrite o)) body) = Ok s' -> confined wd ls s s'.
Proof.
  intros H1 H2 Hn. destruct (MkdirAll s wd _) as [s1|] eqn:E1; [|done]. cbn [res_bind]. intros E2. pose proof (parents_confined _ _ H1 H2 E1) as Hp.
  eapply confined_trans; [exact Hp|]. destruct Hp as [_ H3 H4]. destruct (decide (place_of e = [])) as [E0|E0].
  { rewrite E0 in E2. unfold WriteFile in E2. by rewrite namei_nil in E2. }
  apply (WriteFile_confined wd ls s1 H3 H4 (place_of e) Hc Hthrough (negb (x_overwrite o)) body); [|done].
  intros t Ht. apply (Hn t E0). unfold MkdirAll in E1. by eapply MkdirAll_rev_no_links.
Qed.

(** What is at the place of a file when it is written is no link. *)
Lemma after_removal s : separate wd s -> links_at wd ls s -> place_of e <> [] ->
  forall t, tree (match Lstat s wd (place_of e) with Ok (ELink _) => remove_quietly wd (place_of e) s | _ => s end) !! (wd ++ place_of e) <> Some (ELink t).
Proof.
  intros H1 H2 Hne t. destruct (Lstat s wd (place_of e)) as [[|i|x]|] eqn:E; try (intros Ht; pose proof (Lstat_link wd ls s H2 (place_of e) Hc Hthrough t Hne Ht); congruence).
  unfold remove_quietly, Remove. unfold Lstat in E. pose proof (namei_here wd ls s H2 (place_of e) Hc Hthrough false ltac:(done)) as Hh.
  destruct (namei (tree s) false max_links wd (place_of e)) as [[loc [[]|]]|]; try discriminate E. destruct Hh as (-> & _). cbn. by rewrite lookup_delete_eq.
Qed.

Definition x_confined (x x' : xstate) : Prop := confined wd ls (disk x) (disk x').

Lemma extract_reg_confined body x : separate wd (disk x) -> links_at wd ls (disk x) ->
  match extract_reg o wd (target_of e) body x with Ok x' | Err (x', _) => x_confined x x' end.
Proof.
  intros H1 H2. unfold extract_reg, x_confined. destruct (x_toStdout o); [by apply confined_refl|]. fold (place_of e).
  set (x1 := if hasDangerousParent _ _ then _ else x). assert (Ed : disk x1 = disk x) by (unfold x1; by destruct (hasDangerousParent _ _)). rewrite Ed.
  destruct ((match Lstat (disk x) wd (place_of e) with Ok _ => true | Err _ => false end) && x_keepOld o); [rewrite Ed; by apply confined_refl|].
  set (s1 := match Lstat (disk x) wd (place_of e) with Ok (ELink _) => remove_quietly wd (place_of e) (disk x) | _ => disk x end).
  set (x2 := match Lstat (disk x) wd (place_of e) with Ok (ELink _) => _ | _ => x1 end).
  assert (Ed2 : disk x2 = s1) by (unfold x2, s1; by destruct (Lstat (disk x) wd (place_of e)) as [[]|]). rewrite Ed2.
  assert (Hs1 : confined wd ls (disk x) s1).
  { unfold s1. destruct (Lstat (disk x) wd (place_of e)) as [[]|]; try (by apply confined_refl). by apply remove_confined. }
  assert (Hs1' := Hs1). destruct Hs1' as [Hs H3 H4].
  pose proof (fun s' => write_confined s1 s' body H3 H4 (fun t Hne => after_removal (disk x) H1 H2 Hne t)) as Hw.
  destruct (MkdirAll s1 wd (components (Dir (target_of e)))) as [s2|] eqn:E2; [|by rewrite Ed2]. cbn [res_bind] in Hw. unfold failed. cbn [disk with_disk].
  destruct (WriteFile s2 wd (place_of e) (negb (x_overwrite o)) body) as [s3|] eqn:E3; cbn [disk with_disk].
  - eapply confined_trans; [exact Hs1|by apply Hw].
  - eapply confined_trans; [exact Hs1|by eapply parents_confined].
Qed.

Lemma extract_dir_confined mode x : separate wd (disk x) -> links_at wd ls (disk x) ->
  match extract_dir o wd (target_of e) mode x with Ok x' | Err (x', _) => x_confined x x' end.
Proof.
  intros H1 H2. unfold extract_dir, x_confined, failed. destruct (x_toStdout o); [by apply confined_refl|]. fold (place_of e).
  destruct (MkdirAll (disk x) wd (place_of e)) as [s|] eqn:E; cbn [res_bind disk with_disk with_deferred]; [|by apply confined_refl]. by apply (MkdirAll_confined wd ls (place_of e)).
Qed.

Lemma extract_symlink_confined allTargets x : separate wd (disk x) -> links_at wd ls (disk x) ->
  (place_of e <> [] -> isSymlinkSafe (abs_path wd) (target_of e) (Linkname (header e)) = true \/ hasConflict (target_of e) allTargets = false -> place_of e ∈ ls) ->
  x_confined x (extract_symlink o wd allTargets (target_of e) (header e) x).
Proof.
  intros H1 H2 Hin. unfold extract_symlink, x_confined. destruct (x_toStdout o); [by apply confined_refl|].
  destruct (negb (isSymlinkSafe (abs_path wd) (target_of e) (Linkname (header e))) && hasConflict (target_of e) allTargets) eqn:Eg; [by apply confined_refl|].
  destruct (make_room o wd (target_of e) (disk x)) as [s|] eqn:E; [|by apply confined_refl]. cbn [disk with_disk]. fold (place_of e).
  pose proof (make_room_confined _ _ H1 H2 E) as Hm. apply ignore_confined; [done|]. intros s' Es. destruct Hm as [_ H3 H4].
  apply (Symlink_confined wd ls s H3 H4 (place_of e) Hc Hthrough (Linkname (header e))); [|done]. intros Hne. apply Hin; [done|].
  apply andb_false_iff in Eg as [Eg|Eg]; [left; by apply negb_false_iff|by right].
Qed.
End Entry.

Lemma extract_entry_confined allTargets e x : harmless allTargets e -> separate wd (disk x) -> links_at wd ls (disk x) ->
  match extract_entry o wd allTargets e x with Ok x' | Err (x', _) => x_confined x x' end.
Proof.
  intros Hh H1 H2. unfold extract_entry. assert (Hr : x_confined x x) by by apply confined_refl. destruct (negb (selected_entry o e)); [done|].
  fold (target_of e). destruct (leads_out (target_of e)) eqn:El; [exact Hr|]. destruct (Hh El) as (Hnl & Ht & Hs).
  destruct (Typeflag (header e)) eqn:Et; try exact Hr; try done.
  - by apply (extract_reg_confined e El Ht (body e) (with_stat (stat_of (header e)) (with_match x))).
  - by apply (extract_dir_confined e El Ht (Mode (header e)) (with_stat (stat_of (header e)) (with_match x))).
  - apply (extract_symlink_confined e El Ht allTargets (with_stat (stat_of (header e)) (with_match x))); [done|done|auto].
Qed.

Lemma extract_entries_confined allTargets entries : forall x, Forall (harmless allTargets) entries -> separate wd (disk x) -> links_at wd ls (disk x) ->
  match extract_entries o wd allTargets entries x with Ok x' | Err (x', _) => x_confined x x' end.
Proof.
  induction entries as [|e entries IH]; intros x Hh H1 H2; cbn [extract_entries]; [by apply confined_refl|]. apply Forall_cons in Hh as [He Hh].
  pose proof (extract_entry_confined allTargets e x He H1 H2) as H. destruct (extract_entry o wd allTargets e x) as [x1|[x1 err]]; cbn [res_bind]; [|done].
  assert (Hc1 := H). destruct Hc1 as [_ H3 H4]. specialize (IH x1 Hh H3 H4).
  destruct (extract_entries o wd allTargets entries x1) as [x2|[x2 err]]; by eapply confined_trans.
Qed.

(** The deferred changes of permissions are those of the directories of the archive. *)
Definition dir_places (entries : list tarEntry) (x : xstate) : Prop :=
  Forall (fun d => exists e, e ∈ entries /\ leads_out (target_of e) = false /\ Typeflag (header e) = TypeDir /\ fst d = place_of e) (deferred x).

Lemma extract_reg_deferred target body x :
  match extract_reg o wd target body x with Ok x' | Err (x', _) => deferred x' = deferred x end.
Proof. unfold extract_reg, failed. by repeat case_match; simplify_eq. Qed.

Lemma extract_symlink_deferred allTargets target h x : deferred (extract_symlink o wd allTargets target h x) = deferred x.
Proof. unfold extract_symlink. by repeat case_match. Qed.

Lemma extract_link_deferred target h x : deferred (extract_link o wd target h x) = deferred x.
Proof. unfold extract_link. by repeat case_match. Qed.

Lemma extract_entry_deferred allTargets entries e x : e ∈ entries -> dir_places entries x ->
  match extract_entry o wd allTargets e x with Ok x' | Err (x', _) => dir_places entries x' end.
Proof.
  intros He Hx. unfold extract_entry. destruct (negb (selected_entry o e)); [done|]. fold (target_of e). destruct (leads_out (target_of e)) eqn:El; [done|].
  set (x1 := with_stat _ _). assert (Hx1 : dir_places entries x1) by done. clearbody x1. destruct (Typeflag (header e)) eqn:Et; try done.
  - pose proof (extract_reg_deferred (target_of e) (body e) x1) as H. destruct (extract_reg _ _ _ _ _) as [x'|[x' ?]]; unfold dir_places; by rewrite H.
  - unfold extract_dir, failed. destruct (x_toStdout o); [done|]. destruct (MkdirAll _ _ _); cbn [res_bind]; [|done].
    unfold dir_places. cbn [with_deferred with_disk deferred]. constructor; [|done]. by exists e.
  - unfold dir_places. by rewrite extract_symlink_deferred.
  - unfold dir_places. by rewrite extract_link_deferred.
Qed.

Lemma extract_entries_deferred allTargets all entries : forall x, (forall e, e ∈ entries -> e ∈ all) -> dir_places all x ->
  match extract_entries o wd allTargets entries x with Ok x' | Err (x', _) => dir_places all x' end.
Proof.
  induction entries as [|e entries IH]; intros x Hin Hx; cbn [extract_entries]; [done|].
  pose proof (extract_entry_deferred allTargets all e x (Hin e (list_elem_of_here _ _)) Hx) as H.
  destruct (extract_entry o wd allTargets e x) as [x1|[x1 err]]; cbn [res_bind]; [|done]. apply IH; [|done]. intros d Hd. apply Hin. by apply list_elem_of_further.
Qed.

(** Where they end up when no directory of the archive has the place of a link. *)
Lemma run_deferred_inside entries x : links_at wd ls (disk x) -> dir_places entries x ->
  (forall e, e ∈ entries -> leads_out (target_of e) = false -> Typeflag (header e) = TypeDir -> not_through ls (place_of e) /\ place_of e ∉ ls) ->
  Forall (fun '(loc, _) => wd `prefix_of` loc) (run_deferred wd x).
Proof.
  intros Hl Hd Hg. apply Forall_forall. intros [loc mode] Hin. unfold run_deferred in Hin. apply list_elem_of_omap in Hin as ([cs m] & Hin & E).
  unfold dir_places in Hd. rewrite Forall_forall in Hd. destruct (Hd _ Hin) as (e & He & Hout & Ht & Ec). cbn in Ec. subst cs.
  destruct (Hg e He Hout Ht) as [Hnt Hni]. unfold Chmod_place in E. destruct (decide (place_of e = [])) as [E0|Hne].
  { rewrite E0, namei_nil in E. by injection E as <- _. }
  pose proof (namei_here wd ls (disk x) Hl (place_of e) (proj1 (place_clean e Hout)) Hnt true) as Hn.
  destruct (namei (tree (disk x)) true max_links wd (place_of e)) as [[l [d|]]|]; [|done..]. cbn in E. injection E as <- _.
  destruct Hn as (-> & _); [|by apply prefix_app_r]. intros _ t Hlt. destruct (Hl (place_of e) t Hne Hlt). done.
Qed.
End Confinement.

Section Extraction.
Variable tar_Reader : stream -> list tarEntry * option string.
Variable gunzip unxz : stream -> result string stream.
Variable bunzip2 : stream -> stream.
Variable errno_text : errno -> string.

(** What the guards of the extraction leave to the archive and to the directory: no entry is a hard link, no entry lies below
    a symbolic link that is there already, and none lies below a symbolic link of the archive that leads to a place in
    the directory; and no directory of the archive has the place of such a link. *)
Record guarded (wd : list string) (old : list (list string)) (entries : list tarEntry) : Prop := {
  no_hard_links : forall e, e ∈ entries -> leads_out (target_of e) = false -> Typeflag (header e) <> TypeLink;
  not_through_old : forall e, e ∈ entries -> leads_out (target_of e) = false -> not_through old (place_of e);
  not_through_safe : forall l e, l ∈ entries -> e ∈ entries -> leads_out (target_of l) = false -> leads_out (target_of e) = false ->
    Typeflag (header l) = TypeSymlink -> isSymlinkSafe (abs_path wd) (target_of l) (Linkname (header l)) = true -> place_of l <> [] ->
    not_through [place_of l] (place_of e);
  dirs_not_old : forall e, e ∈ entries -> leads_out (target_of e) = false -> Typeflag (header e) = TypeDir -> place_of e ∉ old;
  dirs_not_safe : forall l e, l ∈ entries -> e ∈ entries -> leads_out (target_of l) = false -> leads_out (target_of e) = false ->
    Typeflag (header l) = TypeSymlink -> isSymlinkSafe (abs_path wd) (target_of l) (Linkname (header l)) = true ->
    Typeflag (header e) = TypeDir -> place_of e <> place_of l }.

(** The places of the links that are made. *)
Definition new_links (wd : list string) (entries : list tarEntry) : list (list string) :=
  place_of <$> filter (fun e => Typeflag (header e) = TypeSymlink /\ leads_out (target_of e) = false /\ place_of e <> [] /\
    (isSymlinkSafe (abs_path wd) (target_of e) (Linkname (header e)) = true \/ hasConflict (target_of e) (all_targets entries) = false)) entries.

Lemma guarded_harmless wd old entries : guarded wd old entries -> Forall (harmless wd (old ++ new_links wd entries) (all_targets entries)) entries.
Proof.
  intros [Hh Ho Hs _ _]. apply Forall_forall. intros e He Hl. split; [by apply Hh|]. split.
  - intros l k ks Hin. apply elem_of_app in Hin as [Hin|Hin]; [by apply (Ho e He Hl)|]. unfold new_links in Hin.
    apply list_elem_of_fmap in Hin as (l' & -> & Hin). apply list_elem_of_filter in Hin as ((Ht & Hl' & Hne & Hg) & Hin).
    destruct Hg as [Hg|Hg]; [apply (Hs l' e Hin He Hl' Hl Ht Hg Hne); by apply list_elem_of_singleton|].
    intros E. destruct (place_clean e Hl) as [_ Et], (place_clean l' Hl') as [_ El]. rewrite El, (below_conflicts (place_of l') k ks) in Hg; [done|done|].
    rewrite <- E, <- Et. by apply all_targets_in.
  - intros Ht Hne Hg. apply elem_of_app. right. unfold new_links. apply list_elem_of_fmap. exists e. split; [done|]. apply list_elem_of_filter. done.
Qed.

(** Two entries of one name conflict. *)
Lemma twice_conflicts entries l e : l ∈ entries -> e ∈ entries -> Typeflag (header l) <> Typeflag (header e) ->
  leads_out (target_of l) = false -> target_of l = target_of e -> hasConflict (target_of l) (all_targets entries) = true.
Proof.
  intros Hl He Hne Hout Et. unfold hasConflict. apply orb_true_iff. left. apply Nat.ltb_lt. unfold count_of, all_targets.
  assert (Hne' : l <> e) by (by intros ->). clear Hne.
  assert (H : forall es : list tarEntry, (l ∈ es -> (0 < length (filter (fun n => n = target_of l) (filter (fun t => leads_out t = false) ((fun e => Clean (Name (header e))) <$> es))))%nat) /\
    (e ∈ es -> (0 < length (filter (fun n => n = target_of l) (filter (fun t => leads_out t = false) ((fun e => Clean (Name (header e))) <$> es))))%nat) /\
    (l ∈ es -> e ∈ es -> (1 < length (filter (fun n => n = target_of l) (filter (fun t => leads_out t = false) ((fun e => Clean (Name (header e))) <$> es))))%nat)).
  { clear Hl He. induction es as [|d es (IH1 & IH2 & IH3)]; [by split; [|split]; intros ?%elem_of_nil|]. rewrite !elem_of_cons. cbn [fmap list_fmap].
    change (Clean (Name (header d))) with (target_of d). rewrite filter_cons. destruct (decide (leads_out (target_of d) = false)) as [Hd|Hd].
    - rewrite filter_cons. destruct (decide (target_of d = target_of l)) as [Hdl|Hdl]; cbn [length].
      + split; [lia|]. split; [lia|]. intros [->|Hl] [->|He]; [done|..]; specialize (IH1); specialize (IH2); (tauto || (try specialize (IH1 Hl)); (try specialize (IH2 He)); lia).
      + split; [intros [->|Hl]; [done|by apply IH1]|]. split; [intros [->|He]; [by rewrite Et in Hdl|by apply IH2]|].
        intros [->|Hl] [->|He]; [done|done|by rewrite Et in Hdl|by apply IH3].
    - split; [intros [->|Hl]; [done|by apply IH1]|]. split; [intros [->|He]; [by rewrite <- Et in Hd|by apply IH2]|].
      intros [->|Hl] [->|He]; [done|done|by rewrite <- Et in Hd|by apply IH3]. }
  by apply H.
Qed.

Lemma guarded_dirs wd old entries e : guarded wd old entries -> e ∈ entries -> leads_out (target_of e) = false -> Typeflag (header e) = TypeDir ->
  not_through (old ++ new_links wd entries) (place_of e) /\ place_of e ∉ old ++ new_links wd entries.
Proof.
  intros Hg He Hout Ht. split.
  - pose proof (guarded_harmless wd old entries Hg) as H. rewrite Forall_forall in H. by apply (H e He Hout).
  - destruct Hg as [_ _ _ Ho Hs]. intros [Hin|Hin]%elem_of_app; [by apply (Ho e)|]. unfold new_links in Hin.
    apply list_elem_of_fmap in Hin as (l & E & Hin). apply list_elem_of_filter in Hin as ((Hlt & Hlo & Hne & Hg) & Hin).
    destruct Hg as [Hg|Hg]; [by apply (Hs l e)|]. rewrite (twice_conflicts entries l e) in Hg; [done|done|done|congruence|done|].
    destruct (place_clean e Hout) as [_ ->], (place_clean l Hlo) as [_ ->]. by rewrite E.
Qed.

Lemma links_at_more root ls ls' s : links_at root ls s -> links_at root (ls ++ ls') s.
Proof. intros H cs t Hne E. destruct (H cs t Hne E). split; [apply elem_of_app; by left|done]. Qed.

End Extraction.

(** ** What the guards do not stop *)

Definition sample_entry (name : string) (t : typeflag) (link body : string) : tarEntry :=
  {| header := {| Name := name; Linkname := link; Typeflag := t; Size := Z.of_nat (String.length body); Mode := 420; ModTime := 0; Uname := ""; Gname := "" |};
     body := body |}.

Definition sample_disk : fs := {|
  tree := {[ ["etc"] := EDir; ["etc"; "passwd"] := EFile 0; ["work"] := EDir; ["work"; "in"] := EDir ]};
  content := {[ 0%nat := "root" ]} |}.

Definition sample_flags : tar_flags := {|
  create := false; extract := true; list_ := false; useGzip := false; useBzip2 := false; keepOld := false; verbose := true; toStdout := false;
  overwrite := false; isJSON := false; file := "-"; dir := "/work/in"; excludeFiles := []; Positional := [] |}.

(** tar -x of the entries, whatever the bytes of the archive are. *)
Definition extract_of (entries : list tarEntry) : tar_result :=
  tarRun (fun _ => (entries, None)) (fun _ => "") Ok Ok id id (fun _ => "error") (fun _ _ => "") (fun _ => 0%Z) (fun _ => 0%Z) (fun _ => ("", "")) (fun _ _ => "") ""
    sample_flags ["work"] "data" sample_disk.

Definition passwd_after (entries : list tarEntry) : option view := view_at (after (extract_of entries)) ["etc"; "passwd"].

(** A link out of the directory with an entry below it is refused. *)
Example refused_link : passwd_after [sample_entry "l" TypeSymlink "/etc" ""; sample_entry "l/passwd" TypeReg "" "changed"] = Some (VFile (Some "root")).
Proof. vm_compute. reflexivity. Qed.

(** A link to a link is not seen through. *)
Theorem tar_link_chain_escapes :
  passwd_after [sample_entry "a" TypeSymlink "b" ""; sample_entry "b" TypeSymlink "/etc" ""; sample_entry "a/passwd" TypeReg "" "changed"] = Some (VFile (Some "changed")) /\
  rc (io (extract_of [sample_entry "a" TypeSymlink "b" ""; sample_entry "b" TypeSymlink "/etc" ""; sample_entry "a/passwd" TypeReg "" "changed"])) = 0%Z.
Proof. vm_compute. done. Qed.

(** A directory whose name is a link's gets its permissions through the link: here those of /etc are changed. *)
Theorem tar_chmod_escapes :
  let r := extract_of [sample_entry "b" TypeSymlink "/etc" ""; sample_entry "a" TypeSymlink "b" ""; sample_entry "a" TypeDir "" ""] in
  chmods r = [(["etc"], 420%Z)] /\ rc (io r) = 0%Z.
Proof. vm_compute. done. Qed.

(** A hard link to an absolute name is made, and a second entry of its name is written to the file. *)
Theorem tar_hard_link_escapes :
  passwd_after [sample_entry "a" TypeLink "/etc/passwd" ""; sample_entry "a" TypeReg "" "changed"] = Some (VFile (Some "changed")).
Proof. vm_compute. done. Qed.

(** A name that starts with two dots is skipped, though it is not above the directory; TZ is read the other way round without a sign. *)
Theorem tar_dotted_names_skipped :
  view_at (after (extract_of [sample_entry "..a" TypeReg "" "x"])) ["work"; "in"; "..a"] = None /\ rc (io (extract_of [sample_entry "..a" TypeReg "" "x"])) = 0%Z /\
  localTime "UTC2" = Some 7200%Z /\ localTime "UTC+2" = Some (-7200)%Z.
Proof. vm_compute. done. Qed.

Lemma sample_nodes p e : tree sample_disk !! p = Some e ->
  p = ["etc"] /\ e = EDir \/ p = ["etc"; "passwd"] /\ e = EFile 0 \/ p = ["work"] /\ e = EDir \/ p = ["work"; "in"] /\ e = EDir.
Proof.
  intros H. apply elem_of_map_to_list in H.
  replace (map_to_list (tree sample_disk)) with [(["work"; "in"], EDir); (["work"], EDir); (["etc"; "passwd"], EFile 0); (["etc"], EDir)] in H by (vm_compute; reflexivity).
  rewrite !elem_of_cons, elem_of_nil in H. destruct H as [H|[H|[H|[H|[]]]]]; injection H as -> ->; auto 6.
Qed.

Lemma sample_separate : separate ["work"; "in"] sample_disk.
Proof.
  constructor.
  - intros p i H. apply sample_nodes in H as [[_ H]|[[_ H]|[[_ H]|[_ H]]]]; try done. injection H as ->. apply elem_of_dom. by exists "root".
  - intros p q i (c & cs & ->) _ H _. apply sample_nodes in H as [[H _]|[[H _]|[[H _]|[H _]]]]; done.
Qed.

Lemma sample_links : links_at ["work"; "in"] [] sample_disk.
Proof. intros cs t Hne H. apply sample_nodes in H as [[_ H]|[[_ H]|[[_ H]|[_ H]]]]; done. Qed.

Definition refused_entries : list tarEntry := [sample_entry "l" TypeSymlink "/etc" ""; sample_entry "l/passwd" TypeReg "" "changed"; sample_entry "/etc/passwd" TypeReg "" "changed"; sample_entry "d" TypeDir "" ""].

Lemma refused_guarded : guarded ["work"; "in"] [] refused_entries.
Proof.
  constructor.
  - intros e He _. unfold refused_entries in He. rewrite !elem_of_cons, elem_of_nil in He. by destruct He as [->|[->|[->|[->|[]]]]].
  - intros e _ _ l k ks Hl. by apply elem_of_nil in Hl.
  - intros l e Hl _ _ _ Ht Hs _. unfold refused_entries in Hl. rewrite !elem_of_cons, elem_of_nil in Hl.
    destruct Hl as [->|[->|[->|[->|[]]]]]; [|done|done|done]. vm_compute in Hs. done.
  - intros e _ _ _ H. by apply elem_of_nil in H.
  - intros l e Hl _ _ _ Ht Hs _. unfold refused_entries in Hl. rewrite !elem_of_cons, elem_of_nil in Hl.
    destruct Hl as [->|[->|[->|[->|[]]]]]; [|done|done|done]. vm_compute in Hs. done.
Qed.

