(* ===== verification/TarRound.v ===== *)
(** The round trip of tar: what is archived from a directory and extracted to an empty one is the same tree. *)

From S2P Require Import Prelude GoStd Paths Scanner Output Fs Tar TarLaws.

(** ** Directories and their names *)

Lemma insert_name_perm c l : insert_name c l ≡ₚ c :: l.
Proof. induction l as [|d l IH]; [done|]. cbn. destruct (Compare c d); [done..|]. rewrite IH. apply Permutation_swap. Qed.

Lemma insert_names_perm l : foldr insert_name [] l ≡ₚ l.
Proof. induction l as [|c l IH]; [done|]. cbn. by rewrite insert_name_perm, IH. Qed.

Definition child_of (loc p : list string) : option string := if bool_decide (removelast p = loc) then last p else None.

Lemma child_of_Some loc p c : child_of loc p = Some c <-> p = loc ++ [c].
Proof.
  unfold child_of. split.
  - case_bool_decide as H; [|done]. destruct p as [|x p _] using rev_ind; [done|]. rewrite removelast_last in H. rewrite last_snoc. intros [= ->]. by subst.
  - intros ->. by rewrite removelast_last, bool_decide_true, last_snoc.
Qed.

Lemma readDirNames_elem t loc c : c ∈ readDirNames t loc <-> is_Some (t !! (loc ++ [c])).
Proof.
  unfold readDirNames. rewrite insert_names_perm, list_elem_of_omap. split.
  - intros ([p e] & Hin & H). apply (child_of_Some loc p c) in H as ->. apply elem_of_map_to_list in Hin. by eexists.
  - intros [e H]. exists (loc ++ [c], e). split; [by apply elem_of_map_to_list|]. by apply (child_of_Some loc).
Qed.

Lemma readDirNames_NoDup t loc : NoDup (readDirNames t loc).
Proof.
  unfold readDirNames. rewrite insert_names_perm. pose proof (NoDup_fst_map_to_list t) as H. revert H. generalize (map_to_list t). intros l.
  induction l as [|[p e] l IH]; cbn; intros H; [by constructor|]. apply NoDup_cons in H as [Hp H]. specialize (IH H).
  fold (child_of loc p). destruct (child_of loc p) as [c|] eqn:E; [|done]. apply child_of_Some in E as ->. constructor; [|done].
  rewrite list_elem_of_omap. intros ([q e'] & Hin & Hq). apply (child_of_Some loc q c) in Hq as ->. apply Hp. apply list_elem_of_fmap. by exists (loc ++ [c], e').
Qed.

(** ** The places a walk visits *)

Section Walk.
Variable t : gmap (list string) ent.
Variable root : list string.

Fixpoint places (fuel : nat) (cs : list string) (e : ent) : list (list string) :=
  cs :: match fuel, e with
        | S fuel, EDir => c ← readDirNames t (root ++ cs); match t !! (root ++ cs ++ [c]) with Some e => places fuel (cs ++ [c]) e | None => [] end
        | _, _ => []
        end.

(** Every place comes once, and after its parent. *)
Fixpoint ordered (known : list (list string)) (l : list (list string)) : Prop :=
  match l with [] => True | x :: l => (x = [] \/ removelast x ∈ known) /\ x ∉ known /\ ordered (x :: known) l end.

Lemma ordered_app l1 : forall known l2, ordered known (l1 ++ l2) <-> ordered known l1 /\ ordered (rev l1 ++ known) l2.
Proof.
  induction l1 as [|x l1 IH]; intros known l2; cbn [app ordered rev]; [naive_solver|]. rewrite IH, <- app_assoc. naive_solver.
Qed.

Lemma ordered_perm l : forall k1 k2, (forall x, x ∈ k1 <-> x ∈ k2) -> ordered k1 l -> ordered k2 l.
Proof.
  induction l as [|x l IH]; intros k1 k2 H; [done|]. cbn. intros (H1 & H2 & H3). split; [destruct H1; [by left|right; by apply H]|]. split; [by rewrite <- H|].
  eapply IH; [|exact H3]. intros y. rewrite !elem_of_cons. by rewrite H.
Qed.

Lemma places_extend fuel : forall cs e x, x ∈ places fuel cs e -> cs `prefix_of` x.
Proof.
  induction fuel as [|fuel IH]; intros cs e x; cbn [places]; rewrite elem_of_cons; (intros [->|H]; [done|]); [by destruct e; apply elem_of_nil in H|].
  destruct e; [|by apply elem_of_nil in H..]. apply list_elem_of_bind in H as (c & H & _).
  destruct (t !! (root ++ cs ++ [c])); [|by apply elem_of_nil in H]. apply IH in H. etrans; [|exact H]. by apply prefix_app_r.
Qed.

Lemma places_ordered fuel : forall cs e known, cs = [] \/ removelast cs ∈ known -> (forall x, x ∈ known -> ~ cs `prefix_of` x) -> ordered known (places fuel cs e).
Proof.
  induction fuel as [|fuel IH]; intros cs e known Hp Hk; cbn [places ordered]; (split; [done|]); (split; [by intros H; apply (Hk cs H)|]); [by destruct e|].
  destruct e; try done. pose proof (readDirNames_NoDup t (root ++ cs)) as Hn. revert Hn. generalize (readDirNames t (root ++ cs)). intros names.
  assert (H1 : cs ∈ cs :: known) by by left. assert (H2 : forall x c, x ∈ cs :: known -> c ∈ names -> ~ (cs ++ [c]) `prefix_of` x).
  { intros x c Hx _ Hpre. apply elem_of_cons in Hx as [->|Hx].
    - apply prefix_length in Hpre. rewrite length_app in Hpre. cbn in Hpre. lia.
    - apply (Hk x Hx). etrans; [|exact Hpre]. by apply prefix_app_r. }
  clear Hk Hp. revert H1 H2. generalize (cs :: known). clear known. induction names as [|c names IHn]; intros known H1 H2 Hn; [done|]. cbn [mbind list_bind].
  apply NoDup_cons in Hn as [Hc Hn]. apply ordered_app. split.
  - destruct (t !! (root ++ cs ++ [c])) as [e|]; [|done]. apply IH; [right; by rewrite removelast_last|]. intros x Hx. apply (H2 x c Hx). by left.
  - apply IHn; [apply elem_of_app; by right| |done]. intros x d Hx Hd Hpre. apply elem_of_app in Hx as [Hx|Hx]; [|apply (H2 x d Hx); [by right|done]].
    apply list_elem_of_In, in_rev, list_elem_of_In in Hx. destruct (t !! (root ++ cs ++ [c])) as [e|]; [|by apply elem_of_nil in Hx]. apply places_extend in Hx as [k ->].
    destruct Hpre as [k' E]. rewrite <- !app_assoc in E. apply app_inv_head in E. cbn in E. injection E as -> _. done.
Qed.

Lemma places_complete fuel : forall cs e x d, cs <> [] /\ t !! (root ++ cs) = Some e \/ cs = [] /\ e = EDir -> length x <= fuel -> reached t root (cs ++ x) ->
  t !! (root ++ cs ++ x) = Some d -> cs ++ x ∈ places fuel cs e.
Proof.
  induction fuel as [|fuel IH]; intros cs e x d He Hl Hr Hd; (destruct x as [|c x]; [rewrite app_nil_r; by left|cbn in Hl]); [lia|]. cbn [places].
  assert (e = EDir) as ->.
  { destruct He as [[Hne He]|[_ He]]; [|done]. rewrite (Hr cs (c :: x)) in He by done. by injection He as <-. }
  right. apply list_elem_of_bind.
  assert (Hc : exists e, t !! (root ++ cs ++ [c]) = Some e).
  { destruct x as [|d' x]; [by exists d|]. exists EDir. apply (Hr (cs ++ [c]) (d' :: x)); [by rewrite <- app_assoc|by destruct cs|done]. }
  destruct Hc as [e He']. exists c. rewrite He'. replace (cs ++ c :: x) with ((cs ++ [c]) ++ x) by (by rewrite <- app_assoc). split.
  - apply (IH (cs ++ [c]) e x d); [left; split; [by destruct cs|done]|lia|by rewrite <- app_assoc|by rewrite <- !app_assoc].
  - apply readDirNames_elem. rewrite <- app_assoc. by eexists.
Qed.

Lemma places_nodes fuel : forall cs e x, x ∈ places fuel cs e -> x = cs \/ is_Some (t !! (root ++ x)).
Proof.
  induction fuel as [|fuel IH]; intros cs e x; cbn [places]; rewrite elem_of_cons; (intros [->|H]; [by left|]); [by destruct e; apply elem_of_nil in H|].
  destruct e; [|by apply elem_of_nil in H..]. apply list_elem_of_bind in H as (c & H & Hc). destruct (t !! (root ++ cs ++ [c])) as [e|] eqn:E; [|by apply elem_of_nil in H].
  right. apply IH in H as [->|H]; [by rewrite E|done].
Qed.

(** A place is not deeper than there are nodes. *)
Lemma depth_size cs d : reached t root cs -> t !! (root ++ cs) = Some d -> length cs <= size t.
Proof.
  intros Hr Hd. assert (H : ((fun i => root ++ take (S i) cs) <$> seq 0 (length cs)) ⊆+ (map_to_list t).*1).
  { apply NoDup_submseteq.
    - apply NoDup_fmap_2_strong; [|apply NoDup_seq]. intros i j Hi Hj E. apply app_inv_head in E. apply (f_equal length) in E. rewrite !length_take in E.
      apply elem_of_seq in Hi, Hj. lia.
    - intros p Hp. apply list_elem_of_fmap in Hp as (i & -> & Hi). apply elem_of_seq in Hi. apply list_elem_of_fmap.
      destruct (decide (S i = length cs)) as [E|E].
      + exists (root ++ cs, d). split; [by rewrite E, firstn_all|by apply elem_of_map_to_list].
      + exists (root ++ take (S i) cs, EDir). split; [done|]. apply elem_of_map_to_list. apply (Hr _ (drop (S i) cs)); [by rewrite take_drop|destruct cs; [cbn in *; lia|done]|].
        intros E'. apply (f_equal length) in E'. rewrite length_drop in E'. cbn in E'. lia. }
  apply submseteq_length in H. rewrite !length_fmap, length_seq, length_map_to_list in H. done.
Qed.
End Walk.

(** ** The names in an archive *)

(** A name that tar extracts: not special, and without two dots in front. *)
Definition plain_name (c : string) : bool := clean_comp c && negb (HasPrefix c "..").

Lemma plain_clean cs : Forall (fun c => plain_name c) cs -> Forall (fun c => clean_comp c) cs.
Proof. intros H. apply (Forall_impl _ _ _ H). intros c Hc. unfold plain_name in Hc. by apply andb_True in Hc as [Hc _]. Qed.

Lemma IsAbs_join c cs : clean_comp c -> IsAbs (join_slash (c :: cs)) = false.
Proof.
  intros Hc. apply clean_comp_spec in Hc as (Hns & Hne & _). destruct c as [|a c]; [done|]. unfold no_slash in Hns. cbn in Hns.
  destruct (a =c? slash) eqn:E; [done|]. destruct cs; exact E.
Qed.

Lemma Clean_clean_path cs : Forall (fun c => clean_comp c) cs -> Clean (clean_path cs) = clean_path cs.
Proof.
  intros Hc. destruct cs as [|c cs]; [done|]. unfold clean_path, Clean. rewrite IsAbs_join by (by apply Forall_cons in Hc as [? _]).
  rewrite split_join, clean_comps_id by (done || by apply clean_no_slash). done.
Qed.

Lemma plain_stays cs : Forall (fun c => plain_name c) cs -> leads_out (clean_path cs) = false.
Proof.
  intros Hc. destruct cs as [|c cs]; [done|]. apply Forall_cons in Hc as [Hc _]. unfold plain_name in Hc. apply andb_True in Hc as [Hc Hd]. unfold leads_out.
  assert (Hs : HasPrefix (join_slash (c :: cs)) "/" = false).
  { pose proof (IsAbs_join c cs Hc) as H. cbn [clean_path]. revert H. generalize (join_slash (c :: cs)). intros [|a u]; [done|].
    change (IsAbs (String a u)) with (a =c? slash). change (HasPrefix (String a u) "/") with ((slash =c? a) && true). rewrite Ascii.eqb_sym. by intros ->. }
  cbn [clean_path]. rewrite Hs, orb_false_r. apply clean_comp_spec in Hc as (Hns & H0 & H1 & H2).
  destruct c as [|a [|b c]]; [done| |].
  - assert (Ha : ("."%char =c? a) = false) by (apply Ascii.eqb_neq; congruence).
    assert (E : forall u, HasPrefix (String a u) ".." = false) by (intros u; change (("."%char =c? a) && HasPrefix u "." = false); by rewrite Ha).
    destruct cs as [|d cs]; [exact (E "")|exact (E ("/" +:+ join_slash (d :: cs)))].
  - apply negb_True, Is_true_false in Hd. assert (E : forall u v, HasPrefix (String a (String b u)) ".." = HasPrefix (String a (String b v)) "..") by done.
    destruct cs as [|d cs]; [exact Hd|]. exact (eq_trans (E (c +:+ "/" +:+ join_slash (d :: cs)) c) Hd).
Qed.

Lemma Join_clean_path cs c : Forall (fun c => clean_comp c) (cs ++ [c]) -> Join [clean_path cs; c] = clean_path (cs ++ [c]).
Proof.
  intros Hc. assert (Hc' := Hc). apply Forall_app in Hc' as [Hcs Hcc]. apply Forall_cons in Hcc as [Hcc _]. unfold Join. rewrite seqb_ne.
  2:{ destruct cs as [|d cs]; [done|]. apply Forall_cons in Hcs as [Hd _]. apply clean_comp_spec in Hd as (_ & Hd & _). destruct d; [done|]. by destruct cs. }
  destruct cs as [|d cs].
  - unfold Clean. cbn [clean_path join_slash]. assert (E : split_slash ("." +:+ "/" +:+ c) = ["."; c]).
    { change ("." +:+ "/" +:+ c) with ("." +:+ String slash c). rewrite split_slash_app, (split_slash_word c) by (by apply clean_comp_spec in Hcc as (? & _)). done. }
    rewrite E. cbn [app]. apply clean_comp_spec in Hcc as (_ & H0 & H1 & H2). cbn. rewrite !seqb_ne by done. done.
  - replace (join_slash [clean_path (d :: cs); c]) with (clean_path ((d :: cs) ++ [c])).
    + by apply Clean_clean_path.
    + change (clean_path ((d :: cs) ++ [c])) with (join_slash ((d :: cs) ++ [c])). by rewrite join_slash_snoc.
Qed.

(** ** What is archived *)

Definition node_at (t : gmap (list string) ent) (root x : list string) : ent := match x with [] => EDir | _ => default EDir (t !! (root ++ x)) end.

(** A directory of plain files and directories: every name is plain, and no file has a second name. *)
Record plain_tree (s : fs) (root : list string) : Prop := {
  plain_names : forall cs, cs <> [] -> is_Some (tree s !! (root ++ cs)) -> Forall (fun c => plain_name c) cs /\ reached (tree s) root cs;
  plain_files : forall cs t, cs <> [] -> tree s !! (root ++ cs) <> Some (ELink t);
  one_name : forall cs i, cs <> [] -> tree s !! (root ++ cs) = Some (EFile i) -> Nlink (tree s) i <= 1 /\ i ∈ dom (content s) }.

Lemma walk_places s root fuel : plain_tree s root -> forall cs, cs = [] \/ is_Some (tree s !! (root ++ cs)) ->
  walk fuel (tree s) (clean_path cs) (root ++ cs) (node_at (tree s) root cs) =
  (fun x => (clean_path x, root ++ x, node_at (tree s) root x)) <$> places (tree s) root fuel cs (node_at (tree s) root cs).
Proof.
  intros Hp. induction fuel as [|fuel IH]; intros cs Hcs; cbn [walk places fmap list_fmap]; (apply (f_equal2 cons); [done|]); [by destruct (node_at (tree s) root cs)|].
  destruct (node_at (tree s) root cs); [|done..]. assert (H : forall c, c ∈ readDirNames (tree s) (root ++ cs) -> is_Some (tree s !! (root ++ cs ++ [c]))).
  { intros c Hc. apply readDirNames_elem in Hc. by rewrite <- app_assoc in Hc. }
  revert H. generalize (readDirNames (tree s) (root ++ cs)). intros names H. induction names as [|c names IHn]; [done|]. cbn [mbind list_bind]. rewrite fmap_app.
  rewrite <- IHn by (intros d Hd; apply H; by right). f_equal. rewrite <- app_assoc. destruct (H c ltac:(by left)) as [e E]. rewrite E.
  destruct (plain_names s root Hp (cs ++ [c])) as [Hc _]; [by destruct cs|by rewrite E|]. rewrite Join_clean_path by (by apply plain_clean).
  replace e with (node_at (tree s) root (cs ++ [c])) by (unfold node_at; destruct (cs ++ [c]) eqn:E'; [by destruct cs|by rewrite E]). apply IH. right. by rewrite E.
Qed.

Section Archived.
Variable perm mtime : list string -> Z.
Variable owner : list string -> string * string.
Variable mode_text : ent -> Z -> string.

Definition entry_at (s : fs) (root x : list string) : tarEntry :=
  {| header := file_header perm mtime owner s (clean_path x) (root ++ x) (node_at (tree s) root x);
     body := match node_at (tree s) root x with EFile i => default "" (content s !! i) | _ => "" end |}.

Lemma visit_plain s root v x c : plain_tree s root -> x = [] \/ is_Some (tree s !! (root ++ x)) ->
  entries (visit perm mtime owner mode_text s root "" v c (clean_path x, root ++ x, node_at (tree s) root x)) = entries c ++ [entry_at s root x].
Proof.
  intros Hp Hx. unfold visit, entry_at. cbn [String.eqb negb andb]. destruct (node_at (tree s) root x) as [|i|t] eqn:E; [done| |].
  - unfold node_at in E. destruct x as [|d x]; [done|]. destruct Hx as [Hx|[e Hx]]; [done|]. rewrite Hx in E. cbn in E. subst e.
    destruct (one_name s root Hp (d :: x) i ltac:(done) Hx) as [Hn _]. destruct (Nat.ltb_spec 1 (Nlink (tree s) i)); [lia|done].
  - unfold node_at in E. destruct x as [|d x]; [done|]. destruct Hx as [Hx|[e Hx]]; [done|]. rewrite Hx in E. cbn in E. subst e.
    by destruct (plain_files s root Hp (d :: x) t ltac:(done) Hx).
Qed.

Lemma visits_plain s root v l : plain_tree s root -> (forall x, x ∈ l -> x = [] \/ is_Some (tree s !! (root ++ x))) -> forall c,
  entries (foldl (visit perm mtime owner mode_text s root "" v) c ((fun x => (clean_path x, root ++ x, node_at (tree s) root x)) <$> l)) = entries c ++ (entry_at s root <$> l).
Proof.
  intros Hp. induction l as [|x l IH]; intros Hl c; cbn [fmap list_fmap foldl]; [by rewrite app_nil_r|].
  rewrite IH by (intros y Hy; apply Hl; by right). rewrite visit_plain by (done || apply Hl; by left). by rewrite <- app_assoc.
Qed.

(** The entries of the archive of the directory itself. *)
Lemma create_plain errno_text s root v : plain_tree s root ->
  let '(c, err) := createArchiveStream errno_text perm mtime owner mode_text s root "" v ["."] start_creation in
  entries c = entry_at s root <$> places (tree s) root (size (tree s)) [] EDir /\ err = None.
Proof.
  intros Hp. cbn [createArchiveStream]. change (resolveTarPath ".") with ("", "./"). cbn [String.eqb]. unfold Walk.
  change (components ".") with (@nil string). change (start_of root ".") with root. rewrite namei_nil. split; [|done]. cbn [entries].
  pose proof (walk_places s root (size (tree s)) Hp [] (or_introl eq_refl)) as H. rewrite app_nil_r in H. change (clean_path []) with "." in H.
  change (node_at (tree s) root []) with EDir in H. rewrite H. rewrite visits_plain; [done|done|]. intros x Hx. apply places_nodes in Hx as [->|Hx]; [by left|by right].
Qed.
End Archived.

(** ** What is extracted *)

Lemma view_set_dir s loc p : view_at (set_node loc EDir s) p = if decide (p = loc) then Some VDir else view_at s p.
Proof. unfold view_at, set_node. cbn. case_decide as H; [subst; by rewrite lookup_insert_eq|by rewrite lookup_insert_ne]. Qed.

Lemma view_new_file root s loc body p : separate root s ->
  view_at (set_content (fresh (dom (content s))) body (set_node loc (EFile (fresh (dom (content s)))) s)) p = if decide (p = loc) then Some (VFile (Some body)) else view_at s p.
Proof.
  intros Hs. assert (Hi : fresh (dom (content s)) ∉ dom (content s)) by apply is_fresh. unfold view_at, set_content, set_node. cbn. case_decide as H.
  - subst. rewrite lookup_insert_eq. cbn. by rewrite lookup_insert_eq.
  - rewrite lookup_insert_ne by done. destruct (tree s !! p) as [[|j|]|] eqn:E; [done| |done..]. cbn. rewrite lookup_insert_ne; [done|].
    intros Ej. apply Hi. rewrite Ej. by eapply has_content.
Qed.

Lemma MkdirAll_there s root cs : Forall (fun c => clean_comp c) cs -> reached (tree s) root cs -> cs = [] \/ tree s !! (root ++ cs) = Some EDir -> MkdirAll s root cs = Ok s.
Proof.
  intros Hc Hr He. unfold MkdirAll. assert (E : Stat s root (rev (rev cs)) = Ok EDir).
  { rewrite rev_involutive. unfold Stat. destruct cs as [|c cs]; [by rewrite namei_nil|]. destruct He as [|He]; [done|].
    rewrite namei_reached; [by rewrite He|done|done|congruence]. }
  destruct (rev cs); cbn [MkdirAll_rev]; by rewrite E.
Qed.

(** A directory is made where its parent is. *)
Lemma MkdirAll_next s root cs : cs <> [] -> Forall (fun c => clean_comp c) cs -> reached (tree s) root cs -> tree s !! (root ++ cs) = None ->
  MkdirAll s root cs = Ok (set_node (root ++ cs) EDir s).
Proof.
  intros Hne Hc Hr Hn. destruct cs as [|c cs _] using rev_ind; [done|]. unfold MkdirAll. rewrite rev_app_distr. cbn [rev app MkdirAll_rev]. rewrite rev_involutive.
  assert (E : forall follow links, namei (tree s) follow links root (cs ++ [c]) = Ok (root ++ cs ++ [c], None)).
  { intros follow links. rewrite namei_reached; [|done|done|congruence]. rewrite Hn. by destruct cs. }
  unfold Stat, Mkdir. rewrite !E.
  assert (Hp : MkdirAll s root cs = Ok s).
  { apply Forall_app in Hc as [Hc _]. apply MkdirAll_there; [done| |].
    - intros x y -> Hx Hy. apply (Hr x (y ++ [c])); [by rewrite <- app_assoc|done|by destruct y].
    - destruct cs as [|d cs]; [by left|]. right. by apply (Hr (d :: cs) [c]). }
  unfold MkdirAll in Hp. destruct (rev cs); [|rewrite Hp]; cbn [res_bind]; by rewrite E.
Qed.

Section Restored.
Variable perm mtime : list string -> Z.
Variable owner : list string -> string * string.
Variable s0 : fs.
Variable src dst : list string.
Hypothesis Hsrc : plain_tree s0 src.

(** Extraction of everything, whatever is there. *)
Definition restores (o : xoptions) : Prop :=
  x_toStdout o = false /\ x_overwrite o = false /\ excludePatterns o = [] /\ includeSet o = None.

(** The places of [done] are as they are in the source, and nothing else is in the directory. *)
Record restored (done : list (list string)) (x : xstate) : Prop := {
  r_confined : confined dst [] s0 (disk x);
  r_closed : forall y c, y ++ [c] ∈ done -> y ∈ done;
  r_known : forall y, y ∈ done -> y = [] \/ is_Some (tree s0 !! (src ++ y));
  r_dangerous : dangerousSymlinks x = [];
  r_dependents : hadSymlinkDependents x = false;
  r_view : forall y, y <> [] -> view_at (disk x) (dst ++ y) = if decide (y ∈ done) then view_at s0 (src ++ y) else None }.

Lemma closed_prefix (done : list (list string)) (x y : list string) : (forall y c, y ++ [c] ∈ done -> y ∈ done) -> x ++ y ∈ done -> x ∈ done.
Proof.
  intros Hcl. induction y as [|c y IH] using rev_ind; [by rewrite app_nil_r|]. intros H. rewrite app_assoc in H. apply Hcl in H. auto.
Qed.

Lemma restored_reached done x cs : restored done x -> removelast cs ∈ done -> is_Some (tree s0 !! (src ++ cs)) -> reached (tree (disk x)) dst cs.
Proof.
  intros Hr Hp He a b -> Ha Hb. destruct (plain_names s0 src Hsrc (a ++ b)) as [_ Hs]; [by destruct a|done|].
  assert (Hin : a ∈ done).
  { destruct b as [|c b _] using rev_ind; [done|]. rewrite app_assoc, removelast_last in Hp. by apply (closed_prefix done a b (r_closed _ _ Hr)). }
  pose proof (r_view _ _ Hr a Ha) as Hv. rewrite decide_True in Hv by done. unfold view_at in Hv. rewrite (Hs a b eq_refl Ha Hb) in Hv. cbn in Hv.
  destruct (tree (disk x) !! (dst ++ a)) as [[]|]; try done.
Qed.

Lemma restored_absent done x cs : restored done x -> cs <> [] -> cs ∉ done -> tree (disk x) !! (dst ++ cs) = None.
Proof.
  intros Hr Hne Hn. pose proof (r_view _ _ Hr cs Hne) as Hv. rewrite decide_False in Hv by done. unfold view_at in Hv. by destruct (tree (disk x) !! (dst ++ cs)).
Qed.

(** A step that adds a place. *)
Lemma restored_step done x x' cs s' : restored done x -> cs <> [] -> cs ∉ done -> removelast cs ∈ done -> is_Some (tree s0 !! (src ++ cs)) ->
  confined dst [] (disk x) s' -> (forall p, view_at s' p = if decide (p = dst ++ cs) then view_at s0 (src ++ cs) else view_at (disk x) p) ->
  disk x' = s' -> dangerousSymlinks x' = dangerousSymlinks x -> hadSymlinkDependents x' = hadSymlinkDependents x -> restored (cs :: done) x'.
Proof.
  intros Hr Hne Hn Hp He Hc Hv Hd Hg Hh. constructor; rewrite ?Hd, ?Hg, ?Hh.
  - eapply confined_trans; [apply Hr|done].
  - intros y c. rewrite !elem_of_cons. intros [<-|H]; [rewrite removelast_last in Hp; by right|right; by eapply r_closed].
  - intros y. rewrite elem_of_cons. intros [->|H]; [by right|by eapply r_known].
  - by eapply r_dangerous.
  - by eapply r_dependents.
  - intros y Hy. rewrite Hv. destruct (decide (y = cs)) as [->|Hyc]; [rewrite !decide_True; [done|by left|done]|].
    rewrite decide_False by (intros E; apply Hyc; by apply app_inv_head in E). rewrite (r_view _ _ Hr y Hy).
    destruct (decide (y ∈ done)); [by rewrite decide_True by (by right)|by rewrite decide_False by (rewrite elem_of_cons; naive_solver)].
Qed.

Lemma extract_restored o allTargets done x cs : restores o -> restored done x -> cs <> [] -> cs ∉ done -> removelast cs ∈ done -> is_Some (tree s0 !! (src ++ cs)) ->
  exists x', extract_entry o dst allTargets (entry_at perm mtime owner s0 src cs) x = Ok x' /\ restored (cs :: done) x'.
Proof.
  intros (Ho1 & Ho2 & Ho3 & Ho4) Hr Hne Hn Hp He. destruct (plain_names s0 src Hsrc cs Hne He) as [Hpl _]. assert (Hc := plain_clean cs Hpl).
  pose proof (restored_reached done x cs Hr Hp He) as Hreach. pose proof (restored_absent done x cs Hr Hne Hn) as Habs.
  pose proof (c_separate _ _ _ _ (r_confined _ _ Hr)) as Hsep. pose proof (c_links _ _ _ _ (r_confined _ _ Hr)) as Hlk.
  assert (Hth : not_through [] cs) by (intros l k ks Hl; by apply elem_of_nil in Hl).
  unfold extract_entry, selected_entry. rewrite Ho3, Ho4. cbn [isExcluded existsb included negb andb entry_at header file_header Name Typeflag].
  rewrite Clean_clean_path, plain_stays by done. set (x1 := with_stat _ _).
  assert (Ed : disk x1 = disk x) by done. assert (Eg : dangerousSymlinks x1 = dangerousSymlinks x) by done. destruct He as [e He].
  replace (node_at (tree s0) src cs) with e by (unfold node_at; destruct cs; [done|by rewrite He]). destruct e as [|i|t]; [| |by destruct (plain_files s0 src Hsrc cs t Hne He)].
  - unfold extract_dir. rewrite Ho1, components_clean, Ed, MkdirAll_next by done. cbn [failed]. eexists. split; [reflexivity|].
    apply (restored_step done x _ cs (set_node (dst ++ cs) EDir (disk x))); [done|done|done|done|by eexists| | |reflexivity|done|done].
    + apply set_node_confined; done.
    + intros p. rewrite view_set_dir. case_decide; [|done]. unfold view_at. by rewrite He.
  - assert (Eb : body (entry_at perm mtime owner s0 src cs) = default "" (content s0 !! i)).
    { unfold entry_at, node_at. cbn [body]. destruct cs; [done|]. by rewrite He. }
    rewrite Eb. unfold extract_reg. rewrite Ho1, Ho2, Eg, (r_dangerous _ _ Hr), components_clean by done.
    assert (Ehd : forall fuel q, dangerous_from fuel q [] = false).
    { induction fuel as [|fuel IH]; intros q; [done|]. cbn [dangerous_from]. rewrite (bool_decide_false (q ∈ [])) by apply not_elem_of_nil. rewrite IH. by destruct ((q =s? ".") || (q =s? "/") || (q =s? "")). }
    unfold hasDangerousParent. rewrite Ehd, Ed. unfold Lstat. rewrite (namei_reached (tree (disk x)) false) by done. rewrite Habs.
    replace (match cs with [] => Some EDir | _ => None end) with (@None ent) by (by destruct cs). cbn [andb].
    rewrite Ed, Dir_components by done.
    assert (Hpar : MkdirAll (disk x) dst (removelast cs) = Ok (disk x)).
    { destruct cs as [|c' cs' _] using rev_ind; [done|]. rewrite removelast_last in *. apply Forall_app in Hc as [Hc _]. apply MkdirAll_there; [done| |].
      - intros a b -> Ha Hb. apply (Hreach a (b ++ [c'])); [by rewrite <- app_assoc|done|by destruct b].
      - destruct cs' as [|d cs']; [by left|]. right. by apply (Hreach (d :: cs') [c']). }
    rewrite Hpar. unfold WriteFile. cbn [negb]. rewrite (namei_reached (tree (disk x)) true); [|done|done|congruence]. rewrite Habs.
    replace (match cs with [] => Some EDir | _ => None end) with (@None ent) by (by destruct cs). cbn [failed]. eexists. split; [reflexivity|].
    apply (restored_step done x _ cs (let j := fresh (dom (content (disk x))) in set_content j (default "" (content s0 !! i)) (set_node (dst ++ cs) (EFile j) (disk x))));
      [done|done|done|done|by eexists| | |reflexivity|done|done].
    + by apply (new_file_confined dst [] (disk x) Hsep Hlk cs).
    + intros p. cbv zeta. rewrite (view_new_file dst) by done. case_decide; [|done]. unfold view_at. rewrite He. cbn.
      destruct (one_name s0 src Hsrc cs i Hne He) as [_ Hi]. apply elem_of_dom in Hi as [b Hb]. by rewrite Hb.
Qed.

Lemma extract_all o allTargets l : restores o -> (forall y, y ∈ l -> y <> [] /\ is_Some (tree s0 !! (src ++ y))) -> forall done x, restored done x -> ordered done l ->
  exists x', extract_entries o dst allTargets (entry_at perm mtime owner s0 src <$> l) x = Ok x' /\ restored (rev l ++ done) x'.
Proof.
  intros Ho. induction l as [|cs l IH]; intros Hl done x Hr Hd; [by exists x|]. destruct Hd as (H1 & H2 & H3). destruct (Hl cs ltac:(by left)) as [Hne He].
  destruct H1 as [|H1]; [done|]. destruct (extract_restored o allTargets done x cs Ho Hr Hne H2 H1 He) as (x1 & E & Hr1). cbn [fmap list_fmap extract_entries]. rewrite E. cbn [res_bind].
  destruct (IH ltac:(intros y Hy; apply Hl; by right) (cs :: done) x1 Hr1 H3) as (x2 & E2 & Hr2). exists x2. split; [done|]. cbn [rev]. by rewrite <- app_assoc.
Qed.

(** The directory itself changes nothing. *)
Lemma extract_root o allTargets done x : restores o -> restored done x -> exists x', extract_entry o dst allTargets (entry_at perm mtime owner s0 src []) x = Ok x' /\ restored done x'.
Proof.
  intros (Ho1 & Ho2 & Ho3 & Ho4) Hr. unfold extract_entry, selected_entry. rewrite Ho3, Ho4. cbn [isExcluded existsb included negb andb entry_at header file_header Name Typeflag node_at].
  change (Clean (clean_path [])) with ".". cbn [leads_out HasPrefix Ascii.eqb Bool.eqb andb orb]. unfold extract_dir. rewrite Ho1. change (components ".") with (@nil string).
  rewrite MkdirAll_there; [|done|intros [] [] ?; done|by left]. eexists. split; [reflexivity|]. destruct Hr as [H1 H2 H3 H4 H5 H6]. by constructor.
Qed.

Lemma start_restored : separate dst s0 -> (forall cs, cs <> [] -> tree s0 !! (dst ++ cs) = None) -> forall t, restored [[]] (with_printed t (start_state s0)).
Proof.
  intros Hs He t. constructor; [|intros [] c ?%list_elem_of_singleton; done|intros y ->%list_elem_of_singleton; by left|done|done|].
  - apply confined_refl; [done|]. intros cs x Hne E. by rewrite He in E.
  - intros y Hy. rewrite decide_False by (by rewrite list_elem_of_singleton). unfold view_at. cbn. by rewrite He.
Qed.

(** Everything is restored. *)
Lemma restored_everything x l : restored (rev l ++ [[]]) x -> [] :: l = places (tree s0) src (size (tree s0)) [] EDir ->
  forall cs, cs <> [] -> view_at (disk x) (dst ++ cs) = view_at s0 (src ++ cs).
Proof.
  intros Hr Hl cs Hne. rewrite (r_view _ _ Hr cs Hne). case_decide as H; [done|]. unfold view_at. destruct (tree s0 !! (src ++ cs)) as [e|] eqn:E; [|done]. exfalso.
  destruct (plain_names s0 src Hsrc cs Hne ltac:(by eexists)) as [_ Hr']. apply H. apply elem_of_app. left. apply list_elem_of_In. rewrite <- in_rev. apply list_elem_of_In.
  assert (Hin : cs ∈ [] :: l); [|by apply elem_of_cons in Hin as [Hin|Hin]]. rewrite Hl. apply (places_complete (tree s0) src (size (tree s0)) [] EDir cs e); [by right|by eapply depth_size|done|done].
Qed.
End Restored.

(** Without -v nothing is printed. *)
Lemma visit_silent perm mtime owner mode_text s wd a : forall l c, c_printed (foldl (visit perm mtime owner mode_text s wd a false) c l) = c_printed c.
Proof.
  induction l as [|[[p loc] e] l IH]; intros c; [done|]. cbn [foldl]. rewrite IH. unfold visit. destruct (_ && _); [done|].
  assert (Ha : forall h b m n c, c_printed (add_entry false h b m n c) = c_printed c) by (intros; cbn; by rewrite app_nil_r).
  destruct e as [|i|t]; try apply Ha. destruct (1 <? Nlink (tree s) i); [destruct (first_name i (seenInodes c))|]; by rewrite Ha.
Qed.

Section Roundtrip.
Variable tar_Reader : stream -> list tarEntry * option string.
Variable tar_Writer : list tarEntry -> string.
Variable gunzip unxz : stream -> result string stream.
Variable bunzip2 : stream -> stream.
Variable gzip : string -> string.
Variable errno_text : errno -> string.
Variable time_text : option Z -> Z -> string.
Variable perm mtime : list string -> Z.
Variable owner : list string -> string * string.
Variable mode_text : ent -> Z -> string.
Variable TZ : string.

Let run := tarRun tar_Reader tar_Writer gunzip unxz bunzip2 gzip errno_text time_text perm mtime owner mode_text TZ.

(** tar -c . and tar -x, through a pipe. *)
Definition creates (f : tar_flags) : Prop :=
  create f = true /\ extract f = false /\ list_ f = false /\ useGzip f = false /\ verbose f = false /\ isJSON f = false /\
  file f = "-" /\ dir f = "" /\ excludeFiles f = [] /\ Positional f = ["."].
Definition extracts (f : tar_flags) : Prop :=
  create f = false /\ extract f = true /\ list_ f = false /\ useGzip f = false /\ useBzip2 f = false /\ isJSON f = false /\ toStdout f = false /\
  overwrite f = false /\ file f = "-" /\ dir f = "" /\ excludeFiles f = [] /\ Positional f = [].

Lemma create_silent s src : c_printed (fst (createArchiveStream errno_text perm mtime owner mode_text s src "" false ["."] start_creation)) = [].
Proof.
  cbn [createArchiveStream]. destruct (resolveTarPath ".") as [r p]. destruct (Walk s src _) as [l|]; [|done].
  destruct (p =s? ""); cbn; by rewrite visit_silent.
Qed.

Lemma run_creates fc s src : creates fc -> plain_tree s src ->
  exists es, run fc src "" s = {| io := {| rc := 0; out := [CText (tar_Writer (entry_at perm mtime owner s src <$> places (tree s) src (size (tree s)) [] EDir))]; errs := es |}; after := s; chmods := [] |}.
Proof.
  intros (C1 & C2 & C3 & C4 & C5 & C6 & C7 & C8 & C9 & C10) Hp. unfold run, tarRun. rewrite C1, C2, C3, C7, C8, C9. cbn. unfold doCreate. cbn. rewrite C10, C4, C5, C6. cbn [andb].
  pose proof (create_plain perm mtime owner mode_text errno_text s src false Hp) as Hc. pose proof (create_silent s src) as Hq.
  destruct (createArchiveStream _ _ _ _ _ _ _ _ _ _) as [c err]. destruct Hc as [Hc ->]. rewrite Hc. cbn. cbn in Hq. rewrite Hq. by eexists.
Qed.

Lemma run_extracts fx s src dst archive l : extracts fx -> plain_tree s src -> separate dst s -> (forall cs, cs <> [] -> tree s !! (dst ++ cs) = None) ->
  [] :: l = places (tree s) src (size (tree s)) [] EDir -> is_empty (archive, None) = false -> magic archive = (false, false, false) ->
  tar_Reader (archive, None) = (entry_at perm mtime owner s src <$> [] :: l, None) ->
  exists x, after (run fx dst archive s) = disk x /\ rc (io (run fx dst archive s)) = (if hadSymlinkDependents x then 1 else 0)%Z /\ restored s src dst (rev l ++ [[]]) x.
Proof.
  intros (X1 & X2 & X3 & X4 & X5 & X6 & X7 & X8 & X9 & X10 & X11 & X12) Hp Hs He Hl Hne Hm Hr.
  assert (Ho : restores (xoptions_of fx [])) by (unfold restores, xoptions_of; cbn; by rewrite X12).
  unfold run, tarRun. rewrite X1, X2, X3, X9, X10, X11. cbn [Z.add Z.eqb negb String.eqb exclude_patterns andb]. unfold doExtract. cbn [open_archive String.eqb]. cbn.
  unfold decompress. cbn [fst]. rewrite X4, X5. cbn [negb andb]. rewrite Hm. cbn [res_bind].
  unfold extractArchiveStream. rewrite Hne, Hr. set (o := xoptions_of fx []) in *. set (x0 := with_printed _ _).
  pose proof (start_restored s src dst Hs He (verbose_lines o (entry_at perm mtime owner s src <$> [] :: l))) as Hx0. fold x0 in Hx0.
  cbn [fmap list_fmap extract_entries]. destruct (extract_root perm mtime owner s src dst o (all_targets (entry_at perm mtime owner s src [] :: (entry_at perm mtime owner s src <$> l))) [[]] x0 Ho Hx0) as (x1 & E1 & Hx1).
  rewrite E1. cbn [res_bind]. pose proof (places_ordered (tree s) src (size (tree s)) [] EDir [] ltac:(by left) ltac:(intros y Hy; by apply elem_of_nil in Hy)) as Hord.
  rewrite <- Hl in Hord. destruct Hord as (_ & _ & Hord).
  assert (Hy : forall y, y ∈ l -> y <> [] /\ is_Some (tree s !! (src ++ y))).
  { intros y Hy. assert (Hy0 : y <> []).
    { intros ->. clear -Hord Hy. revert Hord. assert (H : [] ∈ [@nil string]) by by left. revert H. generalize [@nil string]. induction l as [|z l IH]; intros k Hk; [by apply elem_of_nil in Hy|].
      intros (_ & Hz & Ho). apply elem_of_cons in Hy as [<-|Hy]; [done|]. apply (IH Hy (z :: k)); [by right|done]. }
    split; [done|]. assert (Hin : y ∈ places (tree s) src (size (tree s)) [] EDir) by (rewrite <- Hl; by right). by apply places_nodes in Hin as [|]. }
  destruct (extract_all perm mtime owner s src dst Hp o (all_targets (entry_at perm mtime owner s src [] :: (entry_at perm mtime owner s src <$> l))) l Ho Hy [[]] x1 Hx1 Hord) as (x2 & E2 & Hx2).
  rewrite E2. destruct Ho as (_ & _ & _ & Hi). rewrite Hi. exists x2. done.
Qed.

(** C17: the round trip.  The archive that tar -c . makes of a directory is extracted by tar -x, in an empty directory that is
    apart from it, to the same tree: every file with its contents, every directory, and nothing else; and nothing elsewhere is
    changed.  The directory holds files and directories only, every file under one name, and no name starts with two dots (tar leaves
    such names out: see [tar_dotted_names_skipped]).  The options are those of [creates] and [extracts]: the archive goes through standard output and
    input, uncompressed, without -C, -X, -O, -v and --json.  The archive format is that of archive/tar, a parameter, which reads back the entries of this
    archive and does not write what is taken for a compressed file.  Modes, times and owners are not compared. *)
Theorem tar_roundtrip (fc fx : tar_flags) (s : fs) (src dst : list string) :
  creates fc -> extracts fx -> plain_tree s src -> separate dst s -> (forall cs, cs <> [] -> tree s !! (dst ++ cs) = None) ->
  let es := entry_at perm mtime owner s src <$> places (tree s) src (size (tree s)) [] EDir in
  tar_Reader (tar_Writer es, None) = (es, None) -> tar_Writer es <> "" -> magic (tar_Writer es) = (false, false, false) ->
  exists archive, out (io (run fc src "" s)) = [CText archive] /\ rc (io (run fc src "" s)) = 0%Z /\ after (run fc src "" s) = s /\
    rc (io (run fx dst archive s)) = 0%Z /\ same_outside dst s (after (run fx dst archive s)) /\
    forall cs, cs <> [] -> view_at (after (run fx dst archive s)) (dst ++ cs) = view_at s (src ++ cs).
Proof.
  intros Hfc Hfx Hp Hs He es Hrt Hne Hm. destruct (run_creates fc s src Hfc Hp) as [ms Hc]. fold es in Hc. exists (tar_Writer es). rewrite Hc.
  split; [done|]. split; [done|]. split; [done|].
  assert (Hl : exists l, [] :: l = places (tree s) src (size (tree s)) [] EDir) by (destruct (size (tree s)); by eexists). destruct Hl as [l Hl].
  destruct (run_extracts fx s src dst (tar_Writer es) l Hfx Hp Hs He Hl) as (x & -> & -> & Hx); [by destruct (tar_Writer es)|done|by rewrite Hl|].
  rewrite (r_dependents _ _ _ _ _ Hx). split; [done|]. split; [apply Hx|]. by apply (restored_everything s src dst Hp x l).
Qed.
End Roundtrip.

Definition round_disk : fs := {|
  tree := {[ ["src"] := EDir; ["src"; "d"] := EDir; ["src"; "d"; "f"] := EFile 0; ["src"; "e"] := EFile 1; ["dst"] := EDir ]};
  content := {[ 0%nat := "one"; 1%nat := "two" ]} |}.

Lemma round_nodes p e : tree round_disk !! p = Some e ->
  p = ["src"] /\ e = EDir \/ p = ["src"; "d"] /\ e = EDir \/ p = ["src"; "d"; "f"] /\ e = EFile 0 \/ p = ["src"; "e"] /\ e = EFile 1 \/ p = ["dst"] /\ e = EDir.
Proof.
  assert (H0 : Forall (fun '(q, x) => q = ["src"] /\ x = EDir \/ q = ["src"; "d"] /\ x = EDir \/ q = ["src"; "d"; "f"] /\ x = EFile 0 \/ q = ["src"; "e"] /\ x = EFile 1 \/ q = ["dst"] /\ x = EDir)
    (map_to_list (tree round_disk))).
  { let l := eval vm_compute in (map_to_list (tree round_disk)) in replace (map_to_list (tree round_disk)) with l by (vm_compute; reflexivity).
    repeat (apply Forall_cons_2; [naive_solver|]); apply Forall_nil_2. }
  intros H. apply elem_of_map_to_list in H. rewrite Forall_forall in H0. apply (H0 _ H).
Qed.

Lemma round_plain : plain_tree round_disk ["src"].
Proof.
  constructor.
  - intros cs Hne [e H]. apply round_nodes in H as [[H _]|[[H _]|[[H _]|[[H _]|[H _]]]]]; try discriminate H; injection H as ->; try done.
    + split; [repeat constructor|]. intros [|a [|b x]] y E Hx Hy; try done. by injection E as _ <-.
    + split; [repeat constructor|]. intros [|a [|b [|c x]]] y E Hx Hy; try done; [by injection E as <- _|by injection E as _ _ <-].
    + split; [repeat constructor|]. intros [|a [|b x]] y E Hx Hy; try done. by injection E as _ <-.
  - intros cs t _ H. by apply round_nodes in H as [[_ H]|[[_ H]|[[_ H]|[[_ H]|[_ H]]]]].
  - intros cs i _ H. apply round_nodes in H as [[_ H]|[[_ H]|[[_ H]|[[_ H]|[_ H]]]]]; try done; injection H as ->; (split; [by vm_compute; lia|]); apply elem_of_dom; by eexists.
Qed.

Lemma round_separate : separate ["dst"] round_disk /\ forall cs, cs <> [] -> tree round_disk !! (["dst"] ++ cs) = None.
Proof.
  assert (He : forall cs, cs <> [] -> tree round_disk !! (["dst"] ++ cs) = None).
  { intros cs Hne. destruct (tree round_disk !! (["dst"] ++ cs)) eqn:H; [|done]. by apply round_nodes in H as [[H _]|[[H _]|[[H _]|[[H _]|[H _]]]]]; try discriminate H; injection H as ->. }
  split; [|exact He]. constructor.
  - intros p i H. apply round_nodes in H as [[_ H]|[[_ H]|[[_ H]|[[_ H]|[_ H]]]]]; try done; injection H as ->; apply elem_of_dom; by eexists.
  - intros p q i (c & cs & ->) _ H _. by rewrite He in H.
Qed.

Definition round_flags (c : bool) : tar_flags := {|
  create := c; extract := negb c; list_ := false; useGzip := false; useBzip2 := false; keepOld := false; verbose := false; toStdout := false;
  overwrite := false; isJSON := false; file := "-"; dir := ""; excludeFiles := []; Positional := if c then ["."] else [] |}.

Lemma tar_roundtrip_witness :
  let s := round_disk in
  let es := entry_at (fun _ => 0%Z) (fun _ => 0%Z) (fun _ => ("", "")) s ["src"] <$> places (tree s) ["src"] (size (tree s)) [] EDir in
  let run := tarRun (fun _ => (es, None)) (fun _ => "data") Ok Ok id id (fun _ => "error") (fun _ _ => "") (fun _ => 0%Z) (fun _ => 0%Z) (fun _ => ("", "")) (fun _ _ => "") "" in
  (Name ∘ header <$> es) = ["."; "d"; "d/f"; "e"] /\
  exists archive, out (io (run (round_flags true) ["src"] "" s)) = [CText archive] /\ rc (io (run (round_flags true) ["src"] "" s)) = 0%Z /\ after (run (round_flags true) ["src"] "" s) = s /\
    rc (io (run (round_flags false) ["dst"] archive s)) = 0%Z /\ same_outside ["dst"] s (after (run (round_flags false) ["dst"] archive s)) /\
    forall cs, cs <> [] -> view_at (after (run (round_flags false) ["dst"] archive s)) (["dst"] ++ cs) = view_at s (["src"] ++ cs).
Proof.
  intros s es run. split; [vm_compute; reflexivity|].
  apply (tar_roundtrip (fun _ => (es, None)) (fun _ => "data") Ok Ok id id (fun _ => "error") (fun _ _ => "") (fun _ => 0%Z) (fun _ => 0%Z) (fun _ => ("", "")) (fun _ _ => "") ""
    (round_flags true) (round_flags false) s ["src"] ["dst"]).
  - repeat split.
  - repeat split.
  - exact round_plain.
  - exact (proj1 round_separate).
  - exact (proj2 round_separate).
  - reflexivity.
  - discriminate.
  - reflexivity.
Defined.
