(* ===== verification/Ar.v ===== *)
(** ar: pkg/ar/ar.go, on the file system of Fs.v.  The library that reads and writes the archive format is a parameter. *)

From S2P Require Import Prelude GoStd Paths Output Fs.

Local Open Scope Z_scope.

Record Header := { Name : string; ModTime : Z; Mode : Z; Size : Z; Uid : Z; Gid : Z }.
Record arEntry := { hdr : Header; data : string }.

Record ArMember := { m_Name : string; m_Size : Z; m_ModTime : Z; m_Mode : Z; m_UID : Z; m_GID : Z }.
Record ArResult := { Archive : string; Members : list ArMember }.

Definition member_of (h : Header) : ArMember :=
  {| m_Name := Name h; m_Size := Size h; m_ModTime := ModTime h; m_Mode := uwrap 32 (Mode h); m_UID := Uid h; m_GID := Gid h |}.

(** [makeSet]: the names and their last components. *)
Definition makeSet (l : list string) : list string := n ← l; [Base n; n].

(** A set that is empty selects all. *)
Definition chosen (filter_ : list string) (e : arEntry) : bool :=
  match makeSet filter_ with [] => true | set => bool_decide (Name (hdr e) ∈ set) end.

Definition modeString (mode : Z) : string :=
  String "-" ((fix go (names : string) (bit : Z) : string :=
                 match names with "" => "" | String c names => String (if Z.testbit mode bit then c else "-"%char) (go names (bit - 1)) end) "rwxrwxrwx" 8).

(** ** Changing the list of entries *)

(** The index of [arReplace]: of several entries of a name the last one. *)
Definition make_index (entries : list arEntry) : gmap string nat :=
  foldl (fun index '(i, e) => <[Name (hdr e) := i]> index) ∅ (imap pair entries).

(** One file: its entry takes the place of the old one, or is the last. *)
Definition replace_step (st : list arEntry * gmap string nat) (e : arEntry) : list arEntry * gmap string nat :=
  let '(entries, index) := st in
  match index !! Name (hdr e) with
  | Some idx => (<[idx := e]> entries, index)
  | None => (entries ++ [e], <[Name (hdr e) := length entries]> index)
  end.

Definition replace_entries (entries new : list arEntry) : list arEntry := fst (foldl replace_step (entries, make_index entries) new).

Definition delete_entries (entries : list arEntry) (toDelete : list string) : list arEntry :=
  filter (fun e => bool_decide (Name (hdr e) ∈ makeSet toDelete) = false) entries.

(** ** The command *)

Inductive operation := OpReplace | OpList | OpExtract | OpPrint | OpDelete.

(** The letters of the first argument: the last operation counts, c only if it is the first; [verbose] apart. *)
Fixpoint parse_ops (s : string) (op : option operation) (verbose : bool) : option operation * bool :=
  match s with
  | "" => (op, verbose)
  | String c s =>
      if (c =c? "r") || (c =c? "q") then parse_ops s (Some OpReplace) verbose
      else if c =c? "c" then parse_ops s (match op with None => Some OpReplace | _ => op end) verbose
      else if c =c? "d" then parse_ops s (Some OpDelete) verbose
      else if c =c? "t" then parse_ops s (Some OpList) verbose
      else if c =c? "x" then parse_ops s (Some OpExtract) verbose
      else if c =c? "p" then parse_ops s (Some OpPrint) verbose
      else if (c =c? "v") || (c =c? "V") then parse_ops s op true
      else parse_ops s op verbose
  end.

Section Ar.
(** The library: the entries before an error, and the error; the archive of entries, or the error. *)
Variable ar_Reader : string -> list arEntry * option string.
Variable ar_Writer : list arEntry -> result string string.
(** The texts of errors, without the paths they name; time and mode of a file, and the time as text. *)
Variable errno_text : errno -> string.
Variable mtime mode_of : list string -> Z.
Variable time_text : Z -> string.

Record ar_result := { io : run_io ArResult; after : fs }.

Definition fail (s : fs) (msg : string) : ar_result := {| io := {| rc := 1; out := []; errs := [line ("ar: " +:+ msg)] |}; after := s |}.
Definition with_out (o : list (chunk ArResult)) (r : ar_result) : ar_result :=
  {| io := {| rc := rc (io r); out := o ++ out (io r); errs := errs (io r) |}; after := after r |}.
Definition done_ (s : fs) (o : list (chunk ArResult)) : ar_result := {| io := {| rc := 0; out := o; errs := [] |}; after := s |}.

(** [os.Open] and [os.ReadFile] of an absolute path. *)
Definition read_path (s : fs) (path : string) : result errno string := ReadFile s [] (components path).

(** [readArchive]: an archive that is not there has no entries. *)
Definition readArchive (s : fs) (archive : string) : result string (list arEntry) :=
  match read_path s archive with
  | Err ENOENT => Ok []
  | Err e => Err (errno_text e)
  | Ok text => match ar_Reader text with (entries, None) => Ok entries | (_, Some m) => Err m end
  end.

(** The size of an entry is that of its data. *)
Definition sized (e : arEntry) : arEntry :=
  {| hdr := {| Name := Name (hdr e); ModTime := ModTime (hdr e); Mode := Mode (hdr e); Size := Z.of_nat (String.length (data e)); Uid := Uid (hdr e); Gid := Gid (hdr e) |};
     data := data e |}.

(** [flushArchive]: a new file that takes the place of the archive. *)
Definition flushArchive (s : fs) (archive : string) (entries : list arEntry) : ar_result :=
  let tmp := components (archive +:+ ".tmp") in
  match WriteFile s [] tmp true "" with
  | Err e => fail s (errno_text e)
  | Ok s1 =>
      match ar_Writer (sized <$> entries) with
      | Err m => fail (ignore_error (Remove s1 [] tmp) s1) m
      | Ok text =>
          let s2 := ignore_error (WriteFile s1 [] tmp true text) s1 in
          match Rename s2 [] tmp [] (components archive) with
          | Err e => fail s2 (errno_text e)
          | Ok s3 => done_ s3 []
          end
      end
  end.

Definition list_line (verbose : bool) (h : Header) : chunk ArResult :=
  line (if verbose then
          modeString (Mode h) +:+ " " +:+ FormatInt (Uid h) +:+ "/" +:+ FormatInt (Gid h) +:+ " " +:+
          (let n := FormatInt (Size h) in repeat_char " " (8 - String.length n) +:+ n) +:+ " " +:+ time_text (ModTime h) +:+ " " +:+ Name h
        else Name h).

Definition json_of (jsonMode : bool) (archive : string) (entries : list arEntry) : list (chunk ArResult) :=
  if jsonMode then Render "ar" {| Archive := archive; Members := (fun e => member_of (hdr e)) <$> entries |} true [] else [].

Definition arList (s : fs) (archive : string) (filter_ : list string) (verbose jsonMode : bool) : ar_result :=
  match read_path s archive with
  | Err e => fail s (errno_text e)
  | Ok text =>
      let '(entries, err) := ar_Reader text in
      let entries := filter (fun e => chosen filter_ e = true) entries in
      let lines := if jsonMode then [] else (fun e => list_line verbose (hdr e)) <$> entries in
      with_out lines (match err with Some m => fail s m | None => done_ s (json_of jsonMode archive entries) end)
  end.

(** The loop of [arExtract]: the disk, what is printed, and an error. *)
Fixpoint extract_loop (s : fs) (cwd : string) (verbose : bool) (entries : list arEntry) : fs * list (chunk ArResult) * option errno :=
  match entries with
  | [] => (s, [], None)
  | e :: entries =>
      let shown := if verbose then [line ("x - " +:+ Name (hdr e))] else [] in
      match WriteFile s [] (components (Join [cwd; Base (Name (hdr e))])) true (data e) with
      | Err m => (s, shown, Some m)
      | Ok s => let '(s, o, err) := extract_loop s cwd verbose entries in (s, shown ++ o, err)
      end
  end.

Definition arExtract (s : fs) (archive : string) (filter_ : list string) (verbose jsonMode : bool) (cwd : string) : ar_result :=
  match read_path s archive with
  | Err e => fail s (errno_text e)
  | Ok text =>
      let '(entries, err) := ar_Reader text in
      let entries := filter (fun e => chosen filter_ e = true) entries in
      let '(s, o, werr) := extract_loop s cwd verbose entries in
      with_out o (match werr, err with
                  | Some e, _ => fail s (errno_text e)
                  | None, Some m => fail s m
                  | None, None => done_ s (json_of jsonMode archive entries)
                  end)
  end.

Definition arPrint (s : fs) (archive : string) (filter_ : list string) (verbose : bool) : ar_result :=
  match read_path s archive with
  | Err e => fail s (errno_text e)
  | Ok text =>
      let '(entries, err) := ar_Reader text in
      let nl := String "010" "" in
      let texts := e ← filter (fun e => chosen filter_ e = true) entries;
                   (if verbose then [CText (nl +:+ "<" +:+ Name (hdr e) +:+ ">" +:+ nl +:+ nl)] else []) ++ [CText (data e)] in
      with_out texts (match err with Some m => fail s m | None => done_ s [] end)
  end.

Definition arDelete (s : fs) (archive : string) (toDelete : list string) (verbose : bool) : ar_result :=
  match toDelete with
  | [] => fail s "no files to delete specified"
  | _ =>
      match readArchive s archive with
      | Err m => fail s m
      | Ok entries =>
          let gone := filter (fun e => bool_decide (Name (hdr e) ∈ makeSet toDelete) = true) entries in
          with_out (if verbose then (fun e => line ("d - " +:+ Name (hdr e))) <$> gone else []) (flushArchive s archive (delete_entries entries toDelete))
      end
  end.

(** The entries of the files, or the first error. *)
Definition abs_file (cwd file : string) : string := if IsAbs file then file else Join [cwd; file].

Definition file_entry (s : fs) (cwd file : string) : result string arEntry :=
  let path := components (abs_file cwd file) in
  match ReadFile s [] path with
  | Err e => Err (errno_text e)
  | Ok b => Ok {| hdr := {| Name := Base file; ModTime := mtime path; Mode := mode_of path; Size := Z.of_nat (String.length b); Uid := 0; Gid := 0 |}; data := b |}
  end.

Fixpoint replace_loop (s : fs) (cwd : string) (verbose : bool) (files : list string) (st : list arEntry * gmap string nat)
    : list (chunk ArResult) * result string (list arEntry) :=
  match files with
  | [] => ([], Ok (fst st))
  | file :: files =>
      match file_entry s cwd file with
      | Err m => ([], Err m)
      | Ok e =>
          let shown := if verbose then [line ((match snd st !! Name (hdr e) with Some _ => "r - " | None => "a - " end) +:+ Name (hdr e))] else [] in
          let '(o, r) := replace_loop s cwd verbose files (replace_step st e) in (shown ++ o, r)
      end
  end.

Definition arReplace (s : fs) (archive : string) (files : list string) (verbose : bool) (cwd : string) : ar_result :=
  match readArchive s archive with
  | Err m => fail s m
  | Ok entries =>
      let '(o, r) := replace_loop s cwd verbose files (entries, make_index entries) in
      with_out o (match r with Err m => fail s m | Ok entries => flushArchive s archive entries end)
  end.

Definition usage : string := "usage: ar [dprqtxco][vV] archive files...".

Definition arRun (args : list string) (cwd : string) (s : fs) : ar_result :=
  let jsonMode := bool_decide ("--json" ∈ args) in
  match filter (fun a => a <> "--json") args with
  | [] => fail s usage
  | [_] => fail s "missing archive argument"
  | opStr :: archive :: members =>
      let archive := abs_file cwd archive in
      let '(op, verbose) := parse_ops (TrimPrefix opStr "-") None false in
      match op with
      | None => fail s "no operation specified"
      | Some OpReplace => arReplace s archive members verbose cwd
      | Some OpList => arList s archive members verbose jsonMode
      | Some OpExtract => arExtract s archive members verbose jsonMode cwd
      | Some OpPrint => arPrint s archive members verbose
      | Some OpDelete => arDelete s archive members verbose
      end
  end.
End Ar.
