(* ===== verification/ArLaws.v ===== *)
(** Laws of ar: an archive is a finite map in an order, and an extraction stays in its directory. *)

From S2P Require Import Prelude GoStd Paths Output Fs Ar.

(** ** Replacing *)

Definition name_of (e : arEntry) : string := Name (hdr e).

(** What an archive says of the names. *)
Definition contents (l : list arEntry) : gmap string arEntry := list_to_map ((fun e => (name_of e, e)) <$> l).

(** The index gives the place of every name. *)
Definition indexed (l : list arEntry) (index : gmap string nat) : Prop :=
  NoDup (name_of <$> l) /\ forall n i, index !! n = Some i <-> exists e, l !! i = Some e /\ name_of e = n.

Lemma names_fst l : (fun e => (name_of e, e)) <$> l = zip (name_of <$> l) l.
Proof. induction l as [|e l IH]; [done|]. cbn. by rewrite IH. Qed.

Lemma contents_lookup l n e : NoDup (name_of <$> l) -> contents l !! n = Some e <-> e ∈ l /\ name_of e = n.
Proof.
  intros Hn. unfold contents. rewrite <- elem_of_list_to_map; [|by rewrite <- list_fmap_compose].
  rewrite list_elem_of_fmap. split; [intros (x & [= -> ->] & H); done|]. intros [H <-]. by exists e.
Qed.

Lemma names_inj l i j e e' : NoDup (name_of <$> l) -> l !! i = Some e -> l !! j = Some e' -> name_of e = name_of e' -> i = j.
Proof. intros Hn Hi Hj E. apply (NoDup_lookup _ i j (name_of e) Hn); rewrite list_lookup_fmap; [by rewrite Hi|rewrite Hj; cbn; by rewrite E]. Qed.

Lemma make_index_indexed l : NoDup (name_of <$> l) -> indexed l (make_index l).
Proof.
  intros Hn. split; [done|]. unfold make_index. induction l as [|e l IH] using rev_ind; [cbn; intros n i; rewrite lookup_empty; split; [done|]; by intros (x & H & _); destruct i|].
  rewrite fmap_app in Hn. apply NoDup_app in Hn as (Hl & Hd & _). specialize (IH Hl). rewrite imap_app, foldl_app. cbn [imap foldl].
  set (index := foldl _ _ _) in *. intros n i. rewrite Nat.add_0_r. destruct (decide (n = name_of e)) as [->|Hne].
  - unfold name_of at 1. rewrite lookup_insert_eq. split.
    + intros [= <-]. exists e. split; [by rewrite lookup_app_r, Nat.sub_diag|done].
    + intros (x & Hx & E). f_equal. apply lookup_app_Some in Hx as [Hx|[Hi Hx]].
      * exfalso. apply (Hd (name_of e)); [|by left]. apply list_elem_of_fmap. exists x. split; [done|]. by eapply list_elem_of_lookup_2.
      * apply list_lookup_singleton_Some in Hx as [Hx _]. lia.
  - unfold name_of at 1. rewrite lookup_insert_ne by done. rewrite IH. split.
    + intros (x & Hx & E). exists x. split; [by apply lookup_app_l_Some|done].
    + intros (x & Hx & <-). apply lookup_app_Some in Hx as [Hx|[Hi Hx]]; [by exists x|]. apply list_lookup_singleton_Some in Hx as [_ <-]. done.
Qed.

(** One file: the names stay in their order, and the map is updated. *)
Lemma replace_step_spec l index e : indexed l index ->
  let '(l', index') := replace_step (l, index) e in
  indexed l' index' /\ contents l' = <[name_of e := e]> (contents l) /\ (name_of <$> l') = (name_of <$> l) ++ (if decide (name_of e ∈ name_of <$> l) then [] else [name_of e]).
Proof.
  intros [Hn Hi]. unfold replace_step. fold (name_of e). destruct (index !! name_of e) as [i|] eqn:E.
  - apply Hi in E as (x & Hx & Ex). assert (Hnames : name_of <$> <[i := e]> l = name_of <$> l).
    { rewrite list_fmap_insert. apply list_insert_id. rewrite list_lookup_fmap, Hx. cbn. by rewrite Ex. }
    assert (Hlt := lookup_lt_Some _ _ _ Hx). split; [split; [by rewrite Hnames|]|split].
    + intros n j. rewrite Hi. split; intros (y & Hy & Ey).
      * destruct (decide (i = j)) as [<-|Hne]; [exists e; split; [by apply list_lookup_insert_eq|congruence]|]. exists y. by rewrite list_lookup_insert_ne.
      * destruct (decide (i = j)) as [<-|Hne]; [|exists y; by rewrite list_lookup_insert_ne in Hy]. rewrite list_lookup_insert_eq in Hy by done. injection Hy as <-. exists x. by rewrite <- Ey.
    + apply map_eq. intros n. apply option_eq. intros y. rewrite contents_lookup by (by rewrite Hnames). rewrite lookup_insert_Some. rewrite (contents_lookup l) by done. split.
      * intros [Hy <-]. apply list_elem_of_lookup in Hy as [j Hy]. destruct (decide (i = j)) as [<-|Hne]; [rewrite list_lookup_insert_eq in Hy by done; injection Hy as <-; by left|].
        rewrite list_lookup_insert_ne in Hy by done. right. split; [|split; [by eapply list_elem_of_lookup_2|done]]. intros En. apply Hne. by apply (names_inj l i j x y); [done..|congruence].
      * intros [[<- <-]|(Hne & Hy & <-)]; [split; [|done]; by eapply list_elem_of_lookup_2, list_lookup_insert_eq|]. split; [|done].
        apply list_elem_of_lookup in Hy as [j Hy]. apply (list_elem_of_lookup_2 _ j). rewrite list_lookup_insert_ne; [done|]. intros <-. congruence.
    + rewrite Hnames, decide_True, app_nil_r; [done|]. rewrite <- Ex. apply list_elem_of_fmap. exists x. split; [done|]. by eapply list_elem_of_lookup_2.
  - assert (Hnot : name_of e ∉ name_of <$> l).
    { intros H. apply list_elem_of_fmap in H as (x & Ex & H). apply list_elem_of_lookup in H as [i H]. assert (index !! name_of e = Some i); [|congruence]. apply Hi. by exists x. }
    assert (Hn' : NoDup (name_of <$> l ++ [e])).
    { rewrite fmap_app. apply NoDup_app. split; [done|]. split; [|apply NoDup_singleton]. intros n Hin E'. apply list_elem_of_singleton in E'. by subst. }
    split; [split; [done|]|split].
    + intros n j. rewrite lookup_insert_Some, Hi. split.
      * intros [[<- <-]|(Hne & y & Hy & Ey)]; [exists e; split; [by rewrite lookup_app_r, Nat.sub_diag|done]|]. exists y. split; [by apply lookup_app_l_Some|done].
      * intros (y & Hy & <-). apply lookup_app_Some in Hy as [Hy|[Hj Hy]].
        -- right. split; [|by exists y]. intros En. apply Hnot. rewrite En. apply list_elem_of_fmap. exists y. split; [done|]. by eapply list_elem_of_lookup_2.
        -- apply list_lookup_singleton_Some in Hy as [Hj0 ->]. left. split; [done|lia].
    + apply map_eq. intros n. apply option_eq. intros y. rewrite contents_lookup by done. rewrite lookup_insert_Some, (contents_lookup l) by done. rewrite elem_of_app, list_elem_of_singleton. split.
      * intros [[Hy| ->] <-]; [|by left]. right. split; [|done]. intros En. apply Hnot. rewrite En. apply list_elem_of_fmap. by exists y.
      * intros [[<- <-]|(Hne & Hy & <-)]; [split; [by right|done]|split; [by left|done]].
    + rewrite fmap_app, decide_False by done. done.
Qed.

(** The names that are new, once each. *)
Fixpoint new_names (known : list string) (l : list string) : list string :=
  match l with [] => [] | n :: l => if decide (n ∈ known) then new_names known l else n :: new_names (known ++ [n]) l end.

(** C40: ar r treats an archive as a finite map.  If no name occurs twice, then afterwards none does; every file that was named
    is in the archive under its name, with the data that the last file of the name had; every other entry is as it was; and
    the old entries keep their places, new ones follow in the order of the arguments. *)
Theorem ar_replace_is_insert (entries new : list arEntry) : NoDup (name_of <$> entries) ->
  let result := replace_entries entries new in
  NoDup (name_of <$> result) /\ contents result = foldl (fun m e => <[name_of e := e]> m) (contents entries) new /\
  (name_of <$> result) = (name_of <$> entries) ++ new_names (name_of <$> entries) (name_of <$> new).
Proof.
  intros Hn. unfold replace_entries. pose proof (make_index_indexed entries Hn) as Hi. revert Hi. generalize (make_index entries) as index. clear Hn.
  revert entries. induction new as [|e new IH]; intros l index Hi; cbn [foldl fmap list_fmap new_names fst]; [rewrite app_nil_r; split; [apply Hi|done]|].
  pose proof (replace_step_spec l index e Hi) as H. destruct (replace_step (l, index) e) as [l' index']. destruct H as (H1 & H2 & H3).
  destruct (IH l' index' H1) as (I1 & I2 & I3). split; [exact I1|]. split; [by rewrite I2, H2|]. rewrite I3, H3. rewrite <- app_assoc. f_equal.
  destruct (decide (name_of e ∈ name_of <$> l)); cbn [app]; by rewrite ?app_nil_r.
Qed.

Definition mk (n d : string) : arEntry := {| hdr := {| Name := n; ModTime := 0; Mode := 420; Size := Z.of_nat (String.length d); Uid := 0; Gid := 0 |}; data := d |}.

Lemma ar_replace_is_insert_witness :
  let result := replace_entries [mk "a" "1"; mk "b" "2"] [mk "b" "3"; mk "c" "4"; mk "b" "5"] in
  (data <$> result) = ["1"; "5"; "4"] /\
  NoDup (name_of <$> result) /\ contents result = foldl (fun m e => <[name_of e := e]> m) (contents [mk "a" "1"; mk "b" "2"]) [mk "b" "3"; mk "c" "4"; mk "b" "5"] /\
  (name_of <$> result) = ["a"; "b"] ++ new_names ["a"; "b"] ["b"; "c"; "b"].
Proof.
  intros result. split; [vm_compute; reflexivity|]. apply (ar_replace_is_insert [mk "a" "1"; mk "b" "2"] [mk "b" "3"; mk "c" "4"; mk "b" "5"]).
  apply NoDup_cons. split; [|apply NoDup_singleton]. intros H. apply list_elem_of_singleton in H. discriminate H.
Defined.
