(* ===== verification/Cpio.v ===== *)
(** cpio: the reading side and the pass-through mode of pkg/cpio/cpio.go, on the file system of Fs.v.

    The library that reads the archive formats is a parameter.  Creation is not modelled: what it does
    depends on the checks of that library. *)

From S2P Require Import Prelude GoStd Paths Scanner Output Fs.

Local Open Scope Z_scope.

Record Header := { Name : string; Size : Z; Mode : Z; ModTime : Z }.
Record CpioMember := { m_Name : string; m_Size : Z; m_Mode : Z; m_ModTime : Z }.

Definition member_of (h : Header) : CpioMember := {| m_Name := Name h; m_Size := Size h; m_Mode := uwrap 32 (Mode h); m_ModTime := ModTime h |}.

Record cpio_flags := {
  createMode : bool; extractMode : bool; passMode : bool; listMode : bool; verbose : bool; makeDirs : bool; jsonMode : bool;
  archiveFile : string; Positional : list string }.

(** The modes that are counted, and the complaint. *)
Definition bad_modes (f : cpio_flags) : option string :=
  let n := length (filter (fun b => b = true) [createMode f; extractMode f; passMode f; listMode f]) in
  if (n =? 0)%nat then Some "you must specify one of -oip or -t"
  else if (1 <? n)%nat && negb (listMode f) then Some "only one of -oip may be specified"
  else None.

(** The size of a record of the newc format. *)
Definition padded (n : Z) : Z := Z.ldiff (n + 3) 3.
Definition virtualArchiveSize (name : string) (regular : bool) (size : Z) : Z :=
  padded (110 + (Z.of_nat (String.length name) + 1)) + padded (if regular then size else 0).

Definition blocks (n : Z) : chunk (list CpioMember) := line (FormatInt (Z.quot (n + 511) 512) +:+ " blocks").

Definition type_bits (mode : Z) : Z := Z.land mode 0xF000.
Definition TypeDir : Z := 0x4000.
Definition TypeSymlink : Z := 0xA000.

Section Cpio.
Variable cpio_Reader : string -> list (Header * string) * option string.
Variable errno_text : errno -> string.
(** The mode and the time of a file; the size of what is no regular file. *)
Variable mode_of : list string -> Z.
Variable mtime : list string -> Z.
Variable other_size : ent -> Z.

Record xstate := { disk : fs; members : list CpioMember; shown : list (chunk (list CpioMember)); complaints : list (chunk (list CpioMember)) }.

Definition on_disk (s : fs) (x : xstate) : xstate := {| disk := s; members := members x; shown := shown x; complaints := complaints x |}.
Definition complain (msg : string) (x : xstate) : xstate :=
  {| disk := disk x; members := members x; shown := shown x; complaints := complaints x ++ [line ("cpio: " +:+ msg)] |}.

(** The parents, if they are to be made; an error is not looked at. *)
Definition make_parents (makeDirs : bool) (dest : string) (s : fs) : fs :=
  if makeDirs then ignore_error (MkdirAll s [] (components (Dir dest))) s else s.

Definition TrimRight_nul (s : string) : string := TrimRightSet (fun c => code c =? 0) s.

(** What is made of an entry that is extracted; [inr] ends the run. *)
Definition extract_entry (makeDirs : bool) (dest : string) (h : Header) (data : string) (x : xstate) : xstate + xstate :=
  if type_bits (Mode h) =? TypeDir then
    if makeDirs then
      match MkdirAll (disk x) [] (components dest) with
      | Ok s => inl (on_disk s x)
      | Err e => inl (complain ("mkdir " +:+ dest +:+ ": " +:+ errno_text e) x)
      end
    else inl x
  else if type_bits (Mode h) =? TypeSymlink then
    let s := make_parents makeDirs dest (disk x) in
    let s := ignore_error (Remove s [] (components dest)) s in
    inl (on_disk (ignore_error (Symlink s (TrimRight_nul data) [] (components dest)) s) x)
  else
    let s := make_parents makeDirs dest (disk x) in
    match WriteFile s [] (components dest) true data with
    | Ok s => inl (on_disk s x)
    | Err e => inr (complain (errno_text e) (on_disk s x))
    end.

(** The loop of [cpioExtract]; [inr] is an exit with 1. *)
Fixpoint extract_loop (f : cpio_flags) (cwd : string) (entries : list (Header * string)) (err : option string) (x : xstate) : xstate + xstate :=
  match entries with
  | [] => match err with None => inl x | Some m => inr (complain m x) end
  | (h, data) :: entries =>
      if Name h =s? "TRAILER!!!" then inl x
      else if (match Positional f with [] => false | ps => bool_decide (Name h ∉ ps) end) then extract_loop f cwd entries err x
      else
        let x := {| disk := disk x; members := members x ++ (if jsonMode f then [member_of h] else []);
                    shown := shown x ++ (if (verbose f || listMode f) && negb (jsonMode f) then [line (Name h)] else []); complaints := complaints x |} in
        if listMode f then extract_loop f cwd entries err x
        else
          match extract_entry (makeDirs f) (Join [cwd; Name h]) h data x with
          | inl x => extract_loop f cwd entries err x
          | inr x => inr x
          end
  end.

Record cpio_result := { io : run_io (list CpioMember); after : fs }.

Definition finish (f : cpio_flags) (total : Z) (x : xstate) : cpio_result :=
  {| io := {| rc := 0; out := shown x ++ Render "cpio" (members x) (jsonMode f) []; errs := complaints x ++ (if jsonMode f then [] else [blocks total]) |};
     after := disk x |}.

Definition start (s : fs) : xstate := {| disk := s; members := []; shown := []; complaints := [] |}.

Definition cpioExtract (f : cpio_flags) (cwd data : string) (s : fs) : cpio_result :=
  let '(entries, err) := cpio_Reader data in
  match extract_loop f cwd entries err (start s) with
  | inl x => finish f (Z.of_nat (String.length data)) x
  | inr x => {| io := {| rc := 1; out := shown x; errs := complaints x |}; after := disk x |}
  end.

(** One name of [cpioPass]: the bytes it would take in an archive. *)
Definition pass_one (f : cpio_flags) (dest cwd name : string) (x : xstate) : xstate * Z :=
  let srcPath := if IsAbs name then name else Join [cwd; name] in
  match namei (tree (disk x)) false max_links [] (components srcPath) with
  | Err e => (complain (errno_text e) x, 0)
  | Ok (_, None) => (complain (errno_text ENOENT) x, 0)
  | Ok (loc, Some e) =>
      let destPath := Join [dest; name] in
      let s := ignore_error (MkdirAll (disk x) [] (components (Dir destPath))) (disk x) in
      let x := {| disk := s; members := members x; shown := shown x; complaints := complaints x ++ (if verbose f then [line name] else []) |} in
      let size := match e with EFile i => Z.of_nat (String.length (default "" (content (disk x) !! i))) | _ => other_size e end in
      let regular := match e with EFile _ => true | _ => false end in
      let m := {| m_Name := name; m_Size := size; m_Mode := uwrap 32 (mode_of loc); m_ModTime := mtime loc |} in
      let counted x := ({| disk := disk x; members := members x ++ (if jsonMode f then [m] else []); shown := shown x; complaints := complaints x |},
                        virtualArchiveSize name regular size) in
      match e with
      | EFile i =>
          (* the destination is emptied before the source is read *)
          match WriteFile s [] (components destPath) true "" with
          | Err err => (complain (errno_text err) x, 0)
          | Ok s1 => counted (on_disk (ignore_error (WriteFile s1 [] (components destPath) true (default "" (content s1 !! i))) s1) x)
          end
      | EDir => counted (on_disk (ignore_error (MkdirAll s [] (components destPath)) s) x)
      | ELink _ => counted x
      end
  end.

Fixpoint pass_loop (f : cpio_flags) (dest cwd : string) (names : list string) (x : xstate) (total : Z) : xstate * Z :=
  match names with
  | [] => (x, total)
  | name :: names =>
      if name =s? "" then pass_loop f dest cwd names x total
      else let '(x, n) := pass_one f dest cwd name x in pass_loop f dest cwd names x (total + n)
  end.

Definition cpioPass (f : cpio_flags) (dest cwd stdin : string) (s : fs) : cpio_result :=
  let '(x, total) := pass_loop f dest cwd (fst (scan stdin)) (start s) 0 in
  finish f (total + virtualArchiveSize "TRAILER!!!" true 0) x.

Definition fail (msg : string) (s : fs) : cpio_result := {| io := {| rc := 1; out := []; errs := [line ("cpio: " +:+ msg)] |}; after := s |}.

Definition under (cwd p : string) : string := if IsAbs p then p else Join [cwd; p].

(** [cpioRun] after the options, but for creation, which is [create]. *)
Definition cpioRun (create : cpio_flags -> string -> string -> fs -> cpio_result) (f : cpio_flags) (cwd stdin : string) (s : fs) : cpio_result :=
  match bad_modes f with
  | Some m => fail m s
  | None =>
      if createMode f then create f cwd stdin s
      else
        match (if archiveFile f =s? "" then Ok stdin else ReadFile s [] (components (under cwd (archiveFile f)))) with
        | Err e => fail (errno_text e) s
        | Ok data =>
            if passMode f then
              match Positional f with
              | [] => fail "destination directory required for -p" s
              | dest :: _ => cpioPass f (under cwd dest) cwd stdin s
              end
            else cpioExtract f cwd data s
        end
  end.
End Cpio.

(** ** What it does *)

Definition flags (x p : bool) (ps : list string) : cpio_flags :=
  {| createMode := false; extractMode := x; passMode := p; listMode := false; verbose := false; makeDirs := true; jsonMode := false; archiveFile := ""; Positional := ps |}.

Definition sample_disk : fs := {|
  tree := {[ ["etc"] := EDir; ["etc"; "passwd"] := EFile 0; ["work"] := EDir; ["work"; "f"] := EFile 1; ["work"; "l"] := ELink "f"; ["out"] := EDir ]};
  content := {[ 0%nat := "root"; 1%nat := "text" ]} |}.

Definition extract_of (entries : list (Header * string)) : cpio_result :=
  cpioExtract (fun _ => (entries, None)) (fun _ => "error") (flags true false []) "/work" "data" sample_disk.

Definition pass_of (dest stdin : string) : cpio_result :=
  cpioRun (fun _ => ([], None)) (fun _ => "error") (fun _ => 420) (fun _ => 0) (fun _ => 0) (fun _ _ _ s => fail "" s) (flags false true [dest]) "/work" stdin sample_disk.

(** The name of an entry may lead out of the directory. *)
Theorem cpio_names_escape :
  view_at (after (extract_of [({| Name := "../etc/passwd"; Size := 7; Mode := 0x81A4; ModTime := 0 |}, "changed")])) ["etc"; "passwd"] = Some (VFile (Some "changed")).
Proof. vm_compute. done. Qed.

(** The pass-through mode counts a symbolic link, but does not copy it; and it empties a file that is copied to itself. *)
Theorem cpio_pass_loses :
  rc (io (pass_of "/out" ("l" +:+ nl))) = 0 /\ view_at (after (pass_of "/out" ("l" +:+ nl))) ["out"; "l"] = None /\
  rc (io (pass_of "/work" ("f" +:+ nl))) = 0 /\ view_at (after (pass_of "/work" ("f" +:+ nl))) ["work"; "f"] = Some (VFile (Some "")).
Proof. vm_compute. done. Qed.

(** A directory whose type is none of the bits of the format is extracted as a file. *)
Theorem cpio_go_modes :
  view_at (after (extract_of [({| Name := "d"; Size := 0; Mode := 0x800001ED; ModTime := 0 |}, "")])) ["work"; "d"] = Some (VFile (Some "")).
Proof. vm_compute. done. Qed.
