(* ===== verification/Unzip.v ===== *)
(** unzip: pkg/unzip/unzip.go, on the file system of Fs.v.  The package archive/zip is a parameter. *)

From S2P Require Import Prelude GoStd Paths Scanner Output Fs.

Local Open Scope Z_scope.

(** A file of an archive: what opening and reading it gives - data, then an error or the end. *)
Record ZipFile := { Name : string; UncompressedSize64 : Z; CompressedSize64 : Z; IsDir : bool; Modified : string; reading : result string (string * option string) }.

Record UnzippedFileInfo := { i_Name : string; i_Size : Z; i_CompressedSize : Z; i_IsDir : bool; i_Error : string }.
Inductive unzip_data := HelpText (text : string) | UnzipResult (archive : string) (files : list UnzippedFileInfo).

Record unzip_flags := {
  jsonMode : bool; help : bool; quietMode : bool; stdoutMode : bool; overwriteMode : bool; listMode : bool; testMode : bool;
  dest : option string; Positional : list string }.

(** ** Damaged archives *)

Definition byte_at (buf : string) (i : nat) : Z := match String.get i buf with Some c => code c | None => 0 end.
Definition Uint16 (buf : string) (i : nat) : Z := byte_at buf i + 256 * byte_at buf (S i).

(** The loop of [scanCorruptedZip] over the first 64 KiB. *)
Fixpoint scan_headers (fuel : nat) (buf : string) (i : nat) (firstFile : string) (slashWarn : bool) : string * bool :=
  match fuel with
  | O => (firstFile, slashWarn)
  | S fuel =>
      if (Z.of_nat i <? Z.of_nat (String.length buf) - 30) then
        let signature := (byte_at buf i =? 80) && (byte_at buf (i + 1) =? 75) && (byte_at buf (i + 2) =? 3) &&
                         ((byte_at buf (i + 3) =? 4) || (byte_at buf (i + 3) =? 0)) in
        let nameLen := Uint16 buf (i + 26) in
        let nameEnd := (i + 30 + Z.to_nat nameLen)%nat in
        if negb signature || (String.length buf <? nameEnd)%nat || (nameLen =? 0) then scan_headers fuel buf (S i) firstFile slashWarn
        else
          let name := str_take (Z.to_nat nameLen) (str_drop (i + 30) buf) in
          let slash_ := HasPrefix name "/" in
          let name := if slash_ then str_drop 1 name else name in
          scan_headers fuel buf (nameEnd + Z.to_nat (Uint16 buf (i + 28)))%nat
            (if (firstFile =? "")%string then name else firstFile) (slashWarn || slash_)
      else (firstFile, slashWarn)
  end.
Definition scanCorruptedZip (data : string) : string * bool := let buf := str_take (Z.to_nat 65536) data in scan_headers (String.length buf) buf 0 "" false.

Fixpoint sanitizeFilename (name : string) : string :=
  match name with "" => "" | String c name => String (if (code c <? 32) || (code c =? 127) then "?"%char else c) (sanitizeFilename name) end.

(** ** Extraction *)

Definition info (f : ZipFile) (err : string) : UnzippedFileInfo :=
  {| i_Name := Name f; i_Size := wrap 64 (UncompressedSize64 f); i_CompressedSize := wrap 64 (CompressedSize64 f); i_IsDir := IsDir f; i_Error := err |}.

(** Where a file goes. *)
Definition dest_path (destDir name : string) : string :=
  if HasPrefix name "/" then Clean (Join [destDir; str_drop 1 name]) else Clean (Join [destDir; name]).

(** The guard against names that lead out of the directory. *)
Definition guard (destDir destPath : string) : bool := HasPrefix destPath destDir.

Definition contains (s sub : string) : bool := bool_decide (Index s sub <> None).
Definition isDecompressErr (m : string) : bool :=
  contains m "flate" || contains m "checksum" || contains m "unexpected EOF" || contains m "invalid" || contains m "unsupported compression".

Definition text_ := chunk unzip_data.

Section Unzip.
(** [zip.OpenReader]: the files, or the text of an error. *)
Variable OpenReader : string -> result string (list ZipFile).
Variable errno_text : errno -> string.

Record unzip_result := { io : run_io unzip_data; after : fs }.
Record xstate := { disk : fs; results : list UnzippedFileInfo; shown : list text_; said : list text_; strippedSlash : bool; exitCode : Z }.

Definition strip_message : text_ := line "unzip: removing leading '/' from member names".

(** What is done with a file: the disk, what goes to the standard output, the text of an error. *)
Definition extract_file (f : unzip_flags) (destDir : string) (z : ZipFile) (s : fs) : fs * list text_ * string :=
  match reading z with
  | Err m => (s, [], m)
  | Ok (data, err) =>
      if stdoutMode f then (s, [CText data], default "" err)
      else
        let destPath := dest_path destDir (Name z) in
        if negb (guard destDir destPath) then (s, [], "prevented directory traversal: " +:+ Name z)
        else if IsDir z then
          match MkdirAll s [] (components destPath) with Ok s => (s, [], "") | Err e => (s, [], errno_text e) end
        else
          match MkdirAll s [] (components (Dir destPath)) with
          | Err e => (s, [], errno_text e)
          | Ok s =>
              if (match Stat s [] (components destPath) with Ok _ => true | Err _ => false end) && negb (overwriteMode f) then (s, [], "")
              else
                match WriteFile s [] (components destPath) true data with
                | Err e => (s, [], errno_text e)
                | Ok s => (s, [], default "" err)
                end
          end
  end.

Definition extract_one (f : unzip_flags) (destDir : string) (z : ZipFile) (x : xstate) : xstate :=
  let warn := HasPrefix (Name z) "/" && negb (strippedSlash x) && negb (quietMode f) && negb (jsonMode f) in
  let progress := if negb (quietMode f) && negb (stdoutMode f) && negb (jsonMode f) then [line ("  inflating: " +:+ sanitizeFilename (Name z))] else [] in
  let '(s, o, err) := extract_file f destDir z (disk x) in
  let bad := negb (err =? "")%string in
  let message := if bad && negb (quietMode f) then
                   if isDecompressErr err then [line "unzip: corrupted data"; line "unzip: inflate error"]
                   else [line ("unzip: error extracting " +:+ Name z +:+ ": " +:+ err)]
                 else [] in
  {| disk := s; results := results x ++ [info z err]; shown := shown x ++ progress ++ o;
     said := said x ++ (if warn then [strip_message] else []) ++ message; strippedSlash := strippedSlash x || warn;
     exitCode := if bad then 1 else exitCode x |}.

(** ** The command *)

Definition chosen (filters : list string) (z : ZipFile) : bool := match filters with [] => true | _ => bool_decide (Name z ∈ filters) end.

Definition right (n : nat) (s : string) : string := repeat_char " " (n - String.length s) +:+ s.

Definition list_lines (zs : list ZipFile) : list text_ :=
  let total := wrap 64 (foldr (fun z t => UncompressedSize64 z + t) 0 zs) in
  [line "  Length      Date    Time    Name"; line "---------  ---------- -----   ----"] ++
  ((fun z => line (right 9 (FormatInt (UncompressedSize64 z)) +:+ "  " +:+ Modified z +:+ "   " +:+ Name z)) <$> zs) ++
  [line "---------                     -------";
   line (right 9 (FormatInt total) +:+ "                     " +:+ FormatInt (Z.of_nat (length zs)) +:+ " " +:+ (if (length zs =? 1)%nat then "file" else "files"))].

(** The error of reading a file to its end. *)
Definition reading_error (z : ZipFile) : string := match reading z with Err m => m | Ok (_, err) => default "" err end.

Definition helpText : string :=
  "Usage: unzip [-pqolth] [-d DIR] ZIPFILE [FILE...]" +:+ nl +:+ nl +:+ "Extract files from a ZIP archive." +:+ nl +:+ nl +:+ "Options:" +:+ nl +:+
  "  -p             Extract to stdout (no progress messages)" +:+ nl +:+ "  -q             Quiet mode" +:+ nl +:+
  "  -o             Overwrite existing files without asking" +:+ nl +:+ "  -d DIR         Extract into DIR" +:+ nl +:+
  "  -l             List archive contents" +:+ nl +:+ "  -t             Test archive integrity" +:+ nl +:+ "  -h             Print help".

Definition under (cwd p : string) : string := if IsAbs p then p else Join [cwd; p].

(** The answer to an archive that is damaged. *)
Definition damaged (f : unzip_flags) (zipPath data : string) (report : list text_) : run_io unzip_data :=
  let '(firstFile, slashWarn) := scanCorruptedZip data in
  let firstFile := sanitizeFilename firstFile in
  {| rc := 1;
     out := if negb (quietMode f) && negb (stdoutMode f) && negb (jsonMode f) && negb (firstFile =? "")%string
            then [line ("Archive:  " +:+ zipPath); line ("  inflating: " +:+ firstFile)] else [];
     errs := (if slashWarn && negb (quietMode f) && negb (jsonMode f) then [strip_message] else []) ++ report |}.

Definition inflate_error : list text_ := [line "unzip: corrupted data"; line "unzip: inflate error"].

Definition run (f : unzip_flags) (cwd : string) (s : fs) : unzip_result :=
  if help f then {| io := {| rc := 0; out := Render "unzip" (HelpText helpText) (jsonMode f) [line helpText]; errs := [] |}; after := s |}
  else
    match Positional f with
    | [] => {| io := {| rc := 1; out := []; errs := if jsonMode f then RenderError "unzip" 1 "MISSING_ARGUMENT" "missing ZIPFILE" true else [line "unzip: missing ZIPFILE"] |};
               after := s |}
    | zipPath :: filters =>
        let data := ReadFile s [] (components (under cwd zipPath)) in
        let opened := match data with Ok d => OpenReader d | Err e => Err (errno_text e) end in
        let bytes := match data with Ok d => d | Err _ => "" end in
        match opened with
        | Err m => {| io := damaged f zipPath bytes (if jsonMode f then RenderError "unzip" 1 "OPEN_ERROR" m true else inflate_error); after := s |}
        | Ok files =>
            if (match files with [] => true | _ => false end) && (128 <? Z.of_nat (String.length bytes))
            then {| io := damaged f zipPath bytes (if jsonMode f then [] else inflate_error); after := s |}
            else
              let destDir := match dest f with Some d => under cwd d | None => cwd end in
              let zs := filter (fun z => chosen filters z = true) files in
              let json rs := if jsonMode f then Render "unzip" (UnzipResult zipPath rs) true [] else [] in
              if listMode f then
                {| io := {| rc := 0; out := (if jsonMode f then [] else list_lines zs) ++ json ((fun z => info z "") <$> zs); errs := [] |}; after := s |}
              else if testMode f then
                let bad := existsb (fun z => negb (reading_error z =? "")%string) zs in
                {| io := {| rc := if bad then 1 else 0;
                            out := (if quietMode f then []
                                    else (fun z => line ("  testing: " +:+ Name z +:+ (if (reading_error z =? "")%string then "   OK" else "   failed"))) <$> zs) ++
                                   (if quietMode f || bad then [] else [line ("No errors detected in compressed data of " +:+ zipPath +:+ ".")]) ++
                                   json ((fun z => info z (reading_error z)) <$> zs);
                            errs := [] |}; after := s |}
              else
                let header := if negb (quietMode f) && negb (stdoutMode f) && negb (jsonMode f) then [line ("Archive:  " +:+ zipPath)] else [] in
                let x := foldl (fun x z => extract_one f destDir z x)
                           {| disk := s; results := []; shown := header; said := []; strippedSlash := false; exitCode := 0 |} zs in
                {| io := {| rc := exitCode x; out := shown x ++ json (results x); errs := said x |}; after := disk x |}
        end
    end.
End Unzip.

(** ** What the guard does *)

Definition flags (d : option string) : unzip_flags :=
  {| jsonMode := false; help := false; quietMode := true; stdoutMode := false; overwriteMode := true; listMode := false; testMode := false; dest := d; Positional := ["z"] |}.

Definition plain (name data : string) : ZipFile :=
  {| Name := name; UncompressedSize64 := Z.of_nat (String.length data); CompressedSize64 := 0; IsDir := false; Modified := ""; reading := Ok (data, None) |}.

Definition sample_disk : fs := {|
  tree := {[ ["w"] := EDir; ["w"; "z"] := EFile 0; ["w"; "in"] := EDir; ["w"; "in-other"] := EDir; ["w"; "in-other"; "f"] := EFile 1; ["etc"] := EDir ]};
  content := {[ 0%nat := "zip"; 1%nat := "text" ]} |}.

Definition unzip_of (d : string) (zs : list ZipFile) : unzip_result := run (fun _ => Ok zs) (fun _ => "error") (flags (Some d)) "/w" sample_disk.

(** A name with two dots is refused, a name with a slash in front is taken without it. *)
Example unzip_guards :
  rc (io (unzip_of "in" [plain "../../etc/passwd" "x"])) = 1 /\ view_at (after (unzip_of "in" [plain "../../etc/passwd" "x"])) ["etc"; "passwd"] = None /\
  view_at (after (unzip_of "in" [plain "/etc/passwd" "x"])) ["w"; "in"; "etc"; "passwd"] = Some (VFile (Some "x")).
Proof. vm_compute. done. Qed.

(** The guard compares letters: a directory next to the destination whose name begins the same way is reached. *)
Theorem unzip_sibling_escapes :
  rc (io (unzip_of "in" [plain "../in-other/f" "changed"])) = 0 /\
  view_at (after (unzip_of "in" [plain "../in-other/f" "changed"])) ["w"; "in-other"; "f"] = Some (VFile (Some "changed")).
Proof. vm_compute. done. Qed.

(** A destination that is not written in its shortest form is refused for every file. *)
Theorem unzip_long_destination : rc (io (unzip_of "/w/./in" [plain "f" "x"])) = 1 /\ rc (io (unzip_of "/w/in" [plain "f" "x"])) = 0.
Proof. vm_compute. done. Qed.
