(* ===== verification/Streams.v ===== *)
(** Utilities that read their input once: cat, cmp, nl, rev, split and strings (pkg/cat, pkg/cmp, pkg/nl, pkg/rev, pkg/split,
    pkg/strings).  Operands are looked up in a map of the files that can be opened. *)

From S2P Require Import Prelude GoStd Utf8 Scanner Output.
From S2P Require Select.

Local Open Scope Z_scope.

(** [%*d] and [%*s]: blanks in front up to a width. *)
Definition pad_to (width : Z) (s : string) : string := repeat_char " " (Z.to_nat width - String.length s) +:+ s.

(** [%*d] and [%*s] with the width as an argument. *)
Definition star (width : Z) (s : string) : string :=
  if 1000000 <? Z.abs width then "%!(BADWIDTH)" +:+ s
  else if width <? 0 then s +:+ repeat_char " " (Z.to_nat (- width) - String.length s) else pad_to width s.

(** Digits in a base up to 16. *)
Fixpoint digits (fuel : nat) (base n : Z) : string :=
  match fuel with
  | O => ""
  | S fuel => (if n <? base then "" else digits fuel base (n / base)) +:+ String (chr (let d := n mod base in if d <? 10 then 48 + d else 87 + d)) ""
  end.
Definition FormatBase (n base : Z) : string := digits 64 base n.

(** * cmp *)

Module Cmp.
Record CmpResult := { Equal : bool; BytePos : Z; LineNum : Z; Val1 : Z; Val2 : Z }.
Record DiffEntry := { Byte : Z; Line : Z }.

(** The loop of [Compare]: the differences so far, the position and the line. *)
Fixpoint compare_loop (d1 d2 : string) (bytePos lineNum : Z) (verbose : bool) : list DiffEntry * bool :=
  match d1, d2 with
  | String a d1, String b d2 =>
      let lineNum := if code a =? 10 then lineNum + 1 else lineNum in
      if negb (a =c? b) then
        if verbose then let '(ds, _) := compare_loop d1 d2 (bytePos + 1) lineNum verbose in ({| Byte := bytePos + 1; Line := lineNum |} :: ds, false)
        else ([{| Byte := bytePos + 1; Line := lineNum |}], false)
      else compare_loop d1 d2 (bytePos + 1) lineNum verbose
  | "", "" => ([], true)
  | _, _ => ([{| Byte := bytePos + 1; Line := lineNum |}], false)
  end.

Definition limited (limit : Z) (d : string) : string := str_take (Z.to_nat limit) d.
Definition Compare (d1 d2 : string) (limit : Z) (verbose : bool) : list DiffEntry * bool :=
  if 0 <? limit then compare_loop (limited limit d1) (limited limit d2) 0 1 verbose else compare_loop d1 d2 0 1 verbose.

(** The loop of [cmpRun]: the first difference, with its bytes unless an input ends there. *)
Fixpoint first_difference (d1 d2 : string) (bytePos lineNum : Z) : option (Z * Z * option (Z * Z)) :=
  match d1, d2 with
  | String a d1, String b d2 =>
      let lineNum := if code a =? 10 then lineNum + 1 else lineNum in
      if negb (a =c? b) then Some (bytePos + 1, lineNum, Some (code a, code b)) else first_difference d1 d2 (bytePos + 1) lineNum
  | "", "" => None
  | _, _ => Some (bytePos + 1, lineNum, None)
  end.

Record cmp_flags := { jsonMode : bool; silent : bool; listMode : bool; n_arg : string; operands : list string }.

Definition limit_of (f : cmp_flags) : Z := if n_arg f =s? "" then -1 else match Atoi (n_arg f) with Some v => v | None => -1 end.

Definition bad (msg : string) : run_io CmpResult := {| rc := 2; out := []; errs := [line ("cmp: " +:+ msg)] |}.

(** The two inputs; the standard input is read once for both. *)
Definition read_operand (files : gmap string string) (stdin path : string) : option string := if path =s? "-" then Some stdin else files !! path.

Definition report (f : cmp_flags) (f1 f2 : string) (d : option (Z * Z * option (Z * Z))) : run_io CmpResult :=
  match d with
  | None =>
      {| rc := 0; out := if jsonMode f then Render "cmp" {| Equal := true; BytePos := 0; LineNum := 0; Val1 := 0; Val2 := 0 |} true [] else []; errs := [] |}
  | Some (pos, ln, vals) =>
      let '(v1, v2) := default (0, 0) vals in
      let json := Render "cmp" {| Equal := false; BytePos := pos; LineNum := ln; Val1 := v1; Val2 := v2 |} true [] in
      if jsonMode f then {| rc := 1; out := json; errs := [] |}
      else if silent f then {| rc := 1; out := []; errs := [] |}
      else
        match vals with
        | Some _ =>
            {| rc := 1; errs := [];
               out := [line (if listMode f then FormatInt pos +:+ " " +:+ FormatBase v1 8 +:+ " " +:+ FormatBase v2 8
                             else f1 +:+ " " +:+ f2 +:+ " differ: byte " +:+ FormatInt pos +:+ ", line " +:+ FormatInt ln)] |}
        | None => {| rc := 1; out := []; errs := [line ("cmp: EOF on " +:+ f2)] |}
        end
  end.

Definition cmpRun (open_error : string -> string) (files : gmap string string) (f : cmp_flags) (stdin : string) : run_io CmpResult :=
  match operands f with
  | f1 :: f2 :: _ =>
      match read_operand files stdin f1 with
      | None => bad (f1 +:+ ": " +:+ open_error f1)
      | Some d1 =>
          match read_operand files stdin f2 with
          | None => bad (f2 +:+ ": " +:+ open_error f2)
          | Some d2 =>
              let cut d := if 0 <=? limit_of f then limited (limit_of f) d else d in
              report f f1 f2 (first_difference (cut d1) (cut d2) 0 1)
          end
      end
  | _ => bad "missing operand"
  end.
End Cmp.

(** * nl *)

Module Nl.
Record NlLine := { Number : Z; Text : string }.

Record nl_flags := { jsonMode : bool; b_arg : string; v_arg : string; w_arg : string; operands : list string }.

Definition bodyType (f : nl_flags) : string := if b_arg f =s? "" then "t" else b_arg f.
Definition startNum (f : nl_flags) : Z := if v_arg f =s? "" then 1 else default 1 (Atoi (v_arg f)).
Definition width (f : nl_flags) : Z := if w_arg f =s? "" then 6 else match Atoi (w_arg f) with Some n => if 0 <? n then n else 6 | None => 6 end.

(** Whether a line gets a number. *)
Definition numbered (bodyType line : string) : bool := (bodyType =s? "a") || ((bodyType =s? "t") && negb (TrimSpace line =s? "")).

Fixpoint number_lines (bodyType : string) (num : Z) (lines : list string) : list NlLine :=
  match lines with
  | [] => []
  | l :: lines =>
      let n := numbered bodyType l in
      {| Number := if n then num else 0; Text := l |} :: number_lines bodyType (if n then wrap 64 (num + 1) else num) lines
  end.

(** The lines of [NumberLines]. *)
Fixpoint NumberLines (bodyType : string) (num width : Z) (lines : list string) : list string :=
  match lines with
  | [] => []
  | l :: lines =>
      (if numbered bodyType l then star width (FormatInt num) +:+ String "009" l
       else if (bodyType =s? "t") || (bodyType =s? "n") then star (width + 1) "" +:+ l else "") ::
      NumberLines bodyType (if numbered bodyType l then wrap 64 (num + 1) else num) width lines
  end.

(** A number that is not positive is taken for none. *)
Definition format_line (width : Z) (l : NlLine) : string :=
  if 0 <? Number l then star width (FormatInt (Number l)) +:+ String "009" (Text l) else star (width + 1) "" +:+ Text l.

Definition nlRun (open_error : string -> string) (files : gmap string string) (f : nl_flags) (stdin : string) : run_io (list NlLine) :=
  match (match operands f with [] => Ok stdin | p :: _ => match files !! p with Some d => Ok d | None => Err p end end) with
  | Err p => {| rc := 1; out := []; errs := [line ("nl: " +:+ open_error p)] |}
  | Ok data =>
      let result := number_lines (bodyType f) (startNum f) (fst (scan data)) in
      {| rc := 0; out := if jsonMode f then Render "nl" result true [] else (fun l => line (format_line (width f) l)) <$> result; errs := [] |}
  end.
End Nl.

(** * rev *)

Module Rev.
Definition reverseRunes (s : string) : string := string_of_runes (rev (runes s)).

(** The reads up to a newline, which they keep. *)
Fixpoint ReadBytes_all (cur s : string) : list string :=
  match s with
  | "" => if cur =s? "" then [] else [cur]
  | String c s => if code c =? 10 then (cur +:+ String c "") :: ReadBytes_all "" s else ReadBytes_all (cur +:+ String c "") s
  end.

Definition not_nul (c : ascii) : bool := negb (code c =? 0).

(** A line up to its first NUL byte, reversed, and whether it ends with a newline. *)
Definition rev_line (lineBytes : string) : string * bool :=
  let cBytes := fst (str_span not_nul lineBytes) in
  let hasNL := HasSuffix cBytes nl in
  let cBytes := if hasNL then drop_cr (TrimSuffix cBytes nl) else cBytes in
  (reverseRunes cBytes, hasNL).

Definition rev_data (data : string) : list (string * bool) := rev_line <$> ReadBytes_all "" data.

(** The operands in turn; the standard input is read once. *)
Fixpoint rev_files (open_error : string -> string) (files : gmap string string) (paths : list string) (stdin : string)
    : list (string * bool) * list (chunk (list string)) * Z :=
  match paths with
  | [] => ([], [], 0)
  | p :: paths =>
      match (if p =s? "-" then Some stdin else files !! p) with
      | Some data =>
          let '(ls, es, c) := rev_files open_error files paths (if p =s? "-" then "" else stdin) in (rev_data data ++ ls, es, c)
      | None =>
          let '(ls, es, _) := rev_files open_error files paths stdin in (ls, line ("rev: " +:+ p +:+ ": " +:+ open_error p) :: es, 1)
      end
  end.

Definition run (open_error : string -> string) (files : gmap string string) (jsonMode : bool) (operands : list string) (stdin : string) : run_io (list string) :=
  let '(ls, es, c) := rev_files open_error files (match operands with [] => ["-"] | _ => operands end) stdin in
  {| rc := c; out := if jsonMode then Render "rev" (fst <$> ls) true [] else (fun x => CText (fst x +:+ (if (snd x : bool) then nl else ""))) <$> ls; errs := es |}.
End Rev.

(** * strings *)

Module Strings.
Record StringEntry := { Offset : Z; Value : string }.

Definition isPrintable (b : ascii) : bool := ((0x20 <=? code b) && (code b <=? 0x7E)) || (code b =? 9).

Definition flush (minLen : Z) (run : string) (runStart : Z) : list StringEntry :=
  if minLen <=? Z.of_nat (String.length run) then [{| Offset := runStart; Value := run |}] else [].

(** The loop of [Scan] and of [stringsRun]. *)
Fixpoint scan_runs (minLen : Z) (i : Z) (run : string) (runStart : Z) (data : string) : list StringEntry :=
  match data with
  | "" => flush minLen run runStart
  | String b data =>
      if isPrintable b then scan_runs minLen (i + 1) (run +:+ String b "") (if runStart <? 0 then i else runStart) data
      else flush minLen run runStart ++ scan_runs minLen (i + 1) "" (-1) data
  end.
Definition Scan (data : string) (minLen : Z) : list StringEntry := scan_runs minLen 0 "" (-1) data.

Definition FormatOffset (offset : Z) (radix : ascii) : string :=
  if radix =c? "x" then FormatBase offset 16 else if radix =c? "o" then FormatBase offset 8 else FormatInt offset.

Record strings_flags := { jsonMode : bool; n_arg : string; t_arg : string; printName : bool; operands : list string }.

Definition minLen (f : strings_flags) : Z := if n_arg f =s? "" then 4 else match Atoi (n_arg f) with Some v => if 0 <? v then v else 4 | None => 4 end.

Definition entry_line (f : strings_flags) (e : StringEntry) : string :=
  (if t_arg f =s? "x" then pad_to 7 (FormatBase (Offset e) 16) +:+ " "
   else if t_arg f =s? "d" then pad_to 7 (FormatInt (Offset e)) +:+ " "
   else if t_arg f =s? "o" then pad_to 7 (FormatBase (Offset e) 8) +:+ " " else "") +:+
  (match operands f with p :: _ => if printName f then p +:+ ": " else "" | [] => "" end) +:+ Value e.

(** A file that cannot be read counts as empty. *)
Definition stringsRun (files : gmap string string) (f : strings_flags) (stdin : string) : run_io (list StringEntry) :=
  let data := match operands f with [] => stdin | ps => sconcat ((fun p => default "" (files !! p)) <$> ps) end in
  let entries := Scan data (minLen f) in
  {| rc := 0; out := if jsonMode f then Render "strings" entries true [] else (fun e => line (entry_line f e)) <$> entries; errs := [] |}.
End Strings.

(** * cat *)

Module Cat.
Definition visByte (b : ascii) : string :=
  let low c := if (code c =? 9) || (code c =? 10) then String c ""
               else if code c <? 0x20 then String "^" (String (chr (code c + 0x40)) "")
               else if code c =? 0x7F then "^?" else String c "" in
  if code b <? 0x80 then low b else "M-" +:+ low (chr (code b - 0x80)).

Fixpoint visLine (l : string) (showEnd : bool) : string :=
  match l with "" => if showEnd then "$" else "" | String b l => visByte b +:+ visLine l showEnd end.

Record cat_flags := { numberAll : bool; numberNonBlank : bool; squeezeBlank : bool; showEnds : bool; showNonPrinting : bool; jsonMode : bool; operands : list string }.

Fixpoint cat_lines (f : cat_flags) (lineNum : Z) (prevBlank : bool) (lines : list string) : list string :=
  match lines with
  | [] => []
  | l :: lines =>
      let isBlank := TrimSpace l =s? "" in
      if squeezeBlank f && isBlank && prevBlank then cat_lines f lineNum prevBlank lines
      else
        let counted := numberAll f || (numberNonBlank f && negb isBlank) in
        let lineNum := if counted then lineNum + 1 else lineNum in
        ((if counted then pad_to 6 (FormatInt lineNum) +:+ String "009" "" else "") +:+ l) :: cat_lines f lineNum isBlank lines
  end.

(** [Run]: the lines, and whether one is too long; the numbers begin anew. *)
Definition cat_Run (f : cat_flags) (data : string) : list string * bool :=
  let '(lines, e) := scan data in (cat_lines f 0 false lines, e).

(** The inputs; [inr] is the operand that cannot be opened. *)
Fixpoint readers (files : gmap string string) (paths : list string) (stdin : string) : list string + string :=
  match paths with
  | [] => inl []
  | p :: paths =>
      match (if p =s? "-" then Some stdin else files !! p) with
      | None => inr p
      | Some d => match readers files paths (if p =s? "-" then "" else stdin) with inl ds => inl (d :: ds) | inr e => inr e end
      end
  end.

(** The inputs in turn, up to a line that is too long. *)
Fixpoint in_turn (step : string -> list string * bool) (inputs : list string) : list string * bool :=
  match inputs with
  | [] => ([], false)
  | d :: inputs => let '(ls, e) := step d in if e then (ls, true) else let '(r, e) := in_turn step inputs in (ls ++ r, e)
  end.

Definition vis_step (f : cat_flags) (data : string) : list string * bool := let '(lines, e) := scan data in ((fun l => visLine l (showEnds f)) <$> lines, e).

Definition catRun (open_error : string -> string) (files : gmap string string) (f : cat_flags) (stdin : string) : run_io (list string) :=
  let inputs := match operands f with [] => inl [stdin] | ps => readers files ps stdin end in
  let failed e := if (e : bool) then [line ("cat: " +:+ Select.too_long)] else [] in
  match inputs with
  | inr p => {| rc := 1; out := []; errs := [line ("cat: " +:+ p +:+ ": " +:+ open_error p)] |}
  | inl ds =>
      if jsonMode f then
        let '(ls, e) := in_turn (cat_Run f) ds in {| rc := if e then 1 else 0; out := if e then [] else Render "cat" ls true []; errs := failed e |}
      else if negb (numberAll f) && negb (numberNonBlank f) && negb (squeezeBlank f) && negb (showNonPrinting f) && negb (showEnds f) then
        {| rc := 0; out := CText <$> ds; errs := [] |}
      else
        let '(ls, e) := in_turn (if showNonPrinting f || showEnds f then vis_step f else cat_Run f) ds in
        {| rc := if e then 1 else 0; out := line <$> ls; errs := failed e |}
  end.
End Cat.

(** * split *)

Module Split.
Record SplitResult := { Files : list string; Chunks : Z }.

Section Split.
(** [strings.ToLower]; why a file cannot be created. *)
Variable ToLower : string -> string.
Variable create_error : string -> option string.

Definition drop_last (n : nat) (s : string) : string := str_take (String.length s - n) s.

Definition parseSize (s : string) : option Z :=
  let s := ToLower s in
  let '(multiplier, s) :=
    if HasSuffix s "k" then (1024, drop_last 1 s)
    else if HasSuffix s "kb" then (1000, drop_last 2 s)
    else if HasSuffix s "m" then (1024 * 1024, drop_last 1 s)
    else if HasSuffix s "mb" then (1000 * 1000, drop_last 2 s)
    else if HasSuffix s "g" then (1024 * 1024 * 1024, drop_last 1 s)
    else (1, s) in
  (fun n => wrap 64 (n * multiplier)) <$> ParseInt s.

(** Letters: the last [suffixLen] digits in base 26. *)
Fixpoint letters (len : nat) (n : Z) : string :=
  match len with O => "" | S len => letters len (n / 26) +:+ String (chr (97 + n mod 26)) "" end.

Definition generateSuffix (n : Z) (suffixLen : nat) (numeric : bool) : string :=
  if numeric && (1000000 <? Z.of_nat suffixLen / 10) then "%!(NOVERB)%!(EXTRA int=" +:+ FormatInt n +:+ ")"
  else if numeric then let s := FormatInt n in repeat_char "0" (suffixLen - String.length s) +:+ s else letters suffixLen n.

Definition overflows (n : Z) (suffixLen : nat) (numeric : bool) : bool := (suffixLen <? String.length (generateSuffix n suffixLen numeric))%nat.

(** What a run has written: the files in the order they were created, with their contents, and the number of chunks. *)
Record output := { written : list (string * string); named : list string; chunkIdx : Z; failure : option string }.

Definition chunk_name (prefix : string) (n : Z) (suffixLen : nat) (numeric : bool) : string := prefix +:+ generateSuffix n suffixLen numeric.

Definition cannot_create (fn e : string) : string := "cannot create " +:+ fn +:+ ": " +:+ e.

(** By bytes: an input that ends with a chunk gives one more file, which is empty. *)
Fixpoint split_bytes (fuel : nat) (prefix : string) (bytesPerFile : nat) (suffixLen : nat) (numeric filter_ : bool) (idx : Z) (data : string) : output :=
  match fuel with
  | O => {| written := []; named := []; chunkIdx := idx; failure := None |}
  | S fuel =>
      if overflows idx suffixLen numeric then {| written := []; named := []; chunkIdx := idx; failure := None |}
      else
        let fn := chunk_name prefix idx suffixLen numeric in
        match (if filter_ then None else create_error fn) with
        | Some e => {| written := []; named := []; chunkIdx := idx; failure := Some (cannot_create fn e) |}
        | None =>
            let r := if (String.length data <? bytesPerFile)%nat then {| written := []; named := []; chunkIdx := idx + 1; failure := None |}
                     else split_bytes fuel prefix bytesPerFile suffixLen numeric filter_ (idx + 1) (str_drop bytesPerFile data) in
            if filter_ then r
            else {| written := (fn, str_take bytesPerFile data) :: written r; named := fn :: named r; chunkIdx := chunkIdx r; failure := failure r |}
        end
  end.

(** By lines: the lines of the chunks. *)
Fixpoint line_chunks (linesPerFile currentLines : Z) (cur : list string) (lines : list string) : list (list string) :=
  match lines with
  | [] => [cur]
  | l :: lines =>
      if linesPerFile <=? currentLines then cur :: line_chunks linesPerFile 1 [l] lines
      else line_chunks linesPerFile (currentLines + 1) (cur ++ [l]) lines
  end.

Fixpoint write_chunks (prefix : string) (suffixLen : nat) (numeric filter_ : bool) (idx : Z) (too_long : bool) (chunks : list (list string)) : output :=
  match chunks with
  | [] => {| written := []; named := []; chunkIdx := if too_long then idx - 1 else idx; failure := if too_long then Some Select.too_long else None |}
  | c :: chunks =>
      if overflows idx suffixLen numeric then {| written := []; named := []; chunkIdx := idx; failure := Some "suffix overflow" |}
      else
        let fn := chunk_name prefix idx suffixLen numeric in
        match (if filter_ then None else create_error fn) with
        | Some e => {| written := []; named := []; chunkIdx := idx; failure := Some (cannot_create fn e) |}
        | None =>
            let r := write_chunks prefix suffixLen numeric filter_ (idx + 1) too_long chunks in
            {| written := (if filter_ then [] else [(fn, text_of_lines c)]) ++ written r; named := fn :: named r; chunkIdx := chunkIdx r; failure := failure r |}
        end
  end.

Definition Run (data prefix : string) (linesPerFile bytesPerFile : Z) (suffixLen : nat) (numeric : bool) (filter_ : string) : output :=
  let linesPerFile := if (linesPerFile <=? 0) && (bytesPerFile <=? 0) then 1000 else linesPerFile in
  let discard := negb (filter_ =? "")%string in
  if 0 <? bytesPerFile then split_bytes (S (String.length data)) prefix (Z.to_nat bytesPerFile) suffixLen numeric discard 0 data
  else let '(lines, e) := scan data in write_chunks prefix suffixLen numeric discard 0 e (line_chunks linesPerFile 0 [] lines).

Record split_flags := { l_arg : option string; b_arg : option string; a_arg : option string; numeric_ : bool; filter_arg : string; jsonMode : bool; operands : list string }.

Definition size_of (arg : option string) : Z := match arg with Some s => default 0 (parseSize s) | None => 0 end.

Record split_run := { io : run_io SplitResult; files_after : gmap string string }.

(** The command; a file that is created again loses what it had.  The input is read before the files are written: it is not one of them. *)
Definition run (open_error : string -> string) (f : split_flags) (files : gmap string string) (stdin : string) : split_run :=
  let suffixLen := match a_arg f with Some a => match Atoi a with Some n => if 0 <? n then Z.to_nat n else 2%nat | None => 2%nat end | None => 2%nat end in
  let prefix := match operands f with [] => "x" | [p] => if p =s? "-" then "x" else "" | _ :: prefix :: _ => prefix end in
  let fail e := [line ("split: " +:+ e)] in
  match (match operands f with p :: _ => if p =s? "-" then Ok stdin else match files !! p with Some d => Ok d | None => Err (open_error p) end | [] => Ok stdin end) with
  | Err e => {| io := {| rc := 1; out := RenderError "split" 1 "EOPEN" e (jsonMode f); errs := fail e |}; files_after := files |}
  | Ok data =>
      let r := Run data prefix (size_of (l_arg f)) (size_of (b_arg f)) suffixLen (numeric_ f) (filter_arg f) in
      let after := foldl (fun m '(fn, d) => <[fn := d]> m) files (written r) in
      match failure r with
      | Some e => {| io := {| rc := 1; out := RenderError "split" 1 "ESPLIT" e (jsonMode f); errs := fail e |}; files_after := after |}
      | None => {| io := {| rc := 0; out := Render "split" {| Files := named r; Chunks := chunkIdx r |} (jsonMode f) []; errs := [] |}; files_after := after |}
      end
  end.
End Split.
End Split.
