(* ===== verification/StreamsLaws.v ===== *)
(** Laws of split, rev and cmp, and what the utilities of Streams.v do at their bounds. *)

From S2P Require Import Prelude GoStd Utf8 Utf8Laws Scanner Lines Output Streams.

Local Open Scope Z_scope.

(** * split *)

Lemma snoc_inj s t a b : s +:+ String a "" = t +:+ String b "" -> s = t /\ a = b.
Proof.
  revert t. induction s as [|x s IH]; intros [|y t] E.
  - by injection E as ->.
  - injection E as _ E. by destruct t.
  - injection E as _ E. by destruct s.
  - injection E as -> E. apply IH in E as [-> ->]. done.
Qed.

Lemma letters_length len : forall n, String.length (Split.letters len n) = len.
Proof. induction len as [|len IH]; intros n; [done|]. cbn [Split.letters]. rewrite slength_app, IH. cbn. lia. Qed.

Lemma letters_inj len : forall n m, 0 <= n < 26 ^ Z.of_nat len -> 0 <= m < 26 ^ Z.of_nat len -> Split.letters len n = Split.letters len m -> n = m.
Proof.
  induction len as [|len IH]; intros n m Hn Hm; cbn [Split.letters]; [intros _; change (26 ^ Z.of_nat 0) with 1 in *; lia|].
  rewrite Nat2Z.inj_succ, Z.pow_succ_r in Hn, Hm by lia. intros E. apply snoc_inj in E as [E Ec]. apply IH in E; [|split; [apply Z.div_pos; lia|apply Z.div_lt_upper_bound; lia]..].
  assert (Hc : n mod 26 = m mod 26).
  { pose proof (Z.mod_pos_bound n 26 ltac:(lia)). pose proof (Z.mod_pos_bound m 26 ltac:(lia)). apply (f_equal code) in Ec. rewrite !code_chr in Ec by lia. lia. }
  rewrite (Z.div_mod n 26), (Z.div_mod m 26) by lia. by rewrite E, Hc.
Qed.

Lemma alpha_fits n len : Split.overflows n len false = false.
Proof. unfold Split.overflows, Split.generateSuffix. cbn [andb]. rewrite letters_length. apply Nat.ltb_ge. lia. Qed.

Lemma split_bytes_spec prefix k len fuel : (0 < k)%nat -> forall idx data, (String.length data < fuel)%nat ->
  let r := Split.split_bytes (fun _ => None) fuel prefix k len false false idx data in
  Split.named r = (Split.written r).*1 /\ sconcat (Split.written r).*2 = data /\ Split.failure r = None /\
  (Split.written r).*1 = (fun i => Split.chunk_name prefix (idx + Z.of_nat i) len false) <$> seq 0 (S (String.length data / k)).
Proof.
  intros Hk. induction fuel as [|fuel IH]; intros idx data Hf; [lia|]. cbn [Split.split_bytes]. rewrite alpha_fits.
  destruct (Nat.ltb_spec (String.length data) k) as [Hlt|Hge].
  - cbn. rewrite Nat.div_small by done. split; [done|]. split; [|split; [done|]; cbn; by rewrite Z.add_0_r]. rewrite sapp_nil_r. apply str_take_ge. lia.
  - assert (Hlen : String.length (str_drop k data) = (String.length data - k)%nat).
    { pose proof (f_equal String.length (str_take_drop k data)) as H. rewrite slength_app in H.
      assert (String.length (str_take k data) = k); [|lia]. clear -Hge. revert data Hge. induction k as [|k IH]; intros [|c s] H; cbn in *; [done..|lia|]. by rewrite IH by lia. }
    destruct (IH (idx + 1) (str_drop k data)) as (H1 & H2 & H3 & H4); [lia|]. cbn [Split.written Split.named Split.failure fmap list_fmap fst snd].
    split; [by rewrite H1|]. split; [rewrite sconcat_cons, H2; apply str_take_drop|]. split; [done|]. rewrite H4, Hlen.
    replace (String.length data / k)%nat with (S ((String.length data - k) / k)).
    2:{ replace (String.length data) with (String.length data - k + 1 * k)%nat at 2 by lia. rewrite Nat.div_add by lia. lia. }
    generalize (S ((String.length data - k) / k)). intros q. cbn [seq fmap list_fmap]. rewrite Z.add_0_r. f_equal. rewrite <- fmap_S_seq, <- list_fmap_compose.
    apply list_fmap_ext. intros i x _. cbn. f_equal. lia.
Qed.
(** What is written last under a name is what is there. *)
Lemma insert_all_lookup (w : list (string * string)) : NoDup w.*1 -> forall (m : gmap string string),
  (fun fn => default "" (foldl (fun m '(fn, d) => <[fn := d]> m) m w !! fn)) <$> w.*1 = w.*2.
Proof.
  induction w as [|[fn d] w IH]; intros Hn m; [done|]. cbn [fmap list_fmap fst snd foldl]. apply NoDup_cons in Hn as [Hfn Hn].
  f_equal; [|by apply IH].
  assert (H : forall (w : list (string * string)) m, fn ∉ w.*1 -> foldl (fun (m : gmap string string) '(fn, d) => <[fn := d]> m) m w !! fn = m !! fn).
  { clear. induction w as [|[g d] w IH]; intros m H; [done|]. cbn in *. apply not_elem_of_cons in H as [H1 H2]. rewrite IH by done. by rewrite lookup_insert_ne. }
  rewrite H by done. by rewrite lookup_insert_eq.
Qed.

Lemma chunk_names_NoDup prefix len q : Z.of_nat q <= 26 ^ Z.of_nat len ->
  NoDup ((fun i => Split.chunk_name prefix (0 + Z.of_nat i) len false) <$> seq 0 q).
Proof.
  intros Hq. apply NoDup_fmap_2_strong; [|apply NoDup_seq]. intros i j Hi Hj E. apply elem_of_seq in Hi, Hj.
  unfold Split.chunk_name, Split.generateSuffix in E. cbn [andb] in E. assert (Hp : forall s t u, s +:+ t = s +:+ u -> t = u).
  { clear. induction s as [|c s IH]; intros t u E; [done|]. rewrite !sapp_cons in E. injection E as E. by apply IH. }
  apply Hp, letters_inj in E; lia.
Qed.

(** split loses nothing.  By bytes, with enough suffixes for the chunks, the files that split -b names, one after the other, are the input;
    and every one of them is a different file. *)
Theorem split_then_cat (f : Split.split_flags) (ToLower : string -> string) (open_error : string -> string) (files : gmap string string) (stdin k suffix : string) (size : Z) (len : nat) :
  Split.operands f = [] -> Split.l_arg f = None -> Split.b_arg f = Some k -> Split.parseSize ToLower k = Some size -> 0 < size ->
  Split.a_arg f = Some suffix -> Atoi suffix = Some (Z.of_nat len) -> (0 < len)%nat -> Split.numeric_ f = false -> Split.filter_arg f = "" -> Split.jsonMode f = true ->
  Z.of_nat (String.length stdin) / size < 26 ^ Z.of_nat len ->
  let r := Split.run ToLower (fun _ => None) open_error f files stdin in
  exists names n, rc (Split.io r) = 0 /\ out (Split.io r) = Render "split" {| Split.Files := names; Split.Chunks := n |} true [] /\ NoDup names /\
    sconcat ((fun fn => default "" (Split.files_after r !! fn)) <$> names) = stdin.
Proof.
  intros Ho Hl Hb Hs Hsz Ha Hai Hlen Hnum Hfi Hj Hfit r. subst r. unfold Split.run. rewrite Ho, Hl, Hb, Ha, Hai, Hnum, Hfi, Hj. cbn [Split.size_of].
  rewrite Hs. cbn [default]. change (id size) with size. destruct (Z.ltb_spec 0 (Z.of_nat len)); [|lia]. rewrite Nat2Z.id. unfold Split.Run. change (id size) with size. cbn [String.eqb negb].
  destruct (Z.ltb_spec 0 size); [|lia].
  pose proof (split_bytes_spec "x" (Z.to_nat size) len (S (String.length stdin)) ltac:(lia) 0 stdin ltac:(lia)) as (H1 & H2 & H3 & H4). cbv zeta in *.
  set (o := Split.split_bytes _ _ _ _ _ _ _ _ _) in *. rewrite H3. exists (Split.named o), (Split.chunkIdx o). cbn [Split.io Split.files_after rc out].
  assert (Hn : NoDup (Split.written o).*1).
  { rewrite H4. apply chunk_names_NoDup. rewrite Nat2Z.inj_succ, Nat2Z.inj_div, Z2Nat.id by lia. lia. }
  split; [done|]. split; [done|]. rewrite H1. split; [done|]. by rewrite insert_all_lookup.
Qed.

Lemma split_then_cat_witness :
  let f := {| Split.l_arg := None; Split.b_arg := Some "2"; Split.a_arg := Some "1"; Split.numeric_ := false; Split.filter_arg := ""; Split.jsonMode := true; Split.operands := [] |} in
  let r := Split.run id (fun _ => None) id f ∅ "abcde" in
  map_to_list (Split.files_after r) = [("xc", "e"); ("xa", "ab"); ("xb", "cd")] /\
  exists names n, rc (Split.io r) = 0 /\ out (Split.io r) = Render "split" {| Split.Files := names; Split.Chunks := n |} true [] /\ NoDup names /\
    sconcat ((fun fn => default "" (Split.files_after r !! fn)) <$> names) = "abcde".
Proof.
  intros f r. split; [vm_compute; reflexivity|].
  apply (split_then_cat f id id ∅ "abcde" "2" "1" 2 1); try reflexivity; lia.
Defined.

(** By letters the names begin again after the last one: the file of an earlier chunk is written over, with exit code 0. *)
Theorem split_writes_over :
  let f l := {| Split.l_arg := l; Split.b_arg := None; Split.a_arg := Some "1"; Split.numeric_ := false; Split.filter_arg := ""; Split.jsonMode := false; Split.operands := [] |} in
  let input := text_of_lines (FormatInt ∘ Z.of_nat <$> seq 1 27) in
  let r := Split.run id (fun _ => None) id (f (Some "1")) ∅ input in
  rc (Split.io r) = 0 /\ Split.files_after r !! "xa" = Some ("27" +:+ nl) /\ size (Split.files_after r) = 26%nat.
Proof. vm_compute. done. Qed.

(** By digits and bytes the rest of the input is dropped when the names run out, with exit code 0; an input that ends with a chunk
    gives an empty file more. *)
Theorem split_drops_rest :
  let f b := {| Split.l_arg := None; Split.b_arg := Some b; Split.a_arg := Some "1"; Split.numeric_ := true; Split.filter_arg := ""; Split.jsonMode := false; Split.operands := [] |} in
  let r := Split.run id (fun _ => None) id (f "1") ∅ "abcdefghijklm" in
  rc (Split.io r) = 0 /\ size (Split.files_after r) = 10%nat /\
  Split.files_after (Split.run id (fun _ => None) id (f "2") ∅ "abcd") !! "x2" = Some "".
Proof. vm_compute. done. Qed.

(** * rev *)

Lemma reverse_involutive s : utf8_text s = true -> Rev.reverseRunes (Rev.reverseRunes s) = s.
Proof.
  intros H. unfold Rev.reverseRunes. rewrite runes_string_of_runes by (apply Forall_rev, runes_valid). rewrite rev_involutive. by apply utf8_runes.
Qed.

(** A line is cut at a NUL byte, and its newline with it. *)
Theorem rev_cuts_lines : Rev.rev_data ("a" +:+ String "000" "b" +:+ nl +:+ "c" +:+ nl) = [("a", false); ("c", true)].
Proof. vm_compute. done. Qed.

(** * cmp *)

Lemma first_difference_None d1 : forall d2 p l, Cmp.first_difference d1 d2 p l = None <-> d1 = d2.
Proof.
  induction d1 as [|a d1 IH]; intros [|b d2] p l; cbn [Cmp.first_difference]; [done..|]. destruct (ceqb_spec a b) as [->|Hne]; cbn [negb].
  - rewrite IH. split; [by intros ->|by intros [=]].
  - split; [done|]. by intros [=].
Qed.

(** cmp.  Two inputs are equal exactly if the exit code is 0; else the first difference is reported: before
    the byte it names the inputs agree, there they differ or one has ended. *)
Theorem cmp_first_difference (d1 d2 : string) (p l : Z) :
  match Cmp.first_difference d1 d2 p l with
  | None => d1 = d2
  | Some (pos, _, vals) =>
      p < pos /\ let n := Z.to_nat (pos - p - 1) in
      str_take n d1 = str_take n d2 /\ (n <= String.length d1)%nat /\ (n <= String.length d2)%nat /\
      match vals with
      | Some (v1, v2) => v1 <> v2 /\ code <$> String.get n d1 = Some v1 /\ code <$> String.get n d2 = Some v2
      | None => String.length d1 = n /\ (n < String.length d2)%nat \/ String.length d2 = n /\ (n < String.length d1)%nat
      end
  end.
Proof.
  assert (H0 : forall a b q, Z.to_nat (q + 1 - q - 1) = 0%nat /\ str_take 0 a = str_take 0 b) by (intros [] [] q; split; (lia || done)).
  revert d2 p l. induction d1 as [|a d1 IH]; intros [|b d2] p l; cbn [Cmp.first_difference]; [done|..].
  - split; [lia|]. cbv zeta. destruct (H0 "" (String b d2) p) as [-> ?]. cbn. split; [done|]. split; [lia|]. split; [lia|]. left. lia.
  - split; [lia|]. cbv zeta. destruct (H0 (String a d1) "" p) as [-> ?]. cbn. split; [done|]. split; [lia|]. split; [lia|]. right. lia.
  - destruct (ceqb_spec a b) as [->|Hne]; cbn [negb].
    + specialize (IH d2 (p + 1) (if code b =? 10 then l + 1 else l)). destruct (Cmp.first_difference _ _ _ _) as [[[pos ln] vals]|]; [|by rewrite IH].
      destruct IH as (Hp & H1 & H2 & H3 & H4). split; [lia|]. cbv zeta in *. replace (Z.to_nat (pos - p - 1)) with (S (Z.to_nat (pos - (p + 1) - 1))) by lia.
      set (n := Z.to_nat (pos - (p + 1) - 1)) in *. cbn [str_take String.length String.get]. split; [by rewrite H1|]. split; [lia|]. split; [lia|].
      destruct vals as [[v1 v2]|]; [done|]. lia.
    + split; [lia|]. cbv zeta. destruct (H0 (String a d1) (String b d2) p) as [-> ?]. cbn. split; [done|]. split; [lia|]. split; [lia|]. split; [|done].
      intros E. apply Hne. by rewrite <- (chr_code a), <- (chr_code b), E.
Qed.

(** The exit code of cmp, and what the options make of it: -l lists one difference only, the end of the first input is told of the second, and -n 0 compares nothing. *)
Theorem cmp_bounds :
  let f l n := {| Cmp.jsonMode := false; Cmp.silent := false; Cmp.listMode := l; Cmp.n_arg := n; Cmp.operands := ["a"; "b"] |} in
  let files : gmap string string := {[ "a" := "xy"; "b" := "uvw" ]} in
  let r l n := Cmp.cmpRun id files (f l n) "" in
  (fst (Cmp.Compare "xy" "uv" 0 true) = [{| Cmp.Byte := 1; Cmp.Line := 1 |}; {| Cmp.Byte := 2; Cmp.Line := 1 |}]) /\
  out (r true "") = [line "1 170 165"] /\ rc (r false "0") = 0 /\
  errs (Cmp.cmpRun id {[ "a" := "x"; "b" := "xy" ]} (f false "") "") = [line "cmp: EOF on b"].
Proof. vm_compute. done. Qed.

(** * nl, cat and strings *)

(** A number that is not positive is not printed. *)
Theorem nl_skips_numbers :
  let f := {| Nl.jsonMode := false; Nl.b_arg := "a"; Nl.v_arg := "0"; Nl.w_arg := "2"; Nl.operands := [] |} in
  out (Nl.nlRun id ∅ f ("a" +:+ nl +:+ "b" +:+ nl)) = [line "   a"; line (" 1" +:+ String "009" "b")] /\
  Nl.NumberLines "a" 0 2 ["a"; "b"] = [" 0" +:+ String "009" "a"; " 1" +:+ String "009" "b"].
Proof. vm_compute. done. Qed.

(** -n is forgotten with -v, the numbers begin again with every file, -s takes lines of blanks for empty ones. *)
Theorem cat_options :
  let f n s v := {| Cat.numberAll := n; Cat.numberNonBlank := false; Cat.squeezeBlank := s; Cat.showEnds := false; Cat.showNonPrinting := v; Cat.jsonMode := false; Cat.operands := ["a"; "a"] |} in
  let files : gmap string string := {[ "a" := "x" +:+ nl +:+ " " +:+ nl +:+ nl ]} in
  out (Cat.catRun id files (f true false true) "") = line <$> ["x"; " "; ""; "x"; " "; ""] /\
  out (Cat.catRun id files (f true true false) "") = line <$> ["     1" +:+ String "009" "x"; "     2" +:+ String "009" " "; "     1" +:+ String "009" "x"; "     2" +:+ String "009" " "].
Proof. vm_compute. done. Qed.

(** Of several files strings prints the offset in all of them together, and the name of the first. *)
Theorem strings_files :
  let f := {| Strings.jsonMode := false; Strings.n_arg := ""; Strings.t_arg := "d"; Strings.printName := true; Strings.operands := ["none"; "b"] |} in
  let files : gmap string string := {[ "b" := String "000" "text" ]} in
  let r := Strings.stringsRun files f "" in out r = [line "      1 none: text"] /\ rc r = 0 /\ errs r = [].
Proof. vm_compute. done. Qed.
